(* ===== verification/_CoqProject ===== *)
-Q . S2P
Prelude.v
Decimal.v
Bounded.v
RunState.v
WorkloadContract.v
Policy.v
Outcome.v
Safety.v
Float64.v
Restart.v
Coordinator.v
RuntimeEvidence.v
Codec.v
NetworkFilter.v
ResultFrame.v
Relay.v
Diagnostics.v
RecordLimits.v
WorkloadCodec.v
EncoderLaws.v
Registry.v
RegistryV2.v
JsonDocuments.v
WindowsObservation.v
WindowsRecovery.v
WorkloadEvidence.v
Protocol.v
LaunchRequest.v
CommandLine.v
NativeText.v
Netlink.v
WindowsPe.v
PrivateRuntime.v
PrivateEvidence.v
PrivateJournal.v
AttemptRecord.v
Recovery.v
PolicyActivation.v
Boundary.v
ErrorRecord.v
WindowsAttempt.v
WindowsReceipts.v
Errors.v
Supervision.v
Rejection.v
Supervisor.v
SupervisorRun.v
