(* ===== verification/Prelude.v ===== *)
(** * MemCordon: verification development

    MemCordon runs one command under hard memory and time limits, restarts it
    under a declared policy, and writes a record of what happened that a later
    reader can check.  The platform back ends produce facts (a process was
    placed, a cleanup finished, a limit was hit); memcordon-core turns them into
    states, outcomes, restart decisions and records; the supervisor of
    memcordon-platform drives both; on request the command runs behind a
    privileged provider, the sealed agent of memcordon-cli, that admits it
    against an administrator's registry and keeps durable records of the
    attempt.  Paths below are under src/crates; "agent" is
    memcordon-cli/src/bin/memcordon-sealed-agent.

    ** Parts and files

    Shared ground.
    - Prelude.v, Decimal.v, Bounded.v, Codec.v, Float64.v: Rust's [Result] and
      [&mut self] methods as monads ([result], [stM]), checked and saturating
      machine integers, decimal text, [BoundedVec]/[BoundedText]/
      [DiagnosticSha256] (core diagnostics.rs), byte encodings and exact
      readers, binary64.

    What the caller asks for, and what the administrator allows.
    - WorkloadContract.v (core workload_contract.rs, workload_limits.rs):
      [validate] is the source's method with its early returns;
      [contract_valid] is the specification it decides.  WorkloadCodec.v
      (workload_codec.rs): canonical bytes and digest, versions 1 and 2.
      EncoderLaws.v: what written bytes determine, for digests that are never
      read back.  JsonDocuments.v: the JSON entry points and the duplicate-key
      pass.
    - Registry.v, RegistryV2.v (workload_registry.rs, workload_registry_v2.rs):
      profiles, grants, execution identities and [resolve].
      PolicyActivation.v (agent policy_registry.rs): the registry in force, its
      replacement under a lock, revocations and snapshots.
    - Policy.v (policy.rs): byte sizes, run policy, deadlines.  Restart.v
      (restart.rs, first half): conditions, the exact multiplier, decay,
      circuit settings and [RestartSettings::validate].

    A run.
    - RunState.v (state_machine.rs): the lifecycle of one attempt.
    - Outcome.v (outcome.rs, cli exit_mapping.rs): outcomes, precedence of
      simultaneous events, exit codes.  Safety.v ([RestartSafetyProof] of
      supervision.rs): what must be known before another attempt may start.
    - Coordinator.v (restart.rs, second half): [RestartController] and
      [RestartCoordinator] in [stM env], so that an early return leaves exactly
      the writes made before it.  Module [Spec] is the abstract specification.
    - Supervisor.v, SupervisorRun.v (platform supervisor.rs, backend.rs): the
      loop that runs attempts, asks the coordinator, waits and ends with the
      record; the second file proves what it promises for every host.

    Records.
    - RuntimeEvidence.v, WorkloadEvidence.v, PrivateRuntime.v,
      PrivateEvidence.v (the files of core of the same names, with
      workload_admission_v2.rs and workload_evidence_v2.rs) and Boundary.v
      (supervision.rs): the facts back ends report and the checks that accept
      them.
    - Diagnostics.v, RecordLimits.v (diagnostics.rs): the failure journal of an
      attempt, its published projection and digest, and the limits checked
      before a document or frame is allocated.
    - ErrorRecord.v, Errors.v (error.rs, supervision.rs) and Supervision.v
      (supervision.rs): errors and their provenance, the attempt history, the
      aggregate counters and [SupervisionExecution], the record a run ends with.

    The Linux provider.
    - Protocol.v, LaunchRequest.v (agent protocol.rs, request.rs): frames, the
      launch payload and the broker's request bound to its caller.
    - NetworkFilter.v (agent linux/network_filter.rs): the seccomp compiler and
      the machine it targets.  Netlink.v (network_netlink.rs,
      network_profile.rs): the private network namespace.
    - PrivateJournal.v, AttemptRecord.v (private_attempt.rs, attempt.rs,
      state.rs): the durable records of an attempt, with crashes.  Recovery.v
      (recovery.rs, cgroup.rs in part): what a starting provider does with what
      an earlier one left.
    - Relay.v (private_relay.rs of the agent and of the platform crate): the two
      byte relays and their composition.  ResultFrame.v (platform
      macos_result_frame.rs): the frame of the result writer.
    - Rejection.v (agent rejection.rs, core provider_rejection_wire.rs): a
      failed launch from the error to the evidence of the front end.

    Windows, all of core.
    - CommandLine.v, WindowsAttempt.v, WindowsReceipts.v (windows_sealed.rs):
      command lines and environment blocks, the relay, recovery and
      certification protocols, terminal receipts.  NativeText.v (report.rs,
      error.rs): native text that need not be Unicode.
    - WindowsObservation.v (windows_process_observation.rs and the sampling step
      of agent windows/launcher_service.rs), WindowsRecovery.v
      (windows_recovery_authorization.rs, windows_capability_owner.rs),
      WindowsPe.v (windows_pe.rs): process samples, recovery requests,
      capability owners, and the PE reader with its import gates.

    ** Interfaces

    [EvidenceTypes] (ErrorRecord.v) states what the records ask of the evidence
    types of other files; Supervision.v is proved against it and Errors.v
    discharges it.  The operating system is always a class or record with one
    operation per call the source makes, and its documented behaviour a second
    class: [Host] and [host_contract] (Supervisor.v, SupervisorRun.v), [Kernel]
    with [TransferLaws] and [FlagLaws] (Relay.v), [FileSystem] with [CrashLaws]
    (PrivateJournal.v), [AttemptFiles] with [AttemptFileLaws] (AttemptRecord.v),
    [RecoveryHost] with [QuietHost] and [HostClock] (Recovery.v), [PolicyHost]
    with [PolicyLaws] (PolicyActivation.v), [NetHost] with [HostLaws]
    (Netlink.v).  A theorem that uses laws has a witness on a concrete world
    that satisfies them.

    ** What the theorems show

    - Restarts.  A run of the coordinator is a run of the abstract launch-budget
      machine; launches are numbered, bounded, and each follows a safe limit
      event and a completed wait.  The supervisor ends within its restart budget
      for every host, answers a host that keeps its bounds, and returns the view
      of the log of its attempts.
    - Records.  [AttemptHistory::append] is a bounded view of the complete log;
      [SupervisionExecution::new] certifies what it accepts and accepts what a
      run builds.  Boundary claims are accepted only with the native facts
      behind them.
    - Contracts and policy.  [validate] and [resolve] decide their
      specifications, contracts survive encoding up to the order of their sets,
      a delegated identity stays confined, an activation is all or nothing and
      a revocation persists while a record of an attempt with the admission is
      there, and needed snapshots are kept.
    - Durability.  Wherever a power loss hits, a record's name holds a text its
      reader accepts and that names the attempt; a private record admits a
      release before the release byte is sent; recovery kills a boundary only on
      an authentic record whose frontend, if it names one, was asked for and did
      not answer, and reports everything that is left.
    - Bytes.  Frames, launch requests, journals and command lines are read
      exactly when they are the encoding of a value; the broker's binding
      commits to every field; the relays deliver a prefix in order and, once
      drained, everything.
    - Isolation.  The compiled filter decides every system call as the policy
      does; a namespace is declared ready only when complete kernel dumps show
      the loopback-only configuration.
    - Windows.  The relay protocol and the transition tables of attempts and
      certifications allow exactly the declared runs; no byte string makes the PE reader panic, what it returns is
      bounded, and the import gates see what the loader contract sees.
    - Failures.  Journals stay consistent exactly when their events' references
      are in range, rejections are delivered as built,
      and behaviour the source does not mean (a cooldown that wedges the
      coordinator, exit codes that disagree, terminal flags left non-blocking,
      a caller with many groups, a table never found) is exhibited by theorems.

    ** Bounds and fuel

    Loops that are not structural take a step count.  [endpoint_chain] gets
    [S (length endpoints)] steps and [gcd_loop] more than twice the bit length
    of its argument, both proved enough; [print_digits] gets more digits than
    the widest integer has; the supervisor's loop gets one step more than the
    restart budget, proved enough; [bpf_run] gets the program's length, enough
    because jumps go forward.  The loops of the PE reader carry the source's own
    limits.  The netlink parsers get the length of their input and are proved
    not to run out.  Polling loops get the deadline divided by the pause, plus
    one: 1001 polls to retire a control group, 3001 for the registry's lock and
    3001 for retiring admissions; with a clock that advances ([HostClock]) they
    are enough ([retire_loop_ends], [lock_loop_ends], [await_retirement_ends]).
    Machine integers are [N] (or [Z] for [i32]) with the
    width checks of [checked_add], [saturating_add], [try_from] written out at
    each use; an addition the source leaves unchecked panics outside its width.

    ** Parameters

    SHA-256 is a function [sha256_hash]; a theorem that needs it to separate two
    byte strings says so for those strings.  [f64::exp2] is a function about
    which nothing is assumed.  serde_json and derived serializers are the
    classes [SerdeJson], [Deserialize] and [Serialize]; Base64, the Unicode
    upper-case table, the byte order and the numbers of the C library
    ([Libc], [RouteLibc]) are parameters too.  Every hypothesis on one of them
    has a witness with concrete functions.

    ** Not modelled

    In core: report and result documents (report.rs, report_v11.rs,
    result_v1.rs, the historical files), discovery documents, runtime manifest
    and readiness, and of windows_sealed.rs the authentication of durable
    records, security descriptor text and certification catalogues; they are
    serialized views or descriptions of an installation.  In the agent: the
    Linux launcher, service, guardian, namespace and custody code and the whole
    Windows service (record.rs, launcher_service.rs, security.rs, the loader),
    whose content is the operating system's answers to privileged calls.  In
    memcordon-platform: the back ends behind [Host] (macos_launch.rs,
    linux_cgroup.rs, windows_job.rs, the watchdogs).  The Windows launch core,
    the argument parser and presentation of the command line, the test kit,
    fuzz targets and tools are left out as well. *)

From stdpp Require Export base decidable numbers option.
From stdpp Require Export list sets strings.
From Stdlib Require Export NArith ZArith Lia ZifyBool ZifyNat ZifyN.

#[global] Open Scope N_scope.

(** ** Results

    Rust's [Result<A, E>], with the error type first so that [result E] is a
    monad; [?] is stdpp's bind. *)
Inductive result (E A : Type) : Type :=
| Ok (a : A)
| Err (e : E).
Arguments Ok {_ _} _.
Arguments Err {_ _} _.

#[global] Instance result_ret {E} : MRet (result E) := λ A a, Ok a.
#[global] Instance result_bind {E} : MBind (result E) := λ A B f r,
  match r with Ok a => f a | Err e => Err e end.
#[global] Instance result_fmap {E} : FMap (result E) := λ A B f r,
  match r with Ok a => Ok (f a) | Err e => Err e end.

Definition is_ok {E A} (r : result E A) : bool :=
  match r with Ok _ => true | Err _ => false end.

(** [Option::ok_or] and [Result::map_err]. *)
Definition ok_or {E A} (e : E) (o : option A) : result E A :=
  match o with Some a => Ok a | None => Err e end.
Definition map_err {E F A} (f : E → F) (r : result E A) : result F A :=
  match r with Ok a => Ok a | Err e => Err (f e) end.

(** [if c { return Err(e) }] *)
Definition guard_err {E} (c : bool) (e : E) : result E () :=
  if c then Err e else Ok ().

#[global] Instance result_eq_dec {E A} `{EqDecision E, EqDecision A} :
  EqDecision (result E A).
Proof. solve_decision. Defined.

Lemma bind_Ok {E A B} (f : A → result E B) r b :
  (r ≫= f) = Ok b ↔ ∃ a, r = Ok a ∧ f a = Ok b.
Proof. destruct r as [a|e]; simpl; naive_solver. Qed.

#[global] Instance Ok_inj {E A} : Inj (=) (=) (@Ok E A).
Proof. by intros a b [=]. Qed.

Lemma ok_or_Ok {E A} (e : E) (o : option A) a : ok_or e o = Ok a ↔ o = Some a.
Proof. destruct o; simpl; naive_solver. Qed.

Lemma map_err_Ok {E F A} (f : E → F) (r : result E A) a :
  map_err f r = Ok a ↔ r = Ok a.
Proof. destruct r; simpl; naive_solver. Qed.

Lemma guard_bind_Ok {E A} c (e : E) (k : result E A) x :
  (guard_err c e ≫= λ _, k) = Ok x ↔ c = false ∧ k = Ok x.
Proof. destruct c; cbn; naive_solver. Qed.

Lemma guard_err_Ok {E} c (e : E) u : guard_err c e = Ok u ↔ c = false.
Proof. destruct c, u; simpl; naive_solver. Qed.

(** ** Methods on [&mut self] that can fail

    A method that fails part-way keeps the mutations it made before the
    failing statement, so the state is returned in both cases. *)
Definition stM (S E A : Type) : Type := S → S * result E A.

#[global] Instance stM_ret {S E} : MRet (stM S E) := λ A a s, (s, Ok a).
#[global] Instance stM_bind {S E} : MBind (stM S E) := λ A B f m s,
  match m s with
  | (s', Ok a) => f a s'
  | (s', Err e) => (s', Err e)
  end.

Definition st_get {S E} : stM S E S := λ s, (s, Ok s).
Definition st_modify {S E} (f : S → S) : stM S E () := λ s, (f s, Ok ()).
Definition st_lift {S E A} (r : result E A) : stM S E A := λ s, (s, r).

Lemma stM_bind_Ok {S E A B} (m : stM S E A) (f : A → stM S E B) s s' b :
  (m ≫= f) s = (s', Ok b) ↔ ∃ s1 a, m s = (s1, Ok a) ∧ f a s1 = (s', Ok b).
Proof. unfold mbind, stM_bind. destruct (m s) as [s1 [a|e]]; naive_solver. Qed.
Lemma st_lift_Ok {S E A} (r : result E A) (s s' : S) a :
  st_lift r s = (s', Ok a) ↔ s' = s ∧ r = Ok a.
Proof. unfold st_lift. naive_solver. Qed.

(** [for x in l { f(x)?; }] and a loop that collects its results. *)
Fixpoint st_for {S E A} (f : A → stM S E ()) (l : list A) : stM S E () :=
  match l with
  | [] => mret ()
  | x :: l => f x ≫= λ _, st_for f l
  end.
Fixpoint st_repeat {S E A} (n : nat) (m : stM S E A) : stM S E (list A) :=
  match n with
  | O => mret []
  | Datatypes.S n => m ≫= λ x, st_repeat n m ≫= λ l, mret (x :: l)
  end.

(** ** Boolean tests of the source *)
Declare Scope rust_scope.
Delimit Scope rust_scope with rust.
Notation "x ≟ y" := (bool_decide (x = y)) (at level 70, no associativity) : rust_scope.
Notation "x ≠? y" := (negb (bool_decide (x = y))) (at level 70, no associativity) : rust_scope.
#[global] Open Scope rust_scope.

(** [Option::is_none_or] and [Option::is_some_and]. *)
Definition is_none_or {A} (p : A → bool) (o : option A) : bool :=
  match o with Some a => p a | None => true end.
Definition is_some_and {A} (p : A → bool) (o : option A) : bool :=
  match o with Some a => p a | None => false end.
Definition is_some {A} (o : option A) : bool :=
  match o with Some _ => true | None => false end.
Definition is_none {A} (o : option A) : bool := negb (is_some o).

Lemma is_some_true {A} (o : option A) : is_some o = true ↔ is_Some o.
Proof. destruct o; simpl; split; [by eauto|done|done|by intros [? [=]]]. Qed.
Lemma is_none_true {A} (o : option A) : is_none o = true ↔ o = None.
Proof. destruct o; simpl; naive_solver. Qed.
Lemma is_none_false {A} (o : option A) : is_none o = false ↔ is_Some o.
Proof. unfold is_none. rewrite negb_false_iff. apply is_some_true. Qed.
Lemma is_some_false {A} (o : option A) : is_some o = false ↔ o = None.
Proof. destruct o; simpl; naive_solver. Qed.
Lemma is_some_and_true {A} (p : A → bool) o :
  is_some_and p o = true ↔ ∃ a, o = Some a ∧ p a = true.
Proof. destruct o; simpl; naive_solver. Qed.
Lemma is_none_or_true {A} (p : A → bool) o :
  is_none_or p o = true ↔ ∀ a, o = Some a → p a = true.
Proof. destruct o; simpl; naive_solver. Qed.

(** ** Machine integers

    An unsigned [w]-bit integer is an [N]; the operations that can leave the
    range are checked, saturating or wrapping as in the source. *)
Definition in_range (w n : N) : Prop := n < 2 ^ w.
Definition fits (w n : N) : bool := n <? 2 ^ w.
Definition checked_add (w a b : N) : option N :=
  if fits w (a + b) then Some (a + b) else None.
Definition checked_sub (a b : N) : option N :=
  if b <=? a then Some (a - b) else None.
Definition checked_mul (w a b : N) : option N :=
  if fits w (a * b) then Some (a * b) else None.
Definition checked_pow (w a b : N) : option N :=
  if fits w (a ^ b) then Some (a ^ b) else None.
Definition try_from (w n : N) : option N := if fits w n then Some n else None.
Definition saturating_mul (w a b : N) : N := N.min (a * b) (2 ^ w - 1).

Definition u32_max : N := 2 ^ 32 - 1.
Definition u64_max : N := 2 ^ 64 - 1.

(** [i32::saturating_add]. *)
Definition i32_min : Z := (- 2 ^ 31)%Z.
Definition i32_max : Z := (2 ^ 31 - 1)%Z.
Definition i32_saturating_add (a b : Z) : Z := Z.max i32_min (Z.min i32_max (a + b)%Z).
Definition is_i32 (z : Z) : Prop := (i32_min <= z <= i32_max)%Z.

Lemma checked_add_Some w a b c :
  checked_add w a b = Some c ↔ c = a + b ∧ a + b < 2 ^ w.
Proof. unfold checked_add, fits. case_match; naive_solver lia. Qed.
Lemma checked_add_None w a b : checked_add w a b = None ↔ 2 ^ w <= a + b.
Proof. unfold checked_add, fits. case_match; naive_solver lia. Qed.
Lemma checked_sub_Some a b c : checked_sub a b = Some c ↔ b <= a ∧ c = a - b.
Proof. unfold checked_sub. case_match; naive_solver lia. Qed.
Lemma checked_mul_Some w a b c :
  checked_mul w a b = Some c ↔ c = a * b ∧ a * b < 2 ^ w.
Proof. unfold checked_mul, fits. case_match; naive_solver lia. Qed.
Lemma checked_pow_Some w a b c :
  checked_pow w a b = Some c ↔ c = a ^ b ∧ a ^ b < 2 ^ w.
Proof. unfold checked_pow, fits. case_match; naive_solver lia. Qed.
Lemma try_from_Some w n m : try_from w n = Some m ↔ m = n ∧ n < 2 ^ w.
Proof. unfold try_from, fits. case_match; naive_solver lia. Qed.

(** [std::time::Duration]: a number of nanoseconds, below [2^64] seconds. *)
Definition Duration : Type := N.
Definition Duration_ZERO : Duration := 0.
Definition from_millis (ms : N) : Duration := ms * 1000000.
Definition from_secs (s : N) : Duration := s * 1000000000.
Definition as_millis (d : Duration) : N := d / 1000000.
Definition as_nanos (d : Duration) : N := d.
Definition duration_checked_add (a b : Duration) : option Duration :=
  if a + b <? 2 ^ 64 * 1000000000 then Some (a + b) else None.
Definition duration_valid (d : Duration) : Prop := d < 2 ^ 64 * 1000000000.

Lemma as_millis_from_millis ms : as_millis (from_millis ms) = ms.
Proof. unfold as_millis, from_millis. by rewrite N.div_mul. Qed.

(** ** Proof automation *)
Create HintDb rust discriminated.

(** Turns the boolean hypotheses a validated value leaves in the context into
    propositions, without splitting the goal. *)
Ltac bool_hyps :=
  repeat match goal with
  | H : _ && _ = true |- _ => apply andb_true_iff in H as [??]
  | H : _ || _ = false |- _ => apply orb_false_iff in H as [??]
  | H : negb _ = true |- _ => apply negb_true_iff in H
  | H : negb _ = false |- _ => apply negb_false_iff in H
  | H : bool_decide _ = true |- _ => apply bool_decide_eq_true in H
  | H : bool_decide _ = false |- _ => apply bool_decide_eq_false in H
  | H : is_some _ = true |- _ => apply is_some_true in H
  | H : is_some _ = false |- _ => apply is_some_false in H
  | H : is_none _ = true |- _ => apply is_none_true in H
  | H : is_none _ = false |- _ => apply is_none_false in H
  | H : N.leb _ _ = true |- _ => apply N.leb_le in H
  | H : N.leb _ _ = false |- _ => apply N.leb_gt in H
  | H : N.ltb _ _ = true |- _ => apply N.ltb_lt in H
  | H : N.ltb _ _ = false |- _ => apply N.ltb_ge in H
  | H : N.eqb _ _ = true |- _ => apply N.eqb_eq in H
  | H : N.eqb _ _ = false |- _ => apply N.eqb_neq in H
  end.

(** The same for a goal that is a conjunction of boolean tests. *)
Ltac bool_goal :=
  repeat match goal with
  | |- _ && _ = true => apply andb_true_iff; split
  | |- _ || _ = false => apply orb_false_iff; split
  | |- negb _ = true => apply negb_true_iff
  | |- negb _ = false => apply negb_false_iff
  | |- bool_decide _ = true => apply bool_decide_eq_true
  | |- bool_decide _ = false => apply bool_decide_eq_false
  | |- N.leb _ _ = true => apply N.leb_le
  | |- N.ltb _ _ = true => apply N.ltb_lt
  | |- N.eqb _ _ = true => apply N.eqb_eq
  end.

(** Runs a fallible computation in a hypothesis: opens binds and the checked
    primitives, one success equation at a time. *)
Ltac run_ok :=
  repeat match goal with
  | H : (_ ≫= _) = Ok _ |- _ => apply bind_Ok in H as (? & ? & H)
  | H : mret _ = Ok _ |- _ => unfold mret, result_ret in H
  | H : ok_or _ _ = Ok _ |- _ => apply ok_or_Ok in H
  | H : map_err _ _ = Ok _ |- _ => apply map_err_Ok in H
  | H : guard_err _ _ = Ok _ |- _ => apply guard_err_Ok in H
  | H : checked_add _ _ _ = Some _ |- _ => apply checked_add_Some in H as [-> ?]
  | H : checked_mul _ _ _ = Some _ |- _ => apply checked_mul_Some in H as [-> ?]
  | H : checked_pow _ _ _ = Some _ |- _ => apply checked_pow_Some in H as [-> ?]
  | H : checked_sub _ _ = Some _ |- _ => apply checked_sub_Some in H as [? ->]
  | H : try_from _ _ = Some _ |- _ => apply try_from_Some in H as [-> ?]
  | _ => progress simplify_eq/=
  end.

(** ** Lists *)

Lemma existsb_false_elem {A} (p : A → bool) (l : list A) :
  existsb p l = false ↔ ∀ x, x ∈ l → p x = false.
Proof.
  induction l as [|x l IH]; cbn.
  - split; [|done]. intros _ x Hx. by apply not_elem_of_nil in Hx.
  - rewrite orb_false_iff, IH. split.
    + intros [? ?] y [->|?]%elem_of_cons; auto.
    + intros H. split; [apply H; left|intros y Hy; apply H; by right].
Qed.

(** [slice[..index].iter().any(..)] over all indices: the value has no two
    related elements. *)
Fixpoint all_distinct {A} `{EqDecision A} (l : list A) : bool :=
  match l with
  | [] => true
  | x :: l' => bool_decide (x ∉ l') && all_distinct l'
  end.

Lemma all_distinct_NoDup {A} `{EqDecision A} (l : list A) :
  all_distinct l = true ↔ NoDup l.
Proof.
  induction l as [|x l IH]; simpl.
  - split; [constructor | done].
  - by rewrite andb_true_iff, bool_decide_eq_true, IH, NoDup_cons.
Qed.

Lemma forallb_Forall {A} (p : A → bool) l :
  forallb p l = true ↔ Forall (λ x, p x = true) l.
Proof.
  induction l as [|x l IH]; simpl; [naive_solver|].
  rewrite andb_true_iff, IH, Forall_cons. done.
Qed.

(** Looking an element up by its key, when keys do not repeat. *)
Section find_key.
  Context {A K : Type} `{EqDecision K} (key : A → K).

Lemma find_key_Some (l : list A) k x :
  NoDup (key <$> l) → List.find (λ y, key y ≟ k) l = Some x ↔ x ∈ l ∧ key x = k.
Proof.
  induction l as [|y l IH]; simpl; intros Hnd.
  { split; [done|]. intros [H _]. inversion H. }
  apply NoDup_cons in Hnd as [Hy Hnd]. case_bool_decide as E.
  - split; [intros [= ->]; split; [constructor|done]|].
    intros [[->|Hx]%elem_of_cons Hk]; [done|].
    destruct Hy. rewrite E, <- Hk. by apply list_elem_of_fmap_2.
  - rewrite IH by done. rewrite elem_of_cons. naive_solver.
Qed.

Lemma existsb_key (l : list A) k :
  existsb (λ y, key y ≟ k) l = true ↔ k ∈ (key <$> l).
Proof.
  rewrite existsb_exists, list_elem_of_fmap. setoid_rewrite bool_decide_eq_true.
  setoid_rewrite list_elem_of_In. naive_solver.
Qed.

Lemma existsb_key_false (l : list A) k :
  existsb (λ y, key y ≟ k) l = false ↔ k ∉ (key <$> l).
Proof. rewrite <- not_true_iff_false, existsb_key. done. Qed.
End find_key.

Lemma bind_unit_Ok {E} (r : result E ()) (f : result E ()) :
  (r ≫= λ _, f) = Ok () ↔ r = Ok () ∧ f = Ok ().
Proof. destruct r as [[]|]; simpl; naive_solver. Qed.
