(* ===== verification/Decimal.v ===== *)
(** * Decimal text

    Unsigned decimal integers as [str::parse] reads them and [Display] writes
    them, and the decimal grammar that [ByteSize::from_str]
    (memcordon-core/src/policy.rs), [parse_duration] (memcordon-cli/src/lib.rs)
    and [BackoffMultiplier::from_str] (memcordon-core/src/restart.rs) share:
    a number with at most one point, then a unit.  A Rust [str] is the string
    of its UTF-8 bytes. *)

From S2P Require Import Prelude.
From Stdlib Require Import Ascii.

Definition bytes (s : string) : list ascii := String.list_ascii_of_string s.
Definition str_len (s : string) : N := N.of_nat (String.length s).
Definition str_is_empty (s : string) : bool :=
  match s with EmptyString => true | _ => false end.

Definition byte_le (a b : ascii) : bool := N_of_ascii a <=? N_of_ascii b.
Definition byte_between (lo hi c : ascii) : bool := byte_le lo c && byte_le c hi.
Definition is_ascii_digit (c : ascii) : bool := byte_between "0" "9" c.
Definition is_ascii_lowercase (c : ascii) : bool := byte_between "a" "z" c.
Definition is_ascii_uppercase (c : ascii) : bool := byte_between "A" "Z" c.
Definition is_lower_hex (c : ascii) : bool := is_ascii_digit c || byte_between "a" "f" c.
Definition is_ascii_hexdigit (c : ascii) : bool :=
  is_lower_hex c || byte_between "A" "F" c.
Definition is_ascii (c : ascii) : bool := N_of_ascii c <? 128.

Definition str_all (p : ascii → bool) (s : string) : bool := forallb p (bytes s).
Definition str_contains (c : ascii) (s : string) : bool :=
  existsb (λ d, d ≟ c) (bytes s).
Definition starts_with (c : ascii) (s : string) : bool :=
  match s with String d _ => d ≟ c | EmptyString => false end.
Definition ends_with (c : ascii) (s : string) : bool :=
  match reverse (bytes s) with d :: _ => d ≟ c | [] => false end.

Definition digit_value (c : ascii) : N := N_of_ascii c - 48.

(** The value of a digit string, most significant digit first. *)
Definition digits_value (ds : list ascii) : N :=
  fold_left (λ acc c, acc * 10 + digit_value c) ds 0.

Definition all_digits (s : string) : bool := negb (str_is_empty s) && str_all is_ascii_digit s.

(** [str::parse] at an unsigned type of [w] bits: an optional [+], digits, and
    a value in range. *)
Definition parse_uint (w : N) (s : string) : option N :=
  let digits := match s with String "+" s' => s' | _ => s end in
  if all_digits digits then try_from w (digits_value (bytes digits)) else None.

(** [Display] of an unsigned integer; [fuel] digits at most. *)
Fixpoint print_digits (fuel : nat) (n : N) (acc : string) : string :=
  match fuel with
  | O => acc
  | S fuel =>
      let acc := String (ascii_of_N (48 + n mod 10)) acc in
      if n <? 10 then acc else print_digits fuel (n / 10) acc
  end.
Definition print_uint (n : N) : string := print_digits (S (N.size_nat n)) n "".

(** The longest prefix of digits and points, and the rest (the unit). *)
Fixpoint split_number (s : string) : string * string :=
  match s with
  | EmptyString => (""%string, ""%string)
  | String c s' =>
      if is_ascii_digit c || (c ≟ "."%char)
      then let '(number, unit) := split_number s' in (String c number, unit)
      else (""%string, s)
  end.

(** [str::split('.')]: the first piece and the others. *)
Fixpoint split_dot (s : string) : string * list string :=
  match s with
  | EmptyString => (""%string, [])
  | String c s' =>
      let '(piece, rest) := split_dot s' in
      if (c ≟ "."%char) then (""%string, piece :: rest) else (String c piece, rest)
  end.

(** Whole and fractional digits of a well-formed decimal. *)
Definition decimal_parts (number : string) : option (string * option string) :=
  match split_dot number with
  | (whole, []) => if all_digits whole then Some (whole, None) else None
  | (whole, [fraction]) =>
      if all_digits whole && all_digits fraction then Some (whole, Some fraction) else None
  | _ => None
  end.

(** The checked [u128] arithmetic: [whole * multiplier] plus the fraction's
    share, rounded up. *)
Definition scale_decimal (multiplier : N) (whole : string) (fraction : option string) : option N :=
  w ← parse_uint 128 whole;
  scaled ← checked_mul 128 w multiplier;
  match fraction with
  | None => Some scaled
  | Some digits =>
      f ← parse_uint 128 digits;
      numerator ← checked_mul 128 f multiplier;
      len ← try_from 32 (str_len digits);
      denominator ← checked_pow 128 10 len;
      sum ← checked_add 128 numerator (denominator - 1);
      checked_add 128 scaled (sum / denominator)
  end.

(** ** Digit strings *)

Lemma bytes_app s t : bytes (s +:+ t) = bytes s ++ bytes t.
Proof. induction s as [|c s IH]; simpl; [done|]. f_equal. apply IH. Qed.

Lemma str_len_cons c s : str_len (String c s) = 1 + str_len s.
Proof. unfold str_len. simpl. lia. Qed.

Lemma str_len_bytes s : str_len s = N.of_nat (length (bytes s)).
Proof. unfold str_len, bytes. induction s as [|c s IH]; simpl in *; lia. Qed.

Lemma digit_bounds c : is_ascii_digit c = true → digit_value c <= 9.
Proof.
  unfold is_ascii_digit, byte_between, byte_le, digit_value.
  intros H. bool_hyps. change (N_of_ascii "9") with 57 in *. lia.
Qed.

Lemma ascii_of_digit n :
  n < 10 → is_ascii_digit (ascii_of_N (48 + n)) = true
           ∧ digit_value (ascii_of_N (48 + n)) = n.
Proof.
  intros Hn. unfold is_ascii_digit, byte_between, byte_le, digit_value.
  rewrite N_ascii_embedding by lia.
  change (N_of_ascii "0") with 48. change (N_of_ascii "9") with 57.
  split; [bool_goal; lia | lia].
Qed.

Lemma fold_digits_acc ds acc :
  fold_left (λ acc c, acc * 10 + digit_value c) ds acc
  = acc * 10 ^ N.of_nat (length ds) + digits_value ds.
Proof.
  unfold digits_value. revert acc.
  induction ds as [|c ds IH]; intros acc; [simpl; lia|].
  cbn [fold_left length]. rewrite IH, (IH (0 * 10 + _)), Nat2N.inj_succ, N.pow_succ_r'. lia.
Qed.

Lemma digits_value_cons c ds :
  digits_value (c :: ds) = digit_value c * 10 ^ N.of_nat (length ds) + digits_value ds.
Proof. unfold digits_value at 1. simpl. apply fold_digits_acc. Qed.

Lemma digits_value_bound ds :
  forallb is_ascii_digit ds = true → digits_value ds < 10 ^ N.of_nat (length ds).
Proof.
  induction ds as [|c ds IH]; intros H; [unfold digits_value; simpl; lia|].
  simpl in H. bool_hyps. rewrite digits_value_cons. simpl length.
  rewrite Nat2N.inj_succ, N.pow_succ_r'.
  pose proof (digit_bounds c ltac:(done)). specialize (IH ltac:(done)). nia.
Qed.

(** Printing then reading gives the number back. *)
Lemma print_digits_value fuel n acc :
  n < 10 ^ N.of_nat fuel →
  digits_value (bytes (print_digits fuel n acc))
  = n * 10 ^ N.of_nat (length (bytes acc)) + digits_value (bytes acc).
Proof.
  revert n acc. induction fuel as [|fuel IH]; intros n acc Hn; [simpl in *; assert (n = 0) as -> by lia; done|]. cbn [print_digits].
  assert (n mod 10 < 10) as Hm by (apply N.mod_lt; lia).
  destruct (ascii_of_digit _ Hm) as [_ Hv].
  destruct (N.ltb_spec n 10).
  - change (bytes (String ?c acc)) with (c :: bytes acc).
    rewrite digits_value_cons, Hv, N.mod_small by lia. done.
  - rewrite IH.
    + change (bytes (String ?c acc)) with (c :: bytes acc).
      rewrite digits_value_cons, Hv. simpl length.
      rewrite Nat2N.inj_succ, N.pow_succ_r'.
      pose proof (N.div_mod n 10 ltac:(lia)). nia.
    + rewrite Nat2N.inj_succ, N.pow_succ_r' in Hn.
      apply N.Div0.div_lt_upper_bound. lia.
Qed.

Lemma print_digits_all fuel n acc :
  str_all is_ascii_digit acc = true → str_all is_ascii_digit (print_digits fuel n acc) = true.
Proof.
  revert n acc. induction fuel as [|fuel IH]; intros n acc H; simpl; [done|].
  assert (str_all is_ascii_digit (String (ascii_of_N (48 + n mod 10)) acc) = true).
  { unfold str_all in *. simpl. rewrite H, andb_true_r.
    apply ascii_of_digit. apply N.mod_lt. lia. }
  case_match; auto.
Qed.

Lemma print_digits_nonempty fuel n acc :
  fuel ≠ O → str_is_empty (print_digits fuel n acc) = false.
Proof.
  destruct fuel as [|fuel]; [done|]. intros _. revert n acc.
  assert (∀ fuel n c acc, str_is_empty (print_digits fuel n (String c acc)) = false) as Hne.
  { intros f. induction f as [|f IH]; intros; simpl; [done|]. case_match; auto. }
  intros n acc. simpl. case_match; auto.
Qed.

Lemma print_uint_all_digits n : all_digits (print_uint n) = true.
Proof.
  unfold all_digits, print_uint. rewrite print_digits_nonempty by done.
  by apply print_digits_all.
Qed.

Lemma size_nat_pow n : n < 10 ^ N.of_nat (S (N.size_nat n)).
Proof.
  rewrite Nat2N.inj_succ. destruct n as [|p]; [simpl; lia|].
  assert (N.pos p < 2 ^ N.of_nat (N.size_nat (N.pos p))) as H.
  { pose proof (N.size_gt (N.pos p)).
    replace (N.of_nat (N.size_nat (N.pos p))) with (N.size (N.pos p)); [done|].
    simpl. clear. induction p; simpl; lia. }
  eapply N.lt_le_trans; [exact H|].
  eapply N.le_trans; [apply N.pow_le_mono_l with (b := 10); lia|].
  apply N.pow_le_mono_r; lia.
Qed.

Lemma digits_value_print n : digits_value (bytes (print_uint n)) = n.
Proof.
  unfold print_uint. rewrite print_digits_value by apply size_nat_pow.
  change (bytes "") with (@nil ascii). change (digits_value []) with 0. simpl. lia.
Qed.

Lemma all_digits_no_plus s : all_digits s = true → match s with String "+" s' => s' | _ => s end = s.
Proof.
  destruct s as [|c s]; [done|]. unfold all_digits, str_all. simpl. intros H. bool_hyps.
  destruct c as [[] [] [] [] [] [] [] []]; try done.
Qed.

Lemma parse_uint_all_digits w s :
  all_digits s = true → parse_uint w s = try_from w (digits_value (bytes s)).
Proof. intros H. unfold parse_uint. by rewrite all_digits_no_plus, H. Qed.

Lemma parse_print_uint w n : n < 2 ^ w → parse_uint w (print_uint n) = Some n.
Proof.
  intros Hn. rewrite parse_uint_all_digits by apply print_uint_all_digits.
  rewrite digits_value_print. by apply try_from_Some.
Qed.

(** ** The decimal grammar *)

Lemma split_number_app number unit :
  str_all (λ c, is_ascii_digit c || (c ≟ "."%char)) number = true →
  match unit with String c _ => is_ascii_digit c || (c ≟ "."%char) = false | _ => True end →
  split_number (number +:+ unit) = (number, unit).
Proof.
  intros Hn Hu. induction number as [|c s IH].
  - change ("" +:+ unit)%string with unit. destruct unit as [|c u]; simpl; [done|]. by rewrite Hu.
  - unfold str_all in Hn. simpl in Hn. bool_hyps.
    change (String c s +:+ unit) with (String c (s +:+ unit)). simpl.
    rewrite H. by rewrite IH.
Qed.

Lemma digits_no_dot s : str_all is_ascii_digit s = true → split_dot s = (s, []).
Proof.
  induction s as [|c s IH]; unfold str_all; simpl; [done|]. intros H. bool_hyps.
  rewrite IH by done. case_bool_decide; [by subst c|done].
Qed.

Lemma decimal_parts_digits s : all_digits s = true → decimal_parts s = Some (s, None).
Proof.
  intros H. unfold decimal_parts. pose proof H as H'. unfold all_digits in H'. bool_hyps.
  by rewrite digits_no_dot, H.
Qed.

Lemma decimal_parts_spec number whole fraction :
  decimal_parts number = Some (whole, fraction) →
  all_digits whole = true ∧ (∀ f, fraction = Some f → all_digits f = true).
Proof.
  unfold decimal_parts. destruct (split_dot number) as [w [|f [|]]] eqn:E; [..|done];
    case_match; intros; simplify_eq; bool_hyps; naive_solver.
Qed.

(** ** What the scaling computes *)

(** The exact value of [whole.fraction] times the multiplier, rounded up. *)
Definition decimal_ceil (multiplier : N) (whole : string) (fraction : option string) : N :=
  let digits := default ""%string fraction in
  let scale := 10 ^ str_len digits in
  let units := (digits_value (bytes whole) * scale + digits_value (bytes digits)) * multiplier in
  (units + (scale - 1)) / scale.

Lemma scale_decimal_exact multiplier whole fraction n :
  all_digits whole = true → (∀ f, fraction = Some f → all_digits f = true) →
  scale_decimal multiplier whole fraction = Some n →
  n = decimal_ceil multiplier whole fraction.
Proof.
  intros Hw Hf. unfold scale_decimal, decimal_ceil.
  rewrite parse_uint_all_digits by done.
  destruct (try_from 128 _) as [w|] eqn:Ew; [|done]. apply try_from_Some in Ew as [-> Ew].
  simpl. destruct (checked_mul _ _ _) as [sw|] eqn:Es; [|done].
  apply checked_mul_Some in Es as [-> Es]. simpl.
  destruct fraction as [digits|]; simpl.
  - rewrite parse_uint_all_digits by (apply Hf; done).
    destruct (try_from 128 _) as [f|] eqn:Ef; [|done]. apply try_from_Some in Ef as [-> Ef]. simpl.
    destruct (checked_mul _ _ _) as [num|] eqn:En; [|done]. apply checked_mul_Some in En as [-> En]. simpl.
    destruct (try_from 32 _) as [len|] eqn:El; [|done]. apply try_from_Some in El as [-> El]. cbn [mbind option_bind].
    destruct (checked_pow _ _ _) as [d|] eqn:Ed; [|done]. apply checked_pow_Some in Ed as [-> Ed]. cbn [mbind option_bind].
    destruct (checked_add _ _ _) as [s|] eqn:Ea; [|done]. apply checked_add_Some in Ea as [-> Ea]. cbn [mbind option_bind].
    intros H. apply checked_add_Some in H as [-> _].
    rewrite N.mul_add_distr_r.
    replace (digits_value (bytes whole) * 10 ^ str_len digits * multiplier)
      with (digits_value (bytes whole) * multiplier * 10 ^ str_len digits) by lia.
    rewrite <- N.add_assoc, N.div_add_l; [done|]. apply N.pow_nonzero. lia.
  - intros [= <-]. change (bytes "") with (@nil ascii). change (digits_value []) with 0.
    change (str_len "") with 0. rewrite N.pow_0_r, N.div_1_r. lia.
Qed.

(** In range, the scaling succeeds: the only failures are overflows. *)
Lemma scale_decimal_total multiplier whole fraction :
  all_digits whole = true → (∀ f, fraction = Some f → all_digits f = true) →
  scale_decimal multiplier whole fraction = None →
  2 ^ 128 <= digits_value (bytes whole)
  ∨ 2 ^ 128 <= digits_value (bytes whole) * multiplier
  ∨ ∃ f, fraction = Some f ∧
      (2 ^ 128 <= digits_value (bytes f) ∨ 2 ^ 128 <= digits_value (bytes f) * multiplier
       ∨ 2 ^ 32 <= str_len f ∨ 2 ^ 128 <= 10 ^ str_len f
       ∨ 2 ^ 128 <= digits_value (bytes f) * multiplier + (10 ^ str_len f - 1)
       ∨ 2 ^ 128 <= decimal_ceil multiplier whole fraction).
Proof.
  intros Hw Hf. unfold scale_decimal.
  rewrite parse_uint_all_digits by done.
  unfold try_from, checked_mul, checked_pow, checked_add, fits.
  destruct (N.ltb_spec (digits_value (bytes whole)) (2 ^ 128)); [|by left]. cbn [mbind option_bind].
  destruct (N.ltb_spec (digits_value (bytes whole) * multiplier) (2 ^ 128)); [|by right; left].
  cbn [mbind option_bind]. destruct fraction as [f|]; [|done].
  rewrite parse_uint_all_digits by (apply Hf; done). unfold try_from, fits.
  intros H1. right; right. exists f. split; [done|]. revert H1.
  destruct (N.ltb_spec (digits_value (bytes f)) (2 ^ 128)); [|by left]. cbn [mbind option_bind].
  destruct (N.ltb_spec (digits_value (bytes f) * multiplier) (2 ^ 128)); [|by right; left]. cbn [mbind option_bind].
  destruct (N.ltb_spec (str_len f) (2 ^ 32)); [|by right; right; left]. cbn [mbind option_bind].
  destruct (N.ltb_spec (10 ^ str_len f) (2 ^ 128)); [|by do 3 right; left]. cbn [mbind option_bind].
  destruct (N.ltb_spec (digits_value (bytes f) * multiplier + (10 ^ str_len f - 1)) (2 ^ 128));
    [|by do 4 right; left].
  cbn [mbind option_bind]. case_match eqn:E; [done|]. intros _. do 5 right.
  apply N.ltb_ge in E. eapply N.le_trans; [exact E|]. unfold decimal_ceil. simpl.
  rewrite N.mul_add_distr_r.
  replace (digits_value (bytes whole) * 10 ^ str_len f * multiplier)
    with (digits_value (bytes whole) * multiplier * 10 ^ str_len f) by lia.
  rewrite <- N.add_assoc, N.div_add_l; [lia|]. apply N.pow_nonzero. lia.
Qed.

(** The quotient is the least integer not below the decimal's value. *)
Lemma decimal_ceil_least multiplier whole fraction :
  let digits := default ""%string fraction in
  let scale := 10 ^ str_len digits in
  let units := (digits_value (bytes whole) * scale + digits_value (bytes digits)) * multiplier in
  units <= decimal_ceil multiplier whole fraction * scale < units + scale.
Proof.
  cbv zeta. unfold decimal_ceil. set (scale := 10 ^ _). set (units := _ * multiplier).
  assert (scale ≠ 0) as Hs by (apply N.pow_nonzero; lia).
  pose proof (N.div_mod (units + (scale - 1)) scale Hs).
  pose proof (N.mod_lt (units + (scale - 1)) scale Hs). nia.
Qed.

Lemma decimal_ceil_whole multiplier whole fraction :
  digits_value (bytes whole) * multiplier <= decimal_ceil multiplier whole fraction.
Proof.
  pose proof (decimal_ceil_least multiplier whole fraction) as H. cbv zeta in H.
  set (scale := 10 ^ _) in *. assert (scale ≠ 0) by (apply N.pow_nonzero; lia). nia.
Qed.

(** The text of a decimal number. *)
Definition decimal_text (whole : string) (fraction : option string) : string :=
  match fraction with
  | None => whole
  | Some digits => whole +:+ String "." digits
  end.

Definition decimal_digits (whole : string) (fraction : option string) : Prop :=
  all_digits whole = true ∧ ∀ f, fraction = Some f → all_digits f = true ∧ str_len f <= 19.

Lemma str_all_app p s t : str_all p (s +:+ t) = str_all p s && str_all p t.
Proof. unfold str_all. by rewrite bytes_app, forallb_app. Qed.

Lemma str_all_impl (p q : ascii → bool) s :
  (∀ c, p c = true → q c = true) → str_all p s = true → str_all q s = true.
Proof. unfold str_all. rewrite !forallb_forall. auto. Qed.

Lemma split_dot_app whole rest :
  str_all is_ascii_digit whole = true →
  split_dot (whole +:+ String "." rest) =
    let '(piece, pieces) := split_dot rest in (whole, piece :: pieces).
Proof.
  induction whole as [|c s IH]; intros H.
  - change ("" +:+ String "." rest)%string with (String "." rest). simpl.
    by destruct (split_dot rest).
  - unfold str_all in H. simpl in H. bool_hyps.
    change (String c s +:+ String "." rest) with (String c (s +:+ String "." rest)). simpl.
    rewrite IH by done. destruct (split_dot rest). case_bool_decide; [by subst|done].
Qed.

Lemma decimal_parts_text whole fraction :
  decimal_digits whole fraction →
  decimal_parts (decimal_text whole fraction) = Some (whole, fraction).
Proof.
  intros [Hw Hf]. destruct fraction as [f|]; simpl; [|by apply decimal_parts_digits].
  destruct (Hf f eq_refl) as [Hd _]. unfold decimal_parts.
  pose proof Hw as Hw'. pose proof Hd as Hd'. unfold all_digits in Hw', Hd'. bool_hyps.
  rewrite split_dot_app, digits_no_dot by done. by rewrite Hw, Hd.
Qed.

Lemma decimal_text_number whole fraction :
  decimal_digits whole fraction →
  str_all (λ c, is_ascii_digit c || (c ≟ "."%char)) (decimal_text whole fraction) = true
  ∧ str_is_empty (decimal_text whole fraction) = false.
Proof.
  intros [Hw Hf]. unfold all_digits in Hw. bool_hyps.
  assert (∀ s, str_all is_ascii_digit s = true →
    str_all (λ c, is_ascii_digit c || (c ≟ "."%char)) s = true) as Himpl.
  { intros s. apply str_all_impl. intros c ->. done. }
  destruct fraction as [f|]; simpl; [|by auto].
  destruct (Hf f eq_refl) as [Hd _]. unfold all_digits in Hd. bool_hyps.
  rewrite str_all_app, Himpl by done. split; [|by destruct whole].
  simpl. change (str_all ?p (String ?c f)) with (p c && str_all p f). rewrite Himpl by done. done.
Qed.

(** With a unit of at most [2^60] and at most 19 fraction digits nothing
    overflows on the way, so the only failure is a value out of [u64]. *)
Lemma scale_decimal_u64 multiplier whole fraction :
  1 <= multiplier <= 2 ^ 60 → decimal_digits whole fraction →
  (scale_decimal multiplier whole fraction ≫= try_from 64) =
    if decimal_ceil multiplier whole fraction <? 2 ^ 64
    then Some (decimal_ceil multiplier whole fraction) else None.
Proof.
  intros Hm [Hw Hf].
  assert (∀ f, fraction = Some f → all_digits f = true) as Hf' by (intros; by apply Hf).
  destruct (scale_decimal multiplier whole fraction) as [n|] eqn:E.
  { apply scale_decimal_exact in E as ->; [|done..]. done. }
  cbn [mbind option_bind]. apply scale_decimal_total in E; [|done..].
  pose proof (decimal_ceil_whole multiplier whole fraction) as Hwhole.
  assert (2 ^ 64 <= decimal_ceil multiplier whole fraction) as Hbig.
  { destruct E as [E|[E|(f & -> & E)]]; [nia|lia|].
    destruct (Hf f eq_refl) as [Hd Hlen].
    assert (digits_value (bytes f) < 10 ^ str_len f) as Hv.
    { rewrite str_len_bytes. apply digits_value_bound. unfold all_digits in Hd. by bool_hyps. }
    assert (10 ^ str_len f <= 10 ^ 19) as Hp by (apply N.pow_le_mono_r; lia).
    change (2 ^ 60) with 1152921504606846976 in *.
    change (10 ^ 19) with 10000000000000000000 in *.
    change (2 ^ 128) with 340282366920938463463374607431768211456 in *.
    change (2 ^ 32) with 4294967296 in *. change (2 ^ 64) with 18446744073709551616 in *.
    set (v := digits_value (bytes f)) in *. set (scale := 10 ^ str_len f) in *.
    destruct E as [E|[E|[E|[E|[E|E]]]]]; nia || lia. }
  case_match eqn:E'; [bool_hyps; lia|done].
Qed.

(** The pieces of a split determine the text. *)
Lemma split_dot_inv s p ps :
  split_dot s = (p, ps) →
  (ps = [] → s = p) ∧ (∀ f, ps = [f] → s = p +:+ String "." f).
Proof.
  revert p ps. induction s as [|c s IH]; intros p ps; simpl.
  { intros [= <- <-]. done. }
  destruct (split_dot s) as [p' ps'] eqn:E. destruct (IH _ _ eq_refl) as [H0 H1].
  case_bool_decide as Hc; intros [= <- <-].
  - split; [done|]. intros f [= <- ->]. by rewrite Hc, H0.
  - split.
    + intros ->. by rewrite H0.
    + intros f ->. by rewrite (H1 f eq_refl).
Qed.

Lemma decimal_parts_inv number whole fraction :
  decimal_parts number = Some (whole, fraction) → number = decimal_text whole fraction.
Proof.
  unfold decimal_parts. destruct (split_dot number) as [w ps] eqn:E.
  apply split_dot_inv in E as [H0 H1].
  destruct ps as [|f [|]]; [..|done]; case_match; intros; simplify_eq/=; auto.
Qed.

Lemma str_all_excludes p c s :
  p c = false → str_all p s = true → str_contains c s = false ∧ starts_with c s = false.
Proof.
  intros Hc Hs. split.
  - unfold str_contains, str_all in *. induction (bytes s) as [|d ds IH]; simpl in *; [done|].
    bool_hyps. case_bool_decide; [congruence|]. simpl. auto.
  - destruct s as [|d s]; [done|]. unfold str_all in Hs. simpl in *. bool_hyps.
    case_bool_decide; congruence.
Qed.

Lemma str_is_empty_true s : str_is_empty s = true → s = ""%string.
Proof. by destruct s. Qed.

(** ** Sets of strings *)

(** [BTreeSet<String>::insert], on the set in order. *)
Fixpoint btree_insert (x : string) (l : list string) : list string :=
  match l with
  | [] => [x]
  | y :: rest =>
      match String.compare x y with Eq => l | Lt => x :: l | Gt => y :: btree_insert x rest end
  end.

Lemma btree_insert_elem x y l : x ∈ btree_insert y l ↔ x = y ∨ x ∈ l.
Proof.
  induction l as [|z l IH]; cbn [btree_insert]; [set_solver|].
  destruct (String.compare y z) eqn:E; [apply String.compare_eq_iff in E as ->; set_solver| set_solver|].
  rewrite !elem_of_cons, IH. naive_solver.
Qed.
Lemma btree_foldl_elem x l acc : x ∈ foldl (λ imports name, btree_insert name imports) acc l ↔ x ∈ l ∨ x ∈ acc.
Proof.
  revert acc. induction l as [|y l IH]; intros acc; cbn [foldl]; [set_solver|].
  rewrite IH, btree_insert_elem, elem_of_cons. naive_solver.
Qed.
