(* ===== verification/Bounded.v ===== *)
(** * Bounded containers and digests

    [BoundedVec], [BoundedText] and [DiagnosticSha256] of
    memcordon-core/src/diagnostics.rs: the allocation bounds every wire type of
    the program relies on, and the lower-case hexadecimal text of a SHA-256.
    A [u8] is an [ascii]; a fixed array is a list whose length is part of the
    well-formedness of the type. *)

From S2P Require Import Prelude Decimal.
From Stdlib Require Import Ascii.

Definition u8 : Type := ascii.
#[global] Instance u8_eq_dec : EqDecision u8 := ascii_dec.

(** ** [BoundedVec<T, N>] *)

Definition BoundedVec (T : Type) (n : nat) : Type := list T.
#[global] Instance BoundedVec_eq_dec T n `{EqDecision T} : EqDecision (BoundedVec T n) :=
  list_eq_dec.
Definition as_slice {T n} (v : BoundedVec T n) : list T := v.
Definition bounded {T n} (v : BoundedVec T n) : Prop := (length v <= n)%nat.

Definition try_push {T n} (value : T) : stM (BoundedVec T n) T () :=
  λ self,
    if bool_decide (length self = n) then (self, Err value)
    else (self ++ [value], Ok ()).

(** [visit_seq]: at most [n] elements are read into [values], then one more is
    asked for. *)
Fixpoint visit_seq {T} (n : nat) (seq : list T) (values : list T) : result string (list T) :=
  match n, seq with
  | O, [] => Ok values
  | O, _ :: _ => Err "diagnostic event bound exceeded"%string
  | S _, [] => Ok values
  | S n, x :: seq => visit_seq n seq (values ++ [x])
  end.
Definition BoundedVec_deserialize {T} (n : nat) (seq : list T) : result string (BoundedVec T n) :=
  visit_seq n seq [].

Lemma visit_seq_spec {T} n (seq values : list T) :
  visit_seq n seq values =
    if (length seq <=? n)%nat then Ok (values ++ seq)
    else Err "diagnostic event bound exceeded"%string.
Proof.
  revert seq values. induction n as [|n IH]; intros [|x seq] values; simpl;
    rewrite ?(right_id_L [] (++)); try done.
  rewrite IH, <- (assoc_L (++)). done.
Qed.

Lemma try_push_bounded {T n} (x : T) (v : BoundedVec T n) :
  bounded v → bounded (try_push x v).1.
Proof.
  unfold try_push, bounded. intros H. case_bool_decide; simpl; [lia|].
  rewrite length_app. simpl. lia.
Qed.
#[export] Hint Resolve try_push_bounded : rust.

(** ** [BoundedText<N>] *)

Definition NUL : ascii := ascii_of_N 0.

Record BoundedText (n : N) : Type := BoundedText_of { text : string }.
Arguments BoundedText_of {_} _.
Arguments text {_} _.

#[global] Instance BoundedText_eq_dec n : EqDecision (BoundedText n).
Proof. solve_decision. Defined.

Definition BoundedText_new (n : N) (value : string) : result string (BoundedText n) :=
  if (n <? str_len value) || str_contains NUL value
  then Err "invalid diagnostic text"%string
  else Ok (BoundedText_of value).

(** ** [DiagnosticSha256] *)

Record DiagnosticSha256 : Type := sha256 { sha_bytes : list u8 }.
Definition sha_wf (d : DiagnosticSha256) : Prop := length (sha_bytes d) = 32%nat.

#[global] Instance DiagnosticSha256_eq_dec : EqDecision DiagnosticSha256.
Proof. solve_decision. Defined.

Definition nibble (n : ascii) : result string N :=
  if is_ascii_digit n then Ok (N_of_ascii n - N_of_ascii "0")
  else if byte_between "a" "f" n then Ok (N_of_ascii n - N_of_ascii "a" + 10)
  else Err "invalid SHA-256 encoding"%string.

(** The loop over [chunks_exact(2)]. *)
Fixpoint decode_pairs (cs : list ascii) : result string (list u8) :=
  match cs with
  | hi :: lo :: cs =>
      h ← nibble hi;
      l ← nibble lo;
      rest ← decode_pairs cs;
      mret (ascii_of_N (N.lor (N.shiftl h 4) l) :: rest)
  | _ => Ok []
  end.

Definition sha256_try_from (value : BoundedText 64) : result string DiagnosticSha256 :=
  if negb (str_len (text value) =? 64) then Err "invalid SHA-256 length"%string
  else output ← decode_pairs (bytes (text value)); mret (sha256 output).

(** [format!("{byte:02x}")] *)
Definition hex_digit (n : N) : ascii :=
  if n <? 10 then ascii_of_N (48 + n) else ascii_of_N (97 + (n - 10)).
Definition hex_byte (b : u8) : list ascii :=
  [hex_digit (N_of_ascii b / 16); hex_digit (N_of_ascii b mod 16)].
Definition sha256_into_string (d : DiagnosticSha256) : string :=
  String.string_of_list_ascii (concat (hex_byte <$> sha_bytes d)).

(** ** Hexadecimal text *)

Lemma nibble_hex n : n < 16 → nibble (hex_digit n) = Ok n.
Proof.
  intros Hn. assert (n ∈ N.of_nat <$> seq 0 16) as Hin.
  { apply list_elem_of_fmap. exists (N.to_nat n). rewrite elem_of_seq. lia. }
  revert Hin. clear Hn.
  assert (Forall (λ m, nibble (hex_digit m) = Ok m) (N.of_nat <$> seq 0 16)) as Hall.
  { repeat (constructor; [vm_compute; reflexivity|]). constructor. }
  rewrite Forall_forall in Hall. auto.
Qed.

Lemma hex_nibble c n : nibble c = Ok n → hex_digit n = c ∧ n < 16.
Proof. destruct c as [[] [] [] [] [] [] [] []]; intros H; by inversion H. Qed.

Lemma decode_hex_byte b rest :
  decode_pairs (hex_byte b ++ rest) = (λ r, b :: r) <$> decode_pairs rest.
Proof.
  unfold hex_byte. simpl.
  pose proof (N_ascii_bounded b) as Hb.
  rewrite !nibble_hex by (first [apply N.Div0.div_lt_upper_bound|apply N.mod_lt]; lia). simpl.
  destruct (decode_pairs rest); simpl; [|done]. do 2 f_equal.
  clear. destruct b as [[] [] [] [] [] [] [] []]; reflexivity.
Qed.

Lemma decode_hex_bytes bs : decode_pairs (concat (hex_byte <$> bs)) = Ok bs.
Proof.
  induction bs as [|b bs IH]; [done|].
  rewrite fmap_cons. cbn [concat]. by rewrite decode_hex_byte, IH.
Qed.

Lemma encode_hex_byte hi lo h l :
  nibble hi = Ok h → nibble lo = Ok l →
  hex_byte (ascii_of_N (N.lor (N.shiftl h 4) l)) = [hi; lo].
Proof.
  intros [Eh Hh]%hex_nibble [El Hl]%hex_nibble. subst hi lo.
  assert (N.lor (N.shiftl h 4) l = h * 16 + l) as ->.
  { rewrite N.shiftl_mul_pow2. change (2 ^ 4) with 16.
    assert (N.land (h * 16) l = 0) as Hland.
    { apply N.bits_inj. intros k. rewrite N.land_spec, N.bits_0.
      change 16 with (2 ^ 4). destruct (N.ltb_spec k 4).
      - rewrite N.mul_pow2_bits_low by done. done.
      - rewrite andb_comm,  <- (N.mod_small l (2 ^ 4)) by (simpl; lia).
        by rewrite N.mod_pow2_bits_high by done. }
    rewrite <- N.lxor_lor by done. by rewrite <- N.add_nocarry_lxor by done. }
  unfold hex_byte. rewrite N_ascii_embedding by lia.
  rewrite N.div_add_l, N.div_small, N.add_0_r by lia.
  by rewrite N.add_comm, N.Div0.mod_add, N.mod_small by lia.
Qed.

Lemma encode_decoded k cs bs :
  length cs = (2 * k)%nat → decode_pairs cs = Ok bs →
  concat (hex_byte <$> bs) = cs ∧ length bs = k.
Proof.
  revert cs bs. induction k as [|k IH]; intros [|hi [|lo cs]] bs Hlen; try (simpl in Hlen; lia).
  - by intros [= <-].
  - simpl. intros H. run_ok.
    pose proof (encode_hex_byte hi lo _ _ ltac:(eassumption) ltac:(eassumption)) as E.
    injection E as -> ->.
    edestruct (IH cs) as [-> ->]; [lia|eassumption|done].
Qed.

Lemma bytes_string cs : bytes (String.string_of_list_ascii cs) = cs.
Proof. apply String.list_ascii_of_string_of_list_ascii. Qed.

Lemma length_hex_bytes bs : length (concat (hex_byte <$> bs)) = (2 * length bs)%nat.
Proof. induction bs as [|b bs IH]; [done|]. rewrite fmap_cons. cbn [concat]. rewrite length_app, IH. simpl. lia. Qed.

Lemma str_len_string cs : str_len (String.string_of_list_ascii cs) = N.of_nat (length cs).
Proof. by rewrite str_len_bytes, bytes_string. Qed.

(** Hexadecimal digits are not NUL, so the text is a legal [BoundedText]. *)
Lemma hex_digit_not_nul n : n < 16 → hex_digit n ≠ NUL.
Proof.
  intros Hn. pose proof (nibble_hex n Hn) as E. intros E'. rewrite E' in E. discriminate.
Qed.

Lemma hex_bytes_no_nul bs : existsb (λ d, d ≟ NUL) (concat (hex_byte <$> bs)) = false.
Proof.
  induction bs as [|b bs IH]; [done|]. rewrite fmap_cons. cbn [concat]. rewrite existsb_app, IH.
  pose proof (N_ascii_bounded b). simpl.
  rewrite !bool_decide_eq_false_2; [done|..]; apply hex_digit_not_nul;
    (apply N.Div0.div_lt_upper_bound || apply N.mod_lt); lia.
Qed.

Lemma sha256_text_print d :
  sha_wf d → (BoundedText_new 64 (sha256_into_string d) ≫= sha256_try_from) = Ok d.
Proof.
  destruct d as [bs]. intros Hwf. unfold sha_wf in Hwf. simpl in Hwf.
  unfold BoundedText_new, sha256_into_string, str_contains, sha256_try_from. simpl.
  rewrite str_len_string, length_hex_bytes, Hwf, bytes_string, hex_bytes_no_nul.
  simpl. by rewrite str_len_string, length_hex_bytes, Hwf, bytes_string, decode_hex_bytes.
Qed.

Lemma sha256_text_parse s d :
  (BoundedText_new 64 s ≫= sha256_try_from) = Ok d → sha_wf d ∧ sha256_into_string d = s.
Proof.
  intros H. unfold BoundedText_new in H. case_match; [done|]. simpl in H.
  unfold sha256_try_from in H. simpl in H. case_match eqn:Hlen; [done|]. bool_hyps.
  rewrite str_len_bytes in Hlen. run_ok.
  edestruct (encode_decoded 32 (bytes s)) as [E1 E2]; [lia|eassumption|].
  split; [done|]. unfold sha256_into_string. simpl. rewrite E1.
  apply String.string_of_list_ascii_of_string.
Qed.

(** ** Properties *)

(** Writing a digest as text and reading the text back gives the same
    digest, and any text that is accepted as a digest is exactly the text that
    digest is written as (no second spelling is accepted). *)
Theorem sha256_text_roundtrip :
  (∀ d, sha_wf d → (BoundedText_new 64 (sha256_into_string d) ≫= sha256_try_from) = Ok d) ∧
  (∀ s d, (BoundedText_new 64 s ≫= sha256_try_from) = Ok d →
          sha_wf d ∧ sha256_into_string d = s).
Proof. split; [exact sha256_text_print | exact sha256_text_parse]. Qed.

Lemma sha256_text_roundtrip_witness :
  (BoundedText_new 64 (sha256_into_string (sha256 (replicate 32 "k"%char))) ≫= sha256_try_from)
  = Ok (sha256 (replicate 32 "k"%char)).
Proof. apply sha256_text_roundtrip. reflexivity. Defined.
