(* ===== verification/RunState.v ===== *)
(** * Run-state machine

    [StateMachine] of memcordon-core/src/state_machine.rs: the lifecycle of one
    supervised attempt.  [transition] is the source's method on [&mut self]; the
    theorems bound every run, show which states must be passed through, and
    that a rejected transition leaves the machine as it was. *)

From S2P Require Import Prelude.

Inductive RunState : Type :=
| Resolving | Prepared | SpawnedGated | Running | ChildExited
| Terminating | Reaping | Cleaning | Finished.

#[global] Instance RunState_eq_dec : EqDecision RunState.
Proof. solve_decision. Defined.

Record StateTransitionError : Type := { ste_from : RunState; ste_to : RunState }.

Record StateMachine : Type := { sm_state : RunState }.

Definition StateMachine_default : StateMachine := {| sm_state := Resolving |}.

(** The [matches!] of [transition]. *)
Definition transition_valid (from to : RunState) : bool :=
  match from, to with
  | Resolving, Prepared => true
  | Prepared, SpawnedGated => true
  | SpawnedGated, Running => true
  | (SpawnedGated | Running), ChildExited => true
  | (SpawnedGated | Running | ChildExited), Terminating => true
  | (SpawnedGated | Running | ChildExited | Terminating), Reaping => true
  | (SpawnedGated | Running | ChildExited | Terminating | Reaping), Cleaning => true
  | Cleaning, Finished => true
  | _, _ => false
  end.

Definition transition (to : RunState) : stM StateMachine StateTransitionError () :=
  self ← st_get;
  if negb (transition_valid (sm_state self) to)
  then st_lift (Err {| ste_from := sm_state self; ste_to := to |})
  else st_modify (λ _, {| sm_state := to |}).

(** ** Runs

    A run requests the states of a list one after the other; a rejected request
    is an error the caller reports, and the machine goes on from where it is. *)
Fixpoint run_requests (requests : list RunState) (m : StateMachine) : StateMachine :=
  match requests with
  | [] => m
  | to :: requests => run_requests requests (transition to m).1
  end.

(** The states entered by the accepted requests, in order. *)
Fixpoint accepted (requests : list RunState) (m : StateMachine) : list RunState :=
  match requests with
  | [] => []
  | to :: requests =>
      let '(m', r) := transition to m in
      if is_ok r then to :: accepted requests m' else accepted requests m'
  end.

Definition rank (s : RunState) : nat :=
  match s with
  | Resolving => 0 | Prepared => 1 | SpawnedGated => 2 | Running => 3 | ChildExited => 4
  | Terminating => 5 | Reaping => 6 | Cleaning => 7 | Finished => 8
  end%nat.

Lemma transition_valid_rank s t : transition_valid s t = true → (rank s < rank t)%nat.
Proof. destruct s, t; simpl; intros; try done; lia. Qed.

Lemma transition_spec to m :
  transition to m =
    if transition_valid (sm_state m) to then ({| sm_state := to |}, Ok ())
    else (m, Err {| ste_from := sm_state m; ste_to := to |}).
Proof. destruct m as [s]. unfold transition, mbind, stM_bind; simpl. by destruct (transition_valid s to). Qed.

Lemma rank_bound s : (rank s <= 8)%nat.
Proof. destruct s; simpl; lia. Qed.

(** The accepted states climb the rank, so there are few of them. *)
Lemma accepted_length requests m :
  (length (accepted requests m) + rank (sm_state m) <= 8)%nat.
Proof.
  revert m. induction requests as [|to requests IH]; intros m; simpl.
  { apply rank_bound. }
  rewrite transition_spec. destruct (transition_valid _ _) eqn:E; simpl; [|apply IH].
  apply transition_valid_rank in E. specialize (IH {| sm_state := to |}). simpl in IH. lia.
Qed.

(** What is true of the machine's history: the list of states entered since
    [Resolving], latest first, ends at the current state. *)
Inductive reaches : list RunState → RunState → Prop :=
| reaches_init : reaches [Resolving] Resolving
| reaches_step path s t :
    reaches path s → transition_valid s t = true → reaches (t :: path) t.

#[export] Hint Constructors reaches : rust.

Lemma reaches_run requests path m :
  reaches path (sm_state m) →
  reaches (reverse (accepted requests m) ++ path) (sm_state (run_requests requests m)).
Proof.
  revert path m. induction requests as [|to requests IH]; intros path m H; simpl; [done|].
  rewrite transition_spec. destruct (transition_valid _ _) eqn:E; simpl; [|by apply IH].
  rewrite reverse_cons, <- (assoc_L (++)). apply IH. simpl. econstructor; eauto.
Qed.

Lemma reaches_head path s : reaches path s → head path = Some s.
Proof. by destruct 1. Qed.

(** Every state a path must contain once its end is reached. *)
Lemma reaches_milestones path s :
  reaches path s →
  NoDup path ∧ Resolving ∈ path ∧
  ((1 <= rank s)%nat → Prepared ∈ path) ∧
  ((2 <= rank s)%nat → SpawnedGated ∈ path) ∧
  (s = Finished → Cleaning ∈ path) ∧
  Forall (λ t, (rank t <= rank s)%nat) path.
Proof.
  induction 1 as [|path s t Hr IH E].
  - repeat split; try (simpl; lia); try done; [apply NoDup_singleton|set_solver|].
    repeat constructor.
  - destruct IH as (Hnd & Hres & Hprep & Hgated & Hclean & Hall).
    pose proof (transition_valid_rank _ _ E) as Hlt.
    assert (Forall (λ x, (rank x <= rank t)%nat) (t :: path)) as Hall'.
    { constructor; [lia|]. eapply Forall_impl; [exact Hall|]. simpl. lia. }
    assert (t ∉ path) as Hnotin.
    { intros Hin. rewrite Forall_forall in Hall. specialize (Hall t Hin). lia. }
    pose proof (reaches_head _ _ Hr) as Hhd.
    assert (s ∈ path) as Hs by (destruct path; simplify_eq/=; set_solver).
    assert (∀ x, x ∈ path → x ∈ t :: path) as Hmono by (intros x ?; by right).
    repeat split; [by constructor|by auto|..|done].
    + intros _. destruct s, t; try done; (apply list_elem_of_here || (apply Hmono, Hprep; simpl; lia)).
    + intros Ht. destruct s, t; try done; try (simpl in *; lia);
        (apply list_elem_of_here || (apply Hmono, Hgated; simpl; lia)).
    + intros ->. destruct s; try done. by apply Hmono.
Qed.

(** ** Properties *)

(** From the initial machine, whatever states are requested, at most eight
    requests are accepted, no state is entered twice, and a machine that is
    [Finished] has been prepared, spawned behind its gate and cleaned up. *)
Theorem lifecycle_bounded (requests : list RunState) :
  let states := accepted requests StateMachine_default in
  (length states <= 8)%nat ∧ NoDup states ∧
  (sm_state (run_requests requests StateMachine_default) = Finished →
   Prepared ∈ states ∧ SpawnedGated ∈ states ∧ Cleaning ∈ states).
Proof.
  cbv zeta.
  pose proof (reaches_run requests _ StateMachine_default reaches_init) as H.
  apply reaches_milestones in H as (Hnd & _ & Hp & Hg & Hc & _).
  apply NoDup_app in Hnd as (Hnd & _ & _).
  pose proof (accepted_length requests StateMachine_default) as Hlen.
  set (states := accepted _ _) in *.
  split; [simpl in Hlen; lia|]. split; [by rewrite reverse_Permutation in Hnd|].
  intros E. rewrite E in *. simpl in *.
  assert (∀ s, s ≠ Resolving → s ∈ reverse states ++ [Resolving] → s ∈ states) as Hmem.
  { intros s Hs Hin. apply elem_of_app in Hin as [Hin|Hin].
    - by rewrite elem_of_reverse in Hin.
    - by apply list_elem_of_singleton in Hin. }
  repeat split; apply Hmem; auto with lia.
Qed.

Lemma lifecycle_bounded_witness :
  let states := accepted
    [Prepared; Running; SpawnedGated; Running; Terminating; Reaping; Cleaning; Finished; Running]
    StateMachine_default in
  length states = 7%nat ∧ Cleaning ∈ states.
Proof.
  split; [reflexivity|].
  apply (lifecycle_bounded
    [Prepared; Running; SpawnedGated; Running; Terminating; Reaping; Cleaning; Finished; Running]).
  reflexivity.
Defined.

(** A rejected transition reports the state it was asked from and the state
    asked for, and leaves the machine unchanged; an accepted one moves forward
    in the lifecycle order and ends in the requested state. *)
Theorem transition_total (to : RunState) (m : StateMachine) :
  match transition to m with
  | (m', Ok _) => sm_state m' = to ∧ (rank (sm_state m) < rank to)%nat
  | (m', Err e) => m' = m ∧ e = {| ste_from := sm_state m; ste_to := to |}
  end.
Proof.
  rewrite transition_spec. destruct (transition_valid _ _) eqn:E; [|done].
  split; [done|]. by apply transition_valid_rank.
Qed.
