(* ===== verification/WorkloadContract.v ===== *)
(** * Workload contracts

    memcordon-core/src/workload_contract.rs: the request a caller signs up to
    (requirements, endpoints, network ceiling, authorization) and its
    [validate].  The main theorem says that [validate] accepts exactly the
    contracts of the specification [contract_valid], whose last clause is that
    endpoint dependencies are acyclic; the [loop] that walks them is given
    [S (length endpoints)] steps and never runs out. *)

From S2P Require Import Prelude Decimal Bounded.
From Stdlib Require Import Ascii.
From stdpp Require Import relations.
#[local] Open Scope N_scope.

Definition IDENTIFIER_BYTES : N := 64.
Definition REQUIREMENTS : nat := 64.
Definition ENDPOINTS : nat := 32.

(** ** Identifiers *)

Record LogicalId : Type := logical_id { id_str : string }.
#[global] Instance LogicalId_eq_dec : EqDecision LogicalId.
Proof. solve_decision. Defined.

(** [value.contains("--")] *)
Fixpoint contains_double_dash (cs : list ascii) : bool :=
  match cs with
  | c :: (d :: _) as rest =>
      ((c ≟ "-"%char) && (d ≟ "-"%char)) || contains_double_dash rest
  | _ => false
  end.

Definition LogicalId_new (value : string) : result string LogicalId :=
  if str_is_empty value
     || (IDENTIFIER_BYTES <? str_len value)
     || starts_with "-" value
     || ends_with "-" value
     || contains_double_dash (bytes value)
     || negb (str_all (λ byte, is_ascii_lowercase byte || is_ascii_digit byte || (byte ≟ "-"%char)) value)
  then Err "invalid workload logical identifier"%string
  else Ok (logical_id value).

(** ** Data *)

Record Nonce128 : Type := nonce128 { nonce_bytes : list u8 }.
Record PolicyEpoch : Type := { service_instance : Nonce128; revision : N }.
Record ProfileRef : Type := { profile_id : LogicalId; profile_semantic_digest : DiagnosticSha256 }.
Record AuthorizationRef : Type := {
  grant_id : LogicalId;
  grant_revision : N;
  approved_plan_digest : DiagnosticSha256
}.

Inductive DirectSocketCeiling : Type :=
| PinnedLegacySocketFilterAccepted | NoNewInetSockets
| AttemptPrivateIpv4StackAllPorts | ExternalHostPolicyAccepted.
Inductive UnixAuthorityCeiling : Type :=
| NoNamedEndpointsSocketPairsOnly | ExistingHostUnixAuthorityAccepted.
Inductive ExternalSocketCeiling : Type :=
| NoSocketAtTargetEntry | ExistingStdioAuthorityAccepted.
Inductive CredentialGainCeiling : Type := NoGain | ExistingCallerEnvelopeAccepted.
Inductive MediatedCommunicationCeiling : Type :=
| ExternalFilesystemAndStdioPolicyAccepted | RequireNoExternalCommunication.

Record NetworkCeilingV1 : Type := {
  direct_socket_authority : DirectSocketCeiling;
  unix_authority : UnixAuthorityCeiling;
  external_socket_custody : ExternalSocketCeiling;
  credential_gains : CredentialGainCeiling;
  mediated_communication : MediatedCommunicationCeiling
}.

Inductive UnixSocketKind : Type := Stream | Datagram | SeqPacket.
Inductive IpFamily : Type := IpFamily_V4 | IpFamily_V6.
Inductive TcpScope : Type := AttemptPrivateStack | HostSharedLoopback.
Inductive TcpOperation : Type :=
| Create | Bind | Listen | Accept | Connect | StreamRead | StreamWrite.

#[global] Instance Nonce128_eq_dec : EqDecision Nonce128.
Proof. solve_decision. Defined.
#[global] Instance PolicyEpoch_eq_dec : EqDecision PolicyEpoch.
Proof. solve_decision. Defined.
#[global] Instance ProfileRef_eq_dec : EqDecision ProfileRef.
Proof. solve_decision. Defined.
#[global] Instance AuthorizationRef_eq_dec : EqDecision AuthorizationRef.
Proof. solve_decision. Defined.
#[global] Instance DirectSocketCeiling_eq_dec : EqDecision DirectSocketCeiling.
Proof. solve_decision. Defined.
#[global] Instance UnixAuthorityCeiling_eq_dec : EqDecision UnixAuthorityCeiling.
Proof. solve_decision. Defined.
#[global] Instance ExternalSocketCeiling_eq_dec : EqDecision ExternalSocketCeiling.
Proof. solve_decision. Defined.
#[global] Instance CredentialGainCeiling_eq_dec : EqDecision CredentialGainCeiling.
Proof. solve_decision. Defined.
#[global] Instance MediatedCommunicationCeiling_eq_dec : EqDecision MediatedCommunicationCeiling.
Proof. solve_decision. Defined.
#[global] Instance NetworkCeilingV1_eq_dec : EqDecision NetworkCeilingV1.
Proof. solve_decision. Defined.
#[global] Instance UnixSocketKind_eq_dec : EqDecision UnixSocketKind.
Proof. solve_decision. Defined.
#[global] Instance IpFamily_eq_dec : EqDecision IpFamily.
Proof. solve_decision. Defined.
#[global] Instance TcpScope_eq_dec : EqDecision TcpScope.
Proof. solve_decision. Defined.
#[global] Instance TcpOperation_eq_dec : EqDecision TcpOperation.
Proof. solve_decision. Defined.

Definition TcpOperation_tag (op : TcpOperation) : N :=
  match op with
  | Create => 1 | Bind => 2 | Listen => 3 | Accept => 4
  | Connect => 5 | StreamRead => 6 | StreamWrite => 7
  end.

Record TcpOperations : Type := tcp_operations { operations_slice : BoundedVec TcpOperation 7 }.

Definition TcpOperations_new (operations : BoundedVec TcpOperation 7) : result string TcpOperations :=
  let values := as_slice operations in
  let has op := bool_decide (op ∈ values) in
  if bool_decide (values = [])
     || negb (all_distinct values)
     || (has Listen && negb (has Bind))
     || (has Accept && negb (has Listen))
     || ((has StreamRead || has StreamWrite) && negb (has Accept || has Connect))
  then Err "contradictory or duplicate TCP operation set"%string
  else Ok (tcp_operations operations).

Inductive LocalPortRequirement : Type :=
| KernelAssigned
| Exact (port : N)
| InclusiveRange (first last : N).

Inductive TcpEndpoint : Type :=
| TcpEndpoint_V4 (address : list u8) (port : N)
| TcpEndpoint_V6 (address : list u8) (port : N).

Inductive TcpPeerRequirement : Type :=
| SameAttemptEndpoint (endpoint : LogicalId)
| ExactAddress (endpoint : TcpEndpoint).

Inductive DeniedOperation : Type :=
| InetSocketCreation | NamedUnixSocketCreation | ExternalSocketImport.

Inductive RequirementV1 : Type :=
| UnixSocketCreation (id : LogicalId) (socket_kind : UnixSocketKind)
| UnixSocketPair (id : LogicalId) (socket_kind : UnixSocketKind)
| Tcp (id : LogicalId) (family : IpFamily) (operations : TcpOperations)
      (scope : TcpScope) (local_ports : LocalPortRequirement) (peer : TcpPeerRequirement)
| SuppliedTcpListener (id : LogicalId) (endpoint : LogicalId) (scope : TcpScope)
| DenialExercise (id : LogicalId) (operation : DeniedOperation).

Definition requirement_id (r : RequirementV1) : LogicalId :=
  match r with
  | UnixSocketCreation id _ | UnixSocketPair id _ | Tcp id _ _ _ _ _
  | SuppliedTcpListener id _ _ | DenialExercise id _ => id
  end.

Record EndpointDeclarationV1 : Type := {
  endpoint_id : LogicalId;
  endpoint_requirement : LogicalId
}.

#[global] Instance TcpOperations_eq_dec : EqDecision TcpOperations.
Proof. intros [a] [b]. destruct (decide (a = b :> list TcpOperation)); [left|right]; congruence. Defined.
#[global] Instance LocalPortRequirement_eq_dec : EqDecision LocalPortRequirement.
Proof. solve_decision. Defined.
#[global] Instance TcpEndpoint_eq_dec : EqDecision TcpEndpoint.
Proof. solve_decision. Defined.
#[global] Instance TcpPeerRequirement_eq_dec : EqDecision TcpPeerRequirement.
Proof. solve_decision. Defined.
#[global] Instance DeniedOperation_eq_dec : EqDecision DeniedOperation.
Proof. solve_decision. Defined.
#[global] Instance RequirementV1_eq_dec : EqDecision RequirementV1.
Proof. solve_decision. Defined.
#[global] Instance EndpointDeclarationV1_eq_dec : EqDecision EndpointDeclarationV1.
Proof. solve_decision. Defined.

Record ExecutionIdentityRefV2 : Type := {
  identity_id : LogicalId;
  identity_semantic_digest : DiagnosticSha256
}.
Inductive ExecutionIdentityRequestV2 : Type :=
| PreserveCaller
| AdministratorProfile (reference : ExecutionIdentityRefV2).

(** The schema version is the constant of its type ([ContractVersionOne],
    [ContractVersionTwo]); it is not a field. *)
Record WorkloadContractV1 : Type := {
  workload_plan_digest : DiagnosticSha256;
  authorized_profile : ProfileRef;
  authorization : AuthorizationRef;
  ceiling : NetworkCeilingV1;
  requirements : BoundedVec RequirementV1 REQUIREMENTS;
  endpoints : BoundedVec EndpointDeclarationV1 ENDPOINTS;
  expected_epoch : PolicyEpoch
}.

Record WorkloadContractV2 : Type := {
  v2_workload_plan_digest : DiagnosticSha256;
  v2_authorized_profile : ProfileRef;
  v2_authorization : AuthorizationRef;
  v2_ceiling : NetworkCeilingV1;
  v2_requirements : BoundedVec RequirementV1 REQUIREMENTS;
  v2_endpoints : BoundedVec EndpointDeclarationV1 ENDPOINTS;
  v2_expected_epoch : PolicyEpoch;
  v2_execution_identity : ExecutionIdentityRequestV2
}.

Definition ContractVersion_deserialize (expected version : N) : result string () :=
  if negb (version =? expected) then Err "unsupported workload contract version"%string else Ok ().

(** ** Validation *)

Definition byte_is (n : N) (b : u8) : bool := N_of_ascii b =? n.

(** [Ipv4Addr::is_loopback], [Ipv6Addr::is_loopback] and
    [Ipv6Addr::to_ipv4_mapped] on the octets. *)
Definition v4_is_loopback (address : list u8) : bool :=
  match address with b :: _ => byte_is 127 b | [] => false end.
Definition v6_is_loopback (address : list u8) : bool :=
  forallb (byte_is 0) (take 15 address) && forallb (byte_is 1) (drop 15 address).
Definition v6_is_ipv4_mapped (address : list u8) : bool :=
  forallb (byte_is 0) (take 10 address) && forallb (byte_is 255) (take 2 (drop 10 address)).

Definition validate_exact_peer_scope (scope : TcpScope) (endpoint : TcpEndpoint) : result string () :=
  loopback ← match endpoint with
             | TcpEndpoint_V4 address _ => Ok (v4_is_loopback address)
             | TcpEndpoint_V6 address _ =>
                 if v6_is_ipv4_mapped address
                 then Err "IPv4-mapped IPv6 exact peer is ambiguous"%string
                 else Ok (v6_is_loopback address)
             end;
  if (scope ≟ HostSharedLoopback) && negb loopback
  then Err "host-shared-loopback exact peer is not loopback"%string
  else Ok ().

(** The endpoint a requirement names, if any. *)
Definition referenced_endpoint (r : RequirementV1) : option LogicalId :=
  match r with
  | Tcp _ _ _ _ _ (SameAttemptEndpoint endpoint) => Some endpoint
  | SuppliedTcpListener _ endpoint _ => Some endpoint
  | _ => None
  end.

Definition family_matches (family : IpFamily) (endpoint : TcpEndpoint) : bool :=
  match family, endpoint with
  | IpFamily_V4, TcpEndpoint_V4 _ _ | IpFamily_V6, TcpEndpoint_V6 _ _ => true
  | _, _ => false
  end.

(** One iteration of the loop over requirements; [prior] is
    [requirements[..index]]. *)
Definition validate_requirement (endpoints : list EndpointDeclarationV1)
    (prior : list RequirementV1) (requirement : RequirementV1) : result string () :=
  guard_err (existsb (λ p, requirement_id p ≟ requirement_id requirement) prior)
    "duplicate workload requirement identifier"%string ;;
  match requirement with
  | Tcp _ _ _ _ (InclusiveRange first last) _ =>
      guard_err (last <? first) "inverted TCP port range"%string
  | _ => Ok ()
  end ;;
  match requirement with
  | Tcp _ family _ scope _ (ExactAddress endpoint) =>
      guard_err (negb (family_matches family endpoint))
        "TCP family differs from exact peer family"%string ;;
      validate_exact_peer_scope scope endpoint
  | _ => Ok ()
  end ;;
  match referenced_endpoint requirement with
  | Some reference =>
      guard_err (negb (existsb (λ e, endpoint_id e ≟ reference) endpoints))
        "unresolved workload endpoint"%string
  | None => Ok ()
  end.

Fixpoint validate_requirements (endpoints : list EndpointDeclarationV1)
    (prior rest : list RequirementV1) : result string () :=
  match rest with
  | [] => Ok ()
  | requirement :: rest =>
      validate_requirement endpoints prior requirement ;;
      validate_requirements endpoints (prior ++ [requirement]) rest
  end.

Definition owner_of (requirements : list RequirementV1) (endpoint : EndpointDeclarationV1)
    : option RequirementV1 :=
  List.find (λ r, requirement_id r ≟ endpoint_requirement endpoint) requirements.

(** The endpoint that an owner's peer names: the loop's [next]. *)
Definition peer_endpoint (r : RequirementV1) : option LogicalId :=
  match r with
  | Tcp _ _ _ _ _ (SameAttemptEndpoint endpoint) => Some endpoint
  | _ => None
  end.

Definition out_of_steps : string := "out of steps"%string.

(** The [loop] over endpoint dependencies; [steps] bounds the iterations. *)
Fixpoint endpoint_chain (requirements : list RequirementV1) (endpoints : list EndpointDeclarationV1)
    (steps : nat) (visited : list LogicalId) (current : EndpointDeclarationV1) : result string () :=
  match steps with
  | O => Err out_of_steps
  | S steps =>
      if bool_decide (endpoint_id current ∈ visited)
      then Err "cyclic endpoint dependencies"%string
      else
        let visited := visited ++ [endpoint_id current] in
        requirement ← ok_or "unresolved endpoint owner"%string (owner_of requirements current);
        match peer_endpoint requirement with
        | None => Ok ()
        | Some next =>
            current ← ok_or "unresolved endpoint dependency"%string
                        (List.find (λ e, endpoint_id e ≟ next) endpoints);
            endpoint_chain requirements endpoints steps visited current
        end
  end.

(** The inner [for] over requirements: peers of this endpoint agree with its owner. *)
Definition peer_differs (owner_family : IpFamily) (owner_scope : TcpScope)
    (endpoint : EndpointDeclarationV1) (r : RequirementV1) : bool :=
  match r with
  | Tcp _ family _ scope _ (SameAttemptEndpoint reference) =>
      (reference ≟ endpoint_id endpoint)
      && ((family ≠? owner_family) || (scope ≠? owner_scope))
  | _ => false
  end.

Definition validate_endpoint (requirements : list RequirementV1)
    (endpoints prior : list EndpointDeclarationV1) (endpoint : EndpointDeclarationV1)
    : result string () :=
  guard_err
    (existsb (λ p, endpoint_id p ≟ endpoint_id endpoint) prior
     || negb (existsb (λ r, requirement_id r ≟ endpoint_requirement endpoint) requirements))
    "duplicate or unresolved endpoint declaration"%string ;;
  owner ← ok_or "unresolved endpoint owner"%string (owner_of requirements endpoint);
  match owner with
  | Tcp _ owner_family operations owner_scope _ _ =>
      guard_err (negb (bool_decide (Listen ∈ as_slice (operations_slice operations))))
        "declared endpoint owner does not require listen"%string ;;
      guard_err (existsb (peer_differs owner_family owner_scope endpoint) requirements)
        "endpoint peer family or scope differs"%string ;;
      endpoint_chain requirements endpoints (S (length endpoints)) [] endpoint
  | _ => Err "declared endpoint owner is not a TCP listener"%string
  end.

Fixpoint validate_endpoints (requirements : list RequirementV1)
    (endpoints prior rest : list EndpointDeclarationV1) : result string () :=
  match rest with
  | [] => Ok ()
  | endpoint :: rest =>
      validate_endpoint requirements endpoints prior endpoint ;;
      validate_endpoints requirements endpoints (prior ++ [endpoint]) rest
  end.

Definition validate (c : WorkloadContractV1) : result string () :=
  guard_err (workload_plan_digest c ≠? approved_plan_digest (authorization c))
    "authorization and workload plan digests differ"%string ;;
  validate_requirements (as_slice (endpoints c)) [] (as_slice (requirements c)) ;;
  validate_endpoints (as_slice (requirements c)) (as_slice (endpoints c)) [] (as_slice (endpoints c)).

(** The version-one view a version-two contract is validated through. *)
Definition v1_view (c : WorkloadContractV2) : WorkloadContractV1 := {|
  workload_plan_digest := v2_workload_plan_digest c;
  authorized_profile := v2_authorized_profile c;
  authorization := v2_authorization c;
  ceiling := v2_ceiling c;
  requirements := v2_requirements c;
  endpoints := v2_endpoints c;
  expected_epoch := v2_expected_epoch c
|}.

Definition validate_v2 (c : WorkloadContractV2) : result string () :=
  validate (v1_view c) ;;
  if (id_str (profile_id (v2_authorized_profile c)) ≟ "linux-tcp4-private-v1"%string)
     && ((direct_socket_authority (v2_ceiling c) ≠? AttemptPrivateIpv4StackAllPorts)
         || (credential_gains (v2_ceiling c) ≠? NoGain))
  then Err "private TCP profile requires private socket and no-gain ceilings"%string
  else Ok ().

(** ** Specification *)

Section specification.
  Context (reqs : list RequirementV1) (eps : list EndpointDeclarationV1).

(** [e] waits for [e']: the requirement that owns [e] has [e'] as its peer. *)
Definition depends (e e' : EndpointDeclarationV1) : Prop :=
  e' ∈ eps ∧ ∃ r, r ∈ reqs ∧ requirement_id r = endpoint_requirement e
                  ∧ peer_endpoint r = Some (endpoint_id e').

Definition requirement_valid (r : RequirementV1) : Prop :=
  (∀ id f ops s first last p, r = Tcp id f ops s (InclusiveRange first last) p → first <= last) ∧
  (∀ id f ops s lp endpoint, r = Tcp id f ops s lp (ExactAddress endpoint) →
     family_matches f endpoint = true ∧ validate_exact_peer_scope s endpoint = Ok ()) ∧
  (∀ reference, referenced_endpoint r = Some reference → ∃ e, e ∈ eps ∧ endpoint_id e = reference).

Definition endpoint_valid (e : EndpointDeclarationV1) : Prop :=
  ∃ id f ops s lp p, Tcp id f ops s lp p ∈ reqs ∧ id = endpoint_requirement e ∧
    Listen ∈ as_slice (operations_slice ops) ∧
    (∀ id' f' ops' s' lp', Tcp id' f' ops' s' lp' (SameAttemptEndpoint (endpoint_id e)) ∈ reqs →
       f' = f ∧ s' = s).
End specification.

Record contract_valid (c : WorkloadContractV1) : Prop := {
  cv_digest : workload_plan_digest c = approved_plan_digest (authorization c);
  cv_requirement_ids : NoDup (requirement_id <$> requirements c);
  cv_requirements : Forall (requirement_valid (endpoints c)) (requirements c);
  cv_endpoint_ids : NoDup (endpoint_id <$> endpoints c);
  cv_endpoints : Forall (endpoint_valid (requirements c)) (endpoints c);
  cv_acyclic : ∀ e, e ∈ endpoints c → ¬ tc (depends (requirements c) (endpoints c)) e e
}.

(** ** [validate] decides the specification *)

Lemma validate_requirement_Ok eps prior r :
  validate_requirement eps prior r = Ok () ↔
  (requirement_id r ∉ (requirement_id <$> prior)) ∧ requirement_valid eps r.
Proof.
  unfold validate_requirement, requirement_valid.
  rewrite !bind_unit_Ok, guard_err_Ok, existsb_key_false.
  assert (match r with
          | Tcp _ _ _ _ (InclusiveRange first last) _ =>
              guard_err (last <? first) "inverted TCP port range"%string
          | _ => Ok () end = Ok () ↔
          ∀ id f ops s first last p, r = Tcp id f ops s (InclusiveRange first last) p → first <= last) as ->.
  { destruct r as [| |? ? ? ? [] ?| |]; try (split; [congruence|done]).
    rewrite guard_err_Ok, N.ltb_ge. naive_solver. }
  assert (match r with
          | Tcp _ family _ scope _ (ExactAddress endpoint) =>
              guard_err (negb (family_matches family endpoint))
                "TCP family differs from exact peer family"%string ;;
              validate_exact_peer_scope scope endpoint
          | _ => Ok () end = Ok () ↔
          ∀ id f ops s lp endpoint, r = Tcp id f ops s lp (ExactAddress endpoint) →
            family_matches f endpoint = true ∧ validate_exact_peer_scope s endpoint = Ok ()) as ->.
  { destruct r as [| |? ? ? ? ? []| |]; try (split; [congruence|done]).
    rewrite bind_unit_Ok, guard_err_Ok, negb_false_iff. naive_solver. }
  assert (match referenced_endpoint r with
          | Some reference => guard_err (negb (existsb (λ e, endpoint_id e ≟ reference) eps))
                                "unresolved workload endpoint"%string
          | None => Ok () end = Ok () ↔
          ∀ reference, referenced_endpoint r = Some reference →
            ∃ e, e ∈ eps ∧ endpoint_id e = reference) as ->; [|done].
  destruct (referenced_endpoint r) as [reference|]; [|split; [congruence|done]].
  rewrite guard_err_Ok, negb_false_iff, existsb_key, list_elem_of_fmap. naive_solver.
Qed.

Lemma validate_requirements_Ok eps prior rest :
  NoDup (requirement_id <$> prior) →
  validate_requirements eps prior rest = Ok () ↔
  NoDup (requirement_id <$> (prior ++ rest)) ∧ Forall (requirement_valid eps) rest.
Proof.
  revert prior. induction rest as [|r rest IH]; intros prior Hnd; simpl.
  { rewrite (right_id_L [] (++)). naive_solver. }
  rewrite bind_unit_Ok, validate_requirement_Ok, Forall_cons.
  replace (prior ++ r :: rest) with ((prior ++ [r]) ++ rest) by (by rewrite <- (assoc_L (++))).
  assert (requirement_id r ∉ (requirement_id <$> prior) → NoDup (requirement_id <$> prior ++ [r])) as Hnd'.
  { intros H. rewrite fmap_app, NoDup_app. split; [done|]. split; [|apply NoDup_singleton].
    intros x Hx Hr. apply list_elem_of_singleton in Hr as ->. done. }
  split.
  - intros [[Hr Hv] H]. apply IH in H; naive_solver.
  - intros (H & Hv & Hvs). assert (requirement_id r ∉ (requirement_id <$> prior)) as Hr.
    { rewrite !fmap_app, <- (assoc_L (++)), NoDup_app in H. destruct H as (_ & H & _).
      intros Hr. apply (H _ Hr). simpl. left. }
    split; [done|]. apply IH; auto.
Qed.

Section contract.
  Context (reqs : list RequirementV1) (eps : list EndpointDeclarationV1).
  Hypothesis reqs_nodup : NoDup (requirement_id <$> reqs).

Lemma owner_of_Some e r :
  owner_of reqs e = Some r ↔ r ∈ reqs ∧ requirement_id r = endpoint_requirement e.
Proof. by apply find_key_Some. Qed.

Lemma peer_differs_false f s e :
  existsb (peer_differs f s e) reqs = false ↔
  ∀ id' f' ops' s' lp', Tcp id' f' ops' s' lp' (SameAttemptEndpoint (endpoint_id e)) ∈ reqs →
    f' = f ∧ s' = s.
Proof.
  rewrite <- not_true_iff_false, existsb_exists. setoid_rewrite <- list_elem_of_In. split.
  - intros H id' f' ops' s' lp' Hin.
    destruct (peer_differs f s e (Tcp id' f' ops' s' lp' (SameAttemptEndpoint (endpoint_id e)))) eqn:E.
    { destruct H. eauto. }
    simpl in E. rewrite (bool_decide_eq_true_2 (endpoint_id e = _)) in E by done. simpl in E.
    by bool_hyps.
  - intros H ([| |id' f' ops' s' lp' [ref|]| |] & Hin & E); try done. simpl in E. bool_hyps. subst ref.
    apply H in Hin as [-> ->]. by rewrite !bool_decide_eq_true_2 in *.
Qed.

Lemma validate_endpoint_Ok prior e :
  validate_endpoint reqs eps prior e = Ok () ↔
  (endpoint_id e ∉ (endpoint_id <$> prior)) ∧ endpoint_valid reqs e ∧
  endpoint_chain reqs eps (S (length eps)) [] e = Ok ().
Proof.
  unfold validate_endpoint. rewrite bind_unit_Ok, guard_err_Ok, orb_false_iff, negb_false_iff.
  rewrite existsb_key_false, bind_Ok. setoid_rewrite ok_or_Ok. setoid_rewrite owner_of_Some.
  unfold endpoint_valid. split.
  - intros ([Hnew _] & r & [Hr Hid] & H). split; [done|].
    destruct r as [| |id f ops s lp p| |]; try discriminate.
    rewrite !bind_unit_Ok, !guard_err_Ok, negb_false_iff, bool_decide_eq_true, peer_differs_false in H.
    destruct H as (Hl & Hp & Hc). split; [|done]. by exists id, f, ops, s, lp, p.
  - intros (Hnew & (id & f & ops & s & lp & p & Hr & Hid & Hl & Hp) & Hc).
    split; [split; [done|]|].
    { apply (existsb_key requirement_id). rewrite <- Hid.
      by apply (list_elem_of_fmap_2 requirement_id _ _ Hr). }
    eexists. split; [by split|]. cbv beta iota.
    rewrite !bind_unit_Ok, !guard_err_Ok, negb_false_iff, bool_decide_eq_true, peer_differs_false. done.
Qed.

Lemma validate_endpoints_Ok prior rest :
  NoDup (endpoint_id <$> prior) →
  validate_endpoints reqs eps prior rest = Ok () ↔
  NoDup (endpoint_id <$> (prior ++ rest)) ∧ Forall (endpoint_valid reqs) rest ∧
  Forall (λ e, endpoint_chain reqs eps (S (length eps)) [] e = Ok ()) rest.
Proof.
  revert prior. induction rest as [|e rest IH]; intros prior Hnd; cbn [validate_endpoints].
  { rewrite (right_id_L [] (++)), !Forall_nil. naive_solver. }
  rewrite bind_unit_Ok, validate_endpoint_Ok, !Forall_cons.
  replace (prior ++ e :: rest) with ((prior ++ [e]) ++ rest) by (by rewrite <- (assoc_L (++))).
  assert (endpoint_id e ∉ (endpoint_id <$> prior) → NoDup (endpoint_id <$> prior ++ [e])) as Hnd'.
  { intros H. rewrite fmap_app, NoDup_app. split; [done|]. split; [|apply NoDup_singleton].
    intros x Hx Hr. apply list_elem_of_singleton in Hr as ->. done. }
  split.
  - intros [(Hr & Hv & Hc) H]. apply IH in H; naive_solver.
  - intros (H & [Hv Hvs] & [Hc Hcs]). assert (endpoint_id e ∉ (endpoint_id <$> prior)) as Hr.
    { rewrite !fmap_app, <- (assoc_L (++)), NoDup_app in H. destruct H as (_ & H & _).
      intros Hr. apply (H _ Hr). simpl. left. }
    split; [done|]. apply IH; auto.
Qed.

(** *** The dependency walk *)

  Hypothesis eps_nodup : NoDup (endpoint_id <$> eps).
  Hypothesis reqs_valid : Forall (requirement_valid eps) reqs.
  Hypothesis eps_valid : Forall (endpoint_valid reqs) eps.

Lemma endpoint_by_id e e' : e ∈ eps → e' ∈ eps → endpoint_id e = endpoint_id e' → e = e'.
Proof.
  intros He He' E.
  assert (List.find (λ y, endpoint_id y ≟ endpoint_id e') eps = Some e) as H1
    by (apply find_key_Some; done).
  assert (List.find (λ y, endpoint_id y ≟ endpoint_id e') eps = Some e') as H2
    by (apply find_key_Some; done).
  congruence.
Qed.

(** A walk that stops. *)
Inductive walk_ends : EndpointDeclarationV1 → Prop :=
| walk_stop e : (∀ e', ¬ depends reqs eps e e') → walk_ends e
| walk_step e e' : depends reqs eps e e' → walk_ends e' → walk_ends e.

Lemma depends_fun e e1 e2 : depends reqs eps e e1 → depends reqs eps e e2 → e1 = e2.
Proof.
  intros (He1 & r1 & Hr1 & Hid1 & Hp1) (He2 & r2 & Hr2 & Hid2 & Hp2).
  assert (owner_of reqs e = Some r1) as E1 by (by apply owner_of_Some).
  assert (owner_of reqs e = Some r2) as E2 by (by apply owner_of_Some).
  apply endpoint_by_id; [done..|congruence].
Qed.

Lemma walk_ends_acyclic e : walk_ends e → ¬ tc (depends reqs eps) e e.
Proof.
  induction 1 as [e Hstop|e e' Hd _ IH]; intros Htc.
  - inversion Htc; naive_solver.
  - apply IH. inversion Htc as [? ? Hd'|? e'' ? Hd' Htc']; subst.
    + rewrite (depends_fun _ _ _ Hd Hd') in *. by apply tc_once.
    + rewrite (depends_fun _ _ _ Hd' Hd) in Htc'. eapply tc_r; eauto.
Qed.

Lemma chain_walk_ends steps visited e :
  endpoint_chain reqs eps steps visited e = Ok () → walk_ends e.
Proof.
  revert visited e. induction steps as [|steps IH]; intros visited e H; simpl in H; [done|].
  case_bool_decide; [done|]. run_ok.
  match goal with H : owner_of _ _ = Some _ |- _ => apply owner_of_Some in H as [Hr Hid] end.
  destruct (peer_endpoint _) as [next|] eqn:Hp.
  - run_ok. match goal with H : List.find _ _ = Some _ |- _ =>
      apply (find_key_Some endpoint_id) in H as [Hin Hnext]; [|done] end.
    eapply walk_step; [|eapply IH; eassumption].
    split; [done|]. eexists. split; [exact Hr|]. by rewrite Hnext.
  - apply walk_stop. intros e' (_ & r' & Hr' & Hid' & Hp').
    assert (owner_of reqs e = Some r') as E1 by (by apply owner_of_Some).
    assert (owner_of reqs e = Some x) as E2 by (by apply owner_of_Some).
    congruence.
Qed.

Lemma acyclic_chain steps visited e :
  (∀ e, e ∈ eps → ¬ tc (depends reqs eps) e e) →
  e ∈ eps → NoDup visited →
  (∀ v, v ∈ visited → ∃ e', e' ∈ eps ∧ endpoint_id e' = v ∧ tc (depends reqs eps) e' e) →
  (length visited + steps = S (length eps))%nat →
  endpoint_chain reqs eps steps visited e = Ok ().
Proof.
  intros Hac. revert visited e. induction steps as [|steps IH]; intros visited e He Hnd Hvis Hlen.
  - exfalso. assert (visited ⊆+ endpoint_id <$> eps) as Hsub.
    { apply NoDup_submseteq; [done|]. intros v Hv.
      destruct (Hvis v Hv) as (e' & He' & <- & _). by apply list_elem_of_fmap_2. }
    apply submseteq_length in Hsub. rewrite length_fmap in Hsub. lia.
  - simpl. case_bool_decide as Hin.
    { exfalso. destruct (Hvis _ Hin) as (e' & He' & Hid & Htc).
      apply (Hac e He). by rewrite (endpoint_by_id e' e) in Htc. }
    rewrite Forall_forall in eps_valid. rewrite Forall_forall in reqs_valid.
    destruct (eps_valid e He) as (id & f & ops & s & lp & p & Hr & -> & _ & _).
    assert (owner_of reqs e = Some (Tcp (endpoint_requirement e) f ops s lp p)) as ->
      by (by apply owner_of_Some). simpl.
    destruct p as [next|]; [|done].
    destruct (reqs_valid _ Hr) as (_ & _ & Href).
    destruct (Href next eq_refl) as (e' & He' & Hid).
    assert (List.find (λ y, endpoint_id y ≟ next) eps = Some e') as ->
      by (by apply find_key_Some). simpl.
    assert (depends reqs eps e e') as Hd.
    { split; [done|]. eexists. split; [exact Hr|]. simpl. by rewrite Hid. }
    apply IH; [done| | |rewrite length_app; simpl; lia].
    + apply NoDup_app. split; [done|]. split; [|apply NoDup_singleton].
      intros v Hv Hv'. apply list_elem_of_singleton in Hv' as ->. done.
    + intros v [Hv|Hv]%elem_of_app.
      * destruct (Hvis v Hv) as (e0 & He0 & Hid0 & Htc). exists e0. do 2 (split; [done|]).
        eapply tc_r; eauto.
      * apply list_elem_of_singleton in Hv as ->. exists e. do 2 (split; [done|]). by apply tc_once.
Qed.

Lemma chains_Ok :
  Forall (λ e, endpoint_chain reqs eps (S (length eps)) [] e = Ok ()) eps ↔
  ∀ e, e ∈ eps → ¬ tc (depends reqs eps) e e.
Proof.
  rewrite Forall_forall. split.
  - intros H e He. eapply walk_ends_acyclic, chain_walk_ends, H, He.
  - intros H e He. apply acyclic_chain; auto; [by constructor|].
    intros v Hv. by apply not_elem_of_nil in Hv.
Qed.
End contract.

(** The walk's step bound is never the reason for a rejection: whatever the
    lists are, it stops by itself. *)
Lemma endpoint_chain_steps reqs eps steps visited e :
  NoDup visited → visited ⊆ (endpoint_id <$> eps) → e ∈ eps →
  (length visited + steps = S (length eps))%nat →
  endpoint_chain reqs eps steps visited e ≠ Err out_of_steps.
Proof.
  revert visited e. induction steps as [|steps IH]; intros visited e Hnd Hsub He Hlen.
  - exfalso. assert (visited ⊆+ endpoint_id <$> eps) as H by (by apply NoDup_submseteq).
    apply submseteq_length in H. rewrite length_fmap in H. lia.
  - cbn [endpoint_chain]. case_bool_decide as Hin; [done|].
    destruct (owner_of reqs e) as [r|]; simpl; [|done].
    destruct (peer_endpoint r) as [next|]; [|done].
    destruct (List.find _ eps) as [e'|] eqn:Hf; simpl; [|done].
    apply List.find_some in Hf as [Hf _]. rewrite <- list_elem_of_In in Hf.
    apply IH; [..|done|rewrite length_app; simpl; lia].
    + apply NoDup_app. split; [done|]. split; [|apply NoDup_singleton].
      intros v Hv Hv'. apply list_elem_of_singleton in Hv' as ->. done.
    + intros v [Hv|Hv]%elem_of_app; [by apply Hsub|].
      apply list_elem_of_singleton in Hv as ->. by apply list_elem_of_fmap_2.
Qed.

Lemma validate_Ok c : validate c = Ok () ↔ contract_valid c.
Proof.
  unfold validate, as_slice. rewrite !bind_unit_Ok, guard_err_Ok, negb_false_iff, bool_decide_eq_true.
  rewrite validate_requirements_Ok by constructor. rewrite (left_id_L [] (++)).
  split.
  - intros (Hd & [Hrn Hrv] & He).
    apply validate_endpoints_Ok in He as (Hen & Hev & Hc); [|done|constructor].
    pose proof (proj1 (chains_Ok _ _ Hrn Hen Hrv Hev) Hc). by constructor.
  - intros [Hd Hrn Hrv Hen Hev Hac]. do 2 (split; [done|]).
    apply validate_endpoints_Ok; [done|constructor|]. do 2 (split; [done|]).
    exact (proj2 (chains_Ok _ _ Hrn Hen Hrv Hev) Hac).
Qed.

(** ** Properties *)

(** C7: [WorkloadContractV1::validate] accepts a contract exactly when it meets
    the specification: the authorized plan is the requested one, requirement
    and endpoint identifiers do not repeat, every requirement is consistent and
    resolves its endpoints, every endpoint is owned by a TCP listener its peers
    agree with, and no endpoint depends on itself through any chain of peers. *)
Theorem validate_decides_contract (c : WorkloadContractV1) :
  validate c = Ok () ↔ contract_valid c.
Proof. apply validate_Ok. Qed.

(** The endpoint-dependency loop terminates on every input: started at any
    declared endpoint it returns within one step more than there are endpoints,
    with a verdict that is not the exhaustion of the bound. *)
Theorem endpoint_chain_terminates (reqs : list RequirementV1)
    (eps : list EndpointDeclarationV1) (e : EndpointDeclarationV1) :
  e ∈ eps →
  endpoint_chain reqs eps (S (length eps)) [] e ≠ Err out_of_steps.
Proof.
  intros He. apply endpoint_chain_steps; [constructor| |done|done].
  intros v Hv. by apply not_elem_of_nil in Hv.
Qed.

(** ** Concrete contracts *)
Module ContractExamples.

Definition digest : DiagnosticSha256 := sha256 (replicate 32 "d"%char).
Definition listener (id peer : string) : RequirementV1 :=
  Tcp (logical_id id) IpFamily_V4 (tcp_operations [Create; Bind; Listen; Accept])
      AttemptPrivateStack KernelAssigned (SameAttemptEndpoint (logical_id peer)).
Definition rooted (id : string) : RequirementV1 :=
  Tcp (logical_id id) IpFamily_V4 (tcp_operations [Create; Bind; Listen; Accept])
      AttemptPrivateStack (InclusiveRange 8000 8010)
      (ExactAddress (TcpEndpoint_V4 (ascii_of_N <$> [127; 0; 0; 1]) 80)).
Definition endpoint (id req : string) : EndpointDeclarationV1 :=
  {| endpoint_id := logical_id id; endpoint_requirement := logical_id req |}.
Definition contract (reqs : list RequirementV1) (eps : list EndpointDeclarationV1) : WorkloadContractV1 := {|
  workload_plan_digest := digest;
  authorized_profile := {| profile_id := logical_id "p"; profile_semantic_digest := digest |};
  authorization := {| grant_id := logical_id "g"; grant_revision := 1; approved_plan_digest := digest |};
  ceiling := {| direct_socket_authority := NoNewInetSockets;
                unix_authority := NoNamedEndpointsSocketPairsOnly;
                external_socket_custody := NoSocketAtTargetEntry;
                credential_gains := NoGain;
                mediated_communication := RequireNoExternalCommunication |};
  requirements := reqs;
  endpoints := eps;
  expected_epoch := {| service_instance := nonce128 (replicate 16 "n"%char); revision := 1 |}
|}.

Definition two_reqs := [listener "a" "ep-b"; rooted "b"].
Definition two_eps := [endpoint "ep-a" "a"; endpoint "ep-b" "b"].
Definition cyclic_reqs := [listener "a" "ep-b"; listener "b" "ep-a"].

Example accepts_chain : validate (contract two_reqs two_eps) = Ok ().
Proof. vm_compute. reflexivity. Qed.
Example rejects_cycle :
  validate (contract cyclic_reqs two_eps) = Err "cyclic endpoint dependencies"%string.
Proof. vm_compute. reflexivity. Qed.

End ContractExamples.

Lemma endpoint_chain_terminates_witness :
  endpoint_chain ContractExamples.cyclic_reqs ContractExamples.two_eps 3 []
    (ContractExamples.endpoint "ep-a" "a") ≠ Err out_of_steps.
Proof.
  apply (endpoint_chain_terminates ContractExamples.cyclic_reqs ContractExamples.two_eps).
  left.
Defined.

(** A version-two contract is accepted exactly when its version-one view is
    valid and, for the private TCP profile, its ceilings are the private socket
    stack and no credential gain. *)
Theorem validate_v2_decides (c : WorkloadContractV2) :
  validate_v2 c = Ok () ↔
  contract_valid (v1_view c) ∧
  (id_str (profile_id (v2_authorized_profile c)) = "linux-tcp4-private-v1"%string →
   direct_socket_authority (v2_ceiling c) = AttemptPrivateIpv4StackAllPorts ∧
   credential_gains (v2_ceiling c) = NoGain).
Proof.
  unfold validate_v2. rewrite bind_unit_Ok, validate_Ok. apply and_iff_compat_l.
  repeat case_bool_decide; simpl; naive_solver.
Qed.
