(* ===== verification/Policy.v ===== *)
(** * Execution policy

    memcordon-core/src/policy.rs: byte sizes and their text form, the policy of
    one supervised command and its builders, and the deadline policy with its
    wire form.  The theorems give the exact value of every accepted byte size,
    the round trip with [Display], and the deadline's range and round trip. *)

From S2P Require Import Prelude Decimal Bounded WorkloadContract.
From Stdlib Require Import Ascii.

(** ** Byte sizes *)

Record ByteSize : Type := byte_size { size_bytes : N }.
#[global] Instance ByteSize_eq_dec : EqDecision ByteSize.
Proof. solve_decision. Defined.

Definition ByteSize_from_bytes (b : N) : ByteSize := byte_size b.
Definition ByteSize_gib (value : N) : ByteSize :=
  byte_size (saturating_mul 64 value (1024 * 1024 * 1024)).

(** [Display]: the number of bytes and a [B]. *)
Definition ByteSize_fmt (b : ByteSize) : string := print_uint (size_bytes b) +:+ "B"%string.

Inductive ByteSizeParseError : Type :=
| MissingNumber
| InvalidUnit (unit : string)
| InvalidDecimal
| ByteSizeOverflow.

Definition size_multiplier (unit : string) : option N :=
  if bool_decide (unit = ""%string) || bool_decide (unit = "B"%string) then Some 1
  else if bool_decide (unit = "KB"%string) then Some 1000
  else if bool_decide (unit = "MB"%string) then Some 1000000
  else if bool_decide (unit = "GB"%string) then Some 1000000000
  else if bool_decide (unit = "TB"%string) then Some 1000000000000
  else if bool_decide (unit = "PB"%string) then Some 1000000000000000
  else if bool_decide (unit = "EB"%string) then Some 1000000000000000000
  else if bool_decide (unit = "KiB"%string) then Some (N.shiftl 1 10)
  else if bool_decide (unit = "MiB"%string) then Some (N.shiftl 1 20)
  else if bool_decide (unit = "GiB"%string) then Some (N.shiftl 1 30)
  else if bool_decide (unit = "TiB"%string) then Some (N.shiftl 1 40)
  else if bool_decide (unit = "PiB"%string) then Some (N.shiftl 1 50)
  else if bool_decide (unit = "EiB"%string) then Some (N.shiftl 1 60)
  else None.

Definition ByteSize_from_str (input : string) : result ByteSizeParseError ByteSize :=
  let '(number, unit) := split_number input in
  if str_is_empty number then Err MissingNumber else
  multiplier ← ok_or (InvalidUnit unit) (size_multiplier unit);
  parts ← ok_or InvalidDecimal (decimal_parts number);
  b ← ok_or ByteSizeOverflow (scale_decimal multiplier parts.1 parts.2);
  b ← ok_or ByteSizeOverflow (try_from 64 b);
  mret (byte_size b).

(** ** Policy *)

Inductive Enforcement : Type := Auto | Hard | Watchdog.
Inductive BoundaryRequirement : Type := Standard | Sealed.
Inductive Lifetime : Type := Lifetime_Command | Lifetime_Workload.
Inductive Metric : Type := Native | PhysicalFootprint | Rss | Virtual.
Inductive SwapPolicy : Type := SwapBytes (size : ByteSize) | SwapUnlimited | SwapHost.
Inductive DeadlineScope : Type := Attempt | Supervision.

#[global] Instance Enforcement_eq_dec : EqDecision Enforcement.
Proof. solve_decision. Defined.
#[global] Instance BoundaryRequirement_eq_dec : EqDecision BoundaryRequirement.
Proof. solve_decision. Defined.
#[global] Instance Lifetime_eq_dec : EqDecision Lifetime.
Proof. solve_decision. Defined.
#[global] Instance Metric_eq_dec : EqDecision Metric.
Proof. solve_decision. Defined.
#[global] Instance SwapPolicy_eq_dec : EqDecision SwapPolicy.
Proof. solve_decision. Defined.
#[global] Instance DeadlineScope_eq_dec : EqDecision DeadlineScope.
Proof. solve_decision. Defined.

Record CommandSpec : Type := { command_program : string; command_args : list string }.
Definition CommandSpec_new (program : string) : CommandSpec :=
  {| command_program := program; command_args := [] |}.
Definition CommandSpec_add_args (c : CommandSpec) (args : list string) : CommandSpec :=
  {| command_program := command_program c; command_args := command_args c ++ args |}.

Record DeadlinePolicy : Type := { dp_duration : Duration; dp_scope : DeadlineScope }.
#[global] Instance DeadlinePolicy_eq_dec : EqDecision DeadlinePolicy.
Proof. solve_decision. Defined.

Inductive DeadlinePolicyError : Type := DeadlinePolicyErr.

Definition DeadlinePolicy_new (duration : Duration) (scope : DeadlineScope)
    : result DeadlinePolicyError DeadlinePolicy :=
  let milliseconds := as_millis duration in
  if ((milliseconds =? 0) && negb (duration =? 0)) || is_none (try_from 64 milliseconds)
  then Err DeadlinePolicyErr
  else Ok {| dp_duration := duration; dp_scope := scope |}.

(** The two serialized fields; [None] is the serializer's error. *)
Definition DeadlinePolicy_serialize (p : DeadlinePolicy) : option (N * DeadlineScope) :=
  duration_ms ← try_from 64 (as_millis (dp_duration p));
  Some (duration_ms, dp_scope p).
Definition DeadlinePolicy_deserialize (wire : N * DeadlineScope)
    : result DeadlinePolicyError DeadlinePolicy :=
  DeadlinePolicy_new (from_millis wire.1) wire.2.

Record Policy : Type := {
  p_workload_contract : option WorkloadContractV1;
  p_private_workload_contract : option WorkloadContractV2;
  p_memory : option ByteSize;
  p_deadline : option DeadlinePolicy;
  p_enforcement : Enforcement;
  p_boundary : BoundaryRequirement;
  p_lifetime : Lifetime;
  p_metric : Metric;
  p_poll_interval : Duration;
  p_signal_grace : Duration;
  p_command_exit_grace : Duration;
  p_limit_grace : Duration;
  p_swap : SwapPolicy
}.

Definition Policy_new (memory : ByteSize) : Policy := {|
  p_workload_contract := None;
  p_private_workload_contract := None;
  p_memory := Some memory;
  p_deadline := None;
  p_enforcement := Auto;
  p_boundary := Standard;
  p_lifetime := Lifetime_Command;
  p_metric := Native;
  p_poll_interval := from_millis 50;
  p_signal_grace := from_secs 2;
  p_command_exit_grace := Duration_ZERO;
  p_limit_grace := Duration_ZERO;
  p_swap := SwapBytes (ByteSize_from_bytes 0)
|}.

Definition Policy_unbounded : Policy := {|
  p_workload_contract := None;
  p_private_workload_contract := None;
  p_memory := None;
  p_deadline := None;
  p_enforcement := Auto;
  p_boundary := Standard;
  p_lifetime := Lifetime_Command;
  p_metric := Native;
  p_poll_interval := from_millis 50;
  p_signal_grace := from_secs 2;
  p_command_exit_grace := Duration_ZERO;
  p_limit_grace := Duration_ZERO;
  p_swap := SwapBytes (ByteSize_from_bytes 0)
|}.

Definition Policy_default : Policy := Policy_new (ByteSize_gib 1).

Definition set_contracts (p : Policy) (v1 : option WorkloadContractV1) (v2 : option WorkloadContractV2)
    : Policy := {|
  p_workload_contract := v1;
  p_private_workload_contract := v2;
  p_memory := p_memory p;
  p_deadline := p_deadline p;
  p_enforcement := p_enforcement p;
  p_boundary := p_boundary p;
  p_lifetime := p_lifetime p;
  p_metric := p_metric p;
  p_poll_interval := p_poll_interval p;
  p_signal_grace := p_signal_grace p;
  p_command_exit_grace := p_command_exit_grace p;
  p_limit_grace := p_limit_grace p;
  p_swap := p_swap p
|}.

Definition with_workload_contract (request : WorkloadContractV1) (p : Policy) : result string Policy :=
  validate request ;;
  guard_err (is_some (p_private_workload_contract p)) "mixed workload request versions"%string ;;
  mret (set_contracts p (Some request) (p_private_workload_contract p)).

Definition with_private_workload_contract (request : WorkloadContractV2) (p : Policy)
    : result string Policy :=
  validate_v2 request ;;
  guard_err (is_some (p_workload_contract p)) "mixed workload request versions"%string ;;
  mret (set_contracts p (p_workload_contract p) (Some request)).

Definition set_deadline (p : Policy) (d : option DeadlinePolicy) : Policy := {|
  p_workload_contract := p_workload_contract p;
  p_private_workload_contract := p_private_workload_contract p;
  p_memory := p_memory p;
  p_deadline := d;
  p_enforcement := p_enforcement p;
  p_boundary := p_boundary p;
  p_lifetime := p_lifetime p;
  p_metric := p_metric p;
  p_poll_interval := p_poll_interval p;
  p_signal_grace := p_signal_grace p;
  p_command_exit_grace := p_command_exit_grace p;
  p_limit_grace := p_limit_grace p;
  p_swap := p_swap p
|}.

Definition with_deadline (duration : Duration) (p : Policy) : result DeadlinePolicyError Policy :=
  d ← DeadlinePolicy_new duration Attempt;
  mret (set_deadline p (Some d)).

Definition with_boundary (boundary : BoundaryRequirement) (p : Policy) : Policy := {|
  p_workload_contract := p_workload_contract p;
  p_private_workload_contract := p_private_workload_contract p;
  p_memory := p_memory p;
  p_deadline := p_deadline p;
  p_enforcement := p_enforcement p;
  p_boundary := boundary;
  p_lifetime := p_lifetime p;
  p_metric := p_metric p;
  p_poll_interval := p_poll_interval p;
  p_signal_grace := p_signal_grace p;
  p_command_exit_grace := p_command_exit_grace p;
  p_limit_grace := p_limit_grace p;
  p_swap := p_swap p
|}.
Definition sealed (p : Policy) : Policy := with_boundary Sealed p.

(** ** Properties *)

(** The result of a successful parse is the decimal's exact value, rounded up. *)
Lemma from_str_value s b :
  ByteSize_from_str s = Ok b →
  ∃ number unit m whole fraction,
    split_number s = (number, unit) ∧ size_multiplier unit = Some m ∧
    decimal_parts number = Some (whole, fraction) ∧
    size_bytes b = decimal_ceil m whole fraction ∧ size_bytes b < 2 ^ 64.
Proof.
  unfold ByteSize_from_str. destruct (split_number s) as [number unit] eqn:Es.
  destruct (str_is_empty number); [done|]. intros H. run_ok.
  destruct x0 as [whole fraction]; simpl in *.
  match goal with H : decimal_parts _ = Some _ |- _ => pose proof (decimal_parts_spec _ _ _ H) as [Hw Hf] end.
  match goal with H : scale_decimal _ _ _ = Some _ |- _ =>
    apply scale_decimal_exact in H; [|done..] end.
  do 5 eexists. repeat split; try done.
Qed.

Lemma multiplier_pos unit m : size_multiplier unit = Some m → 1 <= m.
Proof. unfold size_multiplier. repeat case_match; intros; simplify_eq; vm_compute; done. Qed.

Lemma multiplier_range unit m : size_multiplier unit = Some m → 1 <= m <= 2 ^ 60.
Proof.
  unfold size_multiplier. repeat case_match; intros; simplify_eq; split; vm_compute; done.
Qed.

Lemma unit_not_number unit m :
  size_multiplier unit = Some m →
  match unit with String c _ => is_ascii_digit c || (c ≟ "."%char) = false | _ => True end.
Proof.
  unfold size_multiplier.
  repeat (case_match eqn:E; [first [apply orb_true_iff in E as [E|E] | idtac];
    bool_hyps; by subst | clear E]).
  done.
Qed.

Lemma from_str_text whole fraction unit m :
  size_multiplier unit = Some m → decimal_digits whole fraction →
  ByteSize_from_str (decimal_text whole fraction +:+ unit) =
    if decimal_ceil m whole fraction <? 2 ^ 64
    then Ok (byte_size (decimal_ceil m whole fraction)) else Err ByteSizeOverflow.
Proof.
  intros Hm Hd. pose proof (decimal_text_number _ _ Hd) as [Hnum Hne].
  unfold ByteSize_from_str.
  rewrite split_number_app by (done || by eapply unit_not_number).
  rewrite Hne, Hm. simpl. rewrite decimal_parts_text by done. simpl.
  pose proof (scale_decimal_u64 _ _ _ (multiplier_range _ _ Hm) Hd) as H.
  destruct (scale_decimal m whole fraction) as [n|]; simpl in *; rewrite ?H; case_match; try done;
    by rewrite H.
Qed.

(** A byte size written with up to 19 fraction digits and any supported
    unit is read as the least number of bytes not below its exact value; if
    that number does not fit in [u64] it is rejected as an overflow, and there
    is no other failure. *)
Theorem byte_size_parse_exact (whole unit : string) (fraction : option string) (m : N)
    (Hunit : size_multiplier unit = Some m) (Hdigits : decimal_digits whole fraction) :
  let scale := 10 ^ str_len (default ""%string fraction) in
  let exact := (digits_value (bytes whole) * scale
                + digits_value (bytes (default ""%string fraction))) * m in
  match ByteSize_from_str (decimal_text whole fraction +:+ unit) with
  | Ok b => exact <= size_bytes b * scale < exact + scale ∧ size_bytes b < 2 ^ 64
  | Err e => e = ByteSizeOverflow ∧ (2 ^ 64 - 1) * scale < exact
  end.
Proof.
  cbv zeta. rewrite (from_str_text _ _ _ m) by done.
  pose proof (decimal_ceil_least m whole fraction) as H. cbv zeta in H.
  destruct (N.ltb_spec (decimal_ceil m whole fraction) (2 ^ 64)) as [E|E]; [done|]. split; [done|].
  set (scale := 10 ^ _) in *. nia.
Qed.

Lemma byte_size_parse_exact_witness :
  ByteSize_from_str "1.5KiB" = Ok (byte_size 1536) ∧
  match ByteSize_from_str "1.5KiB" with
  | Ok b => 15 * 1024 <= size_bytes b * 10 < 15 * 1024 + 10 ∧ size_bytes b < 2 ^ 64
  | Err e => e = ByteSizeOverflow ∧ (2 ^ 64 - 1) * 10 < 15 * 1024
  end.
Proof.
  split; [vm_compute; reflexivity|].
  apply (byte_size_parse_exact "1" "KiB" (Some "5"%string) 1024); [reflexivity|].
  split; [reflexivity|]. intros f [= <-]. split; [reflexivity|]. vm_compute. done.
Defined.

(** Every byte size that [u64] can hold is read back from the text
    [Display] writes for it. *)
Theorem byte_size_display_roundtrip (b : ByteSize) (H : size_bytes b < 2 ^ 64) :
  ByteSize_from_str (ByteSize_fmt b) = Ok b.
Proof.
  destruct b as [n]. simpl in H. unfold ByteSize_fmt. simpl.
  assert (decimal_digits (print_uint n) None) as Hd by (split; [apply print_uint_all_digits|done]).
  pose proof (from_str_text (print_uint n) None "B" 1 eq_refl Hd) as E. simpl in E. rewrite E.
  unfold decimal_ceil. simpl default. change (str_len "") with 0. change (digits_value (bytes "")) with 0.
  rewrite N.pow_0_r, N.div_1_r, digits_value_print.
  replace ((n * 1 + 0) * 1 + (1 - 1)) with n by lia. by rewrite (proj2 (N.ltb_lt _ _) H).
Qed.

Lemma byte_size_display_roundtrip_witness :
  ByteSize_from_str (ByteSize_fmt (byte_size u64_max)) = Ok (byte_size u64_max).
Proof. apply byte_size_display_roundtrip. vm_compute. done. Defined.

(** A fraction of 39 digits is rejected as out of the [u64] range even when
    the size it denotes is one byte, because the power of ten of its length
    does not fit in [u128]. *)
Theorem byte_size_long_fraction_rejected :
  let zeros := String.string_of_list_ascii (replicate 39 "0"%char) in
  ByteSize_from_str ("1." +:+ zeros +:+ "B")%string = Err ByteSizeOverflow ∧
  decimal_ceil 1 "1" (Some zeros) = 1.
Proof. split; vm_compute; reflexivity. Qed.

(** A deadline policy is accepted exactly when its duration is zero or at
    least a millisecond and its milliseconds fit in [u64]; an accepted one can
    always be serialized, and reading it back gives the same scope and the
    duration truncated to whole milliseconds (so it is the identity on
    whole-millisecond deadlines). *)
Theorem deadline_policy_wire (duration : Duration) (scope : DeadlineScope) :
  match DeadlinePolicy_new duration scope with
  | Ok p =>
      (duration = 0 ∨ 1000000 <= duration) ∧ as_millis duration < 2 ^ 64 ∧
      ∃ wire, DeadlinePolicy_serialize p = Some wire ∧
        DeadlinePolicy_deserialize wire =
          Ok {| dp_duration := from_millis (as_millis duration); dp_scope := scope |}
  | Err _ => (0 < duration < 1000000) ∨ 2 ^ 64 <= as_millis duration
  end.
Proof.
  assert (as_millis duration = 0 ↔ duration < 1000000) as Hz.
  { unfold as_millis. apply N.div_small_iff. lia. }
  assert (is_none (try_from 64 (as_millis duration)) = false ↔ as_millis duration < 2 ^ 64) as Hf.
  { rewrite is_none_false. unfold is_Some. setoid_rewrite try_from_Some. naive_solver. }
  unfold DeadlinePolicy_new.
  destruct (_ && _ || _) eqn:E.
  - apply orb_true_iff in E as [E|E]; bool_hyps; [left; lia|right].
    destruct (N.lt_ge_cases (as_millis duration) (2 ^ 64)) as [Hlt|]; [|done].
    apply Hf in Hlt. apply is_none_false in Hlt as [? ?]. congruence.
  - apply orb_false_iff in E as [E E2]. rewrite Hf in E2.
    assert (duration = 0 ∨ 1000000 <= duration) as Hr.
    { destruct (N.eqb_spec (as_millis duration) 0) as [H0|]; [|lia].
      simpl in E. bool_hyps. by left. }
    split; [done|]. split; [done|].
    exists (as_millis duration, scope). split.
    { unfold DeadlinePolicy_serialize. simpl.
      by rewrite (proj2 (try_from_Some 64 (as_millis duration) _) (conj eq_refl E2)). }
    unfold DeadlinePolicy_deserialize, DeadlinePolicy_new. simpl. rewrite as_millis_from_millis.
    rewrite (proj2 Hf E2). rewrite orb_false_r.
    destruct (N.eqb_spec (as_millis duration) 0) as [H0|]; [|done].
    by rewrite H0.
Qed.

(** A builder call on a policy. *)
Inductive builder_call : Type :=
| WithContract (request : WorkloadContractV1)
| WithPrivateContract (request : WorkloadContractV2)
| WithDeadline (duration : Duration)
| WithBoundary (boundary : BoundaryRequirement).

(** The caller keeps the old policy when a builder fails. *)
Definition apply_builder (p : Policy) (call : builder_call) : Policy :=
  match call with
  | WithContract request =>
      match with_workload_contract request p with Ok p' => p' | Err _ => p end
  | WithPrivateContract request =>
      match with_private_workload_contract request p with Ok p' => p' | Err _ => p end
  | WithDeadline duration => match with_deadline duration p with Ok p' => p' | Err _ => p end
  | WithBoundary boundary => with_boundary boundary p
  end.

Definition contracts_exclusive (p : Policy) : Prop :=
  (p_workload_contract p = None ∨ p_private_workload_contract p = None) ∧
  (∀ c, p_workload_contract p = Some c → contract_valid c) ∧
  (∀ c, p_private_workload_contract p = Some c → contract_valid (v1_view c)).

Lemma apply_builder_exclusive p call :
  contracts_exclusive p → contracts_exclusive (apply_builder p call).
Proof.
  intros (Hx & H1 & H2). destruct call as [c|c|d|b]; simpl; [..|by split].
  - destruct (with_workload_contract c p) as [p'|] eqn:E; [|by split].
    unfold with_workload_contract in E. run_ok. bool_hyps. destruct x.
    split; [by right|]. split; [|by rewrite H0]. simpl. intros ? [= <-]. by apply validate_Ok.
  - destruct (with_private_workload_contract c p) as [p'|] eqn:E; [|by split].
    unfold with_private_workload_contract in E. run_ok. bool_hyps.
    unfold validate_v2 in *. run_ok. destruct x1.
    split; [by left|]. simpl. split; [by rewrite H0|]. intros ? [= <-]. by apply validate_Ok.
  - destruct (with_deadline d p) as [p'|] eqn:E; [|by split].
    unfold with_deadline in E. run_ok. by split.
Qed.

(** The two contract builders never let a policy hold requests of both
    versions: whatever sequence of builder calls is made on a new or unbounded
    policy, at most one request is present and it is valid. *)
Theorem policy_contracts_exclusive (calls : list builder_call) (memory : ByteSize) :
  contracts_exclusive (fold_left apply_builder calls (Policy_new memory)) ∧
  contracts_exclusive (fold_left apply_builder calls Policy_unbounded).
Proof.
  assert (∀ p, contracts_exclusive p → contracts_exclusive (fold_left apply_builder calls p)) as H.
  { induction calls as [|call calls IH]; simpl; auto using apply_builder_exclusive. }
  split; apply H; (split; [by left|done]).
Qed.
