(* ===== verification/Outcome.v ===== *)
(** * Outcomes of one attempt and their exit codes

    memcordon-core/src/outcome.rs (child termination, deadline evidence, event
    precedence, run outcomes), [outcome_status] of
    memcordon-core/src/supervision.rs and the two mappings of
    memcordon-cli/src/exit_mapping.rs.  Signals and exit codes are [i32] values,
    kept as [Z]. *)

From S2P Require Import Prelude Decimal Bounded WorkloadContract Policy.

Inductive ChildTermination : Type :=
| ExitCode (code : Z)
| UnixSignal (signal : Z)
| WindowsStatus (status : N)
| ChildUnavailable.

Record Interruption : Type := { interruption_signal : Z }.

Record LimitEvidence : Type := {
  limit_backend : string;
  limit_metric : string;
  limit_detail : string
}.

Record CleanupErrorRecord : Type := { cleanup_operation : string; cleanup_message : string }.

Record CleanupSummary : Type := {
  graceful_attempted : bool;
  force_attempted : bool;
  direct_child_reaped : bool;
  workload_empty : option bool;
  cleanup_errors : list CleanupErrorRecord
}.
Definition CleanupSummary_default : CleanupSummary := {|
  graceful_attempted := false; force_attempted := false; direct_child_reaped := false;
  workload_empty := None; cleanup_errors := []
|}.

(** ** Deadline evidence *)

Record DeadlineEvidence : Type := {
  de_duration_ms : N;
  de_scope : DeadlineScope;
  de_origin : string;
  de_overshoot_ms : N;
  de_expires_offset_ms : N;
  de_observed_offset_ms : N;
  de_grace_requested_ms : N;
  de_grace_elapsed_ms : N;
  de_graceful_action : option string;
  de_force_action : option string
}.

Inductive DeadlineEvidenceError : Type := DeadlineEvidenceErr.

Definition DeadlineEvidence_new (duration_ms : N) (scope : DeadlineScope) (origin : string)
    (expires_offset_ms observed_offset_ms grace_requested_ms grace_elapsed_ms : N)
    (graceful_action force_action : option string)
    : result DeadlineEvidenceError DeadlineEvidence :=
  if str_is_empty origin
     || (observed_offset_ms <? expires_offset_ms)
     || (grace_requested_ms <? grace_elapsed_ms)
     || ((0 <? grace_elapsed_ms) && is_none graceful_action)
  then Err DeadlineEvidenceErr
  else Ok {|
    de_duration_ms := duration_ms;
    de_scope := scope;
    de_origin := origin;
    de_overshoot_ms := observed_offset_ms - expires_offset_ms;
    de_expires_offset_ms := expires_offset_ms;
    de_observed_offset_ms := observed_offset_ms;
    de_grace_requested_ms := grace_requested_ms;
    de_grace_elapsed_ms := grace_elapsed_ms;
    de_graceful_action := graceful_action;
    de_force_action := force_action
  |}.

Inductive DeadlineWireError : Type :=
| DeadlineWireInvalid (e : DeadlineEvidenceError)
| DeadlineOvershootMismatch.

(** The wire form has the fields of the record; serialization is derived. *)
Definition DeadlineEvidence_deserialize (wire : DeadlineEvidence)
    : result DeadlineWireError DeadlineEvidence :=
  evidence ← map_err DeadlineWireInvalid
    (DeadlineEvidence_new (de_duration_ms wire) (de_scope wire) (de_origin wire)
       (de_expires_offset_ms wire) (de_observed_offset_ms wire)
       (de_grace_requested_ms wire) (de_grace_elapsed_ms wire)
       (de_graceful_action wire) (de_force_action wire));
  if negb (de_overshoot_ms evidence =? de_overshoot_ms wire)
  then Err DeadlineOvershootMismatch
  else Ok evidence.

(** ** Event precedence *)

Inductive AttemptEventKind : Type :=
| MemoryLimit | DeadlineEvent | MonitorFailure | InterruptionEvent | Completion.

Definition precedence (e : AttemptEventKind) : N :=
  match e with
  | MemoryLimit => 0 | DeadlineEvent => 1 | MonitorFailure => 2
  | InterruptionEvent => 3 | Completion => 4
  end.

(** [Iterator::min_by_key]: the first of the least elements. *)
Fixpoint min_by_key {A} (key : A → N) (l : list A) : option A :=
  match l with
  | [] => None
  | x :: l =>
      match min_by_key key l with
      | None => Some x
      | Some y => if key y <? key x then Some y else Some x
      end
  end.

Definition select_event (events : list AttemptEventKind) : option AttemptEventKind :=
  min_by_key precedence events.

(** ** Run outcomes *)

Inductive RunOutcome : Type :=
| Exited (child : ChildTermination) (peak : option ByteSize) (cleanup : CleanupSummary)
| LimitExceeded (limit : ByteSize) (observed peak : option ByteSize) (evidence : LimitEvidence)
    (child_after_termination : option ChildTermination) (cleanup : CleanupSummary)
| DeadlineExceeded (deadline : DeadlineEvidence)
    (child_after_termination : option ChildTermination) (peak : option ByteSize)
    (cleanup : CleanupSummary)
| Interrupted (signal : Interruption) (child_after_termination : option ChildTermination)
    (cleanup : CleanupSummary)
| MonitorFailed (error : string) (child_after_termination : option ChildTermination)
    (cleanup : CleanupSummary).

Definition outcome_cleanup (o : RunOutcome) : CleanupSummary :=
  match o with
  | Exited _ _ c | LimitExceeded _ _ _ _ _ c | DeadlineExceeded _ _ _ c
  | Interrupted _ _ c | MonitorFailed _ _ c => c
  end.

#[global] Instance ChildTermination_eq_dec : EqDecision ChildTermination.
Proof. solve_decision. Defined.
#[global] Instance Interruption_eq_dec : EqDecision Interruption.
Proof. solve_decision. Defined.
#[global] Instance LimitEvidence_eq_dec : EqDecision LimitEvidence.
Proof. solve_decision. Defined.
#[global] Instance CleanupErrorRecord_eq_dec : EqDecision CleanupErrorRecord.
Proof. solve_decision. Defined.
#[global] Instance CleanupSummary_eq_dec : EqDecision CleanupSummary.
Proof. solve_decision. Defined.
#[global] Instance DeadlineEvidence_eq_dec : EqDecision DeadlineEvidence.
Proof. solve_decision. Defined.
#[global] Instance AttemptEventKind_eq_dec : EqDecision AttemptEventKind.
Proof. solve_decision. Defined.
#[global] Instance RunOutcome_eq_dec : EqDecision RunOutcome.
Proof. solve_decision. Defined.

(** ** Exit codes *)

(** [i32::try_from(u32)]. *)
Definition i32_try_from (status : N) : option Z :=
  if (Z.of_N status <=? i32_max)%Z then Some (Z.of_N status) else None.

Definition no_errors (c : CleanupSummary) : bool :=
  match cleanup_errors c with [] => true | _ => false end.

Definition outcome_status (o : RunOutcome) : Z :=
  match o with
  | LimitExceeded _ _ _ _ _ _ => 124
  | DeadlineExceeded _ _ _ _ => 123
  | MonitorFailed _ _ _ => 125
  | Interrupted signal _ _ => i32_saturating_add 128 (interruption_signal signal)
  | Exited child _ cleanup =>
      if negb (no_errors cleanup) || negb (direct_child_reaped cleanup)
         || (workload_empty cleanup ≟ Some false)
      then 125
      else match child with
           | ExitCode code => code
           | UnixSignal signal => i32_saturating_add 128 signal
           | WindowsStatus status => default 125%Z (i32_try_from status)
           | ChildUnavailable => 125
           end
  end%Z.

(** Unchecked [i32] addition: [None] is the overflow (a panic in a debug build). *)
Definition i32_add (a b : Z) : option Z :=
  if ((i32_min <=? a + b) && (a + b <=? i32_max))%Z then Some (a + b)%Z else None.

Definition child_exit_code (child : ChildTermination) : option Z :=
  match child with
  | ExitCode code => Some code
  | UnixSignal signal => i32_add 128 signal
  | WindowsStatus status => Some (default 125%Z (i32_try_from status))
  | ChildUnavailable => Some 125%Z
  end.

Definition outcome_exit_code (o : RunOutcome) : option Z :=
  match o with
  | LimitExceeded _ _ _ _ _ _ => Some 124%Z
  | DeadlineExceeded _ _ _ _ => Some 123%Z
  | MonitorFailed _ _ _ => Some 125%Z
  | Interrupted signal _ cleanup =>
      if negb (no_errors cleanup) || (workload_empty cleanup ≟ Some false)
      then Some 125%Z
      else i32_add 128 (interruption_signal signal)
  | Exited child _ cleanup =>
      if negb (no_errors cleanup) || (workload_empty cleanup ≟ Some false)
      then Some 125%Z
      else child_exit_code child
  end.

Inductive ErrorCategory : Type :=
| Usage | Unsupported | Setup | Spawn | Monitor | Wait | Termination | Cleanup | Report.
#[global] Instance ErrorCategory_eq_dec : EqDecision ErrorCategory.
Proof. solve_decision. Defined.

(** [error_exit_code], a function of the five fields of [Error] it reads. *)
Definition error_exit_code (cleanup : CleanupSummary) (workload_may_be_alive : bool)
    (code : string) (os_code : option Z) (category : ErrorCategory) : option Z :=
  if negb (no_errors cleanup) || (workload_empty cleanup ≟ Some false) || workload_may_be_alive
  then Some 125%Z
  else if bool_decide (code = "MCINTERRUPT-SPAWN-GATE"%string) then
    match os_code with None => Some 125%Z | Some signal => i32_add 128 signal end
  else if bool_decide (code = "MCSPAWN-NOT-FOUND"%string) then Some 127%Z
  else if bool_decide (code = "MCSPAWN-NOT-EXECUTABLE"%string) then Some 126%Z
  else if category ≟ Usage then Some 2%Z
  else Some 125%Z.

(** ** Properties *)

Lemma min_by_key_least {A} (key : A → N) l y :
  min_by_key key l = Some y → y ∈ l ∧ ∀ x, x ∈ l → key y <= key x.
Proof.
  revert y. induction l as [|x l IH]; intros y; simpl; [done|].
  destruct (min_by_key key l) as [z|] eqn:E.
  - destruct (IH z eq_refl) as [Hz Hall].
    destruct (N.ltb_spec (key z) (key x)); intros [= <-].
    + split; [by right|]. intros ? [->|?]%elem_of_cons; [lia|auto].
    + split; [left|]. intros ? [->|Hx]%elem_of_cons; [lia|]. specialize (Hall _ Hx). lia.
  - intros [= <-]. destruct l as [|w l]; [|simpl in E; repeat case_match; done].
    split; [left|]. intros ? ->%list_elem_of_singleton. lia.
Qed.

Lemma min_by_key_None {A} (key : A → N) l : min_by_key key l = None ↔ l = [].
Proof. destruct l; simpl; repeat case_match; done. Qed.

Lemma precedence_inj a b : precedence a = precedence b → a = b.
Proof. by destruct a, b. Qed.

(** Of several simultaneous events the one of least precedence number is
    selected, an attempt with any event selects one, and the selection does not
    depend on the order in which the events were collected. *)
Theorem select_event_deterministic (events events' : list AttemptEventKind) :
  (∀ e, select_event events = Some e →
        e ∈ events ∧ ∀ x, x ∈ events → precedence e <= precedence x) ∧
  (select_event events = None ↔ events = []) ∧
  (events ≡ₚ events' → select_event events = select_event events').
Proof.
  split; [apply min_by_key_least|]. split; [apply min_by_key_None|].
  intros Hp. unfold select_event.
  destruct (min_by_key precedence events) as [a|] eqn:Ea;
    destruct (min_by_key precedence events') as [b|] eqn:Eb; [|..|done].
  - apply min_by_key_least in Ea as [Ha Hamin], Eb as [Hb Hbmin].
    f_equal. apply precedence_inj. apply N.le_antisymm.
    + apply Hamin. by rewrite Hp.
    + apply Hbmin. by rewrite <- Hp.
  - apply min_by_key_None in Eb. subst. apply Permutation_nil_r in Hp. by subst.
  - apply min_by_key_None in Ea. subst. apply Permutation_nil_l in Hp. by subst.
Qed.

Lemma select_event_deterministic_witness :
  select_event [Completion; MemoryLimit; InterruptionEvent]
  = select_event [InterruptionEvent; Completion; MemoryLimit].
Proof.
  apply (select_event_deterministic [Completion; MemoryLimit; InterruptionEvent]).
  apply (Permutation_app_comm [Completion; MemoryLimit] [InterruptionEvent]).
Defined.

(** What evidence of an expired deadline promises. *)
Definition deadline_evidence_valid (e : DeadlineEvidence) : Prop :=
  de_origin e ≠ ""%string ∧
  de_observed_offset_ms e = de_expires_offset_ms e + de_overshoot_ms e ∧
  de_grace_elapsed_ms e <= de_grace_requested_ms e ∧
  (0 < de_grace_elapsed_ms e → is_Some (de_graceful_action e)).

Lemma str_is_empty_false s : str_is_empty s = false ↔ s ≠ ""%string.
Proof. destruct s; simpl; naive_solver. Qed.

(** Reading deadline evidence accepts exactly the records whose offsets,
    overshoot and grace fields are consistent, and returns the record it was
    given; what the constructor builds is always such a record. *)
Theorem deadline_evidence_wire (wire : DeadlineEvidence) :
  (∀ e, DeadlineEvidence_deserialize wire = Ok e ↔ e = wire ∧ deadline_evidence_valid wire) ∧
  (∀ duration scope origin expires observed requested elapsed graceful force e,
     DeadlineEvidence_new duration scope origin expires observed requested elapsed graceful force = Ok e →
     deadline_evidence_valid e).
Proof.
  assert (∀ duration scope origin expires observed requested elapsed graceful force e,
    DeadlineEvidence_new duration scope origin expires observed requested elapsed graceful force = Ok e →
    deadline_evidence_valid e) as Hnew.
  { intros *. unfold DeadlineEvidence_new, deadline_evidence_valid. case_match eqn:E; [done|].
    intros [= <-]. simpl. bool_hyps.
    match goal with H : str_is_empty _ = false |- _ => apply str_is_empty_false in H end.
    repeat split; [done|lia|lia|]. intros Hpos.
    match goal with H : _ && _ = false |- _ => rewrite (proj2 (N.ltb_lt _ _) Hpos) in H; simpl in H end.
    by apply is_none_false. }
  split; [|done]. intros e. split.
  - unfold DeadlineEvidence_deserialize. intros H. run_ok. case_match eqn:E; [done|]. run_ok. bool_hyps.
    match goal with H : DeadlineEvidence_new _ _ _ _ _ _ _ _ _ = Ok _ |- _ =>
      pose proof (Hnew _ _ _ _ _ _ _ _ _ _ H) as Hv; unfold DeadlineEvidence_new in H end.
    case_match; [done|]. run_ok. destruct wire; simpl in *. subst. done.
  - intros [-> (Ho & Hobs & Hg & Ha)]. unfold DeadlineEvidence_deserialize, DeadlineEvidence_new.
    destruct (str_is_empty (de_origin wire)) eqn:Eo; [by destruct (de_origin wire)|].
    rewrite (proj2 (N.ltb_ge _ _)) by lia. rewrite (proj2 (N.ltb_ge _ _)) by lia. simpl.
    destruct (N.ltb_spec 0 (de_grace_elapsed_ms wire)) as [Hpos|]; simpl;
      [rewrite (proj2 (is_none_false _) (Ha Hpos)); simpl|];
      (replace (de_observed_offset_ms wire - de_expires_offset_ms wire)
         with (de_overshoot_ms wire) by lia; rewrite N.eqb_refl; by destruct wire).
Qed.

Definition sample_deadline : DeadlineEvidence := {|
  de_duration_ms := 1000; de_scope := Attempt; de_origin := "authorization";
  de_overshoot_ms := 7; de_expires_offset_ms := 1000; de_observed_offset_ms := 1007;
  de_grace_requested_ms := 50; de_grace_elapsed_ms := 20;
  de_graceful_action := Some "SIGTERM"%string; de_force_action := None
|}.
Lemma deadline_evidence_wire_witness :
  DeadlineEvidence_deserialize sample_deadline = Ok sample_deadline ∧
  deadline_evidence_valid sample_deadline.
Proof.
  split; [vm_compute; reflexivity|].
  apply (deadline_evidence_wire sample_deadline) with (e := sample_deadline). vm_compute. reflexivity.
Defined.

(** ** Exit codes *)

(** The cleanup that lets a child's own status through. *)
Definition cleanup_complete (c : CleanupSummary) : Prop :=
  cleanup_errors c = [] ∧ direct_child_reaped c = true ∧ workload_empty c ≠ Some false.

Definition child_in_range (child : ChildTermination) : Prop :=
  match child with
  | ExitCode code => is_i32 code
  | UnixSignal signal => (0 <= signal <= i32_max)%Z
  | WindowsStatus status => status < 2 ^ 32
  | ChildUnavailable => True
  end.

Definition outcome_in_range (o : RunOutcome) : Prop :=
  match o with
  | Exited child _ _ => child_in_range child
  | Interrupted signal _ _ => (0 <= interruption_signal signal <= i32_max)%Z
  | _ => True
  end.

Lemma no_errors_true c : no_errors c = true ↔ cleanup_errors c = [].
Proof. unfold no_errors. by destruct (cleanup_errors c). Qed.

Lemma cleanup_gate c :
  negb (no_errors c) || negb (direct_child_reaped c) || (workload_empty c ≟ Some false) = false ↔
  cleanup_complete c.
Proof.
  rewrite !orb_false_iff, !negb_false_iff, no_errors_true, bool_decide_eq_false.
  unfold cleanup_complete. naive_solver.
Qed.

Lemma outcome_status_spec (o : RunOutcome) (Hrange : outcome_in_range o) :
  is_i32 (outcome_status o) ∧
  (outcome_status o = 0%Z →
   ∃ child peak cleanup, o = Exited child peak cleanup ∧
     (child = ExitCode 0 ∨ child = WindowsStatus 0) ∧ cleanup_complete cleanup).
Proof.
  unfold is_i32, i32_min, i32_max in *.
  destruct o as [child peak cleanup| | |signal ? ?|]; simpl in *; try (split; lia).
  - destruct (negb (no_errors cleanup) || _ || _) eqn:E; [split; lia|].
    apply cleanup_gate in E.
    destruct child as [code|sig|status|]; simpl in *;
      unfold is_i32, i32_saturating_add, i32_min, i32_max in *; [..|split; lia].
    + split; [lia|]. intros ->. eauto 7.
    + split; lia.
    + unfold i32_try_from, i32_max. case_match eqn:Es; simpl; [|split; lia].
      split; [lia|]. intros Hz. assert (status = 0) as -> by lia. eauto 7.
  - unfold i32_saturating_add, i32_min, i32_max. split; lia.
Qed.

(** The wrapper reports status zero only for a command that itself ended
    with status zero, after its direct child was reaped, with no cleanup error
    and without a workload known to be left; and every status fits in [i32]. *)
Theorem outcome_status_zero (o : RunOutcome) (Hrange : outcome_in_range o) :
  is_i32 (outcome_status o) ∧
  (outcome_status o = 0%Z →
   ∃ child peak cleanup, o = Exited child peak cleanup ∧
     (child = ExitCode 0 ∨ child = WindowsStatus 0) ∧ cleanup_complete cleanup).
Proof. by apply outcome_status_spec. Qed.

Definition clean_cleanup : CleanupSummary := {|
  graceful_attempted := false; force_attempted := false; direct_child_reaped := true;
  workload_empty := Some true; cleanup_errors := []
|}.

Lemma outcome_status_zero_witness :
  ∃ child peak cleanup, Exited (ExitCode 0) None clean_cleanup = Exited child peak cleanup ∧
     (child = ExitCode 0 ∨ child = WindowsStatus 0) ∧ cleanup_complete cleanup.
Proof.
  apply (outcome_status_zero (Exited (ExitCode 0) None clean_cleanup)); [|reflexivity].
  simpl. unfold is_i32, i32_min, i32_max. lia.
Defined.

(** The two mappings from an outcome to an exit code agree whenever the
    direct child was reaped and either the attempt was not interrupted or its
    cleanup is complete. *)
Theorem exit_codes_agree (o : RunOutcome) (Hrange : outcome_in_range o)
    (Hsmall : match o with
              | Interrupted s _ _ => (interruption_signal s <= i32_max - 128)%Z
              | Exited (UnixSignal s) _ _ => (s <= i32_max - 128)%Z
              | _ => True end)
    (Hreaped : direct_child_reaped (outcome_cleanup o) = true)
    (Hcleanup : match o with Interrupted _ _ c => cleanup_complete c | _ => True end) :
  outcome_exit_code o = Some (outcome_status o).
Proof.
  unfold i32_max in *. destruct o as [child peak cleanup| | |signal ? cleanup|]; simpl in *; try done.
  - rewrite Hreaped. simpl. rewrite orb_false_r.
    destruct (negb (no_errors cleanup) || _); [done|].
    destruct child as [code|sig|status|]; simpl in *; try done.
    unfold i32_add, i32_saturating_add, i32_min, i32_max in *.
    replace (_ && _) with true by lia. f_equal. lia.
  - destruct Hcleanup as (He & _ & Hw). rewrite (proj2 (no_errors_true _) He). simpl.
    rewrite (bool_decide_eq_false_2 _ Hw). simpl.
    unfold i32_add, i32_saturating_add, i32_min, i32_max in *.
    replace (_ && _) with true by lia. f_equal. lia.
Qed.

Lemma exit_codes_agree_witness :
  outcome_exit_code (Exited (UnixSignal 9) None clean_cleanup)
  = Some (outcome_status (Exited (UnixSignal 9) None clean_cleanup)).
Proof.
  apply exit_codes_agree; simpl; unfold i32_max; try lia; reflexivity || exact I.
Defined.

Definition failed_cleanup : CleanupSummary := {|
  graceful_attempted := true; force_attempted := true; direct_child_reaped := true;
  workload_empty := Some false;
  cleanup_errors := [{| cleanup_operation := "kill"; cleanup_message := "EPERM" |}]
|}.

(** The two mappings disagree on an interrupted attempt whose cleanup
    failed: the library mapping returns 125 and the supervision mapping
    returns 128 plus the signal; and on an attempt whose direct child was not
    reaped, where only the supervision mapping returns 125. *)
Theorem exit_codes_disagree :
  outcome_exit_code (Interrupted {| interruption_signal := 2 |} None failed_cleanup) = Some 125%Z ∧
  outcome_status (Interrupted {| interruption_signal := 2 |} None failed_cleanup) = 130%Z ∧
  outcome_exit_code (Exited (ExitCode 0) None CleanupSummary_default) = Some 0%Z ∧
  outcome_status (Exited (ExitCode 0) None CleanupSummary_default) = 125%Z.
Proof. repeat split. Qed.
