(* ===== verification/Safety.v ===== *)
(** * Restart safety

    [RestartSafetyProof] of memcordon-core/src/supervision.rs: what must be
    known about a finished attempt before another may start, and the proof a
    plain cleanup summary yields. *)

From S2P Require Import Prelude Decimal Bounded WorkloadContract Policy Outcome.

Record RestartSafetyProof : Type := {
  rsp_direct_child_reaped : bool;
  rsp_workload_empty : option bool;
  rsp_helpers_reaped : bool;
  rsp_containment_removed : bool;
  rsp_containment_incapable_of_live_members : bool;
  rsp_sealed_boundary_retired : bool;
  rsp_errors : list string
}.
#[global] Instance RestartSafetyProof_eq_dec : EqDecision RestartSafetyProof.
Proof. solve_decision. Defined.

Definition RestartSafetyProof_default : RestartSafetyProof := {|
  rsp_direct_child_reaped := false;
  rsp_workload_empty := None;
  rsp_helpers_reaped := false;
  rsp_containment_removed := false;
  rsp_containment_incapable_of_live_members := false;
  rsp_sealed_boundary_retired := false;
  rsp_errors := []
|}.

Definition is_safe_for (p : RestartSafetyProof) (boundary : BoundaryRequirement) : bool :=
  rsp_direct_child_reaped p
  && (rsp_workload_empty p ≟ Some true)
  && rsp_helpers_reaped p
  && (rsp_containment_removed p || rsp_containment_incapable_of_live_members p)
  && ((boundary ≠? Sealed) || rsp_sealed_boundary_retired p)
  && bool_decide (rsp_errors p = []).
Definition is_safe (p : RestartSafetyProof) : bool := is_safe_for p Standard.

(** [format!("{}: {}", error.operation, error.message)] *)
Definition cleanup_error_text (e : CleanupErrorRecord) : string :=
  cleanup_operation e +:+ ": " +:+ cleanup_message e.

Definition from_cleanup (c : CleanupSummary) : RestartSafetyProof := {|
  rsp_direct_child_reaped := direct_child_reaped c;
  rsp_workload_empty := workload_empty c;
  rsp_helpers_reaped := false;
  rsp_containment_removed := false;
  rsp_containment_incapable_of_live_members := false;
  rsp_sealed_boundary_retired := false;
  rsp_errors := cleanup_error_text <$> cleanup_errors c
|}.

(** What a safe proof establishes about the attempt. *)
Record quiescent (p : RestartSafetyProof) : Prop := {
  q_child : rsp_direct_child_reaped p = true;
  q_workload : rsp_workload_empty p = Some true;
  q_helpers : rsp_helpers_reaped p = true;
  q_containment : rsp_containment_removed p = true ∨ rsp_containment_incapable_of_live_members p = true;
  q_errors : rsp_errors p = []
}.

Lemma is_safe_quiescent p : is_safe p = true ↔ quiescent p.
Proof.
  unfold is_safe, is_safe_for. rewrite !andb_true_iff, orb_true_iff, !bool_decide_eq_true. simpl.
  split; [intros; constructor; naive_solver | intros []; naive_solver].
Qed.

(** A proof is safe for the sealed boundary exactly when the attempt is
    quiescent and its sealed boundary is retired, so it is then safe for the
    standard boundary too; and a cleanup summary alone never makes an attempt
    safe for any boundary, whatever it says. *)
Theorem restart_safety_fails_closed (p : RestartSafetyProof) (c : CleanupSummary)
    (boundary : BoundaryRequirement) :
  (is_safe_for p boundary = true ↔
   quiescent p ∧ (boundary = Sealed → rsp_sealed_boundary_retired p = true)) ∧
  is_safe_for (from_cleanup c) boundary = false.
Proof.
  split.
  - rewrite <- is_safe_quiescent. unfold is_safe, is_safe_for.
    rewrite !andb_true_iff, !orb_true_iff, !negb_true_iff.
    destruct boundary; simpl; naive_solver.
  - unfold is_safe_for. simpl. by rewrite andb_false_r.
Qed.
