(* ===== verification/Float64.v ===== *)
(** * Binary64 arithmetic

    The [f64] operations that memcordon-core/src/restart.rs uses, on the
    Standard Library's [spec_float] at precision 53 and maximal exponent 1024
    (round to nearest even).  [exp2] is the only operation of the platform's
    mathematical library the program calls; its precision is unspecified, so it
    stays a parameter of the definitions that use it. *)

From S2P Require Import Prelude.
From Stdlib Require Import SpecFloat.

Definition prec : Z := 53.
Definition emax : Z := 1024.

Definition f64 : Type := spec_float.

(** [as f64] from integers: rounded to nearest. *)
Definition f64_of_Z (z : Z) : f64 := binary_normalize prec emax z 0 false.
Definition f64_of_N (n : N) : f64 := f64_of_Z (Z.of_N n).

Definition fadd (a b : f64) : f64 := SFadd prec emax a b.
Definition fsub (a b : f64) : f64 := SFsub prec emax a b.
Definition fmul (a b : f64) : f64 := SFmul prec emax a b.
Definition fdiv (a b : f64) : f64 := SFdiv prec emax a b.
Definition fneg (a : f64) : f64 := SFopp a.
Definition recip (a : f64) : f64 := fdiv (f64_of_Z 1) a.
Definition fle (a b : f64) : bool := SFleb a b.
Definition fge (a b : f64) : bool := SFleb b a.
Definition is_finite (a : f64) : bool :=
  match a with S754_zero _ | S754_finite _ _ _ => true | _ => false end.

(** [f64::ceil]. *)
Definition ceil (a : f64) : f64 :=
  match a with
  | S754_finite s m e =>
      if (0 <=? e)%Z then a
      else
        let d := (2 ^ (- e))%Z in
        if s then binary_normalize prec emax (- (Z.pos m / d)) 0 true
        else binary_normalize prec emax (- ((- Z.pos m) / d)) 0 false
  | _ => a
  end.

(** [as u64]: truncation, saturating, zero for a NaN. *)
Definition f64_to_u64 (a : f64) : N :=
  match a with
  | S754_finite false m e =>
      N.min (if (0 <=? e)%Z then Z.to_N (Z.pos m * 2 ^ e) else Z.to_N (Z.pos m / 2 ^ (- e)))
            u64_max
  | S754_infinity false => u64_max
  | _ => 0
  end.

Lemma f64_to_u64_range a : f64_to_u64 a < 2 ^ 64.
Proof.
  assert (u64_max < 2 ^ 64) by (vm_compute; done).
  unfold f64_to_u64. repeat case_match; try done; lia.
Qed.

#[global] Instance f64_eq_dec : EqDecision f64.
Proof. intros a b. unfold Decision, f64 in *. decide equality; apply bool_dec || apply Pos.eq_dec || apply Z.eq_dec. Defined.

Example ceil_up : ceil (fdiv (f64_of_Z 7) (f64_of_Z 2)) = f64_of_Z 4.
Proof. vm_compute. reflexivity. Qed.
Example ceil_neg : ceil (fneg (fdiv (f64_of_Z 1) (f64_of_Z 2))) = fneg (f64_of_Z 0).
Proof. vm_compute. reflexivity. Qed.
Example to_u64_sat : f64_to_u64 (fdiv (f64_of_Z 1) (f64_of_Z 0)) = u64_max.
Proof. vm_compute. reflexivity. Qed.
