(* ===== verification/Restart.v ===== *)
(** * Restart policy: conditions, multiplier, backoff and circuit settings

    First half of memcordon-core/src/restart.rs: the conditions a restart is
    allowed for, the exact rational backoff multiplier, the half-life logistic
    backoff, the circuit-breaker policy and [RestartSettings::validate].
    [exp2] is a parameter of everything that computes a decay. *)

From S2P Require Import Prelude Decimal Float64.
From Stdlib Require Import Ascii.

(** ** Conditions: a bit set in a [u8] *)

Inductive RestartCondition : Type := Condition_MemoryLimit | Condition_Deadline.
#[global] Instance RestartCondition_eq_dec : EqDecision RestartCondition.
Proof. solve_decision. Defined.

Definition condition_bit (c : RestartCondition) : N :=
  match c with Condition_MemoryLimit => 1 | Condition_Deadline => 2 end.

Record RestartConditions : Type := restart_conditions { conditions_bits : N }.
#[global] Instance RestartConditions_eq_dec : EqDecision RestartConditions.
Proof. solve_decision. Defined.

Definition Conditions_NONE : RestartConditions := restart_conditions 0.
Definition Conditions_MEMORY_LIMIT : RestartConditions := restart_conditions 1.
Definition Conditions_DEADLINE : RestartConditions := restart_conditions 2.
Definition Conditions_BOTH : RestartConditions := restart_conditions 3.

Definition conditions_contains (s : RestartConditions) (c : RestartCondition) : bool :=
  negb (N.land (conditions_bits s) (condition_bit c) =? 0).
Definition conditions_is_empty (s : RestartConditions) : bool := conditions_bits s =? 0.

Definition conditions_serialize (s : RestartConditions) : list string :=
  (if conditions_contains s Condition_MemoryLimit then ["memory-limit"%string] else [])
  ++ (if conditions_contains s Condition_Deadline then ["deadline"%string] else []).

Definition condition_name_bit (name : string) : option N :=
  if bool_decide (name = "memory-limit"%string) then Some (conditions_bits Conditions_MEMORY_LIMIT)
  else if bool_decide (name = "deadline"%string) then Some (conditions_bits Conditions_DEADLINE)
  else None.

Fixpoint conditions_deserialize_from (value : N) (names : list string)
    : result string RestartConditions :=
  match names with
  | [] => Ok (restart_conditions value)
  | name :: names =>
      bit ← ok_or "unknown restart condition"%string (condition_name_bit name);
      if negb (N.land value bit =? 0) then Err "duplicate restart condition"%string
      else conditions_deserialize_from (N.lor value bit) names
  end.
Definition conditions_deserialize (names : list string) : result string RestartConditions :=
  conditions_deserialize_from (conditions_bits Conditions_NONE) names.

Inductive RestartLimit : Type := LimitUnlimited | LimitCount (count : N).
#[global] Instance RestartLimit_eq_dec : EqDecision RestartLimit.
Proof. solve_decision. Defined.

(** ** Backoff multiplier *)

Record BackoffMultiplier : Type := { bm_numerator : N; bm_denominator : N }.
#[global] Instance BackoffMultiplier_eq_dec : EqDecision BackoffMultiplier.
Proof. solve_decision. Defined.

Inductive MultiplierParseError : Type := MultiplierSyntax | MultiplierRange.

(** The [while] loop, at most [fuel] iterations. *)
Fixpoint gcd_loop (fuel : nat) (left right : N) : N :=
  match fuel with
  | O => left
  | S fuel => if right =? 0 then left else gcd_loop fuel right (left mod right)
  end.
(** Two iterations at least halve [right]. *)
Definition gcd (left right : N) : N := gcd_loop (2 * N.size_nat right + 1) left right.

Definition BackoffMultiplier_new (numerator denominator : N)
    : result MultiplierParseError BackoffMultiplier :=
  guard_err ((denominator =? 0) || (numerator <? denominator)) MultiplierSyntax ;;
  upper ← ok_or MultiplierRange (checked_mul 64 denominator 100);
  guard_err (upper <? numerator) MultiplierSyntax ;;
  let divisor := gcd numerator denominator in
  n ← ok_or MultiplierRange (try_from 32 (numerator / divisor));
  d ← ok_or MultiplierRange (try_from 32 (denominator / divisor));
  mret {| bm_numerator := n; bm_denominator := d |}.

Definition BackoffMultiplier_two : BackoffMultiplier := {| bm_numerator := 2; bm_denominator := 1 |}.

Definition BackoffMultiplier_from_str (value : string)
    : result MultiplierParseError BackoffMultiplier :=
  guard_err (str_is_empty value
             || (starts_with "+" value || starts_with "-" value)
             || (str_contains "e" value || str_contains "E" value)) MultiplierSyntax ;;
  parts ← ok_or MultiplierSyntax (decimal_parts value);
  let digits := default ""%string parts.2 in
  exponent ← ok_or MultiplierRange (try_from 32 (str_len digits));
  denominator ← ok_or MultiplierRange (checked_pow 64 10 exponent);
  whole ← ok_or MultiplierRange (parse_uint 64 parts.1);
  fractional ← (if str_is_empty digits then Ok 0 else ok_or MultiplierRange (parse_uint 64 digits));
  numerator ← ok_or MultiplierRange
    (number ← checked_mul 64 whole denominator; checked_add 64 number fractional);
  let divisor := gcd numerator denominator in
  numerator ← ok_or MultiplierRange (try_from 32 (numerator / divisor));
  denominator ← ok_or MultiplierRange (try_from 32 (denominator / divisor));
  BackoffMultiplier_new numerator denominator.

(** ** Errors and durations *)

Inductive RestartControllerError : Type :=
| NoEffectiveCondition | InvalidConditions | InvalidBackoff | BackoffRange
| BackoffTimeReversed | InvalidCircuit | CounterRange | InvalidTransition.
#[global] Instance RestartControllerError_eq_dec : EqDecision RestartControllerError.
Proof. solve_decision. Defined.

Definition duration_millis (d : Duration) : result RestartControllerError N :=
  ok_or BackoffRange (try_from 64 (as_millis d)).

(** [Duration::checked_sub]. *)
Definition duration_checked_sub (a b : Duration) : option Duration := checked_sub a b.

(** ** Half-life logistic backoff *)

Record HalfLifeLogisticBackoffPolicy : Type := {
  hl_base_interval : Duration;
  hl_multiplier : BackoffMultiplier;
  hl_asymptote_interval : Duration;
  hl_recovery_half_life : Duration
}.

Definition HalfLifeLogisticBackoffPolicy_default : HalfLifeLogisticBackoffPolicy := {|
  hl_base_interval := from_millis 250;
  hl_multiplier := {| bm_numerator := 4; bm_denominator := 1 |};
  hl_asymptote_interval := from_secs 900;
  hl_recovery_half_life := from_secs 900
|}.

Section decay.
  Context (exp2 : f64 → f64).

Definition half_life_logistic_next_millis
    (base_interval current_interval asymptote_interval : N) (multiplier : BackoffMultiplier)
    (recovery_half_life elapsed_since_last_backoff : N) : result RestartControllerError N :=
  guard_err ((base_interval =? 0) || (asymptote_interval =? 0) || (recovery_half_life =? 0))
    InvalidBackoff ;;
  let decay_factor :=
    exp2 (fneg (fdiv (f64_of_N elapsed_since_last_backoff) (f64_of_N recovery_half_life))) in
  let interval_delta := (Z.of_N current_interval - Z.of_N base_interval)%Z in
  let recovered_interval :=
    fadd (f64_of_N base_interval) (fmul (f64_of_Z interval_delta) decay_factor) in
  let normalized_recovered := fdiv recovered_interval (f64_of_N asymptote_interval) in
  let multiplier :=
    fdiv (f64_of_N (bm_numerator multiplier)) (f64_of_N (bm_denominator multiplier)) in
  let normalized_denominator :=
    fadd (recip normalized_recovered) (fsub multiplier (f64_of_Z 1)) in
  let normalized_next := fdiv multiplier normalized_denominator in
  let next_interval := ceil (fmul (f64_of_N asymptote_interval) normalized_next) in
  mret (f64_to_u64 next_interval).

Definition backoff_validate (p : HalfLifeLogisticBackoffPolicy) : result RestartControllerError () :=
  base_interval ← duration_millis (hl_base_interval p);
  asymptote_interval ← duration_millis (hl_asymptote_interval p);
  recovery_half_life ← duration_millis (hl_recovery_half_life p);
  guard_err ((base_interval =? 0) || (asymptote_interval =? 0) || (recovery_half_life =? 0))
    InvalidBackoff ;;
  _ ← half_life_logistic_next_millis base_interval base_interval asymptote_interval
        (hl_multiplier p) recovery_half_life 0;
  mret tt.

Definition HalfLifeLogisticBackoffPolicy_new (base_interval : Duration) (multiplier : BackoffMultiplier)
    (asymptote_interval recovery_half_life : Duration)
    : result RestartControllerError HalfLifeLogisticBackoffPolicy :=
  let value := {| hl_base_interval := base_interval; hl_multiplier := multiplier;
                  hl_asymptote_interval := asymptote_interval;
                  hl_recovery_half_life := recovery_half_life |} in
  backoff_validate value ;;
  mret value.

Record HalfLifeLogisticBackoffState : Type := {
  bs_policy : HalfLifeLogisticBackoffPolicy;
  bs_current_interval : Duration;
  bs_last_backoff_at : option Duration
}.

Definition HalfLifeLogisticBackoffState_new (policy : HalfLifeLogisticBackoffPolicy)
    : result RestartControllerError HalfLifeLogisticBackoffState :=
  backoff_validate policy ;;
  mret {| bs_policy := policy; bs_current_interval := hl_base_interval policy;
          bs_last_backoff_at := None |}.

Definition effective_interval (s : HalfLifeLogisticBackoffState) (now : Duration)
    : result RestartControllerError Duration :=
  match bs_last_backoff_at s with
  | None => Ok (hl_base_interval (bs_policy s))
  | Some last_backoff_at =>
      elapsed ← ok_or BackoffTimeReversed (duration_checked_sub now last_backoff_at);
      base_interval ← duration_millis (hl_base_interval (bs_policy s));
      current_interval ← duration_millis (bs_current_interval s);
      recovery_half_life ← duration_millis (hl_recovery_half_life (bs_policy s));
      elapsed_ms ← duration_millis elapsed;
      let decay_factor := exp2 (fneg (fdiv (f64_of_N elapsed_ms) (f64_of_N recovery_half_life))) in
      let interval_delta := (Z.of_N current_interval - Z.of_N base_interval)%Z in
      let recovered := fadd (f64_of_N base_interval) (fmul (f64_of_Z interval_delta) decay_factor) in
      mret (from_millis (f64_to_u64 (ceil recovered)))
  end.

Definition on_backoff (now : Duration)
    : stM HalfLifeLogisticBackoffState RestartControllerError Duration :=
  self ← st_get;
  elapsed ← st_lift
    match bs_last_backoff_at self with
    | Some last_backoff_at => ok_or BackoffTimeReversed (duration_checked_sub now last_backoff_at)
    | None => Ok Duration_ZERO
    end;
  next_interval ← st_lift (
    base_interval ← duration_millis (hl_base_interval (bs_policy self));
    current_interval ← duration_millis (bs_current_interval self);
    asymptote_interval ← duration_millis (hl_asymptote_interval (bs_policy self));
    recovery_half_life ← duration_millis (hl_recovery_half_life (bs_policy self));
    elapsed_ms ← duration_millis elapsed;
    half_life_logistic_next_millis base_interval current_interval asymptote_interval
      (hl_multiplier (bs_policy self)) recovery_half_life elapsed_ms);
  st_modify (λ self, {| bs_policy := bs_policy self;
                        bs_current_interval := from_millis next_interval;
                        bs_last_backoff_at := Some now |}) ;;
  mret (from_millis next_interval).
End decay.

(** ** Circuit breaker and settings *)

Record CircuitBreakerPolicy : Type := {
  cb_threshold : f64;
  cb_half_life : Duration;
  cb_cooldown : Duration
}.

Definition circuit_validate (p : CircuitBreakerPolicy) : result RestartControllerError () :=
  guard_err (negb (is_finite (cb_threshold p))
             || fle (cb_threshold p) (f64_of_Z 0)
             || (cb_half_life p <? from_millis 1)) InvalidCircuit.

Definition CircuitBreakerPolicy_new (threshold : f64) (half_life cooldown : Duration)
    : result RestartControllerError CircuitBreakerPolicy :=
  let value := {| cb_threshold := threshold; cb_half_life := half_life; cb_cooldown := cooldown |} in
  circuit_validate value ;;
  mret value.

Record DormantRestartCondition : Type := {
  dormant_condition : RestartCondition;
  dormant_reason : string
}.

Record RestartSettings : Type := {
  rs_configured_conditions : RestartConditions;
  rs_effective_conditions : RestartConditions;
  rs_dormant_conditions : list DormantRestartCondition;
  rs_limit : RestartLimit;
  rs_backoff : HalfLifeLogisticBackoffPolicy;
  rs_circuit_breaker : option CircuitBreakerPolicy
}.

(** [a & !b] on bytes. *)
Definition u8_and_not (a b : N) : N := N.land a (N.ldiff 255 b).

(** The [for] loop over the dormant conditions; returns [seen]. *)
Fixpoint dormant_loop (dormant seen : N) (conditions : list DormantRestartCondition)
    : result RestartControllerError N :=
  match conditions with
  | [] => Ok seen
  | condition :: conditions =>
      let bit := condition_bit (dormant_condition condition) in
      guard_err (str_is_empty (dormant_reason condition)
                 || (N.land dormant bit =? 0) || negb (N.land seen bit =? 0)) InvalidConditions ;;
      dormant_loop dormant (N.lor seen bit) conditions
  end.

Section settings.
  Context (exp2 : f64 → f64).

Definition settings_validate (s : RestartSettings) : result RestartControllerError () :=
  let effective := conditions_bits (rs_effective_conditions s) in
  let configured := conditions_bits (rs_configured_conditions s) in
  guard_err (conditions_is_empty (rs_effective_conditions s)
             || negb (u8_and_not effective configured =? 0)) NoEffectiveCondition ;;
  let dormant := u8_and_not configured effective in
  seen ← dormant_loop dormant 0 (rs_dormant_conditions s);
  guard_err (negb (seen =? dormant)) InvalidConditions ;;
  backoff_validate exp2 (rs_backoff s) ;;
  match rs_circuit_breaker s with
  | Some circuit => circuit_validate circuit
  | None => Ok ()
  end.

Definition RestartSettings_new (configured effective : RestartConditions)
    (dormant : list DormantRestartCondition) (limit : RestartLimit)
    (backoff : HalfLifeLogisticBackoffPolicy) (circuit : option CircuitBreakerPolicy)
    : result RestartControllerError RestartSettings :=
  let value := {| rs_configured_conditions := configured; rs_effective_conditions := effective;
                  rs_dormant_conditions := dormant; rs_limit := limit;
                  rs_backoff := backoff; rs_circuit_breaker := circuit |} in
  settings_validate value ;;
  mret value.
End settings.

Inductive RestartPolicy : Type := RestartNever | RestartOnLimits (settings : RestartSettings).

(** ** The Euclidean loop *)

Lemma size_nat_half n m : m <= n / 2 → n ≠ 0 → (N.size_nat m < N.size_nat n)%nat.
Proof.
  intros Hm Hn.
  assert (∀ k, N.of_nat (N.size_nat k) = N.size k) as Hsz.
  { intros [|p]; [done|]. simpl. induction p; simpl; lia. }
  assert (N.size m < N.size n); [|pose proof (Hsz m); pose proof (Hsz n); lia].
  destruct (decide (m = 0)) as [->|Hm0]; [simpl; destruct n; simpl; lia|].
  rewrite !N.size_log2 by done.
  assert (N.log2 m < N.log2 n); [|lia].
  assert (2 * m <= n) as H2 by (pose proof (N.Div0.mul_div_le n 2); lia).
  apply N.log2_le_mono in H2. rewrite N.log2_double in H2 by lia. lia.
Qed.

Lemma two_mods_halve a b : b ≠ 0 → a mod b ≠ 0 → b mod (a mod b) <= b / 2.
Proof.
  intros Hb Hr. set (r := a mod b) in *.
  assert (r < b) as Hrb by (by apply N.mod_lt).
  pose proof (N.mod_lt b r Hr). pose proof (N.div_mod b r Hr) as Hd.
  assert (1 <= b / r) by (apply N.div_le_lower_bound; lia).
  apply N.div_le_lower_bound; [lia|]. nia.
Qed.

Lemma gcd_loop_correct fuel a b :
  (2 * N.size_nat b < fuel)%nat → gcd_loop fuel a b = N.gcd a b.
Proof.
  revert a b. induction fuel as [fuel IH] using (well_founded_induction lt_wf). intros a b Hf.
  destruct fuel as [|fuel]; [lia|]. cbn [gcd_loop].
  destruct (N.eqb_spec b 0) as [->|Hb]; [by rewrite N.gcd_0_r|].
  assert (N.gcd b (a mod b) = N.gcd a b) as Hg.
  { by rewrite (N.gcd_comm b), N.Lcm0.gcd_mod, N.gcd_comm. }
  rewrite <- Hg.
  destruct (decide (a mod b = 0)) as [Hr|Hr].
  { rewrite Hr, N.gcd_0_r. by destruct fuel. }
  destruct fuel as [|fuel]; [destruct b as [|[]]; simpl in *; lia|]. cbn [gcd_loop].
  destruct (N.eqb_spec (a mod b) 0) as [|_]; [done|].
  rewrite IH.
  - by rewrite (N.gcd_comm (a mod b)), N.Lcm0.gcd_mod, N.gcd_comm.
  - lia.
  - pose proof (size_nat_half b _ (two_mods_halve a b Hb Hr) Hb). lia.
Qed.

Lemma gcd_correct a b : gcd a b = N.gcd a b.
Proof. apply gcd_loop_correct. lia. Qed.

(** The rational a multiplier stands for is [n / d]. *)
Definition multiplier_value_is (m : BackoffMultiplier) (n d : N) : Prop :=
  bm_numerator m * d = n * bm_denominator m.

(** Lowest terms, between one and one hundred, both parts in [u32]. *)
Definition multiplier_wf (m : BackoffMultiplier) : Prop :=
  N.gcd (bm_numerator m) (bm_denominator m) = 1 ∧
  0 < bm_denominator m <= bm_numerator m ∧ bm_numerator m <= 100 * bm_denominator m ∧
  bm_numerator m < 2 ^ 32 ∧ bm_denominator m < 2 ^ 32.

Lemma reduced_fraction n d :
  d ≠ 0 →
  let g := N.gcd n d in
  g ≠ 0 ∧ n = g * (n / g) ∧ d = g * (d / g) ∧ N.gcd (n / g) (d / g) = 1.
Proof.
  intros Hd g. assert (g ≠ 0) as Hg.
  { unfold g. intros [_ ?]%N.gcd_eq_0. done. }
  repeat split; [done|..].
  - apply N.Div0.div_exact, N.Lcm0.mod_divide, N.gcd_divide_l.
  - apply N.Div0.div_exact, N.Lcm0.mod_divide, N.gcd_divide_r.
  - by apply N.gcd_div_gcd.
Qed.

Lemma multiplier_new_spec n d :
  n < 2 ^ 32 → d < 2 ^ 32 →
  match BackoffMultiplier_new n d with
  | Ok m => multiplier_wf m ∧ multiplier_value_is m n d
  | Err e => e = MultiplierSyntax ∧ (d = 0 ∨ n < d ∨ 100 * d < n)
  end.
Proof.
  intros Hn Hd. unfold BackoffMultiplier_new, guard_err.
  destruct (N.eqb_spec d 0) as [->|Hd0]; simpl; [naive_solver|].
  destruct (N.ltb_spec n d); simpl; [naive_solver|].
  unfold checked_mul, try_from, fits.
  rewrite (proj2 (N.ltb_lt (d * 100) (2 ^ 64))) by lia. simpl.
  destruct (N.ltb_spec (d * 100) n); simpl; [split; [done|]; right; right; lia|].
  rewrite gcd_correct. destruct (reduced_fraction n d Hd0) as (Hg & En & Ed & Hc).
  set (g := N.gcd n d) in *. set (n' := n / g) in *. set (d' := d / g) in *.
  assert (n' <= n) by nia. assert (d' <= d) by nia.
  rewrite !(proj2 (N.ltb_lt _ (2 ^ 32))) by lia. simpl.
  unfold multiplier_wf, multiplier_value_is. simpl. repeat split; [done|nia|nia|nia|lia|lia|].
  rewrite Ed, En at 1. nia.
Qed.

Lemma from_str_sound whole fraction m :
  decimal_digits whole fraction →
  let digits := default ""%string fraction in
  let scale := 10 ^ str_len digits in
  BackoffMultiplier_from_str (decimal_text whole fraction) = Ok m →
  multiplier_wf m ∧
  multiplier_value_is m (digits_value (bytes whole) * scale + digits_value (bytes digits)) scale.
Proof.
  intros Hd. cbv zeta. unfold BackoffMultiplier_from_str. rewrite decimal_parts_text by done.
  destruct Hd as [Hw Hf]. intros H. run_ok.
  set (digits := default ""%string fraction) in *. set (scale := 10 ^ str_len digits) in *.
  rewrite parse_uint_all_digits in * by done. run_ok.
  match goal with H : (if str_is_empty digits then _ else _) = Ok ?f |- _ =>
    assert (f = digits_value (bytes digits)) as ->;
    [|clear H] end.
  { destruct (str_is_empty digits) eqn:E.
    - apply str_is_empty_true in E. rewrite E. by run_ok.
    - unfold digits in *. destruct fraction as [f|]; simpl in *; [|done].
      destruct (Hf f eq_refl). run_ok. rewrite parse_uint_all_digits in * by done. by run_ok. }
  match goal with H : (_ ≫= _) = Some _ |- _ => apply bind_Some in H as (? & ? & ?) end.
  run_ok. rewrite gcd_correct in *.
  set (exact := digits_value (bytes whole) * scale + digits_value (bytes digits)) in *.
  assert (scale ≠ 0) as Hs by (apply N.pow_nonzero; lia).
  destruct (reduced_fraction exact scale Hs) as (Hg & En & Es & _).
  set (g := N.gcd exact scale) in *.
  match goal with H : BackoffMultiplier_new ?a ?b = Ok _ |- _ =>
    pose proof (multiplier_new_spec a b ltac:(done) ltac:(done)) as Hnew; rewrite H in Hnew end.
  destruct Hnew as [Hwf Hval]. split; [done|]. unfold multiplier_value_is in *.
  set (n' := exact / g) in *. set (d' := scale / g) in *. rewrite Es, En at 1. nia.
Qed.

Lemma from_str_complete whole fraction :
  decimal_digits whole fraction →
  let digits := default ""%string fraction in
  let scale := 10 ^ str_len digits in
  let exact := digits_value (bytes whole) * scale + digits_value (bytes digits) in
  scale <= exact <= 100 * scale → str_len digits <= 7 →
  is_ok (BackoffMultiplier_from_str (decimal_text whole fraction)) = true.
Proof.
  intros Hd digits scale exact Hrange Hlen. unfold BackoffMultiplier_from_str.
  pose proof (decimal_text_number _ _ Hd) as [Hall Hne]. rewrite Hne.
  destruct (str_all_excludes _ "+" _ eq_refl Hall) as [_ ->].
  destruct (str_all_excludes _ "-" _ eq_refl Hall) as [_ ->].
  destruct (str_all_excludes _ "e" _ eq_refl Hall) as [-> _].
  destruct (str_all_excludes _ "E" _ eq_refl Hall) as [-> _]. simpl.
  rewrite decimal_parts_text by done. destruct Hd as [Hw Hf]. simpl. fold digits.
  assert (scale <= 10 ^ 7) as Hp by (apply N.pow_le_mono_r; lia).
  change (10 ^ 7) with 10000000 in Hp.
  assert (1 <= scale) by (assert (scale ≠ 0) by (apply N.pow_nonzero; lia); lia).
  assert (digits_value (bytes digits) < scale) as Hfrac.
  { unfold scale. rewrite str_len_bytes. apply digits_value_bound.
    unfold digits. destruct fraction as [f|]; [|done]. simpl.
    destruct (Hf f eq_refl) as [Hfd _]. unfold all_digits in Hfd. by bool_hyps. }
  unfold try_from, checked_pow, fits. rewrite (proj2 (N.ltb_lt _ (2 ^ 32))) by lia. simpl.
  fold scale. rewrite (proj2 (N.ltb_lt _ (2 ^ 64))) by lia. simpl.
  rewrite (parse_uint_all_digits 64 whole) by done. unfold try_from, fits.
  assert (digits_value (bytes whole) <= 100) by nia.
  rewrite (proj2 (N.ltb_lt _ (2 ^ 64))) by lia. simpl.
  assert ((if str_is_empty digits then Ok 0 else ok_or MultiplierRange (parse_uint 64 digits))
          = Ok (digits_value (bytes digits))) as ->.
  { destruct (str_is_empty digits) eqn:E; [apply str_is_empty_true in E; by rewrite E|].
    unfold digits in *. destruct fraction as [f|]; simpl in *; [|done].
    destruct (Hf f eq_refl). rewrite parse_uint_all_digits by done. unfold try_from, fits.
    by rewrite (proj2 (N.ltb_lt _ (2 ^ 64))) by lia. }
  simpl. unfold checked_mul, checked_add, fits.
  rewrite (proj2 (N.ltb_lt _ (2 ^ 64))) by nia. simpl. fold exact.
  rewrite (proj2 (N.ltb_lt _ (2 ^ 64))) by lia. simpl.
  rewrite gcd_correct. destruct (reduced_fraction exact scale ltac:(lia)) as (Hg & En & Es & _).
  set (g := N.gcd exact scale) in *. set (n' := exact / g) in *. set (d' := scale / g) in *.
  assert (n' <= exact) by nia. assert (d' <= scale) by nia.
  rewrite (proj2 (N.ltb_lt _ (2 ^ 32))) by lia. simpl.
  rewrite (proj2 (N.ltb_lt _ (2 ^ 32))) by lia. simpl.
  pose proof (multiplier_new_spec n' d' ltac:(lia) ltac:(lia)) as Hnew.
  destruct (BackoffMultiplier_new n' d'); [done|]. destruct Hnew as [_ [|[|]]]; nia.
Qed.

(** An accepted multiplier text denotes exactly the stored fraction, which
    is in lowest terms, from one through one hundred, with both parts in
    [u32]; and every decimal from one through one hundred with at most seven
    fraction digits is accepted. *)
Theorem multiplier_from_str_exact (whole : string) (fraction : option string)
    (Hdigits : decimal_digits whole fraction) :
  let digits := default ""%string fraction in
  let scale := 10 ^ str_len digits in
  let exact := digits_value (bytes whole) * scale + digits_value (bytes digits) in
  match BackoffMultiplier_from_str (decimal_text whole fraction) with
  | Ok m => multiplier_wf m ∧ multiplier_value_is m exact scale
  | Err _ => exact < scale ∨ 100 * scale < exact ∨ 7 < str_len digits
  end.
Proof.
  cbv zeta. destruct (BackoffMultiplier_from_str _) as [m|e] eqn:E.
  - by apply from_str_sound.
  - pose proof (from_str_complete whole fraction Hdigits) as H. cbv zeta in H. rewrite E in H.
    simpl in H.
    destruct (N.le_gt_cases (str_len (default ""%string fraction)) 7); [|by right; right].
    apply dec_stable. intros Hn. discriminate H; [|done]. lia.
Qed.

Lemma multiplier_from_str_exact_witness :
  ∃ m, BackoffMultiplier_from_str "2.50" = Ok m ∧ multiplier_wf m ∧ multiplier_value_is m 250 100.
Proof.
  exists {| bm_numerator := 5; bm_denominator := 2 |}. split; [vm_compute; reflexivity|].
  apply (multiplier_from_str_exact "2" (Some "50"%string)).
  split; [reflexivity|]. intros f [= <-]. split; [reflexivity|]. vm_compute. done.
Defined.

(** ** Condition sets as sets *)

Definition conditions_wf (s : RestartConditions) : Prop := conditions_bits s < 4.

Ltac cases_below_4 n := let H := fresh in
  assert (n = 0 ∨ n = 1 ∨ n = 2 ∨ n = 3) as H by lia; destruct H as [->|[->|[->| ->]]].

Definition has_bit (n : N) (c : RestartCondition) : bool := negb (N.land n (condition_bit c) =? 0).

Lemma has_bit_ext n m : n < 4 → m < 4 → (∀ c, has_bit n c = has_bit m c) → n = m.
Proof.
  intros Hn Hm H. pose proof (H Condition_MemoryLimit) as H1. pose proof (H Condition_Deadline) as H2.
  cases_below_4 n; cases_below_4 m; done.
Qed.

Lemma has_bit_lor n c c' :
  n < 4 → has_bit (N.lor n (condition_bit c)) c' = has_bit n c' || bool_decide (c = c').
Proof. intros Hn. cases_below_4 n; by destruct c, c'. Qed.

Lemma lor_bit_range n c : n < 4 → N.lor n (condition_bit c) < 4.
Proof. intros Hn. cases_below_4 n; destruct c; vm_compute; done. Qed.

Lemma has_bit_and_not a b c :
  a < 4 → b < 4 → has_bit (u8_and_not a b) c = true ↔ has_bit a c = true ∧ has_bit b c = false.
Proof. intros Ha Hb. cases_below_4 a; cases_below_4 b; destruct c; vm_compute; naive_solver. Qed.

Lemma and_not_range a b : a < 4 → u8_and_not a b < 4.
Proof.
  intros Ha. unfold u8_and_not.
  assert (N.land a (N.ldiff 255 b) <= a) as H; [|lia].
  clear Ha. set (m := N.ldiff 255 b). clearbody m. clear b.
  apply N.ldiff_le. apply N.bits_inj. intros i.
  rewrite N.ldiff_spec, N.land_spec, N.bits_0. by destruct (N.testbit a i), (N.testbit m i).
Qed.

(** A set of restart conditions is read back from the names it is written
    as, and any list of names that is accepted names each condition of the set
    exactly once. *)
Theorem conditions_roundtrip :
  (∀ s, conditions_wf s → conditions_deserialize (conditions_serialize s) = Ok s) ∧
  (∀ names s, conditions_deserialize names = Ok s →
     conditions_wf s ∧ names ≡ₚ conditions_serialize s).
Proof.
  split.
  - intros [n] Hn. unfold conditions_wf in Hn. simpl in Hn. cases_below_4 n; vm_compute; done.
  - unfold conditions_deserialize.
    assert (∀ names value s, value < 4 → conditions_deserialize_from value names = Ok s →
      conditions_wf s ∧
      names ++ conditions_serialize (restart_conditions value) ≡ₚ conditions_serialize s) as H.
    { intros names. induction names as [|name names IH]; intros value s Hv; simpl.
      { intros [= <-]. by split. }
      intros H. run_ok. unfold condition_name_bit in *. repeat case_match; simplify_eq; bool_hyps;
        subst; (apply IH in H; [|cases_below_4 value; vm_compute; done]); destruct H as [Hwf Hp];
        (split; [done|]); rewrite <- Hp; cases_below_4 value; try done;
        rewrite Permutation_middle; apply Permutation_app_head; vm_compute;
        first [reflexivity | apply Permutation_swap]. }
    intros names s Hs. apply H in Hs as [Hwf Hp]; [|simpl; lia].
    split; [done|]. rewrite <- Hp. change (conditions_serialize _) with (@nil string).
    by rewrite (right_id_L [] (++)).
Qed.

Lemma conditions_roundtrip_witness :
  conditions_deserialize (conditions_serialize Conditions_BOTH) = Ok Conditions_BOTH.
Proof. apply conditions_roundtrip. vm_compute. done. Defined.

(** ** Settings *)

Lemma dormant_loop_Ok d seen l seen' :
  d < 4 → seen < 4 →
  dormant_loop d seen l = Ok seen' ↔
  seen' < 4 ∧ NoDup (dormant_condition <$> l) ∧
  (∀ x, x ∈ l → dormant_reason x ≠ ""%string ∧ has_bit d (dormant_condition x) = true
               ∧ has_bit seen (dormant_condition x) = false) ∧
  (∀ c, has_bit seen' c = has_bit seen c || bool_decide (c ∈ dormant_condition <$> l)).
Proof.
  intros Hd. revert seen. induction l as [|x l IH]; intros seen Hseen; simpl.
  { split.
    - intros [= <-]. split; [done|]. split; [constructor|]. split; [intros ? H; inversion H|].
      intros c. by rewrite orb_false_r.
    - intros (Hs' & _ & _ & H). f_equal. apply has_bit_ext; [done..|].
      intros c. rewrite H. by rewrite orb_false_r. }
  rewrite bind_Ok. setoid_rewrite guard_err_Ok.
  assert (str_is_empty (dormant_reason x) || (N.land d (condition_bit (dormant_condition x)) =? 0)
          || negb (N.land seen (condition_bit (dormant_condition x)) =? 0) = false ↔
          dormant_reason x ≠ ""%string ∧ has_bit d (dormant_condition x) = true
          ∧ has_bit seen (dormant_condition x) = false) as Hguard.
  { unfold has_bit. destruct (dormant_reason x), (_ =? 0), (_ =? 0); simpl; naive_solver. }
  rewrite NoDup_cons. split.
  - intros (u & Hg & Hl). apply Hguard in Hg as (Hr & Hdx & Hsx).
    apply IH in Hl as (Hs' & Hnd & Hall & Hmem); [|by apply lor_bit_range].
    split; [done|]. split; [split; [|done]|split].
    + intros (y & Ey & Hy)%list_elem_of_fmap. apply Hall in Hy as (_ & _ & Hy).
      rewrite has_bit_lor, Ey, bool_decide_eq_true_2, orb_true_r in Hy by done. done.
    + intros y [->|Hy]%elem_of_cons; [done|]. apply Hall in Hy as (? & ? & Hy).
      rewrite has_bit_lor in Hy by done. by apply orb_false_iff in Hy as [? _].
    + intros c. rewrite Hmem, has_bit_lor, <- orb_assoc by done. f_equal.
      rewrite <- bool_decide_or. apply bool_decide_ext. rewrite elem_of_cons. naive_solver.
  - intros (Hs' & [Hx Hnd] & Hall & Hmem). exists tt.
    destruct (Hall x (list_elem_of_here _ _)) as (Hr & Hdx & Hsx).
    split; [by apply Hguard|]. apply IH; [by apply lor_bit_range|].
    split; [done|]. split; [done|]. split.
    + intros y Hy. destruct (Hall y (list_elem_of_further _ _ _ Hy)) as (? & ? & Hy').
      split; [done|]. split; [done|]. rewrite has_bit_lor, Hy' by done. simpl.
      apply bool_decide_eq_false. intros E. apply Hx. rewrite E. by apply list_elem_of_fmap_2.
    + intros c. rewrite Hmem, has_bit_lor, <- orb_assoc by done. f_equal.
      rewrite <- bool_decide_or. apply bool_decide_ext. rewrite elem_of_cons. naive_solver.
Qed.

Lemma dormant_exact d l :
  d < 4 →
  (dormant_loop d 0 l ≫= λ seen, guard_err (negb (seen =? d)) InvalidConditions) = Ok () ↔
  NoDup (dormant_condition <$> l) ∧
  (∀ x, x ∈ l → dormant_reason x ≠ ""%string) ∧
  (∀ c, c ∈ dormant_condition <$> l ↔ has_bit d c = true).
Proof.
  intros Hd. rewrite bind_Ok. setoid_rewrite guard_err_Ok.
  assert (∀ c, has_bit 0 c = false) as H0 by (intros []; done).
  split.
  - intros (seen & Hl & Hs). bool_hyps. subst seen.
    apply dormant_loop_Ok in Hl as (_ & Hnd & Hall & Hmem); [|done..].
    split; [done|]. split; [intros x Hx; by apply Hall in Hx as [? _]|].
    intros c. by rewrite Hmem, H0, orb_false_l, bool_decide_eq_true.
  - intros (Hnd & Hall & Hmem). exists d. rewrite N.eqb_refl. split; [|done].
    apply dormant_loop_Ok; [done|done|]. split; [done|]. split; [done|]. split.
    + intros x Hx. split; [by apply Hall|]. split; [|apply H0].
      apply Hmem. by apply list_elem_of_fmap_2.
    + intros c. rewrite H0, orb_false_l. symmetry.
      destruct (has_bit d c) eqn:E; [apply bool_decide_eq_true|apply bool_decide_eq_false];
        rewrite Hmem; congruence.
Qed.

(** An interval of at least a millisecond and below [2^64] of them. *)
Definition interval_ok (d : Duration) : Prop := 1 <= as_millis d < 2 ^ 64.

Record settings_valid (s : RestartSettings) : Prop := {
  sv_effective : ∃ c, conditions_contains (rs_effective_conditions s) c = true;
  sv_configured : ∀ c, conditions_contains (rs_effective_conditions s) c = true →
                       conditions_contains (rs_configured_conditions s) c = true;
  sv_dormant_once : NoDup (dormant_condition <$> rs_dormant_conditions s);
  sv_dormant_reason : ∀ x, x ∈ rs_dormant_conditions s → dormant_reason x ≠ ""%string;
  sv_dormant : ∀ c, c ∈ dormant_condition <$> rs_dormant_conditions s ↔
                 conditions_contains (rs_configured_conditions s) c = true ∧
                 conditions_contains (rs_effective_conditions s) c = false;
  sv_backoff : interval_ok (hl_base_interval (rs_backoff s)) ∧
               interval_ok (hl_asymptote_interval (rs_backoff s)) ∧
               interval_ok (hl_recovery_half_life (rs_backoff s));
  sv_circuit : ∀ c, rs_circuit_breaker s = Some c →
                 is_finite (cb_threshold c) = true ∧ fle (cb_threshold c) (f64_of_Z 0) = false ∧
                 from_millis 1 <= cb_half_life c
}.

Lemma duration_millis_Ok d n : duration_millis d = Ok n ↔ n = as_millis d ∧ as_millis d < 2 ^ 64.
Proof. unfold duration_millis. by rewrite ok_or_Ok, try_from_Some. Qed.

Lemma next_millis_total exp2 b c a m r e :
  b ≠ 0 → a ≠ 0 → r ≠ 0 →
  ∃ n, half_life_logistic_next_millis exp2 b c a m r e = Ok n ∧ n < 2 ^ 64.
Proof.
  intros Hb Ha Hr. unfold half_life_logistic_next_millis.
  rewrite !(proj2 (N.eqb_neq _ _)) by done. simpl.
  eexists. split; [reflexivity|]. apply f64_to_u64_range.
Qed.

Lemma backoff_validate_Ok exp2 p :
  backoff_validate exp2 p = Ok () ↔
  interval_ok (hl_base_interval p) ∧ interval_ok (hl_asymptote_interval p) ∧
  interval_ok (hl_recovery_half_life p).
Proof.
  unfold backoff_validate, interval_ok. split.
  - intros H. run_ok. repeat match goal with H : duration_millis _ = Ok _ |- _ =>
      apply duration_millis_Ok in H as [-> ?] end. bool_hyps. lia.
  - intros (Hb & Ha & Hr).
    rewrite !(proj2 (duration_millis_Ok _ _)) by (split; [reflexivity|lia]). simpl.
    rewrite !(proj2 (N.eqb_neq _ _)) by lia. simpl.
    destruct (next_millis_total exp2 (as_millis (hl_base_interval p)) (as_millis (hl_base_interval p))
      (as_millis (hl_asymptote_interval p)) (hl_multiplier p) (as_millis (hl_recovery_half_life p)) 0)
      as (n & -> & _); [lia..|done].
Qed.

Lemma effective_guard eff conf :
  eff < 4 → conf < 4 →
  (eff =? 0) || negb (u8_and_not eff conf =? 0) = false ↔
  (∃ c, has_bit eff c = true) ∧ (∀ c, has_bit eff c = true → has_bit conf c = true).
Proof.
  intros He Hc. split.
  - intros H. split.
    + cases_below_4 eff; [done|exists Condition_MemoryLimit|exists Condition_Deadline|
        exists Condition_MemoryLimit]; done.
    + intros c. cases_below_4 eff; cases_below_4 conf; try done; by destruct c.
  - intros [[c Hc1] H].
    pose proof (H Condition_MemoryLimit) as H1. pose proof (H Condition_Deadline) as H2.
    cases_below_4 eff; cases_below_4 conf; try done; try (by destruct c); 
      first [by specialize (H1 eq_refl) | by specialize (H2 eq_refl)].
Qed.

Lemma circuit_validate_Ok c :
  circuit_validate c = Ok () ↔
  is_finite (cb_threshold c) = true ∧ fle (cb_threshold c) (f64_of_Z 0) = false ∧
  from_millis 1 <= cb_half_life c.
Proof.
  unfold circuit_validate. rewrite guard_err_Ok, !orb_false_iff, negb_false_iff, N.ltb_ge. naive_solver.
Qed.

(** C36: [RestartSettings::validate] accepts exactly the settings in which some
    condition is effective, every effective condition is configured, the
    dormant list names each configured but ineffective condition once with a
    reason, the three intervals are at least a millisecond and fit in [u64]
    milliseconds, and the circuit breaker (if any) has a finite positive
    threshold and a half-life of at least a millisecond. *)
Theorem settings_validate_decides (exp2 : f64 → f64) (s : RestartSettings)
    (Hconf : conditions_wf (rs_configured_conditions s))
    (Heff : conditions_wf (rs_effective_conditions s)) :
  settings_validate exp2 s = Ok () ↔ settings_valid s.
Proof.
  unfold conditions_wf in *. unfold settings_validate.
  set (conf := conditions_bits (rs_configured_conditions s)) in *.
  set (eff := conditions_bits (rs_effective_conditions s)) in *.
  assert (∀ c, conditions_contains (rs_configured_conditions s) c = has_bit conf c) as Hc by done.
  assert (∀ c, conditions_contains (rs_effective_conditions s) c = has_bit eff c) as He by done.
  pose proof (dormant_exact (u8_and_not conf eff) (rs_dormant_conditions s)
    (and_not_range _ _ Hconf)) as Hdormant.
  setoid_rewrite (has_bit_and_not _ _ _ Hconf Heff) in Hdormant.
  unfold conditions_is_empty. fold eff. rewrite bind_unit_Ok, guard_err_Ok, effective_guard by done.
  assert (∀ (r : result RestartControllerError ()),
    (dormant_loop (u8_and_not conf eff) 0 (rs_dormant_conditions s) ≫=
     λ seen, guard_err (negb (seen =? u8_and_not conf eff)) InvalidConditions ;; r) = Ok () ↔
    (dormant_loop (u8_and_not conf eff) 0 (rs_dormant_conditions s) ≫=
     λ seen, guard_err (negb (seen =? u8_and_not conf eff)) InvalidConditions) = Ok () ∧ r = Ok ()) as ->.
  { intros r. destruct (dormant_loop _ _ _); simpl; [|naive_solver]. apply bind_unit_Ok. }
  rewrite Hdormant, bind_unit_Ok, backoff_validate_Ok.
  assert (match rs_circuit_breaker s with Some c => circuit_validate c | None => Ok () end = Ok () ↔
    ∀ c, rs_circuit_breaker s = Some c →
      is_finite (cb_threshold c) = true ∧ fle (cb_threshold c) (f64_of_Z 0) = false ∧
      from_millis 1 <= cb_half_life c) as ->.
  { destruct (rs_circuit_breaker s) as [c|]; [rewrite circuit_validate_Ok|]; naive_solver. }
  split.
  - intros ([He1 He2] & (Hd1 & Hd2 & Hd3) & Hb & Hcb). by constructor.
  - intros [He1 He2 Hd1 Hd2 Hd3 Hb Hcb]. auto.
Qed.

Definition sample_settings : RestartSettings := {|
  rs_configured_conditions := Conditions_BOTH;
  rs_effective_conditions := Conditions_MEMORY_LIMIT;
  rs_dormant_conditions := [{| dormant_condition := Condition_Deadline; dormant_reason := "no deadline" |}];
  rs_limit := LimitCount 2;
  rs_backoff := HalfLifeLogisticBackoffPolicy_default;
  rs_circuit_breaker := Some {| cb_threshold := f64_of_Z 2; cb_half_life := from_secs 60;
                                cb_cooldown := from_secs 30 |}
|}.

(** A decay that ignores its argument; enough to run the definitions. *)
Definition unit_exp2 : f64 → f64 := λ _, f64_of_Z 1.

Lemma settings_validate_decides_witness :
  settings_validate unit_exp2 sample_settings = Ok () ∧ settings_valid sample_settings.
Proof.
  split; [vm_compute; reflexivity|].
  apply (settings_validate_decides unit_exp2 sample_settings); vm_compute; reflexivity.
Defined.
