(* ===== verification/Coordinator.v ===== *)
(** * Restart controller and coordinator

    Second half of memcordon-core/src/restart.rs with the records it fills in
    from memcordon-core/src/supervision.rs.  A method on [&mut self] that also
    writes the decision record and the summary runs in [stM env]: the state it
    leaves behind on an error is the state at the failing statement. *)

From S2P Require Import Prelude Decimal Bounded WorkloadContract Policy Outcome Safety Float64 Restart.

(** ** Data *)

Inductive CircuitState : Type := CircuitClosed | CircuitOpen | CircuitHalfOpen.
Inductive RestartWaitKind : Type := WaitHalfLifeLogisticBackoff | WaitCircuitCooldown.
Inductive RestartDecisionKind : Type :=
| NoneDisabled | NoneConditionNotSelected | NoneLimitExhausted | NoneCleanupUnsafe
| NoneTerminalDeadline | DecisionHalfLifeLogisticBackoff | DecisionCircuitCooldown
| HalfOpenLaunch | AbortedByInterruption.
#[global] Instance CircuitState_eq_dec : EqDecision CircuitState.
Proof. solve_decision. Defined.
#[global] Instance RestartWaitKind_eq_dec : EqDecision RestartWaitKind.
Proof. solve_decision. Defined.
#[global] Instance RestartDecisionKind_eq_dec : EqDecision RestartDecisionKind.
Proof. solve_decision. Defined.

Record RestartDecisionRecord : Type := {
  dr_trigger : option RestartCondition;
  dr_decision : RestartDecisionKind;
  dr_restart_number : option N;
  dr_half_life_logistic_sequence_index : option N;
  dr_configured_wait_ms : option N;
  dr_actual_wait_ms : option N;
  dr_wait_kind : option RestartWaitKind;
  dr_circuit_state : CircuitState;
  dr_supervision_deadline_truncated_wait : bool
}.
Definition RestartDecisionRecord_default : RestartDecisionRecord := {|
  dr_trigger := None; dr_decision := NoneDisabled; dr_restart_number := None;
  dr_half_life_logistic_sequence_index := None; dr_configured_wait_ms := None;
  dr_actual_wait_ms := None; dr_wait_kind := None; dr_circuit_state := CircuitClosed;
  dr_supervision_deadline_truncated_wait := false
|}.

Record RestartSummary : Type := {
  su_enabled : bool;
  su_restarts_launched : N;
  su_restart_limit_exhausted : bool;
  su_half_life_logistic_waits : N;
  su_cooldowns : N;
  su_circuit_open_count : N;
  su_final_circuit_state : CircuitState
}.
#[global] Instance RestartSummary_eq_dec : EqDecision RestartSummary.
Proof. solve_decision. Defined.
Definition RestartSummary_default : RestartSummary := {|
  su_enabled := false; su_restarts_launched := 0; su_restart_limit_exhausted := false;
  su_half_life_logistic_waits := 0; su_cooldowns := 0; su_circuit_open_count := 0;
  su_final_circuit_state := CircuitClosed
|}.

Definition is_standalone_valid (s : RestartSummary) : bool :=
  (su_cooldowns s <=? su_circuit_open_count s)
  && (su_enabled s
      || ((su_restarts_launched s =? 0)
          && negb (su_restart_limit_exhausted s)
          && (su_half_life_logistic_waits s =? 0)
          && (su_cooldowns s =? 0)
          && (su_circuit_open_count s =? 0)
          && (su_final_circuit_state s ≟ CircuitClosed))).

(** The wire form has the fields of the record. *)
Definition RestartSummary_deserialize (wire : RestartSummary) : result string RestartSummary :=
  if negb (is_standalone_valid wire) then Err "invalid restart summary"%string else Ok wire.

Record ScheduledRestart : Type := {
  sr_kind : RestartWaitKind;
  sr_duration : Duration;
  sr_restart_number : N;
  sr_half_life_logistic_sequence_index : option N;
  sr_circuit_state : CircuitState
}.

Inductive WaitCompletion : Type := WaitCompleted | WaitInterrupted | WaitSupervisionDeadline.

Record WaitResult : Type := {
  wr_completion : WaitCompletion;
  wr_actual_elapsed : Duration;
  wr_supervision_deadline_remaining : option Duration
}.

Inductive RestartDecision : Type :=
| StopConditionNotSelected | StopLimitExhausted | StopCleanupUnsafe | StopInterrupted
| StopSupervisionDeadline
| DecideWait (scheduled : ScheduledRestart)
| DecideLaunch (restart_number : N) (half_open : bool).

Inductive RestartAction : Type :=
| ActionStop (kind : RestartDecisionKind)
| ActionWait (duration : Duration) (kind : RestartWaitKind)
| ActionLaunch (restart_number : N) (half_open : bool).

Record RestartController : Type := {
  rc_settings : RestartSettings;
  rc_restarts_launched : N;
  rc_backoff : HalfLifeLogisticBackoffState;
  rc_half_life_logistic_sequence_index : N;
  rc_circuit_pressure : f64;
  rc_last_circuit_event_at : option Duration;
  rc_circuit_state : CircuitState;
  rc_pending : option ScheduledRestart
}.

(** ** Clock *)

Definition clock_deadline (now origin duration : Duration)
    : result RestartControllerError (Duration * Duration) :=
  deadline ← ok_or CounterRange (duration_checked_add origin duration);
  mret (deadline, now - origin).

(** ** Field assignments *)

Definition set_launched (n : N) (c : RestartController) : RestartController := {|
  rc_settings := rc_settings c; rc_restarts_launched := n; rc_backoff := rc_backoff c;
  rc_half_life_logistic_sequence_index := rc_half_life_logistic_sequence_index c;
  rc_circuit_pressure := rc_circuit_pressure c;
  rc_last_circuit_event_at := rc_last_circuit_event_at c;
  rc_circuit_state := rc_circuit_state c; rc_pending := rc_pending c |}.
Definition set_backoff (b : HalfLifeLogisticBackoffState) (c : RestartController) : RestartController := {|
  rc_settings := rc_settings c; rc_restarts_launched := rc_restarts_launched c; rc_backoff := b;
  rc_half_life_logistic_sequence_index := rc_half_life_logistic_sequence_index c;
  rc_circuit_pressure := rc_circuit_pressure c;
  rc_last_circuit_event_at := rc_last_circuit_event_at c;
  rc_circuit_state := rc_circuit_state c; rc_pending := rc_pending c |}.
Definition set_sequence (n : N) (c : RestartController) : RestartController := {|
  rc_settings := rc_settings c; rc_restarts_launched := rc_restarts_launched c;
  rc_backoff := rc_backoff c; rc_half_life_logistic_sequence_index := n;
  rc_circuit_pressure := rc_circuit_pressure c;
  rc_last_circuit_event_at := rc_last_circuit_event_at c;
  rc_circuit_state := rc_circuit_state c; rc_pending := rc_pending c |}.
Definition set_circuit_event (pressure : f64) (at_ : Duration) (c : RestartController) : RestartController := {|
  rc_settings := rc_settings c; rc_restarts_launched := rc_restarts_launched c;
  rc_backoff := rc_backoff c;
  rc_half_life_logistic_sequence_index := rc_half_life_logistic_sequence_index c;
  rc_circuit_pressure := pressure; rc_last_circuit_event_at := Some at_;
  rc_circuit_state := rc_circuit_state c; rc_pending := rc_pending c |}.
Definition set_circuit_state (s : CircuitState) (c : RestartController) : RestartController := {|
  rc_settings := rc_settings c; rc_restarts_launched := rc_restarts_launched c;
  rc_backoff := rc_backoff c;
  rc_half_life_logistic_sequence_index := rc_half_life_logistic_sequence_index c;
  rc_circuit_pressure := rc_circuit_pressure c;
  rc_last_circuit_event_at := rc_last_circuit_event_at c;
  rc_circuit_state := s; rc_pending := rc_pending c |}.
Definition set_pending (p : option ScheduledRestart) (c : RestartController) : RestartController := {|
  rc_settings := rc_settings c; rc_restarts_launched := rc_restarts_launched c;
  rc_backoff := rc_backoff c;
  rc_half_life_logistic_sequence_index := rc_half_life_logistic_sequence_index c;
  rc_circuit_pressure := rc_circuit_pressure c;
  rc_last_circuit_event_at := rc_last_circuit_event_at c;
  rc_circuit_state := rc_circuit_state c; rc_pending := p |}.

Definition set_trigger (t : option RestartCondition) (r : RestartDecisionRecord) : RestartDecisionRecord := {|
  dr_trigger := t; dr_decision := dr_decision r; dr_restart_number := dr_restart_number r;
  dr_half_life_logistic_sequence_index := dr_half_life_logistic_sequence_index r;
  dr_configured_wait_ms := dr_configured_wait_ms r; dr_actual_wait_ms := dr_actual_wait_ms r;
  dr_wait_kind := dr_wait_kind r; dr_circuit_state := dr_circuit_state r;
  dr_supervision_deadline_truncated_wait := dr_supervision_deadline_truncated_wait r |}.
Definition set_decision (d : RestartDecisionKind) (r : RestartDecisionRecord) : RestartDecisionRecord := {|
  dr_trigger := dr_trigger r; dr_decision := d; dr_restart_number := dr_restart_number r;
  dr_half_life_logistic_sequence_index := dr_half_life_logistic_sequence_index r;
  dr_configured_wait_ms := dr_configured_wait_ms r; dr_actual_wait_ms := dr_actual_wait_ms r;
  dr_wait_kind := dr_wait_kind r; dr_circuit_state := dr_circuit_state r;
  dr_supervision_deadline_truncated_wait := dr_supervision_deadline_truncated_wait r |}.
(** [record.restart_number = ..] and [record.half_life_logistic_sequence_index = ..]. *)
Definition set_scheduled_numbers (s : ScheduledRestart) (r : RestartDecisionRecord) : RestartDecisionRecord := {|
  dr_trigger := dr_trigger r; dr_decision := dr_decision r;
  dr_restart_number := Some (sr_restart_number s);
  dr_half_life_logistic_sequence_index := sr_half_life_logistic_sequence_index s;
  dr_configured_wait_ms := dr_configured_wait_ms r; dr_actual_wait_ms := dr_actual_wait_ms r;
  dr_wait_kind := dr_wait_kind r; dr_circuit_state := dr_circuit_state r;
  dr_supervision_deadline_truncated_wait := dr_supervision_deadline_truncated_wait r |}.
(** [record.configured_wait_ms = ..], [record.wait_kind = ..], [record.circuit_state = ..]. *)
Definition set_scheduled_wait (ms : N) (s : ScheduledRestart) (r : RestartDecisionRecord) : RestartDecisionRecord := {|
  dr_trigger := dr_trigger r; dr_decision := dr_decision r; dr_restart_number := dr_restart_number r;
  dr_half_life_logistic_sequence_index := dr_half_life_logistic_sequence_index r;
  dr_configured_wait_ms := Some ms; dr_actual_wait_ms := dr_actual_wait_ms r;
  dr_wait_kind := Some (sr_kind s); dr_circuit_state := sr_circuit_state s;
  dr_supervision_deadline_truncated_wait := dr_supervision_deadline_truncated_wait r |}.
Definition set_actual_wait (ms : N) (r : RestartDecisionRecord) : RestartDecisionRecord := {|
  dr_trigger := dr_trigger r; dr_decision := dr_decision r; dr_restart_number := dr_restart_number r;
  dr_half_life_logistic_sequence_index := dr_half_life_logistic_sequence_index r;
  dr_configured_wait_ms := dr_configured_wait_ms r; dr_actual_wait_ms := Some ms;
  dr_wait_kind := dr_wait_kind r; dr_circuit_state := dr_circuit_state r;
  dr_supervision_deadline_truncated_wait := dr_supervision_deadline_truncated_wait r |}.
Definition set_truncated (r : RestartDecisionRecord) : RestartDecisionRecord := {|
  dr_trigger := dr_trigger r; dr_decision := dr_decision r; dr_restart_number := dr_restart_number r;
  dr_half_life_logistic_sequence_index := dr_half_life_logistic_sequence_index r;
  dr_configured_wait_ms := dr_configured_wait_ms r; dr_actual_wait_ms := dr_actual_wait_ms r;
  dr_wait_kind := dr_wait_kind r; dr_circuit_state := dr_circuit_state r;
  dr_supervision_deadline_truncated_wait := true |}.
Definition set_record_circuit (s : CircuitState) (r : RestartDecisionRecord) : RestartDecisionRecord := {|
  dr_trigger := dr_trigger r; dr_decision := dr_decision r; dr_restart_number := dr_restart_number r;
  dr_half_life_logistic_sequence_index := dr_half_life_logistic_sequence_index r;
  dr_configured_wait_ms := dr_configured_wait_ms r; dr_actual_wait_ms := dr_actual_wait_ms r;
  dr_wait_kind := dr_wait_kind r; dr_circuit_state := s;
  dr_supervision_deadline_truncated_wait := dr_supervision_deadline_truncated_wait r |}.

Definition su_set_enabled (s : RestartSummary) : RestartSummary := {|
  su_enabled := true; su_restarts_launched := su_restarts_launched s;
  su_restart_limit_exhausted := su_restart_limit_exhausted s;
  su_half_life_logistic_waits := su_half_life_logistic_waits s; su_cooldowns := su_cooldowns s;
  su_circuit_open_count := su_circuit_open_count s; su_final_circuit_state := su_final_circuit_state s |}.
Definition su_set_exhausted (s : RestartSummary) : RestartSummary := {|
  su_enabled := su_enabled s; su_restarts_launched := su_restarts_launched s;
  su_restart_limit_exhausted := true;
  su_half_life_logistic_waits := su_half_life_logistic_waits s; su_cooldowns := su_cooldowns s;
  su_circuit_open_count := su_circuit_open_count s; su_final_circuit_state := su_final_circuit_state s |}.
Definition su_set_waits (n : N) (s : RestartSummary) : RestartSummary := {|
  su_enabled := su_enabled s; su_restarts_launched := su_restarts_launched s;
  su_restart_limit_exhausted := su_restart_limit_exhausted s;
  su_half_life_logistic_waits := n; su_cooldowns := su_cooldowns s;
  su_circuit_open_count := su_circuit_open_count s; su_final_circuit_state := su_final_circuit_state s |}.
Definition su_set_cooldowns (n : N) (s : RestartSummary) : RestartSummary := {|
  su_enabled := su_enabled s; su_restarts_launched := su_restarts_launched s;
  su_restart_limit_exhausted := su_restart_limit_exhausted s;
  su_half_life_logistic_waits := su_half_life_logistic_waits s; su_cooldowns := n;
  su_circuit_open_count := su_circuit_open_count s; su_final_circuit_state := su_final_circuit_state s |}.
Definition su_set_opens (n : N) (s : RestartSummary) : RestartSummary := {|
  su_enabled := su_enabled s; su_restarts_launched := su_restarts_launched s;
  su_restart_limit_exhausted := su_restart_limit_exhausted s;
  su_half_life_logistic_waits := su_half_life_logistic_waits s; su_cooldowns := su_cooldowns s;
  su_circuit_open_count := n; su_final_circuit_state := su_final_circuit_state s |}.
Definition su_set_final (st : CircuitState) (s : RestartSummary) : RestartSummary := {|
  su_enabled := su_enabled s; su_restarts_launched := su_restarts_launched s;
  su_restart_limit_exhausted := su_restart_limit_exhausted s;
  su_half_life_logistic_waits := su_half_life_logistic_waits s; su_cooldowns := su_cooldowns s;
  su_circuit_open_count := su_circuit_open_count s; su_final_circuit_state := st |}.
Definition su_set_launched (n : N) (s : RestartSummary) : RestartSummary := {|
  su_enabled := su_enabled s; su_restarts_launched := n;
  su_restart_limit_exhausted := su_restart_limit_exhausted s;
  su_half_life_logistic_waits := su_half_life_logistic_waits s; su_cooldowns := su_cooldowns s;
  su_circuit_open_count := su_circuit_open_count s; su_final_circuit_state := su_final_circuit_state s |}.

(** ** Controller methods *)

(** What [after_limit_recorded] and [authorize_after_wait_recorded] may write:
    [&mut self], [&mut record] and [&mut summary]. *)
Record env : Type := mk_env {
  e_ctl : RestartController;
  e_rec : RestartDecisionRecord;
  e_sum : RestartSummary
}.

Definition ctlM (A : Type) : Type := stM env RestartControllerError A.
Definition get_ctl : ctlM RestartController := λ e, (e, Ok (e_ctl e)).
Definition get_sum : ctlM RestartSummary := λ e, (e, Ok (e_sum e)).
Definition upd_ctl (f : RestartController → RestartController) : ctlM () :=
  λ e, (mk_env (f (e_ctl e)) (e_rec e) (e_sum e), Ok ()).
Definition upd_rec (f : RestartDecisionRecord → RestartDecisionRecord) : ctlM () :=
  λ e, (mk_env (e_ctl e) (f (e_rec e)) (e_sum e), Ok ()).
Definition upd_sum (f : RestartSummary → RestartSummary) : ctlM () :=
  λ e, (mk_env (e_ctl e) (e_rec e) (f (e_sum e)), Ok ()).
Definition liftr {A} (r : result RestartControllerError A) : ctlM A := st_lift r.
Definition ret {A} (a : A) : ctlM A := λ e, (e, Ok a).

Definition has_remaining_launch (c : RestartController) : bool :=
  match rs_limit (rc_settings c) with
  | LimitUnlimited => true
  | LimitCount limit => rc_restarts_launched c <? limit
  end.

Definition next_restart_number (c : RestartController) : result RestartControllerError N :=
  ok_or CounterRange (checked_add 64 (rc_restarts_launched c) 1).

Definition after_wait_decision (kind : RestartWaitKind) : RestartDecisionKind :=
  match kind with
  | WaitHalfLifeLogisticBackoff => DecisionHalfLifeLogisticBackoff
  | WaitCircuitCooldown => DecisionCircuitCooldown
  end.

Section controller.
  Context (exp2 : f64 → f64).

Definition RestartController_new (settings : RestartSettings)
    : result RestartControllerError RestartController :=
  settings_validate exp2 settings ;;
  backoff ← HalfLifeLogisticBackoffState_new exp2 (rs_backoff settings);
  mret {| rc_settings := settings; rc_restarts_launched := 0; rc_backoff := backoff;
          rc_half_life_logistic_sequence_index := 0; rc_circuit_pressure := f64_of_Z 0;
          rc_last_circuit_event_at := None; rc_circuit_state := CircuitClosed;
          rc_pending := None |}.

(** [self.backoff.on_backoff(now)], on the controller's field. *)
Definition ctl_on_backoff (now : Duration) : ctlM Duration := λ e,
  let '(b, r) := on_backoff exp2 now (rc_backoff (e_ctl e)) in
  (mk_env (set_backoff b (e_ctl e)) (e_rec e) (e_sum e), r).

Definition record_eligible_event (now : Duration) : ctlM bool :=
  self ← get_ctl;
  match rs_circuit_breaker (rc_settings self) with
  | None => ret false
  | Some circuit =>
      decay ← liftr
        match rc_last_circuit_event_at self with
        | Some previous =>
            elapsed ← ok_or BackoffTimeReversed (duration_checked_sub now previous);
            elapsed_ms ← duration_millis elapsed;
            half_life_ms ← duration_millis (cb_half_life circuit);
            mret (exp2 (fneg (fdiv (f64_of_N elapsed_ms) (f64_of_N half_life_ms))))
        | None => Ok (f64_of_Z 0)
        end;
      let pressure := fadd (f64_of_Z 1) (fmul (rc_circuit_pressure self) decay) in
      upd_ctl (set_circuit_event pressure now) ;;
      ret (fge pressure (cb_threshold circuit))
  end.

(** The [scheduled] of [after_limit_recorded]. *)
Definition schedule (logistic_wait : Duration) (sequence_index : N) (opens : bool)
    : ctlM ScheduledRestart :=
  self ← get_ctl;
  let half_open_failed := rc_circuit_state self ≟ CircuitHalfOpen in
  if opens || half_open_failed then
    upd_ctl (set_circuit_state CircuitOpen) ;;
    circuit ← liftr (ok_or InvalidCircuit (rs_circuit_breaker (rc_settings self)));
    restart_number ← liftr (next_restart_number self);
    ret {| sr_kind := WaitCircuitCooldown;
           sr_duration := N.max logistic_wait (cb_cooldown circuit);
           sr_restart_number := restart_number;
           sr_half_life_logistic_sequence_index := Some sequence_index;
           sr_circuit_state := CircuitOpen |}
  else
    restart_number ← liftr (next_restart_number self);
    ret {| sr_kind := WaitHalfLifeLogisticBackoff;
           sr_duration := logistic_wait;
           sr_restart_number := restart_number;
           sr_half_life_logistic_sequence_index := Some sequence_index;
           sr_circuit_state := CircuitClosed |}.

(** The counters the scheduled wait bumps in the summary. *)
Definition count_wait (kind : RestartWaitKind) : ctlM () :=
  summary ← get_sum;
  match kind with
  | WaitHalfLifeLogisticBackoff =>
      n ← liftr (ok_or CounterRange (checked_add 64 (su_half_life_logistic_waits summary) 1));
      upd_sum (su_set_waits n)
  | WaitCircuitCooldown =>
      n ← liftr (ok_or CounterRange (checked_add 64 (su_cooldowns summary) 1));
      upd_sum (su_set_cooldowns n) ;;
      m ← liftr (ok_or CounterRange (checked_add 64 (su_circuit_open_count summary) 1));
      upd_sum (su_set_opens m)
  end.

Definition after_limit_recorded (condition : RestartCondition) (now : Duration)
    (cleanup : RestartSafetyProof) : ctlM RestartDecision :=
  clock ← liftr (clock_deadline now Duration_ZERO now);
  let now := clock.2 in
  upd_sum su_set_enabled ;;
  upd_rec (set_trigger (Some condition)) ;;
  self ← get_ctl;
  if negb (conditions_contains (rs_effective_conditions (rc_settings self)) condition) then
    upd_rec (set_decision NoneConditionNotSelected) ;;
    ret StopConditionNotSelected
  else if negb (is_safe cleanup) then
    upd_rec (set_decision NoneCleanupUnsafe) ;;
    ret StopCleanupUnsafe
  else if negb (has_remaining_launch self) then
    upd_rec (set_decision NoneLimitExhausted) ;;
    upd_sum su_set_exhausted ;;
    ret StopLimitExhausted
  else if is_some (rc_pending self) then
    liftr (Err InvalidTransition)
  else
    let sequence_index := rc_half_life_logistic_sequence_index self in
    logistic_wait ← ctl_on_backoff now;
    next_index ← liftr (ok_or CounterRange (checked_add 64 sequence_index 1));
    upd_ctl (set_sequence next_index) ;;
    opens ← record_eligible_event now;
    scheduled ← schedule logistic_wait sequence_index opens;
    upd_ctl (set_pending (Some scheduled)) ;;
    upd_rec (set_decision (after_wait_decision (sr_kind scheduled))) ;;
    upd_rec (set_scheduled_numbers scheduled) ;;
    configured_wait_ms ← liftr (duration_millis (sr_duration scheduled));
    upd_rec (set_scheduled_wait configured_wait_ms scheduled) ;;
    count_wait (sr_kind scheduled) ;;
    self ← get_ctl;
    upd_sum (su_set_final (rc_circuit_state self)) ;;
    ret (DecideWait scheduled).

Definition authorize_after_wait_recorded (result : WaitResult) : ctlM RestartDecision :=
  self ← get_ctl;
  upd_ctl (set_pending None) ;;
  scheduled ← liftr (ok_or InvalidTransition (rc_pending self));
  actual_wait_ms ← liftr (duration_millis (wr_actual_elapsed result));
  upd_rec (set_actual_wait actual_wait_ms) ;;
  match wr_completion result with
  | WaitInterrupted =>
      upd_rec (set_decision AbortedByInterruption) ;;
      ret StopInterrupted
  | WaitSupervisionDeadline =>
      upd_rec (set_decision NoneTerminalDeadline) ;;
      upd_rec set_truncated ;;
      ret StopSupervisionDeadline
  | WaitCompleted =>
      if wr_actual_elapsed result <? sr_duration scheduled then liftr (Err InvalidTransition)
      else if is_some_and (λ remaining, remaining =? 0) (wr_supervision_deadline_remaining result) then
        upd_rec (set_decision NoneTerminalDeadline) ;;
        upd_rec set_truncated ;;
        ret StopSupervisionDeadline
      else if negb (has_remaining_launch self) then
        upd_rec (set_decision NoneLimitExhausted) ;;
        upd_sum su_set_exhausted ;;
        ret StopLimitExhausted
      else
        launched ← liftr (ok_or CounterRange (checked_add 64 (rc_restarts_launched self) 1));
        upd_ctl (set_launched launched) ;;
        let half_open := sr_kind scheduled ≟ WaitCircuitCooldown in
        let state := if half_open then CircuitHalfOpen else CircuitClosed in
        upd_ctl (set_circuit_state state) ;;
        upd_rec (λ r, if half_open then set_decision HalfOpenLaunch r else r) ;;
        upd_rec (set_record_circuit state) ;;
        upd_sum (su_set_launched launched) ;;
        upd_sum (su_set_final state) ;;
        ret (DecideLaunch launched half_open)
  end.

(** ** Coordinator *)

Record RestartCoordinator : Type := {
  co_controller : RestartController;
  co_summary : RestartSummary
}.

Definition RestartCoordinator_new (settings : RestartSettings)
    : result RestartControllerError RestartCoordinator :=
  controller ← RestartController_new settings;
  mret {| co_controller := controller; co_summary := RestartSummary_default |}.

Definition action (decision : RestartDecision) (stop : RestartDecisionKind) : RestartAction :=
  match decision with
  | DecideWait wait => ActionWait (sr_duration wait) (sr_kind wait)
  | DecideLaunch restart_number half_open => ActionLaunch restart_number half_open
  | StopConditionNotSelected | StopLimitExhausted | StopCleanupUnsafe | StopInterrupted
  | StopSupervisionDeadline => ActionStop stop
  end.

(** Runs a controller method on the coordinator's fields and the caller's
    record. *)
Definition with_record (m : ctlM RestartDecision) (record : RestartDecisionRecord)
    (self : RestartCoordinator)
    : (RestartCoordinator * RestartDecisionRecord) * result RestartControllerError RestartAction :=
  let '(e, r) := m (mk_env (co_controller self) record (co_summary self)) in
  ({| co_controller := e_ctl e; co_summary := e_sum e |}, e_rec e,
   decision ← r; mret (action decision (dr_decision (e_rec e)))).

Definition on_limit (condition : RestartCondition) (now : Duration) (cleanup : RestartSafetyProof)
    := with_record (after_limit_recorded condition now cleanup).

Definition complete_wait (completion : WaitCompletion) (actual_elapsed : Duration)
    (supervision_deadline_remaining : option Duration)
    := with_record (authorize_after_wait_recorded
         {| wr_completion := completion; wr_actual_elapsed := actual_elapsed;
            wr_supervision_deadline_remaining := supervision_deadline_remaining |}).
End controller.

(** ** What each method does to the controller and the summary *)

(** Opens a run of a controller method, one case per path. *)
Ltac run_ctl H :=
  unfold mbind, stM_bind, liftr, st_lift, ret, get_ctl, get_sum, upd_ctl, upd_rec, upd_sum in H;
  simpl in H; repeat (case_match; simplify_eq/=).

Lemma record_eligible_event_frame exp2 now e e' r :
  record_eligible_event exp2 now e = (e', r) →
  e_rec e' = e_rec e ∧ e_sum e' = e_sum e ∧
  rc_settings (e_ctl e') = rc_settings (e_ctl e) ∧
  rc_restarts_launched (e_ctl e') = rc_restarts_launched (e_ctl e) ∧
  rc_circuit_state (e_ctl e') = rc_circuit_state (e_ctl e) ∧
  rc_pending (e_ctl e') = rc_pending (e_ctl e) ∧
  (r = Ok true → is_Some (rs_circuit_breaker (rc_settings (e_ctl e)))).
Proof.
  unfold record_eligible_event. intros H. run_ctl H; split_and!; try done; eauto.
Qed.

Lemma ctl_on_backoff_frame exp2 now e e' r :
  ctl_on_backoff exp2 now e = (e', r) →
  e_rec e' = e_rec e ∧ e_sum e' = e_sum e ∧
  rc_settings (e_ctl e') = rc_settings (e_ctl e) ∧
  rc_restarts_launched (e_ctl e') = rc_restarts_launched (e_ctl e) ∧
  rc_circuit_state (e_ctl e') = rc_circuit_state (e_ctl e) ∧
  rc_pending (e_ctl e') = rc_pending (e_ctl e) ∧
  r = (on_backoff exp2 now (rc_backoff (e_ctl e))).2.
Proof.
  unfold ctl_on_backoff. destruct (on_backoff _ _ _) as [b r'] eqn:E. intros [= <- <-]. done.
Qed.

(** A scheduled wait, given the logistic wait it is based on. *)
Definition scheduled_for (c : RestartController) (wait : Duration) (s : ScheduledRestart) : Prop :=
  sr_restart_number s = rc_restarts_launched c + 1 ∧
  ((sr_kind s = WaitHalfLifeLogisticBackoff ∧ sr_duration s = wait ∧
    rc_circuit_state c ≠ CircuitHalfOpen) ∨
   (sr_kind s = WaitCircuitCooldown ∧
    ∃ circuit, rs_circuit_breaker (rc_settings c) = Some circuit ∧
               sr_duration s = N.max wait (cb_cooldown circuit))).

Lemma schedule_frame wait index opens e e' r :
  schedule wait index opens e = (e', r) →
  e_rec e' = e_rec e ∧ e_sum e' = e_sum e ∧
  rc_settings (e_ctl e') = rc_settings (e_ctl e) ∧
  rc_restarts_launched (e_ctl e') = rc_restarts_launched (e_ctl e) ∧
  rc_pending (e_ctl e') = rc_pending (e_ctl e) ∧
  (∀ s, r = Ok s → scheduled_for (e_ctl e) wait s ∧
     (sr_kind s = WaitCircuitCooldown → rc_circuit_state (e_ctl e') = CircuitOpen)).
Proof.
  unfold schedule, next_restart_number, scheduled_for. intros H. run_ctl H; split_and!; try done.
  all: intros s Hs; simplify_eq/=.
  all: repeat match goal with H : ok_or _ _ = Ok _ |- _ => apply ok_or_Ok in H end; run_ok.
  all: split; [split; [done|]|done].
  - right. eauto.
  - left. bool_hyps. done.
Qed.

Lemma count_wait_frame kind e e' r :
  count_wait kind e = (e', r) →
  e_rec e' = e_rec e ∧ e_ctl e' = e_ctl e ∧
  su_enabled (e_sum e') = su_enabled (e_sum e) ∧
  su_restarts_launched (e_sum e') = su_restarts_launched (e_sum e) ∧
  su_restart_limit_exhausted (e_sum e') = su_restart_limit_exhausted (e_sum e) ∧
  (su_cooldowns (e_sum e) = su_circuit_open_count (e_sum e) →
   su_cooldowns (e_sum e') = su_circuit_open_count (e_sum e')).
Proof.
  unfold count_wait. intros H. run_ctl H; split_and!; try done; intros Heq; congruence.
Qed.

(** A wait may be scheduled: the condition is selected, the attempt is
    quiescent, launches remain and no wait is pending. *)
Definition may_schedule (c : RestartController) (condition : RestartCondition)
    (cleanup : RestartSafetyProof) : Prop :=
  conditions_contains (rs_effective_conditions (rc_settings c)) condition = true ∧
  is_safe cleanup = true ∧ has_remaining_launch c = true ∧ rc_pending c = None.

(** The wait that [after_limit_recorded] schedules at [now]. *)
Definition scheduled_at (exp2 : f64 → f64) (c : RestartController) (now : Duration)
    (s : ScheduledRestart) : Prop :=
  ∃ wait, (on_backoff exp2 now (rc_backoff c)).2 = Ok wait ∧ scheduled_for c wait s.

Record after_limit_post (exp2 : f64 → f64) (condition : RestartCondition) (now : Duration)
    (cleanup : RestartSafetyProof) (e e' : env) (r : result RestartControllerError RestartDecision)
    : Prop := {
  al_settings : rc_settings (e_ctl e') = rc_settings (e_ctl e);
  al_launched : rc_restarts_launched (e_ctl e') = rc_restarts_launched (e_ctl e);
  al_sum_launched : su_restarts_launched (e_sum e') = su_restarts_launched (e_sum e);
  al_enabled : e_sum e' = e_sum e ∨ su_enabled (e_sum e') = true;
  al_opens : su_cooldowns (e_sum e) = su_circuit_open_count (e_sum e) →
             su_cooldowns (e_sum e') = su_circuit_open_count (e_sum e');
  al_pending : rc_pending (e_ctl e') = rc_pending (e_ctl e) ∨
    su_enabled (e_sum e') = true ∧
    ∃ s, rc_pending (e_ctl e') = Some s ∧ may_schedule (e_ctl e) condition cleanup ∧
         scheduled_at exp2 (e_ctl e) now s;
  al_result : ∀ d, r = Ok d →
    match d with
    | DecideWait s => rc_pending (e_ctl e') = Some s ∧ may_schedule (e_ctl e) condition cleanup ∧
                      scheduled_at exp2 (e_ctl e) now s
    | DecideLaunch _ _ => False
    | _ => rc_pending (e_ctl e') = rc_pending (e_ctl e)
    end
}.

Lemma clock_deadline_zero now p :
  clock_deadline now Duration_ZERO now = Ok p → p.2 = now.
Proof. unfold clock_deadline, Duration_ZERO. intros H. run_ok. lia. Qed.

Ltac frames :=
  repeat match goal with
  | H : ctl_on_backoff _ _ _ = (_, _) |- _ =>
      apply ctl_on_backoff_frame in H as (? & ? & ? & ? & ? & ? & ?)
  | H : record_eligible_event _ _ _ = (_, _) |- _ =>
      apply record_eligible_event_frame in H as (? & ? & ? & ? & ? & ? & ?)
  | H : schedule _ _ _ _ = (_, _) |- _ =>
      apply schedule_frame in H as (? & ? & ? & ? & ? & ?)
  | H : count_wait _ _ = (_, _) |- _ =>
      apply count_wait_frame in H as (? & ? & ? & ? & ? & ?)
  end; simpl in *.

Lemma scheduled_for_ext c c' wait s :
  rc_restarts_launched c' = rc_restarts_launched c → rc_settings c' = rc_settings c →
  rc_circuit_state c' = rc_circuit_state c →
  scheduled_for c' wait s → scheduled_for c wait s.
Proof. unfold scheduled_for. by intros -> -> ->. Qed.

Lemma after_limit_spec exp2 condition now cleanup e e' r :
  after_limit_recorded exp2 condition now cleanup e = (e', r) →
  after_limit_post exp2 condition now cleanup e e' r.
Proof.
  unfold after_limit_recorded. intros H. run_ctl H; frames.
  all: match goal with H : clock_deadline _ _ _ = Ok _ |- _ => apply clock_deadline_zero in H | _ => idtac end.
  all: repeat match goal with x : env |- _ => destruct x; simpl in * end.
  all: bool_hyps; subst; simpl in *.
  all: try match goal with
    | H : (∀ s, Ok ?a = Ok s → scheduled_for ?c ?w s ∧ _), Hw : Ok ?w = (on_backoff _ ?now (rc_backoff ?c0)).2 |- _ =>
        destruct (H a eq_refl) as [Hsched _];
        assert (scheduled_at exp2 c0 now a) as Hat
          by (eexists; split; [symmetry; eassumption|];
              eapply scheduled_for_ext; [..|exact Hsched]; congruence);
        assert (may_schedule c0 condition cleanup) as Hmay by (by split_and!)
    end.
  all: constructor; simpl in *;
    try congruence; try (right; congruence); try (left; congruence); auto; try (intros ? [= <-]; congruence).
  all: try (right; split; [congruence|]; eexists; by split_and!).
  intros ? [= <-]. by split_and!.
Qed.

(** A completed wait that leads to a launch. *)
Definition launch_allowed (c : RestartController) (w : WaitResult) (s : ScheduledRestart) : Prop :=
  rc_pending c = Some s ∧ wr_completion w = WaitCompleted ∧
  sr_duration s <= wr_actual_elapsed w ∧ wr_supervision_deadline_remaining w ≠ Some 0 ∧
  has_remaining_launch c = true.

Record authorize_post (w : WaitResult) (e e' : env)
    (r : result RestartControllerError RestartDecision) : Prop := {
  aw_settings : rc_settings (e_ctl e') = rc_settings (e_ctl e);
  aw_pending : rc_pending (e_ctl e') = None;
  aw_enabled : su_enabled (e_sum e') = su_enabled (e_sum e);
  aw_idle : rc_pending (e_ctl e) = None → e_sum e' = e_sum e;
  aw_opens : su_cooldowns (e_sum e') = su_cooldowns (e_sum e) ∧
             su_circuit_open_count (e_sum e') = su_circuit_open_count (e_sum e);
  aw_result :
    match r with
    | Ok (DecideLaunch n half_open) =>
        ∃ s, launch_allowed (e_ctl e) w s ∧ n = rc_restarts_launched (e_ctl e) + 1 ∧ n < 2 ^ 64 ∧
          half_open = bool_decide (sr_kind s = WaitCircuitCooldown) ∧
          rc_restarts_launched (e_ctl e') = n ∧ su_restarts_launched (e_sum e') = n ∧
          rc_circuit_state (e_ctl e') = (if half_open then CircuitHalfOpen else CircuitClosed)
    | Ok (DecideWait _) => False
    | Ok _ => is_Some (rc_pending (e_ctl e)) ∧
        rc_restarts_launched (e_ctl e') = rc_restarts_launched (e_ctl e) ∧
        su_restarts_launched (e_sum e') = su_restarts_launched (e_sum e)
    | Err _ =>
        rc_restarts_launched (e_ctl e') = rc_restarts_launched (e_ctl e) ∧
        su_restarts_launched (e_sum e') = su_restarts_launched (e_sum e)
    end
}.

Lemma authorize_spec w e e' r :
  authorize_after_wait_recorded w e = (e', r) → authorize_post w e e' r.
Proof.
  unfold authorize_after_wait_recorded. intros H. run_ctl H.
  all: constructor; simpl in *; try done; try (intros Hn; rewrite Hn in *; done).
  all: repeat match goal with H : ok_or _ _ = Ok _ |- _ => apply ok_or_Ok in H end; eauto.
  all: exists a; unfold launch_allowed; bool_hyps; run_ok; split_and!; try done.
  all: first [by rewrite bool_decide_eq_true_2 | by rewrite bool_decide_eq_false_2 | idtac].
  all: match goal with H : is_some_and _ _ = false |- _ => intros Hz; rewrite Hz in H end; done.
Qed.

(** ** Abstract specification

    What a restart coordinator promises to the supervision loop: a budget of
    launches and at most one outstanding wait.  Everything else (backoff,
    pressure, records) only chooses among these steps. *)
Module Spec.

Record state : Type := {
  limit : RestartLimit;
  launched : N;
  waiting : option (Duration * RestartWaitKind)
}.

Definition within (l : RestartLimit) (n : N) : Prop :=
  match l with LimitUnlimited => True | LimitCount c => n <= c end.

Inductive call : Type :=
| CallLimit (condition : RestartCondition) (now : Duration) (cleanup : RestartSafetyProof)
| CallWait (completion : WaitCompletion) (actual_elapsed : Duration) (remaining : option Duration).

Definition response : Type := result RestartControllerError RestartAction.

Definition set_waiting (s : state) w : state :=
  {| limit := limit s; launched := launched s; waiting := w |}.

Inductive step : state → call → response → state → Prop :=
| step_stop s c now cl k :
    step s (CallLimit c now cl) (Ok (ActionStop k)) s
| step_schedule s c now cl d k :
    waiting s = None → is_safe cl = true → within (limit s) (launched s + 1) →
    step s (CallLimit c now cl) (Ok (ActionWait d k)) (set_waiting s (Some (d, k)))
| step_limit_error s c now cl e :
    step s (CallLimit c now cl) (Err e) s
| step_schedule_error s c now cl e d k :
    waiting s = None → is_safe cl = true → within (limit s) (launched s + 1) →
    step s (CallLimit c now cl) (Err e) (set_waiting s (Some (d, k)))
| step_launch s elapsed remaining d k :
    waiting s = Some (d, k) → d <= elapsed → remaining ≠ Some 0 →
    within (limit s) (launched s + 1) →
    step s (CallWait WaitCompleted elapsed remaining)
      (Ok (ActionLaunch (launched s + 1) (bool_decide (k = WaitCircuitCooldown))))
      {| limit := limit s; launched := launched s + 1; waiting := None |}
| step_abandon s completion elapsed remaining w k :
    waiting s = Some w →
    step s (CallWait completion elapsed remaining) (Ok (ActionStop k)) (set_waiting s None)
| step_wait_error s completion elapsed remaining e :
    step s (CallWait completion elapsed remaining) (Err e) (set_waiting s None).

(** A run: the calls with their responses, first to last. *)
Inductive run : state → list (call * response) → state → Prop :=
| run_nil s : run s [] s
| run_cons s s' s'' c r t : step s c r s' → run s' t s'' → run s ((c, r) :: t) s''.

(** The launches of a run, in order. *)
Fixpoint launches (t : list (call * response)) : list N :=
  match t with
  | [] => []
  | (_, Ok (ActionLaunch n _)) :: t => n :: launches t
  | _ :: t => launches t
  end.

(** Numbers [n + 1 .. n + k]. *)
Definition numbers_after (n : N) (k : nat) : list N := (λ i, n + N.of_nat i) <$> seq 1 k.

Lemma launches_consecutive s t s' :
  run s t s' → within (limit s) (launched s) →
  ∃ k, launches t = numbers_after (launched s) k ∧ launched s' = launched s + N.of_nat k ∧
       within (limit s) (launched s').
Proof.
  induction 1 as [s|s s1 s2 c r t Hstep Hrun IH]; intros Hlim.
  { exists 0%nat. split; [done|]. split; [lia|done]. }
  assert (limit s1 = limit s) as El by (by destruct Hstep).
  destruct Hstep; simpl in *;
    try (destruct (IH Hlim) as (k0 & E1 & E2 & E3); exists k0; by split_and!).
  destruct (IH ltac:(done)) as (k0 & E1 & E2 & E3). exists (S k0).
  split_and!; [|lia|done]. rewrite E1. unfold numbers_after. cbn [seq fmap list_fmap].
  f_equal. rewrite <- (fmap_S_seq 1 k0), <- list_fmap_compose. apply list_fmap_ext.
  intros ? ? _. simpl. lia.
Qed.

(** Between two launches, and before the first, a wait was scheduled after a
    safe cleanup, and it was completed in full. *)
Inductive guarded : bool → list (call * response) → Prop :=
| guarded_nil b : guarded b []
| guarded_wait b c now cl d k t :
    is_safe cl = true → guarded true t →
    guarded b ((CallLimit c now cl, Ok (ActionWait d k)) :: t)
| guarded_error b c now cl e t :
    guarded (b || is_safe cl) t → guarded b ((CallLimit c now cl, Err e) :: t)
| guarded_stop b c now cl k t :
    guarded b t → guarded b ((CallLimit c now cl, Ok (ActionStop k)) :: t)
| guarded_launch elapsed remaining n h t :
    guarded false t →
    guarded true ((CallWait WaitCompleted elapsed remaining, Ok (ActionLaunch n h)) :: t)
| guarded_abandon b completion elapsed remaining k t :
    guarded false t →
    guarded b ((CallWait completion elapsed remaining, Ok (ActionStop k)) :: t)
| guarded_wait_error b completion elapsed remaining e t :
    guarded false t → guarded b ((CallWait completion elapsed remaining, Err e) :: t).

#[export] Hint Constructors guarded : rust.

Lemma guarded_mono b b' t : guarded b t → (b = true → b' = true) → guarded b' t.
Proof.
  intros H. revert b'. induction H; intros b' Hb; eauto with rust.
  - constructor. apply IHguarded. destruct b; [by rewrite Hb|]. simpl. intros ->. by rewrite orb_true_r.
  - rewrite Hb by done. by constructor.
Qed.

Lemma run_guarded s t s' :
  run s t s' → guarded (is_some (waiting s)) t.
Proof.
  induction 1 as [s|s s1 s2 c r t Hstep Hrun IH]; [constructor|].
  destruct Hstep; simpl in *; repeat match goal with H : waiting _ = _ |- _ => rewrite H in * end;
    simpl in *; eauto with rust.
  - constructor. eapply guarded_mono; [exact IH|]. by intros ->.
  - constructor. match goal with H : is_safe _ = true |- _ => by rewrite H end.
Qed.
End Spec.

(** ** The coordinator implements the specification *)

Definition abs (co : RestartCoordinator) : Spec.state := {|
  Spec.limit := rs_limit (rc_settings (co_controller co));
  Spec.launched := rc_restarts_launched (co_controller co);
  Spec.waiting := (λ s, (sr_duration s, sr_kind s)) <$> rc_pending (co_controller co)
|}.

Record co_inv (co : RestartCoordinator) : Prop := {
  ci_launched : su_restarts_launched (co_summary co) = rc_restarts_launched (co_controller co);
  ci_limit : Spec.within (rs_limit (rc_settings (co_controller co)))
               (rc_restarts_launched (co_controller co));
  ci_opens : su_cooldowns (co_summary co) = su_circuit_open_count (co_summary co);
  ci_enabled : su_enabled (co_summary co) = false →
               co_summary co = RestartSummary_default ∧ rc_pending (co_controller co) = None
}.

Section refinement.
  Context (exp2 : f64 → f64).

Definition do_call (c : Spec.call) (record : RestartDecisionRecord) (co : RestartCoordinator) :=
  match c with
  | Spec.CallLimit condition now cleanup => on_limit exp2 condition now cleanup record co
  | Spec.CallWait completion elapsed remaining => complete_wait completion elapsed remaining record co
  end.

(** A sequence of calls, each with the record the caller hands in. *)
Fixpoint run_calls (calls : list (Spec.call * RestartDecisionRecord)) (co : RestartCoordinator)
    : list (Spec.call * Spec.response) * RestartCoordinator :=
  match calls with
  | [] => ([], co)
  | (c, record) :: calls =>
      let '((co', _), r) := do_call c record co in
      let '(t, co'') := run_calls calls co' in
      ((c, r) :: t, co'')
  end.

Lemma within_remaining co :
  has_remaining_launch (co_controller co) = true →
  Spec.within (Spec.limit (abs co)) (Spec.launched (abs co) + 1).
Proof.
  unfold has_remaining_launch. simpl. destruct (rs_limit _); simpl; [done|]. intros ?. bool_hyps. lia.
Qed.

Lemma abs_eq co co' :
  rc_settings (co_controller co') = rc_settings (co_controller co) →
  rc_restarts_launched (co_controller co') = rc_restarts_launched (co_controller co) →
  abs co' = Spec.set_waiting (abs co)
              ((λ s, (sr_duration s, sr_kind s)) <$> rc_pending (co_controller co')).
Proof. intros E1 E2. unfold abs, Spec.set_waiting. simpl. by rewrite E1, E2. Qed.

Lemma set_waiting_id s : Spec.set_waiting s (Spec.waiting s) = s.
Proof. by destruct s. Qed.

Lemma on_limit_step condition now cleanup record co co' rec' r :
  co_inv co → on_limit exp2 condition now cleanup record co = ((co', rec'), r) →
  co_inv co' ∧ Spec.step (abs co) (Spec.CallLimit condition now cleanup) r (abs co').
Proof.
  intros Hinv. unfold on_limit, with_record. destruct (after_limit_recorded _ _ _ _ _) as [e d] eqn:E.
  intros [= <- <- <-]. apply after_limit_spec in E as [Hs Hl Hsl Hen Hop Hp Hr]. simpl in *.
  destruct Hinv as [Hi1 Hi2 Hi3 Hi4].
  set (co' := {| co_controller := e_ctl e; co_summary := e_sum e |}).
  split.
  { constructor; simpl; [congruence|by rewrite Hs, Hl|auto|]. intros Hf.
    destruct Hen as [Hen|Hen]; [|congruence]. rewrite Hen in *.
    destruct (Hi4 Hf) as [-> Hnp]. split; [done|]. destruct Hp as [Hp|[Hp _]]; congruence. }
  rewrite (abs_eq co co') by done. simpl.
  destruct d as [[| | | | |s|n h]|err]; simpl.
  all: try (rewrite (Hr _ eq_refl); change (_ <$> _) with (Spec.waiting (abs co));
            rewrite set_waiting_id; by constructor).
  - destruct (Hr _ eq_refl) as (-> & (_ & Hsafe & Hrem & Hnone) & _). simpl.
    constructor; [simpl; by rewrite Hnone|done|by apply within_remaining].
  - by destruct (Hr _ eq_refl).
  - destruct Hp as [->|(_ & s & -> & (_ & Hsafe & Hrem & Hnone) & _)].
    + change (_ <$> _) with (Spec.waiting (abs co)). rewrite set_waiting_id. by constructor.
    + simpl. constructor; [simpl; by rewrite Hnone|done|by apply within_remaining].
Qed.

Lemma complete_wait_step completion elapsed remaining record co co' rec' r :
  co_inv co → complete_wait completion elapsed remaining record co = ((co', rec'), r) →
  co_inv co' ∧ Spec.step (abs co) (Spec.CallWait completion elapsed remaining) r (abs co').
Proof.
  intros [Hi1 Hi2 Hi3 Hi4]. unfold complete_wait, with_record.
  destruct (authorize_after_wait_recorded _ _) as [e d] eqn:E.
  intros [= <- <- <-]. apply authorize_spec in E as [Hs Hp Hen Hidle [Ho1 Ho2] Hr]. simpl in *.
  set (co' := {| co_controller := e_ctl e; co_summary := e_sum e |}).
  assert (su_enabled (e_sum e) = false → e_sum e = RestartSummary_default ∧ rc_pending (e_ctl e) = None) as He.
  { intros Hf. rewrite Hen in Hf. destruct (Hi4 Hf) as [Hd Hn]. by rewrite (Hidle Hn), Hd. }
  destruct d as [[| | | | |s|n h]|err]; simpl in *.
  all: try (destruct Hr as ([s Hsome] & Hl & Hsl); split;
    [constructor; simpl; [congruence|by rewrite Hs, Hl|congruence|done]|];
    rewrite (abs_eq co co') by done; simpl; rewrite Hp; simpl; econstructor; simpl; by rewrite Hsome).
  - done.
  - destruct Hr as (s & (Hsome & Hc & Hd & Hrm & Hrem) & -> & Hn & -> & Hl & Hsl & Hst). simpl in *.
    subst completion. split.
    + pose proof (within_remaining co Hrem). simpl in *.
      constructor; simpl; [congruence|by rewrite Hs, Hl|congruence|done].
    + unfold abs at 2. simpl. rewrite Hs, Hl, Hp. simpl.
      change (rs_limit (rc_settings (co_controller co))) with (Spec.limit (abs co)).
      change (rc_restarts_launched (co_controller co)) with (Spec.launched (abs co)).
      eapply Spec.step_launch; [simpl; by rewrite Hsome|done|done|by apply within_remaining].
  - destruct Hr as (Hl & Hsl). split.
    { constructor; simpl; [congruence|by rewrite Hs, Hl|congruence|done]. }
    rewrite (abs_eq co co') by done. simpl. rewrite Hp. constructor.
Qed.

Lemma do_call_step c record co co' rec' r :
  co_inv co → do_call c record co = ((co', rec'), r) →
  co_inv co' ∧ Spec.step (abs co) c r (abs co').
Proof.
  destruct c; simpl; [eapply on_limit_step|eapply complete_wait_step].
Qed.

Lemma run_calls_refines calls co t co' :
  co_inv co → run_calls calls co = (t, co') → co_inv co' ∧ Spec.run (abs co) t (abs co').
Proof.
  revert co t co'. induction calls as [|[c record] calls IH]; intros co t co' Hinv; simpl.
  { intros [= <- <-]. split; [done|constructor]. }
  destruct (do_call c record co) as [[co1 rec1] r] eqn:E1.
  destruct (run_calls calls co1) as [t1 co2] eqn:E2. intros [= <- <-].
  apply do_call_step in E1 as [Hi1 Hs1]; [|done]. apply IH in E2 as [Hi2 Hs2]; [|done].
  split; [done|]. econstructor; eauto.
Qed.

Lemma new_inv settings co :
  RestartCoordinator_new exp2 settings = Ok co →
  co_inv co ∧ abs co = {| Spec.limit := rs_limit settings; Spec.launched := 0; Spec.waiting := None |}.
Proof.
  unfold RestartCoordinator_new, RestartController_new. intros H. run_ok.
  split; [|done]. constructor; simpl; try done. destruct (rs_limit settings); simpl; [done|lia].
Qed.

(** A coordinator the supervision loop can have: built from settings, after any
    calls. *)
Definition reachable (settings : RestartSettings) (t : list (Spec.call * Spec.response))
    (co : RestartCoordinator) : Prop :=
  ∃ co0 calls, RestartCoordinator_new exp2 settings = Ok co0 ∧ run_calls calls co0 = (t, co).
End refinement.

(** ** Properties *)

(** C2: every sequence of [on_limit] and [complete_wait] calls on a new
    coordinator is a run of the abstract specification with the same
    responses: launches are paid for from the configured budget, at most one
    wait is outstanding, and a failed call never consumes a launch. *)
Theorem coordinator_refines_spec (exp2 : f64 → f64) (settings : RestartSettings)
    (t : list (Spec.call * Spec.response)) (co : RestartCoordinator)
    (H : reachable exp2 settings t co) :
  Spec.run {| Spec.limit := rs_limit settings; Spec.launched := 0; Spec.waiting := None |} t (abs co).
Proof.
  destruct H as (co0 & calls & Hnew & Hrun).
  destruct (new_inv _ _ _ Hnew) as [Hinv <-]. by apply (run_calls_refines exp2 calls co0).
Qed.

(** C5: the launches a coordinator authorizes are numbered 1, 2, 3, ... without
    gaps, there are never more of them than the restart limit, the summary
    counts them, and each one is preceded, after the previous one, by an
    [on_limit] call on a safely cleaned-up attempt and directly ends a
    completed wait. *)
Theorem coordinator_launches (exp2 : f64 → f64) (settings : RestartSettings)
    (t : list (Spec.call * Spec.response)) (co : RestartCoordinator)
    (H : reachable exp2 settings t co) :
  ∃ k, Spec.launches t = Spec.numbers_after 0 k ∧
       Spec.within (rs_limit settings) (N.of_nat k) ∧
       su_restarts_launched (co_summary co) = N.of_nat k ∧
       Spec.guarded false t.
Proof.
  destruct H as (co0 & calls & Hnew & Hrun).
  destruct (new_inv _ _ _ Hnew) as [Hinv0 E0].
  destruct (run_calls_refines _ _ _ _ _ Hinv0 Hrun) as [Hinv Hr]. rewrite E0 in Hr.
  pose proof (Spec.run_guarded _ _ _ Hr) as Hg. simpl in Hg.
  apply Spec.launches_consecutive in Hr as (k & E1 & E2 & E3); [|simpl; by destruct (rs_limit settings); simpl; lia].
  simpl in *. rewrite E2, N.add_0_l in E3. exists k. split_and!; [done|done| |done].
  rewrite (ci_launched _ Hinv), E2. lia.
Qed.

(** The summary of any coordinator passes the validation its reader
    applies, so it can always be read back unchanged: cooldowns never exceed
    circuit openings and a summary that was never enabled is all zero. *)
Theorem coordinator_summary_readable (exp2 : f64 → f64) (settings : RestartSettings)
    (t : list (Spec.call * Spec.response)) (co : RestartCoordinator)
    (H : reachable exp2 settings t co) :
  RestartSummary_deserialize (co_summary co) = Ok (co_summary co).
Proof.
  destruct H as (co0 & calls & Hnew & Hrun).
  destruct (new_inv _ _ _ Hnew) as [Hinv0 _].
  destruct (run_calls_refines _ _ _ _ _ Hinv0 Hrun) as [[_ _ Hop Hen] _].
  unfold RestartSummary_deserialize, is_standalone_valid. rewrite Hop, N.leb_refl.
  destruct (su_enabled (co_summary co)) eqn:E; [done|].
  destruct (Hen eq_refl) as [-> _]. done.
Qed.

(** A wait returned for a limit event is the logistic backoff of the
    controller at that time, or, when the circuit breaker opens or a half-open
    attempt failed, the greater of that and the configured cooldown, never
    less; it is returned only for a selected condition on a safely cleaned-up
    attempt with launches left; and after a half-open launch it is always a
    cooldown. *)
Theorem on_limit_wait (exp2 : f64 → f64) (condition : RestartCondition) (now : Duration)
    (cleanup : RestartSafetyProof) (record record' : RestartDecisionRecord)
    (co co' : RestartCoordinator) (d : Duration) (k : RestartWaitKind)
    (H : on_limit exp2 condition now cleanup record co = ((co', record'), Ok (ActionWait d k))) :
  may_schedule (co_controller co) condition cleanup ∧
  ∃ wait, (on_backoff exp2 now (rc_backoff (co_controller co))).2 = Ok wait ∧ wait <= d ∧
    ((k = WaitHalfLifeLogisticBackoff ∧ d = wait
      ∧ rc_circuit_state (co_controller co) ≠ CircuitHalfOpen) ∨
     (k = WaitCircuitCooldown ∧
      ∃ circuit, rs_circuit_breaker (rc_settings (co_controller co)) = Some circuit ∧
                 d = N.max wait (cb_cooldown circuit))).
Proof.
  unfold on_limit, with_record in H. destruct (after_limit_recorded _ _ _ _ _) as [e r] eqn:E.
  injection H as _ _ H. apply after_limit_spec in E as [_ _ _ _ _ _ Hr]. simpl in *.
  run_ok. destruct x; simplify_eq/=.
  destruct (Hr _ eq_refl) as (_ & Hmay & wait & Hw & _ & Hs). split; [done|].
  exists wait. split; [done|].
  destruct Hs as [(Hk & -> & Hc)|(Hk & circuit & Hcb & ->)]; (split; [lia|]); eauto 7.
Qed.

(** *** A concrete run: two launches, the second half-open, then the limit *)
Module SampleRun.
Definition safe_proof : RestartSafetyProof := {|
  rsp_direct_child_reaped := true; rsp_workload_empty := Some true; rsp_helpers_reaped := true;
  rsp_containment_removed := true; rsp_containment_incapable_of_live_members := false;
  rsp_sealed_boundary_retired := false; rsp_errors := [] |}.
Definition limit_at (ms : N) :=
  (Spec.CallLimit Condition_MemoryLimit (from_millis ms) safe_proof, RestartDecisionRecord_default).
Definition waited (d : Duration) :=
  (Spec.CallWait WaitCompleted d None, RestartDecisionRecord_default).
Definition calls := [limit_at 10; waited (from_secs 60); limit_at 20; waited (from_secs 60); limit_at 30].
Definition co0 : RestartCoordinator := {|
  co_controller := {|
    rc_settings := sample_settings; rc_restarts_launched := 0;
    rc_backoff := {| bs_policy := HalfLifeLogisticBackoffPolicy_default;
                     bs_current_interval := from_millis 250; bs_last_backoff_at := None |};
    rc_half_life_logistic_sequence_index := 0; rc_circuit_pressure := f64_of_Z 0;
    rc_last_circuit_event_at := None; rc_circuit_state := CircuitClosed; rc_pending := None |};
  co_summary := RestartSummary_default |}.
Definition trace := (run_calls unit_exp2 calls co0).1.
Definition final := (run_calls unit_exp2 calls co0).2.

Example responses : trace.*2 =
  [Ok (ActionWait (from_millis 1000) WaitHalfLifeLogisticBackoff); Ok (ActionLaunch 1 false);
   Ok (ActionWait (from_millis 30000) WaitCircuitCooldown); Ok (ActionLaunch 2 true);
   Ok (ActionStop NoneLimitExhausted)].
Proof. vm_compute. reflexivity. Qed.

Lemma reached : reachable unit_exp2 sample_settings trace final.
Proof.
  exists co0, calls. split; [vm_compute; reflexivity|].
  unfold trace, final. by destruct (run_calls unit_exp2 calls co0).
Qed.
End SampleRun.

Lemma coordinator_refines_spec_witness :
  Spec.run {| Spec.limit := LimitCount 2; Spec.launched := 0; Spec.waiting := None |}
    SampleRun.trace (abs SampleRun.final).
Proof.
  apply (coordinator_refines_spec unit_exp2 sample_settings). exact SampleRun.reached.
Defined.

Lemma coordinator_launches_witness :
  Spec.launches SampleRun.trace = [1; 2] ∧
  ∃ k, Spec.launches SampleRun.trace = Spec.numbers_after 0 k ∧
       Spec.within (LimitCount 2) (N.of_nat k) ∧
       su_restarts_launched (co_summary SampleRun.final) = N.of_nat k ∧
       Spec.guarded false SampleRun.trace.
Proof.
  split; [vm_compute; reflexivity|].
  apply (coordinator_launches unit_exp2 sample_settings). exact SampleRun.reached.
Defined.

Lemma coordinator_summary_readable_witness :
  RestartSummary_deserialize (co_summary SampleRun.final) = Ok (co_summary SampleRun.final).
Proof.
  apply (coordinator_summary_readable unit_exp2 sample_settings SampleRun.trace).
  exact SampleRun.reached.
Defined.

Lemma on_limit_wait_witness :
  may_schedule (co_controller SampleRun.co0) Condition_MemoryLimit SampleRun.safe_proof.
Proof.
  apply (on_limit_wait unit_exp2 Condition_MemoryLimit (from_millis 10) SampleRun.safe_proof
    RestartDecisionRecord_default
    (on_limit unit_exp2 Condition_MemoryLimit (from_millis 10) SampleRun.safe_proof
       RestartDecisionRecord_default SampleRun.co0).1.2
    SampleRun.co0
    (on_limit unit_exp2 Condition_MemoryLimit (from_millis 10) SampleRun.safe_proof
       RestartDecisionRecord_default SampleRun.co0).1.1
    (from_millis 1000) WaitHalfLifeLogisticBackoff).
  vm_compute. reflexivity.
Defined.

(** *** A cooldown that cannot be scheduled *)

Definition long_cooldown_settings : RestartSettings := {|
  rs_configured_conditions := Conditions_MEMORY_LIMIT;
  rs_effective_conditions := Conditions_MEMORY_LIMIT;
  rs_dormant_conditions := [];
  rs_limit := LimitUnlimited;
  rs_backoff := HalfLifeLogisticBackoffPolicy_default;
  rs_circuit_breaker := Some {| cb_threshold := f64_of_Z 1; cb_half_life := from_secs 60;
                                cb_cooldown := from_secs (2 ^ 60) |}
|}.

(** Settings whose circuit cooldown does not fit in [u64] milliseconds pass
    [validate], but the first limit event that opens the circuit fails with
    [BackoffRange] after the wait was made pending, and every later limit event
    then fails with [InvalidTransition]. *)
Theorem long_cooldown_wedges :
  duration_valid (from_secs (2 ^ 60)) ∧
  settings_validate unit_exp2 long_cooldown_settings = Ok () ∧
  ∃ co, RestartCoordinator_new unit_exp2 long_cooldown_settings = Ok co ∧
    (run_calls unit_exp2 [SampleRun.limit_at 10; SampleRun.limit_at 20; SampleRun.limit_at 30] co).1.*2
    = [Err BackoffRange; Err InvalidTransition; Err InvalidTransition].
Proof.
  split; [vm_compute; reflexivity|]. split; [vm_compute; reflexivity|].
  eexists. split; [vm_compute; reflexivity|]. vm_compute. reflexivity.
Qed.
