(* ===== verification/RuntimeEvidence.v ===== *)
(** * Runtime evidence

    memcordon-core/src/runtime_evidence.rs: the timestamps and facts a launch
    runtime reports about one attempt, and their consistency check.  The
    theorem turns an accepted report into the timeline it certifies. *)

From S2P Require Import Prelude Decimal Bounded.

Definition MAX_RETIREMENT_OBLIGATIONS : nat := 64.

Inductive ClockDomain : Type :=
| DarwinContinuousTicksV1 (boot_identity : string) (ticks_per_second : N).

Inductive ReleaseEvidence : Type :=
| ReleaseNotIssued
| ReleaseIssued (at_ : N) (exec_confirmed : bool)
| ReleaseUnknown.

Record OwnerIdentity : Type := { owner_pid : N; owner_start_identity : N }.

Inductive RetirementObligation : Type :=
| PendingCreation | RootExit | RootReap | GroupReconciliation | DetachedIdentity
| InspectorReap | GuardianReap | ControlTransport | WorkloadPolicy.

Inductive RetirementEvidence : Type :=
| RetirementComplete (at_ : N) (target_reaped_or_absent group_reconciled
    detached_identities_discharged native_obligations_settled policy_retired : bool)
| RetirementPending (owner : OwnerIdentity) (obligations : list RetirementObligation)
| RetirementUnconfirmed (last_owner : option OwnerIdentity).

Definition bounded_obligations (obligations : list RetirementObligation)
    : result string (list RetirementObligation) :=
  bounded ← BoundedVec_deserialize MAX_RETIREMENT_OBLIGATIONS obligations;
  mret (as_slice bounded).

Definition retirement_is_complete (r : RetirementEvidence) : bool :=
  match r with
  | RetirementComplete _ true true true true true => true
  | _ => false
  end.

Inductive DeliveryEvidence : Type :=
| DeliveryNotSubmitted | DeliveryPrepared | DeliveryPreparedBy (writer_pid : N) | DeliveryUnknown.

Record RuntimeEvidenceV1 : Type := {
  re_schema_version : N;
  re_clock : ClockDomain;
  re_run_origin : N;
  re_attempt_origin : N;
  re_work_expires : option N;
  re_startup_expires : N;
  re_release : ReleaseEvidence;
  re_target_pid : option N;
  re_terminal_observed : option N;
  re_force_requested : option N;
  re_force_expires : option N;
  re_retirement_expires : option N;
  re_delivery_expires : option N;
  re_retirement : RetirementEvidence;
  re_delivery : DeliveryEvidence
}.

Definition clock_valid (c : ClockDomain) : bool :=
  match c with
  | DarwinContinuousTicksV1 boot_identity ticks_per_second =>
      negb (str_is_empty boot_identity) && (str_len boot_identity <=? 128) && (0 <? ticks_per_second)
  end.

Definition release_valid (e : RuntimeEvidenceV1) : bool :=
  match re_release e with
  | ReleaseIssued at_ _ =>
      is_some (re_target_pid e)
      && (re_attempt_origin e <=? at_)
      && (at_ <? re_startup_expires e)
      && is_none_or (λ expiry, at_ <? expiry) (re_work_expires e)
  | ReleaseNotIssued => true
  | ReleaseUnknown => negb (retirement_is_complete (re_retirement e))
  end.

Definition retirement_valid (e : RuntimeEvidenceV1) : bool :=
  match re_retirement e with
  | RetirementComplete at_ _ _ _ _ _ =>
      retirement_is_complete (re_retirement e)
      && is_some_and (λ terminal, terminal <=? at_) (re_terminal_observed e)
      && is_some_and (λ expiry, at_ <=? expiry) (re_retirement_expires e)
  | RetirementPending _ obligations =>
      negb (bool_decide (length obligations = 0%nat))
      && (length obligations <=? MAX_RETIREMENT_OBLIGATIONS)%nat
  | RetirementUnconfirmed _ => true
  end.

Definition boundaries_valid (e : RuntimeEvidenceV1) : bool :=
  match re_force_expires e, re_retirement_expires e, re_delivery_expires e with
  | None, None, None => is_none (re_terminal_observed e)
  | Some force, Some retire, Some deliver => (force <=? retire) && (retire <=? deliver)
  | _, _, _ => false
  end.

Definition runtime_is_consistent (e : RuntimeEvidenceV1) : bool :=
  (re_schema_version e =? 1)
  && clock_valid (re_clock e)
  && release_valid e
  && retirement_valid e
  && boundaries_valid e
  && (re_run_origin e <=? re_attempt_origin e)
  && (re_attempt_origin e <=? re_startup_expires e)
  && is_none_or (λ expiry, re_startup_expires e <=? expiry) (re_work_expires e)
  && is_none_or (λ at_, re_attempt_origin e <=? at_) (re_terminal_observed e)
  && is_none_or (λ at_, is_some_and (λ terminal, terminal <=? at_) (re_terminal_observed e))
       (re_force_requested e).

(** The wire form has the fields of the record. *)
Definition RuntimeEvidenceV1_deserialize (wire : RuntimeEvidenceV1) : result string RuntimeEvidenceV1 :=
  if negb (runtime_is_consistent wire) then Err "inconsistent runtime evidence"%string else Ok wire.

(** The order of events a report certifies. *)
Record timeline (e : RuntimeEvidenceV1) : Prop := {
  tl_origin : re_run_origin e <= re_attempt_origin e <= re_startup_expires e;
  tl_release : ∀ at_ confirmed, re_release e = ReleaseIssued at_ confirmed →
    is_Some (re_target_pid e) ∧ re_attempt_origin e <= at_ < re_startup_expires e ∧
    ∀ w, re_work_expires e = Some w → at_ < w ∧ re_startup_expires e <= w;
  tl_terminal : ∀ t, re_terminal_observed e = Some t →
    re_attempt_origin e <= t ∧
    ∃ f r d, re_force_expires e = Some f ∧ re_retirement_expires e = Some r ∧
             re_delivery_expires e = Some d ∧ f <= r <= d;
  tl_force : ∀ f, re_force_requested e = Some f → ∃ t, re_terminal_observed e = Some t ∧ t <= f;
  tl_retired : retirement_is_complete (re_retirement e) = true →
    re_release e ≠ ReleaseUnknown ∧
    ∃ at_ t r d, re_terminal_observed e = Some t ∧ re_retirement_expires e = Some r ∧
                 re_delivery_expires e = Some d ∧
                 re_retirement e = RetirementComplete at_ true true true true true ∧
                 re_attempt_origin e <= t <= at_ ∧ at_ <= r <= d
}.

(** A report that passes the consistency check certifies a timeline: the
    attempt starts within the run, a release happens before startup and work
    expire, a forced termination follows the terminal observation, and a
    complete retirement lies between the terminal observation and its deadline,
    itself before delivery; an unknown release never certifies a retirement;
    and reading returns the report unchanged. *)
Theorem runtime_evidence_timeline (e : RuntimeEvidenceV1) (v : RuntimeEvidenceV1)
    (H : RuntimeEvidenceV1_deserialize e = Ok v) :
  v = e ∧ timeline e.
Proof.
  unfold RuntimeEvidenceV1_deserialize in H. case_match eqn:E; [done|]. split; [congruence|].
  bool_hyps. unfold runtime_is_consistent in E. bool_hyps.
  unfold release_valid, retirement_valid, boundaries_valid in *.
  repeat match goal with
  | H : is_none_or _ _ = true |- _ => rewrite is_none_or_true in H
  end.
  constructor.
  - lia.
  - intros at_ confirmed Hr. rewrite Hr in *. bool_hyps. split_and!; [done|lia..|].
    intros w Hw. match goal with H : ∀ a, re_work_expires e = Some a → (_ <=? _) = true |- _ =>
      specialize (H _ Hw) end.
    rewrite Hw in *. simpl in *. bool_hyps. lia.
  - intros t Ht. split.
    + match goal with H : ∀ a, re_terminal_observed e = Some a → _ |- _ => specialize (H _ Ht) end.
      bool_hyps. done.
    + rewrite Ht in *. destruct (re_force_expires e), (re_retirement_expires e), (re_delivery_expires e);
        try done. bool_hyps. eauto 10.
  - intros f Hf. match goal with H : ∀ a, re_force_requested e = Some a → _ |- _ => specialize (H _ Hf) end.
    match goal with H : is_some_and _ _ = true |- _ => apply is_some_and_true in H as (t & Ht & Hle) end.
    bool_hyps. eauto.
  - intros Hc. split.
    + intros Hr. rewrite Hr in *. by rewrite Hc in *.
    + destruct (re_retirement e) as [at_ [] [] [] [] []| |]; try done. bool_hyps.
      repeat match goal with H : is_some_and _ _ = true |- _ =>
        apply is_some_and_true in H as (? & ? & ?) end. bool_hyps.
      match goal with H : ∀ a, re_terminal_observed e = Some a → _, H' : re_terminal_observed e = Some _ |- _ =>
        specialize (H _ H') end. bool_hyps.
      destruct (re_force_expires e), (re_retirement_expires e), (re_delivery_expires e); try done.
      simplify_eq. bool_hyps. do 4 eexists. split_and!; done.
Qed.

Definition sample_runtime : RuntimeEvidenceV1 := {|
  re_schema_version := 1; re_clock := DarwinContinuousTicksV1 "boot" 24000000;
  re_run_origin := 100; re_attempt_origin := 110; re_work_expires := Some 900;
  re_startup_expires := 300; re_release := ReleaseIssued 150 true; re_target_pid := Some 42;
  re_terminal_observed := Some 500; re_force_requested := Some 510; re_force_expires := Some 600;
  re_retirement_expires := Some 700; re_delivery_expires := Some 800;
  re_retirement := RetirementComplete 650 true true true true true;
  re_delivery := DeliveryPrepared |}.

Lemma runtime_evidence_timeline_witness : sample_runtime = sample_runtime ∧ timeline sample_runtime.
Proof. apply (runtime_evidence_timeline sample_runtime sample_runtime). vm_compute. reflexivity. Defined.
