(* ===== verification/Codec.v ===== *)
(** * Byte encodings

    [to_be_bytes] and the encodings the program feeds to a hash or writes to a
    frame.  An encoding is prefix-free on the values it is used at when a byte
    string starts with the encoding of at most one of them, which makes the
    concatenation of encodings readable and hence injective. *)

From S2P Require Import Prelude Decimal Bounded.
From Stdlib Require Import Ascii.

(** [to_be_bytes] of a [k]-byte unsigned integer. *)
Fixpoint be_bytes (k : nat) (n : N) : list u8 :=
  match k with
  | O => []
  | S k => be_bytes k (n / 256) ++ [ascii_of_N (n mod 256)]
  end.
(** [to_be_bytes] of an [i32]: the two's complement. *)
Definition i32_be_bytes (z : Z) : list u8 := be_bytes 4 (Z.to_N (z mod 2 ^ 32)%Z).
(** [u8::from(bool)] *)
Definition bool_byte (b : bool) : u8 := ascii_of_N (if b then 1 else 0).
Definition byte (n : N) : u8 := ascii_of_N n.

Definition prefix_free {A} (P : A → Prop) (enc : A → list u8) : Prop :=
  ∀ x y r s, P x → P y → enc x ++ r = enc y ++ s → x = y ∧ r = s.

Lemma length_be_bytes k n : length (be_bytes k n) = k.
Proof. revert n. induction k; intros n; simpl; [done|]. rewrite length_app, IHk. simpl. lia. Qed.

Lemma ascii_of_N_inj n m : n < 256 → m < 256 → ascii_of_N n = ascii_of_N m → n = m.
Proof.
  intros Hn Hm E. apply (f_equal N_of_ascii) in E.
  by rewrite !N_ascii_embedding in E by done.
Qed.

Lemma be_bytes_inj k n m : n < 256 ^ N.of_nat k → m < 256 ^ N.of_nat k →
  be_bytes k n = be_bytes k m → n = m.
Proof.
  revert n m. induction k as [|k IH]; intros n m Hn Hm E; simpl in *; [lia|].
  apply app_inj_tail in E as [E1 E2].
  apply ascii_of_N_inj in E2; [|apply N.mod_lt; lia..].
  rewrite Nnat.Nat2N.inj_succ, N.pow_succ_r' in Hn, Hm.
  apply IH in E1; [|apply N.Div0.div_lt_upper_bound; lia..].
  rewrite (N.div_mod n 256), (N.div_mod m 256) by lia. congruence.
Qed.

Lemma fixed_prefix_free {A} (P : A → Prop) (enc : A → list u8) (k : nat) :
  (∀ x, P x → length (enc x) = k) →
  (∀ x y, P x → P y → enc x = enc y → x = y) → prefix_free P enc.
Proof.
  intros Hlen Hinj x y r s Hx Hy E. apply app_inj_1 in E as [E ->].
  - split; [|done]. by apply Hinj.
  - rewrite !Hlen by done. done.
Qed.

Lemma be_bytes_prefix_free k : prefix_free (λ n, n < 256 ^ N.of_nat k) (be_bytes k).
Proof. apply (fixed_prefix_free _ _ k); [intros; apply length_be_bytes | apply be_bytes_inj]. Qed.

(** A length as [usize], and [bytes.get(from..to)]. *)
Definition blen (l : list u8) : N := N.of_nat (length l).
Definition get_range (l : list u8) (from to : N) : option (list u8) :=
  if (from <=? to) && (to <=? blen l) then Some (take (N.to_nat (to - from)) (drop (N.to_nat from) l)) else None.

(** [to_le_bytes] of a [k]-byte unsigned integer, and [from_le_bytes]. *)
Definition le_bytes (k : nat) (n : N) : list u8 := rev (be_bytes k n).
Fixpoint from_le_bytes (l : list u8) : N :=
  match l with [] => 0 | b :: l => N_of_ascii b + 256 * from_le_bytes l end.

Lemma le_bytes_inj k n m : n < 256 ^ N.of_nat k → m < 256 ^ N.of_nat k → le_bytes k n = le_bytes k m → n = m.
Proof.
  intros Hn Hm E. apply (be_bytes_inj k); [done..|]. unfold le_bytes in E.
  by rewrite <- (rev_involutive (be_bytes k n)), E, rev_involutive.
Qed.
Lemma length_le_bytes k n : length (le_bytes k n) = k.
Proof. unfold le_bytes. by rewrite length_rev, length_be_bytes. Qed.

Lemma le_bytes_succ k n : le_bytes (S k) n = ascii_of_N (n mod 256) :: le_bytes k (n / 256).
Proof. unfold le_bytes. cbn [be_bytes]. by rewrite rev_app_distr. Qed.
Lemma from_le_bytes_encode k n : n < 256 ^ N.of_nat k → from_le_bytes (le_bytes k n) = n.
Proof.
  revert n. induction k as [|k IH]; intros n Hn; [cbn in *; lia|].
  rewrite Nnat.Nat2N.inj_succ, N.pow_succ_r' in Hn.
  rewrite le_bytes_succ. cbn [from_le_bytes].
  rewrite IH by (apply N.Div0.div_lt_upper_bound; lia).
  rewrite N_ascii_embedding by (apply N.mod_lt; lia).
  pose proof (N.div_mod n 256). lia.
Qed.
Lemma le_bytes_decode l : le_bytes (length l) (from_le_bytes l) = l.
Proof.
  induction l as [|b l IH]; [done|]. cbn [length from_le_bytes]. rewrite le_bytes_succ.
  pose proof (N_ascii_bounded b) as Hb.
  rewrite (N.mul_comm 256), N.Div0.mod_add, N.mod_small, ascii_N_embedding by done.
  by rewrite N.div_add, N.div_small, N.add_0_l, IH by done.
Qed.
Lemma from_le_bytes_bound l : from_le_bytes l < 256 ^ N.of_nat (length l).
Proof.
  induction l as [|b l IH]; [cbn; lia|]. cbn [length from_le_bytes].
  pose proof (N_ascii_bounded b). rewrite Nnat.Nat2N.inj_succ, N.pow_succ_r'. lia.
Qed.

Lemma i32_be_bytes_prefix_free : prefix_free is_i32 i32_be_bytes.
Proof.
  apply (fixed_prefix_free _ _ 4); [intros; apply length_be_bytes|].
  unfold is_i32, i32_min, i32_max, i32_be_bytes. intros x y Hx Hy E.
  apply be_bytes_inj in E; simpl; [lia|..]; lia.
Qed.

(** A tag injectively chosen for each value, written at a fixed width. *)
Lemma tag_prefix_free {A} (tag : A → N) (k : nat) :
  (∀ x, tag x < 256 ^ N.of_nat k) → (∀ x y, tag x = tag y → x = y) →
  prefix_free (λ _, True) (λ x, be_bytes k (tag x)).
Proof.
  intros Hb Hinj x y r s _ _ E. apply be_bytes_prefix_free in E as [E ->]; auto.
Qed.

(** Length-prefixed text, and count-prefixed sequences. *)
Definition text_bytes (s : string) : list u8 := be_bytes 8 (str_len s) ++ bytes s.

Lemma bytes_inj s t : bytes s = bytes t → s = t.
Proof.
  intros E. rewrite <- (String.string_of_list_ascii_of_string s),
    <- (String.string_of_list_ascii_of_string t).
  unfold bytes in E. by rewrite E.
Qed.

Lemma text_prefix_free : prefix_free (λ s, str_len s < 2 ^ 64) text_bytes.
Proof.
  intros x y r s Hx Hy E. unfold text_bytes in E. rewrite <- !(assoc_L (++)) in E.
  apply be_bytes_prefix_free in E as [El E]; [|done..].
  rewrite !str_len_bytes in El. apply app_inj_1 in E as [E ->]; [|by apply (inj N.of_nat)].
  split; [by apply bytes_inj|done].
Qed.

Definition seq_bytes {A} (enc : A → list u8) (l : list A) : list u8 :=
  be_bytes 8 (N.of_nat (length l)) ++ concat (enc <$> l).

Lemma concat_prefix_free {A} (P : A → Prop) enc (l m : list A) r s :
  prefix_free P enc → Forall P l → Forall P m → length l = length m →
  concat (enc <$> l) ++ r = concat (enc <$> m) ++ s → l = m ∧ r = s.
Proof.
  intros Henc Hl. revert m. induction Hl as [|x l Hx Hl IH]; intros [|y m] Hm Hlen E;
    try discriminate; [done|]. inversion Hm; subst.
  rewrite !fmap_cons in E. cbn [concat] in E. rewrite <- !(assoc_L (++)) in E.
  apply Henc in E as [-> E]; [|done..].
  apply IH in E as [-> ->]; [done|done|]. simpl in Hlen. lia.
Qed.

Lemma seq_prefix_free {A} (P : A → Prop) enc :
  prefix_free P enc →
  prefix_free (λ l, N.of_nat (length l) < 2 ^ 64 ∧ Forall P l) (seq_bytes enc).
Proof.
  intros Henc x y r s [Hx HPx] [Hy HPy] E. unfold seq_bytes in E. rewrite <- !(assoc_L (++)) in E.
  apply be_bytes_prefix_free in E as [El E]; [|done..].
  eapply concat_prefix_free in E; [exact E|done..|lia].
Qed.

(** [from_be_bytes], and [i32::from_be_bytes]. *)
Definition from_be_bytes (l : list u8) : N := from_le_bytes (rev l).
Definition i32_from_be_bytes (l : list u8) : Z :=
  let n := Z.of_N (from_be_bytes l) in if (n <? 2 ^ 31)%Z then n else (n - 2 ^ 32)%Z.

Lemma from_be_bytes_encode k n : n < 256 ^ N.of_nat k → from_be_bytes (be_bytes k n) = n.
Proof. apply from_le_bytes_encode. Qed.
Lemma be_bytes_decode l : be_bytes (length l) (from_be_bytes l) = l.
Proof.
  unfold from_be_bytes. rewrite <- (length_rev l), <- (rev_involutive (be_bytes _ _)).
  fold (le_bytes (length (rev l)) (from_le_bytes (rev l))). by rewrite le_bytes_decode, rev_involutive.
Qed.
Lemma from_be_bytes_bound l : from_be_bytes l < 256 ^ N.of_nat (length l).
Proof. rewrite <- length_rev. apply from_le_bytes_bound. Qed.

Lemma i32_from_encode z : is_i32 z → i32_from_be_bytes (i32_be_bytes z) = z.
Proof.
  unfold is_i32, i32_min, i32_max, i32_from_be_bytes, i32_be_bytes. intros Hz.
  assert (0 <= z mod 2 ^ 32 < 2 ^ 32)%Z as Hm by (apply Z.mod_pos_bound; lia).
  rewrite from_be_bytes_encode by (change (256 ^ N.of_nat 4) with 4294967296; lia). rewrite Z2N.id by lia.
  destruct (Z.ltb_spec (z mod 2 ^ 32) (2 ^ 31)); lia.
Qed.
Lemma i32_from_decode l : length l = 4%nat → i32_be_bytes (i32_from_be_bytes l) = l ∧ is_i32 (i32_from_be_bytes l).
Proof.
  intros Hl. pose proof (from_be_bytes_bound l) as Hb. pose proof (be_bytes_decode l) as Hd. rewrite Hl in *.
  change (256 ^ N.of_nat 4) with 4294967296 in Hb.
  unfold i32_be_bytes, i32_from_be_bytes, is_i32, i32_min, i32_max.
  destruct (Z.ltb_spec (Z.of_N (from_be_bytes l)) (2 ^ 31)); (split; [|lia]); rewrite <- Hd at 2; f_equal; lia.
Qed.

(** ** Readers

    A decoder that reads exactly the encodings of the values in [P] off the
    front of its input. *)
Class ExactReader {E A} (d : stM (list u8) E A) (P : A → Prop) (enc : A → list u8) : Prop :=
  exact_ok : ∀ l rest a, d l = (rest, Ok a) ↔ P a ∧ l = enc a ++ rest.
#[global] Hint Mode ExactReader - - ! - - : typeclass_instances.

Lemma exact_bind {E A B} (d : stM (list u8) E A) {P enc} `{!ExactReader d P enc} (k : A → stM (list u8) E B) l rest b :
  (d ≫= k) l = (rest, Ok b) ↔ ∃ a l', P a ∧ l = enc a ++ l' ∧ k a l' = (rest, Ok b).
Proof. rewrite stM_bind_Ok. setoid_rewrite (exact_ok (d := d)). naive_solver. Qed.
Lemma exact_run {E A B} (d : stM (list u8) E A) {P enc} `{!ExactReader d P enc} (k : A → stM (list u8) E B) a l l' :
  P a → l' = enc a ++ l → (d ≫= k) l' = k a l.
Proof.
  intros Ha ->. unfold mbind at 1, stM_bind.
  by rewrite (proj2 (exact_ok (d := d) (enc a ++ l) l a) (conj Ha eq_refl)).
Qed.

Lemma exact_inj {E A} (d : stM (list u8) E A) {P enc} `{!ExactReader d P enc} a b :
  P a → P b → enc a = enc b → a = b.
Proof.
  intros Ha Hb He. assert (∀ x, P x → d (enc x) = ([], Ok x)) as Hd.
  { intros x Hx. apply exact_ok. by rewrite app_nil_r. }
  pose proof (Hd a Ha) as E1. pose proof (Hd b Hb) as E2. congruence.
Qed.

#[global] Instance exact_repeat {E A} (d : stM (list u8) E A) P enc n :
  ExactReader d P enc → ExactReader (st_repeat n d) (λ l, length l = n ∧ Forall P l) (λ l, concat (enc <$> l)).
Proof.
  intros Hd. induction n as [|n IH]; intros l rest x; cbn [st_repeat].
  - split; [by intros [= <- <-]|]. intros [[->%nil_length_inv _] ->]. done.
  - rewrite (exact_bind d). split.
    + intros (a & l' & Ha & -> & E2). rewrite (exact_bind (st_repeat n d)) in E2.
      destruct E2 as (xs & l2 & [Hn Hf] & -> & [= <- <-]).
      rewrite fmap_cons. cbn [length concat]. rewrite <- (assoc_L (++)). split; [|done]. split; [by f_equal|by constructor].
    + intros [[Hn Hf] ->]. destruct x as [|a xs]; [done|]. inversion Hf; subst.
      exists a, (concat (enc <$> xs) ++ rest). rewrite fmap_cons. cbn [concat]. rewrite <- (assoc_L (++)).
      split_and!; [done|done|]. by rewrite (exact_run (st_repeat n d) _ xs rest) by first [done|split; [by injection Hn|done]].
Qed.

(** A value read through its tag. *)
Lemma exact_tag {E A B} (d : stM (list u8) E A) {P enc} `{!ExactReader d P enc} (f : A → result E B) (g : B → A)
    (Q : B → Prop) :
  (∀ a b, P a → f a = Ok b ↔ Q b ∧ g b = a) → (∀ b, Q b → P (g b)) →
  ExactReader (d ≫= λ a, st_lift (f a)) Q (λ b, enc (g b)).
Proof.
  intros Hf HQ l rest b. rewrite (exact_bind d). setoid_rewrite st_lift_Ok. split.
  - intros (a & l' & Ha & -> & -> & E2). by apply (Hf _ _ Ha) in E2 as [? <-].
  - intros [Hb ->]. exists (g b), rest. split_and!; [by apply HQ|done|done|]. by apply Hf; [apply HQ|].
Qed.

(** Reads one encoding off the front of an equation between byte strings. *)
Ltac read_code law :=
  match goal with
  | H : _ ++ _ = _ ++ _ |- _ => apply law in H as [? H]; [|solve [eauto using I]..]
  end.
