(* ===== verification/NetworkFilter.v ===== *)
(** * The network filter of the private profile

    memcordon-cli/src/bin/memcordon-sealed-agent/linux/network_filter.rs: the compiler
    from the private profile's system-call policy to a cBPF program, its structural
    check, the digest of the instruction words and the installation.  [bpf_run] is the
    machine that the compiler targets, restricted to the six instructions it emits; the
    policy is stated on the call's arguments, without instructions.  The constants of
    the C library are the fields of a class, since their values are not in the
    sources. *)

From S2P Require Import Prelude Decimal Bounded Codec.
From Stdlib Require Import Ascii.
#[local] Open Scope N_scope.

(** ** Instructions *)

Definition BPF_LD_W_ABS : N := 0x20.
Definition BPF_JMP_JEQ_K : N := 0x15.
Definition BPF_JMP_JSET_K : N := 0x45.
Definition BPF_JMP_JA : N := 0x05.
Definition BPF_ALU_AND_K : N := 0x54.
Definition BPF_RET_K : N := 0x06.
Definition SECCOMP_RET_KILL_PROCESS : N := 0x80000000.
Definition SECCOMP_RET_ERRNO : N := 0x00050000.
Definition SECCOMP_RET_ALLOW : N := 0x7fff0000.
Definition KERNEL_FILTER_INSTRUCTION_LIMIT : nat := 4096.

Definition NR_OFFSET : N := 0.
Definition ARCH_OFFSET : N := 4.
Definition ARG0_LOW : N := 16.
Definition ARG0_HIGH : N := 20.
Definition ARG1_LOW : N := 24.
Definition ARG1_HIGH : N := 28.
Definition ARG2_LOW : N := 32.
Definition ARG2_HIGH : N := 36.
Definition ARG3_LOW : N := 40.
Definition ARG3_HIGH : N := 44.

Record sock_filter : Type := { sf_code : N; sf_jt : N; sf_jf : N; sf_k : N }.
Definition instruction (code jt jf k : N) : sock_filter :=
  {| sf_code := code; sf_jt := jt; sf_jf := jf; sf_k := k |}.
Definition load (offset : N) : sock_filter := instruction BPF_LD_W_ABS 0 0 offset.
Definition jump_equal (value on_equal on_other : N) : sock_filter :=
  instruction BPF_JMP_JEQ_K on_equal on_other value.
Definition return_action (value : N) : sock_filter := instruction BPF_RET_K 0 0 value.
Definition errno (value : N) : N := N.lor SECCOMP_RET_ERRNO value.
(** [!mask] of a [u32]. *)
Definition not32 (mask : N) : N := N.ldiff (N.ones 32) mask.

(** ** System calls *)

Inductive NativeAbi : Type := X86_64 | Aarch64.
#[global] Instance NativeAbi_eq_dec : EqDecision NativeAbi.
Proof. solve_decision. Defined.

Record Syscalls : Type := {
  sys_socket : N; sys_socketpair : N; sys_clone : N; sys_clone3 : N; sys_fcntl : N; sys_ioctl : N;
  sys_getsockopt : N; sys_setsockopt : N; sys_prctl : N; sys_prlimit64 : N; sys_arch_prctl : option N;
  sys_accept4 : N; sys_pipe2 : N; sys_dup3 : N; sys_eventfd2 : N; sys_epoll_create1 : N;
  sys_signalfd4 : N; sys_timerfd_create : N
}.

Definition X64_UNCONDITIONAL : list (string * N) := [
  ("read", 0); ("write", 1); ("readv", 19); ("writev", 20); ("pread64", 17); ("pwrite64", 18);
  ("preadv", 295); ("pwritev", 296); ("preadv2", 327); ("pwritev2", 328); ("lseek", 8); ("close", 3);
  ("close_range", 436); ("dup", 32); ("dup2", 33); ("pipe", 22); ("sendfile", 40); ("copy_file_range", 326);
  ("splice", 275); ("tee", 276); ("vmsplice", 278); ("open", 2); ("openat", 257); ("openat2", 437);
  ("creat", 85); ("stat", 4); ("lstat", 6); ("fstat", 5); ("newfstatat", 262); ("statx", 332);
  ("statfs", 137); ("fstatfs", 138); ("access", 21); ("faccessat", 269); ("faccessat2", 439);
  ("getdents", 78); ("getdents64", 217); ("readlink", 89); ("readlinkat", 267); ("getcwd", 79);
  ("chdir", 80); ("fchdir", 81); ("mkdir", 83); ("mkdirat", 258); ("rmdir", 84); ("unlink", 87);
  ("unlinkat", 263); ("rename", 82); ("renameat", 264); ("renameat2", 316); ("link", 86); ("linkat", 265);
  ("symlink", 88); ("symlinkat", 266); ("chmod", 90); ("fchmod", 91); ("fchmodat", 268); ("fchmodat2", 452);
  ("chown", 92); ("fchown", 93); ("lchown", 94); ("fchownat", 260); ("umask", 95); ("truncate", 76);
  ("ftruncate", 77); ("fallocate", 285); ("fsync", 74); ("fdatasync", 75); ("utime", 132); ("utimes", 235);
  ("futimesat", 261); ("utimensat", 280); ("flock", 73); ("getxattr", 191); ("lgetxattr", 192);
  ("fgetxattr", 193); ("listxattr", 194); ("llistxattr", 195); ("flistxattr", 196); ("setxattr", 188);
  ("lsetxattr", 189); ("fsetxattr", 190); ("removexattr", 197); ("lremovexattr", 198); ("fremovexattr", 199);
  ("brk", 12); ("mmap", 9); ("mprotect", 10); ("munmap", 11); ("mremap", 25); ("madvise", 28);
  ("mincore", 27); ("membarrier", 324); ("msync", 26); ("futex", 202); ("futex_waitv", 449);
  ("set_robust_list", 273); ("get_robust_list", 274); ("rseq", 334); ("set_tid_address", 218);
  ("sched_yield", 24); ("sched_getaffinity", 204); ("sched_getscheduler", 145); ("sched_getparam", 143);
  ("getcpu", 309); ("restart_syscall", 219); ("clock_gettime", 228); ("clock_getres", 229);
  ("clock_nanosleep", 230); ("gettimeofday", 96); ("time", 201); ("nanosleep", 35); ("poll", 7);
  ("ppoll", 271); ("select", 23); ("pselect6", 270); ("epoll_create", 213); ("epoll_ctl", 233);
  ("epoll_wait", 232); ("epoll_pwait", 281); ("epoll_pwait2", 441); ("eventfd", 284);
  ("timerfd_settime", 286); ("timerfd_gettime", 287); ("rt_sigaction", 13); ("rt_sigprocmask", 14);
  ("rt_sigpending", 127); ("rt_sigtimedwait", 128); ("rt_sigsuspend", 130); ("rt_sigreturn", 15);
  ("sigaltstack", 131); ("kill", 62); ("tkill", 200); ("tgkill", 234); ("rt_sigqueueinfo", 129);
  ("rt_tgsigqueueinfo", 297); ("signalfd", 282); ("alarm", 37); ("getitimer", 36); ("setitimer", 38);
  ("pause", 34); ("getpid", 39); ("getppid", 110); ("gettid", 186); ("getuid", 102); ("geteuid", 107);
  ("getgid", 104); ("getegid", 108); ("getresuid", 118); ("getresgid", 120); ("getgroups", 115);
  ("capget", 125); ("getpgid", 121); ("getpgrp", 111); ("getsid", 124); ("getrlimit", 97); ("getrusage", 98);
  ("uname", 63); ("sysinfo", 99); ("getrandom", 318); ("fork", 57); ("vfork", 58); ("execve", 59);
  ("execveat", 322); ("wait4", 61); ("waitid", 247); ("exit", 60); ("exit_group", 231); ("setpgid", 109);
  ("setsid", 112); ("bind", 49); ("listen", 50); ("accept", 43); ("connect", 42); ("getsockname", 51);
  ("getpeername", 52); ("shutdown", 48); ("sendto", 44); ("recvfrom", 45)
]%string.

Definition ARM64_UNCONDITIONAL : list (string * N) := [
  ("read", 63); ("write", 64); ("readv", 65); ("writev", 66); ("pread64", 67); ("pwrite64", 68);
  ("preadv", 69); ("pwritev", 70); ("preadv2", 286); ("pwritev2", 287); ("lseek", 62); ("close", 57);
  ("close_range", 436); ("dup", 23); ("sendfile", 71); ("copy_file_range", 285); ("splice", 76); ("tee", 77);
  ("vmsplice", 75); ("openat", 56); ("openat2", 437); ("fstat", 80); ("newfstatat", 79); ("statx", 291);
  ("statfs", 43); ("fstatfs", 44); ("faccessat", 48); ("faccessat2", 439); ("getdents64", 61);
  ("readlinkat", 78); ("getcwd", 17); ("chdir", 49); ("fchdir", 50); ("mkdirat", 34); ("unlinkat", 35);
  ("renameat", 38); ("renameat2", 276); ("linkat", 37); ("symlinkat", 36); ("fchmod", 52); ("fchmodat", 53);
  ("fchmodat2", 452); ("fchown", 55); ("fchownat", 54); ("umask", 166); ("truncate", 45); ("ftruncate", 46);
  ("fallocate", 47); ("fsync", 82); ("fdatasync", 83); ("utimensat", 88); ("flock", 32); ("getxattr", 8);
  ("lgetxattr", 9); ("fgetxattr", 10); ("listxattr", 11); ("llistxattr", 12); ("flistxattr", 13);
  ("setxattr", 5); ("lsetxattr", 6); ("fsetxattr", 7); ("removexattr", 14); ("lremovexattr", 15);
  ("fremovexattr", 16); ("brk", 214); ("mmap", 222); ("mprotect", 226); ("munmap", 215); ("mremap", 216);
  ("madvise", 233); ("mincore", 232); ("membarrier", 283); ("msync", 227); ("futex", 98);
  ("futex_waitv", 449); ("set_robust_list", 99); ("get_robust_list", 100); ("rseq", 293);
  ("set_tid_address", 96); ("sched_yield", 124); ("sched_getaffinity", 123); ("sched_getscheduler", 120);
  ("sched_getparam", 121); ("getcpu", 168); ("restart_syscall", 128); ("clock_gettime", 113);
  ("clock_getres", 114); ("clock_nanosleep", 115); ("gettimeofday", 169); ("nanosleep", 101); ("ppoll", 73);
  ("pselect6", 72); ("epoll_ctl", 21); ("epoll_pwait", 22); ("epoll_pwait2", 441); ("timerfd_settime", 86);
  ("timerfd_gettime", 87); ("rt_sigaction", 134); ("rt_sigprocmask", 135); ("rt_sigpending", 136);
  ("rt_sigtimedwait", 137); ("rt_sigsuspend", 133); ("rt_sigreturn", 139); ("sigaltstack", 132);
  ("kill", 129); ("tkill", 130); ("tgkill", 131); ("rt_sigqueueinfo", 138); ("rt_tgsigqueueinfo", 240);
  ("getitimer", 102); ("setitimer", 103); ("getpid", 172); ("getppid", 173); ("gettid", 178);
  ("getuid", 174); ("geteuid", 175); ("getgid", 176); ("getegid", 177); ("getresuid", 148);
  ("getresgid", 150); ("getgroups", 158); ("capget", 90); ("getpgid", 155); ("getsid", 156);
  ("getrlimit", 163); ("getrusage", 165); ("uname", 160); ("sysinfo", 179); ("getrandom", 278);
  ("execve", 221); ("execveat", 281); ("wait4", 260); ("waitid", 95); ("exit", 93); ("exit_group", 94);
  ("setpgid", 154); ("setsid", 157); ("bind", 200); ("listen", 201); ("accept", 202); ("connect", 203);
  ("getsockname", 204); ("getpeername", 205); ("shutdown", 210); ("sendto", 206); ("recvfrom", 207)
]%string.

Definition unconditional_catalogue (abi : NativeAbi) : list (string * N) :=
  match abi with X86_64 => X64_UNCONDITIONAL | Aarch64 => ARM64_UNCONDITIONAL end.
Definition audit_arch (abi : NativeAbi) : N :=
  match abi with X86_64 => 0xc000003e | Aarch64 => 0xc00000b7 end.
Definition syscalls (abi : NativeAbi) : Syscalls :=
  match abi with
  | X86_64 =>
      {| sys_socket := 41; sys_socketpair := 53; sys_clone := 56; sys_clone3 := 435; sys_fcntl := 72;
         sys_ioctl := 16; sys_getsockopt := 55; sys_setsockopt := 54; sys_prctl := 157;
         sys_prlimit64 := 302; sys_arch_prctl := Some 158; sys_accept4 := 288; sys_pipe2 := 293;
         sys_dup3 := 292; sys_eventfd2 := 290; sys_epoll_create1 := 291; sys_signalfd4 := 289;
         sys_timerfd_create := 283 |}
  | Aarch64 =>
      {| sys_socket := 198; sys_socketpair := 199; sys_clone := 220; sys_clone3 := 435; sys_fcntl := 25;
         sys_ioctl := 29; sys_getsockopt := 209; sys_setsockopt := 208; sys_prctl := 167;
         sys_prlimit64 := 261; sys_arch_prctl := None; sys_accept4 := 242; sys_pipe2 := 59;
         sys_dup3 := 24; sys_eventfd2 := 19; sys_epoll_create1 := 20; sys_signalfd4 := 74;
         sys_timerfd_create := 85 |}
  end.

(** ** Constants of the C library *)

Class Libc : Type := {
  ENOSYS : N; EPERM : N; EAFNOSUPPORT : N; EPROTONOSUPPORT : N;
  AF_INET : N; SOCK_STREAM : N; SOCK_NONBLOCK : N; SOCK_CLOEXEC : N; IPPROTO_TCP : N; SOL_SOCKET : N;
  CLONE_VM : N; CLONE_FS : N; CLONE_FILES : N; CLONE_SIGHAND : N; CLONE_THREAD : N; CLONE_SYSVSEM : N;
  CLONE_SETTLS : N; CLONE_PARENT_SETTID : N; CLONE_CHILD_SETTID : N; CLONE_CHILD_CLEARTID : N;
  CLONE_VFORK : N; SIGCHLD : N;
  F_GETFD : N; F_GETFL : N; F_GET_SEALS : N; F_DUPFD : N; F_DUPFD_CLOEXEC : N; F_GETLK : N; F_SETLK : N;
  F_SETLKW : N; F_OFD_GETLK : N; F_OFD_SETLK : N; F_OFD_SETLKW : N; F_SETFD : N; F_SETFL : N;
  FD_CLOEXEC : N; O_ACCMODE : N; O_APPEND : N; O_NONBLOCK : N; O_LARGEFILE : N; O_CLOEXEC : N;
  FIONBIO : N; FIONREAD : N; TCGETS : N; TIOCGWINSZ : N;
  SO_REUSEADDR : N; SO_KEEPALIVE : N; SO_RCVBUF : N; SO_SNDBUF : N; SO_RCVTIMEO : N; SO_SNDTIMEO : N;
  SO_LINGER : N; SO_ERROR : N; SO_TYPE : N; SO_DOMAIN : N; SO_PROTOCOL : N; SO_ACCEPTCONN : N;
  TCP_NODELAY : N; TCP_KEEPIDLE : N; TCP_KEEPINTVL : N; TCP_KEEPCNT : N;
  EFD_CLOEXEC : N; EFD_NONBLOCK : N; EPOLL_CLOEXEC : N; SFD_CLOEXEC : N; SFD_NONBLOCK : N;
  TFD_CLOEXEC : N; TFD_NONBLOCK : N;
  PR_GET_NO_NEW_PRIVS : N; PR_GET_DUMPABLE : N; PR_GET_NAME : N; PR_SET_NAME : N; PR_GET_SECCOMP : N;
  PR_GET_SECUREBITS : N; PR_GET_TIMERSLACK : N; SECCOMP_MODE_FILTER : Z
}.

Section Compiler.
Context `{Libc}.

Definition mask (bits : list N) : N := foldr N.lor 0 bits.

(** ** Argument checks *)

Definition socket_flags : N := mask [SOCK_STREAM; SOCK_NONBLOCK; SOCK_CLOEXEC].
Definition socket_checks : list sock_filter :=
  let family_error := errno EAFNOSUPPORT in
  let protocol_error := errno EPROTONOSUPPORT in
  [load ARG0_HIGH;
   jump_equal 0 1 0;
   return_action family_error;
   load ARG0_LOW;
   jump_equal AF_INET 1 0;
   return_action family_error;
   load ARG1_HIGH;
   jump_equal 0 1 0;
   return_action protocol_error;
   load ARG1_LOW;
   instruction BPF_JMP_JSET_K 0 1 (not32 socket_flags);
   return_action protocol_error;
   instruction BPF_ALU_AND_K 0 0 0xf;
   jump_equal SOCK_STREAM 1 0;
   return_action protocol_error;
   load ARG2_HIGH;
   jump_equal 0 1 0;
   return_action protocol_error;
   load ARG2_LOW;
   jump_equal 0 2 0;
   jump_equal IPPROTO_TCP 1 0;
   return_action protocol_error;
   return_action SECCOMP_RET_ALLOW].

Definition allowed_flags : N :=
  mask [CLONE_VM; CLONE_FS; CLONE_FILES; CLONE_SIGHAND; CLONE_THREAD; CLONE_SYSVSEM; CLONE_SETTLS;
        CLONE_PARENT_SETTID; CLONE_CHILD_SETTID; CLONE_CHILD_CLEARTID; CLONE_VFORK].
Definition required_thread_flags : N := N.lor CLONE_VM CLONE_SIGHAND.
Definition clone_checks : list sock_filter :=
  let denied := errno EPERM in
  [load ARG0_HIGH;
   jump_equal 0 1 0;
   return_action denied;
   load ARG0_LOW;
   instruction BPF_JMP_JSET_K 0 1 (not32 (N.lor allowed_flags 0xff));
   return_action denied;
   load ARG0_LOW;
   instruction BPF_ALU_AND_K 0 0 0xff;
   jump_equal 0 2 0;
   jump_equal SIGCHLD 1 0;
   return_action denied;
   load ARG0_LOW;
   instruction BPF_JMP_JSET_K 0 8 CLONE_THREAD;
   load ARG0_LOW;
   instruction BPF_ALU_AND_K 0 0 required_thread_flags;
   jump_equal required_thread_flags 1 0;
   return_action denied;
   load ARG0_LOW;
   instruction BPF_ALU_AND_K 0 0 0xff;
   jump_equal 0 1 0;
   return_action denied;
   return_action SECCOMP_RET_ALLOW].

(** [for command in commands { push(jump_equal(command, 0, 1)); push(return_action(ALLOW)) }] *)
Definition allow_commands (commands : list N) : list sock_filter :=
  flat_map (λ command, [jump_equal command 0 1; return_action SECCOMP_RET_ALLOW]) commands.
(** A rule block behind its selector; the block lengths are fixed and fit. *)
Definition select_block (value : N) (checks : list sock_filter) (reload : N) : list sock_filter :=
  [jump_equal value 1 0; instruction BPF_JMP_JA 0 0 (N.of_nat (length checks))] ++ checks ++ [load reload].

Definition fcntl_commands : list N :=
  [F_GETFD; F_GETFL; F_GET_SEALS; F_DUPFD; F_DUPFD_CLOEXEC; F_GETLK; F_SETLK; F_SETLKW; F_OFD_GETLK;
   F_OFD_SETLK; F_OFD_SETLKW].
Definition setfl_bits : N := mask [O_ACCMODE; O_APPEND; O_NONBLOCK; O_LARGEFILE].
Definition fcntl_argument_checks (allowed_argument_bits : N) : list sock_filter :=
  let denied := errno EPERM in
  [load ARG2_HIGH;
   jump_equal 0 1 0;
   return_action denied;
   load ARG2_LOW;
   instruction BPF_JMP_JSET_K 0 1 (not32 allowed_argument_bits);
   return_action denied;
   return_action SECCOMP_RET_ALLOW].
Definition fcntl_checks : list sock_filter :=
  let denied := errno EPERM in
  [load ARG1_HIGH; jump_equal 0 1 0; return_action denied; load ARG1_LOW]
  ++ allow_commands fcntl_commands
  ++ flat_map (λ '(command, bits), select_block command (fcntl_argument_checks bits) ARG1_LOW)
       [(F_SETFD, FD_CLOEXEC); (F_SETFL, setfl_bits)]
  ++ [return_action denied].

Definition ioctl_commands : list N := [FIONBIO; FIONREAD; TCGETS; TIOCGWINSZ].
Definition ioctl_checks : list sock_filter :=
  let denied := errno EPERM in
  [load ARG1_HIGH; jump_equal 0 1 0; return_action denied; load ARG1_LOW]
  ++ allow_commands ioctl_commands ++ [return_action denied].

Definition socket_options (read : bool) : list N :=
  [SO_REUSEADDR; SO_KEEPALIVE; SO_RCVBUF; SO_SNDBUF; SO_RCVTIMEO; SO_SNDTIMEO; SO_LINGER]
  ++ (if read then [SO_ERROR; SO_TYPE; SO_DOMAIN; SO_PROTOCOL; SO_ACCEPTCONN] else []).
Definition tcp_options : list N := [TCP_NODELAY; TCP_KEEPIDLE; TCP_KEEPINTVL; TCP_KEEPCNT].
Definition options_checks (options : list N) : list sock_filter :=
  [load ARG2_LOW] ++ allow_commands options ++ [return_action (errno EPERM)].
Definition socket_option_checks (read : bool) : list sock_filter :=
  let denied := errno EPERM in
  [load ARG1_HIGH; jump_equal 0 1 0; return_action denied;
   load ARG2_HIGH; jump_equal 0 1 0; return_action denied; load ARG1_LOW]
  ++ flat_map (λ '(level, options), select_block level (options_checks options) ARG1_LOW)
       [(SOL_SOCKET, socket_options read); (IPPROTO_TCP, tcp_options)]
  ++ [return_action denied].

Definition first_argument_zero_checks : list sock_filter :=
  let denied := errno EPERM in
  [load ARG0_HIGH; jump_equal 0 1 0; return_action denied;
   load ARG0_LOW; jump_equal 0 1 0; return_action denied; return_action SECCOMP_RET_ALLOW].

Definition first_argument_command_checks (commands : list N) : list sock_filter :=
  let denied := errno EPERM in
  [load ARG0_HIGH; jump_equal 0 1 0; return_action denied; load ARG0_LOW]
  ++ allow_commands commands ++ [return_action denied].
Definition prctl_commands : list N :=
  [PR_GET_NO_NEW_PRIVS; PR_GET_DUMPABLE; PR_GET_NAME; PR_SET_NAME; PR_GET_SECCOMP; PR_GET_SECUREBITS;
   PR_GET_TIMERSLACK].
Definition prctl_checks : list sock_filter := first_argument_command_checks prctl_commands.
(** [ARCH_SET_FS] and [ARCH_GET_FS] *)
Definition arch_prctl_commands : list N := [0x1002; 0x1003].
Definition arch_prctl_checks : list sock_filter := first_argument_command_checks arch_prctl_commands.

Definition scalar_flags_checks (low_offset high_offset allowed_bits : N) : list sock_filter :=
  let denied := errno EPERM in
  [load high_offset;
   jump_equal 0 1 0;
   return_action denied;
   load low_offset;
   instruction BPF_JMP_JSET_K 0 1 (not32 allowed_bits);
   return_action denied;
   return_action SECCOMP_RET_ALLOW].

(** ** The program *)

(** The scalar rules in the order of the program. *)
Definition scalar_rules (numbers : Syscalls) : list (N * list sock_filter) :=
  [(sys_fcntl numbers, fcntl_checks);
   (sys_ioctl numbers, ioctl_checks);
   (sys_getsockopt numbers, socket_option_checks true);
   (sys_setsockopt numbers, socket_option_checks false);
   (sys_prctl numbers, prctl_checks);
   (sys_prlimit64 numbers, first_argument_zero_checks);
   (sys_accept4 numbers, scalar_flags_checks ARG3_LOW ARG3_HIGH (N.lor SOCK_CLOEXEC SOCK_NONBLOCK));
   (sys_pipe2 numbers, scalar_flags_checks ARG1_LOW ARG1_HIGH (N.lor O_CLOEXEC O_NONBLOCK));
   (sys_dup3 numbers, scalar_flags_checks ARG2_LOW ARG2_HIGH O_CLOEXEC);
   (sys_eventfd2 numbers, scalar_flags_checks ARG1_LOW ARG1_HIGH (N.lor EFD_CLOEXEC EFD_NONBLOCK));
   (sys_epoll_create1 numbers, scalar_flags_checks ARG0_LOW ARG0_HIGH EPOLL_CLOEXEC);
   (sys_signalfd4 numbers, scalar_flags_checks ARG3_LOW ARG3_HIGH (N.lor SFD_CLOEXEC SFD_NONBLOCK));
   (sys_timerfd_create numbers, scalar_flags_checks ARG1_LOW ARG1_HIGH (N.lor TFD_CLOEXEC TFD_NONBLOCK))].

Definition initial_closed_program (abi : NativeAbi) : list sock_filter :=
  let numbers := syscalls abi in
  [load ARCH_OFFSET; jump_equal (audit_arch abi) 1 0; return_action SECCOMP_RET_KILL_PROCESS; load NR_OFFSET]
  ++ (if abi ≟ X86_64
      then [instruction BPF_JMP_JSET_K 0 1 0x40000000; return_action SECCOMP_RET_KILL_PROCESS] else [])
  ++ flat_map (λ '(number, result), [jump_equal number 0 1; return_action result])
       [(sys_clone3 numbers, errno ENOSYS); (sys_socketpair numbers, errno EPERM)]
  ++ select_block (sys_clone numbers) clone_checks NR_OFFSET
  ++ flat_map (λ '(number, checks), select_block number checks NR_OFFSET) (scalar_rules numbers)
  ++ match sys_arch_prctl numbers with
     | Some number => select_block number arch_prctl_checks NR_OFFSET
     | None => []
     end
  ++ select_block (sys_socket numbers) socket_checks NR_OFFSET
  ++ flat_map (λ '(_, number), [jump_equal number 0 1; return_action SECCOMP_RET_ALLOW])
       (unconditional_catalogue abi)
  ++ [return_action (errno EPERM)].

Definition check_target (position : nat) (delta : N) (length : nat) : result string () :=
  guard_err (negb (position + 1 + N.to_nat delta <? length)%nat) "cBPF jump escapes instruction array"%string.
Definition validate_instruction (position length : nat) (i : sock_filter) : result string () :=
  if sf_code i =? BPF_RET_K then Ok ()
  else if (sf_code i =? BPF_LD_W_ABS) || (sf_code i =? BPF_ALU_AND_K) then check_target position 0 length
  else if (sf_code i =? BPF_JMP_JEQ_K) || (sf_code i =? BPF_JMP_JSET_K) then
    check_target position (sf_jt i) length ;; check_target position (sf_jf i) length
  else if sf_code i =? BPF_JMP_JA then check_target position (sf_k i) length
  else Err "unknown cBPF instruction"%string.
Fixpoint validate_from (position length : nat) (program : list sock_filter) : result string () :=
  match program with
  | [] => Ok ()
  | i :: program => validate_instruction position length i ;; validate_from (S position) length program
  end.
Definition validate_program (program : list sock_filter) : result string () :=
  guard_err ((length program =? 0)%nat || (KERNEL_FILTER_INSTRUCTION_LIMIT <? length program)%nat)
    "invalid cBPF instruction count"%string ;;
  validate_from 0 (length program) program.

(** The program is checked before it is returned; [None] would be the panic of a
    failed check. *)
Definition compile_initial_closed_filter (abi : NativeAbi) : option (list sock_filter) :=
  match validate_program (initial_closed_program abi) with
  | Ok _ => Some (initial_closed_program abi)
  | Err _ => None
  end.
End Compiler.

(** ** The machine *)

(** What a filter reads: the call number, the architecture, the instruction
    pointer and the six argument registers. *)
Record seccomp_data : Type := {
  call_nr : N; call_arch : N; call_ip : N;
  call_a0 : N; call_a1 : N; call_a2 : N; call_a3 : N; call_a4 : N; call_a5 : N
}.
Definition low (x : N) : N := x mod 2 ^ 32.
Definition high (x : N) : N := x / 2 ^ 32.
(** The words of the little-endian layout. *)
Definition word (d : seccomp_data) (offset : N) : option N :=
  match offset with
  | 0 => Some (call_nr d) | 4 => Some (call_arch d)
  | 8 => Some (low (call_ip d)) | 12 => Some (high (call_ip d))
  | 16 => Some (low (call_a0 d)) | 20 => Some (high (call_a0 d))
  | 24 => Some (low (call_a1 d)) | 28 => Some (high (call_a1 d))
  | 32 => Some (low (call_a2 d)) | 36 => Some (high (call_a2 d))
  | 40 => Some (low (call_a3 d)) | 44 => Some (high (call_a3 d))
  | 48 => Some (low (call_a4 d)) | 52 => Some (high (call_a4 d))
  | 56 => Some (low (call_a5 d)) | 60 => Some (high (call_a5 d))
  | _ => None
  end.

(** What one instruction does: return an action, or skip instructions with a new
    accumulator. *)
Inductive effect : Type := Return (action : N) | Skip (count : nat) (acc : N) | Fault.
Definition perform (d : seccomp_data) (i : sock_filter) (acc : N) : effect :=
  if sf_code i =? BPF_RET_K then Return (sf_k i)
  else if sf_code i =? BPF_LD_W_ABS then
    match word d (sf_k i) with Some v => Skip 0 v | None => Fault end
  else if sf_code i =? BPF_ALU_AND_K then Skip 0 (N.land acc (sf_k i))
  else if sf_code i =? BPF_JMP_JEQ_K then
    Skip (N.to_nat (if acc =? sf_k i then sf_jt i else sf_jf i)) acc
  else if sf_code i =? BPF_JMP_JSET_K then
    Skip (N.to_nat (if N.land acc (sf_k i) =? 0 then sf_jf i else sf_jt i)) acc
  else if sf_code i =? BPF_JMP_JA then Skip (N.to_nat (sf_k i)) acc
  else Fault.

(** A run from [pc], for at most [fuel] instructions. *)
Fixpoint bpf_run (fuel : nat) (program : list sock_filter) (pc : nat) (acc : N) (d : seccomp_data)
    : option N :=
  match fuel with
  | O => None
  | S fuel =>
      i ← program !! pc;
      match perform d i acc with
      | Return action => Some action
      | Skip count acc => bpf_run fuel program (pc + 1 + count) acc d
      | Fault => None
      end
  end.
(** The whole filter on one call; it starts with an empty accumulator. *)
Definition filter_call (program : list sock_filter) (d : seccomp_data) : option N :=
  bpf_run (length program) program 0 0 d.

(** ** Running what is left of a program *)

Section Suffix.
Context (d : seccomp_data).

Fixpoint exec (fuel : nat) (rest : list sock_filter) (acc : N) : option N :=
  match fuel, rest with
  | S fuel, i :: rest =>
      match perform d i acc with
      | Return action => Some action
      | Skip count acc => exec fuel (drop count rest) acc
      | Fault => None
      end
  | _, _ => None
  end.
Definition run (rest : list sock_filter) (acc : N) : option N := exec (length rest) rest acc.

Lemma bpf_run_exec fuel program : ∀ pc acc, bpf_run fuel program pc acc d = exec fuel (drop pc program) acc.
Proof.
  induction fuel as [|fuel IH]; intros pc acc; [done|]. cbn [bpf_run].
  destruct (program !! pc) as [i|] eqn:Ei; cbn.
  - rewrite (drop_S _ _ _ Ei). cbn [exec]. destruct (perform d i acc); [done| |done].
    rewrite IH, drop_drop. f_equal. f_equal. lia.
  - by rewrite drop_ge by (by apply lookup_ge_None).
Qed.

(** No instruction goes back, so as many steps as instructions are enough. *)
Lemma exec_fuel f1 f2 : ∀ rest acc, (length rest <= f1)%nat → (length rest <= f2)%nat →
  exec f1 rest acc = exec f2 rest acc.
Proof.
  revert f2. induction f1 as [|f1 IH]; intros f2 [|i rest] acc H1 H2; cbn in *; try lia; [by destruct f2..|].
  destruct f2 as [|f2]; [lia|]. cbn. destruct (perform d i acc); try done.
  apply IH; rewrite length_drop; lia.
Qed.

Lemma run_cons i rest acc :
  run (i :: rest) acc =
  match perform d i acc with
  | Return action => Some action
  | Skip count acc => run (drop count rest) acc
  | Fault => None
  end.
Proof.
  unfold run. cbn [length exec]. destruct (perform d i acc) as [|count acc'|]; try done.
  apply exec_fuel; rewrite ?length_drop; lia.
Qed.

Lemma filter_call_run program : filter_call program d = run program 0.
Proof. unfold filter_call. by rewrite bpf_run_exec. Qed.

(** A part that returns does not see what follows it. *)
Lemma run_app p q : ∀ acc r, run p acc = Some r → run (p ++ q) acc = Some r.
Proof.
  induction p as [p IH] using (induction_ltof1 _ (@length sock_filter)). intros acc r.
  destruct p as [|i p]; [done|]. cbn [app]. rewrite !run_cons.
  destruct (perform d i acc) as [|count acc'|]; try done. intros Hr.
  destruct (decide (count <= length p)%nat) as [Hle|Hgt].
  - rewrite drop_app_le by done. apply IH; [|done]. unfold ltof. cbn. rewrite length_drop. lia.
  - rewrite drop_ge in Hr by lia. done.
Qed.

Lemma run_load offset rest acc v : word d offset = Some v → run (load offset :: rest) acc = run rest v.
Proof. intros E. rewrite run_cons. cbn -[word drop]. by rewrite E. Qed.
Lemma run_return action rest acc : run (return_action action :: rest) acc = Some action.
Proof. by rewrite run_cons. Qed.
Lemma run_jump_equal value t f rest acc :
  run (jump_equal value t f :: rest) acc = run (drop (N.to_nat (if acc =? value then t else f)) rest) acc.
Proof. by rewrite run_cons. Qed.
Lemma run_jset t f bits rest acc :
  run (instruction BPF_JMP_JSET_K t f bits :: rest) acc =
  run (drop (N.to_nat (if N.land acc bits =? 0 then f else t)) rest) acc.
Proof. by rewrite run_cons. Qed.
Lemma run_and bits rest acc :
  run (instruction BPF_ALU_AND_K 0 0 bits :: rest) acc = run rest (N.land acc bits).
Proof. by rewrite run_cons. Qed.
Lemma run_ja count rest acc :
  run (instruction BPF_JMP_JA 0 0 count :: rest) acc = run (drop (N.to_nat count) rest) acc.
Proof. by rewrite run_cons. Qed.

(** [jump_equal(number, 0, 1); return_action(result)] *)
Lemma run_entry number result rest acc :
  run (jump_equal number 0 1 :: return_action result :: rest) acc =
  if acc =? number then Some result else run rest acc.
Proof. rewrite run_jump_equal. destruct (acc =? number); [apply run_return|done]. Qed.

Lemma run_entries {A} (number : A → N) result (l : list A) rest acc :
  run (flat_map (λ x, [jump_equal (number x) 0 1; return_action result]) l ++ rest) acc =
  if existsb (λ x, acc =? number x) l then Some result else run rest acc.
Proof.
  induction l as [|x l IH]; [done|]. cbn [flat_map existsb app]. rewrite run_entry, IH.
  by destruct (acc =? number x).
Qed.

Lemma run_select value checks reload rest acc r :
  word d reload = Some acc → run checks acc = Some r →
  run (select_block value checks reload ++ rest) acc = if acc =? value then Some r else run rest acc.
Proof.
  intros Hw Hr. unfold select_block. rewrite <- !(assoc_L (++)). cbn [app]. rewrite run_jump_equal.
  destruct (acc =? value).
  - by apply run_app.
  - change (drop _ _) with
      (instruction BPF_JMP_JA 0 0 (N.of_nat (length checks)) :: checks ++ [load reload] ++ rest).
    rewrite run_ja, Nat2N.id, drop_app_length. by apply run_load.
Qed.
End Suffix.

(** ** The policy *)

(** What the documentation of the C library and of the kernel guarantees about the
    constants: they are 32-bit values and error numbers are small. *)
Definition libc_constants `{Libc} : list N :=
  [ENOSYS; EPERM; EAFNOSUPPORT; EPROTONOSUPPORT; AF_INET; SOCK_STREAM; SOCK_NONBLOCK; SOCK_CLOEXEC;
   IPPROTO_TCP; SOL_SOCKET; CLONE_VM; CLONE_FS; CLONE_FILES; CLONE_SIGHAND; CLONE_THREAD; CLONE_SYSVSEM;
   CLONE_SETTLS; CLONE_PARENT_SETTID; CLONE_CHILD_SETTID; CLONE_CHILD_CLEARTID; CLONE_VFORK; SIGCHLD;
   F_GETFD; F_GETFL; F_GET_SEALS; F_DUPFD; F_DUPFD_CLOEXEC; F_GETLK; F_SETLK; F_SETLKW; F_OFD_GETLK;
   F_OFD_SETLK; F_OFD_SETLKW; F_SETFD; F_SETFL; FD_CLOEXEC; O_ACCMODE; O_APPEND; O_NONBLOCK; O_LARGEFILE;
   O_CLOEXEC; FIONBIO; FIONREAD; TCGETS; TIOCGWINSZ; SO_REUSEADDR; SO_KEEPALIVE; SO_RCVBUF; SO_SNDBUF;
   SO_RCVTIMEO; SO_SNDTIMEO; SO_LINGER; SO_ERROR; SO_TYPE; SO_DOMAIN; SO_PROTOCOL; SO_ACCEPTCONN;
   TCP_NODELAY; TCP_KEEPIDLE; TCP_KEEPINTVL; TCP_KEEPCNT; EFD_CLOEXEC; EFD_NONBLOCK; EPOLL_CLOEXEC;
   SFD_CLOEXEC; SFD_NONBLOCK; TFD_CLOEXEC; TFD_NONBLOCK; PR_GET_NO_NEW_PRIVS; PR_GET_DUMPABLE;
   PR_GET_NAME; PR_SET_NAME; PR_GET_SECCOMP; PR_GET_SECUREBITS; PR_GET_TIMERSLACK].
Record libc_lawful `{Libc} : Prop := {
  ll_u32 : Forall (λ c, c < 2 ^ 32) libc_constants;
  ll_errno : Forall (λ e, e < 2 ^ 16) [ENOSYS; EPERM; EAFNOSUPPORT; EPROTONOSUPPORT]
}.

Section Policy.
Context `{Libc}.

(** Every bit of [x] is one of [bits]. *)
Definition subset (x bits : N) : bool := N.ldiff x bits =? 0.
Definition verdict (allowed : bool) : N := if allowed then SECCOMP_RET_ALLOW else errno EPERM.
Definition among (x : N) (l : list N) : bool := existsb (N.eqb x) l.

Definition clone_allowed (flags : N) : bool :=
  subset flags (N.lor allowed_flags 0xff)
  && ((N.land flags 0xff =? 0) || (N.land flags 0xff =? SIGCHLD))
  && ((N.land flags CLONE_THREAD =? 0)
      || ((N.land flags required_thread_flags =? required_thread_flags) && (N.land flags 0xff =? 0))).
Definition fcntl_allowed (command argument : N) : bool :=
  among command fcntl_commands
  || (if command =? F_SETFD then subset argument FD_CLOEXEC
      else if command =? F_SETFL then subset argument setfl_bits else false).
Definition socket_option_allowed (read : bool) (level option : N) : bool :=
  if level =? SOL_SOCKET then among option (socket_options read)
  else if level =? IPPROTO_TCP then among option tcp_options else false.
Definition socket_type_allowed (type protocol : N) : bool :=
  subset type socket_flags && (N.land type 0xf =? SOCK_STREAM)
  && ((protocol =? 0) || (protocol =? IPPROTO_TCP)).
Definition socket_verdict (family type protocol : N) : N :=
  if negb (family =? AF_INET) then errno EAFNOSUPPORT
  else if socket_type_allowed type protocol then SECCOMP_RET_ALLOW else errno EPROTONOSUPPORT.

(** The calls whose arguments are checked, with what is decided about them. *)
Definition scalar_verdicts (numbers : Syscalls) (d : seccomp_data) : list (N * N) :=
  [(sys_fcntl numbers, verdict (fcntl_allowed (call_a1 d) (call_a2 d)));
   (sys_ioctl numbers, verdict (among (call_a1 d) ioctl_commands));
   (sys_getsockopt numbers, verdict (socket_option_allowed true (call_a1 d) (call_a2 d)));
   (sys_setsockopt numbers, verdict (socket_option_allowed false (call_a1 d) (call_a2 d)));
   (sys_prctl numbers, verdict (among (call_a0 d) prctl_commands));
   (sys_prlimit64 numbers, verdict (call_a0 d =? 0));
   (sys_accept4 numbers, verdict (subset (call_a3 d) (N.lor SOCK_CLOEXEC SOCK_NONBLOCK)));
   (sys_pipe2 numbers, verdict (subset (call_a1 d) (N.lor O_CLOEXEC O_NONBLOCK)));
   (sys_dup3 numbers, verdict (subset (call_a2 d) O_CLOEXEC));
   (sys_eventfd2 numbers, verdict (subset (call_a1 d) (N.lor EFD_CLOEXEC EFD_NONBLOCK)));
   (sys_epoll_create1 numbers, verdict (subset (call_a0 d) EPOLL_CLOEXEC));
   (sys_signalfd4 numbers, verdict (subset (call_a3 d) (N.lor SFD_CLOEXEC SFD_NONBLOCK)));
   (sys_timerfd_create numbers, verdict (subset (call_a1 d) (N.lor TFD_CLOEXEC TFD_NONBLOCK)))].
Fixpoint first_match (nr : N) (verdicts : list (N * N)) : option N :=
  match verdicts with
  | [] => None
  | (number, action) :: verdicts => if nr =? number then Some action else first_match nr verdicts
  end.

(** Every call with a rule of its own, in the order of the rules. *)
Definition ruled_verdicts (abi : NativeAbi) (d : seccomp_data) : list (N * N) :=
  let numbers := syscalls abi in
  [(sys_clone3 numbers, errno ENOSYS); (sys_socketpair numbers, errno EPERM);
   (sys_clone numbers, verdict (clone_allowed (call_a0 d)))]
  ++ scalar_verdicts numbers d
  ++ match sys_arch_prctl numbers with
     | Some number => [(number, verdict (among (call_a0 d) arch_prctl_commands))]
     | None => []
     end
  ++ [(sys_socket numbers, socket_verdict (call_a0 d) (call_a1 d) (call_a2 d))].

(** The private profile: foreign architectures and the x32 numbers kill the
    process, calls with a rule are decided by it, the catalogue is allowed and
    everything else is refused. *)
Definition private_policy (abi : NativeAbi) (d : seccomp_data) : N :=
  if negb (call_arch d =? audit_arch abi) then SECCOMP_RET_KILL_PROCESS
  else if (abi ≟ X86_64) && N.testbit (call_nr d) 30 then SECCOMP_RET_KILL_PROCESS
  else match first_match (call_nr d) (ruled_verdicts abi d) with
  | Some action => action
  | None => verdict (among (call_nr d) (snd <$> unconditional_catalogue abi))
  end.
End Policy.

(** ** Words and bits *)

Lemma high_zero x : (high x =? 0) = (x <? 2 ^ 32).
Proof.
  apply eq_true_iff_eq. rewrite N.eqb_eq, N.ltb_lt. unfold high. rewrite N.div_small_iff by done. done.
Qed.
Lemma low_small x : x < 2 ^ 32 → low x = x.
Proof. apply N.mod_small. Qed.
Lemma lt_pow2_shiftr x n : x < 2 ^ n ↔ N.shiftr x n = 0.
Proof. by rewrite N.shiftr_div_pow2, N.div_small_iff by (apply N.pow_nonzero; done). Qed.
Lemma lor_bound x y n : x < 2 ^ n → y < 2 ^ n → N.lor x y < 2 ^ n.
Proof. rewrite !lt_pow2_shiftr, N.shiftr_lor. by intros -> ->. Qed.
Lemma mask_bound l n : Forall (λ c, c < 2 ^ n) l → mask l < 2 ^ n.
Proof.
  induction 1; cbn; [|by apply lor_bound]. apply N.neq_0_lt_0, N.pow_nonzero. done.
Qed.
Lemma land_not32 x bits : x < 2 ^ 32 → N.land x (not32 bits) = N.ldiff x bits.
Proof.
  intros Hx. apply N.bits_inj. intros n. unfold not32. rewrite N.land_spec, !N.ldiff_spec.
  destruct (N.lt_ge_cases n 32) as [Hn|Hn]; [by rewrite N.ones_spec_low|].
  rewrite (N.bits_above_log2 x n); [done|]. destruct (decide (x = 0)) as [->|Hz]; [cbn; lia|].
  apply N.log2_lt_pow2 in Hx; lia.
Qed.
Lemma subset_bound x bits n : bits < 2 ^ n → subset x bits = true → x < 2 ^ n.
Proof.
  unfold subset. intros Hb Hs%N.eqb_eq. apply lt_pow2_shiftr. apply lt_pow2_shiftr in Hb.
  apply (f_equal (λ y, N.shiftr y n)) in Hs. rewrite N.shiftr_ldiff, Hb, N.ldiff_0_r, N.shiftr_0_l in Hs. done.
Qed.
Lemma among_bound x l n : Forall (λ c, c < 2 ^ n) l → among x l = true → x < 2 ^ n.
Proof.
  unfold among. rewrite existsb_exists. intros Hl (c & Hc & ->%N.eqb_eq).
  by eapply Forall_forall in Hl; [|apply list_elem_of_In].
Qed.
Lemma x32_bit x : (N.land x 0x40000000 =? 0) = negb (N.testbit x 30).
Proof.
  change 0x40000000 with (2 ^ 30). apply eq_true_iff_eq. rewrite N.eqb_eq, negb_true_iff. split.
  - intros E. apply (f_equal (λ y, N.testbit y 30)) in E. rewrite N.land_spec, N.pow2_bits_true, andb_true_r in E.
    exact E.
  - intros E. apply N.bits_inj. intros n. rewrite N.land_spec, N.bits_0. destruct (decide (n = 30)) as [->|Hn].
    + by rewrite E.
    + by rewrite N.pow2_bits_false, andb_false_r by done.
Qed.

(** ** Every rule block decides its call *)

Section Blocks.
Context `{Libc} (Hlaw : libc_lawful) (d : seccomp_data).
#[local] Abbreviation run := (run d).

Ltac laws := pose proof (ll_u32 Hlaw) as Hu; unfold libc_constants in Hu;
  repeat (apply Forall_cons in Hu as [? Hu]); clear Hu.
Ltac bounded := laws; unfold setfl_bits, socket_flags, allowed_flags;
  repeat first [assumption | reflexivity | apply mask_bound | apply lor_bound | apply Forall_cons; split | apply Forall_nil_2].

(** An argument is taken as a 32-bit word once its upper half is zero. *)
Lemma run_narrow hi lo x denied rest acc :
  word d hi = Some (high x) → word d lo = Some (low x) →
  run (load hi :: jump_equal 0 1 0 :: return_action denied :: load lo :: rest) acc =
  if x <? 2 ^ 32 then run rest x else Some denied.
Proof.
  intros Eh El. rewrite (run_load _ _ _ _ _ Eh), run_jump_equal, high_zero.
  destruct (N.ltb_spec x (2 ^ 32)); [|apply run_return].
  etransitivity; [apply (run_load _ _ _ _ _ El)|]. by rewrite low_small.
Qed.

Lemma run_subset x bits denied rest :
  x < 2 ^ 32 →
  run (instruction BPF_JMP_JSET_K 0 1 (not32 bits) :: return_action denied :: rest) x =
  if subset x bits then run rest x else Some denied.
Proof.
  intros Hx. rewrite run_jset, land_not32 by done. unfold subset. destruct (_ =? 0); [done|apply run_return].
Qed.

Lemma run_commands l rest acc :
  run (allow_commands l ++ rest) acc = if among acc l then Some SECCOMP_RET_ALLOW else run rest acc.
Proof. apply (run_entries d (λ c, c)). Qed.

Lemma run_flags hi lo x bits acc :
  word d hi = Some (high x) → word d lo = Some (low x) → bits < 2 ^ 32 →
  run (scalar_flags_checks lo hi bits) acc = Some (verdict (subset x bits)).
Proof.
  intros Eh El Hb. unfold scalar_flags_checks. rewrite (run_narrow _ _ _ _ _ _ Eh El).
  destruct (N.ltb_spec x (2 ^ 32)) as [Hx|Hx].
  - rewrite run_subset by done. destruct (subset x bits); [apply run_return|done].
  - destruct (subset x bits) eqn:E; [|done]. apply subset_bound with (n := 32) in E; [lia|done].
Qed.

Lemma run_command_block hi lo x l acc :
  word d hi = Some (high x) → word d lo = Some (low x) → Forall (λ c, c < 2 ^ 32) l →
  run ([load hi; jump_equal 0 1 0; return_action (errno EPERM); load lo]
       ++ allow_commands l ++ [return_action (errno EPERM)]) acc = Some (verdict (among x l)).
Proof.
  intros Eh El Hl. cbn [app]. rewrite (run_narrow _ _ _ _ _ _ Eh El).
  destruct (N.ltb_spec x (2 ^ 32)) as [Hx|Hx].
  - rewrite run_commands. destruct (among x l); [done|apply run_return].
  - destruct (among x l) eqn:E; [|done]. apply among_bound with (n := 32) in E; [lia|done].
Qed.

Lemma run_ioctl acc : run ioctl_checks acc = Some (verdict (among (call_a1 d) ioctl_commands)).
Proof. apply run_command_block; [done..|bounded]. Qed.
Lemma run_prctl acc : run prctl_checks acc = Some (verdict (among (call_a0 d) prctl_commands)).
Proof. apply run_command_block; [done..|bounded]. Qed.
Lemma run_arch_prctl acc : run arch_prctl_checks acc = Some (verdict (among (call_a0 d) arch_prctl_commands)).
Proof. apply run_command_block; [done..|]. repeat constructor. Qed.

Lemma run_prlimit acc : run first_argument_zero_checks acc = Some (verdict (call_a0 d =? 0)).
Proof.
  unfold first_argument_zero_checks. rewrite (run_narrow _ _ (call_a0 d)) by done.
  destruct (N.ltb_spec (call_a0 d) (2 ^ 32)) as [Hx|Hx].
  - rewrite run_jump_equal. destruct (_ =? 0); apply run_return.
  - destruct (N.eqb_spec (call_a0 d) 0); [lia|done].
Qed.

Lemma run_fcntl acc : run fcntl_checks acc = Some (verdict (fcntl_allowed (call_a1 d) (call_a2 d))).
Proof.
  unfold fcntl_checks. cbn [app]. rewrite (run_narrow _ _ (call_a1 d)) by done.
  assert (Forall (λ c, c < 2 ^ 32) fcntl_commands) as Hc by bounded.
  assert (F_SETFD < 2 ^ 32 ∧ F_SETFL < 2 ^ 32) as [H1 H2] by (split; bounded).
  unfold fcntl_allowed. destruct (N.ltb_spec (call_a1 d) (2 ^ 32)) as [Hx|Hx].
  - rewrite run_commands. destruct (among (call_a1 d) fcntl_commands); [done|].
    cbn [flat_map app]. rewrite app_nil_r, <- (assoc_L (++)).
    assert (word d ARG1_LOW = Some (call_a1 d)) as Hw by (cbn; by rewrite low_small).
    rewrite (run_select d F_SETFD _ ARG1_LOW _ _ _ Hw (run_flags ARG2_HIGH ARG2_LOW (call_a2 d) FD_CLOEXEC _ eq_refl eq_refl ltac:(bounded))).
    rewrite (run_select d F_SETFL _ ARG1_LOW _ _ _ Hw (run_flags ARG2_HIGH ARG2_LOW (call_a2 d) setfl_bits _ eq_refl eq_refl ltac:(bounded))).
    destruct (_ =? F_SETFD); [done|]. destruct (_ =? F_SETFL); [done|]. apply run_return.
  - destruct (among _ _) eqn:E; [apply among_bound with (n := 32) in E; [lia|done]|].
    destruct (N.eqb_spec (call_a1 d) F_SETFD); [lia|]. destruct (N.eqb_spec (call_a1 d) F_SETFL); [lia|done].
Qed.

Lemma run_options x l acc :
  word d ARG2_LOW = Some x → run (options_checks l) acc = Some (verdict (among x l)).
Proof.
  intros Hw. unfold options_checks. cbn [app]. rewrite (run_load _ _ _ _ _ Hw), run_commands.
  destruct (among x l); [done|apply run_return].
Qed.

Lemma run_socket_option read acc :
  run (socket_option_checks read) acc =
  Some (verdict (socket_option_allowed read (call_a1 d) (call_a2 d))).
Proof.
  assert (Forall (λ c, c < 2 ^ 32) (socket_options read)) as Hs by (destruct read; bounded).
  assert (Forall (λ c, c < 2 ^ 32) tcp_options) as Ht by bounded.
  assert (SOL_SOCKET < 2 ^ 32 ∧ IPPROTO_TCP < 2 ^ 32) as [H1 H2] by (split; bounded).
  unfold socket_option_checks, socket_option_allowed. cbn [app].
  rewrite (run_load d ARG1_HIGH _ _ (high (call_a1 d)) eq_refl), run_jump_equal, high_zero.
  destruct (N.ltb_spec (call_a1 d) (2 ^ 32)) as [Hx|Hx].
  2:{ destruct (N.eqb_spec (call_a1 d) SOL_SOCKET); [lia|]. destruct (N.eqb_spec (call_a1 d) IPPROTO_TCP); [lia|].
      apply run_return. }
  etransitivity; [apply (run_load d ARG2_HIGH _ _ (high (call_a2 d)) eq_refl)|]. rewrite run_jump_equal, high_zero.
  destruct (N.ltb_spec (call_a2 d) (2 ^ 32)) as [Hy|Hy].
  2:{ destruct (among _ (socket_options read)) eqn:E; [apply among_bound with (n := 32) in E; [lia|done]|].
      destruct (among _ tcp_options) eqn:E'; [apply among_bound with (n := 32) in E'; [lia|done]|].
      destruct (_ =? SOL_SOCKET); [apply run_return|]. destruct (_ =? IPPROTO_TCP); apply run_return. }
  assert (word d ARG1_LOW = Some (call_a1 d)) as Hw by (cbn; by rewrite low_small).
  assert (word d ARG2_LOW = Some (call_a2 d)) as Hw2 by (cbn; by rewrite low_small).
  etransitivity; [apply (run_load _ _ _ _ _ Hw)|]. cbn [flat_map app]. rewrite app_nil_r, <- (assoc_L (++)).
  rewrite (run_select d SOL_SOCKET _ ARG1_LOW _ _ _ Hw (run_options _ _ _ Hw2)).
  rewrite (run_select d IPPROTO_TCP _ ARG1_LOW _ _ _ Hw (run_options _ _ _ Hw2)).
  destruct (_ =? SOL_SOCKET); [done|]. destruct (_ =? IPPROTO_TCP); [done|]. apply run_return.
Qed.

Lemma run_socket acc :
  run socket_checks acc = Some (socket_verdict (call_a0 d) (call_a1 d) (call_a2 d)).
Proof.
  assert (AF_INET < 2 ^ 32 ∧ IPPROTO_TCP < 2 ^ 32) as [H1 H2] by (split; bounded).
  assert (socket_flags < 2 ^ 32) as H3 by bounded.
  unfold socket_checks, socket_verdict, socket_type_allowed. rewrite (run_narrow _ _ (call_a0 d)) by done.
  destruct (N.ltb_spec (call_a0 d) (2 ^ 32)) as [Hx|Hx].
  2:{ destruct (N.eqb_spec (call_a0 d) AF_INET); [lia|done]. }
  rewrite run_jump_equal. destruct (call_a0 d =? AF_INET); [|apply run_return]. cbn [negb].
  change (drop _ _) with (drop 6 socket_checks). unfold socket_checks. cbn [drop].
  rewrite (run_narrow _ _ (call_a1 d)) by done.
  destruct (N.ltb_spec (call_a1 d) (2 ^ 32)) as [Hy|Hy].
  2:{ destruct (subset _ _) eqn:E; [apply subset_bound with (n := 32) in E; [lia|done]|done]. }
  rewrite run_subset by done. destruct (subset _ _); [|done]. cbn [andb].
  rewrite run_and, run_jump_equal. destruct (_ =? SOCK_STREAM); [|apply run_return]. cbn [andb].
  change (drop _ _) with (drop 15 socket_checks). unfold socket_checks. cbn [drop].
  rewrite (run_narrow _ _ (call_a2 d)) by done.
  destruct (N.ltb_spec (call_a2 d) (2 ^ 32)) as [Hz|Hz].
  2:{ destruct (N.eqb_spec (call_a2 d) 0); [lia|]. destruct (N.eqb_spec (call_a2 d) IPPROTO_TCP); [lia|done]. }
  rewrite run_jump_equal. destruct (call_a2 d =? 0); [apply run_return|].
  etransitivity; [apply run_jump_equal|]. destruct (call_a2 d =? IPPROTO_TCP); apply run_return.
Qed.

Lemma run_clone acc : run clone_checks acc = Some (verdict (clone_allowed (call_a0 d))).
Proof.
  assert (N.lor allowed_flags 0xff < 2 ^ 32) as H1 by bounded.
  unfold clone_checks, clone_allowed. rewrite (run_narrow _ _ (call_a0 d)) by done.
  destruct (N.ltb_spec (call_a0 d) (2 ^ 32)) as [Hx|Hx].
  2:{ destruct (subset _ _) eqn:E; [apply subset_bound with (n := 32) in E; [lia|done]|done]. }
  assert (word d ARG0_LOW = Some (call_a0 d)) as Hw by (cbn; by rewrite low_small).
  rewrite run_subset by done. destruct (subset _ _); [|done]. cbn [andb].
  rewrite (run_load _ _ _ _ _ Hw), run_and, run_jump_equal.
  set (signal := N.land (call_a0 d) 0xff) in *.
  set (thread := drop 11 clone_checks).
  assert (run thread signal = Some (verdict
    ((N.land (call_a0 d) CLONE_THREAD =? 0)
     || ((N.land (call_a0 d) required_thread_flags =? required_thread_flags) && (signal =? 0))))) as Hthread.
  { unfold thread, clone_checks. cbn [drop]. rewrite (run_load _ _ _ _ _ Hw), run_jset.
    destruct (_ =? 0); [apply run_return|]. etransitivity; [apply (run_load _ _ _ _ _ Hw)|].
    rewrite run_and, run_jump_equal. destruct (_ =? required_thread_flags); [|apply run_return].
    etransitivity; [apply (run_load _ _ _ _ _ Hw)|]. rewrite run_and, run_jump_equal. cbn [andb orb].
    fold signal. destruct (signal =? 0); apply run_return. }
  destruct (signal =? 0) eqn:E0; [exact Hthread|].
  etransitivity; [apply run_jump_equal|]. cbn [orb]. destruct (signal =? SIGCHLD); [exact Hthread|apply run_return].
Qed.

(** ** The whole program *)

Lemma run_select_all rules verdicts nr rest :
  word d NR_OFFSET = Some nr →
  Forall2 (λ rule v, fst rule = fst v ∧ run (snd rule) nr = Some (snd v)) rules verdicts →
  run (flat_map (λ '(number, checks), select_block number checks NR_OFFSET) rules ++ rest) nr =
  match first_match nr verdicts with Some action => Some action | None => run rest nr end.
Proof.
  intros Hw. induction 1 as [|[n checks] [m action] rules verdicts [En Hr] _ IH]; [done|].
  cbn [fst snd] in *. subst m. cbn [flat_map first_match]. rewrite <- (assoc_L (++)), (run_select _ _ _ _ _ _ _ Hw Hr), IH.
  by destruct (nr =? n).
Qed.

Lemma scalar_rules_decide numbers nr :
  Forall2 (λ rule v, fst rule = fst v ∧ run (snd rule) nr = Some (snd v))
    (scalar_rules numbers) (scalar_verdicts numbers d).
Proof.
  repeat (apply Forall2_cons_2; [split; [reflexivity|]|]); [..|constructor].
  - exact (run_fcntl nr).
  - exact (run_ioctl nr).
  - exact (run_socket_option true nr).
  - exact (run_socket_option false nr).
  - exact (run_prctl nr).
  - exact (run_prlimit nr).
  - apply (run_flags ARG3_HIGH ARG3_LOW (call_a3 d)); [reflexivity..|bounded].
  - apply (run_flags ARG1_HIGH ARG1_LOW (call_a1 d)); [reflexivity..|bounded].
  - apply (run_flags ARG2_HIGH ARG2_LOW (call_a2 d)); [reflexivity..|bounded].
  - apply (run_flags ARG1_HIGH ARG1_LOW (call_a1 d)); [reflexivity..|bounded].
  - apply (run_flags ARG0_HIGH ARG0_LOW (call_a0 d)); [reflexivity..|bounded].
  - apply (run_flags ARG3_HIGH ARG3_LOW (call_a3 d)); [reflexivity..|bounded].
  - apply (run_flags ARG1_HIGH ARG1_LOW (call_a1 d)); [reflexivity..|bounded].
Qed.

Lemma first_match_app nr l1 l2 :
  first_match nr (l1 ++ l2) =
  match first_match nr l1 with Some action => Some action | None => first_match nr l2 end.
Proof. induction l1 as [|[n a] l1 IH]; cbn; [done|]. by destruct (nr =? n). Qed.

Lemma run_program abi :
  run (initial_closed_program abi) 0 = Some (private_policy abi d).
Proof.
  assert (word d NR_OFFSET = Some (call_nr d)) as Hw by reflexivity. unfold initial_closed_program, private_policy, ruled_verdicts. cbn [app].
  rewrite (run_load d ARCH_OFFSET _ _ (call_arch d) eq_refl), run_jump_equal.
  destruct (call_arch d =? audit_arch abi); [|apply run_return]. cbn [negb].
  etransitivity; [apply (run_load d NR_OFFSET _ _ (call_nr d) eq_refl)|].
  set (numbers := syscalls abi). set (tail := flat_map _ [_; _] ++ _).
  assert (run ((if abi ≟ X86_64 then [instruction BPF_JMP_JSET_K 0 1 0x40000000;
                return_action SECCOMP_RET_KILL_PROCESS] else []) ++ tail) (call_nr d) =
          if (abi ≟ X86_64) && N.testbit (call_nr d) 30 then Some SECCOMP_RET_KILL_PROCESS
          else run tail (call_nr d)) as ->.
  { destruct (abi ≟ X86_64); [|done]. cbn [app andb]. rewrite run_jset, x32_bit.
    destruct (N.testbit (call_nr d) 30); [apply run_return|done]. }
  destruct (_ && _); [done|]. unfold tail. cbn [flat_map app first_match].
  rewrite !run_entry. destruct (_ =? sys_clone3 numbers); [done|]. destruct (_ =? sys_socketpair numbers); [done|].
  rewrite (run_select d _ _ NR_OFFSET _ _ _ Hw (run_clone _)). destruct (_ =? sys_clone numbers); [done|].
  rewrite (run_select_all _ _ _ _ Hw (scalar_rules_decide numbers _)), first_match_app.
  destruct (first_match _ (scalar_verdicts numbers d)); [done|].
  assert (∀ rest, run ((match sys_arch_prctl numbers with
      | Some number => select_block number arch_prctl_checks NR_OFFSET | None => [] end) ++ rest) (call_nr d) =
    match first_match (call_nr d) (match sys_arch_prctl numbers with
      | Some number => [(number, verdict (among (call_a0 d) arch_prctl_commands))] | None => [] end) with
    | Some action => Some action | None => run rest (call_nr d) end) as ->.
  { intros rest. destruct (sys_arch_prctl numbers) as [number|]; [|done]. cbn [first_match].
    rewrite (run_select d _ _ NR_OFFSET _ _ _ Hw (run_arch_prctl _)). by destruct (_ =? number). }
  rewrite first_match_app. destruct (first_match _ (match sys_arch_prctl numbers with _ => _ end)); [done|].
  rewrite (run_select d _ _ NR_OFFSET _ _ _ Hw (run_socket _)). cbn [first_match].
  destruct (_ =? sys_socket numbers); [done|].
  assert (∀ l : list (string * N),
    flat_map (λ '(_, number), [jump_equal number 0 1; return_action SECCOMP_RET_ALLOW]) l =
    allow_commands (snd <$> l)) as ->.
  { induction l as [|[name number] l IH]; [done|]. cbn. by rewrite IH. }
  rewrite run_commands. destruct (among _ _); [done|apply run_return].
Qed.
End Blocks.

(** ** Digest and installation *)

Definition instruction_bytes (i : sock_filter) : list u8 :=
  le_bytes 2 (sf_code i) ++ [byte (sf_jt i); byte (sf_jf i)] ++ le_bytes 4 (sf_k i).

(** What the operating system answers during an installation. *)
Record NativeAnswers : Type := {
  na_abi : result string NativeAbi;
  na_tasks : result string (list (result string ()));
  na_no_new_privs : Z;
  na_seccomp : Z;
  na_last_os_error : string;
  na_get_seccomp : Z;
  na_no_new_privs_readback : Z
}.
Record InstalledFilterProof : Type := {
  fp_abi : NativeAbi; fp_instruction_digest : list u8; fp_instruction_count : N
}.

(** The inventory stops at the second task. *)
Fixpoint count_tasks (tasks : list (result string ())) (count : N) : result string N :=
  match tasks with
  | [] => Ok count
  | task :: tasks =>
      map_err (λ error, ("MCSEALED-PRIVATE-FILTER: task inventory: " +:+ error)%string) task ;;
      let count := N.min (count + 1) 255 in
      if 1 <? count then Err "MCSEALED-PRIVATE-FILTER: setup stub is multithreaded"%string
      else count_tasks tasks count
  end.
Definition require_single_threaded_stub (tasks : result string (list (result string ()))) : result string () :=
  tasks ← map_err (λ error, ("MCSEALED-PRIVATE-FILTER: task inventory: " +:+ error)%string) tasks;
  count ← count_tasks tasks 0;
  guard_err (negb (count =? 1)) "MCSEALED-PRIVATE-FILTER: setup stub task is absent"%string.

Section Install.
Context `{Libc} (sha256_hash : list u8 → list u8) (decimal : Z → string).

Definition filter_instruction_digest (program : list sock_filter) : result string (list u8) :=
  validate_program program ;; Ok (sha256_hash (concat (instruction_bytes <$> program))).

(** [None] is the panic of the compiler's own check. *)
Definition install_gated_private_filter (abi : NativeAbi) (expected_digest : list u8) (os : NativeAnswers)
    : option (result string InstalledFilterProof) :=
  match na_abi os with
  | Err error => Some (Err error)
  | Ok native_abi =>
      if abi ≠? native_abi then Some (Err "MCSEALED-PRIVATE-FILTER: requested ABI is not native"%string)
      else
        program ← compile_initial_closed_filter abi;
        Some (
          digest ← map_err (λ reason, ("MCSEALED-PRIVATE-FILTER: invalid program: " +:+ reason)%string)
                     (filter_instruction_digest program);
          guard_err (digest ≠? expected_digest)
            "MCSEALED-PRIVATE-FILTER: expected instruction digest mismatch"%string ;;
          require_single_threaded_stub (na_tasks os) ;;
          count ← ok_or "MCSEALED-PRIVATE-FILTER: program length overflow"%string
                    (try_from 16 (N.of_nat (length program)));
          guard_err (negb (na_no_new_privs os =? 1)%Z)
            "MCSEALED-PRIVATE-FILTER: target no_new_privs is not set"%string ;;
          guard_err (na_seccomp os =? -1)%Z
            ("MCSEALED-PRIVATE-FILTER: native install: " +:+ na_last_os_error os)%string ;;
          guard_err (negb (na_seccomp os =? 0)%Z)
            ("MCSEALED-PRIVATE-FILTER: thread synchronization rejected " +:+ decimal (na_seccomp os))%string ;;
          guard_err (negb (na_get_seccomp os =? SECCOMP_MODE_FILTER)%Z
                     || negb (na_no_new_privs_readback os =? 1)%Z)
            "MCSEALED-PRIVATE-FILTER: native readback mismatch"%string ;;
          Ok {| fp_abi := abi; fp_instruction_digest := digest; fp_instruction_count := count |})
  end.
End Install.

(** ** Properties *)

Lemma compile_accepted `{Libc} abi : compile_initial_closed_filter abi = Some (initial_closed_program abi).
Proof.
  unfold compile_initial_closed_filter.
  assert (validate_program (initial_closed_program abi) = Ok ()) as -> by (destruct abi; vm_compute; reflexivity).
  done.
Qed.

(** C11: the compiled filter decides every system call as the policy of the private
    profile says, on both architectures and for all values of the constants: the
    compiler never refuses its own program, and the machine always returns the action of
    the policy within the length of the program. *)
Theorem filter_decides `{Libc} (abi : NativeAbi) (d : seccomp_data) :
  libc_lawful →
  ∃ program, compile_initial_closed_filter abi = Some program ∧
    filter_call program d = Some (private_policy abi d).
Proof.
  intros Hlaw. exists (initial_closed_program abi). split; [apply compile_accepted|].
  rewrite filter_call_run. by apply run_program.
Qed.

Lemma errno_not_allow `{Libc} e : e < 2 ^ 16 → errno e ≠ SECCOMP_RET_ALLOW.
Proof.
  intros He E. assert (errno e < 2 ^ 19) as Hlt by (apply lor_bound; [done|lia]).
  rewrite E in Hlt. by vm_compute in Hlt.
Qed.
Lemma verdict_allow `{Libc} (Hlaw : libc_lawful) b : verdict b = SECCOMP_RET_ALLOW → b = true.
Proof.
  destruct b; [done|]. intros E. exfalso. revert E. apply errno_not_allow.
  pose proof (ll_errno Hlaw) as He. do 2 (apply Forall_cons in He as [? He]). done.
Qed.

Lemma first_match_elem nr l action : first_match nr l = Some action → nr ∈ (fst <$> l).
Proof.
  induction l as [|[n a] l IH]; cbn; [done|]. destruct (N.eqb_spec nr n) as [->|]; [left|]. right. auto.
Qed.
Lemma among_elem x l : among x l = true ↔ x ∈ l.
Proof.
  unfold among. rewrite existsb_exists. setoid_rewrite N.eqb_eq. setoid_rewrite <- list_elem_of_In.
  naive_solver.
Qed.

(** What an allowed call can be. *)
Record confined `{Libc} (abi : NativeAbi) (d : seccomp_data) : Prop := {
  cn_arch : call_arch d = audit_arch abi;
  cn_x32 : abi = X86_64 → N.testbit (call_nr d) 30 = false;
  cn_clone3 : call_nr d ≠ sys_clone3 (syscalls abi);
  cn_socketpair : call_nr d ≠ sys_socketpair (syscalls abi);
  cn_clone : call_nr d = sys_clone (syscalls abi) → clone_allowed (call_a0 d) = true;
  cn_socket : call_nr d = sys_socket (syscalls abi) →
    call_a0 d = AF_INET ∧ N.land (call_a1 d) 0xf = SOCK_STREAM ∧
    N.ldiff (call_a1 d) socket_flags = 0 ∧ (call_a2 d = 0 ∨ call_a2 d = IPPROTO_TCP);
  cn_setsockopt : call_nr d = sys_setsockopt (syscalls abi) →
    call_a1 d = SOL_SOCKET ∧ call_a2 d ∈ socket_options false ∨
    call_a1 d = IPPROTO_TCP ∧ call_a2 d ∈ tcp_options;
  cn_listed : call_nr d ∈ (fst <$> ruled_verdicts abi d) ∨
              call_nr d ∈ (snd <$> unconditional_catalogue abi)
}.

Lemma policy_confines `{Libc} abi d :
  libc_lawful → private_policy abi d = SECCOMP_RET_ALLOW → confined abi d.
Proof.
  intros Hlaw. unfold private_policy. destruct (N.eqb_spec (call_arch d) (audit_arch abi)) as [Ha|]; [|done].
  cbn [negb]. destruct (_ && _) eqn:Ex; [done|]. intros Hp.
  assert (Forall (λ e, e < 2 ^ 16) [ENOSYS; EPERM; EAFNOSUPPORT; EPROTONOSUPPORT]) as He by apply Hlaw.
  repeat (apply Forall_cons in He as [? He]). clear He.
  assert (∀ nr action, first_match nr (ruled_verdicts abi d) = Some action → call_nr d = nr →
    action = SECCOMP_RET_ALLOW) as Hrule by (intros nr action E <-; by rewrite E in Hp).
  set (numbers := syscalls abi) in *.
  assert (first_match (sys_clone3 numbers) (ruled_verdicts abi d) = Some (errno ENOSYS)) as E1
    by (by destruct abi).
  assert (first_match (sys_socketpair numbers) (ruled_verdicts abi d) = Some (errno EPERM)) as E2
    by (by destruct abi).
  assert (first_match (sys_clone numbers) (ruled_verdicts abi d) =
          Some (verdict (clone_allowed (call_a0 d)))) as E3 by (by destruct abi).
  assert (first_match (sys_socket numbers) (ruled_verdicts abi d) =
          Some (socket_verdict (call_a0 d) (call_a1 d) (call_a2 d))) as E4 by (by destruct abi).
  assert (first_match (sys_setsockopt numbers) (ruled_verdicts abi d) =
          Some (verdict (socket_option_allowed false (call_a1 d) (call_a2 d)))) as E5 by (by destruct abi).
  constructor.
  - done.
  - intros ->. by cbn in Ex.
  - intros E. by apply (errno_not_allow ENOSYS), (Hrule _ _ E1).
  - intros E. by apply (errno_not_allow EPERM), (Hrule _ _ E2).
  - intros E. by apply verdict_allow, (Hrule _ _ E3).
  - intros E. pose proof (Hrule _ _ E4 E) as Hs.
    unfold socket_verdict, socket_type_allowed, subset in Hs.
    destruct (N.eqb_spec (call_a0 d) AF_INET); [|by apply errno_not_allow in Hs]. cbn [negb] in Hs.
    destruct (_ && _ && _) eqn:Et; [|by apply errno_not_allow in Hs]. bool_hyps.
    split_and!; try done. rewrite orb_true_iff, !N.eqb_eq in *. done.
  - intros E. pose proof (verdict_allow Hlaw _ (Hrule _ _ E5 E)) as Hs.
    unfold socket_option_allowed in Hs. destruct (N.eqb_spec (call_a1 d) SOL_SOCKET).
    { left. by rewrite <- among_elem. }
    destruct (N.eqb_spec (call_a1 d) IPPROTO_TCP); [|done]. right. by rewrite <- among_elem.
  - destruct (first_match _ _) as [action|] eqn:E; [left; by eapply first_match_elem|right].
    apply verdict_allow in Hp; [|done]. by apply among_elem.
Qed.

(** A call that the filter allows is confined: it comes from the native
    architecture, it is in the catalogue or has a rule, a socket is an IPv4 TCP
    stream, socket options are the listed ones, a clone makes a thread or a child
    without namespaces, and no pair of sockets or unfiltered clone is ever made. *)
Theorem filter_confines `{Libc} (abi : NativeAbi) (program : list sock_filter) (d : seccomp_data) :
  libc_lawful → compile_initial_closed_filter abi = Some program →
  filter_call program d = Some SECCOMP_RET_ALLOW → confined abi d.
Proof.
  rewrite compile_accepted. intros Hlaw [= <-] Hr. rewrite filter_call_run, run_program in Hr by done.
  injection Hr as Hr. by apply policy_confines.
Qed.

Lemma validate_from_lookup program : ∀ position length i pc,
  validate_from position length program = Ok () → program !! pc = Some i →
  validate_instruction (position + pc) length i = Ok ().
Proof.
  induction program as [|j program IH]; intros position length i pc Hv Hi; [done|].
  cbn [validate_from] in Hv. apply bind_Ok in Hv as ([] & Hj & Hv).
  destruct pc as [|pc]; cbn in Hi; [injection Hi as <-; by rewrite Nat.add_0_r|].
  replace (position + S pc)%nat with (S position + pc)%nat by lia. by eapply IH.
Qed.

Lemma check_target_Ok position delta length :
  check_target position delta length = Ok () ↔ (position + 1 + N.to_nat delta < length)%nat.
Proof. unfold check_target. rewrite guard_err_Ok, negb_false_iff. apply Nat.ltb_lt. Qed.

(** A program that passes the structural check always returns: on any call whose
    words it loads, it reaches a return instruction within as many steps as it has
    instructions, whatever its instructions are. *)
Theorem validated_program_returns (program : list sock_filter) (d : seccomp_data) :
  validate_program program = Ok () →
  (∀ i, i ∈ program → sf_code i = BPF_LD_W_ABS → is_Some (word d (sf_k i))) →
  is_Some (filter_call program d).
Proof.
  unfold validate_program. intros ([] & Hlen%guard_err_Ok & Hv)%bind_Ok Hload.
  unfold filter_call. rewrite bpf_run_exec. change (is_Some (run d (drop 0 program) 0)).
  assert (∀ n pc acc, (length program - pc <= n)%nat → (pc < length program)%nat →
    is_Some (run d (drop pc program) acc)) as Hrun.
  { induction n as [|n IH]; intros pc acc Hn Hpc; [lia|].
    destruct (lookup_lt_is_Some_2 program pc Hpc) as [i Hi]. rewrite (drop_S _ _ _ Hi), run_cons.
    assert (∀ count acc', (pc + 1 + count < length program)%nat →
      is_Some (run d (drop count (drop (S pc) program)) acc')) as Hnext
      by (intros count acc' Hc; rewrite drop_drop; apply IH; lia).
    pose proof (validate_from_lookup _ _ _ _ _ Hv Hi) as Hvi. cbn [Nat.add] in Hvi.
    specialize (Hload i (list_elem_of_lookup_2 _ _ _ Hi)). revert Hvi. unfold validate_instruction, perform.
    destruct (sf_code i =? BPF_RET_K) eqn:E1; [by eexists|].
    destruct (N.eqb_spec (sf_code i) BPF_LD_W_ABS) as [El|_]; cbn [orb].
    { destruct (Hload El) as [v ->]. rewrite check_target_Ok. intros Hc. apply Hnext. lia. }
    destruct (sf_code i =? BPF_ALU_AND_K).
    { rewrite check_target_Ok. intros Hc. apply Hnext. lia. }
    destruct (sf_code i =? BPF_JMP_JEQ_K); cbn [orb].
    { intros ([] & H1%check_target_Ok & H2%check_target_Ok)%bind_Ok. apply Hnext. by destruct (acc =? sf_k i). }
    destruct (sf_code i =? BPF_JMP_JSET_K).
    { intros ([] & H1%check_target_Ok & H2%check_target_Ok)%bind_Ok. apply Hnext. by destruct (_ =? 0). }
    destruct (sf_code i =? BPF_JMP_JA); [|done]. rewrite check_target_Ok. intros Hc. by apply Hnext. }
  apply (Hrun (length program)); [lia|]. apply orb_false_iff in Hlen as [Hz%Nat.eqb_neq _]. lia.
Qed.

(** The fields of an instruction as the kernel stores them. *)
Definition encodable (i : sock_filter) : Prop :=
  sf_code i < 2 ^ 16 ∧ sf_jt i < 2 ^ 8 ∧ sf_jf i < 2 ^ 8 ∧ sf_k i < 2 ^ 32.

Lemma instruction_bytes_prefix_free : prefix_free encodable instruction_bytes.
Proof.
  apply (fixed_prefix_free _ _ 8).
  - intros i _. unfold instruction_bytes. by rewrite !length_app, !length_le_bytes.
  - intros [c t f k] [c' t' f' k'] (Hc & Ht & Hf & Hk) (Hc' & Ht' & Hf' & Hk').
    unfold instruction_bytes. cbn [sf_code sf_jt sf_jf sf_k] in *. intros E.
    apply app_inj_1 in E as [Ec E]; [|by rewrite !length_le_bytes].
    apply app_inj_1 in E as [Etf Ek]; [|done]. injection Etf as Et Ef.
    apply le_bytes_inj in Ec, Ek; [|done..]. apply ascii_of_N_inj in Et, Ef; [|done..]. congruence.
Qed.

Lemma instruction_words_bind p : ∀ q,
  Forall encodable p → Forall encodable q →
  concat (instruction_bytes <$> p) = concat (instruction_bytes <$> q) → p = q.
Proof.
  assert (∀ i rest, concat (instruction_bytes <$> (i :: rest)) ≠ []) as Hne.
  { intros i rest E. apply (f_equal length) in E. cbn [fmap list_fmap concat] in E.
    unfold instruction_bytes in E. rewrite !length_app, !length_le_bytes in E. done. }
  induction p as [|i p IH]; intros [|j q] Hp Hq E; [done|by destruct (Hne j q)|by destruct (Hne i p)|].
  apply Forall_cons in Hp as [Hi Hp], Hq as [Hj Hq]. cbn [fmap list_fmap concat] in E.
  apply instruction_bytes_prefix_free in E as [-> E]; [|done..]. f_equal. by apply IH.
Qed.

Lemma count_tasks_one tasks : ∀ count n, count <= 1 → count_tasks tasks count = Ok n →
  n = count + N.of_nat (length tasks).
Proof.
  induction tasks as [|task tasks IH]; intros count n Hc; cbn [count_tasks].
  { intros [= <-]. cbn. lia. }
  intros ([] & _ & Hr)%bind_Ok. destruct (N.ltb_spec 1 (N.min (count + 1) 255)); [done|].
  apply IH in Hr; [|done]. cbn [length]. lia.
Qed.

(** C13: the proof of an installation binds the policy: the compiler did not fail,
    the architecture is the native one, the expected digest is that of the very
    program whose decisions are the policy's, that program is the only one with those
    instruction words, the stub had one task, and the kernel confirmed the filter and
    that privileges cannot be gained, before and after. *)
Theorem installed_filter_enforces `{Libc} (sha256_hash : list u8 → list u8) (decimal : Z → string)
    (abi : NativeAbi) (expected : list u8) (os : NativeAnswers) (proof : InstalledFilterProof) :
  libc_lawful →
  install_gated_private_filter sha256_hash decimal abi expected os = Some (Ok proof) →
  ∃ program, compile_initial_closed_filter abi = Some program ∧ na_abi os = Ok abi ∧ fp_abi proof = abi ∧
    fp_instruction_digest proof = expected ∧
    expected = sha256_hash (concat (instruction_bytes <$> program)) ∧
    fp_instruction_count proof = N.of_nat (length program) ∧
    (∀ d, filter_call program d = Some (private_policy abi d)) ∧
    (∀ other, Forall encodable program → Forall encodable other →
      concat (instruction_bytes <$> program) = concat (instruction_bytes <$> other) → other = program) ∧
    (∃ tasks, na_tasks os = Ok tasks ∧ length tasks = 1%nat) ∧
    na_no_new_privs os = 1%Z ∧ na_seccomp os = 0%Z ∧ na_get_seccomp os = SECCOMP_MODE_FILTER ∧
    na_no_new_privs_readback os = 1%Z.
Proof.
  intros Hlaw. unfold install_gated_private_filter. destruct (na_abi os) as [native|] eqn:Ea; [|done].
  case_bool_decide as En; [|done]. subst native. cbn [negb]. rewrite compile_accepted. cbn [mbind option_bind].
  intros [= E]. apply bind_Ok in E as (digest & Hd%map_err_Ok & E).
  apply bind_Ok in E as ([] & Hexp%guard_err_Ok & E). apply bind_Ok in E as ([] & Hst & E).
  apply bind_Ok in E as (count & Hcount & E). apply bind_Ok in E as ([] & H1%guard_err_Ok & E).
  apply bind_Ok in E as ([] & H2%guard_err_Ok & E). apply bind_Ok in E as ([] & H3%guard_err_Ok & E).
  apply bind_Ok in E as ([] & H4%guard_err_Ok & [= <-]).
  apply bind_Ok in Hd as ([] & _ & [= <-]). apply negb_false_iff, bool_decide_eq_true in Hexp.
  apply ok_or_Ok, try_from_Some in Hcount as [-> _]. apply bind_Ok in Hst as (tasks & Htasks%map_err_Ok & Hst).
  apply bind_Ok in Hst as (n & Hn & Hone%guard_err_Ok). apply count_tasks_one in Hn; [|lia].
  apply negb_false_iff, N.eqb_eq in Hone. rewrite orb_false_iff, !negb_false_iff, !Z.eqb_eq in *.
  exists (initial_closed_program abi). cbn [fp_abi fp_instruction_digest fp_instruction_count]. split_and!; try done; try (by destruct H4).
  - intros d. rewrite filter_call_run. by apply run_program.
  - intros other Hp Ho Eq. symmetry. by apply instruction_words_bind.
  - exists tasks. split; [done|]. lia.
Qed.

(** ** The constants of Linux on x86-64 *)

Module FilterExamples.
#[export] Instance linux : Libc := {|
  ENOSYS := 38; EPERM := 1; EAFNOSUPPORT := 97; EPROTONOSUPPORT := 93;
  AF_INET := 2; SOCK_STREAM := 1; SOCK_NONBLOCK := 0x800; SOCK_CLOEXEC := 0x80000; IPPROTO_TCP := 6;
  SOL_SOCKET := 1;
  CLONE_VM := 0x100; CLONE_FS := 0x200; CLONE_FILES := 0x400; CLONE_SIGHAND := 0x800;
  CLONE_THREAD := 0x10000; CLONE_SYSVSEM := 0x40000; CLONE_SETTLS := 0x80000;
  CLONE_PARENT_SETTID := 0x100000; CLONE_CHILD_SETTID := 0x1000000; CLONE_CHILD_CLEARTID := 0x200000;
  CLONE_VFORK := 0x4000; SIGCHLD := 17;
  F_GETFD := 1; F_GETFL := 3; F_GET_SEALS := 1034; F_DUPFD := 0; F_DUPFD_CLOEXEC := 1030; F_GETLK := 5;
  F_SETLK := 6; F_SETLKW := 7; F_OFD_GETLK := 36; F_OFD_SETLK := 37; F_OFD_SETLKW := 38; F_SETFD := 2;
  F_SETFL := 4; FD_CLOEXEC := 1; O_ACCMODE := 3; O_APPEND := 0x400; O_NONBLOCK := 0x800; O_LARGEFILE := 0;
  O_CLOEXEC := 0x80000; FIONBIO := 0x5421; FIONREAD := 0x541b; TCGETS := 0x5401; TIOCGWINSZ := 0x5413;
  SO_REUSEADDR := 2; SO_KEEPALIVE := 9; SO_RCVBUF := 8; SO_SNDBUF := 7; SO_RCVTIMEO := 20;
  SO_SNDTIMEO := 21; SO_LINGER := 13; SO_ERROR := 4; SO_TYPE := 3; SO_DOMAIN := 39; SO_PROTOCOL := 38;
  SO_ACCEPTCONN := 30; TCP_NODELAY := 1; TCP_KEEPIDLE := 4; TCP_KEEPINTVL := 5; TCP_KEEPCNT := 6;
  EFD_CLOEXEC := 0x80000; EFD_NONBLOCK := 0x800; EPOLL_CLOEXEC := 0x80000; SFD_CLOEXEC := 0x80000;
  SFD_NONBLOCK := 0x800; TFD_CLOEXEC := 0x80000; TFD_NONBLOCK := 0x800;
  PR_GET_NO_NEW_PRIVS := 39; PR_GET_DUMPABLE := 3; PR_GET_NAME := 16; PR_SET_NAME := 15;
  PR_GET_SECCOMP := 21; PR_GET_SECUREBITS := 27; PR_GET_TIMERSLACK := 30; SECCOMP_MODE_FILTER := 2
|}.
Lemma linux_lawful : libc_lawful.
Proof. constructor; repeat constructor. Qed.

Definition call (nr a0 a1 a2 : N) : seccomp_data :=
  {| call_nr := nr; call_arch := 0xc000003e; call_ip := 0; call_a0 := a0; call_a1 := a1; call_a2 := a2;
     call_a3 := 0; call_a4 := 0; call_a5 := 0 |}.
Definition program : list sock_filter := initial_closed_program X86_64.
(** A TCP socket, a packet socket, a thread, a new network namespace, an x32 call. *)
Example decisions : filter_call program <$> [call 41 2 0x80801 6; call 41 17 3 0; call 56 0x10f00 0 0;
    call 56 0x40000000 0 0; call 0x40000000 0 0 0] =
  [Some SECCOMP_RET_ALLOW; Some (errno 97); Some SECCOMP_RET_ALLOW; Some (errno 1);
   Some SECCOMP_RET_KILL_PROCESS].
Proof. vm_compute. reflexivity. Qed.

Lemma filter_decides_witness :
  ∃ p, compile_initial_closed_filter X86_64 = Some p ∧ filter_call p (call 41 2 1 0) = Some SECCOMP_RET_ALLOW.
Proof.
  destruct (filter_decides X86_64 (call 41 2 1 0) linux_lawful) as (p & Hc & Hr).
  exists p. split; [exact Hc|]. rewrite Hr. vm_compute. reflexivity.
Defined.

Lemma filter_confines_witness : confined X86_64 (call 41 2 1 0).
Proof.
  apply (filter_confines X86_64 program (call 41 2 1 0) linux_lawful); vm_compute; reflexivity.
Defined.

Definition two_returns : list sock_filter := [jump_equal 0 1 0; return_action 1; return_action 2].
Lemma validated_program_returns_witness : is_Some (filter_call two_returns (call 0 0 0 0)).
Proof.
  apply (validated_program_returns two_returns (call 0 0 0 0)); [reflexivity|].
  intros i Hi Hc. exfalso. unfold two_returns in Hi.
  repeat (apply elem_of_cons in Hi as [->|Hi]; [done|]). by apply not_elem_of_nil in Hi.
Defined.

Definition answers : NativeAnswers :=
  {| na_abi := Ok X86_64; na_tasks := Ok [Ok ()]; na_no_new_privs := 1; na_seccomp := 0;
     na_last_os_error := ""; na_get_seccomp := 2; na_no_new_privs_readback := 1 |}.
Definition words : list u8 := concat (instruction_bytes <$> program).
Definition installed : InstalledFilterProof :=
  {| fp_abi := X86_64; fp_instruction_digest := take 4 words; fp_instruction_count := N.of_nat (length program) |}.
Lemma installs :
  install_gated_private_filter (take 4) (λ _, ""%string) X86_64 (take 4 words) answers = Some (Ok installed).
Proof. vm_compute. reflexivity. Qed.
Lemma installed_filter_witness :
  ∃ p, compile_initial_closed_filter X86_64 = Some p ∧ ∀ d, filter_call p d = Some (private_policy X86_64 d).
Proof.
  destruct (installed_filter_enforces (take 4) (λ _, ""%string) X86_64 (take 4 words) answers installed
    linux_lawful installs) as (p & Hc & _ & _ & _ & _ & _ & Hd & _).
  exists p. split; [exact Hc|exact Hd].
Defined.
End FilterExamples.
