(* ===== verification/ResultFrame.v ===== *)
(** * The frame of the result writer

    macos_result_frame.rs of memcordon-platform: one bounded frame carries the
    report, its path and the diagnostics to the process that writes them.  The
    input of the reader is a [stream], the bytes that arrive before the end and
    the error that ends it when it is not the end of file.  [usize] has 64
    bits.  The Cargo feature that adds the fixture fields is the parameter
    [test_support]; without it a frame has neither ([featured]). *)

From S2P Require Import Prelude Decimal Bounded Codec.
From Stdlib Require Import Ascii.

Definition MAX_PAYLOAD : N := 64 * 1024 * 1024.
Definition MAGIC : list u8 := bytes "MCRW".
Definition VERSION : N := 2.
Definition REPORT : N := 1.
Definition DELAY : N := 2.
Definition PREFIX : nat := 8.
Definition HEADER : nat := PREFIX + 4 * 8.

Inductive ReportWritePhase : Type := BeforeWrite | BeforeRename | BeforeAck.
#[global] Instance ReportWritePhase_eq_dec : EqDecision ReportWritePhase.
Proof. solve_decision. Defined.

Record WriterFrame : Type := {
  wf_diagnostics : list u8;
  wf_report_path : option (list u8);
  wf_report : option (list u8);
  wf_barrier : option (ReportWritePhase * list u8);
  wf_delay_before_write : bool
}.

Definition len (l : list u8) : N := N.of_nat (length l).
Definition contains_nul (l : list u8) : bool := existsb (λ b, N_of_ascii b =? 0) l.
Definition is_empty (l : list u8) : bool := len l =? 0.
Definition unwrap_or_default (o : option (list u8)) : list u8 := default [] o.

(** [iter().try_fold(HEADER, |total, length| total.checked_add(length))] *)
Fixpoint total_length (total : N) (lengths : list N) : option N :=
  match lengths with
  | [] => Some total
  | n :: lengths => total ← checked_add 64 total n; total_length total lengths
  end.

Section Feature.
Context (test_support : bool).

Definition phase_byte (value : ReportWritePhase) : N :=
  match value with BeforeWrite => 1 | BeforeRename => 2 | BeforeAck => 3 end.

Definition marker_of (self : WriterFrame) : list u8 :=
  if test_support then default [] (snd <$> wf_barrier self) else [].

Definition pieces (self : WriterFrame) : list (list u8) :=
  [unwrap_or_default (wf_report_path self); unwrap_or_default (wf_report self);
   wf_diagnostics self; marker_of self].

Definition header (self : WriterFrame) (bound : N) : result string (list u8) :=
  _ ← guard_err (xorb (is_some (wf_report_path self)) (is_some (wf_report self)))
        "writer path/report presence differs";
  let path := unwrap_or_default (wf_report_path self) in
  let report := unwrap_or_default (wf_report self) in
  _ ← guard_err (is_some (wf_report self) && (is_empty path || is_empty report || contains_nul path))
        "invalid writer report/path bytes";
  let flags := if is_some (wf_report self) then REPORT else 0 in
  let flags := if test_support && wf_delay_before_write self then N.lor flags DELAY else flags in
  settings ← (if test_support then
                match wf_barrier self with
                | Some (value, marker) =>
                    _ ← guard_err (is_empty marker || contains_nul marker)
                          "invalid writer fixture barrier";
                    Ok (phase_byte value, marker)
                | None => Ok (0, [])
                end
              else Ok (0, []));
  let '(phase, marker) := settings in
  let pieces := [path; report; wf_diagnostics self; marker] in
  length ← ok_or "writer frame length overflow" (total_length (N.of_nat HEADER) (len <$> pieces));
  _ ← guard_err (N.min bound MAX_PAYLOAD <? length) "writer frame exceeds reserved payload capacity";
  Ok (MAGIC ++ [byte VERSION; byte flags; byte phase; byte 0] ++ concat ((λ p, le_bytes 8 (len p)) <$> pieces)).

Definition encode (self : WriterFrame) (bound : N) : result string (list u8) :=
  output ← header self bound;
  Ok (output ++ concat (pieces self)).

(** ** Reading *)
Record stream : Type := { st_bytes : list u8; st_error : option string }.

(** [Read::read_exact] *)
Definition read_exact (n : nat) : stM stream string (list u8) := λ input,
  if (n <=? length (st_bytes input))%nat
  then ({| st_bytes := drop n (st_bytes input); st_error := st_error input |},
        Ok (take n (st_bytes input)))
  else ({| st_bytes := []; st_error := st_error input |},
        Err (default "failed to fill whole buffer" (st_error input))).
(** [Read::read] of a one-byte buffer: the number of bytes. *)
Definition read_one : stM stream string N := λ input,
  match st_bytes input with
  | _ :: rest => ({| st_bytes := rest; st_error := st_error input |}, Ok 1)
  | [] => (input, match st_error input with Some e => Err e | None => Ok 0 end)
  end.

(** [chunks_exact(8)] read as lengths. *)
Fixpoint read_lengths (n : nat) (remaining : list u8) : list N :=
  match n with
  | O => []
  | S n => from_le_bytes (take 8 remaining) :: read_lengths n (drop 8 remaining)
  end.

Definition phase_of_byte (phase : N) (marker : list u8) : option (ReportWritePhase * list u8) :=
  match phase with
  | 1 => Some (BeforeWrite, marker)
  | 2 => Some (BeforeRename, marker)
  | 3 => Some (BeforeAck, marker)
  | _ => None
  end.

Definition allowed : N := if test_support then N.lor REPORT DELAY else REPORT.

(** The checks on the settings and the lengths of a header. *)
Definition check_settings (version flags phase reserved : N) (lengths : list N) : result string () :=
  _ ← guard_err (negb (version =? VERSION) || negb (N.land flags (255 - allowed) =? 0)
                 || negb (reserved =? 0) || (negb test_support && negb (phase =? 0)))
        "unsupported writer frame settings";
  total ← ok_or "writer frame length overflow" (total_length (N.of_nat HEADER) lengths);
  let path_len := nth 0 lengths 0 in
  let report_len := nth 1 lengths 0 in
  let marker_len := nth 3 lengths 0 in
  let reported := negb (N.land flags REPORT =? 0) in
  guard_err ((MAX_PAYLOAD <? total)
             || xorb reported ((0 <? path_len) && (0 <? report_len))
             || (negb reported && (negb (path_len =? 0) || negb (report_len =? 0)))
             || xorb (phase =? 0) (marker_len =? 0)
             || (3 <? phase))
    "inconsistent or oversized writer frame".

(** The header, before any payload byte is read. *)
Definition read_header (header : list u8) : result string (N * N * list N) :=
  let magic := take 4 header in
  let remaining := drop 4 header in
  _ ← guard_err (magic ≠? MAGIC) "unsupported writer frame magic";
  match N_of_ascii <$> take 4 remaining with
  | [version; flags; phase; reserved] =>
      let lengths := read_lengths 4 (drop 4 remaining) in
      _ ← check_settings version flags phase reserved lengths;
      Ok (flags, phase, lengths)
  | _ => Err "fixed frame settings"
  end.

(** The value built from an accepted frame. *)
Definition assemble (flags phase : N) (path report diagnostics marker : list u8) : WriterFrame :=
  let reported := negb (N.land flags REPORT =? 0) in
  {| wf_diagnostics := diagnostics;
     wf_report_path := if reported then Some path else None;
     wf_report := if reported then Some report else None;
     wf_barrier := if test_support then phase_of_byte phase marker else None;
     wf_delay_before_write := test_support && negb (N.land flags DELAY =? 0) |}.

Definition read : stM stream string WriterFrame :=
  header ← read_exact HEADER;
  settings ← st_lift (read_header header);
  let '(flags, phase, lengths) := settings in
  path ← read_exact (N.to_nat (nth 0 lengths 0));
  report ← read_exact (N.to_nat (nth 1 lengths 0));
  diagnostics ← read_exact (N.to_nat (nth 2 lengths 0));
  marker ← read_exact (N.to_nat (nth 3 lengths 0));
  extra ← read_one;
  _ ← st_lift (guard_err (negb (extra =? 0)) "extra writer frame/input bytes");
  _ ← st_lift (guard_err (contains_nul path || contains_nul marker) "writer native path contains NUL");
  mret (assemble flags phase path report diagnostics marker).

(** ** The layout of a frame *)
Definition prefix_bytes (flags phase : N) (lengths : list N) : list u8 :=
  MAGIC ++ [byte VERSION; byte flags; byte phase; byte 0] ++ concat (le_bytes 8 <$> lengths).

(** Fields that exist in this build. *)
Definition featured (f : WriterFrame) : Prop :=
  test_support = false → wf_barrier f = None ∧ wf_delay_before_write f = false.

Lemma read_lengths_encode ls rest : Forall (λ n, n < 2 ^ 64) ls →
  read_lengths (length ls) (concat (le_bytes 8 <$> ls) ++ rest) = ls.
Proof.
  induction 1 as [|n ls Hn _ IH]; [done|]. cbn [length read_lengths fmap list_fmap concat].
  rewrite <- app_assoc, take_app_length', drop_app_length' by (by rewrite length_le_bytes).
  by rewrite from_le_bytes_encode, IH.
Qed.

Lemma read_lengths_decode k r : length r = (8 * k)%nat →
  concat (le_bytes 8 <$> read_lengths k r) = r ∧ length (read_lengths k r) = k
  ∧ Forall (λ n, n < 2 ^ 64) (read_lengths k r).
Proof.
  revert r. induction k as [|k IH]; intros r Hr; cbn [read_lengths length].
  { destruct r; [done|]. cbn in Hr. lia. }
  destruct (IH (drop 8 r)) as (E & L & B); [rewrite length_drop; lia|].
  assert (length (take 8 r) = 8%nat) as H8 by (rewrite length_take; lia).
  split_and!; [|by f_equal|].
  - pose proof (le_bytes_decode (take 8 r)) as Hd. rewrite H8 in Hd. rewrite fmap_cons. cbn [concat].
    by rewrite Hd, E, take_drop.
  - constructor; [|done]. pose proof (from_le_bytes_bound (take 8 r)) as Hb. by rewrite H8 in Hb.
Qed.

Lemma read_header_prefix flags phase ls : flags < 256 → phase < 256 → length ls = 4%nat →
  Forall (λ n, n < 2 ^ 64) ls →
  read_header (prefix_bytes flags phase ls) =
    (_ ← check_settings VERSION flags phase 0 ls; Ok (flags, phase, ls)).
Proof.
  intros Hf Hp Hl Hb. unfold read_header, prefix_bytes.
  pose proof (read_lengths_encode ls [] Hb) as E. rewrite app_nil_r, Hl in E.
  remember (concat (le_bytes 8 <$> ls)) as lengths.
  rewrite take_app_length', drop_app_length' by done. rewrite bool_decide_true by done.
  cbn [negb guard_err mbind result_bind app take drop fmap list_fmap].
  unfold byte. rewrite !N_ascii_embedding by done.
  rewrite take_0, drop_0, E. done.
Qed.

Lemma read_header_inv h flags phase ls : length h = HEADER →
  read_header h = Ok (flags, phase, ls) →
  h = prefix_bytes flags phase ls ∧ flags < 256 ∧ phase < 256 ∧ length ls = 4%nat
  ∧ Forall (λ n, n < 2 ^ 64) ls ∧ check_settings VERSION flags phase 0 ls = Ok ().
Proof.
  intros Hl E. unfold read_header in E.
  apply bind_Ok in E as ([] & Em%guard_err_Ok & E). bool_hyps.
  destruct (drop 4 h) as [|v [|fl [|ph [|rs r]]]] eqn:D; try discriminate E.
  assert (length r = 32%nat) as Hr.
  { apply (f_equal length) in D. rewrite length_drop, Hl in D. cbn in D. lia. }
  destruct (read_lengths_decode 4 r Hr) as (Er & L & B).
  cbn [take drop fmap list_fmap] in E. rewrite take_0, drop_0 in E.
  remember (read_lengths 4 r) as found.
  apply bind_Ok in E as ([] & Ec & [= <- <- <-]).
  pose proof Ec as Ec'. unfold check_settings in Ec'.
  apply bind_Ok in Ec' as ([] & Eg%guard_err_Ok & _). bool_hyps.
  split_and!; [|apply N_ascii_bounded..|done|done|].
  - rewrite <- (take_drop 4 h), D, Em. unfold prefix_bytes. rewrite Er.
    unfold byte. rewrite !ascii_N_embedding.
    match goal with H : N_of_ascii v = _ |- _ => rewrite <- H end.
    match goal with H : N_of_ascii rs = _ |- _ => rewrite <- H end.
    by rewrite !ascii_N_embedding.
  - by match goal with H1 : N_of_ascii v = _, H2 : N_of_ascii rs = _ |- _ => rewrite H1, H2 in Ec end.
Qed.

Lemma total_length_Some total ls n : total < 2 ^ 64 →
  total_length total ls = Some n ↔ n = total + foldr N.add 0 ls ∧ n < 2 ^ 64.
Proof.
  revert total. induction ls as [|l ls IH]; intros total Ht; cbn [total_length foldr].
  { rewrite N.add_0_r. split; [intros [= <-]; done|by intros [-> _]]. }
  destruct (checked_add 64 total l) as [t|] eqn:E; cbn [mbind option_bind].
  - apply checked_add_Some in E as [-> Hl]. rewrite IH by done. split; intros [-> ?]; split; lia.
  - apply checked_add_None in E. split; [done|]. intros [-> ?]. lia.
Qed.

Lemma read_exact_Ok n s s' x :
  read_exact n s = (s', Ok x) ↔
  length x = n ∧ st_bytes s = x ++ st_bytes s' ∧ st_error s' = st_error s.
Proof.
  unfold read_exact. destruct s as [b e], s' as [b' e']. cbn. case_match eqn:L.
  - apply Nat.leb_le in L. split.
    + intros [= <- <- <-]. rewrite length_take, take_drop. split_and!; [lia|done..].
    + intros (Hx & -> & ->). by rewrite take_app_length', drop_app_length' by done.
  - apply Nat.leb_gt in L. split; [done|]. intros (Hx & -> & _).
    rewrite length_app in L. lia.
Qed.

(** ** What a frame says *)
Definition frame_flags (f : WriterFrame) : N :=
  N.lor (if is_some (wf_report f) then REPORT else 0)
        (if test_support && wf_delay_before_write f then DELAY else 0).
Definition frame_phase (f : WriterFrame) : N :=
  if test_support then default 0 (phase_byte ∘ fst <$> wf_barrier f) else 0.
Definition frame_length (f : WriterFrame) : N :=
  N.of_nat HEADER + foldr N.add 0 (len <$> pieces f).
Definition frame_bytes (f : WriterFrame) : list u8 :=
  prefix_bytes (frame_flags f) (frame_phase f) (len <$> pieces f) ++ concat (pieces f).

Record well_formed (f : WriterFrame) : Prop := {
  wf_presence : is_some (wf_report_path f) = is_some (wf_report f);
  wf_path : ∀ path, wf_report_path f = Some path → path ≠ [] ∧ contains_nul path = false;
  wf_document : ∀ report, wf_report f = Some report → report ≠ [];
  wf_marker : ∀ phase marker, test_support = true → wf_barrier f = Some (phase, marker) →
    marker ≠ [] ∧ contains_nul marker = false
}.

Lemma is_empty_false l : is_empty l = false ↔ l ≠ [].
Proof. unfold is_empty, len. destruct l; cbn; [done|]. split; [done|]. intros _. apply N.eqb_neq. lia. Qed.

Lemma frame_length_bytes f : len (frame_bytes f) = frame_length f.
Proof.
  unfold len, frame_bytes, prefix_bytes, frame_length, HEADER, PREFIX, pieces.
  cbn [fmap list_fmap concat foldr]. rewrite !length_app, !length_le_bytes.
  change (length MAGIC) with 4%nat. cbn [length]. unfold len. lia.
Qed.

(** The presence and content checks of [header]. *)
Lemma well_formed_checks f :
  well_formed f ↔
  xorb (is_some (wf_report_path f)) (is_some (wf_report f)) = false
  ∧ is_some (wf_report f)
    && (is_empty (unwrap_or_default (wf_report_path f)) || is_empty (unwrap_or_default (wf_report f))
        || contains_nul (unwrap_or_default (wf_report_path f))) = false
  ∧ (test_support = true → ∀ phase marker, wf_barrier f = Some (phase, marker) →
     is_empty marker || contains_nul marker = false).
Proof.
  destruct f as [d p r b dl]. cbn. split.
  - intros [Hp Hq Hr Hm]. cbn in *. split_and!.
    + by rewrite Hp, xorb_nilpotent.
    + destruct p as [p|], r as [r|]; try done. cbn.
      destruct (Hq p eq_refl) as [?%is_empty_false Hn]. pose proof (Hr r eq_refl) as ?%is_empty_false.
      bool_goal; done.
    + intros Ht ph m E. destruct (Hm ph m Ht E) as [?%is_empty_false ?]. by bool_goal.
  - intros (Hp%Bool.xorb_eq & Hq & Hm). split; cbn.
    + done.
    + intros path ->. destruct r; [|done]. cbn in Hq. bool_hyps. by rewrite <- is_empty_false.
    + intros report ->. cbn in Hq. bool_hyps. by rewrite <- is_empty_false.
    + intros ph m Ht E. specialize (Hm Ht ph m E). bool_hyps. by rewrite <- is_empty_false.
Qed.

(** The encoder writes exactly the well-formed frames that fit. *)
Lemma encode_Ok f bound out :
  encode f bound = Ok out ↔
  well_formed f ∧ frame_length f <= N.min bound MAX_PAYLOAD ∧ out = frame_bytes f.
Proof.
  rewrite well_formed_checks. unfold encode, header.
  set (settings := if test_support then _ else _).
  assert (∀ sp, settings = Ok sp ↔
    (test_support = true → ∀ phase marker, wf_barrier f = Some (phase, marker) →
     is_empty marker || contains_nul marker = false) ∧ sp = (frame_phase f, marker_of f)) as Hs.
  { intros sp. unfold settings, frame_phase, marker_of. destruct test_support; [|naive_solver].
    destruct (wf_barrier f) as [[ph m]|]; cbn; [|naive_solver].
    rewrite guard_bind_Ok. naive_solver. }
  assert (frame_length f < 2 ^ 64 → total_length (N.of_nat HEADER) (len <$> pieces f) = Some (frame_length f)) as Hl.
  { intros Hf. by apply total_length_Some. }
  assert ((if test_support && wf_delay_before_write f
          then N.lor (if is_some (wf_report f) then REPORT else 0) DELAY
          else if is_some (wf_report f) then REPORT else 0) = frame_flags f) as Hflags.
  { unfold frame_flags. destruct (test_support && _), (is_some _); done. }
  rewrite Hflags. split.
  - intros (h & E & [= <-])%bind_Ok.
    apply guard_bind_Ok in E as [E1 E]. apply guard_bind_Ok in E as [E2 E].
    apply bind_Ok in E as (sp & [E3 ->]%Hs & E).
    apply bind_Ok in E as (n & En%ok_or_Ok & E). apply total_length_Some in En as [-> Hn]; [|done].
    apply guard_bind_Ok in E as [E4 E]. apply (inj Ok) in E. rewrite <- E. by bool_hyps.
  - intros ((E1 & E2 & E3) & Hb & ->). apply bind_Ok.
    exists (prefix_bytes (frame_flags f) (frame_phase f) (len <$> pieces f)). split; [|done].
    apply guard_bind_Ok. split; [done|]. apply guard_bind_Ok. split; [done|].
    apply bind_Ok. exists (frame_phase f, marker_of f). split; [by apply Hs|].
    apply bind_Ok. exists (frame_length f).
    split; [apply ok_or_Ok, Hl; unfold MAX_PAYLOAD in Hb; lia|].
    apply guard_bind_Ok. split; [apply N.ltb_ge; lia|done].
Qed.

Lemma small_flags flags mask : mask ∈ [1; 3] → flags < 256 → N.land flags (255 - mask) = 0 →
  flags <= mask.
Proof.
  intros Hm Hf E. apply N.le_ngt. intros Hlt.
  assert (forallb (λ n, forallb (λ m, negb (N.land (N.of_nat n) (255 - m) =? 0) || (N.of_nat n <=? m))
            [1; 3]) (seq 0 256) = true) as Hall by by vm_compute.
  rewrite forallb_forall in Hall. specialize (Hall (N.to_nat flags)).
  rewrite forallb_forall in Hall.
  specialize (Hall ltac:(apply in_seq; lia) mask ltac:(by apply list_elem_of_In)).
  rewrite N2Nat.id, E in Hall. cbn in Hall. apply N.leb_le in Hall. lia.
Qed.

Lemma read_one_Ok s s' n :
  read_one s = (s', Ok n) ∧ (n =? 0) = true ↔ s = {| st_bytes := []; st_error := None |} ∧ s' = s ∧ n = 0.
Proof.
  unfold read_one. destruct s as [[|b l] [e|]]; cbn; split; try naive_solver.
  all: intros [[= <- <-] ?]; done.
Qed.

Lemma length_len l : N.to_nat (len l) = length l.
Proof. unfold len. lia. Qed.

(** The reader accepts exactly the streams that are one frame and then end. *)
Lemma read_layout s s' f :
  read s = (s', Ok f) ↔
  ∃ flags phase p r d m,
    flags < 256 ∧ phase < 256 ∧ Forall (λ n, n < 2 ^ 64) (len <$> [p; r; d; m])
    ∧ check_settings VERSION flags phase 0 (len <$> [p; r; d; m]) = Ok ()
    ∧ contains_nul p || contains_nul m = false
    ∧ s = {| st_bytes := prefix_bytes flags phase (len <$> [p; r; d; m]) ++ concat [p; r; d; m];
             st_error := None |}
    ∧ s' = {| st_bytes := []; st_error := None |}
    ∧ f = assemble flags phase p r d m.
Proof.
  unfold read. split.
  - intros (s1 & h & (Hh & Eb & Ee)%read_exact_Ok & E)%stM_bind_Ok.
    apply stM_bind_Ok in E as (? & [[flags phase] ls] & [-> Eh]%st_lift_Ok & E).
    apply read_header_inv in Eh as (-> & Hf & Hp & Hl & Hb & Hc); [|done].
    destruct ls as [|pl [|rl [|dl [|ml [|]]]]]; try discriminate Hl. cbn [nth] in E.
    apply stM_bind_Ok in E as (s2 & p & (Lp & Ep & Eep)%read_exact_Ok & E).
    apply stM_bind_Ok in E as (s3 & r & (Lr & Er & Eer)%read_exact_Ok & E).
    apply stM_bind_Ok in E as (s4 & d & (Ld & Ed & Eed)%read_exact_Ok & E).
    apply stM_bind_Ok in E as (s5 & m & (Lm & Em & Eem)%read_exact_Ok & E).
    apply stM_bind_Ok in E as (s6 & n & E1 & E).
    apply stM_bind_Ok in E as (? & [] & [-> Eg%guard_err_Ok]%st_lift_Ok & E).
    apply stM_bind_Ok in E as (? & [] & [-> En%guard_err_Ok]%st_lift_Ok & E).
    apply negb_false_iff in Eg. destruct (proj1 (read_one_Ok _ _ _) (conj E1 Eg)) as (-> & -> & ->).
    injection E as <- <-.
    assert (pl = len p ∧ rl = len r ∧ dl = len d ∧ ml = len m) as (-> & -> & -> & ->)
      by (unfold len; lia).
    exists flags, phase, p, r, d, m. split_and!; try done.
    destruct s as [bs e]. cbn in *. f_equal; [|congruence].
    by rewrite Eb, Ep, Er, Ed, Em.
  - intros (flags & phase & p & r & d & m & Hf & Hp & Hl & Hc & Hn & -> & -> & ->).
    apply stM_bind_Ok. eexists {| st_bytes := _; st_error := None |}, _. split.
    { apply read_exact_Ok. split_and!; [|done..]. done. }
    apply stM_bind_Ok. eexists _, _. split.
    { apply st_lift_Ok. split; [done|]. rewrite read_header_prefix by done. by rewrite Hc. }
    cbn [mbind result_bind nth fmap list_fmap st_bytes concat]. rewrite !length_len.
    do 4 (apply stM_bind_Ok; eexists {| st_bytes := _; st_error := None |}, _;
          split; [by apply read_exact_Ok|]).
    apply stM_bind_Ok. eexists _, 0. split; [done|].
    apply stM_bind_Ok. eexists _, (). split; [done|].
    apply stM_bind_Ok. eexists _, (). split; [by rewrite Hn|done].
Qed.

(** The settings and lengths that [check_settings] accepts. *)
Record settings_ok (flags phase a b c d : N) : Prop := {
  so_flags : flags <= allowed;
  so_feature : test_support = false → phase = 0;
  so_total : N.of_nat HEADER + (a + (b + (c + d))) <= MAX_PAYLOAD;
  so_reported : N.land flags REPORT ≠ 0 → 0 < a ∧ 0 < b;
  so_silent : N.land flags REPORT = 0 → a = 0 ∧ b = 0;
  so_phase : phase = 0 ↔ d = 0;
  so_phase_bound : phase <= 3
}.

Lemma allowed_cases : allowed ∈ [1; 3].
Proof. unfold allowed. destruct test_support; [right; left|left]. Qed.

Lemma allowed_mask flags : flags < 256 → N.land flags (255 - allowed) = 0 ↔ flags <= allowed.
Proof.
  intros Hf. split; [apply small_flags; [apply allowed_cases|done]|].
  pose proof allowed_cases as [->|[->|[]%elem_of_nil]%elem_of_cons]%elem_of_cons; intros Hle.
  - assert (flags ∈ [0; 1]) as Hin by (rewrite !elem_of_cons; lia).
    set_unfold in Hin. destruct_or!; by subst.
  - assert (flags ∈ [0; 1; 2; 3]) as Hin by (rewrite !elem_of_cons; lia).
    set_unfold in Hin. destruct_or!; by subst.
Qed.

Lemma check_settings_Ok flags phase a b c d : flags < 256 →
  check_settings VERSION flags phase 0 [a; b; c; d] = Ok () ↔ settings_ok flags phase a b c d.
Proof.
  intros Hf. unfold check_settings. rewrite guard_bind_Ok, bind_Ok. cbn [nth].
  rewrite N.eqb_refl, N.eqb_refl. cbn [negb orb].
  setoid_rewrite guard_err_Ok. setoid_rewrite ok_or_Ok. split.
  - intros (Hg & total & [-> Ht]%total_length_Some & Hc); [|done]. cbn [foldr] in *.
    rewrite N.add_0_r in Hc. bool_hyps.
    repeat match goal with H : xorb _ _ = false |- _ => apply Bool.xorb_eq in H end. split.
    + by apply allowed_mask.
    + intros E. rewrite E in *. bool_hyps. cbn in *. bool_hyps. done.
    + done.
    + lia.
    + lia.
    + lia.
    + done.
  - intros [H1 H2 H3 H4 H5 H6 H7]. split.
    + rewrite (proj2 (allowed_mask _ Hf)) by done. cbn.
      destruct test_support; [done|]. by rewrite H2.
    + eexists. split; [apply total_length_Some; [done|]; split; [done|]|]; cbn [foldr];
        rewrite N.add_0_r; [unfold MAX_PAYLOAD in H3; lia|].
      assert ((phase =? 0) = (d =? 0)) as -> by lia. rewrite xorb_nilpotent, orb_false_r.
      destruct (N.land flags REPORT =? 0) eqn:E; cbn [negb xorb andb].
      * apply N.eqb_eq, H5 in E as [-> ->]. cbn. unfold HEADER, PREFIX in H3. lia.
      * apply N.eqb_neq, H4 in E as [Ha Hb]. apply N.ltb_lt in Ha, Hb. rewrite Ha, Hb. cbn [andb]. lia.
Qed.

(** ** Acceptance *)

Lemma len_zero l : len l = 0 → l = [].
Proof. unfold len. destruct l; cbn; [done|lia]. Qed.
Lemma len_positive l : 0 < len l → l ≠ [].
Proof. unfold len. destruct l; cbn; [lia|done]. Qed.

Lemma small_cases n : n <= 3 → n = 0 ∨ n = 1 ∨ n = 2 ∨ n = 3.
Proof. lia. Qed.

(** What the reader builds encodes back to what it read. *)
Lemma assemble_sound flags phase p r d m :
  settings_ok flags phase (len p) (len r) (len d) (len m) →
  contains_nul p || contains_nul m = false →
  let f := assemble flags phase p r d m in
  featured f ∧ well_formed f ∧ pieces f = [p; r; d; m]
  ∧ frame_flags f = flags ∧ frame_phase f = phase.
Proof.
  intros [H1 H2 _ H4 H5 H6 H7] [Hp Hm]%orb_false_iff f. split_and!.
  - intros E. unfold f, assemble. cbn. by rewrite E.
  - split; unfold f, assemble; cbn.
    + by destruct (negb _).
    + intros path. destruct (N.land flags REPORT =? 0) eqn:E; [done|]. intros [= <-].
      split; [|done]. apply len_positive. apply N.eqb_neq in E. by apply H4.
    + intros report. destruct (N.land flags REPORT =? 0) eqn:E; [done|]. intros [= <-].
      apply len_positive. apply N.eqb_neq in E. by apply H4.
    + intros ph mk Ht E. rewrite Ht in E. destruct (small_cases _ H7) as [->|[->|[->| ->]]]; cbn in E; simplify_eq;
        (split; [|done]); apply len_positive; lia.
  - unfold pieces, marker_of, f, assemble. cbn.
    assert ((if N.land flags REPORT =? 0 then [] else p) = p
            ∧ (if N.land flags REPORT =? 0 then [] else r) = r) as [Ep Er].
    { destruct (N.land flags REPORT =? 0) eqn:E; [|done]. apply N.eqb_eq, H5 in E as [??].
      by rewrite (len_zero p), (len_zero r). }
    repeat f_equal.
    + by destruct (N.land flags REPORT =? 0).
    + by destruct (N.land flags REPORT =? 0).
    + destruct test_support.
      * destruct (small_cases _ H7) as [->|[->|[->| ->]]]; try done. by rewrite (len_zero m) by by apply H6.
      * by rewrite (len_zero m) by (apply H6; auto).
  - unfold frame_flags, f, assemble. cbn. unfold allowed in H1.
    destruct test_support; cbn in H1 |- *.
    + destruct (small_cases _ H1) as [->|[->|[->| ->]]]; done.
    + assert (flags = 0 ∨ flags = 1) as [-> | ->] by (unfold REPORT in H1; lia); done.
  - unfold frame_phase, f, assemble. cbn. destruct test_support; [|symmetry; auto].
    destruct (small_cases _ H7) as [->|[->|[->| ->]]]; done.
Qed.

Lemma well_formed_settings f : well_formed f → frame_length f <= MAX_PAYLOAD →
  settings_ok (frame_flags f) (frame_phase f)
    (len (unwrap_or_default (wf_report_path f))) (len (unwrap_or_default (wf_report f)))
    (len (wf_diagnostics f)) (len (marker_of f)).
Proof.
  intros Hw Hl. destruct f as [d p r b dl].
  pose proof (wf_presence _ Hw) as Hp. pose proof (wf_path _ Hw) as Hq.
  pose proof (wf_document _ Hw) as Hr. pose proof (wf_marker _ Hw) as Hm. cbn in *.
  assert (∀ l, l ≠ [] → 0 < len l) as Hpos.
  { intros [|x l] H; [done|]. unfold len. cbn. lia. }
  assert (frame_phase (Build_WriterFrame d p r b dl) = 0
          ↔ len (marker_of (Build_WriterFrame d p r b dl)) = 0) as Hphase.
  { unfold frame_phase, marker_of. cbn. destruct test_support; [|done].
    destruct b as [[ph m]|]; [|done]. cbn. destruct (Hm ph m eq_refl eq_refl) as [Hne _].
    apply Hpos in Hne. destruct ph; cbn; lia. }
  unfold frame_flags. cbn. split.
  - unfold allowed. destruct test_support, dl, r; done.
  - intros E. unfold frame_phase. by rewrite E.
  - unfold frame_length, pieces in Hl. cbn [fmap list_fmap foldr] in Hl. rewrite N.add_0_r in Hl. done.
  - destruct p as [p|], r as [r|]; try done; cbn; intros H.
    + destruct (Hq p eq_refl). split; apply Hpos; auto.
    + by destruct (test_support && dl).
  - destruct p as [p|], r as [r|]; try done; cbn. by destruct (test_support && dl).
  - done.
  - unfold frame_phase. cbn. destruct test_support; [|done]. by destruct b as [[[] m]|].
Qed.

(** Reading back what a frame encodes gives the frame. *)
Lemma assemble_frame f : featured f → well_formed f →
  assemble (frame_flags f) (frame_phase f) (unwrap_or_default (wf_report_path f))
    (unwrap_or_default (wf_report f)) (wf_diagnostics f) (marker_of f) = f.
Proof.
  intros Hf Hw. destruct f as [d p r b dl]. pose proof (wf_presence _ Hw) as Hp.
  unfold featured in Hf. unfold assemble, frame_flags, frame_phase, marker_of. cbn in *.
  destruct test_support.
  - destruct p, r, dl, b as [[[] m]|]; done.
  - destruct (Hf eq_refl) as [-> ->]. destruct p, r; done.
Qed.

Lemma well_formed_nul f : well_formed f →
  contains_nul (unwrap_or_default (wf_report_path f)) || contains_nul (marker_of f) = false.
Proof.
  intros [_ Hq _ Hm]. apply orb_false_iff. split.
  - destruct (wf_report_path f) as [p|]; [|done]. by apply Hq.
  - unfold marker_of. destruct test_support eqn:Ht; [|done].
    destruct (wf_barrier f) as [[ph m]|] eqn:E; [|done]. cbn. by apply (Hm ph).
Qed.

Lemma byte_range_flags f : frame_flags f < 256 ∧ frame_phase f < 256.
Proof.
  unfold frame_flags, frame_phase. split.
  - destruct (is_some _), (test_support && _); done.
  - destruct test_support; [|done]. by destruct (wf_barrier f) as [[[] ?]|].
Qed.

Lemma read_frame s s' f :
  read s = (s', Ok f) ↔
  featured f ∧ well_formed f ∧ frame_length f <= MAX_PAYLOAD
  ∧ s = {| st_bytes := frame_bytes f; st_error := None |}
  ∧ s' = {| st_bytes := []; st_error := None |}.
Proof.
  rewrite read_layout. split.
  - intros (flags & phase & p & r & d & m & Hf & Hp & Hb & Hc & Hn & -> & -> & ->).
    apply check_settings_Ok in Hc; [|done].
    destruct (assemble_sound _ _ _ _ _ _ Hc Hn) as (H1 & H2 & H3 & H4 & H5).
    unfold frame_length, frame_bytes. rewrite H3, H4, H5. split_and!; try done.
    cbn [fmap list_fmap foldr]. rewrite N.add_0_r. by destruct Hc.
  - intros (Hf & Hw & Hl & -> & ->).
    pose proof (byte_range_flags f) as [??].
    pose proof (well_formed_settings f Hw Hl) as Hs.
    eexists (frame_flags f), (frame_phase f), _, _, _, _.
    split_and!; [done|done| |by apply check_settings_Ok|by apply well_formed_nul|done|done|].
    + destruct Hs as [_ _ Ht _ _ _ _]. unfold MAX_PAYLOAD in Ht.
      repeat (apply Forall_cons; split; [lia|]). constructor.
    + symmetry. by apply assemble_frame.
Qed.
End Feature.

(** The reader accepts exactly the byte strings that the encoder writes, and
    reads the encoded frame back: nothing is lost, no accepted frame has a
    second spelling, and a stream that ends in an error is refused; the encoder
    never exceeds the capacity it was given nor the limit of the format. *)
Theorem writer_frame_canonical (test_support : bool) (f : WriterFrame) :
  (∀ s, (read test_support s).2 = Ok f
     ↔ featured test_support f ∧ st_error s = None
       ∧ ∃ bound, encode test_support f bound = Ok (st_bytes s))
  ∧ (∀ bound out, encode test_support f bound = Ok out → len out <= N.min bound MAX_PAYLOAD).
Proof.
  split.
  - intros s. split.
    + destruct (read test_support s) as [s' r] eqn:E. cbn. intros ->.
      apply read_frame in E as (Hf & Hw & Hl & -> & _). split_and!; [done..|].
      exists MAX_PAYLOAD. apply encode_Ok. split_and!; [done|lia|done].
    + intros (Hf & He & bound & (Hw & Hl & Eo)%encode_Ok).
      assert (read test_support s = ({| st_bytes := []; st_error := None |}, Ok f)) as ->; [|done].
      apply read_frame. split_and!; [done|done|lia| |done].
      destruct s as [b e]. cbn in *. by subst.
  - intros bound out (_ & Hl & ->)%encode_Ok. by rewrite frame_length_bytes.
Qed.

Module FrameExamples.
Definition report_frame : WriterFrame :=
  {| wf_diagnostics := bytes "d"; wf_report_path := Some (bytes "/r"); wf_report := Some (bytes "{}");
     wf_barrier := None; wf_delay_before_write := false |}.

Example report_frame_read :
  (output ← encode false report_frame 64; (read false {| st_bytes := output; st_error := None |}).2)
  = Ok report_frame.
Proof. by vm_compute. Qed.
Example trailing_byte_refused :
  (output ← encode false report_frame 64;
   (read false {| st_bytes := output ++ [zero]; st_error := None |}).2)
  = Err "extra writer frame/input bytes".
Proof. by vm_compute. Qed.
Example capacity_respected :
  encode false report_frame 44 = Err "writer frame exceeds reserved payload capacity".
Proof. by vm_compute. Qed.
End FrameExamples.
