(* ===== verification/Relay.v ===== *)
(** * Byte relays

    The two relays of a private attempt: [ByteRelay] of
    sealed/private_relay.rs in memcordon-platform (Module [Frontend]), between
    the standard streams of the front end and fresh pipes, and [PrivateRelay]
    of linux/private_relay.rs in the sealed agent (Module [Provider]), between
    those pipes and the target's.

    The operating system is the interface [Kernel]: one operation per system
    call that the source makes, over a type of worlds.  A failing call returns
    its error number; [native_count] and [last_os_error] are that step.  What
    read(2) and write(2) document about counts is [TransferLaws], and what
    fcntl(2), dup(2) and pipe(2) document about status flags is [FlagLaws].
    A step also returns the transfers it made, in order, as [event]s: nothing
    in the code reads them. *)

From S2P Require Import Prelude Decimal Bounded Codec.
From Stdlib Require Import Ascii.

Definition fd : Type := N.
Inductive FileKind : Type := Fifo | Socket | OtherFile.
#[global] Instance FileKind_eq_dec : EqDecision FileKind.
Proof. solve_decision. Defined.

Record pollfd : Type := { pf_fd : fd; pf_events : N }.

Class Kernel (World : Type) : Type := {
  EAGAIN : N; EINTR : N; EPIPE : N;
  O_NONBLOCK : N; O_ACCMODE : N; O_RDONLY : N; O_WRONLY : N;
  POLLIN : N; POLLOUT : N; POLLHUP : N; POLLERR : N; POLLNVAL : N;
  sys_dup : fd → stM World N fd;
  sys_getfl : fd → stM World N N;
  sys_setfl : fd → N → stM World N ();
  sys_fstat : fd → stM World N FileKind;
  sys_pipe : stM World N (fd * fd);
  sys_read : fd → nat → stM World N (list u8);
  sys_recv : fd → nat → stM World N (list u8);
  sys_write : fd → list u8 → stM World N nat;
  sys_send : fd → list u8 → stM World N nat;
  sys_close : fd → World → World;
  sys_poll : list pollfd → N → stM World N (list N)
}.

(** read(2), recv(2): at most the capacity; write(2), send(2): at most what
    was offered. *)
Class TransferLaws (World : Type) `{Kernel World} : Prop := {
  read_bound : ∀ d n w w' l, sys_read d n w = (w', Ok l) → (length l <= n)%nat;
  recv_bound : ∀ d n w w' l, sys_recv d n w = (w', Ok l) → (length l <= n)%nat;
  write_bound : ∀ d l w w' n, sys_write d l w = (w', Ok n) → (n <= length l)%nat;
  send_bound : ∀ d l w w' n, sys_send d l w = (w', Ok n) → (n <= length l)%nat
}.

(** A descriptor refers to an open file description, which holds the status
    flags: dup(2) shares it, F_SETFL changes it for all its descriptors, and a
    new descriptor is one that was not open. *)
Class FlagLaws (World : Type) `{Kernel World} : Type := {
  is_open : World → fd → Prop;
  description : World → fd → N;
  status : World → N → N;
  untouched (w w' : World) : Prop :=
    (∀ x, status w' x = status w x)
    ∧ (∀ d, is_open w d → is_open w' d ∧ description w' d = description w d);
  dup_shares : ∀ d w w' d', sys_dup d w = (w', Ok d') →
    ¬ is_open w d' ∧ is_open w' d' ∧ description w' d' = description w d ∧ untouched w w';
  getfl_reads : ∀ d w w' flags, sys_getfl d w = (w', Ok flags) →
    flags = status w (description w d) ∧ untouched w w';
  setfl_writes : ∀ d flags w w', sys_setfl d flags w = (w', Ok ()) →
    (∀ x, status w' x = if x ≟ description w d then flags else status w x)
    ∧ (∀ d', is_open w d' → is_open w' d' ∧ description w' d' = description w d');
  fstat_reads : ∀ d w w' kind, sys_fstat d w = (w', Ok kind) → untouched w w';
  pipe_adds : ∀ w w' ends, sys_pipe w = (w', Ok ends) →
    ¬ is_open w ends.1 ∧ ¬ is_open w ends.2 ∧ untouched w w';
  close_one : ∀ d w, (∀ x, status (sys_close d w) x = status w x)
    ∧ (∀ d', d' ≠ d → is_open w d' → is_open (sys_close d w) d' ∧ description (sys_close d w) d' = description w d')
}.

(** An [io::Error]: a native error number, or a message of the program. *)
Inductive io_error : Type := OsError (errno : N) | WriteZero (message : string).
#[global] Instance io_error_eq_dec : EqDecision io_error.
Proof. solve_decision. Defined.

(** [error.kind()] is [WouldBlock] or [Interrupted]. *)
Definition would_retry `{Kernel World} (errno : N) : bool := (errno =? EAGAIN) || (errno =? EINTR).

Inductive event : Type := Received (source : fd) (data : list u8) | Sent (sink : fd) (data : list u8)
| Failed (at_fd : fd) (errno : N).

Definition received (log : list event) : list u8 :=
  concat ((λ e, match e with Received _ data => data | _ => [] end) <$> log).
Definition sent (log : list event) : list u8 :=
  concat ((λ e, match e with Sent _ data => data | _ => [] end) <$> log).
Definition saw_end (log : list event) : bool :=
  existsb (λ e, match e with Received _ [] => true | _ => false end) log.

Lemma received_app a b : received (a ++ b) = received a ++ received b.
Proof. unfold received. by rewrite fmap_app, concat_app. Qed.
Lemma sent_app a b : sent (a ++ b) = sent a ++ sent b.
Proof. unfold sent. by rewrite fmap_app, concat_app. Qed.
Lemma saw_end_app a b : saw_end (a ++ b) = saw_end a || saw_end b.
Proof. unfold saw_end. apply existsb_app. Qed.

(** Writing a transfer over the start of a fixed buffer. *)
Definition fill (buffer data : list u8) : list u8 := data ++ drop (length data) buffer.
(** [&buffer[start..finish]] *)
Definition slice (buffer : list u8) (start finish : nat) : list u8 := take (finish - start) (drop start buffer).

Lemma length_fill buffer data : (length data <= length buffer)%nat → length (fill buffer data) = length buffer.
Proof. unfold fill. rewrite length_app, length_drop. lia. Qed.
Lemma slice_fill buffer data : slice (fill buffer data) 0 (length data) = data.
Proof. unfold slice, fill. by rewrite Nat.sub_0_r, drop_0, take_app_length. Qed.
Lemma slice_empty buffer n : slice buffer n n = [].
Proof. unfold slice. by rewrite Nat.sub_diag, take_0. Qed.
Lemma slice_advance buffer start finish n : (start + n <= finish)%nat →
  slice buffer start finish = take n (slice buffer start finish) ++ slice buffer (start + n) finish.
Proof.
  intros H. unfold slice. rewrite take_take, Nat.min_l by lia.
  rewrite <- drop_drop, take_take_drop. f_equal. lia.
Qed.
Lemma length_slice buffer start finish : (start <= finish)%nat → (finish <= length buffer)%nat →
  length (slice buffer start finish) = (finish - start)%nat.
Proof. intros. unfold slice. rewrite length_take, length_drop. lia. Qed.

(** Runs the clean-up when the computation fails. *)
Definition on_error {World A} (cleanup : World → World) (m : stM World N A) : stM World N A := λ w,
  match m w with
  | (w', Ok a) => (w', Ok a)
  | (w', Err e) => (cleanup w', Err e)
  end.

(** ** The front end's relay *)
Module Frontend.
Section Frontend.
Context {World : Type} `{Kernel World}.

Definition BUFFER_BYTES : nat := N.to_nat (16 * 1024).

Record Stdio : Type := { sd_fd : fd; sd_original_flags : N; sd_socket : bool; sd_restored : bool }.

Definition acquire (descriptor : fd) : stM World N Stdio :=
  duplicate ← sys_dup descriptor;
  original_flags ← on_error (sys_close duplicate) (sys_getfl duplicate);
  kind ← on_error (sys_close duplicate) (sys_fstat duplicate);
  let socket := kind ≟ Socket in
  _ ← (if negb socket
       then on_error (sys_close duplicate) (sys_setfl duplicate (N.lor original_flags O_NONBLOCK))
       else mret ());
  mret {| sd_fd := duplicate; sd_original_flags := original_flags; sd_socket := socket;
          sd_restored := socket |}.

Definition restore (self : Stdio) (w : World) : World * Stdio * result N () :=
  if sd_restored self then (w, self, Ok ())
  else match sys_setfl (sd_fd self) (sd_original_flags self) w with
       | (w, Ok _) =>
           (w, {| sd_fd := sd_fd self; sd_original_flags := sd_original_flags self;
                  sd_socket := sd_socket self; sd_restored := true |}, Ok ())
       | (w, Err e) => (w, self, Err e)
       end.
Definition stdio_read (self : Stdio) (n : nat) : stM World N (list u8) :=
  if sd_socket self then sys_recv (sd_fd self) n else sys_read (sd_fd self) n.
Definition stdio_write (self : Stdio) (data : list u8) : stM World N nat :=
  if sd_socket self then sys_send (sd_fd self) data else sys_write (sd_fd self) data.
(** [Drop]: the emergency restoration, then the descriptor closes. *)
Definition drop_stdio (self : Stdio) (w : World) : World :=
  sys_close (sd_fd self) (restore self w).1.1.

Record Lane : Type := {
  ln_stdio : Stdio; ln_channel : option fd; ln_buffer : list u8;
  ln_start : nat; ln_end : nat; ln_eof : bool; ln_input : bool
}.

Definition lane_write (self : Lane) (channel : fd) : list u8 → stM World N nat :=
  if ln_input self then sys_write channel else stdio_write (ln_stdio self).
Definition lane_read (self : Lane) (channel : fd) : nat → stM World N (list u8) :=
  if ln_input self then stdio_read (ln_stdio self) else sys_read channel.
Definition sink (self : Lane) (channel : fd) : fd := if ln_input self then channel else sd_fd (ln_stdio self).
Definition source (self : Lane) (channel : fd) : fd := if ln_input self then sd_fd (ln_stdio self) else channel.

Definition with_buffer (self : Lane) (channel : option fd) (start finish : nat) (eof : bool) : Lane :=
  {| ln_stdio := ln_stdio self; ln_channel := channel; ln_buffer := ln_buffer self;
     ln_start := start; ln_end := finish; ln_eof := eof; ln_input := ln_input self |}.

(** The first half of [Lane::step]: pending bytes are written. The answer says
    whether the step continues. *)
Definition flush (self : Lane) (channel : fd) (w : World) : World * Lane * list event * result io_error bool :=
  let data := slice (ln_buffer self) (ln_start self) (ln_end self) in
  match lane_write self channel data w with
  | (w, Ok 0%nat) => (w, self, [Sent (sink self channel) []], Err (WriteZero "private byte relay write returned zero"))
  | (w, Ok count) =>
      (w, with_buffer self (ln_channel self) (ln_start self + count) (ln_end self) (ln_eof self),
       [Sent (sink self channel) (take count data)], Ok true)
  | (w, Err e) =>
      if would_retry e then (w, self, [Failed (sink self channel) e], Ok true)
      else if ln_input self && (e =? EPIPE)
      then (sys_close channel w, with_buffer self None 0 0 true, [Failed (sink self channel) e], Ok false)
      else (w, self, [Failed (sink self channel) e], Err (OsError e))
  end.

(** The second half: an empty buffer is refilled. *)
Definition refill (self : Lane) (channel : fd) (w : World) : World * Lane * list event * result io_error () :=
  let self := with_buffer self (ln_channel self) 0 0 (ln_eof self) in
  if ln_eof self then (sys_close channel w, with_buffer self None 0 0 true, [], Ok ())
  else match lane_read self channel (length (ln_buffer self)) w with
       | (w, Ok []) =>
           (sys_close channel w, with_buffer self None 0 0 true, [Received (source self channel) []], Ok ())
       | (w, Ok data) =>
           (w, {| ln_stdio := ln_stdio self; ln_channel := ln_channel self;
                  ln_buffer := fill (ln_buffer self) data; ln_start := 0; ln_end := length data;
                  ln_eof := ln_eof self; ln_input := ln_input self |},
            [Received (source self channel) data], Ok ())
       | (w, Err e) =>
           (w, self, [Failed (source self channel) e], if would_retry e then Ok () else Err (OsError e))
       end.

Definition lane_step (self : Lane) (w : World) : World * Lane * list event * result io_error () :=
  match ln_channel self with
  | None => (w, self, [], Ok ())
  | Some channel =>
      let '(w, self, log, flow) :=
        if (ln_start self =? ln_end self)%nat then (w, self, [], Ok true) else flush self channel w in
      match flow with
      | Err e => (w, self, log, Err e)
      | Ok false => (w, self, log, Ok ())
      | Ok true =>
          if (ln_start self =? ln_end self)%nat
          then let '(w, self, log', r) := refill self channel w in (w, self, log ++ log', r)
          else (w, self, log, Ok ())
      end
  end.

Definition lane_poll (self : Lane) : option pollfd :=
  match ln_channel self with
  | None => None
  | Some channel =>
      let pending := negb (ln_start self =? ln_end self)%nat in
      Some {| pf_fd := if Bool.eqb (ln_input self) pending then channel else sd_fd (ln_stdio self);
              pf_events := if pending then POLLOUT else POLLIN |}
  end.

(** A relay is its lanes: input, output and error. *)
Definition ByteRelay : Type := list Lane.

Definition new_lane (stdio : Stdio) (channel : fd) (input : bool) : Lane :=
  {| ln_stdio := stdio; ln_channel := Some channel; ln_buffer := replicate BUFFER_BYTES zero;
     ln_start := 0; ln_end := 0; ln_eof := false; ln_input := input |}.

(** Locals are dropped in the reverse order of their declaration. *)
Definition close_pair (pair : fd * fd) (w : World) : World := sys_close pair.1 (sys_close pair.2 w).

Definition with_stdio (d0 d1 d2 : fd) : stM World N (ByteRelay * (fd * fd * fd)) :=
  input ← acquire d0;
  output ← on_error (drop_stdio input) (acquire d1);
  error ← on_error (drop_stdio input ∘ drop_stdio output) (acquire d2);
  let drops := drop_stdio input ∘ drop_stdio output ∘ drop_stdio error in
  input_pipe ← on_error drops sys_pipe;
  output_pipe ← on_error (drops ∘ close_pair input_pipe) sys_pipe;
  error_pipe ← on_error (drops ∘ close_pair input_pipe ∘ close_pair output_pipe) sys_pipe;
  mret ([new_lane input input_pipe.2 true; new_lane output output_pipe.1 false;
         new_lane error error_pipe.1 false],
        (input_pipe.1, output_pipe.2, error_pipe.2)).
Definition new : stM World N (ByteRelay * (fd * fd * fd)) := with_stdio 0 1 2.

(** The lanes in turn, up to the first failure. *)
Fixpoint step (self : ByteRelay) (w : World) : World * ByteRelay * list (list event) * result io_error () :=
  match self with
  | [] => (w, [], [], Ok ())
  | lane :: lanes =>
      let '(w, lane, log, r) := lane_step lane w in
      match r with
      | Err e => (w, lane :: lanes, log :: ((λ _, []) <$> lanes), Err e)
      | Ok _ =>
          let '(w, lanes, logs, r) := step lanes w in
          (w, lane :: lanes, log :: logs, r)
      end
  end.

Definition poll_descriptors (self : ByteRelay) (output : list pollfd) : list pollfd :=
  output ++ omap lane_poll self.

Definition take_channel (self : Lane) (w : World) : World * Lane :=
  (match ln_channel self with Some channel => sys_close channel w | None => w end,
   with_buffer self None (ln_start self) (ln_end self) (ln_eof self)).

Definition close_input (self : ByteRelay) (w : World) : World * ByteRelay :=
  match self with
  | [] => (w, [])
  | lane :: lanes => let '(w, lane) := take_channel lane w in (w, lane :: lanes)
  end.

Definition outputs_drained (self : ByteRelay) : bool :=
  forallb (λ lane, is_none (ln_channel lane) && (ln_start lane =? ln_end lane)%nat) (drop 1 self).

(** [finish]: every lane closes its channel and restores its flags; the first
    failure is reported after all of them. *)
Fixpoint finish_lanes (self : ByteRelay) (failure : option N) (w : World) : World * ByteRelay * option N :=
  match self with
  | [] => (w, [], failure)
  | lane :: lanes =>
      let '(w, lane) := take_channel lane w in
      let '(w, stdio, r) := restore (ln_stdio lane) w in
      let lane := {| ln_stdio := stdio; ln_channel := ln_channel lane; ln_buffer := ln_buffer lane;
                     ln_start := ln_start lane; ln_end := ln_end lane; ln_eof := ln_eof lane;
                     ln_input := ln_input lane |} in
      let failure := match r, failure with Err e, None => Some e | _, _ => failure end in
      let '(w, lanes, failure) := finish_lanes lanes failure w in
      (w, lane :: lanes, failure)
  end.
Definition finish (self : ByteRelay) (w : World) : World * ByteRelay * result N () :=
  let '(w, self, failure) := finish_lanes self None w in
  (w, self, match failure with Some e => Err e | None => Ok () end).

(** *** Bytes are neither lost, duplicated nor reordered *)
Context `{!TransferLaws World}.

Definition pending (l : Lane) : list u8 := slice (ln_buffer l) (ln_start l) (ln_end l).

(** What a lane and the transfers it made so far say about each other. *)
Record lane_ok (log : list event) (l : Lane) : Prop := {
  lk_buffer : length (ln_buffer l) = BUFFER_BYTES;
  lk_order : (ln_start l <= ln_end l)%nat;
  lk_bound : (ln_end l <= BUFFER_BYTES)%nat;
  lk_eof : ln_eof l = true → ln_channel l = None;
  lk_conserve : ∃ kept, received log = sent log ++ kept
    ∧ (kept = pending l ∨ (ln_input l = true ∧ ln_channel l = None));
  lk_end : ln_input l = false → ln_channel l = None → saw_end log = true ∧ pending l = []
}.

Lemma lane_write_bound l c data w w' n : lane_write l c data w = (w', Ok n) → (n <= length data)%nat.
Proof.
  unfold lane_write, stdio_write. destruct (ln_input l), (sd_socket (ln_stdio l)); intros E;
    first [by apply write_bound in E|by apply send_bound in E].
Qed.
Lemma lane_read_bound l c k w w' data : lane_read l c k w = (w', Ok data) → (length data <= k)%nat.
Proof.
  unfold lane_read, stdio_read. destruct (ln_input l), (sd_socket (ln_stdio l)); intros E;
    first [by apply read_bound in E|by apply recv_bound in E].
Qed.

(** On an open lane the kept bytes are the pending ones. *)
Lemma lane_ok_open log l c : lane_ok log l → ln_channel l = Some c → received log = sent log ++ pending l.
Proof. intros [_ _ _ _ (kept & -> & [-> | [_ ?]]) _] ?; [done|congruence]. Qed.

(** An event that moves no byte. *)
Definition quiet (e : event) : bool :=
  match e with Failed _ _ => true | Sent _ data => data ≟ [] | Received _ _ => false end.

Lemma lane_ok_quiet log l e : quiet e = true → lane_ok log l → lane_ok (log ++ [e]) l.
Proof.
  intros He [H1 H2 H3 H4 H5 H6]. split; try done.
  - rewrite received_app, sent_app. destruct e; cbn in *; [done| |by rewrite !app_nil_r].
    apply bool_decide_eq_true in He as ->. cbn. by rewrite !app_nil_r.
  - rewrite saw_end_app. intros. rewrite orb_true_iff. naive_solver.
Qed.

Lemma flush_ok log l c w w' l' log' r : lane_ok log l → ln_channel l = Some c →
  flush l c w = (w', l', log', r) →
  lane_ok (log ++ log') l' ∧ (r = Ok true → ln_channel l' = Some c)
  ∧ ln_input l' = ln_input l.
Proof.
  intros Hok Hc. unfold flush. destruct (lane_write _ _ _ w) as [w1 [n|e]] eqn:E.
  - destruct n as [|n]; intros [= <- <- <- <-]; [split_and!; [by apply lane_ok_quiet|done..]|].
    split_and!; [|done..]. apply lane_write_bound in E.
    pose proof (lane_ok_open _ _ _ Hok Hc) as Hr. destruct Hok as [H1 H2 H3 H4 _ H6].
    rewrite length_slice in E by lia.
    split; cbn [with_buffer ln_buffer ln_start ln_end ln_eof ln_channel ln_input]; try done; [lia| |congruence].
    exists (slice (ln_buffer l) (ln_start l + S n) (ln_end l)). split; [|by left].
    rewrite received_app, sent_app, Hr. cbn [received sent fmap list_fmap concat].
    rewrite !app_nil_r, <- app_assoc. f_equal. apply slice_advance. lia.
  - destruct (would_retry e).
    { intros [= <- <- <- <-]. split_and!; [by apply lane_ok_quiet|done..]. }
    destruct (ln_input l && (e =? EPIPE)) eqn:Ei; intros [= <- <- <- <-].
    + split_and!; [|done..]. apply andb_true_iff in Ei as [Ei _].
      pose proof (lane_ok_quiet log l (Failed (sink l c) e) eq_refl Hok) as [H1 H2 H3 H4 (kept & Hk & _) H6].
      split; cbn; try done; [lia| |congruence]. exists kept. split; [done|by right].
    + split_and!; [by apply lane_ok_quiet|done..].
Qed.

Lemma refill_ok log l c w w' l' log' r : lane_ok log l → ln_channel l = Some c → ln_start l = ln_end l →
  refill l c w = (w', l', log', r) → lane_ok (log ++ log') l' ∧ ln_input l' = ln_input l.
Proof.
  intros Hok Hc Hse. pose proof (lane_ok_open _ _ _ Hok Hc) as Hr.
  unfold pending in Hr. rewrite Hse, slice_empty, app_nil_r in Hr.
  destruct Hok as [H1 H2 H3 H4 _ H6]. unfold refill.
  cbn [with_buffer ln_eof]. destruct (ln_eof l) eqn:He; [rewrite H4 in Hc by done; discriminate|].
  destruct (lane_read _ _ _ w) as [w1 [data|e]] eqn:E.
  - apply lane_read_bound in E. cbn in E. destruct data as [|b data]; intros [= <- <- <- <-]; (split; [|done]).
    + split; cbn [with_buffer ln_buffer ln_start ln_end ln_eof ln_channel ln_input]; try done; try lia.
      * exists []. rewrite received_app, sent_app, Hr. cbn. rewrite !app_nil_r. auto.
      * intros _ _. rewrite saw_end_app. cbn. by rewrite orb_true_r.
    + split; cbn [ln_buffer ln_start ln_end ln_eof ln_channel ln_input]; try done; try lia.
      * rewrite length_fill; done.
      * rewrite H1 in E. done.
      * exists (b :: data). split; [|left; unfold pending; cbn [ln_buffer ln_start ln_end]; by rewrite slice_fill].
        rewrite received_app, sent_app, Hr. cbn [received sent fmap list_fmap concat]. by rewrite !app_nil_r.
      * congruence.
  - intros [= <- <- <- <-]. split; [|done]. apply lane_ok_quiet; [done|].
    split; cbn; try done; try lia; [|congruence].
    exists []. rewrite app_nil_r. auto.
Qed.

Lemma lane_step_ok log l w w' l' log' r : lane_ok log l → lane_step l w = (w', l', log', r) →
  lane_ok (log ++ log') l' ∧ ln_input l' = ln_input l.
Proof.
  intros Hok. unfold lane_step. destruct (ln_channel l) as [c|] eqn:Hc.
  2: { intros [= <- <- <- <-]. by rewrite app_nil_r. }
  destruct (if (ln_start l =? ln_end l)%nat then _ else _) as [[[w1 l1] log1] flow] eqn:E.
  assert (lane_ok (log ++ log1) l1 ∧ (flow = Ok true → ln_channel l1 = Some c) ∧ ln_input l1 = ln_input l)
    as (Hok1 & Hc1 & Hi).
  { destruct (ln_start l =? ln_end l)%nat; [|by eapply flush_ok].
    injection E as <- <- <- <-. by rewrite app_nil_r. }
  destruct flow as [[]|e]; [|intros [= <- <- <- <-]; done..].
  destruct (ln_start l1 =? ln_end l1)%nat eqn:Hse; [|intros [= <- <- <- <-]; done].
  destruct (refill l1 c w1) as [[[w2 l2] log2] r2] eqn:Er. intros [= <- <- <- <-].
  apply Nat.eqb_eq in Hse. eapply refill_ok in Er as [Hok2 Hi2]; [|done|auto|done].
  rewrite app_assoc. by rewrite Hi2.
Qed.

Lemma step_ok logs relay w w' relay' logs' r : Forall2 lane_ok logs relay →
  step relay w = (w', relay', logs', r) →
  Forall2 lane_ok (zip_with app logs logs') relay' ∧ ln_input <$> relay' = ln_input <$> relay.
Proof.
  intros Hok. revert w w' relay' logs' r.
  induction Hok as [|log lane logs lanes Hl Hok IH]; cbn [step]; intros w w' relay' logs' r.
  { by intros [= <- <- <- <-]. }
  destruct (lane_step lane w) as [[[w1 l1] log1] r1] eqn:E1.
  apply (lane_step_ok log) in E1 as [Hl1 Hi1]; [|done]. destruct r1 as [[]|e].
  - destruct (step lanes w1) as [[[w2 lanes2] logs2] r2] eqn:E2. intros [= <- <- <- <-].
    apply IH in E2 as [Hok2 Hi2]. cbn. split; [by constructor|by rewrite Hi1, Hi2].
  - intros [= <- <- <- <-]. cbn. rewrite Hi1. split; [|done]. constructor; [done|].
    clear -Hok. induction Hok; cbn; constructor; [by rewrite app_nil_r|done].
Qed.

(** Every state of a relay: it is built, then stepped and its input closed in
    any order, with the world free to change in between. *)
Inductive reach : list (list event) → ByteRelay → Prop :=
| reach_new d0 d1 d2 w w' relay ends :
    with_stdio d0 d1 d2 w = (w', Ok (relay, ends)) → reach [[]; []; []] relay
| reach_step logs relay w w' relay' logs' r :
    reach logs relay → step relay w = (w', relay', logs', r) → reach (zip_with app logs logs') relay'
| reach_close logs relay w :
    reach logs relay → reach logs (close_input relay w).2.

Lemma new_lane_ok stdio c input : lane_ok [] (new_lane stdio c input).
Proof.
  split; cbn [new_lane ln_buffer ln_start ln_end ln_eof ln_channel ln_input]; try done; try lia.
  exists []. split; [done|]. left. unfold pending. cbn [new_lane ln_buffer ln_start ln_end]. by rewrite slice_empty.
Qed.

Lemma on_error_Ok {A} cleanup (m : stM World N A) w w' a : on_error cleanup m w = (w', Ok a) ↔ m w = (w', Ok a).
Proof. unfold on_error. destruct (m w) as [? [|]]; naive_solver. Qed.

Lemma with_stdio_lanes d0 d1 d2 w w' relay ends : with_stdio d0 d1 d2 w = (w', Ok (relay, ends)) →
  ∃ i o e ci co ce, relay = [new_lane i ci true; new_lane o co false; new_lane e ce false].
Proof.
  unfold with_stdio. intros (w1 & i & E1 & E)%stM_bind_Ok. apply stM_bind_Ok in E as (w2 & o & E2 & E).
  apply stM_bind_Ok in E as (w3 & e & E3 & E). apply stM_bind_Ok in E as (w4 & pi & E4 & E).
  apply stM_bind_Ok in E as (w5 & po & E5 & E). apply stM_bind_Ok in E as (w6 & pe & E6 & E).
  injection E as <- <- <-. eauto 10.
Qed.

Lemma take_channel_ok log l w : ln_input l = true → lane_ok log l → lane_ok log (take_channel l w).2.
Proof.
  intros Hi [H1 H2 H3 H4 (kept & Hk & _) H6]. split; cbn; try done; [|congruence].
  exists kept. by auto.
Qed.

Lemma reach_ok logs relay : reach logs relay →
  Forall2 lane_ok logs relay ∧ ln_input <$> relay = [true; false; false].
Proof.
  induction 1 as [d0 d1 d2 w w' relay ends E|logs relay w w' relay' logs' r _ [IH Hi] E|logs relay w _ [IH Hi]].
  - apply with_stdio_lanes in E as (i & o & e & ci & co & ce & ->).
    split; [|done]. by do 3 (apply Forall2_cons; split; [apply new_lane_ok|]).
  - apply (step_ok logs) in E as [? ->]; done.
  - destruct relay as [|l0 lanes]; [done|]. cbn. injection Hi as Hi0 Hi.
    apply Forall2_cons_inv_r in IH as (log0 & logs0 & Hl0 & Hls & ->).
    split; [|by rewrite Hi0; f_equal]. apply Forall2_cons. split; [|done].
    exact (take_channel_ok _ _ w Hi0 Hl0).
Qed.

Lemma output_lane (relay : list Lane) i lane : ln_input <$> relay = [true; false; false] →
  relay !! S i = Some lane → ln_input lane = false.
Proof.
  intros Hi Hl. assert ((ln_input <$> relay) !! S i = Some (ln_input lane)) as E by by rewrite list_lookup_fmap, Hl.
  rewrite Hi in E. destruct i as [|[|i]]; cbn in E; by simplify_eq.
Qed.

Lemma drained_output logs (relay : list Lane) : Forall2 lane_ok logs relay →
  ln_input <$> relay = [true; false; false] → ∀ i lane log, outputs_drained relay = true →
  relay !! S i = Some lane → logs !! S i = Some log → sent log = received log ∧ saw_end log = true.
Proof.
  intros Hok Hi i lane log Hd Hl Hg.
  pose proof (Forall2_lookup_lr _ _ _ _ _ _ Hok Hg Hl) as Hlane. unfold outputs_drained in Hd.
  rewrite forallb_Forall, Forall_lookup in Hd. specialize (Hd i lane).
  rewrite lookup_drop in Hd. specialize (Hd Hl). bool_hyps.
  pose proof (lk_end _ _ Hlane (output_lane _ _ _ Hi Hl)) as [He Hp]; [done|]. split; [|done].
  destruct Hlane as [_ _ _ _ (kept & -> & [-> |[? _]]) _]; [by rewrite Hp, app_nil_r|].
  pose proof (output_lane _ _ _ Hi Hl). congruence.
Qed.

(** The front end's relay carries bytes exactly.  In every reachable state,
    for every lane, the bytes written are a prefix, in order, of the bytes
    read; while the lane is open the rest is what its buffer still holds, at
    most 16 KiB; and when the outputs are reported drained, both output lanes
    have written all that they read and have seen the end of their source. *)
Theorem frontend_relay_exact logs (relay : list Lane) i lane log :
  reach logs relay → relay !! i = Some lane → logs !! i = Some log →
  sent log `prefix_of` received log
  ∧ (is_some (ln_channel lane) = true → received log = sent log ++ pending lane)
  ∧ (length (pending lane) <= BUFFER_BYTES)%nat
  ∧ (outputs_drained relay = true → i ≠ 0%nat → sent log = received log ∧ saw_end log = true).
Proof.
  intros [Hok Hi]%reach_ok Hl Hg.
  pose proof (Forall2_lookup_lr _ _ _ _ _ _ Hok Hg Hl) as Hlane. split_and!.
  - destruct Hlane as [_ _ _ _ (kept & -> & _) _]. by apply prefix_app_r.
  - intros [c Hc]%is_some_true. by eapply lane_ok_open.
  - destruct Hlane as [H1 H2 H3 _ _ _]. unfold pending. rewrite length_slice; lia.
  - intros Hd Hne. destruct i as [|i]; [done|]. by eapply drained_output.
Qed.

(** *** Waiting *)
Definition event_fd (e : event) : fd :=
  match e with Received d _ => d | Sent d _ => d | Failed d _ => d end.
Definition writes (e : event) : bool := match e with Sent _ _ => true | _ => false end.

(** A relay waits for what it will do next.  The descriptor that a lane asks
    to be polled is the one its next step transfers on, for writing exactly
    when bytes are pending; a lane that polls nothing does nothing. *)
Theorem poll_names_next_transfer logs relay lane w :
  reach logs relay → lane ∈ relay →
  match lane_poll lane with
  | None => lane_step lane w = (w, lane, [], Ok ())
  | Some p => ∃ w' lane' e log r,
      lane_step lane w = (w', lane', e :: log, r) ∧ event_fd e = pf_fd p
      ∧ (pf_events p = if bool_decide (pending lane = []) then POLLIN else POLLOUT)
  end.
Proof.
  intros [Hok _]%reach_ok Hin. apply list_elem_of_lookup in Hin as [i Hl].
  destruct (Forall2_lookup_r _ _ _ _ _ Hok Hl) as (log & _ & [H1 H2 H3 H4 _ _]).
  unfold lane_poll, lane_step. destruct (ln_channel lane) as [c|] eqn:Hc; [|done].
  destruct (ln_start lane =? ln_end lane)%nat eqn:Hse; cbn [negb].
  - rewrite Hse. apply Nat.eqb_eq in Hse. unfold pending. rewrite Hse, slice_empty.
    destruct (refill lane c w) as [[[w1 l1] log1] r1] eqn:E. unfold refill in E.
    cbn [with_buffer ln_eof] in E. destruct (ln_eof lane) eqn:He; [by specialize (H4 eq_refl)|].
    assert (∃ e, log1 = [e] ∧ event_fd e = source lane c) as (e & -> & Hf).
    { destruct (lane_read _ _ _ w) as [w2 [[|b data]|e]]; simplify_eq; eexists; done. }
    exists w1, l1, e, [], r1. split_and!; [done| |done]. rewrite Hf. unfold source. by destruct (ln_input lane).
  - apply Nat.eqb_neq in Hse.
    assert (pending lane ≠ []) as Hp.
    { intros E. apply (f_equal length) in E. unfold pending in E. rewrite length_slice in E; cbn in E; lia. }
    rewrite bool_decide_false by done.
    destruct (flush lane c w) as [[[w1 l1] log1] r1] eqn:E. unfold flush in E.
    assert (∃ e, log1 = [e] ∧ event_fd e = sink lane c) as (e & -> & Hf).
    { destruct (lane_write _ _ _ w) as [w2 [[|n]|e]]; [simplify_eq; eexists; done..|].
      destruct (would_retry e); [|destruct (ln_input lane && _)]; simplify_eq; eexists; done. }
    assert (event_fd e = (if Bool.eqb (ln_input lane) true then c else sd_fd (ln_stdio lane))) as Hfd.
    { rewrite Hf. unfold sink. by destruct (ln_input lane). }
    destruct r1 as [[]|er]; [|eexists _, _, e, [], _; by split_and!..].
    destruct (ln_start l1 =? ln_end l1)%nat; [|eexists _, _, e, [], _; by split_and!].
    destruct (refill l1 c w1) as [[[w2 l2] log2] r2]. cbn. eexists _, _, e, log2, _. by split_and!.
Qed.

(** *** Draining *)

(** A class of worlds in which every source has ended and every sink takes at
    least one byte. *)
Record settled (P : World → Prop) : Prop := {
  st_read d n w : P w → ∃ w', sys_read d n w = (w', Ok []) ∧ P w';
  st_recv d n w : P w → ∃ w', sys_recv d n w = (w', Ok []) ∧ P w';
  st_write d l w : P w → l ≠ [] → ∃ w' n, sys_write d l w = (w', Ok (S n)) ∧ P w';
  st_send d l w : P w → l ≠ [] → ∃ w' n, sys_send d l w = (w', Ok (S n)) ∧ P w';
  st_close d w : P w → P (sys_close d w)
}.

(** [while !drained { relay.step()?; }] for a number of rounds. *)
Fixpoint steps (n : nat) (relay : ByteRelay) (w : World) : World * ByteRelay * result io_error () :=
  match n with
  | O => (w, relay, Ok ())
  | S n =>
      let '(w, relay, _, r) := step relay w in
      match r with Ok _ => steps n relay w | Err e => (w, relay, Err e) end
  end.

(** How many steps a lane can still need. *)
Definition steps_left (l : Lane) : nat :=
  match ln_channel l with None => 0 | Some _ => S (length (pending l)) end.

Section Settled.
Context (P : World → Prop) (HP : settled P).

Lemma lane_write_settled l c data w : P w → data ≠ [] →
  ∃ w' n, lane_write l c data w = (w', Ok (S n)) ∧ P w'.
Proof.
  unfold lane_write, stdio_write. destruct (ln_input l), (sd_socket (ln_stdio l)); intros;
    eauto using st_write, st_send.
Qed.
Lemma lane_read_settled l c k w : P w → ∃ w', lane_read l c k w = (w', Ok []) ∧ P w'.
Proof.
  unfold lane_read, stdio_read. destruct (ln_input l), (sd_socket (ln_stdio l)); intros;
    eauto using st_read, st_recv.
Qed.

Lemma refill_settled l c w : ln_channel l = Some c → P w → ∃ w' l' log',
  refill l c w = (w', l', log', Ok ()) ∧ P w' ∧ steps_left l' = 0%nat.
Proof.
  intros Hc Hw. unfold refill. cbn [with_buffer ln_eof].
  destruct (ln_eof l); [eexists _, _, _; split_and!; [done|by apply HP|done]|].
  destruct (lane_read_settled (with_buffer l (ln_channel l) 0 0 false) c
    (length (ln_buffer (with_buffer l (ln_channel l) 0 0 false))) w Hw) as (w1 & -> & Hw1).
  eexists _, _, _. split_and!; [done|by apply HP|done].
Qed.

Lemma lane_step_settled log l w : lane_ok log l → P w → ∃ w' l' log',
  lane_step l w = (w', l', log', Ok ()) ∧ P w' ∧ (steps_left l' <= pred (steps_left l))%nat.
Proof.
  intros Hok Hw. unfold lane_step. destruct (ln_channel l) as [c|] eqn:Hc.
  2: { eexists _, _, _. split_and!; [done|done|]. unfold steps_left. by rewrite Hc. }
  destruct (ln_start l =? ln_end l)%nat eqn:Hse.
  { destruct (refill_settled l c w Hc Hw) as (w1 & l1 & log1 & E & Hw1 & Hm).
    rewrite Hse, E. eexists _, _, _. split_and!; [done|done|lia]. }
  apply Nat.eqb_neq in Hse. pose proof (lk_order _ _ Hok). pose proof (lk_bound _ _ Hok).
  pose proof (lk_buffer _ _ Hok) as Hlen.
  destruct (lane_write_settled l c (pending l) w Hw) as (w1 & n & Ew & Hw1).
  { intros E. apply (f_equal length) in E. unfold pending in E. rewrite length_slice in E; cbn in E; lia. }
  pose proof (lane_write_bound _ _ _ _ _ _ Ew) as Hb. unfold pending in Hb. rewrite length_slice in Hb by lia.
  unfold flush. unfold pending in Ew. rewrite Ew. cbn [with_buffer ln_start ln_end].
  set (l1 := with_buffer l _ _ _ _).
  destruct (ln_start l + S n =? ln_end l)%nat eqn:Hse1.
  - destruct (refill_settled l1 c w1 Hc Hw1) as (w2 & l2 & log2 & E & Hw2 & Hm).
    rewrite E. eexists _, _, _. split_and!; [done|done|lia].
  - apply Nat.eqb_neq in Hse1. eexists _, _, _. split_and!; [done|done|].
    unfold steps_left. rewrite Hc. cbn [ln_channel with_buffer l1]. rewrite Hc.
    unfold pending, l1. cbn [ln_buffer ln_start ln_end with_buffer]. rewrite !length_slice; lia.
Qed.

Lemma step_settled logs relay w k : Forall2 lane_ok logs relay → P w →
  Forall (λ l, (steps_left l <= k)%nat) relay → ∃ w' relay' logs',
  step relay w = (w', relay', logs', Ok ()) ∧ P w' ∧ Forall (λ l, (steps_left l <= pred k)%nat) relay'.
Proof.
  intros Hok. revert w. induction Hok as [|log lane logs lanes Hl Hok IH]; intros w Hw Hk; cbn [step].
  { eexists _, _, _. by split_and!. }
  apply Forall_cons in Hk as [Hk0 Hk].
  destruct (lane_step_settled log lane w Hl Hw) as (w1 & l1 & log1 & -> & Hw1 & Hm).
  destruct (IH w1 Hw1 Hk) as (w2 & lanes2 & logs2 & -> & Hw2 & Hm2).
  eexists _, _, _. split_and!; [done|done|]. constructor; [lia|done].
Qed.

Lemma steps_settled n logs relay w k : Forall2 lane_ok logs relay → P w →
  Forall (λ l, (steps_left l <= k)%nat) relay → ∃ w' relay' logs',
  steps n relay w = (w', relay', Ok ()) ∧ Forall2 lane_ok logs' relay'
  ∧ (ln_input <$> relay') = (ln_input <$> relay)
  ∧ Forall (λ l, (steps_left l <= k - n)%nat) relay'.
Proof.
  revert logs relay w k. induction n as [|n IH]; intros logs relay w k Hok Hw Hk; cbn [steps].
  { eexists _, _, _. split_and!; [done|done|done|]. by rewrite Nat.sub_0_r. }
  destruct (step_settled logs relay w k Hok Hw Hk) as (w1 & relay1 & logs1 & E & Hw1 & Hk1). rewrite E.
  apply (step_ok logs) in E as [Hok1 Hi1]; [|done].
  destruct (IH _ _ w1 (pred k) Hok1 Hw1 Hk1) as (w2 & relay2 & logs2 & -> & Hok2 & Hi2 & Hk2).
  eexists _, _, logs2. split_and!; [done|done|by rewrite Hi2|].
  by replace (k - S n)%nat with (pred k - n)%nat by lia.
Qed.
End Settled.

(** C23: the drain loop ends.  Once every source has ended and the sinks take at
    least one byte at a time, 16385 rounds without an error leave the outputs
    drained, whatever the relay still held. *)
Theorem frontend_relay_drains (P : World → Prop) logs relay w :
  settled P → P w → reach logs relay →
  ∃ w' relay', steps (S BUFFER_BYTES) relay w = (w', relay', Ok ()) ∧ outputs_drained relay' = true.
Proof.
  intros HP Hw [Hok Hi]%reach_ok.
  destruct (steps_settled P HP (S BUFFER_BYTES) logs relay w (S BUFFER_BYTES)) as
    (w' & relay' & logs' & E & Hok' & Hi' & Hk); [done|done| |].
  { apply Forall_lookup. intros i l Hl. destruct (Forall2_lookup_r _ _ _ _ _ Hok Hl) as (log & _ & H0).
    unfold steps_left. destruct (ln_channel l); [|lia]. unfold pending.
    destruct H0 as [H1 H2 H3 _ _ _]. rewrite length_slice; lia. }
  exists w', relay'. split; [done|]. unfold outputs_drained. apply forallb_Forall, Forall_lookup.
  intros i l. rewrite lookup_drop. intros Hl.
  destruct (Forall2_lookup_r _ _ _ _ _ Hok' Hl) as (log & _ & H0).
  rewrite Forall_lookup in Hk. specialize (Hk _ _ Hl). cbv beta in Hk.
  assert (ln_input l = false) as Hin by (eapply output_lane; [by rewrite Hi'|exact Hl]).
  unfold steps_left in Hk. destruct (ln_channel l) eqn:Hc; [lia|]. cbn. apply Nat.eqb_eq.
  pose proof (lk_end _ _ H0 Hin Hc) as [_ Hp]. apply (f_equal length) in Hp. unfold pending in Hp.
  destruct H0 as [H1 H2 H3 _ _ _]. rewrite length_slice in Hp; cbn in Hp; lia.
Qed.

(** *** Status flags *)
Section Flags.
Context `{!FlagLaws World}.

Lemma untouched_trans w1 w2 w3 : untouched w1 w2 → untouched w2 w3 → untouched w1 w3.
Proof.
  intros [S1 D1] [S2 D2]. split; [by intros; rewrite S2, S1|].
  intros d Hd. destruct (D1 d Hd) as [Hd' <-]. by apply D2.
Qed.

(** The descriptors and descriptions of a world are those of another. *)
Definition keeps (w w' : World) : Prop :=
  ∀ d, is_open w d → is_open w' d ∧ description w' d = description w d.

Lemma keeps_trans w1 w2 w3 : keeps w1 w2 → keeps w2 w3 → keeps w1 w3.
Proof. intros D1 D2 d Hd. destruct (D1 d Hd) as [Hd' <-]. by apply D2. Qed.

(** The flags after a change of one description. *)
Definition set_status (f : N → N) (changed : bool) (x v y : N) : N :=
  if changed && (y ≟ x) then v else f y.

Lemma acquire_flags d w w' s : acquire d w = (w', Ok s) → is_open w d →
  let x := description w d in
  ¬ is_open w (sd_fd s) ∧ is_open w' (sd_fd s) ∧ description w' (sd_fd s) = x ∧ keeps w w'
  ∧ sd_original_flags s = status w x ∧ sd_restored s = sd_socket s
  ∧ ∀ y, status w' y = set_status (status w) (negb (sd_socket s)) x (N.lor (status w x) O_NONBLOCK) y.
Proof.
  intros E Hd x. unfold acquire in E.
  apply stM_bind_Ok in E as (w1 & d' & (Hn & Ho & Hdesc & U1)%dup_shares & E).
  apply stM_bind_Ok in E as (w2 & flags & [-> U2]%on_error_Ok%getfl_reads & E).
  apply stM_bind_Ok in E as (w3 & kind & U3%on_error_Ok%fstat_reads & E).
  apply stM_bind_Ok in E as (w4 & [] & E4 & E). injection E as <- <-.
  cbn [sd_fd sd_original_flags sd_socket sd_restored].
  pose proof (untouched_trans _ _ _ U1 (untouched_trans _ _ _ U2 U3)) as [S3 D3].
  destruct (proj2 (untouched_trans _ _ _ U2 U3) d' Ho) as [Ho3 Hd3].
  assert (status w1 (description w1 d') = status w x) as Hx by (rewrite Hdesc; apply U1).
  rewrite Hx in *. destruct (bool_decide (kind = Socket)); cbn [negb] in *.
  - injection E4 as <-. split_and!; try done. by rewrite Hd3.
  - apply on_error_Ok, setfl_writes in E4 as [S4 D4]. destruct (D4 d' Ho3) as [Ho4 Hd4].
    split_and!; try done; [by rewrite Hd4, Hd3|by apply (keeps_trans w w3)|].
    intros y. unfold set_status. rewrite S4, S3, Hd3, Hdesc. done.
Qed.

Lemma restore_flags s w w' s' : restore s w = (w', s', Ok ()) →
  keeps w w' ∧ ∀ y, status w' y = set_status (status w) (negb (sd_restored s)) (description w (sd_fd s))
    (sd_original_flags s) y.
Proof.
  unfold restore. destruct (sd_restored s) eqn:Hr.
  { by intros [= <- <-]. }
  destruct (sys_setfl _ _ w) as [w1 [[]|e]] eqn:E; [|done]. intros [= <- <-].
  by apply setfl_writes in E as [S D].
Qed.

Definition lane_fd (l : Lane) : fd := sd_fd (ln_stdio l).
(** The flags after the lanes are restored in turn. *)
Definition restored_status (w : World) (lanes : list Lane) (f : N → N) : N → N :=
  foldl (λ f l, set_status f (negb (sd_restored (ln_stdio l))) (description w (lane_fd l))
                  (sd_original_flags (ln_stdio l))) f lanes.
Lemma restored_status_ext w lanes f g y : (∀ y, f y = g y) → restored_status w lanes f y = restored_status w lanes g y.
Proof.
  revert f g. induction lanes as [|l lanes IH]; intros f g E; cbn; [done|].
  apply IH. intros z. unfold set_status. by rewrite E.
Qed.
Lemma restored_status_world w w' lanes f y :
  (∀ l, l ∈ lanes → description w' (lane_fd l) = description w (lane_fd l)) →
  restored_status w' lanes f y = restored_status w lanes f y.
Proof.
  revert f. induction lanes as [|l lanes IH]; intros f E; cbn; [done|].
  rewrite E by left. apply IH. intros l' Hl'. apply E. by right.
Qed.

Lemma finish_lanes_failed lanes e w w' lanes' : finish_lanes lanes (Some e) w ≠ (w', lanes', None).
Proof.
  revert w w' lanes'. induction lanes as [|l lanes IH]; intros w w' lanes'; cbn; [done|].
  destruct (restore _ _) as [[w1 s] r]. replace (match r with Ok _ => Some e | Err _ => Some e end) with (Some e)
    by by destruct r. destruct (finish_lanes lanes (Some e) w1) as [[w2 lanes2] f2] eqn:E2.
  intros [= -> <- ->]. by apply IH in E2.
Qed.

Lemma finish_lanes_flags lanes w w' lanes' :
  (∀ l l' c, l ∈ lanes → l' ∈ lanes → ln_channel l = Some c → c ≠ lane_fd l') →
  (∀ l, l ∈ lanes → is_open w (lane_fd l)) →
  finish_lanes lanes None w = (w', lanes', None) →
  ∀ y, status w' y = restored_status w lanes (status w) y.
Proof.
  revert w w' lanes'. induction lanes as [|l lanes IH]; intros w w' lanes' Hc Ho; cbn [finish_lanes].
  { by intros [= <- <-]. }
  destruct (take_channel l w) as [w1 l1] eqn:E1. injection E1 as Ew1 <-. cbn [with_buffer ln_stdio].
  destruct (restore (ln_stdio l) w1) as [[w2 s2] r] eqn:E2.
  assert ((∀ x, status w1 x = status w x) ∧ ∀ l', l' ∈ l :: lanes →
    is_open w1 (lane_fd l') ∧ description w1 (lane_fd l') = description w (lane_fd l')) as [S1 D1].
  { subst w1. destruct (ln_channel l) as [c|] eqn:El; [|split; [done|]; intros; by auto].
    split; [apply close_one|]. intros l' Hl'.
    apply close_one; [|by apply Ho]. by apply not_eq_sym, (Hc l l' c); [left|..]. }
  destruct r as [[]|e].
  2: { destruct (finish_lanes lanes (Some e) w2) as [[w3 lanes3] f3] eqn:E3. intros [= -> <- ->].
       by apply finish_lanes_failed in E3. }
  apply restore_flags in E2 as [K2 S2].
  destruct (finish_lanes lanes None w2) as [[w3 lanes3] f3] eqn:E3. intros [= -> <- ->] y.
  assert (∀ l', l' ∈ l :: lanes → is_open w2 (lane_fd l') ∧ description w2 (lane_fd l') = description w (lane_fd l')) as D2.
  { intros l' Hl'. destruct (D1 l' Hl') as [O1 <-]. by apply K2. }
  rewrite (IH _ _ _ ltac:(intros l0 l0' c0 ???; apply (Hc l0 l0' c0); [by right|by right|done]) ltac:(intros; apply D2; by right) E3 y).
  rewrite (restored_status_world w w2) by (intros; apply D2; by right).
  cbn [restored_status foldl]. apply restored_status_ext. intros z. rewrite S2. unfold set_status.
  fold (lane_fd l). by rewrite (proj2 (D1 l ltac:(left))), S1.
Qed.

(** A later state of a relay: same streams, channels possibly closed. *)
Definition descends (l l' : Lane) : Prop :=
  ln_stdio l' = ln_stdio l ∧ (ln_channel l' = ln_channel l ∨ ln_channel l' = None).

(** What the construction leaves: three duplicates, their flags, and channels
    that are other descriptors. *)
Lemma with_stdio_flags d0 d1 d2 w w' relay ends :
  with_stdio d0 d1 d2 w = (w', Ok (relay, ends)) → is_open w d0 → is_open w d1 → is_open w d2 →
  ∃ s0 s1 s2 c0 c1 c2,
    relay = [new_lane s0 c0 true; new_lane s1 c1 false; new_lane s2 c2 false]
    ∧ (∀ c s, c ∈ [c0; c1; c2] → s ∈ [s0; s1; s2] → c ≠ sd_fd s)
    ∧ Forall2 (λ s d, is_open w' (sd_fd s) ∧ description w' (sd_fd s) = description w d
                      ∧ sd_restored s = sd_socket s) [s0; s1; s2] [d0; d1; d2]
    ∧ let mark f s d := set_status f (negb (sd_socket s)) (description w d)
                          (N.lor (f (description w d)) O_NONBLOCK) in
      let f1 := mark (status w) s0 d0 in
      let f2 := mark f1 s1 d1 in
      sd_original_flags s0 = status w (description w d0)
      ∧ sd_original_flags s1 = f1 (description w d1)
      ∧ sd_original_flags s2 = f2 (description w d2)
      ∧ ∀ y, status w' y = mark f2 s2 d2 y.
Proof.
  unfold with_stdio. intros E H0 H1 H2.
  apply stM_bind_Ok in E as (w1 & s0 & E0 & E). apply stM_bind_Ok in E as (w2 & s1 & E1%on_error_Ok & E).
  apply stM_bind_Ok in E as (w3 & s2 & E2%on_error_Ok & E).
  apply stM_bind_Ok in E as (w4 & p0 & (Na & Nb & U4)%on_error_Ok%pipe_adds & E).
  apply stM_bind_Ok in E as (w5 & p1 & (Nc & Nd & U5)%on_error_Ok%pipe_adds & E).
  apply stM_bind_Ok in E as (w6 & p2 & (Ne & Nf & U6)%on_error_Ok%pipe_adds & E). injection E as <- <- <-.
  apply acquire_flags in E0 as (_ & O0 & D0 & K0 & F0 & R0 & S0); [|done].
  destruct (K0 d1 H1) as [H1' Hd1]. destruct (K0 d2 H2) as [H2' Hd2].
  apply acquire_flags in E1 as (_ & O1 & D1 & K1 & F1 & R1 & S1); [|done].
  destruct (K1 d2 H2') as [H2'' Hd2'].
  apply acquire_flags in E2 as (_ & O2 & D2 & K2 & F2 & R2 & S2); [|done].
  rewrite Hd1 in D1, F1, S1. rewrite Hd2', Hd2 in D2, F2, S2.
  pose proof (keeps_trans _ _ _ K1 K2) as K12. destruct U4 as [S4 K4], U5 as [S5 K5], U6 as [S6 K6].
  pose proof (keeps_trans _ _ _ K4 (keeps_trans _ _ _ K5 K6)) as K46.
  destruct (K12 _ O0) as [O0' D0']. destruct (K2 _ O1) as [O1' D1'].
  assert (∀ s, s ∈ [s0; s1; s2] → is_open w3 (sd_fd s)) as Oall.
  { intros s Hs. set_unfold in Hs. destruct_or!; by subst. }
  exists s0, s1, s2, p0.2, p1.1, p2.1. split_and!; [done| | |done| | |].
  - intros c s Hc Hs%Oall Ec. set_unfold in Hc. destruct Hc as [Hc|[Hc|[Hc|[]]]];
      rewrite <- Ec, Hc in Hs.
    + done.
    + by apply Nc, K4.
    + by apply Ne, K5, K4.
  - apply Forall2_cons_2; [|apply Forall2_cons_2; [|apply Forall2_cons_2; [|constructor]]].
    + destruct (K46 _ O0'). split_and!; [done|congruence|done].
    + destruct (K46 _ O1'). split_and!; [done|congruence|done].
    + destruct (K46 _ O2). split_and!; [done|congruence|done].
  - by rewrite F1, S0.
  - unfold set_status in *. by rewrite F2, S1, !S0.
  - intros y. unfold set_status in *. by rewrite S6, S5, S4, S2, !S1, !S0.
Qed.

(** Restoring in the order of acquisition, over the flags that acquisition
    left: a description that two lanes share keeps the flag. *)
Definition holders (w : World) (relay : list Lane) (y : N) : nat :=
  length (filter (λ l, sd_socket (ln_stdio l) = false ∧ description w (lane_fd l) = y) relay).

Lemma restore_in_order (f : N → N) (k0 k1 k2 : bool) (x0 x1 x2 flag y : N) :
  let mark f k x := set_status f k x (N.lor (f x) flag) in
  let f1 := mark f k0 x0 in
  let f2 := mark f1 k1 x1 in
  set_status (set_status (set_status (mark f2 k2 x2) k0 x0 (f x0)) k1 x1 (f1 x1)) k2 x2 (f2 x2) y =
  if (2 <=? Nat.b2n (k0 && (x0 ≟ y)) + Nat.b2n (k1 && (x1 ≟ y)) + Nat.b2n (k2 && (x2 ≟ y)))%nat
  then N.lor (f y) flag else f y.
Proof.
  assert (∀ a, N.lor (N.lor a flag) flag = N.lor a flag) as Hi by (intros; by rewrite <- N.lor_assoc, N.lor_diag).
  cbv zeta. unfold set_status.
  destruct k0, k1, k2; cbn [andb Nat.b2n Nat.add];
    destruct (decide (x0 = y)) as [->|N0], (decide (x1 = y)) as [->|N1], (decide (x2 = y)) as [->|N2];
    rewrite ?(bool_decide_true (y = y)) by done;
    rewrite ?(bool_decide_false (y = x0)), ?(bool_decide_false (x0 = y)) by done;
    rewrite ?(bool_decide_false (y = x1)), ?(bool_decide_false (x1 = y)) by done;
    rewrite ?(bool_decide_false (y = x2)), ?(bool_decide_false (x2 = y)) by done;
    cbn; rewrite ?Hi; done.
Qed.

Lemma holders_three w a b c y : holders w [a; b; c] y =
  (Nat.b2n (negb (sd_socket (ln_stdio a)) && (description w (lane_fd a) ≟ y))
   + Nat.b2n (negb (sd_socket (ln_stdio b)) && (description w (lane_fd b) ≟ y))
   + Nat.b2n (negb (sd_socket (ln_stdio c)) && (description w (lane_fd c) ≟ y)))%nat.
Proof.
  assert (∀ l (ls : list Lane), holders w (l :: ls) y =
    (Nat.b2n (negb (sd_socket (ln_stdio l)) && (description w (lane_fd l) ≟ y)) + holders w ls y)%nat) as Hc.
  { intros l ls. unfold holders. rewrite filter_cons.
    destruct (sd_socket (ln_stdio l)) eqn:Hs, (decide (description w (lane_fd l) = y)) as [Hd|Hd].
    - by rewrite decide_False by (intros [? _]; done).
    - by rewrite decide_False by (intros [? _]; done).
    - rewrite decide_True, bool_decide_true by done. done.
    - rewrite decide_False, bool_decide_false by (done || by intros [_ ?]). done. }
  rewrite !Hc. change (holders w [] y) with 0%nat. lia.
Qed.

Lemma finish_status d0 d1 d2 w w1 relay ends relay' w2 w3 relay'' :
  with_stdio d0 d1 d2 w = (w1, Ok (relay, ends)) → is_open w d0 → is_open w d1 → is_open w d2 →
  Forall2 descends relay relay' →
  (∀ y, status w2 y = status w1 y) →
  (∀ l, l ∈ (relay : list Lane) → is_open w2 (lane_fd l) ∧ description w2 (lane_fd l) = description w1 (lane_fd l)) →
  finish relay' w2 = (w3, relay'', Ok ()) →
  ∀ y, status w3 y = if (2 <=? holders w1 relay y)%nat then N.lor (status w y) O_NONBLOCK else status w y.
Proof.
  intros E H0 H1 H2 Hdesc Hst Hk Ef y.
  apply with_stdio_flags in E as (s0 & s1 & s2 & c0 & c1 & c2 & -> & Hc & Hs & F0 & F1 & F2 & Hf); [|done..].
  apply Forall2_cons_inv_l in Hdesc as (l0 & ? & [E0 C0] & Hdesc & ->).
  apply Forall2_cons_inv_l in Hdesc as (l1 & ? & [E1 C1] & Hdesc & ->).
  apply Forall2_cons_inv_l in Hdesc as (l2 & ? & [E2 C2] & ->%Forall2_nil_inv_l & ->).
  cbn in E0, C0, E1, C1, E2, C2.
  apply Forall2_cons in Hs as [(_ & X0 & R0) Hs]. apply Forall2_cons in Hs as [(_ & X1 & R1) Hs].
  apply Forall2_cons in Hs as [(_ & X2 & R2) _].
  assert (∀ s, s ∈ [s0; s1; s2] → is_open w2 (sd_fd s) ∧ description w2 (sd_fd s) = description w1 (sd_fd s)) as Hk'.
  { intros s Hin. set_unfold in Hin. destruct Hin as [->|[->|[->|[]]]].
    - apply (Hk (new_lane s0 c0 true)). left.
    - apply (Hk (new_lane s1 c1 false)). right; left.
    - apply (Hk (new_lane s2 c2 false)). right; right; left. }
  unfold finish in Ef. destruct (finish_lanes _ None w2) as [[w4 lanes4] f4] eqn:E4.
  destruct f4; [done|]. injection Ef as -> ->.
  assert (∀ l, l ∈ [l0; l1; l2] → ln_stdio l ∈ [s0; s1; s2]) as Hin.
  { intros l Hl. set_unfold in Hl. destruct Hl as [->|[->|[->|[]]]]; rewrite ?E0, ?E1, ?E2; set_solver. }
  assert (∀ l c, l ∈ [l0; l1; l2] → ln_channel l = Some c → c ∈ [c0; c1; c2]) as Hch.
  { intros l c Hl Hlc. set_unfold in Hl.
    destruct Hl as [->|[->|[->|[]]]]; destruct_or!; simplify_eq; set_solver. }
  rewrite (finish_lanes_flags _ _ _ _ ltac:(intros l l' c Hl Hl' Hlc; apply Hc; eauto)
             ltac:(intros l Hl; by apply Hk', Hin) E4).
  rewrite (restored_status_ext _ _ _ _ _ (λ y, eq_trans (Hst y) (Hf y))).
  unfold restored_status, lane_fd. cbn [foldl]. rewrite E0, E1, E2.
  rewrite !(proj2 (Hk' s0 ltac:(set_solver))), !(proj2 (Hk' s1 ltac:(set_solver))),
    !(proj2 (Hk' s2 ltac:(set_solver))), X0, X1, X2, R0, R1, R2, F0, F1, F2.
  rewrite restore_in_order, holders_three. unfold lane_fd. cbn [new_lane ln_stdio]. by rewrite X0, X1, X2.
Qed.

(** What a relay can become before it is finished. *)
Inductive later (relay : ByteRelay) : ByteRelay → Prop :=
| later_refl : later relay relay
| later_step relay1 w w' relay2 logs r :
    later relay relay1 → step relay1 w = (w', relay2, logs, r) → later relay relay2
| later_close relay1 w : later relay relay1 → later relay (close_input relay1 w).2.

Lemma with_buffer_descends l channel start finish eof :
  channel = ln_channel l ∨ channel = None → descends l (with_buffer l channel start finish eof).
Proof. by split. Qed.

#[local] Instance descends_preorder : PreOrder descends.
Proof.
  split; [split; auto|]. intros l1 l2 l3 [E1 C1] [E2 C2].
  split; [congruence|]. destruct C2 as [-> | ->]; auto.
Qed.

Lemma flush_descends l c w w' l' log r : flush l c w = (w', l', log, r) → descends l l'.
Proof.
  unfold flush. destruct (lane_write _ _ _ w) as [w1 [[|n]|e]]; [|..|destruct (would_retry e); [|destruct (_ && _)]];
    intros [= <- <- <- <-]; split; cbn; auto.
Qed.
Lemma refill_descends l c w w' l' log r : refill l c w = (w', l', log, r) → descends l l'.
Proof.
  unfold refill. cbn [with_buffer ln_eof]. destruct (ln_eof l); [intros [= <- <- <- <-]; split; cbn; auto|].
  destruct (lane_read _ _ _ w) as [w1 [[|b data]|e]]; intros [= <- <- <- <-]; split; cbn; auto.
Qed.
Lemma lane_step_descends l w w' l' log r : lane_step l w = (w', l', log, r) → descends l l'.
Proof.
  unfold lane_step. destruct (ln_channel l) as [c|]; [|intros [= <- <- <- <-]; split; auto].
  destruct (if (ln_start l =? ln_end l)%nat then _ else _) as [[[w1 l1] log1] flow] eqn:E.
  assert (descends l l1) as H1.
  { destruct (ln_start l =? ln_end l)%nat; [injection E as <- <- <- <-; split; auto|by eapply flush_descends]. }
  destruct flow as [[]|e]; [|intros [= <- <- <- <-]; done..].
  destruct (ln_start l1 =? ln_end l1)%nat; [|intros [= <- <- <- <-]; done].
  destruct (refill l1 c w1) as [[[w2 l2] log2] r2] eqn:Er. intros [= <- <- <- <-].
  etrans; [done|by eapply refill_descends].
Qed.
Lemma step_descends relay w w' relay' logs r : step relay w = (w', relay', logs, r) → Forall2 descends relay relay'.
Proof.
  revert w w' relay' logs r. induction relay as [|l lanes IH]; intros w w' relay' logs r; cbn [step].
  { by intros [= <- <- <- <-]. }
  destruct (lane_step l w) as [[[w1 l1] log1] r1] eqn:E1. apply lane_step_descends in E1. destruct r1 as [[]|e].
  - destruct (step lanes w1) as [[[w2 lanes2] logs2] r2] eqn:E2. intros [= <- <- <- <-]. constructor; eauto.
  - intros [= <- <- <- <-]. by constructor.
Qed.
Lemma later_descends relay relay' : later relay relay' → Forall2 descends relay relay'.
Proof.
  induction 1 as [|relay1 w w' relay2 logs r _ IH E|relay1 w _ IH].
  - done.
  - etrans; [done|by eapply step_descends].
  - etrans; [done|]. destruct relay1 as [|l lanes]; constructor; [|done].
    apply with_buffer_descends. auto.
Qed.

(** Finishing a relay restores the status flags of the front end's streams,
    unless they share an open file description.  After a successful [finish],
    in any later state of a relay and while nobody else changes the flags, all
    flags are those from before the relay was built if and only if every
    description that two of the three streams share, sockets apart, was
    non-blocking from the start; a shared description keeps [O_NONBLOCK]. *)
Theorem finish_restores_unshared d0 d1 d2 w w1 relay ends relay' w2 w3 relay'' :
  with_stdio d0 d1 d2 w = (w1, Ok (relay, ends)) → is_open w d0 → is_open w d1 → is_open w d2 →
  later relay relay' →
  (∀ y, status w2 y = status w1 y) →
  (∀ l, l ∈ (relay : list Lane) → is_open w2 (lane_fd l) ∧ description w2 (lane_fd l) = description w1 (lane_fd l)) →
  finish relay' w2 = (w3, relay'', Ok ()) →
  ((∀ y, status w3 y = status w y)
   ↔ ∀ y, (2 <= holders w1 relay y)%nat → N.lor (status w y) O_NONBLOCK = status w y)
  ∧ ∀ y, (2 <= holders w1 relay y)%nat → status w3 y = N.lor (status w y) O_NONBLOCK.
Proof.
  intros E H0 H1 H2 Hl Hst Hk Ef.
  pose proof (finish_status _ _ _ _ _ _ _ _ _ _ _ E H0 H1 H2 (later_descends _ _ Hl) Hst Hk Ef) as Hf.
  split; [|intros y Hy%Nat.leb_le; by rewrite Hf, Hy]. split.
  - intros Hall y Hy%Nat.leb_le. specialize (Hf y). rewrite Hy, Hall in Hf. done.
  - intros Hn y. rewrite Hf. destruct (2 <=? _)%nat eqn:Hy; [|done]. by apply Hn, Nat.leb_le.
Qed.
End Flags.
End Frontend.
End Frontend.

(** ** The provider's relay *)
Module Provider.
Section Provider.
Context {World : Type} `{Kernel World}.

Definition RELAY_BUFFER_BYTES : nat := N.to_nat 8192.

(** A message, or a message and the native error it ends with. *)
Inductive relay_error : Type := Message (text : string) | Native (text : string) (errno : N).

Record Channel : Type := {
  ch_source : fd; ch_destination : option fd; ch_pending : list u8;
  ch_offset : nat; ch_length : nat; ch_source_eof : bool; ch_capture : option (list u8)
}.

Definition new_channel (source destination : fd) : Channel :=
  {| ch_source := source; ch_destination := Some destination;
     ch_pending := replicate RELAY_BUFFER_BYTES zero; ch_offset := 0; ch_length := 0;
     ch_source_eof := false; ch_capture := None |}.

Definition channel_completed (self : Channel) : bool := ch_source_eof self && (ch_length self =? 0)%nat.

(** [capture.len().saturating_add(count) > 4096] *)
Definition CAPTURE_BOUND : nat := N.to_nat 4096.
Definition capture_overflows (capture data : list u8) : bool :=
  (CAPTURE_BOUND <? length capture + length data)%nat.

Definition pump_read (self : Channel) (w : World) : World * Channel * list event * result relay_error () :=
  if negb (ch_source_eof self) && (ch_length self =? 0)%nat then
    match sys_read (ch_source self) (length (ch_pending self)) w with
    | (w, Ok []) =>
        (w, {| ch_source := ch_source self; ch_destination := ch_destination self;
               ch_pending := ch_pending self; ch_offset := ch_offset self; ch_length := ch_length self;
               ch_source_eof := true; ch_capture := ch_capture self |},
         [Received (ch_source self) []], Ok ())
    | (w, Ok data) =>
        let filled capture :=
          {| ch_source := ch_source self; ch_destination := ch_destination self;
             ch_pending := fill (ch_pending self) data; ch_offset := 0; ch_length := length data;
             ch_source_eof := ch_source_eof self; ch_capture := capture |} in
        match ch_capture self with
        | Some capture =>
            if capture_overflows capture data
            then (w, {| ch_source := ch_source self; ch_destination := ch_destination self;
                        ch_pending := fill (ch_pending self) data; ch_offset := ch_offset self;
                        ch_length := ch_length self; ch_source_eof := ch_source_eof self;
                        ch_capture := ch_capture self |},
                  [Received (ch_source self) data],
                  Err (Message "MCSEALED-PRIVATE-RELAY: ABI target stdout exceeds bound"))
            else (w, filled (Some (capture ++ data)), [Received (ch_source self) data], Ok ())
        | None => (w, filled None, [Received (ch_source self) data], Ok ())
        end
    | (w, Err e) =>
        (w, self, [Failed (ch_source self) e],
         if would_retry e then Ok () else Err (Native "MCSEALED-PRIVATE-RELAY: read" e))
    end
  else (w, self, [], Ok ()).

Definition pump_write (self : Channel) (w : World) : World * Channel * list event * result relay_error () :=
  if (0 <? ch_length self)%nat then
    match ch_destination self with
    | None => (w, self, [], Err (Message "MCSEALED-PRIVATE-RELAY: destination closed with pending bytes"))
    | Some destination =>
        let data := slice (ch_pending self) (ch_offset self) (ch_offset self + ch_length self) in
        match sys_write destination data w with
        | (w, Ok 0%nat) =>
            (w, self, [Sent destination []], Err (Message "MCSEALED-PRIVATE-RELAY: zero-length write"))
        | (w, Ok count) =>
            (w, {| ch_source := ch_source self; ch_destination := ch_destination self;
                   ch_pending := ch_pending self; ch_offset := ch_offset self + count;
                   ch_length := ch_length self - count; ch_source_eof := ch_source_eof self;
                   ch_capture := ch_capture self |},
             [Sent destination (take count data)], Ok ())
        | (w, Err e) =>
            (w, self, [Failed destination e],
             if would_retry e then Ok () else Err (Native "MCSEALED-PRIVATE-RELAY: write" e))
        end
    end
  else (w, self, [], Ok ()).

Definition close_destination (self : Channel) (w : World) : World * Channel :=
  (match ch_destination self with Some d => sys_close d w | None => w end,
   {| ch_source := ch_source self; ch_destination := None; ch_pending := ch_pending self;
      ch_offset := ch_offset self; ch_length := ch_length self; ch_source_eof := ch_source_eof self;
      ch_capture := ch_capture self |}).

Definition pump (self : Channel) (w : World) : World * Channel * list event * result relay_error () :=
  let '(w, self, log, r) := pump_read self w in
  match r with
  | Err e => (w, self, log, Err e)
  | Ok _ =>
      let '(w, self, log', r) := pump_write self w in
      match r with
      | Err e => (w, self, log ++ log', Err e)
      | Ok _ =>
          if channel_completed self
          then let '(w, self) := close_destination self w in (w, self, log ++ log', Ok ())
          else (w, self, log ++ log', Ok ())
      end
  end.

Definition channel_poll_descriptors (self : Channel) : list pollfd :=
  (if negb (ch_source_eof self) && (ch_length self =? 0)%nat
   then [{| pf_fd := ch_source self; pf_events := N.lor POLLIN POLLHUP |}] else [])
  ++ (if (0 <? ch_length self)%nat
      then match ch_destination self with
           | Some d => [{| pf_fd := d; pf_events := N.lor POLLOUT POLLHUP |}]
           | None => []
           end
      else []).

Record PrivateRelay : Type := { pr_stdin : Channel; pr_stdout : Channel; pr_stderr : Channel }.

Definition capture_public_abi_stdout (self : PrivateRelay) : PrivateRelay :=
  let c := pr_stdout self in
  {| pr_stdin := pr_stdin self;
     pr_stdout := {| ch_source := ch_source c; ch_destination := ch_destination c;
                     ch_pending := ch_pending c; ch_offset := ch_offset c; ch_length := ch_length c;
                     ch_source_eof := ch_source_eof c; ch_capture := Some [] |};
     pr_stderr := pr_stderr self |}.

Definition take_public_abi_stdout (self : PrivateRelay) : PrivateRelay * result relay_error (list u8) :=
  let c := pr_stdout self in
  if negb (channel_completed c)
  then (self, Err (Message "MCSEALED-PRIVATE-RELAY: ABI target stdout is not complete"))
  else ({| pr_stdin := pr_stdin self;
           pr_stdout := {| ch_source := ch_source c; ch_destination := ch_destination c;
                           ch_pending := ch_pending c; ch_offset := ch_offset c; ch_length := ch_length c;
                           ch_source_eof := ch_source_eof c; ch_capture := None |};
           pr_stderr := pr_stderr self |},
        ok_or (Message "MCSEALED-PRIVATE-RELAY: ABI target stdout capture absent") (ch_capture c)).

Definition completed (self : PrivateRelay) : bool :=
  channel_completed (pr_stdin self) && channel_completed (pr_stdout self) && channel_completed (pr_stderr self).

Definition close_stdin_after_target_exit (self : PrivateRelay) (w : World) : World * PrivateRelay :=
  let c := pr_stdin self in
  (match ch_destination c with Some d => sys_close d w | None => w end,
   {| pr_stdin := {| ch_source := ch_source c; ch_destination := None; ch_pending := ch_pending c;
                     ch_offset := ch_offset c; ch_length := 0; ch_source_eof := true;
                     ch_capture := ch_capture c |};
      pr_stdout := pr_stdout self; pr_stderr := pr_stderr self |}).

(** [interval.as_millis().min(i32::MAX)] *)
Definition timeout_millis (interval : Duration) : N := N.min (as_millis interval) (2 ^ 31 - 1).

(** One readiness interval: the three channels in turn, then the poll.  The
    logs are those of the three channels. *)
Definition tick (self : PrivateRelay) (interval : Duration) (w : World)
    : World * PrivateRelay * (list event * list event * list event) * result relay_error () :=
  let '(w, stdin, log0, r) := pump (pr_stdin self) w in
  let self := {| pr_stdin := stdin; pr_stdout := pr_stdout self; pr_stderr := pr_stderr self |} in
  match r with
  | Err e => (w, self, (log0, [], []), Err e)
  | Ok _ =>
    let '(w, stdout, log1, r) := pump (pr_stdout self) w in
    let self := {| pr_stdin := stdin; pr_stdout := stdout; pr_stderr := pr_stderr self |} in
    match r with
    | Err e => (w, self, (log0, log1, []), Err e)
    | Ok _ =>
      let '(w, stderr, log2, r) := pump (pr_stderr self) w in
      let self := {| pr_stdin := stdin; pr_stdout := stdout; pr_stderr := stderr |} in
      let logs := (log0, log1, log2) in
      match r with
      | Err e => (w, self, logs, Err e)
      | Ok _ =>
        if completed self then (w, self, logs, Ok ())
        else
          let descriptors := channel_poll_descriptors stdin ++ channel_poll_descriptors stdout
                             ++ channel_poll_descriptors stderr in
          match sys_poll descriptors (timeout_millis interval) w with
          | (w, Err e) =>
              (* an interrupted poll leaves the returned events at zero *)
              (w, self, logs, if e =? EINTR then Ok () else Err (Native "MCSEALED-PRIVATE-RELAY: poll" e))
          | (w, Ok revents) =>
              (w, self, logs,
               guard_err (existsb (λ r, negb (N.land r (N.lor POLLERR POLLNVAL) =? 0)) revents)
                 (Message "MCSEALED-PRIVATE-RELAY: endpoint error"))
          end
      end
    end
  end.

(** Construction: the front end's endpoints are checked, the provider's are
    made non-blocking.  What is owned when a check fails is closed. *)
Definition require_nonblocking_stream (d : fd) (readable : bool) (w : World) : World * result relay_error () :=
  match sys_fstat d w with
  | (w, Err e) => (w, Err (Native "MCSEALED-PRIVATE-RELAY: fstat" e))
  | (w, Ok kind) =>
      if (kind ≠? Fifo) && (kind ≠? Socket)
      then (w, Err (Message "MCSEALED-PRIVATE-RELAY: frontend endpoint is not pipe/socket"))
      else match sys_getfl d w with
           | (w, Err _) => (w, Err (Message "MCSEALED-PRIVATE-RELAY: frontend endpoint must be nonblocking"))
           | (w, Ok flags) =>
               let access := N.land flags O_ACCMODE in
               (w, guard_err ((N.land flags O_NONBLOCK =? 0)
                              || (readable && (access =? O_WRONLY))
                              || (negb readable && (access =? O_RDONLY)))
                     (Message "MCSEALED-PRIVATE-RELAY: frontend endpoint must be nonblocking"))
           end
  end.

Definition set_nonblocking (d : fd) (w : World) : World * result relay_error () :=
  match (flags ← sys_getfl d; sys_setfl d (N.lor flags O_NONBLOCK)) w with
  | (w, Ok _) => (w, Ok ())
  | (w, Err e) => (w, Err (Native "MCSEALED-PRIVATE-RELAY: nonblocking provider endpoint" e))
  end.

Fixpoint close_all (ds : list fd) (w : World) : World :=
  match ds with [] => w | d :: ds => close_all ds (sys_close d w) end.

Fixpoint checks (l : list (World → World * result relay_error ())) (w : World) : World * result relay_error () :=
  match l with
  | [] => (w, Ok ())
  | check :: l => match check w with (w, Ok _) => checks l w | (w, Err e) => (w, Err e) end
  end.

(** [provider] are the ends of [ProviderPipeStdio]: stdin, stdout, stderr. *)
Definition prepare (provider frontend : fd * fd * fd) (w : World) : World * result relay_error PrivateRelay :=
  let '(p0, p1, p2) := provider in
  let '(f0, f1, f2) := frontend in
  match checks [require_nonblocking_stream f0 true; require_nonblocking_stream f1 false;
                require_nonblocking_stream f2 false] w with
  | (w, Err e) => (close_all [f0; f1; f2; p0; p1; p2] w, Err e)
  | (w, Ok _) =>
      match checks [set_nonblocking p0; set_nonblocking p1; set_nonblocking p2] w with
      | (w, Err e) => (close_all [p0; p1; p2; f0; f1; f2] w, Err e)
      | (w, Ok _) =>
          (w, Ok {| pr_stdin := new_channel f0 p0; pr_stdout := new_channel p1 f1;
                    pr_stderr := new_channel p2 f2 |})
      end
  end.

(** *** Bytes are neither lost, duplicated nor reordered *)
Context `{!TransferLaws World}.

Definition held (c : Channel) : list u8 := slice (ch_pending c) (ch_offset c) (ch_offset c + ch_length c).

(** [closed]: the standard input was closed because the target exited. *)
Record channel_data (log : list event) (closed : bool) (c : Channel) : Prop := {
  cd_buffer : length (ch_pending c) = RELAY_BUFFER_BYTES;
  cd_bound : (ch_offset c + ch_length c <= RELAY_BUFFER_BYTES)%nat;
  cd_conserve : ∃ kept, received log = sent log ++ kept ∧ (kept = held c ∨ (closed = true ∧ channel_completed c = true));
  cd_end : ch_source_eof c = true → closed = false → saw_end log = true;
  cd_capture : ∀ capture, ch_capture c = Some capture →
    capture `suffix_of` received log ∧ (length capture <= CAPTURE_BOUND)%nat
}.
(** Between two pumps the destination is open exactly until completion. *)
Definition channel_ok (log : list event) (closed : bool) (c : Channel) : Prop :=
  channel_data log closed c ∧ is_some (ch_destination c) = negb (channel_completed c).

Lemma held_empty c : ch_length c = 0%nat → held c = [].
Proof. intros E. unfold held. by rewrite E, Nat.add_0_r, slice_empty. Qed.

Lemma channel_quiet log closed c e : Frontend.quiet e = true → channel_data log closed c →
  channel_data (log ++ [e]) closed c.
Proof.
  intros He [H1 H2 H3 H4 H5].
  assert (received [e] = [] ∧ sent [e] = [] ∧ saw_end [e] = false) as (Er & Es & Ee).
  { destruct e as [|d l|]; [done| |done]. cbn in He. apply bool_decide_eq_true in He as ->. done. }
  split; rewrite ?received_app, ?sent_app, ?saw_end_app, ?Er, ?Es, ?Ee, ?app_nil_r, ?orb_false_r; done.
Qed.

(** A filled buffer. *)
Lemma channel_filled log c closed b data capture :
  channel_data log closed c → ch_source_eof c = false → ch_length c = 0%nat →
  (length (b :: data) <= length (ch_pending c))%nat →
  (∀ cap, capture = Some cap → cap `suffix_of` received log ++ b :: data ∧ (length cap <= CAPTURE_BOUND)%nat) →
  channel_data (log ++ [Received (ch_source c) (b :: data)]) closed
    {| ch_source := ch_source c; ch_destination := ch_destination c;
       ch_pending := fill (ch_pending c) (b :: data); ch_offset := 0; ch_length := length (b :: data);
       ch_source_eof := ch_source_eof c; ch_capture := capture |}.
Proof.
  intros [H1 H2 (kept & Hk & Hkept) H4 _] Heof Hlen Hb Hcap.
  assert (kept = []) as ->.
  { destruct Hkept as [->|[_ [? _]%andb_true_iff]]; [by apply held_empty|congruence]. }
  rewrite app_nil_r in Hk.
  split; cbn [ch_pending ch_offset ch_length ch_source_eof ch_capture].
  - by rewrite length_fill.
  - by rewrite <- H1.
  - exists (b :: data). split; [|left; unfold held; cbn [ch_pending ch_offset ch_length]; by rewrite slice_fill].
    rewrite received_app, sent_app, Hk. cbn [received sent fmap list_fmap concat]. by rewrite !app_nil_r.
  - congruence.
  - intros cap Hc. rewrite received_app. cbn [received fmap list_fmap concat]. rewrite app_nil_r. auto.
Qed.

Lemma pump_read_ok log closed c w w' c' log' :
  channel_data log closed c → pump_read c w = (w', c', log', Ok ()) →
  channel_data (log ++ log') closed c' ∧ ch_destination c' = ch_destination c
  ∧ (ch_source_eof c = true → c' = c).
Proof.
  intros Hd. pose proof Hd as [H1 H2 H3 H4 H5]. unfold pump_read.
  destruct (negb (ch_source_eof c) && (ch_length c =? 0)%nat) eqn:Hr.
  2: { intros [= <- <- <-]. by rewrite app_nil_r. }
  apply andb_true_iff in Hr as [Heof%negb_true_iff Hlen%Nat.eqb_eq].
  destruct (sys_read _ _ w) as [w1 [data|e]] eqn:E.
  - apply read_bound in E. destruct data as [|b data].
    + intros [= <- <- <-]. split_and!; [|done|congruence].
      split; cbn [ch_pending ch_offset ch_length ch_source_eof ch_capture]; [done|done|..].
      * destruct H3 as (kept & Hk & [->|[_ [? _]%andb_true_iff]]); [|congruence]. exists [].
        rewrite received_app, sent_app, Hk, held_empty by done. rewrite !app_nil_r. split; [done|left].
        by rewrite held_empty.
      * intros _ _. rewrite saw_end_app. cbn. by rewrite orb_true_r.
      * intros cap Hc. rewrite received_app. cbn. rewrite app_nil_r. auto.
    + destruct (ch_capture c) as [cap|] eqn:Hc; [destruct (capture_overflows cap (b :: data)) eqn:Ho|];
        intros [= <- <- <-]; (split_and!; [|done|congruence]); apply channel_filled; try done.
      intros cap' [= <-]. destruct (H5 cap eq_refl) as [[pre Hpre] Hl].
      unfold capture_overflows in Ho. apply Nat.ltb_ge in Ho.
      split; [|by rewrite length_app]. exists pre. by rewrite Hpre, app_assoc.
  - destruct (would_retry e); [|done]. intros [= <- <- <-].
    split_and!; [by apply channel_quiet|done|congruence].
Qed.

Lemma pump_write_ok log closed c w w' c' log' :
  channel_data log closed c → pump_write c w = (w', c', log', Ok ()) →
  channel_data (log ++ log') closed c' ∧ ch_destination c' = ch_destination c
  ∧ ch_source_eof c' = ch_source_eof c ∧ (ch_length c = 0%nat → c' = c)
  ∧ (ch_destination c = None → ch_length c = 0%nat).
Proof.
  intros Hd. pose proof Hd as [H1 H2 (kept & Hk & Hkept) H4 H5]. unfold pump_write.
  destruct (0 <? ch_length c)%nat eqn:Hl.
  2: { apply Nat.ltb_ge in Hl. intros [= <- <- <-]. rewrite app_nil_r. split_and!; [done..|lia]. }
  apply Nat.ltb_lt in Hl. destruct (ch_destination c) as [d|] eqn:Hdst; [|done].
  destruct (sys_write _ _ w) as [w1 [[|n]|e]] eqn:E; [done| |].
  - intros [= <- <- <-]. apply write_bound in E. rewrite length_slice in E by lia.
    split_and!; [|done|done|lia|done].
    split; cbn [ch_pending ch_offset ch_length ch_source_eof ch_capture]; [done|lia|..].
    + rewrite received_app, sent_app, Hk. cbn [received sent fmap list_fmap concat]. rewrite !app_nil_r.
      destruct Hkept as [->|[_ [_ ?%Nat.eqb_eq]%andb_true_iff]]; [|lia].
      eexists. split; [|by left]. rewrite <- app_assoc. f_equal. unfold held.
        cbn [ch_pending ch_offset ch_length].
        replace (ch_offset c + S n + (ch_length c - S n))%nat with (ch_offset c + ch_length c)%nat by lia.
        apply slice_advance. lia.
    + intros ??. rewrite saw_end_app. apply orb_true_iff. left. auto.
    + intros cap Hc. rewrite received_app. cbn. rewrite app_nil_r. auto.
  - destruct (would_retry e); [|done]. intros [= <- <- <-].
    split_and!; [by apply channel_quiet|done|done|lia|done].
Qed.

Lemma pump_ok log closed c w w' c' log' : channel_ok log closed c → pump c w = (w', c', log', Ok ()) →
  channel_ok (log ++ log') closed c'.
Proof.
  intros [Hd Ho]. unfold pump. destruct (pump_read c w) as [[[w1 c1] log1] r1] eqn:E1.
  destruct r1 as [[]|e]; [|done]. eapply pump_read_ok in E1 as (Hd1 & Hdst1 & Hsame1); [|done].
  destruct (pump_write c1 w1) as [[[w2 c2] log2] r2] eqn:E2.
  destruct r2 as [[]|e]; [|done]. eapply pump_write_ok in E2 as (Hd2 & Hdst2 & Heof2 & Hsame2 & Hnone); [|done].
  rewrite <- app_assoc in Hd2. destruct (channel_completed c2) eqn:Hc2.
  - unfold close_destination. intros [= <- <- <-]. split; [by destruct Hd2; split|]. cbn.
    unfold channel_completed in *. cbn. by rewrite Hc2.
  - intros [= <- <- <-]. split; [done|]. rewrite Hc2. cbn. rewrite Hdst2, Hdst1.
    destruct (ch_destination c) eqn:Hdc; [done|]. exfalso.
    symmetry in Ho. apply negb_false_iff, andb_true_iff in Ho as [He Hl%Nat.eqb_eq].
    rewrite (Hsame1 He) in *. rewrite (Hsame2 Hl) in Hc2.
    unfold channel_completed in Hc2. by rewrite He, Hl in Hc2.
Qed.

(** The error of a closed destination does not occur. *)
Lemma pump_never_stranded log closed c w w' c' log' :
  channel_ok log closed c →
  pump c w ≠ (w', c', log', Err (Message "MCSEALED-PRIVATE-RELAY: destination closed with pending bytes")).
Proof.
  intros [Hd Ho]. unfold pump. destruct (pump_read c w) as [[[w1 c1] log1] r1] eqn:E1. destruct r1 as [[]|e].
  - eapply pump_read_ok in E1 as (Hd1 & Hdst1 & Hsame1); [|done].
    destruct (pump_write c1 w1) as [[[w2 c2] log2] r2] eqn:E2. destruct r2 as [[]|e].
    { destruct (channel_completed c2); [destruct (close_destination c2 w2)|]; congruence. }
    intros [= -> -> <- ->]. unfold pump_write in E2. destruct (0 <? ch_length c1)%nat eqn:Hl; [|done].
    destruct (ch_destination c1) as [d|] eqn:Hdc.
    + destruct (sys_write _ _ w1) as [? [[|n]|e]]; [congruence..|]. destruct (would_retry e); congruence.
    + rewrite <- Hdst1 in Ho. symmetry in Ho. apply negb_false_iff, andb_true_iff in Ho as [He Hl0%Nat.eqb_eq].
      rewrite (Hsame1 He) in Hl. apply Nat.ltb_lt in Hl. lia.
  - intros [= -> -> <- ->]. unfold pump_read in E1.
    destruct (_ && _); [|done]. destruct (sys_read _ _ w) as [? [[|b data]|e]]; [congruence|..].
    + destruct (ch_capture c); [destruct (capture_overflows _ _)|]; congruence.
    + destruct (would_retry e); congruence.
Qed.

(** Every state of a relay whose ticks succeeded so far. *)
Inductive reach : list event → list event → list event → bool → PrivateRelay → Prop :=
| reach_prepare provider frontend w w' relay :
    prepare provider frontend w = (w', Ok relay) → reach [] [] [] false relay
| reach_tick l0 l1 l2 closed relay interval w w' relay' k0 k1 k2 :
    reach l0 l1 l2 closed relay → tick relay interval w = (w', relay', (k0, k1, k2), Ok ()) →
    reach (l0 ++ k0) (l1 ++ k1) (l2 ++ k2) closed relay'
| reach_close l0 l1 l2 closed relay w :
    reach l0 l1 l2 closed relay → reach l0 l1 l2 true (close_stdin_after_target_exit relay w).2
| reach_capture l0 l1 l2 closed relay :
    reach l0 l1 l2 closed relay → reach l0 l1 l2 closed (capture_public_abi_stdout relay)
| reach_take l0 l1 l2 closed relay :
    reach l0 l1 l2 closed relay → reach l0 l1 l2 closed (take_public_abi_stdout relay).1.

Definition relay_ok (l0 l1 l2 : list event) (closed : bool) (r : PrivateRelay) : Prop :=
  channel_ok l0 closed (pr_stdin r) ∧ channel_ok l1 false (pr_stdout r) ∧ channel_ok l2 false (pr_stderr r).

Lemma new_channel_ok source destination : channel_ok [] false (new_channel source destination).
Proof.
  split; [|done]. split; cbn [new_channel ch_pending ch_offset ch_length ch_source_eof ch_capture]; try done; [lia|].
  exists []. split; [done|]. left. by rewrite held_empty.
Qed.

Lemma tick_Ok relay interval w w' relay' k0 k1 k2 : tick relay interval w = (w', relay', (k0, k1, k2), Ok ()) →
  ∃ w1 w2 w3,
    pump (pr_stdin relay) w = (w1, pr_stdin relay', k0, Ok ())
    ∧ pump (pr_stdout relay) w1 = (w2, pr_stdout relay', k1, Ok ())
    ∧ pump (pr_stderr relay) w2 = (w3, pr_stderr relay', k2, Ok ()).
Proof.
  unfold tick. destruct (pump (pr_stdin relay) w) as [[[w1 c0] log0] [[]|e]]; [|done].
  cbn [pr_stdout]. destruct (pump (pr_stdout relay) w1) as [[[w2 c1] log1] [[]|e]] eqn:E1; [|done].
  cbn [pr_stderr]. destruct (pump (pr_stderr relay) w2) as [[[w3 c2] log2] [[]|e]] eqn:E; [|done].
  intros Ht. exists w1, w2, w3.
  destruct (completed _); [|destruct (sys_poll _ _ w3) as [w4 [rev|e]]]; by simplify_eq.
Qed.

Lemma close_stdin_ok l0 closed c : channel_ok l0 closed c →
  channel_ok l0 true {| ch_source := ch_source c; ch_destination := None; ch_pending := ch_pending c;
    ch_offset := ch_offset c; ch_length := 0; ch_source_eof := true; ch_capture := ch_capture c |}.
Proof.
  intros [[H1 H2 (kept & Hk & _) H4 H5] _]. split; [|done].
  split; cbn [ch_pending ch_offset ch_length ch_source_eof ch_capture]; try done; [lia|].
  exists kept. split; [done|by right].
Qed.

Lemma with_capture_ok log closed c capture : channel_ok log closed c →
  (∀ cap, capture = Some cap → cap = []) →
  channel_ok log closed {| ch_source := ch_source c; ch_destination := ch_destination c; ch_pending := ch_pending c;
    ch_offset := ch_offset c; ch_length := ch_length c; ch_source_eof := ch_source_eof c; ch_capture := capture |}.
Proof.
  intros [[H1 H2 H3 H4 H5] Ho] Hc. split; [|done].
  split; cbn [ch_pending ch_offset ch_length ch_source_eof ch_capture]; try done.
  intros cap ->%Hc. split; [apply suffix_nil|cbn; lia].
Qed.

Lemma provider_reach_ok l0 l1 l2 closed relay : reach l0 l1 l2 closed relay → relay_ok l0 l1 l2 closed relay.
Proof.
  induction 1 as [p f w w' relay E|l0 l1 l2 closed relay i w w' relay' k0 k1 k2 _ (H0 & H1 & H2) E
                 |l0 l1 l2 closed relay w _ (H0 & H1 & H2)|l0 l1 l2 closed relay _ (H0 & H1 & H2)
                 |l0 l1 l2 closed relay _ (H0 & H1 & H2)].
  - unfold prepare in E. destruct p as [[p0 p1] p2], f as [[f0 f1] f2].
    destruct (checks _ w) as [w1 [[]|e]]; [|done]. destruct (checks _ w1) as [w2 [[]|e]]; [|done].
    injection E as <- <-. split_and!; apply new_channel_ok.
  - apply tick_Ok in E as (w1 & w2 & w3 & E0 & E1 & E2). split_and!; by eapply pump_ok.
  - split_and!; [by eapply close_stdin_ok|done|done].
  - split_and!; [done| |done]. apply with_capture_ok; [done|]. by intros cap [= <-].
  - unfold take_public_abi_stdout. destruct (negb _); [done|].
    split_and!; [done| |done]. by apply with_capture_ok.
Qed.

(** C22: the provider's relay carries bytes exactly.  While its ticks succeed,
    on each of the three channels the bytes written are a prefix, in order, of
    the bytes read.  The outputs, and the input until it is closed because the
    target exited, hold the rest, at most 8 KiB, and once completed they have
    written all that they read and have seen the end of their source; closing the
    input after the target's exit gives up what it still held.  A captured output
    is a suffix of what was read, within its bound, and no tick finds a channel
    with bytes and a closed destination. *)
Theorem provider_relay_exact l0 l1 l2 closed relay : reach l0 l1 l2 closed relay →
  sent l0 `prefix_of` received l0
  ∧ (∀ log c, (log, c) ∈ [(l1, pr_stdout relay); (l2, pr_stderr relay)]
              ∨ (closed = false ∧ (log, c) = (l0, pr_stdin relay)) →
      received log = sent log ++ held c ∧ (length (held c) <= RELAY_BUFFER_BYTES)%nat
      ∧ (channel_completed c = true → sent log = received log ∧ saw_end log = true))
  ∧ (∀ capture, ch_capture (pr_stdout relay) = Some capture →
      capture `suffix_of` received l1 ∧ (length capture <= CAPTURE_BOUND)%nat)
  ∧ (∀ interval w, (tick relay interval w).2
      ≠ Err (Message "MCSEALED-PRIVATE-RELAY: destination closed with pending bytes")).
Proof.
  intros (H0 & H1 & H2)%provider_reach_ok. split_and!.
  - destruct H0 as [[_ _ (kept & -> & _) _ _] _]. by apply prefix_app_r.
  - intros log c Hin.
    assert (channel_data log false c) as [Hb Hl (kept & Hk & [->|[? _]]) He _]; [|split_and!|done].
    { set_unfold in Hin. destruct Hin as [[[= -> ->]|[[= -> ->]|[]]]|[-> [= -> ->]]]; [apply H1|apply H2|apply H0]. }
    + done.
    + unfold held. rewrite length_slice; lia.
    + intros [Heof Hlen%Nat.eqb_eq]%andb_true_iff. rewrite Hk, held_empty, app_nil_r by done. auto.
  - apply H1.
  - intros interval w. unfold tick.
    destruct (pump (pr_stdin relay) w) as [[[w1 c0] log0] [[]|e]] eqn:E0; cbn.
    2: { intros [= ->]. by eapply pump_never_stranded in E0. }
    destruct (pump (pr_stdout relay) w1) as [[[w2 c1] log1] [[]|e]] eqn:E1; cbn.
    2: { intros [= ->]. by eapply pump_never_stranded in E1. }
    destruct (pump (pr_stderr relay) w2) as [[[w3 c2] log2] [[]|e]] eqn:E2; cbn.
    2: { intros [= ->]. by eapply pump_never_stranded in E2. }
    destruct (completed _); [done|]. destruct (sys_poll _ _ w3) as [w4 [rev|e]]; cbn.
    + destruct (existsb _ _); cbn; congruence.
    + destruct (e =? EINTR); congruence.
Qed.
End Provider.
End Provider.

(** ** Composition *)

(** pipe(7): bytes come out in the order they went in, and the end is seen
    only when the writer has closed and all its bytes have been read. *)
Record fifo (writer reader : list event) (writer_closed : bool) : Prop := {
  ff_order : received reader `prefix_of` sent writer;
  ff_end : saw_end reader = true → writer_closed = true ∧ received reader = sent writer
}.

(** C21: the target's output reaches the front end's streams in order and
    without loss.  With the provider's relay, a pipe and the front end's relay
    in sequence, what the front end has written is a prefix of what the target
    produced, and when the front end reports its outputs drained it is all of
    it, up to the end of the target's stream. *)
Theorem relays_deliver_output {W1 W2} `{TransferLaws W1, TransferLaws W2}
    flogs (frelay : list Frontend.Lane) l0 l1 l2 closed prelay k lane flog plog c :
  Frontend.reach (World := W1) flogs frelay → Provider.reach (World := W2) l0 l1 l2 closed prelay →
  frelay !! S k = Some lane → flogs !! S k = Some flog →
  [(l1, Provider.pr_stdout prelay); (l2, Provider.pr_stderr prelay)] !! k = Some (plog, c) →
  fifo plog flog (negb (is_some (Provider.ch_destination c))) →
  sent flog `prefix_of` received plog
  ∧ (Frontend.outputs_drained frelay = true → sent flog = received plog ∧ saw_end plog = true).
Proof.
  intros [Hf Hi]%Frontend.reach_ok (_ & Hout & Herr)%Provider.provider_reach_ok Hl Hg Hp [Ho He].
  pose proof (Forall2_lookup_lr _ _ _ _ _ _ Hf Hg Hl) as Hlane.
  assert (Provider.channel_ok plog false c) as [Hc Hopen].
  { destruct k as [|[|k]]; cbn in Hp; by simplify_eq. }
  pose proof (Frontend.lk_conserve _ _ Hlane) as (kept & Hk & _).
  pose proof (Provider.cd_conserve _ _ _ Hc) as (kept' & Hk' & [->|[? _]]); [|done]. split.
  - trans (received flog); [rewrite Hk; by apply prefix_app_r|].
    trans (sent plog); [done|]. rewrite Hk'. by apply prefix_app_r.
  - intros Hd. destruct (Frontend.drained_output _ _ Hf Hi _ _ _ Hd Hl Hg) as [Hs Hsaw].
    destruct (He Hsaw) as [Hcl Hr]. apply negb_true_iff in Hcl. rewrite Hopen in Hcl.
    apply negb_false_iff, andb_true_iff in Hcl as [Heof Hlen%Nat.eqb_eq].
    rewrite Hs, Hr, Hk', Provider.held_empty, app_nil_r by done. split; [done|].
    by apply (Provider.cd_end _ _ _ Hc).
Qed.

(** ** Examples: a small kernel *)
Module RelayExamples.
(** The numbers below [ty_next] are open descriptors. *)
Record toy : Type := {
  ty_next : N; ty_description : N → N; ty_status : N → N; ty_reads : list (list u8)
}.

Definition toy_open (count : N) (descriptions : N → N) (w : toy) : toy :=
  {| ty_next := ty_next w + count;
     ty_description := λ d, if d <? ty_next w then ty_description w d else descriptions d;
     ty_status := ty_status w; ty_reads := ty_reads w |}.
Definition toy_read (n : nat) (w : toy) : toy * result N (list u8) :=
  match ty_reads w with
  | [] => (w, Ok [])
  | data :: rest =>
      ({| ty_next := ty_next w; ty_description := ty_description w; ty_status := ty_status w; ty_reads := rest |},
       Ok (take n data))
  end.
Definition toy_write (data : list u8) (w : toy) : toy * result N nat := (w, Ok (length data)).

#[local] Instance toy_kernel : Kernel toy := {|
  EAGAIN := 11; EINTR := 4; EPIPE := 32;
  O_NONBLOCK := 2048; O_ACCMODE := 3; O_RDONLY := 0; O_WRONLY := 1;
  POLLIN := 1; POLLOUT := 4; POLLHUP := 16; POLLERR := 8; POLLNVAL := 32;
  sys_dup d w := (toy_open 1 (λ _, ty_description w d) w, Ok (ty_next w));
  sys_getfl d w := (w, Ok (ty_status w (ty_description w d)));
  sys_setfl d flags w :=
    ({| ty_next := ty_next w; ty_description := ty_description w;
        ty_status := λ x, if x ≟ ty_description w d then flags else ty_status w x;
        ty_reads := ty_reads w |}, Ok ());
  sys_fstat d w := (w, Ok (if ty_description w d <? 100 then OtherFile else Fifo));
  sys_pipe w := (toy_open 2 (λ d, 100 + d) w, Ok (ty_next w, ty_next w + 1));
  sys_read _ n := toy_read n;
  sys_recv _ n := toy_read n;
  sys_write _ := toy_write;
  sys_send _ := toy_write;
  sys_close _ w := w;
  sys_poll _ _ w := (w, Ok [])
|}.

#[local] Instance toy_transfers : TransferLaws toy.
Proof.
  assert (∀ n w w' l, toy_read n w = (w', Ok l) → (length l <= n)%nat) as Hr.
  { intros n w w' l. unfold toy_read. destruct (ty_reads w); intros [= <- <-]; [cbn; lia|].
    rewrite length_take. lia. }
  split; cbn; [intros d n w w' l E; by apply Hr in E..| |]; unfold toy_write; by intros d l w w' n [= <- <-].
Qed.

#[local] Instance toy_flags : FlagLaws toy.
Proof.
  refine {| is_open := λ w d, d < ty_next w; description := ty_description; status := ty_status |}.
  all: cbn; unfold toy_open; intros; simplify_eq/=.
  - split_and!; [lia|lia| |done|].
    + by rewrite (proj2 (N.ltb_ge _ _)).
    + intros d0 Hd. rewrite (proj2 (N.ltb_lt _ _)) by done. split; [lia|done].
  - done.
  - done.
  - done.
  - split_and!; [lia|lia|done|]. intros d0 Hd. rewrite (proj2 (N.ltb_lt _ _)) by done. split; [lia|done].
  - done.
Defined.

(** Standard input, output and error are one terminal, read-write, blocking. *)
Definition terminal : toy :=
  {| ty_next := 3; ty_description := λ _, 7; ty_status := λ _, 2; ty_reads := [bytes "in"; bytes "out"] |}.
Definition built : toy * result N (Frontend.ByteRelay * (fd * fd * fd)) := Frontend.with_stdio 0 1 2 terminal.
Definition relay : list Frontend.Lane := match built.2 with Ok (r, _) => r | Err _ => [] end.
Definition ends : fd * fd * fd := match built.2 with Ok (_, e) => e | Err _ => (0, 0, 0) end.
Definition stepped : toy * Frontend.ByteRelay * list (list event) * result io_error () := Frontend.step relay built.1.

Lemma relay_built : Frontend.with_stdio 0 1 2 terminal = (built.1, Ok (relay, ends)).
Proof. reflexivity. Qed.
Lemma relay_stepped : Frontend.step relay built.1 = (stepped.1.1.1, stepped.1.1.2, stepped.1.2, stepped.2).
Proof. by destruct (Frontend.step relay built.1) as [[[? ?] ?] ?] eqn:E; unfold stepped; rewrite E. Qed.
Lemma relay_reached : Frontend.reach [[]; []; []] relay.
Proof. exact (Frontend.reach_new _ _ _ _ _ _ _ relay_built). Qed.
Lemma stepped_reached : Frontend.reach (zip_with app [[]; []; []] stepped.1.2) stepped.1.1.2.
Proof. exact (Frontend.reach_step _ _ _ _ _ _ _ relay_reached relay_stepped). Qed.

Definition log_of (i : nat) : list event := default [] (zip_with app [[]; []; []] stepped.1.2 !! i).
Lemma stepped_lookup i : (i < 3)%nat →
  (∃ lane, stepped.1.1.2 !! i = Some lane) ∧ zip_with app [[]; []; []] stepped.1.2 !! i = Some (log_of i).
Proof.
  assert (length stepped.1.1.2 = 3%nat ∧ length (zip_with app [[]; []; []] stepped.1.2) = 3%nat) as [L1 L2]
    by (split; vm_compute; reflexivity).
  intros Hi. split; [apply lookup_lt_is_Some_2; by rewrite L1|].
  unfold log_of. destruct (lookup_lt_is_Some_2 (zip_with app [[]; []; []] stepped.1.2) i) as [l ->]; [by rewrite L2|done].
Qed.
Lemma logs_received : received (log_of 0) = bytes "in" ∧ received (log_of 1) = bytes "out" ∧ saw_end (log_of 1) = false.
Proof. vm_compute. done. Qed.

(** One step moves "in" from the terminal into the input lane's buffer. *)
Lemma frontend_relay_exact_witness :
  ∃ lane log, stepped.1.1.2 !! 0%nat = Some lane ∧ received log = bytes "in" ∧ sent log `prefix_of` received log.
Proof.
  destruct (stepped_lookup 0) as [[lane E1] E2]; [lia|].
  exists lane, (log_of 0). split_and!; [exact E1|apply logs_received|].
  exact (proj1 (Frontend.frontend_relay_exact _ _ 0 lane _ stepped_reached E1 E2)).
Defined.

Lemma poll_names_next_transfer_witness : ∃ lane, lane ∈ relay ∧ is_Some (Frontend.lane_poll lane)
  ∧ match Frontend.lane_poll lane with
    | None => Frontend.lane_step lane terminal = (terminal, lane, [], Ok ())
    | Some p => ∃ w' lane' e log r,
        Frontend.lane_step lane terminal = (w', lane', e :: log, r) ∧ Frontend.event_fd e = pf_fd p
        ∧ (pf_events p = if bool_decide (Frontend.pending lane = []) then POLLIN else POLLOUT)
    end.
Proof.
  assert (∃ lane, lane ∈ relay ∧ is_Some (Frontend.lane_poll lane)) as (lane & Hin & Hp).
  { eexists. split; [left|]. eexists. reflexivity. }
  exists lane. split_and!; [done|done|].
  exact (Frontend.poll_names_next_transfer _ relay lane terminal relay_reached Hin).
Defined.

Definition ended (w : toy) : Prop := ty_reads w = [].
Lemma ended_settled : Frontend.settled ended.
Proof.
  split; unfold ended; cbn; unfold toy_read, toy_write.
  - intros d n w Hw. rewrite Hw. by exists w.
  - intros d n w Hw. rewrite Hw. by exists w.
  - intros d [|b l] w Hw Hl; [done|]. by exists w, (length l).
  - intros d [|b l] w Hw Hl; [done|]. by exists w, (length l).
  - done.
Qed.
Definition quiet_world : toy :=
  {| ty_next := 9; ty_description := λ _, 7; ty_status := λ _, 2; ty_reads := [] |}.

(** The relay that holds "in" is drained. *)
Lemma frontend_relay_drains_witness : ∃ w' relay',
  Frontend.steps (S Frontend.BUFFER_BYTES) stepped.1.1.2 quiet_world = (w', relay', Ok ())
  ∧ Frontend.outputs_drained relay' = true.
Proof. apply (Frontend.frontend_relay_drains ended _ _ quiet_world ended_settled (eq_refl : ended quiet_world) stepped_reached). Defined.

(** The terminal is left non-blocking: 2 has become 2 + 2048. *)
Definition finished : toy * Frontend.ByteRelay * result N () := Frontend.finish relay built.1.
Lemma finished_ok : finished.2 = Ok ().
Proof. vm_compute. reflexivity. Qed.
Lemma relay_finished : Frontend.finish relay built.1 = (finished.1.1, finished.1.2, Ok ()).
Proof. rewrite <- finished_ok. unfold finished. by destruct (Frontend.finish relay built.1) as [[? ?] ?]. Qed.
Lemma finish_restores_unshared_witness :
  status terminal 7 = 2 ∧ status finished.1.1 7 = 2050
  ∧ ¬ ∀ y, status finished.1.1 y = status terminal y.
Proof.
  assert ((2 <= Frontend.holders built.1 relay 7)%nat) as Hh by (apply Nat.leb_le; vm_compute; reflexivity).
  assert (is_open terminal 0 ∧ is_open terminal 1 ∧ is_open terminal 2) as (O0 & O1 & O2)
    by (split_and!; cbn; lia).
  destruct (Frontend.finish_restores_unshared 0 1 2 terminal built.1 relay ends relay built.1 finished.1.1
    finished.1.2 relay_built O0 O1 O2 (Frontend.later_refl _)) as [Hall Hshared].
  - done.
  - intros l Hl. split; [|done].
    do 3 (apply elem_of_cons in Hl as [->|Hl]; [reflexivity|]). by apply elem_of_nil in Hl.
  - exact relay_finished.
  - split_and!; [done|by rewrite (Hshared 7 Hh)|]. intros Hy.
    pose proof (proj1 Hall Hy 7 Hh) as E. discriminate E.
Defined.

(** The provider's side: six pipe ends, the target has written "out". *)
Definition pipes : toy :=
  {| ty_next := 6; ty_description := λ d, 100 + d; ty_status := λ _, 2050; ty_reads := [[]; bytes "out"] |}.
Definition prepared : Provider.PrivateRelay :=
  {| Provider.pr_stdin := Provider.new_channel 0 3; Provider.pr_stdout := Provider.new_channel 4 1;
     Provider.pr_stderr := Provider.new_channel 5 2 |}.
Lemma provider_reached : Provider.reach [] [] [] false prepared.
Proof. eapply (Provider.reach_prepare (3, 4, 5) (0, 1, 2) pipes). reflexivity. Qed.
Definition ticked : toy * Provider.PrivateRelay * (list event * list event * list event) * result Provider.relay_error () :=
  Provider.tick prepared 0 pipes.
Lemma provider_ticked : Provider.reach [Received 0 []] [Received 4 (bytes "out"); Sent 1 (bytes "out")]
  [Received 5 []] false ticked.1.1.2.
Proof.
  apply (Provider.reach_tick [] [] [] false prepared 0 pipes ticked.1.1.1 ticked.1.1.2
    [Received 0 []] [Received 4 (bytes "out"); Sent 1 (bytes "out")] [Received 5 []]).
  - exact provider_reached.
  - reflexivity.
Qed.
Lemma provider_relay_exact_witness :
  Provider.held (Provider.pr_stdout ticked.1.1.2) = [] ∧
  received [Received 4 (bytes "out"); Sent 1 (bytes "out")]
  = sent [Received 4 (bytes "out"); Sent 1 (bytes "out")] ++ Provider.held (Provider.pr_stdout ticked.1.1.2).
Proof.
  split; [reflexivity|].
  apply (Provider.provider_relay_exact _ _ _ _ _ provider_ticked). left. left.
Defined.

(** The front end's output lane has read "out" from the pipe. *)
Lemma relays_deliver_output_witness : ∃ flog, received flog = bytes "out"
  ∧ sent flog `prefix_of` received [Received 4 (bytes "out"); Sent 1 (bytes "out")].
Proof.
  destruct (stepped_lookup 1) as [[lane E1] E2]; [lia|].
  destruct logs_received as (_ & E3 & E4). exists (log_of 1). split; [exact E3|].
  refine (proj1 (relays_deliver_output _ _ _ _ _ _ _ 0 lane _ _ _ stepped_reached provider_ticked E1 E2 eq_refl _)).
  split; [rewrite E3; reflexivity|]. rewrite E4. discriminate.
Defined.
End RelayExamples.
