(* ===== verification/Diagnostics.v ===== *)
(** * Causal failure diagnostics

    memcordon-core/src/diagnostics.rs: the closed vocabularies of failure
    observations, the bounded journal an attempt keeps of them, the
    projection of a journal that a provider publishes with its digest, the
    retention window of a stored payload, and the limits put on response
    frames and record documents before they are allocated. *)

From S2P Require Import Prelude Decimal Bounded Codec.
From Stdlib Require Import Ascii.

Definition CAUSAL_DIAGNOSTIC_SCHEMA : N := 1.
Definition MAX_DIAGNOSTIC_SECONDARY_EVENTS : nat := 8.
Definition MAX_DIAGNOSTIC_PROJECTION_BYTES : N := 16 * 1024.
Definition MAX_DIAGNOSTIC_JOURNAL_BYTES : N := 64 * 1024.
Definition MAX_DIAGNOSTIC_CONTROL_FRAME_BYTES : N := 64 * 1024.
Definition DIAGNOSTIC_PAYLOAD_RETENTION_SECS : N := 24 * 60 * 60.
Definition MAX_RECORD_JSON_NODES : N := 16 * 1024.
Definition MAX_RECORD_METADATA_TEXT_BYTES : N := 256 * 1024.
Definition WINDOWS_MAX_TERMINAL_FRAME_BYTES : N := 4 * 1024 * 1024.
Definition WINDOWS_MAX_FRAME_BYTES : N := 16 * 1024 * 1024.
Definition WINDOWS_MAX_TERMINALIZATION_SECONDARY_ERRORS : N := 4.
Definition WindowsReadOnlyQueryFailure_MAX_FRAME_BYTES : N := 16 * 1024.
Definition WindowsGuardianAttemptObservation_MAX_FRAME_BYTES : N := 16 * 1024.
Definition PUBLIC_OBJECT_BYTES : N := 128 * 1024.

(** ** Vocabularies

    Each is a [repr(u16)] enum; the tag is what the projection digest binds. *)
Inductive DiagnosticOriginV1 : Type :=
| Origin_Launcher | Origin_ControlRelay | Origin_GuardianRecovery | Origin_StartupRecovery
| Origin_RecordWriter | Origin_ClientTransport.
#[global] Instance DiagnosticOriginV1_eq_dec : EqDecision DiagnosticOriginV1.
Proof. solve_decision. Defined.
Definition Origin_tag (v : DiagnosticOriginV1) : N :=
  match v with
  | Origin_Launcher => 0
  | Origin_ControlRelay => 1
  | Origin_GuardianRecovery => 2
  | Origin_StartupRecovery => 3
  | Origin_RecordWriter => 4
  | Origin_ClientTransport => 5
  end.

Inductive FailureCategoryV1 : Type :=
| Category_Admission | Category_Launch | Category_Monitor | Category_Cleanup
| Category_Terminalization | Category_Transport | Category_Persistence | Category_Recovery.
#[global] Instance FailureCategoryV1_eq_dec : EqDecision FailureCategoryV1.
Proof. solve_decision. Defined.
Definition Category_tag (v : FailureCategoryV1) : N :=
  match v with
  | Category_Admission => 0
  | Category_Launch => 1
  | Category_Monitor => 2
  | Category_Cleanup => 3
  | Category_Terminalization => 4
  | Category_Transport => 5
  | Category_Persistence => 6
  | Category_Recovery => 7
  end.

Inductive FailureOperationV1 : Type :=
| Operation_AuthenticateCaller | Operation_ResolveAdmission | Operation_InstallPolicy
| Operation_VerifyPolicy | Operation_StartGuardian | Operation_CreateTarget
| Operation_VerifySuspendedTarget | Operation_AuthorizeTarget | Operation_ResumeTarget
| Operation_QueryJobProcessIds | Operation_ObserveProcessIdentity
| Operation_AccumulateProcessInventory | Operation_ReadJobNotification
| Operation_QueryPeakMemory | Operation_PollTarget | Operation_ReadTargetExit
| Operation_CheckGuardian | Operation_CheckDesktopAuthority | Operation_ReadControlFrame
| Operation_TerminateJob | Operation_WaitJobEmpty | Operation_RetireGuardian
| Operation_CloseFinalHandles | Operation_BuildRejection | Operation_ValidateTerminalResponse
| Operation_SerializeTerminalResponse | Operation_StoreRecord | Operation_DeliverResponse
| Operation_AcknowledgeTerminal | Operation_RetireOutbox | Operation_InspectRecoveryRecord
| Operation_UnexpectedUnwind | Operation_UnclassifiedProviderOperation
| Operation_QueryJobAccounting.
#[global] Instance FailureOperationV1_eq_dec : EqDecision FailureOperationV1.
Proof. solve_decision. Defined.
Definition Operation_tag (v : FailureOperationV1) : N :=
  match v with
  | Operation_AuthenticateCaller => 0
  | Operation_ResolveAdmission => 1
  | Operation_InstallPolicy => 2
  | Operation_VerifyPolicy => 3
  | Operation_StartGuardian => 4
  | Operation_CreateTarget => 5
  | Operation_VerifySuspendedTarget => 6
  | Operation_AuthorizeTarget => 7
  | Operation_ResumeTarget => 8
  | Operation_QueryJobProcessIds => 9
  | Operation_ObserveProcessIdentity => 10
  | Operation_AccumulateProcessInventory => 11
  | Operation_ReadJobNotification => 12
  | Operation_QueryPeakMemory => 13
  | Operation_PollTarget => 14
  | Operation_ReadTargetExit => 15
  | Operation_CheckGuardian => 16
  | Operation_CheckDesktopAuthority => 17
  | Operation_ReadControlFrame => 18
  | Operation_TerminateJob => 19
  | Operation_WaitJobEmpty => 20
  | Operation_RetireGuardian => 21
  | Operation_CloseFinalHandles => 22
  | Operation_BuildRejection => 23
  | Operation_ValidateTerminalResponse => 24
  | Operation_SerializeTerminalResponse => 25
  | Operation_StoreRecord => 26
  | Operation_DeliverResponse => 27
  | Operation_AcknowledgeTerminal => 28
  | Operation_RetireOutbox => 29
  | Operation_InspectRecoveryRecord => 30
  | Operation_UnexpectedUnwind => 31
  | Operation_UnclassifiedProviderOperation => 32
  | Operation_QueryJobAccounting => 33
  end.

Inductive FailureCodeV1 : Type :=
| Code_ProcessInventoryObservation | Code_ProcessInventoryCapacity | Code_JobQuery
| Code_GuardianLoss | Code_TargetCreate | Code_TargetResume | Code_TargetQuery
| Code_ControlTransport | Code_PolicyAdmission | Code_PolicyReadback | Code_TerminalBinding
| Code_RecordIo | Code_RecordAuthentication | Code_UnexpectedProviderFailure
| Code_PolicyRevoked.
#[global] Instance FailureCodeV1_eq_dec : EqDecision FailureCodeV1.
Proof. solve_decision. Defined.
Definition Code_tag (v : FailureCodeV1) : N :=
  match v with
  | Code_ProcessInventoryObservation => 0
  | Code_ProcessInventoryCapacity => 1
  | Code_JobQuery => 2
  | Code_GuardianLoss => 3
  | Code_TargetCreate => 4
  | Code_TargetResume => 5
  | Code_TargetQuery => 6
  | Code_ControlTransport => 7
  | Code_PolicyAdmission => 8
  | Code_PolicyReadback => 9
  | Code_TerminalBinding => 10
  | Code_RecordIo => 11
  | Code_RecordAuthentication => 12
  | Code_UnexpectedProviderFailure => 13
  | Code_PolicyRevoked => 14
  end.

Inductive SafeMessageIdV1 : Type :=
| Message_OriginalFailureCaptured | Message_ReceiptRequiredForPosttarget
| Message_PeerDisconnected | Message_CommitNotConfirmed
| Message_ObservationUnavailableAfterOwnerLoss.
#[global] Instance SafeMessageIdV1_eq_dec : EqDecision SafeMessageIdV1.
Proof. solve_decision. Defined.
Definition Message_tag (v : SafeMessageIdV1) : N :=
  match v with
  | Message_OriginalFailureCaptured => 0
  | Message_ReceiptRequiredForPosttarget => 1
  | Message_PeerDisconnected => 2
  | Message_CommitNotConfirmed => 3
  | Message_ObservationUnavailableAfterOwnerLoss => 4
  end.

Inductive AttemptObservationPhaseV1 : Type :=
| Phase_BeforeAuthorization | Phase_AuthorizedBeforeResume | Phase_ResumeAttempted
| Phase_Monitoring | Phase_TargetExitObserved | Phase_Cleaning | Phase_Terminalizing
| Phase_Recovery.
#[global] Instance AttemptObservationPhaseV1_eq_dec : EqDecision AttemptObservationPhaseV1.
Proof. solve_decision. Defined.
Definition Phase_tag (v : AttemptObservationPhaseV1) : N :=
  match v with
  | Phase_BeforeAuthorization => 0
  | Phase_AuthorizedBeforeResume => 1
  | Phase_ResumeAttempted => 2
  | Phase_Monitoring => 3
  | Phase_TargetExitObserved => 4
  | Phase_Cleaning => 5
  | Phase_Terminalizing => 6
  | Phase_Recovery => 7
  end.

Inductive OriginalUnavailableReasonV1 : Type :=
| Reason_NoEarlierErrorObserved | Reason_WorkerLostBeforeObservation
| Reason_ObservationNotDurableBeforeServiceLoss | Reason_RecordUnavailable
| Reason_RecordAuthenticationFailed | Reason_LegacyProvider | Reason_RetentionExpired.
#[global] Instance OriginalUnavailableReasonV1_eq_dec : EqDecision OriginalUnavailableReasonV1.
Proof. solve_decision. Defined.
Definition Reason_tag (v : OriginalUnavailableReasonV1) : N :=
  match v with
  | Reason_NoEarlierErrorObserved => 0
  | Reason_WorkerLostBeforeObservation => 1
  | Reason_ObservationNotDurableBeforeServiceLoss => 2
  | Reason_RecordUnavailable => 3
  | Reason_RecordAuthenticationFailed => 4
  | Reason_LegacyProvider => 5
  | Reason_RetentionExpired => 6
  end.

Definition display_code (c : FailureCodeV1) : string :=
  match c with
  | Code_ProcessInventoryObservation => "MCSEALED-WINDOWS-PROCESS-INVENTORY"
  | Code_ProcessInventoryCapacity => "MCSEALED-WINDOWS-PROCESS-INVENTORY-CAPACITY"
  | Code_JobQuery => "MCSEALED-WINDOWS-JOB-QUERY"
  | Code_GuardianLoss => "MCSEALED-WINDOWS-GUARDIAN-LOSS"
  | Code_TargetCreate => "MCSPAWN-FAILED"
  | Code_TargetResume => "MCSEALED-WINDOWS-TARGET-RESUME"
  | Code_TargetQuery => "MCSEALED-WINDOWS-TARGET-QUERY"
  | Code_ControlTransport => "MCSEALED-WINDOWS-CONTROL-TRANSPORT"
  | Code_PolicyAdmission => "MCSEALED-POLICY-ADMISSION"
  | Code_PolicyReadback => "MCSEALED-POLICY-READBACK"
  | Code_PolicyRevoked => "MCSEALED-POLICY-DRIFT"
  | Code_TerminalBinding => "MCSEALED-WINDOWS-TERMINAL-RESPONSE"
  | Code_RecordIo => "MCSEALED-WINDOWS-RECORD-IO"
  | Code_RecordAuthentication => "MCSEALED-WINDOWS-ATTEMPT-RECORD-AUTH"
  | Code_UnexpectedProviderFailure => "MCSEALED-WINDOWS-LAUNCH"
  end.

Inductive NativeFailureCodeV1 : Type :=
| Win32 (v : N) | NtStatus (v : N) | HResult (v : N)
| Winsock (v : Z) | Errno (v : Z) | LegacyUntyped (v : Z).
#[global] Instance NativeFailureCodeV1_eq_dec : EqDecision NativeFailureCodeV1.
Proof. solve_decision. Defined.

Inductive SafeDiagnosticDetailV1 : Type :=
| NoAdditionalDetail
| CountAndLimit (observed limit : N)
| ProviderMessage (id : SafeMessageIdV1).
#[global] Instance SafeDiagnosticDetailV1_eq_dec : EqDecision SafeDiagnosticDetailV1.
Proof. solve_decision. Defined.

Inductive TerminalizationReferenceV1 : Type :=
| FirstError
| SecondaryError (index : N).
#[global] Instance TerminalizationReferenceV1_eq_dec : EqDecision TerminalizationReferenceV1.
Proof. solve_decision. Defined.

Record CausalEventV1 : Type := {
  ev_sequence : N;
  ev_origin : DiagnosticOriginV1;
  ev_category : FailureCategoryV1;
  ev_operation : FailureOperationV1;
  ev_code : FailureCodeV1;
  ev_native_code : option NativeFailureCodeV1;
  ev_observed_phase : AttemptObservationPhaseV1;
  ev_safe_detail : SafeDiagnosticDetailV1;
  ev_detail_redacted : bool;
  ev_detail_truncated : bool;
  ev_terminalization_reference : option TerminalizationReferenceV1
}.
#[global] Instance CausalEventV1_eq_dec : EqDecision CausalEventV1.
Proof. solve_decision. Defined.

(** [event.sequence = sequence] *)
Definition with_sequence (sequence : N) (e : CausalEventV1) : CausalEventV1 :=
  {| ev_sequence := sequence; ev_origin := ev_origin e; ev_category := ev_category e;
     ev_operation := ev_operation e; ev_code := ev_code e; ev_native_code := ev_native_code e;
     ev_observed_phase := ev_observed_phase e; ev_safe_detail := ev_safe_detail e;
     ev_detail_redacted := ev_detail_redacted e; ev_detail_truncated := ev_detail_truncated e;
     ev_terminalization_reference := ev_terminalization_reference e |}.

Inductive OriginalFailureV1 : Type :=
| Observed (event : CausalEventV1)
| Unavailable (reason : OriginalUnavailableReasonV1).
#[global] Instance OriginalFailureV1_eq_dec : EqDecision OriginalFailureV1.
Proof. solve_decision. Defined.

Record DiagnosticLossV1 : Type := {
  secondary_events_omitted : N;
  secondary_count_saturated : bool;
  persistence_failure_observed : bool;
  writer_unavailable : bool
}.
#[global] Instance DiagnosticLossV1_eq_dec : EqDecision DiagnosticLossV1.
Proof. solve_decision. Defined.
Definition DiagnosticLossV1_default : DiagnosticLossV1 :=
  {| secondary_events_omitted := 0; secondary_count_saturated := false;
     persistence_failure_observed := false; writer_unavailable := false |}.

(** ** The journal *)

Record WindowsCausalDiagnosticsV1 : Type := {
  schema_version : N;
  original : OriginalFailureV1;
  secondary : BoundedVec CausalEventV1 MAX_DIAGNOSTIC_SECONDARY_EVENTS;
  sequence : N;
  durable_through_sequence : option N;
  loss : DiagnosticLossV1
}.

Definition diagnostics_default : WindowsCausalDiagnosticsV1 :=
  {| schema_version := CAUSAL_DIAGNOSTIC_SCHEMA;
     original := Unavailable Reason_NoEarlierErrorObserved;
     secondary := []; sequence := 0; durable_through_sequence := None;
     loss := DiagnosticLossV1_default |}.

(** The reserved storage of the target takes every field of the source. *)
Definition copy_into_reserved (self target : WindowsCausalDiagnosticsV1) : WindowsCausalDiagnosticsV1 :=
  {| schema_version := schema_version self; original := original self;
     secondary := secondary self; sequence := sequence self;
     durable_through_sequence := durable_through_sequence self; loss := loss self |}.

Definition set_sequence (n : N) (d : WindowsCausalDiagnosticsV1) : WindowsCausalDiagnosticsV1 :=
  {| schema_version := schema_version d; original := original d; secondary := secondary d;
     sequence := n; durable_through_sequence := durable_through_sequence d; loss := loss d |}.
Definition set_original (o : OriginalFailureV1) (d : WindowsCausalDiagnosticsV1)
    : WindowsCausalDiagnosticsV1 :=
  {| schema_version := schema_version d; original := o; secondary := secondary d;
     sequence := sequence d; durable_through_sequence := durable_through_sequence d;
     loss := loss d |}.

(** [secondary.try_push(event)]; a full vector counts the event as omitted, the
    count saturating at [u32::MAX]. *)
Definition push_or_count (event : CausalEventV1) (d : WindowsCausalDiagnosticsV1)
    : WindowsCausalDiagnosticsV1 :=
  match try_push event (secondary d) with
  | (secondary', Ok _) =>
      {| schema_version := schema_version d; original := original d; secondary := secondary';
         sequence := sequence d; durable_through_sequence := durable_through_sequence d;
         loss := loss d |}
  | (secondary', Err _) =>
      let count := (secondary_events_omitted (loss d) + 1) mod 2 ^ 32 in
      let overflow := 2 ^ 32 <=? secondary_events_omitted (loss d) + 1 in
      {| schema_version := schema_version d; original := original d; secondary := secondary';
         sequence := sequence d; durable_through_sequence := durable_through_sequence d;
         loss := {| secondary_events_omitted := if overflow then u32_max else count;
                    secondary_count_saturated := secondary_count_saturated (loss d) || overflow;
                    persistence_failure_observed := persistence_failure_observed (loss d);
                    writer_unavailable := writer_unavailable (loss d) |} |}
  end.

Definition observe_secondary (event : CausalEventV1) : stM WindowsCausalDiagnosticsV1 string () :=
  λ self,
    match checked_add 64 (sequence self) 1 with
    | None => (self, Err "diagnostic sequence exhausted"%string)
    | Some next => (push_or_count (with_sequence next event) (set_sequence next self), Ok ())
    end.

Definition observe (event : CausalEventV1) : stM WindowsCausalDiagnosticsV1 string () :=
  λ self,
    match checked_add 64 (sequence self) 1 with
    | None => (self, Err "diagnostic sequence exhausted"%string)
    | Some next =>
        let self := set_sequence next self in
        let event := with_sequence next event in
        match original self with
        | Unavailable Reason_NoEarlierErrorObserved => (set_original (Observed event) self, Ok ())
        | _ => (push_or_count event self, Ok ())
        end
    end.

Definition reference_out_of_range (e : CausalEventV1) : bool :=
  match ev_terminalization_reference e with
  | Some (SecondaryError index) => WINDOWS_MAX_TERMINALIZATION_SECONDARY_ERRORS <=? index
  | _ => false
  end.

(** The loop of [is_consistent]: the last sequence seen, or [None] where the
    loop returns false. *)
Fixpoint chain_events (limit : N) (events : list CausalEventV1) (previous : N) : option N :=
  match events with
  | [] => Some previous
  | event :: events =>
      if negb (ev_sequence event =? previous + 1)
         || (limit <? ev_sequence event)
         || reference_out_of_range event
      then None
      else chain_events limit events (ev_sequence event)
  end.

Definition observed_events (d : WindowsCausalDiagnosticsV1) : list CausalEventV1 :=
  match original d with Observed event => [event] | Unavailable _ => [] end ++ as_slice (secondary d).

Definition diagnostics_is_consistent (self : WindowsCausalDiagnosticsV1) : bool :=
  if negb (schema_version self =? CAUSAL_DIAGNOSTIC_SCHEMA)
     || is_some_and (λ v, sequence self <? v) (durable_through_sequence self)
  then false
  else
    match chain_events (sequence self) (observed_events self) 0 with
    | None => false
    | Some previous =>
        if (0 <? secondary_events_omitted (loss self))
           && negb (length (as_slice (secondary self)) =? MAX_DIAGNOSTIC_SECONDARY_EVENTS)%nat
        then false
        else if secondary_count_saturated (loss self)
        then (secondary_events_omitted (loss self) =? u32_max)
             && (previous + u32_max <? sequence self)
        else sequence self =? previous + secondary_events_omitted (loss self)
    end.

(** ** The journal stays consistent *)

(** A record-side observation, as the sealed agent's [observe_record] makes it:
    the event and whether it is reported as secondary. *)
Definition record_observation (o : CausalEventV1 * bool) : stM WindowsCausalDiagnosticsV1 string () :=
  if o.2 then observe_secondary o.1 else observe o.1.

Fixpoint record_all (os : list (CausalEventV1 * bool)) : stM WindowsCausalDiagnosticsV1 string () :=
  match os with
  | [] => mret ()
  | o :: os => record_observation o ≫= λ _, record_all os
  end.

Definition no_earlier_error (d : WindowsCausalDiagnosticsV1) : bool :=
  original d ≟ Unavailable Reason_NoEarlierErrorObserved.

(** What every journal the program builds satisfies: the check it is read back
    with, the widths of its types, and no secondary event before an original. *)
Record journal_ok (d : WindowsCausalDiagnosticsV1) : Prop := {
  jo_consistent : diagnostics_is_consistent d = true;
  jo_bounded : bounded (secondary d);
  jo_sequence : in_range 64 (sequence d);
  jo_omitted : secondary_events_omitted (loss d) <= u32_max;
  jo_original_first : no_earlier_error d = true → secondary d = []
}.

Lemma chain_events_app limit l1 l2 p :
  chain_events limit (l1 ++ l2) p = chain_events limit l1 p ≫= chain_events limit l2.
Proof. revert p. induction l1 as [|e l1 IH]; intros p; simpl; [done|]. by case_match. Qed.

Lemma chain_events_mono limit limit' l p q :
  limit <= limit' → chain_events limit l p = Some q → chain_events limit' l p = Some q.
Proof.
  intros Hl. revert p. induction l as [|e l IH]; intros p; simpl; [done|].
  destruct (ev_sequence e =? p + 1), (reference_out_of_range e); simpl; rewrite ?orb_true_r; try done.
  rewrite !orb_false_r. destruct (N.ltb_spec limit (ev_sequence e)); [done|].
  replace (limit' <? ev_sequence e) with false by lia. apply IH.
Qed.

Lemma chain_events_length limit l p q :
  chain_events limit l p = Some q → q = p + N.of_nat (length l).
Proof.
  revert p. induction l as [|e l IH]; intros p; simpl; [naive_solver lia|].
  case_match eqn:E1; [done|]. bool_hyps. intros E%IH. lia.
Qed.

(** The consistency check, opened. *)
Lemma diagnostics_is_consistent_spec d :
  diagnostics_is_consistent d = true ↔
  schema_version d = CAUSAL_DIAGNOSTIC_SCHEMA ∧
  is_none_or (λ v, v <=? sequence d) (durable_through_sequence d) = true ∧
  ∃ previous, chain_events (sequence d) (observed_events d) 0 = Some previous ∧
    (secondary_events_omitted (loss d) = 0 ∨
     length (secondary d) = MAX_DIAGNOSTIC_SECONDARY_EVENTS) ∧
    if secondary_count_saturated (loss d)
    then secondary_events_omitted (loss d) = u32_max ∧ previous + u32_max < sequence d
    else sequence d = previous + secondary_events_omitted (loss d).
Proof.
  unfold diagnostics_is_consistent, as_slice.
  assert (is_some_and (λ v, sequence d <? v) (durable_through_sequence d) =
          negb (is_none_or (λ v, v <=? sequence d) (durable_through_sequence d))) as ->.
  { destruct (durable_through_sequence d) as [v|]; simpl; [|done].
    rewrite N.leb_antisym, negb_involutive. done. }
  destruct (N.eqb_spec (schema_version d) CAUSAL_DIAGNOSTIC_SCHEMA) as [Es|Es]; simpl; [|naive_solver].
  destruct (is_none_or _ _); simpl; [|naive_solver].
  destruct (chain_events _ _ _) as [p|]; [|naive_solver].
  destruct (N.ltb_spec 0 (secondary_events_omitted (loss d))) as [Ho|Ho]; simpl;
    destruct (Nat.eqb_spec (length (secondary d)) MAX_DIAGNOSTIC_SECONDARY_EVENTS) as [El|El]; simpl.
  all: destruct (secondary_count_saturated (loss d));
    rewrite ?andb_true_iff, ?N.eqb_eq, ?N.ltb_lt; split; try done;
    first [ intros H; split_and!; try done; exists p; split_and!; auto with lia; lia
          | intros (_ & _ & ? & [= <-] & ? & ?); first [done | lia] ].
Qed.

Definition event_ok (e : CausalEventV1) : Prop := reference_out_of_range e = false.

Lemma chain_events_snoc limit l p q e :
  chain_events limit l p = Some q → q + 1 <= limit → event_ok e →
  chain_events limit (l ++ [with_sequence (q + 1) e]) p = Some (q + 1).
Proof.
  intros E Hq He. rewrite chain_events_app, E. simpl.
  unfold event_ok, reference_out_of_range in *. simpl. rewrite He, N.eqb_refl.
  by replace (limit <? q + 1) with false by lia.
Qed.

Lemma durable_mono (o : option N) n m :
  n <= m → is_none_or (λ v, v <=? n) o = true → is_none_or (λ v, v <=? m) o = true.
Proof. destruct o; simpl; lia. Qed.

(** Adding a secondary event, when it fits and when it is counted. *)
Lemma push_or_count_ok d e :
  journal_ok d → sequence d + 1 < 2 ^ 64 → event_ok e → no_earlier_error d = false →
  journal_ok (push_or_count (with_sequence (sequence d + 1) e) (set_sequence (sequence d + 1) d)).
Proof.
  intros [Hc Hb Hs Hom Hfirst] Hseq He Hno.
  apply diagnostics_is_consistent_spec in Hc as (Hschema & Hd & p & Hchain & Hfull & Hcount).
  unfold push_or_count, try_push. cbn [secondary set_sequence].
  assert (chain_events (sequence d + 1) (observed_events d) 0 = Some p) as Hchain'
    by (eapply chain_events_mono; [|exact Hchain]; lia).
  case_bool_decide as Elen; (split; [apply diagnostics_is_consistent_spec|..]); simpl; try done.
  - split_and!; [done|eapply durable_mono; [|done]; lia|].
    exists p. split_and!; [exact Hchain'|by right|].
    unfold u32_max in *. destruct (secondary_count_saturated (loss d)); simpl.
    + destruct Hcount as [-> ?]. simpl. lia.
    + destruct (N.leb_spec (2 ^ 32) (secondary_events_omitted (loss d) + 1)).
      * lia.
      * rewrite N.mod_small by lia. lia.
  - unfold u32_max in *. destruct (N.leb_spec (2 ^ 32) (secondary_events_omitted (loss d) + 1)); [lia|].
    rewrite N.mod_small by lia. lia.
  - destruct Hfull as [H0|Hf]; [|by rewrite Hf in Elen].
    rewrite H0 in *. destruct (secondary_count_saturated (loss d)) eqn:Esat.
    { unfold u32_max in Hcount. lia. }
    assert (sequence d = p) as Ep by lia.
    split_and!; [done|eapply durable_mono; [|done]; lia|].
    exists (p + 1). split_and!; [|by left|lia].
    unfold observed_events, as_slice in *. cbn [original secondary].
    rewrite (assoc_L (++)), Ep. rewrite Ep in Hchain'.
    apply chain_events_snoc; [done|lia|done].
  - unfold bounded, MAX_DIAGNOSTIC_SECONDARY_EVENTS in *. rewrite length_app. simpl. lia.
  - intros E. change (no_earlier_error d = true) in E. congruence.
Qed.

Lemma observe_original_ok d e :
  journal_ok d → sequence d + 1 < 2 ^ 64 → event_ok e → no_earlier_error d = true →
  journal_ok (set_original (Observed (with_sequence (sequence d + 1) e))
                (set_sequence (sequence d + 1) d)).
Proof.
  intros [Hc Hb Hs Hom Hfirst] Hseq He Hno. specialize (Hfirst Hno).
  apply diagnostics_is_consistent_spec in Hc as (Hschema & Hd & p & Hchain & Hfull & Hcount).
  unfold no_earlier_error in Hno. bool_hyps.
  unfold observed_events in Hchain. rewrite Hno, Hfirst in Hchain. injection Hchain as <-.
  rewrite Hfirst in Hfull. destruct Hfull as [H0|[=]]. rewrite H0 in Hcount.
  destruct (secondary_count_saturated (loss d)) eqn:Esat; [unfold u32_max in Hcount; lia|].
  split; [apply diagnostics_is_consistent_spec|..]; simpl; try done.
  split_and!; [done|eapply durable_mono; [|done]; lia|].
  exists 1. unfold observed_events. simpl. rewrite Hfirst, H0, Esat, Hcount. simpl.
  unfold event_ok, reference_out_of_range in *. simpl. rewrite He. split_and!; [done|by left|done].
Qed.

Lemma observe_Ok d e : sequence d + 1 < 2 ^ 64 →
  observe e d =
    (if no_earlier_error d
     then set_original (Observed (with_sequence (sequence d + 1) e)) (set_sequence (sequence d + 1) d)
     else push_or_count (with_sequence (sequence d + 1) e) (set_sequence (sequence d + 1) d), Ok ()).
Proof.
  intros H. unfold observe, checked_add, fits. replace (_ <? _) with true by lia.
  unfold no_earlier_error. simpl. destruct (original d) as [|[]] eqn:E; simpl; rewrite ?E; done.
Qed.

Lemma observe_secondary_Ok d e : sequence d + 1 < 2 ^ 64 →
  observe_secondary e d =
    (push_or_count (with_sequence (sequence d + 1) e) (set_sequence (sequence d + 1) d), Ok ()).
Proof. intros H. unfold observe_secondary, checked_add, fits. by replace (_ <? _) with true by lia. Qed.

(** An observation that the code is entitled to make: a secondary one needs an
    original, or a recorded reason why there is none. *)
Definition admissible (d : WindowsCausalDiagnosticsV1) (o : CausalEventV1 * bool) : Prop :=
  o.2 = true → no_earlier_error d = false.

Lemma push_or_count_shape e d :
  sequence (push_or_count e d) = sequence d ∧ original (push_or_count e d) = original d ∧
  secondary d `prefix_of` secondary (push_or_count e d).
Proof.
  unfold push_or_count, try_push. case_bool_decide; simpl; split_and!; try done.
  by apply prefix_app_r.
Qed.

Lemma record_observation_keeps d o :
  admissible d o → sequence d + 1 < 2 ^ 64 →
  let d' := (record_observation o d).1 in
  (record_observation o d).2 = Ok () ∧ no_earlier_error d' = false ∧ sequence d' = sequence d + 1 ∧
  (no_earlier_error d = false → original d' = original d) ∧ secondary d `prefix_of` secondary d'.
Proof.
  intros Hadm Hseq. destruct o as [e sec]. unfold admissible in Hadm. simpl in *.
  pose proof (push_or_count_shape (with_sequence (sequence d + 1) e)
                (set_sequence (sequence d + 1) d)) as (Eseq & Eorig & Esec).
  assert (no_earlier_error d = false →
    no_earlier_error (push_or_count (with_sequence (sequence d + 1) e)
      (set_sequence (sequence d + 1) d)) = false) as Hnext.
  { unfold no_earlier_error. rewrite Eorig. done. }
  unfold record_observation. destruct sec; cbn [snd fst].
  - rewrite observe_secondary_Ok by done. cbn [fst snd]. specialize (Hadm eq_refl). split_and!; auto.
  - rewrite observe_Ok by done. cbn [fst snd]. destruct (no_earlier_error d) eqn:Hno; split_and!; auto; done.
Qed.
Lemma record_observation_ok d o :
  journal_ok d → event_ok o.1 → admissible d o → sequence d + 1 < 2 ^ 64 →
  journal_ok (record_observation o d).1.
Proof.
  intros Hd He Hadm Hseq. destruct o as [e sec]. unfold admissible in Hadm. simpl in *.
  unfold record_observation. destruct sec; cbn [snd fst].
  - rewrite observe_secondary_Ok by done. cbn [fst snd]. auto using push_or_count_ok.
  - rewrite observe_Ok by done. cbn [fst snd].
    destruct (no_earlier_error d) eqn:Hno; auto using push_or_count_ok, observe_original_ok.
Qed.

Lemma journal_ok_default : journal_ok diagnostics_default.
Proof. split; [reflexivity|unfold bounded; simpl; lia|reflexivity|done|done]. Qed.
#[export] Hint Resolve journal_ok_default : rust.

Lemma record_all_keeps d os :
  (∀ o, head os = Some o → admissible d o) → sequence d + N.of_nat (length os) < 2 ^ 64 →
  let d' := (record_all os d).1 in
  (record_all os d).2 = Ok () ∧ sequence d' = sequence d + N.of_nat (length os) ∧
  (no_earlier_error d = false → original d' = original d) ∧ secondary d `prefix_of` secondary d'.
Proof.
  revert d. induction os as [|o os IH]; intros d Hhead Hseq; [cbn; split_and!; [done|lia|done|done]|]. cbn [length] in Hseq.
  destruct (record_observation_keeps d o) as (Hr & Hno & Hs & Ho & Hp); [by apply Hhead|lia|].
  cbn [record_all]. unfold mbind, stM_bind. destruct (record_observation o d) as [d1 r1]. cbn [fst snd] in *. subst r1.
  destruct (IH d1) as (Hr2 & Hs2 & Ho2 & Hp2); [by intros ?? ?|lia|]. cbn [length]. split_and!; [done|lia| |by etrans].
  intros H. rewrite Ho2 by done. by apply Ho.
Qed.
Lemma record_all_ok d os :
  journal_ok d → Forall (λ o, event_ok o.1) os → (∀ o, head os = Some o → admissible d o) →
  sequence d + N.of_nat (length os) < 2 ^ 64 → journal_ok (record_all os d).1.
Proof.
  intros Hd Hos. revert d Hd. induction Hos as [|o os Ho Hos IH]; intros d Hd Hhead Hseq; [done|]. cbn [length] in Hseq.
  destruct (record_observation_keeps d o) as (Hr & Hno & Hs & _); [by apply Hhead|lia|].
  assert (journal_ok (record_observation o d).1) as Hd' by (apply record_observation_ok; [done|done|by apply Hhead|lia]).
  cbn [record_all]. unfold mbind, stM_bind. destruct (record_observation o d) as [d1 r1]. cbn [fst snd] in *. subst r1.
  apply IH; [done|by intros ?? ?|lia].
Qed.

(** *** References *)
(** The same journal with the references of its events left out: recording does
    not look at them, and the check asks nothing else of them than their range. *)
Definition unreferenced (e : CausalEventV1) : CausalEventV1 :=
  {| ev_sequence := ev_sequence e; ev_origin := ev_origin e; ev_category := ev_category e;
     ev_operation := ev_operation e; ev_code := ev_code e; ev_native_code := ev_native_code e;
     ev_observed_phase := ev_observed_phase e; ev_safe_detail := ev_safe_detail e;
     ev_detail_redacted := ev_detail_redacted e; ev_detail_truncated := ev_detail_truncated e;
     ev_terminalization_reference := None |}.
Definition strip (d : WindowsCausalDiagnosticsV1) : WindowsCausalDiagnosticsV1 :=
  {| schema_version := schema_version d;
     original := match original d with Observed e => Observed (unreferenced e) | Unavailable r => Unavailable r end;
     secondary := unreferenced <$> secondary d;
     sequence := sequence d; durable_through_sequence := durable_through_sequence d; loss := loss d |}.

Lemma chain_events_strip limit l p q :
  chain_events limit l p = Some q ↔ chain_events limit (unreferenced <$> l) p = Some q ∧ Forall event_ok l.
Proof.
  revert p. induction l as [|e l IH]; intros p; cbn [chain_events fmap list_fmap].
  { split; [intros H; split; [done|constructor]|by intros [? _]]. }
  rewrite Forall_cons. cbn [ev_sequence unreferenced].
  change (reference_out_of_range (unreferenced e)) with false. rewrite orb_false_r. unfold event_ok at 1.
  destruct (negb _ || (limit <? _)); cbn [orb]; [naive_solver|]. destruct (reference_out_of_range e); [naive_solver|].
  rewrite IH. naive_solver.
Qed.
Lemma strip_events d : observed_events (strip d) = unreferenced <$> observed_events d.
Proof. unfold observed_events, as_slice, strip. cbn. rewrite fmap_app. by destruct (original d). Qed.
Lemma strip_no_earlier d : no_earlier_error (strip d) = no_earlier_error d.
Proof. unfold no_earlier_error, strip. cbn. destruct (original d); [by rewrite !bool_decide_false|done]. Qed.
Lemma strip_ok d : journal_ok d ↔ journal_ok (strip d) ∧ Forall event_ok (observed_events d).
Proof.
  assert (diagnostics_is_consistent d = true ↔
          diagnostics_is_consistent (strip d) = true ∧ Forall event_ok (observed_events d)) as Hc.
  { rewrite !diagnostics_is_consistent_spec, strip_events. cbn [strip schema_version sequence durable_through_sequence loss secondary].
    rewrite length_fmap. setoid_rewrite (chain_events_strip (sequence d) (observed_events d)). naive_solver. }
  split.
  - intros [G1 G2 G3 G4 G5]. apply Hc in G1 as [G1 Hf]. split; [|done]. split; [done|..]; cbn [strip secondary sequence loss]; [|done|done|].
    + unfold bounded in *. by rewrite length_fmap.
    + rewrite strip_no_earlier. intros E%G5. by rewrite E.
  - intros [[G1 G2 G3 G4 G5] Hf]. cbn [strip secondary sequence loss] in *. split; [by apply Hc| |done|done|].
    + unfold bounded in *. by rewrite length_fmap in G2.
    + rewrite <- strip_no_earlier. intros E%G5. by apply fmap_nil_inv in E.
Qed.

Lemma push_strip e d : strip (push_or_count e d) = push_or_count (unreferenced e) (strip d).
Proof.
  unfold push_or_count, try_push. cbn [strip secondary]. rewrite length_fmap. case_bool_decide; [done|].
  unfold strip. cbn. by rewrite fmap_app.
Qed.
Lemma record_strip o d :
  record_observation (unreferenced o.1, o.2) (strip d) = (strip (record_observation o d).1, (record_observation o d).2).
Proof.
  unfold record_observation, observe, observe_secondary. cbn [fst snd]. destruct o.2; cbn [fst snd];
    change (sequence (strip d)) with (sequence d); destruct (checked_add 64 (sequence d) 1) as [n|]; try done; cbn [fst snd].
  - by rewrite push_strip.
  - change (original (set_sequence n d)) with (original d).
    change (original (set_sequence n (strip d))) with
      (match original d with Observed e => Observed (unreferenced e) | Unavailable r => Unavailable r end).
    destruct (original d) as [e0|[]]; cbn [fst snd]; by rewrite ?push_strip.
Qed.
Lemma record_all_strip os d :
  record_all ((λ o, (unreferenced o.1, o.2)) <$> os) (strip d) = (strip (record_all os d).1, (record_all os d).2).
Proof.
  revert d. induction os as [|o os IH]; intros d; cbn [record_all fmap list_fmap]; [done|]. unfold mbind, stM_bind.
  rewrite record_strip. destruct (record_observation o d) as [d1 [[]|e]]; cbn [fst snd]; [apply IH|done].
Qed.

(** C40: whatever observations are recorded in a journal that passes its own
    check, with an original observation (or a recorded reason for its absence)
    before any secondary one, each is accepted while the 64-bit sequence lasts,
    the first observation is never replaced, and earlier secondary events are
    never removed or reordered.  Recording does not look at the terminalization
    error an event refers to, while the check wants an index below the number of
    errors that are kept: the journal passes the check again exactly when every
    event it retains has such a reference or none, and so always when every
    observation made had. *)
Theorem diagnostics_journal_consistent d os :
  journal_ok d → (∀ o, head os = Some o → admissible d o) →
  sequence d + N.of_nat (length os) < 2 ^ 64 →
  let d' := (record_all os d).1 in
  (record_all os d).2 = Ok () ∧
  (journal_ok d' ↔ Forall event_ok (observed_events d')) ∧
  (Forall (λ o, event_ok o.1) os → journal_ok d') ∧
  sequence d' = sequence d + N.of_nat (length os) ∧
  (no_earlier_error d = false → original d' = original d) ∧ secondary d `prefix_of` secondary d'.
Proof.
  intros Hd Hhead Hseq d'. destruct (record_all_keeps d os Hhead Hseq) as (Hr & Hs & Ho & Hp).
  assert (journal_ok (strip d')) as Hj.
  { pose proof (record_all_strip os d) as E. apply (f_equal fst) in E. cbn [fst] in E. unfold d'. rewrite <- E. apply record_all_ok.
    - by apply strip_ok in Hd as [? _].
    - apply Forall_fmap, Forall_true. done.
    - intros o Hx. destruct os as [|o' os']; [done|]. injection Hx as <-. unfold admissible. rewrite strip_no_earlier.
      exact (Hhead o' eq_refl).
    - by rewrite length_fmap. }
  split_and!; [done|rewrite strip_ok; naive_solver| |done|done|done]. intros Hos. by apply record_all_ok.
Qed.

Definition sample_event : CausalEventV1 :=
  {| ev_sequence := 0; ev_origin := Origin_Launcher; ev_category := Category_Launch;
     ev_operation := Operation_CreateTarget; ev_code := Code_TargetCreate;
     ev_native_code := Some (Win32 5); ev_observed_phase := Phase_BeforeAuthorization;
     ev_safe_detail := CountAndLimit 3 2; ev_detail_redacted := false;
     ev_detail_truncated := false; ev_terminalization_reference := Some (SecondaryError 3) |}.

Lemma diagnostics_journal_consistent_witness :
  let os := (sample_event, false) :: replicate 12 (sample_event, true) in
  let d := (record_all os diagnostics_default).1 in
  journal_ok d ∧ sequence d = 13 ∧ secondary_events_omitted (loss d) = 4.
Proof.
  intros os d.
  destruct (diagnostics_journal_consistent diagnostics_default os) as (_ & _ & H & E & _).
  - apply journal_ok_default.
  - intros o [= <-]. done.
  - reflexivity.
  - split; [apply H; repeat constructor|]. split; vm_compute; reflexivity.
Defined.

(** A secondary observation made before any original one is numbered
    first; the original that arrives next is numbered after it, and from then on
    the journal fails its own check whatever else is observed, so the record
    that holds it cannot be read back. *)
Theorem secondary_before_original_unreadable e1 e2 os :
  N.of_nat (length os) < 2 ^ 63 →
  let d := (record_all ((e1, true) :: (e2, false) :: os) diagnostics_default).1 in
  diagnostics_is_consistent d = false.
Proof.
  intros Hlen d.
  assert (∀ os' d', sequence d' + N.of_nat (length os') < 2 ^ 64 →
            (∃ e, original d' = Observed e ∧ ev_sequence e = 2) →
            ∃ e, original (record_all os' d').1 = Observed e ∧ ev_sequence e = 2) as Hkeep.
  { intros os'. induction os' as [|o os' IH]; intros d' Hs Horig; [done|].
    cbn [length] in Hs. cbn [record_all]. unfold mbind, stM_bind.
    assert (record_observation o d' = (push_or_count (with_sequence (sequence d' + 1) o.1)
      (set_sequence (sequence d' + 1) d'), Ok ())) as ->.
    { unfold record_observation. destruct o.2; [apply observe_secondary_Ok; lia|].
      rewrite observe_Ok by lia. destruct Horig as (e & E & _).
      unfold no_earlier_error. rewrite E. done. }
    pose proof (push_or_count_shape (with_sequence (sequence d' + 1) o.1)
      (set_sequence (sequence d' + 1) d')) as (Eseq & Eorig & _).
    apply IH; [rewrite Eseq; simpl; lia|]. rewrite Eorig. done. }
  destruct (Hkeep os (record_all [(e1, true); (e2, false)] diagnostics_default).1) as (e & E & Es).
  { simpl. lia. }
  { eexists. split; reflexivity. }
  apply not_true_iff_false. intros (_ & _ & p & Hc & _)%diagnostics_is_consistent_spec.
  unfold d, observed_events in Hc.
  change (record_all ((e1, true) :: (e2, false) :: os) diagnostics_default) with
    (record_all os (record_all [(e1, true); (e2, false)] diagnostics_default).1) in Hc.
  rewrite E in Hc. simpl in Hc. by rewrite Es in Hc.
Qed.

Lemma secondary_before_original_unreadable_witness :
  diagnostics_is_consistent
    (record_all [(sample_event, true); (sample_event, false)] diagnostics_default).1 = false.
Proof. apply (secondary_before_original_unreadable _ _ []). reflexivity. Defined.

(** ** Retention *)

Record DiagnosticRetentionV1 : Type := {
  admitted_monotonic_millis : N;
  expires_monotonic_millis : N;
  tombstone : option OriginalUnavailableReasonV1
}.

Definition admitted_at (now : N) : result string DiagnosticRetentionV1 :=
  expires ← ok_or "diagnostic retention clock exhausted"%string
              (checked_add 64 now (DIAGNOSTIC_PAYLOAD_RETENTION_SECS * 1000));
  mret {| admitted_monotonic_millis := now; expires_monotonic_millis := expires;
          tombstone := None |}.

Definition retention_is_consistent (self : DiagnosticRetentionV1) : bool :=
  (checked_add 64 (admitted_monotonic_millis self) (DIAGNOSTIC_PAYLOAD_RETENTION_SECS * 1000)
   ≟ Some (expires_monotonic_millis self))
  && is_none_or (λ reason,
       match reason with
       | Reason_RetentionExpired | Reason_ObservationNotDurableBeforeServiceLoss => true
       | _ => false
       end) (tombstone self).

Definition export_eligible (self : DiagnosticRetentionV1) (same_boot : bool) (now : N) : bool :=
  retention_is_consistent self && is_none (tombstone self) && same_boot
  && (admitted_monotonic_millis self <=? now) && (now <? expires_monotonic_millis self).

(** An admitted payload can be exported during exactly the next 24 hours of the
    same boot; a stored one only inside a 24 hour window, and never once it
    carries a tombstone. *)
Theorem retention_window :
  (∀ t r, admitted_at t = Ok r → retention_is_consistent r = true ∧
     ∀ same_boot now, export_eligible r same_boot now = true ↔
       same_boot = true ∧ t <= now < t + 86400000) ∧
  (∀ r same_boot now, export_eligible r same_boot now = true →
     same_boot = true ∧ tombstone r = None ∧
     admitted_monotonic_millis r <= now < admitted_monotonic_millis r + 86400000).
Proof.
  assert (∀ r, retention_is_consistent r = true →
    expires_monotonic_millis r = admitted_monotonic_millis r + 86400000) as Hc.
  { intros r H. unfold retention_is_consistent in H. bool_hyps.
    apply checked_add_Some in H as [-> _]. reflexivity. }
  split.
  - intros t r H. unfold admitted_at in H. run_ok.
    assert (retention_is_consistent {| admitted_monotonic_millis := t;
      expires_monotonic_millis := t + DIAGNOSTIC_PAYLOAD_RETENTION_SECS * 1000;
      tombstone := None |} = true) as Hr.
    { unfold retention_is_consistent. simpl. bool_goal; [|done].
      apply checked_add_Some. auto. }
    split; [done|]. intros same_boot now. unfold export_eligible. rewrite Hr. simpl.
    change (DIAGNOSTIC_PAYLOAD_RETENTION_SECS * 1000) with 86400000.
    rewrite !andb_true_iff, N.leb_le, N.ltb_lt. naive_solver.
  - intros r same_boot now H. unfold export_eligible in H. bool_hyps.
    rewrite (Hc r) in * by done. done.
Qed.

(** ** The published projection *)

Record PublicProviderBindingV1 : Type := {
  generation : BoundedText 256;
  source_commit : BoundedText 64;
  runtime_manifest_sha256 : DiagnosticSha256
}.
#[global] Instance PublicProviderBindingV1_eq_dec : EqDecision PublicProviderBindingV1.
Proof. solve_decision. Defined.

Definition is_ascii_alphanumeric (c : ascii) : bool :=
  is_ascii_digit c || is_ascii_lowercase c || is_ascii_uppercase c.
Definition binding_is_consistent (self : PublicProviderBindingV1) : bool :=
  negb (str_is_empty (text (generation self)))
  && str_all (λ b, is_ascii_alphanumeric b || bool_decide (b ∈ ["."; "-"; "_"; ":"]%char))
       (text (generation self))
  && bool_decide (str_len (text (source_commit self)) ∈ [20 * 2; 32 * 2])
  && str_all is_lower_hex (text (source_commit self)).

Record ProviderFailureDiagnosticV1 : Type := {
  pf_schema_version : N;
  provider_binding : PublicProviderBindingV1;
  attempt_id : DiagnosticSha256;
  request_sha256 : DiagnosticSha256;
  diagnostic_sequence : N;
  pf_durable_through_sequence : option N;
  pf_original : OriginalFailureV1;
  pf_secondary : BoundedVec CausalEventV1 MAX_DIAGNOSTIC_SECONDARY_EVENTS;
  pf_loss : DiagnosticLossV1;
  projection_sha256 : DiagnosticSha256
}.

#[global] Instance ProviderFailureDiagnosticV1_eq_dec : EqDecision ProviderFailureDiagnosticV1.
Proof. solve_decision. Defined.

Definition set_digest (d : DiagnosticSha256) (p : ProviderFailureDiagnosticV1)
    : ProviderFailureDiagnosticV1 :=
  {| pf_schema_version := pf_schema_version p; provider_binding := provider_binding p;
     attempt_id := attempt_id p; request_sha256 := request_sha256 p;
     diagnostic_sequence := diagnostic_sequence p;
     pf_durable_through_sequence := pf_durable_through_sequence p;
     pf_original := pf_original p; pf_secondary := pf_secondary p; pf_loss := pf_loss p;
     projection_sha256 := d |}.

Definition projection_is_consistent (self : ProviderFailureDiagnosticV1) : bool :=
  (pf_schema_version self =? CAUSAL_DIAGNOSTIC_SCHEMA)
  && binding_is_consistent (provider_binding self)
  && diagnostics_is_consistent
       {| schema_version := pf_schema_version self; original := pf_original self;
          secondary := pf_secondary self; sequence := diagnostic_sequence self;
          durable_through_sequence := pf_durable_through_sequence self; loss := pf_loss self |}.

Definition matches_journal (self : ProviderFailureDiagnosticV1) (attempt_id' request' : string)
    (journal : WindowsCausalDiagnosticsV1) : bool :=
  (sha256_into_string (attempt_id self) ≟ attempt_id')
  && (sha256_into_string (request_sha256 self) ≟ request')
  && (diagnostic_sequence self =? sequence journal)
  && (pf_durable_through_sequence self ≟ durable_through_sequence journal)
  && (pf_original self ≟ original journal)
  && bool_decide (pf_secondary self = secondary journal :> list CausalEventV1)
  && (pf_loss self ≟ loss journal).

(** ** The digest's input

    The hasher is the list of the bytes it has absorbed. *)

Definition native_bytes (c : option NativeFailureCodeV1) : list u8 :=
  match c with
  | None => [byte 0]
  | Some (Win32 v) => byte 1 :: be_bytes 4 v
  | Some (NtStatus v) => byte 2 :: be_bytes 4 v
  | Some (HResult v) => byte 3 :: be_bytes 4 v
  | Some (Winsock v) => byte 4 :: i32_be_bytes v
  | Some (Errno v) => byte 5 :: i32_be_bytes v
  | Some (LegacyUntyped v) => byte 6 :: i32_be_bytes v
  end.

Definition detail_bytes (d : SafeDiagnosticDetailV1) : list u8 :=
  match d with
  | NoAdditionalDetail => [byte 0]
  | CountAndLimit observed limit => byte 1 :: be_bytes 4 observed ++ be_bytes 4 limit
  | ProviderMessage id => byte 2 :: be_bytes 2 (Message_tag id)
  end.

Definition reference_bytes (r : option TerminalizationReferenceV1) : list u8 :=
  match r with
  | None => [byte 0]
  | Some FirstError => [byte 1]
  | Some (SecondaryError index) => [byte 2; byte index]
  end.

(** What [hash_event] feeds to the hasher. *)
Definition event_bytes (e : CausalEventV1) : list u8 :=
  be_bytes 8 (ev_sequence e)
  ++ be_bytes 2 (Origin_tag (ev_origin e))
  ++ be_bytes 2 (Category_tag (ev_category e))
  ++ be_bytes 2 (Operation_tag (ev_operation e))
  ++ be_bytes 2 (Code_tag (ev_code e))
  ++ native_bytes (ev_native_code e)
  ++ be_bytes 2 (Phase_tag (ev_observed_phase e))
  ++ detail_bytes (ev_safe_detail e)
  ++ [bool_byte (ev_detail_redacted e); bool_byte (ev_detail_truncated e)]
  ++ reference_bytes (ev_terminalization_reference e).
Definition hash_event (hash : list u8) (event : CausalEventV1) : list u8 :=
  hash ++ event_bytes event.

Definition durable_bytes (o : option N) : list u8 :=
  match o with None => [byte 0] | Some v => byte 1 :: be_bytes 8 v end.
Definition original_bytes (o : OriginalFailureV1) : list u8 :=
  match o with
  | Observed event => hash_event [byte 0] event
  | Unavailable reason => byte 1 :: be_bytes 2 (Reason_tag reason)
  end.
Definition loss_bytes (l : DiagnosticLossV1) : list u8 :=
  be_bytes 4 (secondary_events_omitted l)
  ++ [bool_byte (secondary_count_saturated l); bool_byte (persistence_failure_observed l);
      bool_byte (writer_unavailable l)].

Definition digest_domain : list u8 :=
  bytes "memcordon:causal-diagnostic:v1" ++ [NUL].

Definition canonical_preimage (p : ProviderFailureDiagnosticV1) : list u8 :=
  digest_domain
  ++ be_bytes 4 (pf_schema_version p)
  ++ text_bytes (text (generation (provider_binding p)))
  ++ text_bytes (text (source_commit (provider_binding p)))
  ++ sha_bytes (runtime_manifest_sha256 (provider_binding p))
  ++ sha_bytes (attempt_id p)
  ++ sha_bytes (request_sha256 p)
  ++ be_bytes 8 (diagnostic_sequence p)
  ++ durable_bytes (pf_durable_through_sequence p)
  ++ original_bytes (pf_original p)
  ++ seq_bytes event_bytes (as_slice (pf_secondary p))
  ++ loss_bytes (pf_loss p).

(** ** The preimage determines the projection *)

(** The widths the Rust types give the fields. *)
Definition native_wf (c : NativeFailureCodeV1) : Prop :=
  match c with
  | Win32 v | NtStatus v | HResult v => v < 2 ^ 32
  | Winsock v | Errno v | LegacyUntyped v => is_i32 v
  end.
Definition detail_wf (d : SafeDiagnosticDetailV1) : Prop :=
  match d with CountAndLimit o l => o < 2 ^ 32 ∧ l < 2 ^ 32 | _ => True end.
Definition reference_wf (r : option TerminalizationReferenceV1) : Prop :=
  match r with Some (SecondaryError i) => i < 256 | _ => True end.
Record event_wf (e : CausalEventV1) : Prop := {
  ew_sequence : ev_sequence e < 2 ^ 64;
  ew_native : ∀ c, ev_native_code e = Some c → native_wf c;
  ew_detail : detail_wf (ev_safe_detail e);
  ew_reference : reference_wf (ev_terminalization_reference e)
}.
Definition original_wf (o : OriginalFailureV1) : Prop :=
  match o with Observed e => event_wf e | Unavailable _ => True end.
Record projection_wf (p : ProviderFailureDiagnosticV1) : Prop := {
  pw_schema : pf_schema_version p < 2 ^ 32;
  pw_generation : str_len (text (generation (provider_binding p))) <= 256;
  pw_commit : str_len (text (source_commit (provider_binding p))) <= 64;
  pw_manifest : sha_wf (runtime_manifest_sha256 (provider_binding p));
  pw_attempt : sha_wf (attempt_id p);
  pw_request : sha_wf (request_sha256 p);
  pw_sequence : diagnostic_sequence p < 2 ^ 64;
  pw_durable : ∀ v, pf_durable_through_sequence p = Some v → v < 2 ^ 64;
  pw_original : original_wf (pf_original p);
  pw_bounded : bounded (pf_secondary p);
  pw_secondary : Forall event_wf (pf_secondary p);
  pw_loss : secondary_events_omitted (pf_loss p) < 2 ^ 32
}.

(** Tags are chosen injectively and fit 16 bits. *)
Ltac tag_code := apply tag_prefix_free; [by intros [] | by intros [] []; simpl; intros E].

Lemma Origin_code : prefix_free (λ _, True) (λ v, be_bytes 2 (Origin_tag v)).
Proof. tag_code. Qed.
Lemma Category_code : prefix_free (λ _, True) (λ v, be_bytes 2 (Category_tag v)).
Proof. tag_code. Qed.
Lemma Operation_code : prefix_free (λ _, True) (λ v, be_bytes 2 (Operation_tag v)).
Proof. tag_code. Qed.
Lemma Code_code : prefix_free (λ _, True) (λ v, be_bytes 2 (Code_tag v)).
Proof. tag_code. Qed.
Lemma Message_code : prefix_free (λ _, True) (λ v, be_bytes 2 (Message_tag v)).
Proof. tag_code. Qed.
Lemma Phase_code : prefix_free (λ _, True) (λ v, be_bytes 2 (Phase_tag v)).
Proof. tag_code. Qed.
Lemma Reason_code : prefix_free (λ _, True) (λ v, be_bytes 2 (Reason_tag v)).
Proof. tag_code. Qed.

(** The tag byte in front of an alternative. *)
Ltac drop_tag E := apply (f_equal tail) in E; cbn [tail] in E.

Lemma bool_byte_inj a b : bool_byte a = bool_byte b → a = b.
Proof. by destruct a, b. Qed.

Lemma native_code : prefix_free (λ o, ∀ c, o = Some c → native_wf c) native_bytes.
Proof.
  intros x y r s Hx Hy E.
  destruct x as [[]|], y as [[]|]; try discriminate E; cbn [native_bytes app] in E;
    drop_tag E; try done;
    specialize (Hx _ eq_refl); specialize (Hy _ eq_refl); simpl in Hx, Hy;
    (apply be_bytes_prefix_free in E as [-> ->] || apply i32_be_bytes_prefix_free in E as [-> ->]);
    done.
Qed.

Lemma detail_code : prefix_free detail_wf detail_bytes.
Proof.
  intros x y r s Hx Hy E.
  destruct x as [|o l|m], y as [|o' l'|m']; try discriminate E; cbn [detail_bytes app] in E;
    drop_tag E; [done|..].
  - rewrite <- !(assoc_L (++)) in E. destruct Hx, Hy.
    apply be_bytes_prefix_free in E as [-> E]; [|done..].
    by apply be_bytes_prefix_free in E as [-> ->].
  - by apply Message_code in E as [-> ->].
Qed.

Lemma reference_code : prefix_free reference_wf reference_bytes.
Proof.
  intros x y r s Hx Hy E.
  destruct x as [[|i]|], y as [[|j]|]; try discriminate E; cbn [reference_bytes app] in E.
  - by injection E as ->.
  - injection E as E ->. by rewrite (ascii_of_N_inj i j).
  - by injection E as ->.
Qed.

Lemma event_code : prefix_free event_wf event_bytes.
Proof.
  intros x y r s [Hx1 Hx2 Hx3 Hx4] [Hy1 Hy2 Hy3 Hy4] E.
  unfold event_bytes in E. rewrite <- !(assoc_L (++)) in E.
  apply be_bytes_prefix_free in E as [E1 E]; [|done..].
  apply Origin_code in E as [E2 E]; [|done..].
  apply Category_code in E as [E3 E]; [|done..].
  apply Operation_code in E as [E4 E]; [|done..].
  apply Code_code in E as [E5 E]; [|done..].
  apply native_code in E as [E6 E]; [|done..].
  apply Phase_code in E as [E7 E]; [|done..].
  apply detail_code in E as [E8 E]; [|done..].
  injection E as E9%bool_byte_inj E10%bool_byte_inj E.
  apply reference_code in E as [E11 ->]; [|done..].
  destruct x, y; simpl in *; subst. done.
Qed.

Lemma durable_code : prefix_free (λ o, ∀ v, o = Some v → v < 2 ^ 64) durable_bytes.
Proof.
  intros x y r s Hx Hy E. destruct x, y; try discriminate E; cbn [durable_bytes app] in E;
    drop_tag E; [|done]. apply be_bytes_prefix_free in E as [-> ->]; eauto.
Qed.

Lemma original_code : prefix_free original_wf original_bytes.
Proof.
  intros x y r s Hx Hy E. destruct x, y; try discriminate E;
    unfold original_bytes, hash_event in E; cbn [app] in E; drop_tag E.
  - by apply event_code in E as [-> ->].
  - by apply Reason_code in E as [-> ->].
Qed.

Lemma loss_code : prefix_free (λ l, secondary_events_omitted l < 2 ^ 32) loss_bytes.
Proof.
  intros x y r s Hx Hy E. unfold loss_bytes in E. rewrite <- !(assoc_L (++)) in E.
  apply be_bytes_prefix_free in E as [E1 E]; [|done..].
  injection E as E2%bool_byte_inj E3%bool_byte_inj E4%bool_byte_inj ->.
  destruct x, y; simpl in *; subst. done.
Qed.

Lemma sha_code : prefix_free sha_wf sha_bytes.
Proof.
  apply (fixed_prefix_free _ _ 32); [done|]. intros [x] [y] _ _ E. simpl in E. by rewrite E.
Qed.

Lemma canonical_preimage_inj p q :
  projection_wf p → projection_wf q → canonical_preimage p = canonical_preimage q →
  p = set_digest (projection_sha256 p) q.
Proof.
  intros [] [] E. unfold canonical_preimage in E. apply app_inv_head in E.
  apply (f_equal (λ l, l ++ [])) in E. rewrite <- !(assoc_L (++)) in E.
  apply be_bytes_prefix_free in E as [E1 E]; [|done..].
  apply text_prefix_free in E as [E2 E]; [|lia..].
  apply text_prefix_free in E as [E3 E]; [|lia..].
  apply sha_code in E as [E4 E]; [|done..].
  apply sha_code in E as [E5 E]; [|done..].
  apply sha_code in E as [E6 E]; [|done..].
  apply be_bytes_prefix_free in E as [E7 E]; [|done..].
  apply durable_code in E as [E8 E]; [|done..].
  apply original_code in E as [E9 E]; [|done..].
  apply (seq_prefix_free _ _ event_code) in E as [E10 E].
  2, 3: unfold as_slice, bounded, MAX_DIAGNOSTIC_SECONDARY_EVENTS in *; split; [lia|done].
  apply loss_code in E as [E11 _]; [|done..].
  destruct p as [? [[] [] ?]], q as [? [[] [] ?]]; simpl in *; unfold as_slice in *; subst. done.
Qed.

(** Reading a stored journal; [journal_from_slice] is serde_json's. *)
Definition diagnostics_parse (journal_from_slice : list u8 → option WindowsCausalDiagnosticsV1)
    (encoded : list u8) : result string WindowsCausalDiagnosticsV1 :=
  if MAX_DIAGNOSTIC_JOURNAL_BYTES <? N.of_nat (length encoded)
  then Err "diagnostic journal byte bound exceeded"%string
  else
    value ← ok_or "malformed diagnostic journal"%string (journal_from_slice encoded);
    if negb (diagnostics_is_consistent value)
    then Err "inconsistent diagnostic journal"%string
    else mret value.

(** ** Publishing and reading a projection

    SHA-256 and the JSON codec are the caller's: [sha256_hash] is the digest of
    the absorbed bytes, [to_vec] and [from_slice] are serde_json's. *)
Section Projection.
  Variable sha256_hash : list u8 → list u8.
  Variable to_vec : ProviderFailureDiagnosticV1 → option (list u8).
  Variable from_slice : list u8 → option ProviderFailureDiagnosticV1.

Definition canonical_digest (p : ProviderFailureDiagnosticV1) : DiagnosticSha256 :=
  sha256 (sha256_hash (canonical_preimage p)).

Definition from_journal (binding : PublicProviderBindingV1) (attempt request : string)
    (journal : WindowsCausalDiagnosticsV1) : result string ProviderFailureDiagnosticV1 :=
  attempt_id ← (BoundedText_new 64 attempt ≫= sha256_try_from);
  request_sha256 ← (BoundedText_new 64 request ≫= sha256_try_from);
  let projection :=
    {| pf_schema_version := CAUSAL_DIAGNOSTIC_SCHEMA; provider_binding := binding;
       attempt_id := attempt_id; request_sha256 := request_sha256;
       diagnostic_sequence := sequence journal;
       pf_durable_through_sequence := durable_through_sequence journal;
       pf_original := original journal; pf_secondary := secondary journal;
       pf_loss := loss journal; projection_sha256 := sha256 (replicate 32 NUL) |} in
  if negb (projection_is_consistent projection)
  then Err "invalid diagnostic projection binding or journal"%string
  else
    let projection := set_digest (canonical_digest projection) projection in
    encoded ← ok_or "diagnostic serialization failed"%string (to_vec projection);
    if MAX_DIAGNOSTIC_PROJECTION_BYTES <? N.of_nat (length encoded)
    then Err "diagnostic projection byte bound exceeded"%string
    else mret projection.

Definition parse_bound (encoded : list u8) (provider : PublicProviderBindingV1)
    (attempt request : DiagnosticSha256) : result string ProviderFailureDiagnosticV1 :=
  if MAX_DIAGNOSTIC_PROJECTION_BYTES <? N.of_nat (length encoded)
  then Err "diagnostic projection byte bound exceeded"%string
  else
    value ← ok_or "malformed diagnostic projection"%string (from_slice encoded);
    if negb (projection_is_consistent value)
       || (provider_binding value ≠? provider)
       || (attempt_id value ≠? attempt)
       || (request_sha256 value ≠? request)
       || (projection_sha256 value ≠? canonical_digest value)
    then Err "unbound or invalid diagnostic projection"%string
    else mret value.

(** The digest of a projection binds every other field of it: two
    projections with the same digest are equal up to the digest field itself,
    or two different byte strings with the same SHA-256 are exhibited. *)
Theorem projection_digest_binds p q :
  projection_wf p → projection_wf q → canonical_digest p = canonical_digest q →
  p = set_digest (projection_sha256 p) q ∨
  (canonical_preimage p ≠ canonical_preimage q ∧
   sha256_hash (canonical_preimage p) = sha256_hash (canonical_preimage q)).
Proof.
  intros Hp Hq E. injection E as E.
  destruct (decide (canonical_preimage p = canonical_preimage q)) as [Heq|]; [left|right; done].
  by apply canonical_preimage_inj.
Qed.

Lemma set_digest_preimage d p : canonical_preimage (set_digest d p) = canonical_preimage p.
Proof. done. Qed.

Lemma from_journal_Ok binding attempt request journal p :
  from_journal binding attempt request journal = Ok p →
  projection_is_consistent p = true ∧ provider_binding p = binding ∧
  matches_journal p attempt request journal = true ∧
  projection_sha256 p = canonical_digest p ∧
  ∃ encoded, to_vec p = Some encoded ∧ N.of_nat (length encoded) <= MAX_DIAGNOSTIC_PROJECTION_BYTES.
Proof.
  unfold from_journal. intros H.
  apply bind_Ok in H as (a & Ha & H). apply bind_Ok in H as (r & Hr & H).
  case_match eqn:Hcons; [done|]. bool_hyps.
  apply bind_Ok in H as (encoded & Henc & H). apply ok_or_Ok in Henc.
  case_match eqn:Hlen; [done|]. bool_hyps. injection H as <-.
  apply sha256_text_parse in Ha as [_ Ha], Hr as [_ Hr].
  split_and!; [done|done| |done|by eauto].
  unfold matches_journal. simpl. rewrite Ha, Hr, N.eqb_refl.
  by rewrite !bool_decide_eq_true_2.
Qed.

(** A projection built from a journal carries that journal and the caller's
    identities, and whoever reads its encoding back with the same provider,
    attempt and request accepts it and gets it unchanged; with any other
    provider, attempt or request it is rejected. *)
Theorem projection_published_and_read binding attempt request journal p :
  from_journal binding attempt request journal = Ok p →
  (∀ encoded, to_vec p = Some encoded → from_slice encoded = Some p) →
  matches_journal p attempt request journal = true ∧
  ∃ encoded, to_vec p = Some encoded ∧
    ∀ provider attempt' request',
      parse_bound encoded provider attempt' request' =
        if decide (provider = binding ∧ attempt' = attempt_id p ∧ request' = request_sha256 p)
        then Ok p else Err "unbound or invalid diagnostic projection"%string.
Proof.
  intros (Hc & Hb & Hm & Hd & encoded & Henc & Hlen)%from_journal_Ok Hjson.
  split; [done|]. exists encoded. split; [done|]. intros provider attempt' request'.
  unfold parse_bound. rewrite (Hjson _ Henc). replace (_ <? _) with false by lia. simpl.
  rewrite Hc, Hb, <- Hd, (bool_decide_eq_true_2 (projection_sha256 p = projection_sha256 p)) by done.
  simpl. destruct (decide _) as [(-> & -> & ->)|Hne]; [by rewrite !bool_decide_eq_true_2|].
  repeat case_bool_decide; simpl; try done. by destruct Hne.
Qed.
End Projection.

(** A provider whose hash is the identity and whose codec knows one projection. *)
Definition sample_binding : PublicProviderBindingV1 :=
  {| generation := BoundedText_of "gen-1"; source_commit := BoundedText_of
       "0123456789abcdef0123456789abcdef01234567";
     runtime_manifest_sha256 := sha256 (replicate 32 NUL) |}.
Definition sample_digest_text : string :=
  "000102030405060708090a0b0c0d0e0f101112131415161718191a1b1c1d1e1f".
Definition sample_journal : WindowsCausalDiagnosticsV1 :=
  (record_all [(sample_event, false); (sample_event, true)] diagnostics_default).1.
Definition sample_projection : result string ProviderFailureDiagnosticV1 :=
  from_journal id (λ _, Some []) sample_binding sample_digest_text sample_digest_text sample_journal.

Lemma projection_published_and_read_witness :
  ∃ p, sample_projection = Ok p ∧
    parse_bound id (λ _, Some p) [] sample_binding (attempt_id p) (request_sha256 p) = Ok p.
Proof.
  destruct sample_projection as [p|] eqn:E; [|vm_compute in E; discriminate].
  exists p. split; [done|].
  destruct (projection_published_and_read id (λ _, Some []) (λ _, Some p)
    sample_binding sample_digest_text sample_digest_text sample_journal p E)
    as (_ & encoded & Henc & H); [done|].
  injection Henc as <-. rewrite H, decide_True by (split_and!; done). done.
Defined.

Definition sample_bare (digest : DiagnosticSha256) : ProviderFailureDiagnosticV1 :=
  {| pf_schema_version := CAUSAL_DIAGNOSTIC_SCHEMA; provider_binding := sample_binding;
     attempt_id := sha256 (replicate 32 NUL); request_sha256 := sha256 (replicate 32 NUL);
     diagnostic_sequence := 1; pf_durable_through_sequence := None;
     pf_original := Observed (with_sequence 1 sample_event); pf_secondary := [];
     pf_loss := DiagnosticLossV1_default; projection_sha256 := digest |}.

Lemma sample_bare_wf digest : projection_wf (sample_bare digest).
Proof.
  split; try done; [|unfold bounded; simpl; lia].
  split; try done. intros c [= <-]. done.
Qed.

Lemma projection_digest_binds_witness :
  sample_bare (sha256 []) = set_digest (sha256 []) (sample_bare (sha256 [NUL])).
Proof.
  destruct (projection_digest_binds id (sample_bare (sha256 [])) (sample_bare (sha256 [NUL])))
    as [H|[H _]]; [apply sample_bare_wf..|done|exact H|].
  destruct H. done.
Defined.
