(* ===== verification/RecordLimits.v ===== *)
(** * Limits checked before allocation

    memcordon-core/src/diagnostics.rs: the structural budget a stored record's
    JSON must fit before it is deserialized ([validate_record_json_structure]),
    and the frame limit a response's leading discriminator selects before its
    payload is read ([response_kind_frame_limit]). *)

From S2P Require Import Prelude Decimal Bounded Diagnostics.
From Stdlib Require Import Ascii.

(** ** Record documents

    What serde_json's [deserialize_any] presents to the visitor. *)
#[warnings="-register-all"]
Inductive json : Type :=
| JNull | JBool (b : bool) | JNumber
| JString (s : string)
| JArray (elements : list json)
| JObject (members : list (string * json)).

(** The two counters the visitors share. *)
Record budgets : Type := { remaining : N; text_remaining : N }.

Definition structural_error : string := "record JSON structural budget exceeded".
Definition text_error : string := "record metadata text budget exceeded".

(** Spending a node, in [DeserializeSeed::deserialize]. *)
Definition spend_node (depth : N) : stM budgets string () := λ b,
  if (remaining b =? 0) || (32 <? depth) then (b, Err structural_error)
  else ({| remaining := remaining b - 1; text_remaining := text_remaining b |}, Ok ()).

Definition visit_str (outbox : bool) (s : string) : stM budgets string () := λ b,
  if outbox then (b, Ok ())
  else if text_remaining b <? str_len s then (b, Err text_error)
  else ({| remaining := remaining b; text_remaining := text_remaining b - str_len s |}, Ok ()).

(** [Budget::deserialize] with the visitor methods it dispatches to. *)
Fixpoint budget_visit (depth : N) (outbox : bool) (j : json) : stM budgets string () :=
  spend_node depth ≫= λ _,
  match j with
  | JNull | JBool _ | JNumber => mret ()
  | JString s => visit_str outbox s
  | JArray elements =>
      (fix visit_seq (l : list json) : stM budgets string () :=
         match l with
         | [] => mret ()
         | x :: l => budget_visit (depth + 1) false x ≫= λ _, visit_seq l
         end) elements
  | JObject members =>
      (fix visit_map (l : list (string * json)) : stM budgets string () :=
         match l with
         | [] => mret ()
         | (key, x) :: l =>
             st_lift (BoundedText_new 64 key) ≫= λ key,
             budget_visit (depth + 1)
               ((depth =? 0) && (text key ≟ "terminal_response_json"%string)) x ≫= λ _,
             visit_map l
         end) members
  end.

(** The decoded document and whether anything but white space follows it are
    serde_json's. *)
Definition validate_record_json_structure
    (document : option json) (end_ : result string ()) : result string () :=
  match document with
  | None => Err "malformed JSON"%string
  | Some j =>
      (budget_visit 0 false j
         {| remaining := MAX_RECORD_JSON_NODES;
            text_remaining := MAX_RECORD_METADATA_TEXT_BYTES |}).2 ≫= λ _, end_
  end.

(** ** What the budget measures *)

Definition nsum {A} (f : A → N) (l : list A) : N := foldr (λ x n, f x + n) 0 l.
Definition nmax {A} (f : A → N) (l : list A) : N := foldr (λ x n, N.max (f x) n) 0 l.

Fixpoint node_count (j : json) : N :=
  match j with
  | JArray l => 1 + nsum node_count l
  | JObject l => 1 + nsum (λ m, node_count m.2) l
  | _ => 1
  end.
Fixpoint height (j : json) : N :=
  match j with
  | JArray l => nmax (λ x, 1 + height x) l
  | JObject l => nmax (λ m, 1 + height m.2) l
  | _ => 0
  end.
(** Text below the root, where no member is exempt. *)
Fixpoint text_size (j : json) : N :=
  match j with
  | JString s => str_len s
  | JArray l => nsum text_size l
  | JObject l => nsum (λ m, text_size m.2) l
  | _ => 0
  end.
Definition outbox_text_size (outbox : bool) (j : json) : N :=
  match j with JString s => if outbox then 0 else str_len s | _ => text_size j end.
(** The text of a record: a string under [terminal_response_json] of the root
    object is exempt. *)
Definition record_text_size (j : json) : N :=
  match j with
  | JObject l => nsum (λ m, outbox_text_size (m.1 ≟ "terminal_response_json"%string) m.2) l
  | _ => text_size j
  end.
Definition key_ok (key : string) : bool := is_ok (BoundedText_new 64 key).
Fixpoint keys_ok (j : json) : bool :=
  match j with
  | JArray l => forallb keys_ok l
  | JObject l => forallb (λ m, key_ok m.1 && keys_ok m.2) l
  | _ => true
  end.

Section json_ind'.
  Variable P : json → Prop.
  Hypothesis Hnull : P JNull.
  Hypothesis Hbool : ∀ b, P (JBool b).
  Hypothesis Hnumber : P JNumber.
  Hypothesis Hstring : ∀ s, P (JString s).
  Hypothesis Harray : ∀ l, Forall P l → P (JArray l).
  Hypothesis Hobject : ∀ l, Forall (λ m, P m.2) l → P (JObject l).

Fixpoint json_ind' (j : json) : P j :=
  match j with
  | JNull => Hnull | JBool b => Hbool b | JNumber => Hnumber | JString s => Hstring s
  | JArray l => Harray l
      ((fix go (l : list json) : Forall P l :=
          match l with [] => Forall_nil_2 _ | x :: l => Forall_cons_2 _ _ _ (json_ind' x) (go l) end) l)
  | JObject l => Hobject l
      ((fix go (l : list (string * json)) : Forall (λ m, P m.2) l :=
          match l with
          | [] => Forall_nil_2 _
          | m :: l => Forall_cons_2 _ _ _ (json_ind' m.2) (go l)
          end) l)
  end.
End json_ind'.

(** ** The budget decides the measures *)

(** [m] succeeds exactly when [ok] holds and both counters suffice, and then
    spends exactly [nodes] and [txt]. *)
Definition spends (m : stM budgets string ()) (nodes txt : N) (ok : bool) : Prop :=
  ∀ b, if ok && (nodes <=? remaining b) && (txt <=? text_remaining b)
       then m b = ({| remaining := remaining b - nodes; text_remaining := text_remaining b - txt |}, Ok ())
       else is_ok (m b).2 = false.

Lemma spends_ret : spends (mret ()) 0 0 true.
Proof. intros [r t]. simpl. rewrite !N.sub_0_r. by destruct r, t. Qed.

Lemma spends_bind m1 m2 n1 n2 t1 t2 ok1 ok2 :
  spends m1 n1 t1 ok1 → spends m2 n2 t2 ok2 →
  spends (m1 ≫= λ _, m2) (n1 + n2) (t1 + t2) (ok1 && ok2).
Proof.
  intros H1 H2 b. specialize (H1 b). unfold mbind, stM_bind.
  destruct (ok1 && (n1 <=? remaining b) && (t1 <=? text_remaining b)) eqn:E1.
  - rewrite H1. bool_hyps. subst ok1.
    specialize (H2 {| remaining := remaining b - n1; text_remaining := text_remaining b - t1 |}).
    simpl in *. destruct ok2; simpl in *; [|done].
    replace (n1 + n2 <=? remaining b) with (n2 <=? remaining b - n1) by lia.
    replace (t1 + t2 <=? text_remaining b) with (t2 <=? text_remaining b - t1) by lia.
    case_match; [|done]. rewrite H2. do 2 f_equal; lia.
  - replace (_ && _ && _) with false.
    { by destruct (m1 b) as [b' [[]|e]]; simpl in *. }
    symmetry. apply not_true_iff_false. intros E. bool_hyps. subst.
    apply not_true_iff_false in E1. destruct E1. bool_goal; [done|lia..].
Qed.

Lemma spends_eq m n t ok n' t' ok' :
  spends m n t ok → n = n' → t = t' → ok = ok' → spends m n' t' ok'.
Proof. by intros H -> -> ->. Qed.

Lemma leb_0 n : (0 <=? n) = true.
Proof. lia. Qed.

Lemma spends_node depth : spends (spend_node depth) 1 0 (depth <=? 32).
Proof.
  intros [r t]. unfold spend_node. cbn [remaining text_remaining]. rewrite leb_0, andb_true_r.
  destruct (N.leb_spec depth 32), (N.leb_spec 1 r);
    destruct (N.eqb_spec r 0), (N.ltb_spec 32 depth); simpl; try lia; try done.
  by rewrite N.sub_0_r.
Qed.

Lemma spends_str outbox s :
  spends (visit_str outbox s) 0 (if outbox then 0 else str_len s) true.
Proof.
  intros [r t]. unfold visit_str. cbn [remaining text_remaining].
  destruct outbox; rewrite !leb_0, ?N.sub_0_r; [done|].
  simpl. destruct (N.leb_spec (str_len s) t), (N.ltb_spec t (str_len s)); simpl; try lia; done.
Qed.

Lemma spends_key key (m : BoundedText 64 → stM budgets string ()) n t ok :
  (∀ k, text k = key → spends (m k) n t ok) →
  spends (st_lift (BoundedText_new 64 key) ≫= m) n t (key_ok key && ok).
Proof.
  intros H b. unfold mbind, stM_bind, st_lift, key_ok, BoundedText_new.
  destruct (_ || _); [done|]. by apply H.
Qed.

(** The height bound distributes over the children. *)
Lemma within_depth {A} (h : A → N) (k : A → bool) depth l :
  (depth <=? 32) && forallb (λ x, (depth + 1 + h x <=? 32) && k x) l =
  (depth + nmax (λ x, 1 + h x) l <=? 32) && forallb k l.
Proof.
  induction l as [|x l IH]; [by rewrite N.add_0_r|].
  simpl. rewrite andb_assoc, (andb_comm (depth <=? 32)), <- andb_assoc, IH.
  destruct (k x); rewrite ?andb_false_r, ?andb_true_r; simpl; [|done].
  destruct (forallb k l); rewrite ?andb_false_r, ?andb_true_r; [|done]. lia.
Qed.

Definition text_at (depth : N) (outbox : bool) (j : json) : N :=
  match j with
  | JObject l =>
      nsum (λ m, outbox_text_size ((depth =? 0) && (m.1 ≟ "terminal_response_json"%string)) m.2) l
  | _ => outbox_text_size outbox j
  end.

Lemma nsum_ext {A} (f g : A → N) l : (∀ x, f x = g x) → nsum f l = nsum g l.
Proof. intros H. induction l as [|x l IH]; simpl; [done|]. by rewrite H, IH. Qed.

Lemma outbox_text_size_false j : outbox_text_size false j = text_size j.
Proof. by destruct j. Qed.

Lemma text_at_below depth outbox j : 0 < depth → text_at depth outbox j = outbox_text_size outbox j.
Proof.
  intros Hd. destruct j; simpl; try done. apply nsum_ext. intros [key x].
  replace (depth =? 0) with false by lia. apply outbox_text_size_false.
Qed.

Lemma budget_visit_spends j : ∀ depth outbox,
  spends (budget_visit depth outbox j) (node_count j) (text_at depth outbox j)
    ((depth + height j <=? 32) && keys_ok j).
Proof.
  induction j as [|b| |s|l IH|l IH] using json_ind'; intros depth outbox; cbn [budget_visit].
  1-3: eapply spends_eq; [apply spends_bind; [apply spends_node|apply spends_ret]|done|done|];
    simpl; by rewrite N.add_0_r.
  - eapply spends_eq; [apply spends_bind; [apply spends_node|apply spends_str]|done|done|].
    simpl. by rewrite N.add_0_r.
  - eapply spends_eq; [apply spends_bind; [apply spends_node|]|..].
    { instantiate (1 := forallb (λ x, (depth + 1 + height x <=? 32) && keys_ok x) l).
      instantiate (1 := nsum text_size l). instantiate (1 := nsum node_count l).
      induction IH as [|x l Hx _ IHl]; [apply spends_ret|].
      eapply spends_eq; [apply spends_bind; [apply Hx|apply IHl]|done| |done].
      rewrite text_at_below, outbox_text_size_false by lia. done. }
    + done.
    + done.
    + apply within_depth.
  - eapply spends_eq; [apply spends_bind; [apply spends_node|]|..].
    { instantiate (1 := forallb (λ m, (depth + 1 + height m.2 <=? 32) && (key_ok m.1 && keys_ok m.2)) l).
      instantiate (1 := text_at depth outbox (JObject l)).
      instantiate (1 := nsum (λ m, node_count m.2) l).
      induction IH as [|[key x] l Hx _ IHl]; [apply spends_ret|].
      eapply spends_eq; [apply spends_key; intros k ->; apply spends_bind; [apply Hx|apply IHl]|done|..].
      { by rewrite text_at_below by lia. }
      cbn [forallb fst snd]. destruct (key_ok key); simpl; by rewrite ?andb_false_r. }
    + done.
    + done.
    + apply (within_depth (λ m, height m.2)).
Qed.

(** A stored record's JSON is accepted exactly when it has at most 16384
    nodes, nests at most 32 deep, holds at most 256 KiB of text outside the
    response outbox, and every key is a NUL-free text of at most 64 bytes; the
    traversal spends no more than that whatever the document. *)
Theorem record_json_structure_decides j :
  validate_record_json_structure (Some j) (Ok ()) = Ok () ↔
  node_count j <= 16384 ∧ height j <= 32 ∧ record_text_size j <= 262144 ∧ keys_ok j = true.
Proof.
  unfold validate_record_json_structure.
  pose proof (budget_visit_spends j 0 false {| remaining := MAX_RECORD_JSON_NODES;
    text_remaining := MAX_RECORD_METADATA_TEXT_BYTES |}) as H.
  assert (text_at 0 false j = record_text_size j) as Et.
  { destruct j; done. }
  rewrite Et in H. cbn [remaining text_remaining] in H.
  change MAX_RECORD_JSON_NODES with 16384 in *. change MAX_RECORD_METADATA_TEXT_BYTES with 262144 in *.
  rewrite N.add_0_l in H.
  destruct (_ && _ && _) eqn:E.
  - rewrite H. bool_hyps. split; [auto|done].
  - destruct (budget_visit _ _ _ _) as [b [[]|e]]; [discriminate|]. simpl.
    split; [done|]. intros (H1 & H2 & H3 & H4). apply not_true_iff_false in E. destruct E.
    bool_goal; done.
Qed.

(** ** Response frames *)

Definition QUOTE : u8 := ascii_of_N 34.
(** An open brace, the quoted key [kind], a colon and a quote. *)
Definition kind_prefix : list u8 :=
  ["{"%char; QUOTE] ++ bytes "kind" ++ [QUOTE; ":"%char; QUOTE].

Fixpoint strip_prefix (prefix l : list u8) : option (list u8) :=
  match prefix, l with
  | [], _ => Some l
  | p :: prefix, b :: l => if p ≟ b then strip_prefix prefix l else None
  | _ :: _, [] => None
  end.
(** [&remainder[..end]] at the first quote. *)
Fixpoint until_quote (l : list u8) : option (list u8) :=
  match l with
  | [] => None
  | b :: l => if b ≟ QUOTE then Some [] else (λ kind, b :: kind) <$> until_quote l
  end.

Definition kind_in (kinds : list string) (kind : list u8) : bool :=
  existsb (λ k, bool_decide (bytes k = kind :> list ascii)) kinds.

Definition response_kind_frame_limit (remainder : list u8) (public : bool) : result string N :=
  kind ← ok_or "response discriminator exceeds prefix bound"%string (until_quote remainder);
  if negb (forallb (λ b, is_ascii_lowercase b || is_ascii_digit b || (b ≟ "-"%char)) kind)
  then Err "response discriminator is not canonical"%string
  else Ok (
    if kind_in ["attempt-retained"; "attempt-retained-v2"; "replay-pending"; "replay-pending-v2"] kind
    then MAX_DIAGNOSTIC_CONTROL_FRAME_BYTES
    else if kind_in ["qualification-rejected"] kind && public then MAX_DIAGNOSTIC_CONTROL_FRAME_BYTES
    else if kind_in ["read-only-query-failure"] kind then WindowsReadOnlyQueryFailure_MAX_FRAME_BYTES
    else if kind_in ["guardian-attempt-observation"] kind && negb public
    then WindowsGuardianAttemptObservation_MAX_FRAME_BYTES
    else if kind_in ["workload-plan"; "workload-discovery"] kind && public then PUBLIC_OBJECT_BYTES
    else if kind_in ["terminal"; "reject"] kind then WINDOWS_MAX_TERMINAL_FRAME_BYTES
    else WINDOWS_MAX_FRAME_BYTES).

Definition windows_response_frame_limit (prefix : list u8) : result string N :=
  remainder ← ok_or "response kind discriminator must be first"%string
                (strip_prefix kind_prefix prefix);
  response_kind_frame_limit remainder true.

Definition windows_launcher_response_frame_limit (prefix : list u8) : result string N :=
  remainder ← ok_or "launcher response kind discriminator must be first"%string
                (strip_prefix kind_prefix prefix);
  response_kind_frame_limit remainder false.

Lemma strip_prefix_app prefix l rest r :
  strip_prefix prefix l = Some r → strip_prefix prefix (l ++ rest) = Some (r ++ rest).
Proof.
  revert l. induction prefix as [|p prefix IH]; intros l; simpl; [by intros [= ->]|].
  destruct l as [|b l]; simpl; [done|]. case_bool_decide; [apply IH|done].
Qed.

Lemma until_quote_app l rest kind :
  until_quote l = Some kind → until_quote (l ++ rest) = Some kind.
Proof.
  revert kind. induction l as [|b l IH]; intros kind; simpl; [done|].
  case_bool_decide; [done|]. destruct (until_quote l); simpl; [|done].
  by rewrite (IH _ eq_refl).
Qed.

Lemma response_kind_frame_limit_app remainder public limit rest :
  response_kind_frame_limit remainder public = Ok limit →
  response_kind_frame_limit (remainder ++ rest) public = Ok limit ∧
  16 * 1024 <= limit <= WINDOWS_MAX_FRAME_BYTES.
Proof.
  unfold response_kind_frame_limit. intros H. apply bind_Ok in H as (kind & Hk & H).
  apply ok_or_Ok in Hk. rewrite (until_quote_app _ _ _ Hk). simpl.
  case_match; [done|]. split; [done|]. injection H as <-.
  repeat case_match; vm_compute; done.
Qed.

(** The limit a frame's first bytes select is the limit of the whole frame: no
    payload that follows can change it, and it never exceeds 16 MiB. *)
Theorem response_frame_limit_stable prefix limit rest :
  (windows_response_frame_limit prefix = Ok limit →
   windows_response_frame_limit (prefix ++ rest) = Ok limit ∧ limit <= WINDOWS_MAX_FRAME_BYTES) ∧
  (windows_launcher_response_frame_limit prefix = Ok limit →
   windows_launcher_response_frame_limit (prefix ++ rest) = Ok limit ∧ limit <= WINDOWS_MAX_FRAME_BYTES).
Proof.
  unfold windows_response_frame_limit, windows_launcher_response_frame_limit.
  split; intros H; apply bind_Ok in H as (r & Hr & H); apply ok_or_Ok in Hr;
    rewrite (strip_prefix_app _ _ rest _ Hr); simpl;
    apply (response_kind_frame_limit_app _ _ _ rest) in H as [-> []]; done.
Qed.

Example launcher_observation_limit :
  windows_launcher_response_frame_limit
    (kind_prefix ++ bytes "guardian-attempt-observation" ++ [QUOTE]) = Ok 16384.
Proof. vm_compute. reflexivity. Qed.
