(* ===== verification/WorkloadCodec.v ===== *)
(** * Canonical bytes of a workload contract

    memcordon-core/src/workload_codec.rs: the byte string a contract's digest
    is taken of, written by [encode_contract] and [encode_contract_v2] and read
    back by the strict decoders.  Requirements, endpoints and TCP operations
    are sets: the encoder sorts them, so a contract is determined by its bytes
    up to [canonical]. *)

From S2P Require Import Prelude Decimal Bounded Codec WorkloadContract.
From Stdlib Require Import Ascii.
From stdpp Require Import relations.
#[local] Open Scope N_scope.

Definition CONTRACT_BYTES : N := 64 * 1024.

(** ** The encoder *)

Record Encoder : Type := { enc_bytes : list u8; enc_limit : N }.

Definition raw (bs : list u8) : stM Encoder string () := λ self,
  if enc_limit self - N.of_nat (length (enc_bytes self)) <? N.of_nat (length bs)
  then (self, Err "canonical workload value exceeds limit"%string)
  else ({| enc_bytes := enc_bytes self ++ bs; enc_limit := enc_limit self |}, Ok ()).
Definition put_byte (value : N) : stM Encoder string () := raw [byte value].
Definition put_u16 (value : N) : stM Encoder string () := raw (be_bytes 2 value).
Definition put_u64 (value : N) : stM Encoder string () := raw (be_bytes 8 value).
Definition put_count (value : N) : stM Encoder string () :=
  match try_from 16 value with
  | Some value => put_u16 value
  | None => st_lift (Err "canonical count exceeds u16"%string)
  end.
Definition put_id (value : LogicalId) : stM Encoder string () :=
  put_count (str_len (id_str value)) ≫= λ _, raw (bytes (id_str value)).
Definition put_digest (value : DiagnosticSha256) : stM Encoder string () := raw (sha_bytes value).

Definition Encoder_new (domain : list u8) (limit : N) : result string Encoder :=
  match (raw domain ≫= λ _, put_byte 0 ≫= λ _, put_u16 1) {| enc_bytes := []; enc_limit := limit |} with
  | (encoder, Ok _) => Ok encoder
  | (_, Err e) => Err e
  end.

(** [let mut encoder = Encoder::new(..)?; ..; Ok(encoder.finish())] *)
Definition encode_limited (limit : N) (domain : list u8) (body : stM Encoder string ())
    : result string (list u8) :=
  encoder ← Encoder_new domain limit;
  match body encoder with
  | (encoder, Ok _) => Ok (enc_bytes encoder)
  | (_, Err e) => Err e
  end.
Definition encode_with : list u8 → stM Encoder string () → result string (list u8) :=
  encode_limited CONTRACT_BYTES.

(** ** Tags *)

Definition direct_tag (c : DirectSocketCeiling) : N :=
  match c with
  | PinnedLegacySocketFilterAccepted => 1 | NoNewInetSockets => 2
  | AttemptPrivateIpv4StackAllPorts => 3 | ExternalHostPolicyAccepted => 4
  end.
Definition unix_authority_tag (c : UnixAuthorityCeiling) : N :=
  match c with NoNamedEndpointsSocketPairsOnly => 1 | ExistingHostUnixAuthorityAccepted => 2 end.
Definition external_tag (c : ExternalSocketCeiling) : N :=
  match c with NoSocketAtTargetEntry => 1 | ExistingStdioAuthorityAccepted => 2 end.
Definition credential_tag (c : CredentialGainCeiling) : N :=
  match c with NoGain => 1 | ExistingCallerEnvelopeAccepted => 2 end.
Definition mediated_tag (c : MediatedCommunicationCeiling) : N :=
  match c with
  | ExternalFilesystemAndStdioPolicyAccepted => 1 | RequireNoExternalCommunication => 2
  end.
Definition scope_tag (s : TcpScope) : N :=
  match s with AttemptPrivateStack => 1 | HostSharedLoopback => 2 end.
Definition unix_kind_tag (k : UnixSocketKind) : N :=
  match k with Stream => 1 | Datagram => 2 | SeqPacket => 3 end.
Definition family_tag (f : IpFamily) : N := match f with IpFamily_V4 => 1 | IpFamily_V6 => 2 end.
Definition denied_tag (d : DeniedOperation) : N :=
  match d with
  | InetSocketCreation => 1 | NamedUnixSocketCreation => 2 | ExternalSocketImport => 3
  end.
Definition requirement_tag (r : RequirementV1) : N :=
  match r with
  | UnixSocketCreation _ _ => 1 | UnixSocketPair _ _ => 2 | Tcp _ _ _ _ _ _ => 3
  | SuppliedTcpListener _ _ _ => 4 | DenialExercise _ _ => 5
  end.

(** ** [sort_by_key]: a stable sort *)

Section sort.
  Context {A : Type} (le : A → A → bool).

Fixpoint insert_sorted (x : A) (l : list A) : list A :=
  match l with
  | [] => [x]
  | y :: l' => if le x y then x :: l else y :: insert_sorted x l'
  end.
Definition sort_by (l : list A) : list A := foldr insert_sorted [] l.
End sort.

(** [Ord] of [LogicalId]: the bytes of the text. *)
Definition id_le (a b : LogicalId) : bool := String.leb (id_str a) (id_str b).
Definition requirement_le (a b : RequirementV1) : bool := id_le (requirement_id a) (requirement_id b).
Definition endpoint_le (a b : EndpointDeclarationV1) : bool := id_le (endpoint_id a) (endpoint_id b).
Definition operation_le (a b : TcpOperation) : bool := TcpOperation_tag a <=? TcpOperation_tag b.

(** ** Encoding *)

Definition encode_ceiling (c : NetworkCeilingV1) : stM Encoder string () :=
  put_byte (direct_tag (direct_socket_authority c)) ≫= λ _,
  put_byte (unix_authority_tag (unix_authority c)) ≫= λ _,
  put_byte (external_tag (external_socket_custody c)) ≫= λ _,
  put_byte (credential_tag (credential_gains c)) ≫= λ _,
  put_byte (mediated_tag (mediated_communication c)).

Definition put_ports (p : LocalPortRequirement) : stM Encoder string () :=
  match p with
  | KernelAssigned => put_byte 1
  | Exact port => put_byte 2 ≫= λ _, put_u16 port
  | InclusiveRange first last => put_byte 3 ≫= λ _, put_u16 first ≫= λ _, put_u16 last
  end.

Definition put_peer (p : TcpPeerRequirement) : stM Encoder string () :=
  match p with
  | SameAttemptEndpoint endpoint => put_byte 1 ≫= λ _, put_id endpoint
  | ExactAddress endpoint =>
      put_byte 2 ≫= λ _,
      match endpoint with
      | TcpEndpoint_V4 address port =>
          put_byte 1 ≫= λ _, raw address ≫= λ _, put_u16 port
      | TcpEndpoint_V6 address port =>
          put_byte 2 ≫= λ _, raw address ≫= λ _, put_u16 port
      end
  end.

Definition put_requirement (value : RequirementV1) : stM Encoder string () :=
  put_byte (requirement_tag value) ≫= λ _,
  put_id (requirement_id value) ≫= λ _,
  match value with
  | UnixSocketCreation _ socket_kind | UnixSocketPair _ socket_kind =>
      put_byte (unix_kind_tag socket_kind)
  | Tcp _ family operations tcp_scope local_ports peer =>
      put_byte (family_tag family) ≫= λ _,
      let operations := sort_by operation_le (as_slice (operations_slice operations)) in
      put_count (N.of_nat (length operations)) ≫= λ _,
      st_for (λ operation, put_byte (TcpOperation_tag operation)) operations ≫= λ _,
      put_byte (scope_tag tcp_scope) ≫= λ _,
      put_ports local_ports ≫= λ _,
      put_peer peer
  | SuppliedTcpListener _ endpoint tcp_scope =>
      put_id endpoint ≫= λ _, put_byte (scope_tag tcp_scope)
  | DenialExercise _ operation => put_byte (denied_tag operation)
  end.

Definition put_endpoint (e : EndpointDeclarationV1) : stM Encoder string () :=
  put_id (endpoint_id e) ≫= λ _, put_id (endpoint_requirement e).

(** The logical fields, in the order both versions write them. *)
Definition put_fields (request : WorkloadContractV1) : stM Encoder string () :=
  put_digest (workload_plan_digest request) ≫= λ _,
  put_id (profile_id (authorized_profile request)) ≫= λ _,
  put_digest (profile_semantic_digest (authorized_profile request)) ≫= λ _,
  put_id (grant_id (authorization request)) ≫= λ _,
  put_u64 (grant_revision (authorization request)) ≫= λ _,
  put_digest (approved_plan_digest (authorization request)) ≫= λ _,
  encode_ceiling (ceiling request) ≫= λ _,
  let requirements := sort_by requirement_le (as_slice (requirements request)) in
  put_count (N.of_nat (length requirements)) ≫= λ _,
  st_for put_requirement requirements ≫= λ _,
  let endpoints := sort_by endpoint_le (as_slice (endpoints request)) in
  put_count (N.of_nat (length endpoints)) ≫= λ _,
  st_for put_endpoint endpoints ≫= λ _,
  raw (nonce_bytes (service_instance (expected_epoch request))) ≫= λ _,
  put_u64 (revision (expected_epoch request)).

Definition domain_v1 : list u8 := bytes "memcordon-workload-contract-v1".
Definition domain_v2 : list u8 := bytes "memcordon-workload-contract-v2".

Definition encode_contract (request : WorkloadContractV1) : result string (list u8) :=
  validate request ≫= λ _, encode_with domain_v1 (put_fields request).

Definition put_identity (i : ExecutionIdentityRequestV2) : stM Encoder string () :=
  match i with
  | PreserveCaller => put_byte 1
  | AdministratorProfile reference =>
      put_byte 2 ≫= λ _, put_id (identity_id reference) ≫= λ _,
      put_digest (identity_semantic_digest reference)
  end.

Definition encode_contract_v2 (request : WorkloadContractV2) : result string (list u8) :=
  validate_v2 request ≫= λ _,
  encode_with domain_v2
    (put_fields (v1_view request) ≫= λ _, put_identity (v2_execution_identity request)).

(** SHA-256 is a parameter. *)
Definition hash_bytes (sha256_hash : list u8 → list u8) (bs : list u8) : DiagnosticSha256 :=
  sha256 (sha256_hash bs).
Definition contract_digest (sha256_hash : list u8 → list u8) (request : WorkloadContractV1)
    : result string DiagnosticSha256 := hash_bytes sha256_hash <$> encode_contract request.
Definition contract_digest_v2 (sha256_hash : list u8 → list u8) (request : WorkloadContractV2)
    : result string DiagnosticSha256 := hash_bytes sha256_hash <$> encode_contract_v2 request.

(** ** The decoder: its state is the bytes that remain *)

Definition Decoder (A : Type) : Type := stM (list u8) string A.

Definition reject {A} (e : string) : Decoder A := st_lift (Err e).

Definition dec_take (count : nat) : Decoder (list u8) := λ remaining,
  if (count <=? length remaining)%nat
  then (drop count remaining, Ok (take count remaining))
  else (remaining, Err "truncated canonical workload"%string).

Definition get_byte : Decoder N := dec_take 1 ≫= λ bs, mret (from_be_bytes bs).
Definition get_u16 : Decoder N := dec_take 2 ≫= λ bs, mret (from_be_bytes bs).
Definition get_u64 : Decoder N := dec_take 8 ≫= λ bs, mret (from_be_bytes bs).

(** [std::str::from_utf8]: well-formed UTF-8, no overlong forms, no surrogates,
    nothing beyond U+10FFFF. *)
Definition in_bytes (lo hi : N) (b : u8) : bool := (lo <=? N_of_ascii b) && (N_of_ascii b <=? hi).
Fixpoint utf8_valid (l : list u8) : bool :=
  match l with
  | [] => true
  | b :: l1 =>
      if in_bytes 0 127 b then utf8_valid l1
      else match l1 with
      | [] => false
      | b2 :: l2 =>
          if in_bytes 194 223 b then in_bytes 128 191 b2 && utf8_valid l2
          else match l2 with
          | [] => false
          | b3 :: l3 =>
              if in_bytes 224 224 b then in_bytes 160 191 b2 && in_bytes 128 191 b3 && utf8_valid l3
              else if in_bytes 237 237 b
              then in_bytes 128 159 b2 && in_bytes 128 191 b3 && utf8_valid l3
              else if in_bytes 225 239 b
              then in_bytes 128 191 b2 && in_bytes 128 191 b3 && utf8_valid l3
              else match l3 with
              | [] => false
              | b4 :: l4 =>
                  if in_bytes 240 240 b
                  then in_bytes 144 191 b2 && in_bytes 128 191 b3 && in_bytes 128 191 b4 && utf8_valid l4
                  else if in_bytes 241 243 b
                  then in_bytes 128 191 b2 && in_bytes 128 191 b3 && in_bytes 128 191 b4 && utf8_valid l4
                  else if in_bytes 244 244 b
                  then in_bytes 128 143 b2 && in_bytes 128 191 b3 && in_bytes 128 191 b4 && utf8_valid l4
                  else false
              end
          end
      end
  end.
Definition from_utf8 (bs : list u8) : option string :=
  if utf8_valid bs then Some (String.string_of_list_ascii bs) else None.

Definition get_id : Decoder LogicalId :=
  get_u16 ≫= λ count,
  dec_take (N.to_nat count) ≫= λ bs,
  st_lift (text ← ok_or "canonical id is not UTF-8"%string (from_utf8 bs); LogicalId_new text).
Definition get_digest : Decoder DiagnosticSha256 := dec_take 32 ≫= λ bs, mret (sha256 bs).
Definition nonzero (e : string) (n : N) : Decoder N := if n =? 0 then reject e else mret n.
Definition get_port : Decoder N := get_u16 ≫= nonzero "canonical port is zero".
Definition get_revision : Decoder N := get_u64 ≫= nonzero "canonical revision is zero".

Definition get_unix_kind : Decoder UnixSocketKind :=
  get_byte ≫= λ tag,
  match tag with
  | 1 => mret Stream | 2 => mret Datagram | 3 => mret SeqPacket
  | _ => reject "unknown canonical UNIX kind"
  end.
Definition get_scope : Decoder TcpScope :=
  get_byte ≫= λ tag,
  match tag with
  | 1 => mret AttemptPrivateStack | 2 => mret HostSharedLoopback
  | _ => reject "unknown canonical TCP scope"
  end.
Definition get_direct : Decoder DirectSocketCeiling :=
  get_byte ≫= λ tag,
  match tag with
  | 1 => mret PinnedLegacySocketFilterAccepted | 2 => mret NoNewInetSockets
  | 3 => mret AttemptPrivateIpv4StackAllPorts | 4 => mret ExternalHostPolicyAccepted
  | _ => reject "unknown direct socket ceiling"
  end.
Definition get_unix_authority : Decoder UnixAuthorityCeiling :=
  get_byte ≫= λ tag,
  match tag with
  | 1 => mret NoNamedEndpointsSocketPairsOnly | 2 => mret ExistingHostUnixAuthorityAccepted
  | _ => reject "unknown UNIX ceiling"
  end.
Definition get_external : Decoder ExternalSocketCeiling :=
  get_byte ≫= λ tag,
  match tag with
  | 1 => mret NoSocketAtTargetEntry | 2 => mret ExistingStdioAuthorityAccepted
  | _ => reject "unknown socket custody ceiling"
  end.
Definition get_credential : Decoder CredentialGainCeiling :=
  get_byte ≫= λ tag,
  match tag with
  | 1 => mret NoGain | 2 => mret ExistingCallerEnvelopeAccepted
  | _ => reject "unknown credential ceiling"
  end.
Definition get_mediated : Decoder MediatedCommunicationCeiling :=
  get_byte ≫= λ tag,
  match tag with
  | 1 => mret ExternalFilesystemAndStdioPolicyAccepted | 2 => mret RequireNoExternalCommunication
  | _ => reject "unknown mediated communication ceiling"
  end.
Definition get_ceiling : Decoder NetworkCeilingV1 :=
  get_direct ≫= λ a, get_unix_authority ≫= λ b, get_external ≫= λ c,
  get_credential ≫= λ d, get_mediated ≫= λ e,
  mret {| direct_socket_authority := a; unix_authority := b; external_socket_custody := c;
          credential_gains := d; mediated_communication := e |}.

Definition get_operation : Decoder TcpOperation :=
  get_byte ≫= λ tag,
  match tag with
  | 1 => mret Create | 2 => mret Bind | 3 => mret Listen | 4 => mret Accept
  | 5 => mret Connect | 6 => mret StreamRead | 7 => mret StreamWrite
  | _ => reject "unknown canonical TCP operation"
  end.
Definition get_family : Decoder IpFamily :=
  get_byte ≫= λ tag,
  match tag with
  | 1 => mret IpFamily_V4 | 2 => mret IpFamily_V6
  | _ => reject "unknown canonical IP family"
  end.
Definition get_ports : Decoder LocalPortRequirement :=
  get_byte ≫= λ tag,
  match tag with
  | 1 => mret KernelAssigned
  | 2 => get_port ≫= λ port, mret (Exact port)
  | 3 => get_port ≫= λ first, get_port ≫= λ last, mret (InclusiveRange first last)
  | _ => reject "unknown canonical port selector"
  end.
Definition get_endpoint_address : Decoder TcpEndpoint :=
  get_byte ≫= λ tag,
  match tag with
  | 1 => dec_take 4 ≫= λ address, get_port ≫= λ port, mret (TcpEndpoint_V4 address port)
  | 2 => dec_take 16 ≫= λ address, get_port ≫= λ port, mret (TcpEndpoint_V6 address port)
  | _ => reject "unknown canonical peer address family"
  end.
Definition get_peer : Decoder TcpPeerRequirement :=
  get_byte ≫= λ tag,
  match tag with
  | 1 => get_id ≫= λ endpoint, mret (SameAttemptEndpoint endpoint)
  | 2 => get_endpoint_address ≫= λ endpoint, mret (ExactAddress endpoint)
  | _ => reject "unknown canonical peer selector"
  end.
Definition get_denied : Decoder DeniedOperation :=
  get_byte ≫= λ tag,
  match tag with
  | 1 => mret InetSocketCreation | 2 => mret NamedUnixSocketCreation | 3 => mret ExternalSocketImport
  | _ => reject "unknown canonical denial operation"
  end.

(** The count is checked against the bound before the loop, so the vector's own
    bound is never reached by [try_push]. *)
Definition get_operations : Decoder TcpOperations :=
  get_u16 ≫= λ count,
  if 7 <? count then reject "canonical TCP operation count exceeds bound"
  else
    st_repeat (N.to_nat count) get_operation ≫= λ operations,
    st_lift (TcpOperations_new operations).

Definition get_requirement : Decoder RequirementV1 :=
  get_byte ≫= λ tag,
  get_id ≫= λ id,
  match tag with
  | 1 => get_unix_kind ≫= λ socket_kind, mret (UnixSocketCreation id socket_kind)
  | 2 => get_unix_kind ≫= λ socket_kind, mret (UnixSocketPair id socket_kind)
  | 3 =>
      get_family ≫= λ family,
      get_operations ≫= λ operations,
      get_scope ≫= λ scope,
      get_ports ≫= λ local_ports,
      get_peer ≫= λ peer,
      mret (Tcp id family operations scope local_ports peer)
  | 4 => get_id ≫= λ endpoint, get_scope ≫= λ scope, mret (SuppliedTcpListener id endpoint scope)
  | 5 => get_denied ≫= λ operation, mret (DenialExercise id operation)
  | _ => reject "unknown canonical requirement"
  end.

Definition get_endpoint : Decoder EndpointDeclarationV1 :=
  get_id ≫= λ id, get_id ≫= λ requirement,
  mret {| endpoint_id := id; endpoint_requirement := requirement |}.

(** [let count = usize::from(decoder.u16()?); ..; for _ in 0..count { .. }] *)
Definition get_counted {A} (bound : nat) (e : string) (get : Decoder A) : Decoder (list A) :=
  get_u16 ≫= λ count,
  if (bound <? N.to_nat count)%nat then reject e else st_repeat (N.to_nat count) get.

Definition get_header (domain : list u8) : Decoder () :=
  dec_take (length domain) ≫= λ found,
  if negb (bool_decide (found = domain :> list u8))
  then reject "canonical workload domain or version differs"
  else
    get_u16 ≫= λ version,
    if negb (version =? 1) then reject "canonical workload domain or version differs" else mret ().

Definition get_fields : Decoder WorkloadContractV1 :=
  get_digest ≫= λ workload_plan_digest,
  get_id ≫= λ id, get_digest ≫= λ semantic_digest,
  get_id ≫= λ grant_id, get_revision ≫= λ grant_revision, get_digest ≫= λ approved_plan_digest,
  get_ceiling ≫= λ ceiling,
  get_counted REQUIREMENTS "canonical requirement count exceeds bound" get_requirement ≫= λ requirements,
  get_counted ENDPOINTS "canonical endpoint count exceeds bound" get_endpoint ≫= λ endpoints,
  dec_take 16 ≫= λ service_instance, get_revision ≫= λ revision,
  mret {| workload_plan_digest := workload_plan_digest;
          authorized_profile := {| profile_id := id; profile_semantic_digest := semantic_digest |};
          authorization := {| grant_id := grant_id; grant_revision := grant_revision;
                              approved_plan_digest := approved_plan_digest |};
          ceiling := ceiling; requirements := requirements; endpoints := endpoints;
          expected_epoch := {| service_instance := nonce128 service_instance; revision := revision |} |}.

Definition get_end : Decoder () := λ remaining,
  match remaining with
  | [] => ([], Ok ())
  | _ => (remaining, Err "unknown trailing canonical bytes"%string)
  end.

Definition decode_contract (bs : list u8) : result string WorkloadContractV1 :=
  if CONTRACT_BYTES <? N.of_nat (length bs) then Err "canonical workload exceeds byte limit"%string
  else
    request ← ((get_header (domain_v1 ++ [NUL]) ≫= λ _, get_fields ≫= λ request,
                get_end ≫= λ _, mret request) bs).2;
    validate request ≫= λ _,
    encoded ← encode_contract request;
    if negb (bool_decide (encoded = bs :> list u8)) then Err "noncanonical workload set order"%string
    else mret request.

Definition get_identity : Decoder ExecutionIdentityRequestV2 :=
  get_byte ≫= λ tag,
  match tag with
  | 1 => mret PreserveCaller
  | 2 => get_id ≫= λ id, get_digest ≫= λ semantic_digest,
         mret (AdministratorProfile {| identity_id := id; identity_semantic_digest := semantic_digest |})
  | _ => reject "unknown canonical execution identity tag"
  end.

Definition v2_of (c : WorkloadContractV1) (i : ExecutionIdentityRequestV2) : WorkloadContractV2 :=
  {| v2_workload_plan_digest := workload_plan_digest c;
     v2_authorized_profile := authorized_profile c; v2_authorization := authorization c;
     v2_ceiling := ceiling c; v2_requirements := requirements c; v2_endpoints := endpoints c;
     v2_expected_epoch := expected_epoch c; v2_execution_identity := i |}.

Definition decode_contract_v2 (bs : list u8) : result string WorkloadContractV2 :=
  if CONTRACT_BYTES <? N.of_nat (length bs) then Err "canonical workload exceeds byte limit"%string
  else
    request ← ((get_header (domain_v2 ++ [NUL]) ≫= λ _, get_fields ≫= λ fields,
                get_identity ≫= λ identity, get_end ≫= λ _, mret (v2_of fields identity)) bs).2;
    validate_v2 request ≫= λ _,
    encoded ← encode_contract_v2 request;
    if negb (bool_decide (encoded = bs :> list u8)) then Err "noncanonical workload set order"%string
    else mret request.

(** ** Writing and reading agree *)

(** [m] appends exactly [bs], and fails when they do not fit the limit. *)
Definition writes (m : stM Encoder string ()) (bs : list u8) : Prop :=
  ∀ e, if N.of_nat (length bs) <=? enc_limit e - N.of_nat (length (enc_bytes e))
       then m e = ({| enc_bytes := enc_bytes e ++ bs; enc_limit := enc_limit e |}, Ok ())
       else is_ok (m e).2 = false.

(** [g] reads [v] off the front of any input that starts with [bs]. *)
Definition reads {A} (g : Decoder A) (bs : list u8) (v : A) : Prop :=
  ∀ rest, g (bs ++ rest) = (rest, Ok v).

(** What [put] writes, at most [n] bytes, [get] reads back as [v]. *)
Definition coded {A} (n : N) (put : stM Encoder string ()) (get : Decoder A) (v : A) : Prop :=
  ∃ bs, writes put bs ∧ reads get bs v ∧ N.of_nat (length bs) <= n.

Lemma writes_raw bs : writes (raw bs) bs.
Proof.
  intros e. unfold raw.
  destruct (N.leb_spec (N.of_nat (length bs)) (enc_limit e - N.of_nat (length (enc_bytes e))));
    destruct (N.ltb_spec (enc_limit e - N.of_nat (length (enc_bytes e))) (N.of_nat (length bs)));
    simpl; (lia || done).
Qed.

Lemma writes_bind m1 m2 b1 b2 :
  writes m1 b1 → writes m2 b2 → writes (m1 ≫= λ _, m2) (b1 ++ b2).
Proof.
  intros H1 H2 e. specialize (H1 e). unfold mbind, stM_bind.
  set (room := enc_limit e - N.of_nat (length (enc_bytes e))) in *.
  rewrite length_app. destruct (N.leb_spec (N.of_nat (length b1)) room) as [Hle|Hgt].
  - rewrite H1.
    specialize (H2 {| enc_bytes := enc_bytes e ++ b1; enc_limit := enc_limit e |}).
    cbn [enc_bytes enc_limit] in H2. rewrite length_app in H2.
    replace (enc_limit e - N.of_nat (length (enc_bytes e) + length b1))
      with (room - N.of_nat (length b1)) in H2 by (unfold room; lia).
    destruct (N.leb_spec (N.of_nat (length b2)) (room - N.of_nat (length b1))).
    + replace (_ <=? room) with true by lia. by rewrite H2, (assoc_L (++)).
    + replace (_ <=? room) with false by lia. done.
  - replace (_ <=? room) with false by lia.
    by destruct (m1 e) as [e' [[]|]].
Qed.

Lemma reads_bind {A B} (g : Decoder A) (f : A → Decoder B) b1 b2 v w :
  reads g b1 v → reads (f v) b2 w → reads (g ≫= f) (b1 ++ b2) w.
Proof.
  intros H1 H2 rest. unfold mbind, stM_bind. rewrite <- (assoc_L (++)), H1. apply H2.
Qed.

Lemma coded_bind {A B} n1 n2 p1 p2 (g : Decoder A) (f : A → Decoder B) v w :
  coded n1 p1 g v → coded n2 p2 (f v) w → coded (n1 + n2) (p1 ≫= λ _, p2) (g ≫= f) w.
Proof.
  intros (b1 & Hw1 & Hr1 & Hl1) (b2 & Hw2 & Hr2 & Hl2). exists (b1 ++ b2). split_and!.
  - by apply writes_bind.
  - by eapply reads_bind.
  - rewrite length_app. lia.
Qed.

Lemma coded_map {A B} n p (g : Decoder A) (f : A → B) v :
  coded n p g v → coded n p (g ≫= λ x, mret (f x)) (f v).
Proof.
  intros (bs & Hw & Hr & Hl). exists bs. split_and!; [done| |done].
  intros rest. unfold mbind, stM_bind. by rewrite Hr.
Qed.

Lemma coded_lift {A B} n p (g : Decoder A) (f : A → result string B) v w :
  coded n p g v → f v = Ok w → coded n p (g ≫= λ x, st_lift (f x)) w.
Proof.
  intros (bs & Hw & Hr & Hl) Hf. exists bs. split_and!; [done| |done].
  intros rest. unfold mbind, stM_bind. rewrite Hr. unfold st_lift. by rewrite Hf.
Qed.

Lemma coded_weaken {A} n m p (g : Decoder A) v : coded n p g v → n <= m → coded m p g v.
Proof. intros (bs & ? & ? & ?) ?. exists bs. split_and!; auto. lia. Qed.

Lemma coded_assoc {A} n (p1 p2 p3 : stM Encoder string ()) (g : Decoder A) v :
  coded n ((p1 ≫= λ _, p2) ≫= λ _, p3) g v → coded n (p1 ≫= λ _, p2 ≫= λ _, p3) g v.
Proof.
  intros (bs & Hw & Hr & Hl). exists bs. split_and!; [|done..].
  intros e. specialize (Hw e). unfold mbind, stM_bind in *.
  by destruct (p1 e) as [? []].
Qed.

Lemma reads_take bs : reads (dec_take (length bs)) bs bs.
Proof.
  intros rest. unfold dec_take. rewrite length_app.
  replace (_ <=? _)%nat with true by (symmetry; apply Nat.leb_le; lia).
  by rewrite drop_app_length, take_app_length.
Qed.

Lemma coded_raw k bs : length bs = k → coded (N.of_nat k) (raw bs) (dec_take k) bs.
Proof. intros <-. exists bs. split_and!; [apply writes_raw|apply reads_take|done]. Qed.

Lemma coded_uint k n : n < 256 ^ N.of_nat k →
  coded (N.of_nat k) (raw (be_bytes k n)) (dec_take k ≫= λ bs, mret (from_be_bytes bs)) n.
Proof.
  intros Hn. pose proof (coded_map _ _ _ from_be_bytes _ (coded_raw k _ (length_be_bytes k n))) as H.
  by rewrite from_be_bytes_encode in H.
Qed.
Lemma coded_byte n : n < 256 → coded 1 (put_byte n) get_byte n.
Proof.
  intros Hn. unfold put_byte. replace [byte n] with (be_bytes 1 n).
  - by apply (coded_uint 1).
  - simpl. by rewrite N.mod_small.
Qed.
Lemma coded_u16 n : n < 2 ^ 16 → coded 2 (put_u16 n) get_u16 n.
Proof. apply (coded_uint 2). Qed.
Lemma coded_u64 n : n < 2 ^ 64 → coded 8 (put_u64 n) get_u64 n.
Proof. apply (coded_uint 8). Qed.
Lemma coded_count n : n < 2 ^ 16 → coded 2 (put_count n) get_u16 n.
Proof.
  intros Hn. unfold put_count, try_from, fits. replace (_ <? _) with true by lia. by apply coded_u16.
Qed.
Lemma coded_digest d : sha_wf d → coded 32 (put_digest d) get_digest d.
Proof.
  intros Hd. destruct d as [bs]. apply (coded_map 32 _ _ sha256). by apply (coded_raw 32).
Qed.

Lemma coded_nonzero n p e (g : Decoder N) v : v ≠ 0 → coded n p g v → coded n p (g ≫= nonzero e) v.
Proof.
  intros Hv (bs & Hw & Hr & Hl). exists bs. split_and!; [done| |done].
  intros rest. unfold mbind, stM_bind, nonzero. rewrite Hr. by replace (v =? 0) with false by lia.
Qed.
Lemma coded_port n : 0 < n < 2 ^ 16 → coded 2 (put_u16 n) get_port n.
Proof. intros Hn. apply coded_nonzero, coded_u16; lia. Qed.
Lemma coded_revision n : 0 < n < 2 ^ 64 → coded 8 (put_u64 n) get_revision n.
Proof. intros Hn. apply coded_nonzero, coded_u64; lia. Qed.

(** A tag byte: what [get] does with it is evaluated. *)
Lemma coded_tag {A} t (f : N → Decoder A) v :
  t < 256 → (∀ rest, f t rest = (rest, Ok v)) → coded 1 (put_byte t) (get_byte ≫= f) v.
Proof.
  intros Ht Hf. destruct (coded_byte t Ht) as (bs & Hw & Hr & Hl). exists bs.
  split_and!; [done| |done]. intros rest. unfold mbind, stM_bind. rewrite Hr. apply Hf.
Qed.

(** ** Identifiers *)

Definition id_wf (i : LogicalId) : Prop := LogicalId_new (id_str i) = Ok i.

Lemma id_wf_spec i : id_wf i →
  str_len (id_str i) <= 64 ∧
  Forall (λ b, (is_ascii_lowercase b || is_ascii_digit b || (b ≟ "-"%char)) = true) (bytes (id_str i)).
Proof.
  unfold id_wf, LogicalId_new, IDENTIFIER_BYTES. case_match eqn:E; [done|]. intros _. bool_hyps.
  split; [lia|]. by apply forallb_Forall.
Qed.

Lemma utf8_ascii l : Forall (λ b, N_of_ascii b < 128) l → utf8_valid l = true.
Proof.
  induction 1 as [|b l Hb Hl IH]; [done|]. cbn [utf8_valid].
  replace (in_bytes 0 127 b) with true; [done|]. unfold in_bytes. lia.
Qed.

Lemma id_char_ascii b :
  (is_ascii_lowercase b || is_ascii_digit b || (b ≟ "-"%char)) = true → N_of_ascii b < 128.
Proof. destruct b as [[] [] [] [] [] [] [] []]; vm_compute; done. Qed.

Lemma coded_id i : id_wf i → coded 66 (put_id i) get_id i.
Proof.
  intros Hi. destruct (id_wf_spec i Hi) as [Hlen Hchars].
  apply (coded_bind 2 64 _ _ _ _ (str_len (id_str i))); [apply coded_count; lia|].
  rewrite str_len_bytes, Nnat.Nat2N.id.
  eapply coded_lift.
  - apply (coded_weaken (N.of_nat (length (bytes (id_str i))))); [by apply coded_raw|].
    rewrite str_len_bytes in Hlen. lia.
  - unfold from_utf8. rewrite utf8_ascii.
    + simpl. unfold bytes. by rewrite String.string_of_list_ascii_of_string.
    + eapply Forall_impl; [exact Hchars|]. apply id_char_ascii.
Qed.

(** ** Lists *)

Lemma coded_list {A B} n (put : A → stM Encoder string ()) (get : Decoder B) (f : A → B) l :
  Forall (λ x, coded n (put x) get (f x)) l →
  coded (n * N.of_nat (length l)) (st_for put l) (st_repeat (length l) get) (f <$> l).
Proof.
  induction 1 as [|x l Hx _ IH].
  - exists []. split_and!; [|done|simpl; lia]. intros e. simpl. unfold mret, stM_ret.
    destruct e as [bs limit]. simpl. rewrite (right_id_L [] (++)).
    by destruct (limit - _).
  - simpl. apply (coded_weaken (n + n * N.of_nat (length l))); [|lia].
    apply (coded_bind _ _ _ _ _ _ (f x)); [done|]. by apply (coded_map _ _ _ (λ l, f x :: l)).
Qed.

Lemma coded_counted {A B} n bound e (put : A → stM Encoder string ()) (get : Decoder B) (f : A → B) l :
  (length l <= bound)%nat → N.of_nat bound < 2 ^ 16 → Forall (λ x, coded n (put x) get (f x)) l →
  coded (2 + n * N.of_nat (length l)) (put_count (N.of_nat (length l)) ≫= λ _, st_for put l)
    (get_counted bound e get) (f <$> l).
Proof.
  intros Hl Hb Hall. apply (coded_bind _ _ _ _ _ _ (N.of_nat (length l))); [apply coded_count; lia|].
  rewrite Nnat.Nat2N.id. replace (_ <? _)%nat with false by (symmetry; apply Nat.ltb_ge; lia).
  by apply coded_list.
Qed.

(** ** Sorting *)

Section sort_lemmas.
  Context {A : Type} (le : A → A → bool).
  Hypothesis le_total : ∀ x y, le x y = true ∨ le y x = true.

(** Adjacent elements are in order. *)
Fixpoint ordered (l : list A) : Prop :=
  match l with
  | x :: (y :: _) as rest => le x y = true ∧ ordered rest
  | _ => True
  end.

Lemma insert_sorted_ordered x l : ordered l → ordered (insert_sorted le x l).
Proof using le_total.
  induction l as [|y l IH]; [done|]. intros Hl. cbn [insert_sorted].
  destruct (le x y) eqn:E; [by split|].
  assert (le y x = true) as Hyx by (destruct (le_total x y); congruence).
  destruct l as [|z l]; [by split|]. destruct Hl as [Hyz Hl]. specialize (IH Hl).
  cbn [insert_sorted] in *. destruct (le x z); simpl in *; auto.
Qed.

Lemma sort_by_ordered l : ordered (sort_by le l).
Proof using le_total. induction l; simpl; [done|]. by apply insert_sorted_ordered. Qed.

Lemma sort_by_of_ordered l : ordered l → sort_by le l = l.
Proof using Type.
  induction l as [|x l IH]; [done|]. intros Hl.
  assert (ordered l) as Hl' by (destruct l; [done|apply Hl]).
  change (insert_sorted le x (sort_by le l) = x :: l). rewrite IH by done.
  destruct l as [|y l]; [done|].
  destruct Hl as [Hxy _]. simpl. by rewrite Hxy.
Qed.

Lemma sort_by_idemp l : sort_by le (sort_by le l) = sort_by le l.
Proof using le_total. apply sort_by_of_ordered, sort_by_ordered. Qed.

Lemma insert_sorted_perm x l : insert_sorted le x l ≡ₚ x :: l.
Proof using Type.
  induction l as [|y l IH]; simpl; [done|]. destruct (le x y); [done|].
  rewrite IH. apply Permutation_swap.
Qed.

Lemma sort_by_perm l : sort_by le l ≡ₚ l.
Proof using Type.
  induction l as [|x l IH]; simpl; [done|]. rewrite insert_sorted_perm. by constructor.
Qed.
End sort_lemmas.

Lemma sort_by_map {A B} (leA : A → A → bool) (leB : B → B → bool) (f : A → B) l :
  (∀ x y, leB (f x) (f y) = leA x y) → sort_by leB (f <$> l) = f <$> sort_by leA l.
Proof.
  intros H. induction l as [|x l IH]; [done|]. rewrite fmap_cons. unfold sort_by in *. cbn [foldr].
  rewrite IH. clear IH. generalize (foldr (insert_sorted leA) [] l). intros l'.
  induction l' as [|y l' IH]; [done|]. rewrite fmap_cons. cbn [insert_sorted].
  rewrite H. destruct (leA x y); [done|]. by rewrite fmap_cons, IH.
Qed.

Lemma id_le_total a b : id_le a b = true ∨ id_le b a = true.
Proof. apply String.leb_total. Qed.
Lemma operation_le_total a b : operation_le a b = true ∨ operation_le b a = true.
Proof. unfold operation_le. destruct (N.le_ge_cases (TcpOperation_tag a) (TcpOperation_tag b)); lia. Qed.

(** ** The canonical form of a contract *)

Definition canonical_operations (ops : TcpOperations) : TcpOperations :=
  tcp_operations (sort_by operation_le (as_slice (operations_slice ops))).
Definition canonical_requirement (r : RequirementV1) : RequirementV1 :=
  match r with
  | Tcp id family operations scope local_ports peer =>
      Tcp id family (canonical_operations operations) scope local_ports peer
  | _ => r
  end.
Definition canonical_requirements (l : list RequirementV1) : list RequirementV1 :=
  canonical_requirement <$> sort_by requirement_le l.
Definition canonical_endpoints (l : list EndpointDeclarationV1) : list EndpointDeclarationV1 :=
  sort_by endpoint_le l.
Definition canonical (c : WorkloadContractV1) : WorkloadContractV1 :=
  {| workload_plan_digest := workload_plan_digest c; authorized_profile := authorized_profile c;
     authorization := authorization c; ceiling := ceiling c;
     requirements := canonical_requirements (requirements c);
     endpoints := canonical_endpoints (endpoints c); expected_epoch := expected_epoch c |}.
Definition canonical_v2 (c : WorkloadContractV2) : WorkloadContractV2 :=
  v2_of (canonical (v1_view c)) (v2_execution_identity c).

Lemma canonical_requirement_id r : requirement_id (canonical_requirement r) = requirement_id r.
Proof. by destruct r. Qed.

Lemma canonical_requirement_idemp r :
  canonical_requirement (canonical_requirement r) = canonical_requirement r.
Proof.
  destruct r; simpl; try done. unfold canonical_operations, as_slice. simpl.
  by rewrite (sort_by_idemp _ operation_le_total).
Qed.

Lemma canonical_requirements_idemp l :
  canonical_requirements (canonical_requirements l) = canonical_requirements l.
Proof.
  unfold canonical_requirements.
  rewrite (sort_by_map requirement_le requirement_le canonical_requirement).
  2: { intros x y. unfold requirement_le. by rewrite !canonical_requirement_id. }
  rewrite (sort_by_idemp requirement_le) by (intros; apply id_le_total).
  rewrite <- list_fmap_compose. apply list_fmap_ext. intros _ r _. simpl.
  apply canonical_requirement_idemp.
Qed.

Lemma canonical_idemp c : canonical (canonical c) = canonical c.
Proof.
  unfold canonical. simpl. rewrite canonical_requirements_idemp. unfold canonical_endpoints.
  by rewrite (sort_by_idemp endpoint_le) by (intros; apply id_le_total).
Qed.

(** The encoder cannot tell a contract from its canonical form. *)
Lemma put_requirement_canonical r : put_requirement (canonical_requirement r) = put_requirement r.
Proof.
  destruct r; try done. unfold put_requirement, canonical_requirement, canonical_operations, as_slice.
  cbn [operations_slice requirement_id requirement_tag].
  by rewrite (sort_by_idemp _ operation_le_total).
Qed.

Lemma st_for_map {S E A B} (f : B → stM S E ()) (g : A → B) (h : A → stM S E ()) l :
  (∀ x, f (g x) = h x) → st_for f (g <$> l) = st_for h l.
Proof.
  intros H. induction l as [|x l IH]; [done|]. rewrite fmap_cons. cbn [st_for]. by rewrite H, IH.
Qed.

Lemma put_fields_canonical c : put_fields (canonical c) = put_fields c.
Proof.
  unfold put_fields, as_slice. cbn [canonical workload_plan_digest authorized_profile authorization
    ceiling requirements endpoints expected_epoch].
  unfold canonical_requirements, canonical_endpoints.
  rewrite (sort_by_map requirement_le requirement_le canonical_requirement).
  2: { intros x y. unfold requirement_le. by rewrite !canonical_requirement_id. }
  rewrite !(sort_by_idemp requirement_le) by (intros; apply id_le_total).
  rewrite !(sort_by_idemp endpoint_le) by (intros; apply id_le_total).
  rewrite length_fmap, (st_for_map _ _ put_requirement) by apply put_requirement_canonical.
  done.
Qed.

(** ** The canonical form is as valid as the contract *)

Lemma elem_of_canonical_requirements r l :
  r ∈ canonical_requirements l ↔ ∃ r0, r = canonical_requirement r0 ∧ r0 ∈ l.
Proof.
  unfold canonical_requirements. rewrite list_elem_of_fmap.
  by setoid_rewrite (sort_by_perm requirement_le l).
Qed.
Lemma elem_of_canonical_endpoints e l : e ∈ canonical_endpoints l ↔ e ∈ l.
Proof. unfold canonical_endpoints. by rewrite sort_by_perm. Qed.
Lemma elem_of_canonical_operations op ops :
  op ∈ as_slice (operations_slice (canonical_operations ops)) ↔ op ∈ as_slice (operations_slice ops).
Proof. unfold canonical_operations, as_slice. simpl. by rewrite sort_by_perm. Qed.

Lemma canonical_Tcp_inv r id f ops s lp p :
  canonical_requirement r = Tcp id f ops s lp p →
  ∃ ops0, r = Tcp id f ops0 s lp p ∧ ops = canonical_operations ops0.
Proof. destruct r; simpl; intros H; inversion H; eauto. Qed.

Lemma requirement_valid_canonical eps r :
  requirement_valid eps r → requirement_valid (canonical_endpoints eps) (canonical_requirement r).
Proof.
  intros (H1 & H2 & H3). split_and!.
  - intros * (ops0 & -> & ->)%canonical_Tcp_inv. by eapply H1.
  - intros * (ops0 & -> & ->)%canonical_Tcp_inv. by eapply H2.
  - intros reference Href. setoid_rewrite elem_of_canonical_endpoints. apply H3.
    by destruct r as [| |? ? ? ? ? []| |].
Qed.

Lemma endpoint_valid_canonical reqs e :
  endpoint_valid reqs e → endpoint_valid (canonical_requirements reqs) e.
Proof.
  intros (id & f & ops & s & lp & p & Hin & Hid & Hl & Hpeers).
  exists id, f, (canonical_operations ops), s, lp, p. split_and!; [|done|..].
  - apply elem_of_canonical_requirements. exists (Tcp id f ops s lp p). done.
  - by apply elem_of_canonical_operations.
  - intros id' f' ops' s' lp' (r0 & E & Hr0)%elem_of_canonical_requirements.
    symmetry in E. apply canonical_Tcp_inv in E as (ops0 & -> & _). by eapply Hpeers.
Qed.

Lemma depends_canonical reqs eps e e' :
  depends (canonical_requirements reqs) (canonical_endpoints eps) e e' → depends reqs eps e e'.
Proof.
  intros (He' & r & (r0 & -> & Hr0)%elem_of_canonical_requirements & Hid & Hpeer).
  split; [by apply elem_of_canonical_endpoints|]. exists r0. split; [done|].
  rewrite canonical_requirement_id in Hid. split; [done|]. by destruct r0.
Qed.

Lemma canonical_valid c : contract_valid c → contract_valid (canonical c).
Proof.
  intros [Hd Hrn Hrv Hen Hev Hac]. constructor; cbn [canonical workload_plan_digest authorization
    requirements endpoints]; [done|..].
  - unfold canonical_requirements. rewrite <- list_fmap_compose.
    rewrite (list_fmap_ext _ requirement_id) by (intros; apply canonical_requirement_id).
    by rewrite (sort_by_perm requirement_le (requirements c)).
  - apply Forall_forall. intros r (r0 & -> & Hr0)%elem_of_canonical_requirements.
    apply requirement_valid_canonical. by eapply (proj1 (Forall_forall _ _) Hrv).
  - unfold canonical_endpoints. by rewrite (sort_by_perm endpoint_le (endpoints c)).
  - apply Forall_forall. intros e He%(proj1 (elem_of_canonical_endpoints _ _)).
    apply endpoint_valid_canonical. by eapply (proj1 (Forall_forall _ _) Hev).
  - intros e He%(proj1 (elem_of_canonical_endpoints _ _)) Htc. apply (Hac e He).
    revert Htc. apply (tc_congruence id). intros x y. apply depends_canonical.
Qed.

(** ** Requirements and endpoints *)

(** What the Rust types guarantee of the values inside a contract: identifiers
    and operation sets made by their constructors, nonzero ports, fixed arrays. *)
Definition port_wf (p : N) : Prop := 0 < p < 2 ^ 16.
Definition ports_wf (p : LocalPortRequirement) : Prop :=
  match p with
  | KernelAssigned => True
  | Exact port => port_wf port
  | InclusiveRange first last => port_wf first ∧ port_wf last
  end.
Definition peer_wf (p : TcpPeerRequirement) : Prop :=
  match p with
  | SameAttemptEndpoint endpoint => id_wf endpoint
  | ExactAddress (TcpEndpoint_V4 address port) => length address = 4%nat ∧ port_wf port
  | ExactAddress (TcpEndpoint_V6 address port) => length address = 16%nat ∧ port_wf port
  end.
Definition operations_wf (ops : TcpOperations) : Prop :=
  bounded (operations_slice ops) ∧ TcpOperations_new (operations_slice ops) = Ok ops.
Definition requirement_wf (r : RequirementV1) : Prop :=
  id_wf (requirement_id r) ∧
  match r with
  | Tcp _ _ operations _ local_ports peer =>
      operations_wf operations ∧ ports_wf local_ports ∧ peer_wf peer
  | SuppliedTcpListener _ endpoint _ => id_wf endpoint
  | _ => True
  end.
Definition endpoint_wf (e : EndpointDeclarationV1) : Prop :=
  id_wf (endpoint_id e) ∧ id_wf (endpoint_requirement e).

Lemma bool_decide_perm {A} `{EqDecision A} (x : A) l l' :
  l ≡ₚ l' → bool_decide (x ∈ l) = bool_decide (x ∈ l').
Proof. intros H. apply bool_decide_ext. by rewrite H. Qed.

Lemma TcpOperations_new_perm (l l' : list TcpOperation) :
  l ≡ₚ l' → TcpOperations_new l = Ok (tcp_operations l) → TcpOperations_new l' = Ok (tcp_operations l').
Proof.
  intros Hp. unfold TcpOperations_new, as_slice.
  rewrite !(bool_decide_perm _ _ _ Hp).
  replace (bool_decide (l' = [])) with (bool_decide (l = [])).
  2: { apply bool_decide_ext. split; intros ->; [|symmetry in Hp];
       by apply Permutation.Permutation_nil in Hp. }
  replace (all_distinct l') with (all_distinct l).
  2: { apply Bool.eq_true_iff_eq. by rewrite !all_distinct_NoDup, Hp. }
  by case_match.
Qed.

Lemma operations_wf_canonical ops : operations_wf ops → operations_wf (canonical_operations ops).
Proof.
  destruct ops as [l]. unfold operations_wf, canonical_operations, as_slice, bounded. simpl.
  intros [Hb Hn]. split; [by rewrite sort_by_perm|].
  eapply TcpOperations_new_perm; [|done]. symmetry. apply sort_by_perm.
Qed.

(** A value of a closed enum behind its one-byte tag. *)
Ltac coded_enum v := destruct v; (apply coded_tag; [done|reflexivity]).

Lemma coded_scope v : coded 1 (put_byte (scope_tag v)) get_scope v.
Proof. coded_enum v. Qed.
Lemma coded_unix_kind v : coded 1 (put_byte (unix_kind_tag v)) get_unix_kind v.
Proof. coded_enum v. Qed.
Lemma coded_family v : coded 1 (put_byte (family_tag v)) get_family v.
Proof. coded_enum v. Qed.
Lemma coded_denied v : coded 1 (put_byte (denied_tag v)) get_denied v.
Proof. coded_enum v. Qed.
Lemma coded_operation v : coded 1 (put_byte (TcpOperation_tag v)) get_operation v.
Proof. coded_enum v. Qed.
Lemma coded_direct v : coded 1 (put_byte (direct_tag v)) get_direct v.
Proof. coded_enum v. Qed.
Lemma coded_unix_authority v : coded 1 (put_byte (unix_authority_tag v)) get_unix_authority v.
Proof. coded_enum v. Qed.
Lemma coded_external v : coded 1 (put_byte (external_tag v)) get_external v.
Proof. coded_enum v. Qed.
Lemma coded_credential v : coded 1 (put_byte (credential_tag v)) get_credential v.
Proof. coded_enum v. Qed.
Lemma coded_mediated v : coded 1 (put_byte (mediated_tag v)) get_mediated v.
Proof. coded_enum v. Qed.

Lemma coded_ports p : ports_wf p → coded 5 (put_ports p) get_ports p.
Proof.
  destruct p as [|port|first last]; simpl; intros Hp.
  - apply (coded_weaken 1); [|lia]. by apply coded_tag.
  - apply (coded_weaken (1 + 2)); [|lia]. eapply coded_bind; [by apply coded_byte|].
    by apply (coded_map _ _ _ Exact), coded_port.
  - destruct Hp. apply (coded_weaken (1 + (2 + 2))); [|lia].
    eapply coded_bind; [by apply coded_byte|]. eapply coded_bind; [by apply coded_port|].
    by apply (coded_map _ _ _ (InclusiveRange first)), coded_port.
Qed.

Lemma coded_peer p : peer_wf p → coded 67 (put_peer p) get_peer p.
Proof.
  destruct p as [endpoint|[address port|address port]]; simpl.
  - intros Hp. apply (coded_weaken (1 + 66)); [|lia]. eapply coded_bind; [by apply coded_byte|].
    by apply (coded_map _ _ _ SameAttemptEndpoint), coded_id.
  - intros [Ha Hp]. apply (coded_weaken (1 + (1 + (4 + 2)))); [|lia].
    eapply coded_bind; [by apply coded_byte|]. apply (coded_map _ _ _ ExactAddress).
    eapply coded_bind; [by apply coded_byte|]. eapply coded_bind; [by apply (coded_raw 4)|].
    by apply (coded_map _ _ _ (TcpEndpoint_V4 address)), coded_port.
  - intros [Ha Hp]. apply (coded_weaken (1 + (1 + (16 + 2)))); [|lia].
    eapply coded_bind; [by apply coded_byte|]. apply (coded_map _ _ _ ExactAddress).
    eapply coded_bind; [by apply coded_byte|]. eapply coded_bind; [by apply (coded_raw 16)|].
    by apply (coded_map _ _ _ (TcpEndpoint_V6 address)), coded_port.
Qed.

Lemma coded_operations ops : operations_wf ops →
  let l := sort_by operation_le (as_slice (operations_slice ops)) in
  coded 9 (put_count (N.of_nat (length l)) ≫= λ _, st_for (λ op, put_byte (TcpOperation_tag op)) l)
    get_operations (canonical_operations ops).
Proof.
  intros Hwf l. destruct (operations_wf_canonical ops Hwf) as [Hb Hn].
  change (operations_slice (canonical_operations ops)) with l in *. unfold bounded in Hb.
  apply (coded_weaken (2 + 1 * N.of_nat (length l))); [|lia].
  eapply coded_bind; [apply coded_count; lia|]. replace (7 <? _) with false by lia.
  rewrite Nnat.Nat2N.id. eapply coded_lift; [|exact Hn].
  pose proof (coded_list 1 (λ op, put_byte (TcpOperation_tag op)) get_operation id l) as H.
  rewrite list_fmap_id in H. apply H, Forall_forall. intros op _. apply coded_operation.
Qed.

Lemma coded_requirement r :
  requirement_wf r → coded 160 (put_requirement r) get_requirement (canonical_requirement r).
Proof.
  intros [Hid Hr]. unfold put_requirement, get_requirement.
  apply (coded_weaken (1 + (66 + 83))); [|lia].
  eapply coded_bind; [apply coded_byte; by destruct r|].
  eapply coded_bind; [by apply coded_id|].
  destruct r as [id k|id k|id f ops s lp p|id ep s|id op]; cbn [requirement_tag requirement_id
    canonical_requirement].
  - apply (coded_weaken 1); [|lia]. apply (coded_map _ _ _ (UnixSocketCreation id)), coded_unix_kind.
  - apply (coded_weaken 1); [|lia]. apply (coded_map _ _ _ (UnixSocketPair id)), coded_unix_kind.
  - destruct Hr as (Hops & Hlp & Hp). apply (coded_weaken (1 + (9 + (1 + (5 + 67))))); [|lia].
    eapply coded_bind; [apply coded_family|]. apply coded_assoc.
    eapply coded_bind; [by apply coded_operations|].
    eapply coded_bind; [apply coded_scope|]. eapply coded_bind; [by apply coded_ports|].
    by apply (coded_map _ _ _ (Tcp id f (canonical_operations ops) s lp)), coded_peer.
  - apply (coded_weaken (66 + 1)); [|lia]. eapply coded_bind; [by apply coded_id|].
    apply (coded_map _ _ _ (SuppliedTcpListener id ep)), coded_scope.
  - apply (coded_weaken 1); [|lia]. apply (coded_map _ _ _ (DenialExercise id)), coded_denied.
Qed.

Lemma coded_endpoint e : endpoint_wf e → coded 132 (put_endpoint e) get_endpoint e.
Proof.
  intros [H1 H2]. destruct e as [i r]. apply (coded_weaken (66 + 66)); [|lia].
  eapply coded_bind; [by apply coded_id|].
  by apply (coded_map _ _ _ (λ r, {| endpoint_id := i; endpoint_requirement := r |})), coded_id.
Qed.

Lemma coded_ceiling c : coded 5 (encode_ceiling c) get_ceiling c.
Proof.
  destruct c as [d u x g m]. apply (coded_weaken (1 + (1 + (1 + (1 + 1))))); [|lia].
  eapply coded_bind; [apply coded_direct|]. eapply coded_bind; [apply coded_unix_authority|].
  eapply coded_bind; [apply coded_external|]. eapply coded_bind; [apply coded_credential|].
  apply (coded_map _ _ _ (λ m, {| direct_socket_authority := d; unix_authority := u;
    external_socket_custody := x; credential_gains := g; mediated_communication := m |})), coded_mediated.
Qed.

(** ** Contracts *)

Record contract_wf (c : WorkloadContractV1) : Prop := {
  cw_plan : sha_wf (workload_plan_digest c);
  cw_profile : id_wf (profile_id (authorized_profile c)) ∧
               sha_wf (profile_semantic_digest (authorized_profile c));
  cw_grant : id_wf (grant_id (authorization c)) ∧
             0 < grant_revision (authorization c) < 2 ^ 64 ∧
             sha_wf (approved_plan_digest (authorization c));
  cw_requirements : bounded (requirements c) ∧ Forall requirement_wf (requirements c);
  cw_endpoints : bounded (endpoints c) ∧ Forall endpoint_wf (endpoints c);
  cw_epoch : length (nonce_bytes (service_instance (expected_epoch c))) = 16%nat ∧
             0 < revision (expected_epoch c) < 2 ^ 64
}.

Lemma coded_requirements l : (length l <= REQUIREMENTS)%nat → Forall requirement_wf l →
  let l' := sort_by requirement_le l in
  coded 10242 (put_count (N.of_nat (length l')) ≫= λ _, st_for put_requirement l')
    (get_counted REQUIREMENTS "canonical requirement count exceeds bound" get_requirement)
    (canonical_requirements l).
Proof.
  intros Hl Hwf l'. assert (l' ≡ₚ l) as Hp by apply sort_by_perm. unfold REQUIREMENTS in *.
  apply (coded_weaken (2 + 160 * N.of_nat (length l'))); [|rewrite (Permutation_length Hp); lia].
  apply (coded_counted _ _ _ _ _ _ l'); [by rewrite (Permutation_length Hp)|done|]. rewrite Hp. eapply Forall_impl; [exact Hwf|].
  apply coded_requirement.
Qed.

Lemma coded_endpoints l : (length l <= ENDPOINTS)%nat → Forall endpoint_wf l →
  let l' := sort_by endpoint_le l in
  coded 4226 (put_count (N.of_nat (length l')) ≫= λ _, st_for put_endpoint l')
    (get_counted ENDPOINTS "canonical endpoint count exceeds bound" get_endpoint)
    (canonical_endpoints l).
Proof.
  intros Hl Hwf l'. assert (l' ≡ₚ l) as Hp by apply sort_by_perm. unfold ENDPOINTS in *.
  apply (coded_weaken (2 + 132 * N.of_nat (length l'))); [|rewrite (Permutation_length Hp); lia].
  pose proof (coded_counted 132 ENDPOINTS "canonical endpoint count exceeds bound" put_endpoint
    get_endpoint id l') as H. rewrite list_fmap_id in H.
  apply H; [by rewrite (Permutation_length Hp)|done|]. rewrite Hp. eapply Forall_impl; [exact Hwf|].
  apply coded_endpoint.
Qed.

Lemma coded_fields c : contract_wf c → coded 16000 (put_fields c) get_fields (canonical c).
Proof.
  intros [Hplan [Hpi Hpd] (Hgi & Hgr & Hgd) [Hrb Hr] [Heb He] [Hn Hrev]].
  destruct c as [plan [pid pd] [gid gr gd] ceil reqs eps [[nonce] rev]]. simpl in *.
  unfold put_fields, as_slice. cbn [workload_plan_digest authorized_profile authorization ceiling
    requirements endpoints expected_epoch profile_id profile_semantic_digest grant_id grant_revision
    approved_plan_digest service_instance nonce_bytes revision].
  apply (coded_weaken (32 + (66 + (32 + (66 + (8 + (32 + (5 + (10242 + (4226 + (16 + 8))))))))))); [|lia].
  eapply coded_bind; [by apply coded_digest|]. eapply coded_bind; [by apply coded_id|].
  eapply coded_bind; [by apply coded_digest|]. eapply coded_bind; [by apply coded_id|].
  eapply coded_bind; [by apply coded_revision|]. eapply coded_bind; [by apply coded_digest|].
  eapply coded_bind; [apply coded_ceiling|]. apply coded_assoc.
  eapply coded_bind; [by apply coded_requirements|]. apply coded_assoc.
  eapply coded_bind; [by apply coded_endpoints|].
  eapply coded_bind; [by apply (coded_raw 16)|].
  apply (coded_map _ _ _ (λ rev, {| workload_plan_digest := plan;
    authorized_profile := {| profile_id := pid; profile_semantic_digest := pd |};
    authorization := {| grant_id := gid; grant_revision := gr; approved_plan_digest := gd |};
    ceiling := ceil; requirements := canonical_requirements reqs; endpoints := canonical_endpoints eps;
    expected_epoch := {| service_instance := nonce128 nonce; revision := rev |} |})).
  by apply coded_revision.
Qed.

Definition header (domain : list u8) : list u8 := domain ++ [NUL] ++ be_bytes 2 1.

Lemma encode_limited_spec limit domain body bs :
  writes body bs →
  if N.of_nat (length (header domain) + length bs) <=? limit
  then encode_limited limit domain body = Ok (header domain ++ bs)
  else is_ok (encode_limited limit domain body) = false.
Proof.
  intros Hbody. unfold encode_limited, Encoder_new.
  assert (writes ((raw domain ≫= λ _, put_byte 0 ≫= λ _, put_u16 1) ≫= λ _, body)
            (header domain ++ bs)) as Hh.
  { apply writes_bind; [|done]. apply writes_bind; [apply writes_raw|].
    apply writes_bind; apply writes_raw. }
  specialize (Hh {| enc_bytes := []; enc_limit := limit |}).
  cbn [enc_bytes enc_limit] in Hh. change (N.of_nat (length [])) with 0 in Hh.
  rewrite N.sub_0_r, length_app in Hh. revert Hh.
  set (opening := raw domain ≫= λ _, put_byte 0 ≫= λ _, put_u16 1).
  assert (∀ e, (opening ≫= λ _, body) e =
    match opening e with (e', Ok _) => body e' | (e', Err x) => (e', Err x) end) as -> by done.
  destruct (opening _) as [e' [[]|x]]; cbn.
  - destruct (_ <=? limit); [by intros ->|]. by destruct (body e') as [? []].
  - by destruct (_ <=? limit).
Qed.

Lemma encode_with_Ok domain body bs :
  writes body bs → N.of_nat (length (header domain) + length bs) <= CONTRACT_BYTES →
  encode_with domain body = Ok (header domain ++ bs).
Proof.
  intros Hbody Hlen. pose proof (encode_limited_spec CONTRACT_BYTES domain body bs Hbody) as H.
  by replace (_ <=? CONTRACT_BYTES) with true in H by lia.
Qed.

Lemma reads_header domain : reads (get_header (domain ++ [NUL])) (header domain) ().
Proof.
  unfold header. rewrite (assoc_L (++) domain). eapply reads_bind; [apply reads_take|].
  rewrite bool_decide_eq_true_2 by done. intros rest. done.
Qed.

Lemma header_length_v1 : length (header domain_v1) = 33%nat.
Proof. reflexivity. Qed.
Lemma header_length_v2 : length (header domain_v2) = 33%nat.
Proof. reflexivity. Qed.

(** One read of a decoder that consumes its whole input. *)
Lemma reads_then {A B} (g : Decoder A) (h : A → Decoder B) b1 b2 v r :
  reads g b1 v → h v b2 = r → (g ≫= h) (b1 ++ b2) = r.
Proof. intros H1 H2. unfold mbind, stM_bind. by rewrite H1. Qed.

Lemma encode_contract_canonical c :
  validate c = Ok () → encode_contract (canonical c) = encode_contract c.
Proof.
  intros Hv. unfold encode_contract. rewrite Hv.
  apply validate_Ok, canonical_valid, validate_Ok in Hv. rewrite Hv.
  by rewrite put_fields_canonical.
Qed.

Lemma contract_encodes c :
  contract_wf c → validate c = Ok () →
  ∃ bs, encode_contract c = Ok bs ∧ N.of_nat (length bs) <= CONTRACT_BYTES ∧
    decode_contract bs = Ok (canonical c).
Proof.
  intros Hwf Hv. destruct (coded_fields c Hwf) as (bs & Hw & Hr & Hl).
  assert (encode_contract c = Ok (header domain_v1 ++ bs)) as Henc.
  { unfold encode_contract. rewrite Hv. apply encode_with_Ok; [done|].
    rewrite header_length_v1. unfold CONTRACT_BYTES. lia. }
  assert (N.of_nat (length (header domain_v1 ++ bs)) <= CONTRACT_BYTES) as Hlen.
  { rewrite length_app, header_length_v1. unfold CONTRACT_BYTES. lia. }
  exists (header domain_v1 ++ bs). split_and!; [done|done|].
  unfold decode_contract. replace (CONTRACT_BYTES <? _) with false by lia.
  rewrite (reads_then _ _ _ _ () ([], Ok (canonical c)) (reads_header domain_v1)).
  2: { rewrite <- (right_id_L [] (++) bs) at 1. by eapply reads_then. }
  unfold mbind, result_bind. cbn [snd]. rewrite (encode_contract_canonical c Hv), Henc.
  rewrite (proj2 (validate_Ok _)) by (by apply canonical_valid, validate_Ok).
  by rewrite bool_decide_eq_true_2.
Qed.

Lemma canonical_v2_valid c : validate_v2 c = Ok () → validate_v2 (canonical_v2 c) = Ok ().
Proof.
  unfold validate_v2. rewrite !bind_unit_Ok. intros [Hv Hp]. split; [|exact Hp].
  change (v1_view (canonical_v2 c)) with (canonical (v1_view c)).
  apply validate_Ok, canonical_valid, validate_Ok. exact Hv.
Qed.

Lemma encode_contract_v2_canonical c :
  validate_v2 c = Ok () → encode_contract_v2 (canonical_v2 c) = encode_contract_v2 c.
Proof.
  intros Hv. unfold encode_contract_v2. rewrite Hv, canonical_v2_valid by done.
  change (v1_view (canonical_v2 c)) with (canonical (v1_view c)). by rewrite put_fields_canonical.
Qed.

Definition identity_wf (i : ExecutionIdentityRequestV2) : Prop :=
  match i with
  | PreserveCaller => True
  | AdministratorProfile r => id_wf (identity_id r) ∧ sha_wf (identity_semantic_digest r)
  end.

Lemma coded_identity i : identity_wf i → coded 99 (put_identity i) get_identity i.
Proof.
  destruct i as [|[id d]]; simpl.
  - intros _. apply (coded_weaken 1); [|lia]. by apply coded_tag.
  - intros [H1 H2]. apply (coded_weaken (1 + (66 + 32))); [|lia].
    eapply coded_bind; [by apply coded_byte|]. eapply coded_bind; [by apply coded_id|].
    by apply (coded_map _ _ _ (λ d, AdministratorProfile
      {| identity_id := id; identity_semantic_digest := d |})), coded_digest.
Qed.

Lemma contract_v2_encodes c :
  contract_wf (v1_view c) → identity_wf (v2_execution_identity c) → validate_v2 c = Ok () →
  ∃ bs, encode_contract_v2 c = Ok bs ∧ N.of_nat (length bs) <= CONTRACT_BYTES ∧
    decode_contract_v2 bs = Ok (canonical_v2 c).
Proof.
  intros Hwf Hi Hv. destruct (coded_fields _ Hwf) as (b1 & Hw1 & Hr1 & Hl1).
  destruct (coded_identity _ Hi) as (b2 & Hw2 & Hr2 & Hl2).
  assert (encode_contract_v2 c = Ok (header domain_v2 ++ b1 ++ b2)) as Henc.
  { unfold encode_contract_v2. rewrite Hv. apply encode_with_Ok; [by apply writes_bind|].
    rewrite header_length_v2, length_app. unfold CONTRACT_BYTES. lia. }
  assert (N.of_nat (length (header domain_v2 ++ b1 ++ b2)) <= CONTRACT_BYTES) as Hlen.
  { rewrite !length_app, header_length_v2. unfold CONTRACT_BYTES. lia. }
  exists (header domain_v2 ++ b1 ++ b2). split_and!; [done|done|].
  unfold decode_contract_v2. replace (CONTRACT_BYTES <? _) with false by lia.
  rewrite (reads_then _ _ _ _ () ([], Ok (canonical_v2 c)) (reads_header domain_v2)).
  2: { eapply reads_then; [exact Hr1|]. rewrite <- (right_id_L [] (++) b2) at 1.
       by eapply reads_then. }
  unfold mbind, result_bind. cbn [snd].
  rewrite (encode_contract_v2_canonical c Hv), Henc, (canonical_v2_valid c Hv).
  by rewrite bool_decide_eq_true_2.
Qed.

(** A decoder accepts only the bytes its result encodes to. *)
Lemma decode_contract_strict bs c : decode_contract bs = Ok c → encode_contract c = Ok bs.
Proof.
  unfold decode_contract. intros H. destruct (_ <? _); [done|].
  apply bind_Ok in H as (r & _ & H). apply bind_Ok in H as (u & _ & H).
  apply bind_Ok in H as (encoded & Henc & H). case_match eqn:E; [done|]. bool_hyps. run_ok. done.
Qed.
Lemma decode_contract_v2_strict bs c : decode_contract_v2 bs = Ok c → encode_contract_v2 c = Ok bs.
Proof.
  unfold decode_contract_v2. intros H. destruct (_ <? _); [done|].
  apply bind_Ok in H as (r & _ & H). apply bind_Ok in H as (u & _ & H).
  apply bind_Ok in H as (encoded & Henc & H). case_match eqn:E; [done|]. bool_hyps. run_ok. done.
Qed.

(** C28: every valid version-one contract has canonical bytes, within the 64 KiB
    limit, and the decoder reads from them the contract with its sets in
    canonical order; and bytes the decoder accepts are the only ones the
    contract it returns encodes to. *)
Theorem contract_codec_roundtrip :
  (∀ c, contract_wf c → validate c = Ok () →
     ∃ bs, encode_contract c = Ok bs ∧ N.of_nat (length bs) <= CONTRACT_BYTES ∧
       decode_contract bs = Ok (canonical c)) ∧
  (∀ bs c, decode_contract bs = Ok c → encode_contract c = Ok bs).
Proof. split; [apply contract_encodes|apply decode_contract_strict]. Qed.

(** The same for version-two contracts, whose bytes have their own domain
    and end with the requested execution identity. *)
Theorem contract_v2_codec_roundtrip :
  (∀ c, contract_wf (v1_view c) → identity_wf (v2_execution_identity c) → validate_v2 c = Ok () →
     ∃ bs, encode_contract_v2 c = Ok bs ∧ N.of_nat (length bs) <= CONTRACT_BYTES ∧
       decode_contract_v2 bs = Ok (canonical_v2 c)) ∧
  (∀ bs c, decode_contract_v2 bs = Ok c → encode_contract_v2 c = Ok bs).
Proof. split; [apply contract_v2_encodes|apply decode_contract_v2_strict]. Qed.

(** A contract's digest identifies it: valid contracts have equal digests
    when they are the same up to the order of their sets, and otherwise the two
    byte strings that collide under SHA-256 are exhibited. *)
Theorem contract_digest_identifies sha256_hash c1 c2 :
  contract_wf c1 → contract_wf c2 → validate c1 = Ok () → validate c2 = Ok () →
  (canonical c1 = canonical c2 → contract_digest sha256_hash c1 = contract_digest sha256_hash c2) ∧
  (contract_digest sha256_hash c1 = contract_digest sha256_hash c2 →
   canonical c1 = canonical c2 ∨
   ∃ b1 b2, encode_contract c1 = Ok b1 ∧ encode_contract c2 = Ok b2 ∧ b1 ≠ b2 ∧
     sha256_hash b1 = sha256_hash b2).
Proof.
  intros Hw1 Hw2 Hv1 Hv2. unfold contract_digest.
  destruct (contract_encodes c1 Hw1 Hv1) as (b1 & E1 & _ & D1).
  destruct (contract_encodes c2 Hw2 Hv2) as (b2 & E2 & _ & D2). split.
  - intros E. rewrite <- (encode_contract_canonical c1 Hv1), <- (encode_contract_canonical c2 Hv2).
    by rewrite E.
  - rewrite E1, E2. intros E. simpl in E. injection E as E.
    destruct (decide (b1 = b2 :> list u8)) as [->|Hne]; [left; congruence|right; eauto 10].
Qed.

Module CodecExamples.
Import ContractExamples.

(** Two orders of the same sets. *)
Definition forward : WorkloadContractV1 := contract two_reqs two_eps.
Definition backward : WorkloadContractV1 := contract (reverse two_reqs) (reverse two_eps).
Definition forward_v2 : WorkloadContractV2 :=
  v2_of forward (AdministratorProfile
    {| identity_id := logical_id "svc"; identity_semantic_digest := digest |}).

Lemma contract_wf_sample reqs eps :
  bounded (n := REQUIREMENTS) reqs → Forall requirement_wf reqs →
  bounded (n := ENDPOINTS) eps → Forall endpoint_wf eps → contract_wf (contract reqs eps).
Proof. intros. split; repeat (split || done). Qed.

Lemma forward_wf : contract_wf forward.
Proof.
  apply contract_wf_sample; unfold bounded; simpl; try (unfold REQUIREMENTS, ENDPOINTS; lia);
    repeat constructor; vm_compute; lia || done.
Qed.
Lemma backward_wf : contract_wf backward.
Proof.
  apply contract_wf_sample; unfold bounded; simpl; try (unfold REQUIREMENTS, ENDPOINTS; lia);
    repeat constructor; vm_compute; lia || done.
Qed.
End CodecExamples.

Lemma contract_codec_roundtrip_witness :
  ∃ bs, encode_contract CodecExamples.backward = Ok bs ∧
        decode_contract bs = Ok (canonical CodecExamples.backward) ∧
        canonical CodecExamples.backward ≠ CodecExamples.backward.
Proof.
  destruct (proj1 contract_codec_roundtrip CodecExamples.backward) as (bs & E & _ & D);
    [exact CodecExamples.backward_wf|vm_compute; reflexivity|].
  exists bs. split; [exact E|]. split; [exact D|]. vm_compute. discriminate.
Defined.

Lemma contract_v2_codec_roundtrip_witness :
  ∃ bs, encode_contract_v2 CodecExamples.forward_v2 = Ok bs ∧
        decode_contract_v2 bs = Ok (canonical_v2 CodecExamples.forward_v2).
Proof.
  destruct (proj1 contract_v2_codec_roundtrip CodecExamples.forward_v2) as (bs & E & _ & D);
    [exact CodecExamples.forward_wf|split; reflexivity|vm_compute; reflexivity|].
  exists bs. split; [exact E|exact D].
Defined.

Lemma contract_digest_identifies_witness :
  contract_digest id CodecExamples.forward = contract_digest id CodecExamples.backward.
Proof.
  apply (contract_digest_identifies id CodecExamples.forward CodecExamples.backward);
    [exact CodecExamples.forward_wf|exact CodecExamples.backward_wf|vm_compute; reflexivity..].
Defined.
