(* ===== verification/EncoderLaws.v ===== *)
(** * What the bytes of an encoder determine

    Digests of registries, admissions and attempts are taken of bytes written
    with the encoder of memcordon-core/src/workload_codec.rs and never read
    back.  [determines P put f]: on values of [P], what [put] writes fixes the
    observation [f], whatever is written after it, and depends on nothing else.  The combinators follow the
    shape of the encoding functions, so that a digest's theorem is a walk over
    its statements. *)

From S2P Require Import Prelude Decimal Bounded Codec WorkloadContract WorkloadCodec.
From Stdlib Require Import Ascii.
From stdpp Require Import sorting.
#[local] Open Scope N_scope.

Definition determines {A B} (P : A → Prop) (put : A → stM Encoder string ()) (f : A → B) : Prop :=
  ∃ enc : A → list u8,
    (∀ x, P x → writes (put x) (enc x)) ∧
    (∀ x y r s, P x → P y → enc x ++ r = enc y ++ s → f x = f y ∧ r = s) ∧
    (∀ x y, P x → P y → f x = f y → enc x = enc y).

Section laws.
  Context {A : Type} (P : A → Prop).
  Implicit Types put : A → stM Encoder string ().

Lemma determines_ext {B C} put (f : A → B) (g : A → C) :
  determines P put f → (∀ x y, P x → P y → f x = f y ↔ g x = g y) → determines P put g.
Proof.
  intros (enc & Hw & Hd & He) H. exists enc. split_and!; [done| |].
  - intros x y r s Hx Hy E. apply Hd in E as [E ->]; [|done..]. by rewrite <- H.
  - intros x y Hx Hy E. apply He; [done..|]. by apply H.
Qed.

Lemma determines_weaken {B} (Q : A → Prop) put (f : A → B) :
  determines Q put f → (∀ x, P x → Q x) → determines P put f.
Proof. intros (enc & Hw & Hd & He) H. exists enc. naive_solver. Qed.

(** Statements in sequence. *)
Lemma determines_bind {B C} p1 p2 (f : A → B) (g : A → C) :
  determines P p1 f → determines P p2 g →
  determines P (λ x, p1 x ≫= λ _, p2 x) (λ x, (f x, g x)).
Proof.
  intros (e1 & W1 & D1 & E1) (e2 & W2 & D2 & E2). exists (λ x, e1 x ++ e2 x). split_and!.
  - intros x Hx. apply writes_bind; auto.
  - intros x y r s Hx Hy E. rewrite <- !(assoc_L (++)) in E.
    apply D1 in E as [Ef E]; [|done..]. apply D2 in E as [Eg ->]; [|done..]. by rewrite Ef, Eg.
  - intros x y Hx Hy [= Ef Eg]. by rewrite (E1 x y), (E2 x y).
Qed.

(** A code used at a component of the value. *)
Lemma determines_comp {B C} (Q : B → Prop) (put : B → stM Encoder string ()) (f : B → C) (g : A → B) :
  determines Q put f → (∀ x, P x → Q (g x)) → determines P (λ x, put (g x)) (λ x, f (g x)).
Proof.
  intros (enc & Hw & Hd & He) H. exists (λ x, enc (g x)). split_and!; [by eauto|..].
  - intros x y r s Hx Hy E. eapply Hd; eauto.
  - intros x y Hx Hy E. apply He; eauto.
Qed.
End laws.

Definition codes {A} (P : A → Prop) (put : A → stM Encoder string ()) : Prop := determines P put id.

Lemma codes_prefix_free {A} (P : A → Prop) (enc : A → list u8) :
  prefix_free P enc → codes P (λ x, raw (enc x)).
Proof. intros H. exists enc. split_and!; [intros; apply writes_raw|done|by intros ? ? _ _ [= ->]]. Qed.

Lemma codes_fixed k : codes (λ bs : list u8, length bs = k) raw.
Proof. apply (codes_prefix_free _ (λ bs, bs)). by apply (fixed_prefix_free _ _ k). Qed.

Lemma codes_be k : codes (λ n, n < 256 ^ N.of_nat k) (λ n, raw (be_bytes k n)).
Proof. apply codes_prefix_free, be_bytes_prefix_free. Qed.
Lemma codes_u64 : codes (λ n, n < 2 ^ 64) put_u64.
Proof. apply (codes_be 8). Qed.

Lemma codes_byte : codes (λ n, n < 256) put_byte.
Proof.
  apply (codes_prefix_free _ (λ n, [byte n])). apply (fixed_prefix_free _ _ 1); [done|].
  intros x y Hx Hy [= E]. by apply ascii_of_N_inj in E.
Qed.

Lemma codes_tag {A} (tag : A → N) :
  (∀ x, tag x < 256) → (∀ x y, tag x = tag y → x = y) → codes (λ _, True) (λ x, put_byte (tag x)).
Proof.
  intros Hb Hi. eapply determines_ext; [by apply (determines_comp (λ _, True) _ _ _ tag codes_byte)|].
  intros x y _ _. split; [apply Hi|by intros [= ->]].
Qed.

Lemma codes_bool : codes (λ _, True) (λ b : bool, put_byte (N.b2n b)).
Proof. apply codes_tag; [by intros []|by intros [] []]. Qed.

Lemma codes_count : codes (λ n, n < 2 ^ 16) put_count.
Proof.
  exists (be_bytes 2). split_and!; [..|by intros ? ? _ _ [= ->]].
  - intros n Hn. unfold put_count, try_from, fits. replace (_ <? _) with true by lia. apply writes_raw.
  - intros x y r s Hx Hy E. by apply be_bytes_prefix_free in E.
Qed.

Lemma codes_digest : codes sha_wf put_digest.
Proof.
  exists sha_bytes. split_and!; [intros; apply writes_raw| |by intros ? ? _ _ [= ->]].
  intros [x] [y] r s Hx Hy E. unfold sha_wf in *. simpl in *.
  apply app_inj_1 in E as [-> ->]; [done|congruence].
Qed.

(** Text behind a count of its bytes. *)
Lemma codes_text :
  codes (λ s, str_len s < 2 ^ 16) (λ s, put_count (str_len s) ≫= λ _, raw (bytes s)).
Proof.
  exists (λ s, be_bytes 2 (str_len s) ++ bytes s). split_and!; [..|by intros ? ? _ _ [= ->]].
  - intros s Hs. apply writes_bind; [|apply writes_raw].
    unfold put_count, try_from, fits. replace (_ <? _) with true by lia. apply writes_raw.
  - intros x y r s Hx Hy E. rewrite <- !(assoc_L (++)) in E.
    apply be_bytes_prefix_free in E as [El E]; [|done..]. rewrite !str_len_bytes in El.
    apply app_inj_1 in E as [E ->]; [|by apply (inj N.of_nat)]. split; [by apply bytes_inj|done].
Qed.

Lemma codes_id : codes id_wf put_id.
Proof.
  eapply determines_ext.
  - apply (determines_comp id_wf _ _ _ id_str codes_text). intros i Hi.
    pose proof (proj1 (id_wf_spec i Hi)). lia.
  - intros [x] [y] _ _. simpl. split; [by intros ->|by intros [= ->]].
Qed.

(** A list behind its length. *)
Lemma determines_list {A B} (P : A → Prop) put (f : A → B) :
  determines P put f →
  determines (λ l, N.of_nat (length l) < 2 ^ 16 ∧ Forall P l)
    (λ l, put_count (N.of_nat (length l)) ≫= λ _, st_for put l) (fmap f).
Proof.
  intros (enc & Hw & Hd & He).
  exists (λ l, be_bytes 2 (N.of_nat (length l)) ++ concat (enc <$> l)). split_and!.
  - intros l [Hl Hf]. apply writes_bind.
    { unfold put_count, try_from, fits. replace (_ <? _) with true by lia. apply writes_raw. }
    clear Hl. induction Hf as [|x l Hx Hf IH]; cbn.
    + intros [bs limit]. cbn. unfold mret, stM_ret. rewrite (right_id_L [] (++)). by destruct (limit - _).
    + apply writes_bind; auto.
  - intros x y r s [Hx HPx] [Hy HPy] E. rewrite <- !(assoc_L (++)) in E.
    apply be_bytes_prefix_free in E as [El E]; [|done..].
    apply (inj N.of_nat) in El. clear Hx Hy. revert y HPy El E.
    induction HPx as [|a x Ha HPx IH]; intros [|b y] HPy El E; try discriminate; [done|].
    inversion HPy; subst. rewrite !fmap_cons in E. cbn [concat] in E. rewrite <- !(assoc_L (++)) in E.
    apply Hd in E as [Ef E]; [|done..]. apply IH in E as [Er ->]; [|done|by injection El].
    rewrite !fmap_cons. by rewrite Ef, Er.
  - intros x y [_ HPx] [_ HPy] E.
    assert (length x = length y) as -> by (by rewrite <- (length_fmap f x), E, length_fmap).
    f_equal. f_equal. revert y HPy E. induction HPx as [|a x Ha HPx IH]; intros [|b y] HPy E; try done.
    inversion HPy; subst. rewrite !fmap_cons in E. injection E as E1 E2.
    rewrite !fmap_cons. by rewrite (He a b), (IH y).
Qed.

Lemma codes_list {A} (P : A → Prop) put :
  codes P put →
  codes (λ l, N.of_nat (length l) < 2 ^ 16 ∧ Forall P l)
    (λ l, put_count (N.of_nat (length l)) ≫= λ _, st_for put l).
Proof.
  intros H. eapply determines_ext; [by apply (determines_list P put id)|].
  intros x y _ _. by rewrite !list_fmap_id.
Qed.

(** Bytes of two values under one domain and limit. *)
Lemma determines_same {A B} (P : A → Prop) put (f : A → B) limit domain x y bs :
  determines P put f → P x → P y → f x = f y →
  encode_limited limit domain (put x) = Ok bs → encode_limited limit domain (put y) = Ok bs.
Proof.
  intros (enc & Hw & _ & He) Hx Hy Ef Ex.
  pose proof (encode_limited_spec limit domain _ _ (Hw x Hx)) as Sx.
  pose proof (encode_limited_spec limit domain _ _ (Hw y Hy)) as Sy.
  rewrite (He x y) in Sx by done. destruct (_ <=? limit); [congruence|by rewrite Ex in Sx].
Qed.

Lemma determines_encode {A B} (P : A → Prop) put (f : A → B) limit domain x y bs :
  determines P put f → P x → P y →
  encode_limited limit domain (put x) = Ok bs → encode_limited limit domain (put y) = Ok bs →
  f x = f y.
Proof.
  intros (enc & Hw & Hd & _) Hx Hy Ex Ey.
  pose proof (encode_limited_spec limit domain _ _ (Hw x Hx)) as Sx.
  pose proof (encode_limited_spec limit domain _ _ (Hw y Hy)) as Sy.
  destruct (_ <=? limit); [|by rewrite Ex in Sx]. destruct (_ <=? limit); [|by rewrite Ey in Sy].
  rewrite Ex in Sx. rewrite Ey in Sy. injection Sx as Sx. injection Sy as Sy.
  rewrite Sx in Sy. apply app_inv_head in Sy.
  eapply (proj1 (Hd x y [] [] Hx Hy _)). Unshelve. by rewrite Sy.
Qed.

(** A tag byte chosen by a component. *)
Lemma determines_tag {A B} (P : A → Prop) (tag : B → N) (g : A → B) :
  (∀ b, tag b < 256) → (∀ b c, tag b = tag c → b = c) → determines P (λ x, put_byte (tag (g x))) g.
Proof.
  intros Hb Hi. by apply (determines_comp P (λ _, True) _ id g (codes_tag tag Hb Hi)).
Qed.

Lemma codes_ceiling : codes (λ _, True) encode_ceiling.
Proof.
  unfold encode_ceiling. eapply determines_ext.
  - do 4 (apply determines_bind; [apply determines_tag; [by intros []|by intros [] []]|]).
    apply determines_tag; [by intros []|by intros [] []].
  - intros [] [] _ _. simpl. split; intros; by simplify_eq.
Qed.

(** ** Sorting forgets the order *)

Section sorting.
  Context {A : Type} (le : A → A → bool).
  Context (le_total : ∀ x y, le x y = true ∨ le y x = true)
    (le_trans : ∀ x y z, le x y = true → le y z = true → le x z = true).

Lemma sort_by_sorted l : StronglySorted (λ x y, le x y = true) (sort_by le l).
Proof using le_total le_trans.
  apply Sorted_StronglySorted; [intros x y z; apply le_trans|].
  pose proof (sort_by_ordered le le_total l) as H. induction (sort_by le l) as [|x [|y l'] IH];
    [constructor|by repeat constructor|]. destruct H as [Hxy H]. constructor; auto.
Qed.

(** When the order separates the elements, the sorted list depends only on
    which elements there are. *)
Lemma sort_by_unique l1 l2 :
  l1 ≡ₚ l2 → (∀ x y, x ∈ l1 → y ∈ l1 → le x y = true → le y x = true → x = y) →
  sort_by le l1 = sort_by le l2.
Proof using le_total le_trans.
  intros Hp Hanti.
  pose proof (sort_by_sorted l1) as S1. pose proof (sort_by_sorted l2) as S2.
  assert (sort_by le l1 ≡ₚ sort_by le l2) as Hs by (by rewrite !sort_by_perm).
  assert (∀ x, x ∈ sort_by le l1 → x ∈ l1) as Hin by (intros x; by rewrite sort_by_perm).
  revert S1 S2 Hs Hin. generalize (sort_by le l2). induction (sort_by le l1) as [|x s1 IH];
    intros s2 S1 S2 Hs Hin.
  - by apply Permutation_nil in Hs.
  - destruct s2 as [|y s2]; [by symmetry in Hs; apply Permutation_nil in Hs|].
    inversion S1 as [|? ? S1' F1]; subst. inversion S2 as [|? ? S2' F2]; subst.
    assert (x = y) as ->.
    { assert (x ∈ y :: s2) as Hx by (rewrite <- Hs; constructor).
      assert (y ∈ x :: s1) as Hy by (rewrite Hs; constructor).
      apply elem_of_cons in Hx as [->|Hx]; [done|]. apply elem_of_cons in Hy as [->|Hy]; [done|].
      rewrite Forall_forall in F1, F2. apply Hanti; [apply Hin; constructor
        |apply Hin; by constructor|by apply F1|by apply F2]. }
    f_equal. apply Permutation_cons_inv in Hs. apply IH; [done..|]. intros z Hz. apply Hin. by constructor.
Qed.
End sorting.

Lemma string_leb_trans s t u : String.leb s t = true → String.leb t u = true → String.leb s u = true.
Proof.
  unfold String.leb. revert t u. induction s as [|a s IH]; intros [|b t] [|c u]; cbn; try done.
  unfold Ascii.compare. destruct (N.compare_spec (N_of_ascii a) (N_of_ascii b)) as [E1|E1|E1],
    (N.compare_spec (N_of_ascii b) (N_of_ascii c)) as [E2|E2|E2],
    (N.compare_spec (N_of_ascii a) (N_of_ascii c)) as [E3|E3|E3]; try done; try lia. apply IH.
Qed.
Lemma id_le_trans a b c : id_le a b = true → id_le b c = true → id_le a c = true.
Proof. apply string_leb_trans. Qed.
Lemma id_le_antisym a b : id_le a b = true → id_le b a = true → a = b.
Proof. destruct a, b. intros H1 H2. f_equal. by apply String.leb_antisym. Qed.

(** Sorting by an identifier that no two elements share. *)
Lemma sort_by_id_unique {A} (key : A → LogicalId) l1 l2 :
  l1 ≡ₚ l2 → NoDup (key <$> l1) →
  sort_by (λ x y, id_le (key x) (key y)) l1 = sort_by (λ x y, id_le (key x) (key y)) l2.
Proof.
  intros Hp Hnd. apply sort_by_unique; [intros; apply id_le_total|intros x y z; apply id_le_trans|done|].
  intros x y Hx Hy H1 H2. pose proof (id_le_antisym _ _ H1 H2) as E.
  apply list_elem_of_lookup in Hx as [i Hi]. apply list_elem_of_lookup in Hy as [j Hj].
  assert (i = j) as ->; [|congruence].
  eapply (NoDup_lookup _ _ _ (key x) Hnd); rewrite list_lookup_fmap; [by rewrite Hi|by rewrite Hj, E].
Qed.

(** ** Writers that always fit *)

(** [m] writes at most [n] bytes. *)
Definition within (n : nat) (m : stM Encoder string ()) : Prop :=
  ∃ bs, writes m bs ∧ (length bs <= n)%nat.

Lemma within_bind n k m1 m2 : within n m1 → within k m2 → within (n + k) (m1 ≫= λ _, m2).
Proof.
  intros (b1 & W1 & L1) (b2 & W2 & L2). exists (b1 ++ b2). split; [by apply writes_bind|].
  rewrite length_app. lia.
Qed.
Lemma within_raw n bs : (length bs <= n)%nat → within n (raw bs).
Proof. intros H. exists bs. split; [apply writes_raw|done]. Qed.
Lemma within_le n k m : within n m → (n <= k)%nat → within k m.
Proof. intros (bs & W & L) H. exists bs. split; [done|lia]. Qed.
Lemma within_byte n : within 1 (put_byte n).
Proof. by apply within_raw. Qed.
Lemma within_u64 n : within 8 (put_u64 n).
Proof. apply within_raw. rewrite length_be_bytes. lia. Qed.
Lemma within_digest d : sha_wf d → within 32 (put_digest d).
Proof. intros H. apply within_raw. by rewrite H. Qed.
Lemma within_count n : n < 2 ^ 16 → within 2 (put_count n).
Proof.
  intros H. unfold put_count, try_from, fits. replace (_ <? _) with true by lia.
  apply within_raw. rewrite length_be_bytes. lia.
Qed.
Lemma within_text n s : str_len s <= N.of_nat n → N.of_nat n < 2 ^ 16 →
  within (2 + n) (put_count (str_len s) ≫= λ _, raw (bytes s)).
Proof.
  intros H1 H2. apply within_bind; [apply within_count; lia|]. apply within_raw.
  rewrite str_len_bytes in H1. unfold u8 in *. lia.
Qed.
Lemma within_id i : id_wf i → within 66 (put_id i).
Proof. intros H. apply (within_text 64); [|done]. pose proof (proj1 (id_wf_spec i H)). lia. Qed.
Lemma within_ceiling c : within 5 (encode_ceiling c).
Proof. unfold encode_ceiling. do 4 (apply (within_bind 1); [apply within_byte|]). apply within_byte. Qed.

Lemma within_encode n limit domain m :
  within n m → N.of_nat (length domain + 3 + n) <= limit →
  ∃ bs, encode_limited limit domain m = Ok bs.
Proof.
  intros (bs & W & L) H. pose proof (encode_limited_spec limit domain m bs W) as E.
  unfold header in E. rewrite !length_app, length_be_bytes in E. change (length [NUL]) with 1%nat in E.
  replace (_ <=? limit) with true in E by lia. eauto.
Qed.

(** A statement that writes the same bytes for every value. *)
Lemma determines_const {A} (P : A → Prop) bs : determines P (λ _, raw bs) (λ _, ()).
Proof.
  exists (λ _, bs). split_and!; [intros; apply writes_raw| |done].
  intros x y r s _ _ E. by apply app_inv_head in E.
Qed.
Lemma codes_u16 : codes (λ n, n < 2 ^ 16) put_u16.
Proof. apply (codes_be 2). Qed.
