(* ===== verification/Registry.v ===== *)
(** * Local policy registry and admission

    memcordon-core/src/workload_registry.rs: the administrator's registry of
    profiles and grants, its validation and canonical digest, and [resolve],
    which decides whether a request is covered by a grant.  SHA-256 is the
    parameter [sha256_hash]; profile references are digests and depend on it. *)

From S2P Require Import Prelude Decimal Bounded Codec WorkloadContract WorkloadCodec EncoderLaws.
From Stdlib Require Import Ascii.
From stdpp Require Import sorting.
#[local] Open Scope N_scope.

Definition REGISTRY_BYTES : N := 1024 * 1024.
Definition PROFILES : nat := 16.
Definition GRANTS : nat := 128.
Definition PLANS_PER_GRANT : nat := 16.
Definition CALLERS_PER_GRANT : nat := 4.
Definition CONFLICTS : nat := 16.

Inductive BaselineProfile : Type := LinuxUnixCreate | WindowsHostNetworkExternal.
#[global] Instance BaselineProfile_eq_dec : EqDecision BaselineProfile.
Proof. solve_decision. Defined.

Inductive CallerSelector : Type :=
| Caller_Linux (uid : N)
| Caller_Windows (sid : BoundedText 184).
#[global] Instance CallerSelector_eq_dec : EqDecision CallerSelector.
Proof. solve_decision. Defined.

Inductive GrantChangeDisposition : Type := DrainExisting | RevokeActive.

Record RuntimeProfileDefinition : Type := {
  pd_profile : BaselineProfile;
  pd_reference : ProfileRef;
  pd_enabled : bool
}.

Record PolicyGrantV1 : Type := {
  pg_id : LogicalId;
  pg_revision : N;
  pg_profile : ProfileRef;
  pg_ceiling : NetworkCeilingV1;
  pg_enabled : bool;
  pg_callers : BoundedVec CallerSelector CALLERS_PER_GRANT;
  pg_approved_plans : BoundedVec DiagnosticSha256 PLANS_PER_GRANT
}.

Record RuntimePolicyRegistry : Type := {
  pr_format : string;
  pr_revision : N;
  pr_profiles : BoundedVec RuntimeProfileDefinition PROFILES;
  pr_grants : BoundedVec PolicyGrantV1 GRANTS;
  pr_active_attempt_disposition : GrantChangeDisposition
}.

#[global] Instance RuntimeProfileDefinition_eq_dec : EqDecision RuntimeProfileDefinition.
Proof. solve_decision. Defined.
#[global] Instance PolicyGrantV1_eq_dec : EqDecision PolicyGrantV1.
Proof. solve_decision. Defined.

(** ** Ceilings and baseline profiles *)

Definition ceiling_contains (ceiling authority : NetworkCeilingV1) : bool :=
  ((direct_socket_authority ceiling ≟ direct_socket_authority authority)
   || ((direct_socket_authority ceiling ≟ ExternalHostPolicyAccepted)
       && (direct_socket_authority authority ≟ PinnedLegacySocketFilterAccepted)))
  && (unix_authority ceiling ≟ unix_authority authority)
  && (external_socket_custody ceiling ≟ external_socket_custody authority)
  && (credential_gains ceiling ≟ credential_gains authority)
  && (mediated_communication ceiling ≟ mediated_communication authority).

(** [LogicalId::new(..).expect(..)] of a fixed identifier: see [baseline_id_valid]. *)
Definition baseline_id (self : BaselineProfile) : LogicalId :=
  logical_id match self with
             | LinuxUnixCreate => "linux-unix-create-v1"
             | WindowsHostNetworkExternal => "windows-host-network-external-v1"
             end.

Definition baseline_ceiling (self : BaselineProfile) : NetworkCeilingV1 :=
  {| direct_socket_authority :=
       match self with
       | LinuxUnixCreate => PinnedLegacySocketFilterAccepted
       | WindowsHostNetworkExternal => ExternalHostPolicyAccepted
       end;
     unix_authority := ExistingHostUnixAuthorityAccepted;
     external_socket_custody := ExistingStdioAuthorityAccepted;
     credential_gains := ExistingCallerEnvelopeAccepted;
     mediated_communication := ExternalFilesystemAndStdioPolicyAccepted |}.

Definition domain (s : string) : list u8 := bytes s.

Definition baseline_body (self : BaselineProfile) : stM Encoder string () :=
  put_id (baseline_id self) ≫= λ _,
  encode_ceiling (baseline_ceiling self) ≫= λ _,
  put_byte (match self with LinuxUnixCreate => 1 | WindowsHostNetworkExternal => 2 end) ≫= λ _,
  put_byte 1.

(** The encoder's [expect]s never fire: see [semantic_bytes_encoded]. *)
Definition semantic_bytes (self : BaselineProfile) : list u8 :=
  match encode_limited CONTRACT_BYTES (domain "profile-definition-v1") (baseline_body self) with
  | Ok bs => bs
  | Err _ => []
  end.

Lemma baseline_id_valid self : LogicalId_new (id_str (baseline_id self)) = Ok (baseline_id self).
Proof. by destruct self. Qed.
Lemma semantic_bytes_encoded self :
  encode_limited CONTRACT_BYTES (domain "profile-definition-v1") (baseline_body self)
  = Ok (semantic_bytes self).
Proof. by destruct self. Qed.

(** ** Windows security identifiers *)

(** [text.split(separator)] *)
Fixpoint split_at (separator : ascii) (field : list ascii) (cs : list ascii) : list (list ascii) :=
  match cs with
  | [] => [field]
  | c :: cs => if bool_decide (c = separator) then field :: split_at separator [] cs
               else split_at separator (field ++ [c]) cs
  end.
Definition split (separator : ascii) (text : string) : list string :=
  String.string_of_list_ascii <$> split_at separator [] (bytes text).

Definition canonical_number (value : string) : bool :=
  negb (str_is_empty value)
  && ((value ≟ "0"%string) || negb (starts_with "0" value))
  && str_all is_ascii_digit value.

Fixpoint sid_fields (count : N) (fields : list string) : option N :=
  match fields with
  | [] => Some count
  | field :: fields =>
      let count := count + 1 in
      if (15 <? count) || negb (canonical_number field) || is_none (parse_uint 32 field) then None
      else sid_fields count fields
  end.

Definition valid_windows_sid (text : string) : bool :=
  match split "-" text with
  | first :: second :: rest =>
      if (first ≠? "S"%string) || (second ≠? "1"%string) then false
      else
        match rest with
        | [] => false
        | authority :: fields =>
            if negb (canonical_number authority)
               || negb (is_some_and (λ value, value <? 2 ^ 48) (parse_uint 64 authority))
            then false
            else match sid_fields 0 fields with Some count => 0 <? count | None => false end
        end
  | _ => false
  end.

Example well_known_sid : valid_windows_sid "S-1-5-32-544" = true.
Proof. reflexivity. Qed.
Example padded_sid : valid_windows_sid "S-1-05-32" = false.
Proof. reflexivity. Qed.

(** ** Validation *)

Section registry.
  Context (sha256_hash : list u8 → list u8).

Definition baseline_reference (self : BaselineProfile) : ProfileRef :=
  {| profile_id := baseline_id self;
     profile_semantic_digest := hash_bytes sha256_hash (semantic_bytes self) |}.

(** One iteration of the loop over profiles; [prior] is [profiles[..index]]. *)
Fixpoint validate_profiles (prior rest : list RuntimeProfileDefinition) : result string () :=
  match rest with
  | [] => Ok ()
  | profile :: rest =>
      guard_err
        ((pd_reference profile ≠? baseline_reference (pd_profile profile))
         || existsb (λ p, profile_id (pd_reference p) ≟ profile_id (pd_reference profile)) prior)
        "registry profile definition differs or duplicates an identity"%string ;;
      validate_profiles (prior ++ [profile]) rest
  end.

Fixpoint validate_callers (prior rest : list CallerSelector) : result string () :=
  match rest with
  | [] => Ok ()
  | caller :: rest =>
      match caller with
      | Caller_Windows sid =>
          guard_err (negb (valid_windows_sid (text sid))) "noncanonical Windows caller SID"%string
      | Caller_Linux _ => Ok ()
      end ;;
      guard_err (bool_decide (caller ∈ prior)) "duplicate caller selector"%string ;;
      validate_callers (prior ++ [caller]) rest
  end.

Fixpoint validate_plans (message : string) (prior rest : list DiagnosticSha256) : result string () :=
  match rest with
  | [] => Ok ()
  | plan :: rest =>
      guard_err (bool_decide (plan ∈ prior)) message ;;
      validate_plans message (prior ++ [plan]) rest
  end.

Definition grant_profile_known (profiles : list RuntimeProfileDefinition) (grant : PolicyGrantV1) : bool :=
  existsb (λ profile, (pd_reference profile ≟ pg_profile grant)
                      && ceiling_contains (pg_ceiling grant) (baseline_ceiling (pd_profile profile)))
    profiles.

Fixpoint validate_grants (profiles : list RuntimeProfileDefinition) (prior rest : list PolicyGrantV1)
    : result string () :=
  match rest with
  | [] => Ok ()
  | grant :: rest =>
      guard_err
        (existsb (λ p, pg_id p ≟ pg_id grant) prior
         || bool_decide (as_slice (pg_callers grant) = [])
         || bool_decide (as_slice (pg_approved_plans grant) = [])
         || negb (grant_profile_known profiles grant))
        "invalid grant identity, profile, ceiling or empty selectors"%string ;;
      validate_callers [] (as_slice (pg_callers grant)) ;;
      validate_plans "duplicate approved plan" [] (as_slice (pg_approved_plans grant)) ;;
      validate_grants profiles (prior ++ [grant]) rest
  end.

Definition registry_validate (self : RuntimePolicyRegistry) : result string () :=
  guard_err ((pr_format self ≠? "memcordon.local-policy"%string) || negb (pr_revision self =? 1))
    "local policy format differs"%string ;;
  validate_profiles [] (as_slice (pr_profiles self)) ;;
  validate_grants (as_slice (pr_profiles self)) [] (as_slice (pr_grants self)).

(** ** Canonical digest *)

(** [Ord] of byte slices. *)
Fixpoint bytes_le (a b : list u8) : bool :=
  match a, b with
  | [], _ => true
  | _ :: _, [] => false
  | x :: a, y :: b =>
      (N_of_ascii x <? N_of_ascii y) || ((N_of_ascii x =? N_of_ascii y) && bytes_le a b)
  end.

Definition profile_le (a b : RuntimeProfileDefinition) : bool :=
  id_le (profile_id (pd_reference a)) (profile_id (pd_reference b)).
Definition grant_le (a b : PolicyGrantV1) : bool := id_le (pg_id a) (pg_id b).
Definition plan_le (a b : DiagnosticSha256) : bool := bytes_le (sha_bytes a) (sha_bytes b).

Definition caller_bytes (caller : CallerSelector) : result string (list u8) :=
  match caller with
  | Caller_Linux uid => Ok ([byte 1] ++ be_bytes 4 uid)
  | Caller_Windows sid =>
      len ← ok_or "caller SID exceeds canonical length"%string (try_from 16 (str_len (text sid)));
      Ok ([byte 2] ++ be_bytes 2 len ++ bytes (text sid))
  end.

(** The loop that collects the callers' bytes. *)
Fixpoint callers_bytes (callers : list CallerSelector) : result string (list (list u8)) :=
  match callers with
  | [] => Ok []
  | caller :: rest => bs ← caller_bytes caller; rest ← callers_bytes rest; Ok (bs :: rest)
  end.

Definition put_profile (profile : RuntimeProfileDefinition) : stM Encoder string () :=
  put_id (profile_id (pd_reference profile)) ≫= λ _,
  put_digest (profile_semantic_digest (pd_reference profile)) ≫= λ _,
  put_byte (N.b2n (pd_enabled profile)).

Definition put_callers (callers : list CallerSelector) : stM Encoder string () :=
  st_lift (callers_bytes callers) ≫= λ callers,
  let callers := sort_by bytes_le callers in
  put_count (N.of_nat (length callers)) ≫= λ _, st_for raw callers.

Definition put_plans (plans : list DiagnosticSha256) : stM Encoder string () :=
  let plans := sort_by plan_le plans in
  put_count (N.of_nat (length plans)) ≫= λ _, st_for put_digest plans.

Definition put_grant (grant : PolicyGrantV1) : stM Encoder string () :=
  put_id (pg_id grant) ≫= λ _,
  put_u64 (pg_revision grant) ≫= λ _,
  put_id (profile_id (pg_profile grant)) ≫= λ _,
  put_digest (profile_semantic_digest (pg_profile grant)) ≫= λ _,
  encode_ceiling (pg_ceiling grant) ≫= λ _,
  put_byte (N.b2n (pg_enabled grant)) ≫= λ _,
  put_callers (as_slice (pg_callers grant)) ≫= λ _,
  put_plans (as_slice (pg_approved_plans grant)).

Definition disposition_tag (d : GrantChangeDisposition) : N :=
  match d with DrainExisting => 1 | RevokeActive => 2 end.

Definition put_registry (self : RuntimePolicyRegistry) : stM Encoder string () :=
  let profiles := sort_by profile_le (as_slice (pr_profiles self)) in
  put_count (N.of_nat (length profiles)) ≫= λ _,
  st_for put_profile profiles ≫= λ _,
  let grants := sort_by grant_le (as_slice (pr_grants self)) in
  put_count (N.of_nat (length grants)) ≫= λ _,
  st_for put_grant grants ≫= λ _,
  put_byte (disposition_tag (pr_active_attempt_disposition self)).

Definition registry_digest (self : RuntimePolicyRegistry) : result string DiagnosticSha256 :=
  registry_validate self ≫= λ _,
  hash_bytes sha256_hash <$>
    encode_limited REGISTRY_BYTES (domain "memcordon.local-policy/revision1") (put_registry self).
End registry.

(** ** Admission *)

Inductive AdmissionCode : Type :=
| ProfileNotAuthorized | ProfileDigestMismatch | PolicyEpochStale | PolicyIncompatible
| FeatureNotEnforceable | CallerEnvelopeIncompatible | DescriptorAuthorityIncompatible
| HostPrerequisiteUnavailable | EnforcementInstallFailed | EnforcementReadbackFailed | PolicyDrift.

Record AdmissionConflictV1 : Type := { cf_requirement : option LogicalId; cf_code : AdmissionCode }.
Record AdmissionRejectionV1 : Type := {
  ad_code : AdmissionCode;
  ad_conflicts : BoundedVec AdmissionConflictV1 CONFLICTS;
  ad_remaining_conflicts : N
}.
#[global] Instance AdmissionCode_eq_dec : EqDecision AdmissionCode.
Proof. solve_decision. Defined.
#[global] Instance AdmissionConflictV1_eq_dec : EqDecision AdmissionConflictV1.
Proof. solve_decision. Defined.
#[global] Instance AdmissionRejectionV1_eq_dec : EqDecision AdmissionRejectionV1.
Proof. solve_decision. Defined.

Definition AdmissionRejection_single (code : AdmissionCode) : AdmissionRejectionV1 :=
  {| ad_code := code; ad_conflicts := []; ad_remaining_conflicts := 0 |}.

(** Why a requirement cannot be met by a native profile, if it cannot. *)
Definition requirement_conflict (native : BaselineProfile) (r : RequirementV1) : option AdmissionCode :=
  match r with
  | UnixSocketCreation _ _ | UnixSocketPair _ _ =>
      if native ≟ LinuxUnixCreate then None else Some FeatureNotEnforceable
  | Tcp _ _ _ HostSharedLoopback _ _ =>
      if native ≟ WindowsHostNetworkExternal then None else Some PolicyIncompatible
  | Tcp _ _ _ _ _ _ => Some PolicyIncompatible
  | DenialExercise _ InetSocketCreation =>
      if native ≟ LinuxUnixCreate then None else Some FeatureNotEnforceable
  | _ => Some FeatureNotEnforceable
  end.

(** The loop over the sorted requirements: the conflicts that fit, and how
    many did not. *)
Fixpoint collect_conflicts {C} (conflict : RequirementV1 → option C)
    (conflicts : BoundedVec (LogicalId * C) CONFLICTS) (remainder : N) (requirements : list RequirementV1)
    : BoundedVec (LogicalId * C) CONFLICTS * N :=
  match requirements with
  | [] => (conflicts, remainder)
  | r :: requirements =>
      match conflict r with
      | None => collect_conflicts conflict conflicts remainder requirements
      | Some code =>
          match try_push (requirement_id r, code) conflicts with
          | (conflicts, Ok _) => collect_conflicts conflict conflicts remainder requirements
          | (conflicts, Err _) => collect_conflicts conflict conflicts (remainder + 1) requirements
          end
      end
  end.

Definition grant_selected (request : WorkloadContractV1) (caller : CallerSelector)
    (grant : PolicyGrantV1) : bool :=
  (pg_id grant ≟ grant_id (authorization request))
  && (pg_revision grant =? grant_revision (authorization request))
  && pg_enabled grant
  && bool_decide (caller ∈ as_slice (pg_callers grant))
  && bool_decide (workload_plan_digest request ∈ as_slice (pg_approved_plans grant))
  && (approved_plan_digest (authorization request) ≟ workload_plan_digest request).

Definition resolve (registry : RuntimePolicyRegistry) (current_epoch : PolicyEpoch)
    (request : WorkloadContractV1) (caller : CallerSelector) (native : BaselineProfile)
    : result AdmissionRejectionV1 PolicyGrantV1 :=
  let reject := AdmissionRejection_single in
  grant ← ok_or (reject ProfileNotAuthorized)
            (List.find (grant_selected request caller) (as_slice (pr_grants registry)));
  guard_err (current_epoch ≠? expected_epoch request) (reject PolicyEpochStale) ;;
  guard_err (pg_profile grant ≠? authorized_profile request) (reject ProfileDigestMismatch) ;;
  profile ← ok_or (reject ProfileNotAuthorized)
              (List.find (λ p, (pd_reference p ≟ pg_profile grant) && pd_enabled p)
                 (as_slice (pr_profiles registry)));
  guard_err (pd_profile profile ≠? native) (reject HostPrerequisiteUnavailable) ;;
  guard_err (negb (ceiling_contains (pg_ceiling grant) (ceiling request))
             || negb (ceiling_contains (ceiling request) (baseline_ceiling (pd_profile profile))))
    (reject PolicyIncompatible) ;;
  let '(conflicts, remainder) :=
    collect_conflicts (requirement_conflict native) [] 0
      (sort_by requirement_le (as_slice (requirements request))) in
  match as_slice conflicts with
  | (_, first) :: _ =>
      Err {| ad_code := first;
             ad_conflicts := (λ '(id, code), {| cf_requirement := Some id; cf_code := code |})
                               <$> as_slice conflicts;
             ad_remaining_conflicts := remainder |}
  | [] => Ok grant
  end.

(** ** Admission snapshots *)

Record RuntimeAdmissionSnapshot : Type := {
  sn_format : string;
  sn_revision : N;
  sn_request : WorkloadContractV1;
  sn_request_digest : DiagnosticSha256;
  sn_registry_digest : DiagnosticSha256;
  sn_admission_nonce : Nonce128;
  sn_caller_invocation_reference : Nonce128;
  sn_private_invocation_digest : DiagnosticSha256;
  sn_caller : CallerSelector;
  sn_native_profile : BaselineProfile
}.

Definition admission_snapshot_validate (sha256_hash : list u8 → list u8)
    (self : RuntimeAdmissionSnapshot) : result string () :=
  validate (sn_request self) ≫= λ _,
  digest ← (if (sn_format self ≠? "memcordon.local-admission"%string) || negb (sn_revision self =? 1)
            then Err "provider admission snapshot request binding differs"%string
            else contract_digest sha256_hash (sn_request self));
  guard_err ((digest ≠? sn_request_digest self)
             || (authorized_profile (sn_request self)
                 ≠? baseline_reference sha256_hash (sn_native_profile self)))
    "provider admission snapshot request binding differs"%string.

(** ** What a valid registry is *)

Definition caller_valid (caller : CallerSelector) : Prop :=
  match caller with Caller_Windows sid => valid_windows_sid (text sid) = true | Caller_Linux _ => True end.

Record grant_valid (profiles : list RuntimeProfileDefinition) (grant : PolicyGrantV1) : Prop := {
  gv_callers : as_slice (pg_callers grant) ≠ [];
  gv_callers_valid : Forall caller_valid (as_slice (pg_callers grant));
  gv_callers_distinct : NoDup (as_slice (pg_callers grant));
  gv_plans : as_slice (pg_approved_plans grant) ≠ [];
  gv_plans_distinct : NoDup (as_slice (pg_approved_plans grant));
  gv_profile : ∃ profile, profile ∈ profiles ∧ pd_reference profile = pg_profile grant ∧
    ceiling_contains (pg_ceiling grant) (baseline_ceiling (pd_profile profile)) = true
}.

Record registry_valid sha256_hash (self : RuntimePolicyRegistry) : Prop := {
  rv_format : pr_format self = "memcordon.local-policy"%string;
  rv_revision : pr_revision self = 1;
  rv_profiles : Forall (λ p, pd_reference p = baseline_reference sha256_hash (pd_profile p))
                  (as_slice (pr_profiles self));
  rv_profiles_distinct : NoDup ((profile_id ∘ pd_reference) <$> as_slice (pr_profiles self));
  rv_grants : Forall (grant_valid (as_slice (pr_profiles self))) (as_slice (pr_grants self));
  rv_grants_distinct : NoDup (pg_id <$> as_slice (pr_grants self))
}.

Lemma NoDup_snoc {A} (l : list A) x : NoDup (l ++ [x]) ↔ NoDup l ∧ x ∉ l.
Proof.
  rewrite NoDup_app. split.
  - intros (H & Hd & _). split; [done|]. intros Hx. by apply (Hd x Hx), list_elem_of_singleton.
  - intros [H Hx]. split_and!; [done| |apply NoDup_singleton]. by intros y Hy ->%list_elem_of_singleton.
Qed.

(** A loop that checks each element and compares its key with those before it. *)
Lemma prior_loop {A K E} (key : A → K) (Q : A → Prop) (V : list A → list A → result E ()) :
  (∀ prior, V prior [] = Ok ()) →
  (∀ prior x rest, V prior (x :: rest) = Ok () ↔
     (key x ∉ (key <$> prior)) ∧ Q x ∧ V (prior ++ [x]) rest = Ok ()) →
  ∀ rest prior, NoDup (key <$> prior) →
    V prior rest = Ok () ↔ NoDup (key <$> (prior ++ rest)) ∧ Forall Q rest.
Proof.
  intros H0 HS. induction rest as [|x rest IH]; intros prior Hp.
  - rewrite H0, app_nil_r. naive_solver.
  - assert (NoDup (key <$> (prior ++ [x])) ↔ key x ∉ (key <$> prior)) as Hx.
    { rewrite fmap_app. cbn. rewrite NoDup_snoc. naive_solver. }
    assert (prior ++ x :: rest = (prior ++ [x]) ++ rest) as -> by (by rewrite <- app_assoc).
    rewrite HS, Forall_cons. split.
    + intros (Hn & Hq & Hv). apply IH in Hv; [|by apply Hx]. naive_solver.
    + intros (Hn & Hq & Hf). rewrite fmap_app, NoDup_app in Hn.
      assert (key x ∉ (key <$> prior)) by (apply Hx; naive_solver).
      split_and!; [done..|]. apply IH; [by apply Hx|]. split; [|done].
      rewrite fmap_app, NoDup_app. naive_solver.
Qed.

Lemma prior_loop_start {A K E} (key : A → K) (Q : A → Prop) (V : list A → list A → result E ()) l :
  (∀ prior, V prior [] = Ok ()) →
  (∀ prior x rest, V prior (x :: rest) = Ok () ↔
     (key x ∉ (key <$> prior)) ∧ Q x ∧ V (prior ++ [x]) rest = Ok ()) →
  V [] l = Ok () ↔ NoDup (key <$> l) ∧ Forall Q l.
Proof. intros H0 HS. by apply (prior_loop key Q V H0 HS l []), NoDup_nil. Qed.

Lemma validate_profiles_Ok sha256_hash profiles :
  validate_profiles sha256_hash [] profiles = Ok () ↔
  NoDup ((profile_id ∘ pd_reference) <$> profiles) ∧
  Forall (λ p, pd_reference p = baseline_reference sha256_hash (pd_profile p)) profiles.
Proof.
  apply (prior_loop_start (profile_id ∘ pd_reference)); [done|]. intros prior x rest.
  cbn [validate_profiles]. rewrite bind_unit_Ok, guard_err_Ok, orb_false_iff, negb_false_iff,
    bool_decide_eq_true, (existsb_key_false (profile_id ∘ pd_reference)). naive_solver.
Qed.

Lemma validate_callers_Ok callers :
  validate_callers [] callers = Ok () ↔ NoDup callers ∧ Forall caller_valid callers.
Proof.
  rewrite <- (list_fmap_id callers) at 2.
  apply (prior_loop_start id); [done|]. intros prior x rest. rewrite list_fmap_id.
  cbn [validate_callers]. rewrite !bind_unit_Ok, guard_err_Ok, bool_decide_eq_false.
  destruct x; cbn; rewrite ?guard_err_Ok, ?negb_false_iff; naive_solver.
Qed.

Lemma validate_plans_Ok message plans : validate_plans message [] plans = Ok () ↔ NoDup plans.
Proof.
  rewrite <- (list_fmap_id plans) at 2.
  rewrite (prior_loop_start id (λ _, True) (validate_plans message)); [|done|].
  - split; [by intros [? _]|]. intros H. split; [done|]. by apply Forall_true.
  - intros prior x rest. rewrite list_fmap_id.
    cbn [validate_plans]. rewrite !bind_unit_Ok, guard_err_Ok, bool_decide_eq_false. tauto.
Qed.

Lemma grant_profile_known_true profiles grant :
  grant_profile_known profiles grant = true ↔
  ∃ profile, profile ∈ profiles ∧ pd_reference profile = pg_profile grant ∧
    ceiling_contains (pg_ceiling grant) (baseline_ceiling (pd_profile profile)) = true.
Proof.
  unfold grant_profile_known. rewrite existsb_exists. split.
  - intros (x & Hx & H). bool_hyps. exists x. split_and!; [by apply list_elem_of_In|done..].
  - intros (x & Hx & Hr & Hc). exists x. split; [by apply list_elem_of_In|].
    by rewrite bool_decide_eq_true_2.
Qed.

Lemma validate_grants_Ok profiles grants :
  validate_grants profiles [] grants = Ok () ↔
  NoDup (pg_id <$> grants) ∧ Forall (grant_valid profiles) grants.
Proof.
  apply (prior_loop_start pg_id); [done|]. intros prior x rest. cbn [validate_grants].
  rewrite !bind_unit_Ok, guard_err_Ok, !orb_false_iff, negb_false_iff, !bool_decide_eq_false,
    (existsb_key_false pg_id), grant_profile_known_true, validate_callers_Ok, validate_plans_Ok.
  split; [intros ([[[? ?] ?] ?] & [? ?] & ? & ?); by repeat constructor|].
  intros (? & [] & ?). by split_and!.
Qed.

(** [validate] decides the specification. *)
Lemma registry_validate_Ok sha256_hash self :
  registry_validate sha256_hash self = Ok () ↔ registry_valid sha256_hash self.
Proof.
  unfold registry_validate. rewrite !bind_unit_Ok, guard_err_Ok, orb_false_iff, !negb_false_iff,
    bool_decide_eq_true, N.eqb_eq, validate_profiles_Ok, validate_grants_Ok.
  split; [intros ([? ?] & [? ?] & ? & ?); by constructor|]. intros []. by split_and!.
Qed.

(** ** Admission *)

(** What the administrator, the caller and the host must agree on. *)
Record admitted (registry : RuntimePolicyRegistry) (current_epoch : PolicyEpoch)
    (request : WorkloadContractV1) (caller : CallerSelector) (native : BaselineProfile)
    (grant : PolicyGrantV1) : Prop := {
  am_grant : grant ∈ as_slice (pr_grants registry);
  am_id : pg_id grant = grant_id (authorization request);
  am_revision : pg_revision grant = grant_revision (authorization request);
  am_enabled : pg_enabled grant = true;
  am_caller : caller ∈ as_slice (pg_callers grant);
  am_plan : workload_plan_digest request ∈ as_slice (pg_approved_plans grant);
  am_approved : approved_plan_digest (authorization request) = workload_plan_digest request;
  am_epoch : current_epoch = expected_epoch request;
  am_authorized : pg_profile grant = authorized_profile request;
  am_profile : ∃ profile, profile ∈ as_slice (pr_profiles registry) ∧
    pd_reference profile = pg_profile grant ∧ pd_enabled profile = true ∧ pd_profile profile = native;
  am_ceiling : ceiling_contains (pg_ceiling grant) (ceiling request) = true;
  am_native_ceiling : ceiling_contains (ceiling request) (baseline_ceiling native) = true;
  am_requirements : Forall (λ r, requirement_conflict native r = None) (as_slice (requirements request))
}.

(** All conflicts, in order. *)
Definition all_conflicts {C} (conflict : RequirementV1 → option C) (l : list RequirementV1)
    : list (LogicalId * C) :=
  omap (λ r, pair (requirement_id r) <$> conflict r) l.

Lemma collect_conflicts_eq {C} (conflict : RequirementV1 → option C) acc rem l :
  (length acc <= CONFLICTS)%nat →
  collect_conflicts conflict acc rem l =
    (acc ++ take (CONFLICTS - length acc) (all_conflicts conflict l),
     rem + N.of_nat (length (all_conflicts conflict l) - (CONFLICTS - length acc))).
Proof.
  revert acc rem. induction l as [|r l IH]; intros acc rem Hl; cbn [collect_conflicts].
  { cbn. rewrite take_nil, app_nil_r. f_equal. lia. }
  unfold all_conflicts. cbn [omap list_omap]. destruct (conflict r) as [code|]; cbn; [|by apply IH].
  unfold try_push. case_bool_decide as E; rewrite IH by (rewrite ?length_app; simpl; lia).
  - rewrite E, Nat.sub_diag. cbn. f_equal. unfold all_conflicts. lia.
  - rewrite length_app. cbn. unfold CONFLICTS in *.
    replace (16 - length acc)%nat with (S (16 - (length acc + 1)))%nat by lia.
    by rewrite <- app_assoc.
Qed.

Lemma all_conflicts_nil {C} (conflict : RequirementV1 → option C) l :
  all_conflicts conflict l = [] ↔ Forall (λ r, conflict r = None) l.
Proof.
  induction l as [|r l IH]; cbn; [naive_solver|]. rewrite Forall_cons.
  destruct (conflict r); cbn; [naive_solver|]. rewrite IH. naive_solver.
Qed.

Section resolve.
  Context (registry : RuntimePolicyRegistry) (current_epoch : PolicyEpoch)
    (request : WorkloadContractV1) (caller : CallerSelector) (native : BaselineProfile).

Lemma grant_selected_true grant :
  grant_selected request caller grant = true ↔
  pg_id grant = grant_id (authorization request) ∧
  pg_revision grant = grant_revision (authorization request) ∧ pg_enabled grant = true ∧
  caller ∈ as_slice (pg_callers grant) ∧
  workload_plan_digest request ∈ as_slice (pg_approved_plans grant) ∧
  approved_plan_digest (authorization request) = workload_plan_digest request.
Proof.
  unfold grant_selected. rewrite !andb_true_iff, !bool_decide_eq_true, N.eqb_eq. naive_solver.
Qed.

(** The conflicts [resolve] reports once every other test has passed. *)
Definition conflict_rejection : option AdmissionRejectionV1 :=
  let conflicts := all_conflicts (requirement_conflict native)
                     (sort_by requirement_le (as_slice (requirements request))) in
  match conflicts with
  | [] => None
  | (_, first) :: _ =>
      Some {| ad_code := first;
              ad_conflicts := (λ '(id, code), {| cf_requirement := Some id; cf_code := code |})
                                <$> take CONFLICTS conflicts;
              ad_remaining_conflicts := N.of_nat (length conflicts - CONFLICTS) |}
  end.

(** All of [admitted] but the requirements. *)
Definition covered (grant : PolicyGrantV1) : Prop :=
  grant ∈ as_slice (pr_grants registry) ∧ grant_selected request caller grant = true ∧
  current_epoch = expected_epoch request ∧ pg_profile grant = authorized_profile request ∧
  (∃ profile, profile ∈ as_slice (pr_profiles registry) ∧
    pd_reference profile = pg_profile grant ∧ pd_enabled profile = true ∧ pd_profile profile = native) ∧
  ceiling_contains (pg_ceiling grant) (ceiling request) = true ∧
  ceiling_contains (ceiling request) (baseline_ceiling native) = true.

Lemma admitted_covered grant :
  admitted registry current_epoch request caller native grant ↔
  covered grant ∧ conflict_rejection = None.
Proof.
  assert (conflict_rejection = None ↔
    Forall (λ r, requirement_conflict native r = None) (as_slice (requirements request))) as ->.
  { pose proof (sort_by_perm requirement_le (as_slice (requirements request))) as Hp.
    unfold conflict_rejection. rewrite <- Hp at 2. rewrite <- all_conflicts_nil.
    destruct (all_conflicts _ _) as [|[]]; naive_solver. }
  unfold covered. rewrite grant_selected_true. split.
  - intros []. by split_and!.
  - intros ((? & (? & ? & ? & ? & ? & ?) & ? & ? & ? & ? & ?) & ?). by constructor.
Qed.

Lemma find_unique {A} (p : A → bool) (l : list A) x :
  x ∈ l → p x = true → (∀ y, y ∈ l → p y = true → y = x) → List.find p l = Some x.
Proof.
  intros Hx Hp Hu. destruct (List.find p l) as [y|] eqn:E.
  - apply find_some in E as [Hy E]. f_equal. apply Hu; [by apply list_elem_of_In|done].
  - apply list_elem_of_In in Hx. by rewrite (find_none p l E x Hx) in Hp.
Qed.

Lemma NoDup_key_eq {A K} (key : A → K) (l : list A) x y :
  NoDup (key <$> l) → x ∈ l → y ∈ l → key x = key y → x = y.
Proof.
  intros Hnd [i Hi]%list_elem_of_lookup [j Hj]%list_elem_of_lookup E.
  assert (i = j) as ->; [|congruence].
  eapply (NoDup_lookup _ _ _ (key x) Hnd); rewrite list_lookup_fmap; [by rewrite Hi|by rewrite Hj, E].
Qed.

Lemma resolve_covered sha256_hash grant :
  registry_valid sha256_hash registry → covered grant →
  resolve registry current_epoch request caller native =
    match conflict_rejection with Some e => Err e | None => Ok grant end.
Proof.
  intros [_ _ _ Hpd _ Hgd] (Hg & Hs & He & Ha & (profile & Hp & Hr & Hen & Hn) & Hc1 & Hc2).
  unfold resolve. rewrite (find_unique _ _ grant); [|done..|].
  2:{ intros y Hy Sy. apply grant_selected_true in Hs as [E1 _]. apply grant_selected_true in Sy as [E2 _].
      eapply (NoDup_key_eq pg_id); [done..|congruence]. }
  cbn. rewrite He, Ha, !bool_decide_eq_true_2 by done. cbn.
  rewrite (find_unique _ _ profile); [|done| |].
  - cbn. rewrite Hn, bool_decide_eq_true_2, Hc1, Hc2 by done. cbn.
    rewrite collect_conflicts_eq by (cbn; lia). cbn [length app]. rewrite N.add_0_l, Nat.sub_0_r.
    unfold conflict_rejection. destruct (all_conflicts _ _) as [|[] l]; done.
  - rewrite Hen, bool_decide_eq_true_2 by congruence. done.
  - intros y Hy Sy. bool_hyps. eapply (NoDup_key_eq (profile_id ∘ pd_reference)); [done..|].
    cbn. congruence.
Qed.

Lemma resolve_Ok_covered grant :
  resolve registry current_epoch request caller native = Ok grant → covered grant.
Proof.
  unfold resolve. intros H. apply bind_Ok in H as (g & Hg & H). apply ok_or_Ok in Hg.
  apply find_some in Hg as [Hg Hs]. apply bind_Ok in H as (u1 & H1 & H).
  apply bind_Ok in H as (u2 & H2 & H). apply bind_Ok in H as (p & Hp & H).
  apply ok_or_Ok in Hp. apply find_some in Hp as [Hp Hps].
  apply bind_Ok in H as (u3 & H3 & H). apply bind_Ok in H as (u4 & H4 & H).
  destruct (collect_conflicts _ _ _ _) as [c k]. destruct (as_slice c) as [|[] ?]; [|done].
  injection H as <-. rewrite guard_err_Ok in *. bool_hyps.
  split_and!; [by apply list_elem_of_In|done..| |congruence|congruence].
  exists p. split_and!; [by apply list_elem_of_In|done..].
Qed.

(** Whatever stands in the way before the requirements are looked at is one code
    without conflicts. *)
Lemma resolve_uncovered :
  (∀ grant, ¬ covered grant) →
  ∃ code, resolve registry current_epoch request caller native = Err (AdmissionRejection_single code).
Proof.
  intros Hn. unfold resolve.
  destruct (List.find (grant_selected request caller) _) as [g|] eqn:Eg; cbn; [|by eexists].
  apply find_some in Eg as [Hg%list_elem_of_In Hs].
  destruct (bool_decide (current_epoch = _)) eqn:He; cbn; [|by eexists].
  destruct (bool_decide (pg_profile g = _)) eqn:Ha; cbn; [|by eexists].
  destruct (List.find _ (as_slice (pr_profiles registry))) as [p|] eqn:Ep; cbn; [|by eexists].
  apply find_some in Ep as [Hp%list_elem_of_In Hps].
  destruct (bool_decide (pd_profile p = native)) eqn:Hx; cbn; [|by eexists].
  destruct (ceiling_contains (pg_ceiling g) _) eqn:E1; cbn; [|by eexists].
  destruct (ceiling_contains (ceiling request) _) eqn:E2; cbn; [|by eexists].
  exfalso. apply (Hn g). bool_hyps. split_and!; [done..| |done|congruence]. exists p. by split_and!.
Qed.

Lemma resolve_admitted sha256_hash grant :
  registry_valid sha256_hash registry →
  resolve registry current_epoch request caller native = Ok grant ↔
  admitted registry current_epoch request caller native grant.
Proof.
  intros Hv. rewrite admitted_covered. split.
  - intros H. pose proof (resolve_Ok_covered _ H) as Hc. split; [done|].
    rewrite (resolve_covered _ _ Hv Hc) in H. by destruct conflict_rejection.
  - intros [Hc Hn]. by rewrite (resolve_covered _ _ Hv Hc), Hn.
Qed.
End resolve.

(** C29: under a valid registry, [resolve] grants a request exactly when the
    administrator's grant covers it: the enabled grant it names, at the revision
    it names, lists the authenticated caller and the plan; the epoch is current;
    the profile is the enabled native one; the ceilings nest; and the profile can
    meet every requirement.  When only requirements stand in the way, the
    rejection names them in identifier order: the first sixteen, and how many
    more there are.  When anything else does, it is a single code with an empty
    list of conflicts and none remaining. *)
Theorem resolve_decides sha256_hash registry current_epoch request caller native :
  registry_validate sha256_hash registry = Ok () →
  (∀ grant, resolve registry current_epoch request caller native = Ok grant ↔
     admitted registry current_epoch request caller native grant) ∧
  (∀ grant e, covered registry current_epoch request caller native grant →
     resolve registry current_epoch request caller native = Err e ↔
     conflict_rejection request native = Some e) ∧
  ((∀ grant, ¬ covered registry current_epoch request caller native grant) →
     ∃ code, resolve registry current_epoch request caller native =
       Err {| ad_code := code; ad_conflicts := []; ad_remaining_conflicts := 0 |}).
Proof.
  intros Hv%registry_validate_Ok. split; [|split].
  - intros grant. by apply (resolve_admitted _ _ _ _ _ sha256_hash).
  - intros grant e Hc. rewrite (resolve_covered _ _ _ _ _ _ _ Hv Hc).
    destruct (conflict_rejection _ _); naive_solver.
  - apply resolve_uncovered.
Qed.

(** ** What the registry digest binds *)

Definition caller_wf (caller : CallerSelector) : Prop :=
  match caller with
  | Caller_Linux uid => uid < 2 ^ 32
  | Caller_Windows sid => str_len (text sid) <= 184
  end.
Definition reference_wf (r : ProfileRef) : Prop := id_wf (profile_id r) ∧ sha_wf (profile_semantic_digest r).

Record grant_wf (grant : PolicyGrantV1) : Prop := {
  gw_id : id_wf (pg_id grant);
  gw_revision : pg_revision grant < 2 ^ 64;
  gw_profile : reference_wf (pg_profile grant);
  gw_callers : (length (as_slice (pg_callers grant)) <= CALLERS_PER_GRANT)%nat;
  gw_callers_wf : Forall caller_wf (as_slice (pg_callers grant));
  gw_plans : (length (as_slice (pg_approved_plans grant)) <= PLANS_PER_GRANT)%nat;
  gw_plans_wf : Forall sha_wf (as_slice (pg_approved_plans grant))
}.

Record registry_wf (self : RuntimePolicyRegistry) : Prop := {
  rw_profiles : (length (as_slice (pr_profiles self)) <= PROFILES)%nat;
  rw_profiles_wf : Forall (reference_wf ∘ pd_reference) (as_slice (pr_profiles self));
  rw_grants : (length (as_slice (pr_grants self)) <= GRANTS)%nat;
  rw_grants_wf : Forall grant_wf (as_slice (pr_grants self))
}.

(** The bytes of a caller of the wire's widths. *)
Definition caller_code (caller : CallerSelector) : list u8 :=
  match caller with
  | Caller_Linux uid => byte 1 :: be_bytes 4 uid
  | Caller_Windows sid => byte 2 :: be_bytes 2 (str_len (text sid)) ++ bytes (text sid)
  end.

Lemma callers_bytes_code callers :
  Forall caller_wf callers → callers_bytes callers = Ok (caller_code <$> callers).
Proof.
  induction 1 as [|c l Hc H IH]; [done|]. cbn [callers_bytes].
  assert (caller_bytes c = Ok (caller_code c)) as ->.
  { destruct c as [uid|sid]; [done|]. cbn in *. unfold try_from, fits.
    by replace (_ <? _) with true by lia. }
  cbn. by rewrite IH.
Qed.

Lemma caller_code_prefix_free : prefix_free caller_wf caller_code.
Proof.
  intros [u|s] [v|t] r q Hx Hy E; unfold caller_code, caller_wf in *; cbn [app] in E;
    try discriminate E.
  - apply (f_equal (drop 1)) in E. cbn [drop] in E. apply be_bytes_prefix_free in E as [-> ->]; done.
  - apply (f_equal (drop 1)) in E. cbn [drop] in E. rewrite <- !app_assoc in E.
    apply be_bytes_prefix_free in E as [El E]; [|lia..]. rewrite !str_len_bytes in El.
    apply app_inj_1 in E as [E ->]; [|by apply (inj N.of_nat)]. apply bytes_inj in E.
    destruct s, t. simpl in E. by rewrite E.
Qed.

Definition grant_view (g : PolicyGrantV1) :=
  (pg_id g, (pg_revision g, (profile_id (pg_profile g), (profile_semantic_digest (pg_profile g),
  (pg_ceiling g, (pg_enabled g, (sort_by bytes_le (caller_code <$> as_slice (pg_callers g)),
   sort_by plan_le (as_slice (pg_approved_plans g))))))))).

(** Bytes written as they are, each the code of some caller. *)
Lemma codes_callers :
  determines (λ l : list CallerSelector, (length l <= CALLERS_PER_GRANT)%nat ∧ Forall caller_wf l)
    put_callers (λ l, sort_by bytes_le (caller_code <$> l)).
Proof.
  assert (codes (λ bs, ∃ c, caller_wf c ∧ bs = caller_code c) raw) as Hraw.
  { exists (λ bs, bs). split_and!; [intros; apply writes_raw| |done].
    intros x y r s (c & Hc & ->) (d & Hd & ->) E. by apply caller_code_prefix_free in E as [-> ->]. }
  pose proof (codes_list _ _ Hraw) as Hl.
  destruct (determines_comp
    (λ l : list CallerSelector, (length l <= CALLERS_PER_GRANT)%nat ∧ Forall caller_wf l)
    _ _ _ (λ l, sort_by bytes_le (caller_code <$> l)) Hl) as (enc & Hw & Hinj).
  { intros l [Hlen Hf]. rewrite sort_by_perm. rewrite length_fmap. split; [unfold CALLERS_PER_GRANT in *; lia|].
    apply Forall_fmap. eapply Forall_impl; [exact Hf|]. intros c Hc. cbn. eauto. }
  exists enc. split; [|done].
  intros l Hl'. specialize (Hw l Hl'). intros e. specialize (Hw e).
  unfold put_callers. unfold mbind, stM_bind at 1. unfold st_lift.
  by rewrite callers_bytes_code by apply Hl'.
Qed.

Lemma codes_plans :
  determines (λ l, (length l <= PLANS_PER_GRANT)%nat ∧ Forall sha_wf l) put_plans (sort_by plan_le).
Proof.
  eapply (determines_comp _ _ _ _ (sort_by plan_le) (codes_list _ _ codes_digest)).
  intros l [Hl Hf]. rewrite sort_by_perm. unfold PLANS_PER_GRANT in *. split; [lia|done].
Qed.

Lemma codes_grant : determines grant_wf put_grant grant_view.
Proof.
  unfold put_grant, grant_view.
  repeat apply determines_bind.
  - by apply (determines_comp _ _ _ _ pg_id codes_id); intros ? [].
  - by apply (determines_comp _ _ _ _ pg_revision codes_u64); intros ? [].
  - by apply (determines_comp _ _ _ _ (profile_id ∘ pg_profile) codes_id); intros ? [? ? []].
  - by apply (determines_comp _ _ _ _ (profile_semantic_digest ∘ pg_profile) codes_digest); intros ? [? ? []].
  - by apply (determines_comp _ _ _ _ pg_ceiling codes_ceiling).
  - by apply (determines_comp _ _ _ _ pg_enabled codes_bool).
  - by apply (determines_comp _ _ _ _ (as_slice ∘ pg_callers) codes_callers); intros ? [].
  - by apply (determines_comp _ _ _ _ (as_slice ∘ pg_approved_plans) codes_plans); intros ? [].
Qed.

Lemma codes_profile :
  determines (reference_wf ∘ pd_reference) put_profile (λ p, (pd_reference p, pd_enabled p)).
Proof.
  unfold put_profile. eapply determines_ext.
  - apply determines_bind; [|apply determines_bind].
    + by apply (determines_comp _ _ _ _ (profile_id ∘ pd_reference) codes_id); intros ? [].
    + by apply (determines_comp _ _ _ _ (profile_semantic_digest ∘ pd_reference) codes_digest); intros ? [].
    + by apply (determines_comp _ _ _ _ pd_enabled codes_bool).
  - intros [? [] ?] [? [] ?] _ _. cbn. split; intros; by simplify_eq.
Qed.

(** [put ≫= rest] nests to the left in [determines_bind] and to the right in the source. *)
Lemma determines_assoc {A B} (P : A → Prop) (p1 p2 p3 : A → stM Encoder string ()) (f : A → B) :
  determines P (λ x, (p1 x ≫= λ _, p2 x) ≫= λ _, p3 x) f →
  determines P (λ x, p1 x ≫= λ _, p2 x ≫= λ _, p3 x) f.
Proof.
  intros (enc & Hw & Hd). exists enc. split; [|done]. intros x Hx e. specialize (Hw x Hx e).
  unfold mbind, stM_bind in *. by destruct (p1 x e) as [? []].
Qed.

Lemma codes_registry :
  determines registry_wf put_registry
    (λ r, ((λ p, (pd_reference p, pd_enabled p)) <$> sort_by profile_le (as_slice (pr_profiles r)),
           (grant_view <$> sort_by grant_le (as_slice (pr_grants r)),
            pr_active_attempt_disposition r))).
Proof.
  unfold put_registry. apply determines_assoc, determines_bind.
  - apply (determines_comp _ _ _ _ (λ r, sort_by profile_le (as_slice (pr_profiles r)))
      (determines_list _ _ _ codes_profile)).
    intros r []. rewrite !sort_by_perm. unfold PROFILES in *. split; [lia|done].
  - apply determines_assoc, determines_bind.
    + apply (determines_comp _ _ _ _ (λ r, sort_by grant_le (as_slice (pr_grants r)))
        (determines_list _ _ _ codes_grant)).
      intros r []. rewrite !sort_by_perm. unfold GRANTS in *. split; [lia|done].
    + apply determines_tag; [by intros []|by intros [] []].
Qed.

(** Two grants that differ at most in the order of their sets. *)
Record grant_same (g h : PolicyGrantV1) : Prop := {
  gs_id : pg_id g = pg_id h;
  gs_revision : pg_revision g = pg_revision h;
  gs_profile : pg_profile g = pg_profile h;
  gs_ceiling : pg_ceiling g = pg_ceiling h;
  gs_enabled : pg_enabled g = pg_enabled h;
  gs_callers : as_slice (pg_callers g) ≡ₚ as_slice (pg_callers h);
  gs_plans : as_slice (pg_approved_plans g) ≡ₚ as_slice (pg_approved_plans h)
}.

(** Two registries that list the same profiles and grants, by identifier. *)
Definition registry_same (r s : RuntimePolicyRegistry) : Prop :=
  sort_by profile_le (as_slice (pr_profiles r)) = sort_by profile_le (as_slice (pr_profiles s)) ∧
  Forall2 grant_same (sort_by grant_le (as_slice (pr_grants r)))
    (sort_by grant_le (as_slice (pr_grants s))) ∧
  pr_active_attempt_disposition r = pr_active_attempt_disposition s.

Lemma caller_codes_perm l1 l2 :
  Forall caller_wf l1 → Forall caller_wf l2 → caller_code <$> l1 ≡ₚ caller_code <$> l2 → l1 ≡ₚ l2.
Proof.
  intros H1. revert l2. induction H1 as [|c l1 Hc H1 IH]; intros l2 H2 Hp.
  { apply Permutation_nil in Hp. by destruct l2. }
  assert (caller_code c ∈ caller_code <$> l2) as Hin by (rewrite <- Hp; constructor).
  apply list_elem_of_fmap in Hin as (d & E & Hd).
  assert (c = d) as <-.
  { assert (caller_wf d) by (by eapply Forall_forall).
    destruct (caller_code_prefix_free c d [] []); [done|done|by rewrite E|done]. }
  apply list_elem_of_split in Hd as (la & lb & ->).
  rewrite <- Permutation_middle. constructor. apply IH.
  - apply Forall_app in H2 as [? ?%Forall_cons]. apply Forall_app. naive_solver.
  - rewrite <- Permutation_middle, !fmap_cons in Hp. by apply Permutation_cons_inv in Hp.
Qed.

Lemma grant_view_same g h : grant_wf g → grant_wf h → grant_view g = grant_view h → grant_same g h.
Proof.
  intros [] [] E. unfold grant_view in E.
  assert (∀ {A} (le : A → A → bool) l1 l2, sort_by le l1 = sort_by le l2 → l1 ≡ₚ l2) as Hs.
  { intros A le l1 l2 H. by rewrite <- (sort_by_perm le l1), H, sort_by_perm. }
  injection E as E1 E2 E3 E4 E5 E6 E7 E8. apply Hs in E7, E8. constructor; try done.
  - destruct (pg_profile g), (pg_profile h). simpl in *. congruence.
  - by apply caller_codes_perm.
Qed.

Lemma bytes_le_total a b : bytes_le a b = true ∨ bytes_le b a = true.
Proof. revert b. induction a as [|x a IH]; intros [|y b]; cbn; auto. destruct (IH b); lia. Qed.
Lemma bytes_le_antisym a b : bytes_le a b = true → bytes_le b a = true → a = b.
Proof.
  revert b. induction a as [|x a IH]; intros [|y b]; cbn; try done. intros H1 H2.
  assert (N_of_ascii x = N_of_ascii y) as E by lia.
  rewrite <- (ascii_N_embedding x), <- (ascii_N_embedding y), E. f_equal. apply IH; lia.
Qed.
Lemma bytes_le_trans a b c : bytes_le a b = true → bytes_le b c = true → bytes_le a c = true.
Proof.
  revert b c. induction a as [|x a IH]; intros [|y b] [|z c]; cbn; try done. intros H1 H2.
  destruct (N.lt_total (N_of_ascii x) (N_of_ascii z)) as [?|[E|?]]; [lia| |lia].
  rewrite (IH b c) by lia. lia.
Qed.

Lemma grant_same_view g h : grant_same g h → grant_view g = grant_view h.
Proof.
  intros [E1 E2 E3 E4 E5 Hc Hp]. unfold grant_view. rewrite E1, E2, E3, E4, E5. do 6 f_equal.
  rewrite (sort_by_unique bytes_le bytes_le_total bytes_le_trans _ (caller_code <$> as_slice (pg_callers h))).
  - f_equal. apply sort_by_unique; [intros; apply bytes_le_total|intros ? ? ?; apply bytes_le_trans|done|].
    intros [x] [y] _ _ H1 H2. f_equal. by apply bytes_le_antisym.
  - by rewrite Hc.
  - intros; by apply bytes_le_antisym.
Qed.

Lemma baseline_reference_inj sha256_hash a b :
  baseline_reference sha256_hash a = baseline_reference sha256_hash b → a = b.
Proof. intros E. apply (f_equal (id_str ∘ profile_id)) in E. by destruct a, b. Qed.

Definition registry_encoding (r : RuntimePolicyRegistry) : result string (list u8) :=
  encode_limited REGISTRY_BYTES (domain "memcordon.local-policy/revision1") (put_registry r).

Lemma registry_encoding_same sha256_hash r s bs :
  registry_wf r → registry_wf s → registry_valid sha256_hash r → registry_valid sha256_hash s →
  registry_encoding r = Ok bs → registry_encoding s = Ok bs → registry_same r s.
Proof.
  intros Hr Hs Vr Vs Er Es.
  pose proof (determines_encode _ _ _ _ _ _ _ _ codes_registry Hr Hs Er Es) as E.
  injection E as Ep Eg Ed. split_and!; [| |done].
  - assert (∀ l1 l2 : list RuntimeProfileDefinition,
      Forall (λ p, pd_reference p = baseline_reference sha256_hash (pd_profile p)) l1 →
      Forall (λ p, pd_reference p = baseline_reference sha256_hash (pd_profile p)) l2 →
      (λ p, (pd_reference p, pd_enabled p)) <$> l1 = (λ p, (pd_reference p, pd_enabled p)) <$> l2 →
      l1 = l2) as Hl.
    { intros l1 l2 H1. revert l2. induction H1 as [|p l1 Hp H1 IH]; intros [|q l2] H2 E; try done.
      inversion H2; subst. rewrite !fmap_cons in E. injection E as E1 E2 E3.
      rewrite (IH l2) by done. f_equal. destruct p as [a ra ea], q as [b rb eb]. simpl in *. subst eb.
      assert (a = b) as -> by (eapply (baseline_reference_inj sha256_hash); congruence). congruence. }
    apply Hl; [rewrite sort_by_perm; by destruct Vr|rewrite sort_by_perm; by destruct Vs|done].
  - pose proof (rw_grants_wf _ Hr) as Fr. pose proof (rw_grants_wf _ Hs) as Fs.
    rewrite <- (sort_by_perm grant_le) in Fr, Fs. revert Eg Fr Fs.
    generalize (sort_by grant_le (as_slice (pr_grants r))) as l1.
    generalize (sort_by grant_le (as_slice (pr_grants s))) as l2. clear.
    intros l2 l1. revert l2. induction l1 as [|g l1 IH]; intros [|h l2] E F1 F2; try done.
    rewrite !fmap_cons in E. injection E as Eh Et. inversion F1; inversion F2; subst.
    constructor; [|by apply IH]. apply grant_view_same; [done..|]. unfold grant_view; congruence.
Qed.

(** The registry digest names a registry up to the order of its sets: valid
    registries that list the same profiles and grants have the same digest, and
    two valid registries with one digest list the same ones, or exhibit two byte
    strings that collide under SHA-256. *)
Theorem registry_digest_binds sha256_hash r s d :
  registry_wf r → registry_wf s → registry_valid sha256_hash r → registry_valid sha256_hash s →
  registry_digest sha256_hash r = Ok d →
  (registry_same r s → registry_digest sha256_hash s = Ok d) ∧
  (registry_digest sha256_hash s = Ok d →
   registry_same r s ∨
   ∃ b1 b2, registry_encoding r = Ok b1 ∧ registry_encoding s = Ok b2 ∧ b1 ≠ b2 ∧
     sha256_hash b1 = sha256_hash b2).
Proof.
  intros Hr Hs Vr Vs. pose proof Vr as Vr'. pose proof Vs as Vs'.
  apply registry_validate_Ok in Vr', Vs'. unfold registry_digest. rewrite Vr', Vs'. cbn [mbind result_bind].
  fold (registry_encoding r) (registry_encoding s).
  destruct (registry_encoding r) as [b1|] eqn:Er; [|done]. cbn. intros [= <-]. split.
  - intros (Ep & Eg & Ed). unfold registry_encoding in *.
    erewrite (determines_same _ _ _ _ _ r s b1 codes_registry); [done|done|done| |done].
    rewrite Ep, Ed. do 2 f_equal. clear -Eg.
    induction Eg as [|g h l1 l2 Hg _ IH]; [done|]. rewrite !fmap_cons. by rewrite (grant_same_view g h), IH.
  - destruct (registry_encoding s) as [b2|] eqn:Es; [|done]. cbn. intros E. injection E as E.
    destruct (decide (b1 = b2 :> list u8)) as [->|Hne].
    + left. by eapply registry_encoding_same.
    + right. by exists b1, b2.
Qed.

(** ** A registry with one grant *)

Module RegistryExamples.

(** A stand-in for SHA-256: the first thirty-two bytes. *)
Definition hash (bs : list u8) : list u8 := take 32 (bs ++ replicate 32 NUL).
Definition plan : DiagnosticSha256 := sha256 (replicate 32 "p"%char).
Definition nonce : Nonce128 := nonce128 (replicate 16 "n"%char).
Definition epoch : PolicyEpoch := {| service_instance := nonce; revision := 1 |}.
Definition linux : ProfileRef := baseline_reference hash LinuxUnixCreate.
Definition grant (callers : list CallerSelector) : PolicyGrantV1 :=
  {| pg_id := logical_id "g"; pg_revision := 3; pg_profile := linux;
     pg_ceiling := baseline_ceiling LinuxUnixCreate; pg_enabled := true;
     pg_callers := callers; pg_approved_plans := [plan] |}.
Definition registry (callers : list CallerSelector) : RuntimePolicyRegistry :=
  {| pr_format := "memcordon.local-policy"; pr_revision := 1;
     pr_profiles := [{| pd_profile := LinuxUnixCreate; pd_reference := linux; pd_enabled := true |}];
     pr_grants := [grant callers]; pr_active_attempt_disposition := DrainExisting |}.
Definition request (requirements : list RequirementV1) : WorkloadContractV1 :=
  {| workload_plan_digest := plan; authorized_profile := linux;
     authorization := {| grant_id := logical_id "g"; grant_revision := 3; approved_plan_digest := plan |};
     ceiling := baseline_ceiling LinuxUnixCreate; WorkloadContract.requirements := requirements;
     endpoints := []; expected_epoch := epoch |}.
Definition alice : CallerSelector := Caller_Linux 1000.
Definition bob : CallerSelector := Caller_Linux 1001.

(** A requirement the profile meets, and one it does not. *)
Definition unix_socket : RequirementV1 := UnixSocketCreation (logical_id "u") Stream.
Definition import : RequirementV1 := DenialExercise (logical_id "d") ExternalSocketImport.

Lemma registry_wf_sample callers :
  Forall caller_wf callers → (length callers <= 4)%nat → registry_wf (registry callers).
Proof.
  intros H1 H2. assert (reference_wf linux) by (by split).
  constructor; cbn; [unfold PROFILES; lia|by apply Forall_singleton|unfold GRANTS; lia|].
  apply Forall_singleton. constructor; cbn; try done; [unfold PLANS_PER_GRANT; lia|].
  by apply Forall_singleton.
Qed.
Lemma registry_valid_sample callers :
  registry_validate hash (registry callers) = Ok () → registry_valid hash (registry callers).
Proof. apply registry_validate_Ok. Qed.
End RegistryExamples.

Lemma resolve_decides_witness :
  admitted (RegistryExamples.registry [RegistryExamples.alice]) RegistryExamples.epoch
    (RegistryExamples.request [RegistryExamples.unix_socket]) RegistryExamples.alice LinuxUnixCreate
    (RegistryExamples.grant [RegistryExamples.alice]) ∧
  ¬ admitted (RegistryExamples.registry [RegistryExamples.alice]) RegistryExamples.epoch
    (RegistryExamples.request [RegistryExamples.import]) RegistryExamples.alice LinuxUnixCreate
    (RegistryExamples.grant [RegistryExamples.alice]).
Proof.
  split.
  - apply (resolve_decides RegistryExamples.hash); vm_compute; reflexivity.
  - intros H. apply (resolve_decides RegistryExamples.hash) in H; [|vm_compute; reflexivity].
    vm_compute in H. discriminate.
Defined.

Lemma registry_digest_binds_witness :
  registry_digest RegistryExamples.hash
    (RegistryExamples.registry [RegistryExamples.bob; RegistryExamples.alice]) =
  registry_digest RegistryExamples.hash
    (RegistryExamples.registry [RegistryExamples.alice; RegistryExamples.bob]).
Proof.
  destruct (registry_digest RegistryExamples.hash
    (RegistryExamples.registry [RegistryExamples.alice; RegistryExamples.bob])) as [d|] eqn:E;
    [|vm_compute in E; discriminate].
  apply (proj1 (registry_digest_binds RegistryExamples.hash
    (RegistryExamples.registry [RegistryExamples.alice; RegistryExamples.bob])
    (RegistryExamples.registry [RegistryExamples.bob; RegistryExamples.alice]) d
    ltac:(apply RegistryExamples.registry_wf_sample; [by repeat constructor|simpl; lia])
    ltac:(apply RegistryExamples.registry_wf_sample; [by repeat constructor|simpl; lia])
    ltac:(apply RegistryExamples.registry_valid_sample; vm_compute; reflexivity)
    ltac:(apply RegistryExamples.registry_valid_sample; vm_compute; reflexivity) E)).
  split_and!; [done| |done]. constructor; [|constructor]. constructor; [done..| |done].
  apply Permutation_swap.
Defined.
