(* ===== verification/RegistryV2.v ===== *)
(** * Private policy registry

    memcordon-core/src/workload_registry_v2.rs: the registry of the private
    Linux profile, its execution identities, its canonical bytes, [resolve_v2],
    and the projection that keeps serving version-one requests.  SHA-256 is the
    parameter [sha256_hash]. *)

From S2P Require Import Prelude Decimal Bounded Codec WorkloadContract WorkloadCodec EncoderLaws Registry.
From Stdlib Require Import Ascii.
#[local] Open Scope N_scope.

Definition EXECUTION_IDENTITIES : nat := 32.
Definition GROUPS_PER_IDENTITY : nat := 32.
Definition ENTRYPOINTS_PER_IDENTITY : nat := 8.
Definition ENTRYPOINT_PATH_BYTES : N := 4096.

Inductive ProfileKindV2 : Type := LinuxUnixCreateV1 | LinuxTcp4PrivateV1.
#[global] Instance ProfileKindV2_eq_dec : EqDecision ProfileKindV2.
Proof. solve_decision. Defined.
#[global] Instance ExecutionIdentityRefV2_eq_dec : EqDecision ExecutionIdentityRefV2.
Proof. solve_decision. Defined.
#[global] Instance ExecutionIdentityRequestV2_eq_dec : EqDecision ExecutionIdentityRequestV2.
Proof. solve_decision. Defined.

Definition kind_id (self : ProfileKindV2) : LogicalId :=
  match self with
  | LinuxUnixCreateV1 => baseline_id LinuxUnixCreate
  | LinuxTcp4PrivateV1 => logical_id "linux-tcp4-private-v1"
  end.

Definition kind_ceiling (self : ProfileKindV2) : NetworkCeilingV1 :=
  match self with
  | LinuxUnixCreateV1 => baseline_ceiling LinuxUnixCreate
  | LinuxTcp4PrivateV1 =>
      {| direct_socket_authority := AttemptPrivateIpv4StackAllPorts;
         unix_authority := NoNamedEndpointsSocketPairsOnly;
         external_socket_custody := NoSocketAtTargetEntry;
         credential_gains := NoGain;
         mediated_communication := ExternalFilesystemAndStdioPolicyAccepted |}
  end.

Definition private_body : stM Encoder string () :=
  put_id (kind_id LinuxTcp4PrivateV1) ≫= λ _,
  encode_ceiling (kind_ceiling LinuxTcp4PrivateV1) ≫= λ _,
  st_for put_byte [1; 1; 1; 1] ≫= λ _,
  st_for put_u64 [0; 32768; 60999] ≫= λ _,
  put_count 0.

(** The encoder's [expect]s never fire: see [private_bytes_encoded]. *)
Definition private_bytes : list u8 :=
  match encode_limited CONTRACT_BYTES (domain "profile-definition-v2") private_body with
  | Ok bs => bs
  | Err _ => []
  end.
Lemma private_bytes_encoded :
  encode_limited CONTRACT_BYTES (domain "profile-definition-v2") private_body = Ok private_bytes.
Proof. reflexivity. Qed.

Record ApprovedEntrypointV2 : Type := {
  ep_id : LogicalId;
  ep_absolute_path : BoundedText ENTRYPOINT_PATH_BYTES;
  ep_sha256 : DiagnosticSha256;
  ep_size : N
}.

Record LinuxExecutionIdentityV2 : Type := {
  xi_reference : ExecutionIdentityRefV2;
  xi_enabled : bool;
  xi_uid : N;
  xi_gid : N;
  xi_supplementary_groups : BoundedVec N GROUPS_PER_IDENTITY;
  xi_entrypoints : BoundedVec ApprovedEntrypointV2 ENTRYPOINTS_PER_IDENTITY
}.

Record RuntimePrivateProfileDefinition : Type := {
  qd_profile : ProfileKindV2;
  qd_reference : ProfileRef;
  qd_enabled : bool
}.

Record PolicyGrantV2 : Type := {
  qg_id : LogicalId;
  qg_revision : N;
  qg_profile : ProfileRef;
  qg_ceiling : NetworkCeilingV1;
  qg_enabled : bool;
  qg_callers : BoundedVec CallerSelector CALLERS_PER_GRANT;
  qg_approved_plans : BoundedVec DiagnosticSha256 PLANS_PER_GRANT;
  qg_execution_identity : ExecutionIdentityRequestV2
}.

Record RuntimePrivatePolicyRegistry : Type := {
  qr_format : string;
  qr_revision : N;
  qr_profiles : BoundedVec RuntimePrivateProfileDefinition PROFILES;
  qr_execution_identities : BoundedVec LinuxExecutionIdentityV2 EXECUTION_IDENTITIES;
  qr_grants : BoundedVec PolicyGrantV2 GRANTS;
  qr_active_attempt_disposition : GrantChangeDisposition
}.

(** ** Execution identities *)

Definition path_part_invalid (part : string) : bool :=
  str_is_empty part || (part ≟ "."%string) || (part ≟ ".."%string).

Definition path_invalid (path : string) : bool :=
  negb (starts_with "/" path)
  || (path ≟ "/"%string)
  || str_contains NUL path
  || existsb path_part_invalid (drop 1 (split "/" path)).

Fixpoint validate_groups (prior rest : list N) : result string () :=
  match rest with
  | [] => Ok ()
  | group :: rest =>
      guard_err (bool_decide (group ∈ prior)) "duplicate supplementary group"%string ;;
      validate_groups (prior ++ [group]) rest
  end.

Fixpoint validate_entrypoints (prior rest : list ApprovedEntrypointV2) : result string () :=
  match rest with
  | [] => Ok ()
  | entrypoint :: rest =>
      guard_err (path_invalid (text (ep_absolute_path entrypoint))
                 || existsb (λ p, ep_id p ≟ ep_id entrypoint) prior)
        "invalid or duplicate approved entrypoint"%string ;;
      validate_entrypoints (prior ++ [entrypoint]) rest
  end.

Definition validate_fields (self : LinuxExecutionIdentityV2) : result string () :=
  guard_err (bool_decide (as_slice (xi_entrypoints self) = []))
    "execution identity has no approved entrypoint"%string ;;
  validate_groups [] (as_slice (xi_supplementary_groups self)) ;;
  validate_entrypoints [] (as_slice (xi_entrypoints self)).

Definition entrypoint_le (a b : ApprovedEntrypointV2) : bool := id_le (ep_id a) (ep_id b).

Definition put_groups (groups : list N) : stM Encoder string () :=
  let groups := sort_by N.leb groups in
  put_count (N.of_nat (length groups)) ≫= λ _, st_for put_u64 groups.

Definition put_entrypoint (e : ApprovedEntrypointV2) : stM Encoder string () :=
  put_id (ep_id e) ≫= λ _,
  put_count (str_len (text (ep_absolute_path e))) ≫= λ _,
  raw (bytes (text (ep_absolute_path e))) ≫= λ _,
  put_u64 (ep_size e) ≫= λ _,
  put_digest (ep_sha256 e).

Definition put_entrypoints (entrypoints : list ApprovedEntrypointV2) : stM Encoder string () :=
  let entrypoints := sort_by entrypoint_le entrypoints in
  put_count (N.of_nat (length entrypoints)) ≫= λ _, st_for put_entrypoint entrypoints.

Definition identity_body (self : LinuxExecutionIdentityV2) : stM Encoder string () :=
  put_id (identity_id (xi_reference self)) ≫= λ _,
  put_u64 (xi_uid self) ≫= λ _,
  put_u64 (xi_gid self) ≫= λ _,
  put_groups (as_slice (xi_supplementary_groups self)) ≫= λ _,
  put_entrypoints (as_slice (xi_entrypoints self)).

Section registry.
  Context (sha256_hash : list u8 → list u8).

Definition kind_reference (self : ProfileKindV2) : ProfileRef :=
  match self with
  | LinuxUnixCreateV1 => baseline_reference sha256_hash LinuxUnixCreate
  | LinuxTcp4PrivateV1 =>
      {| profile_id := kind_id self; profile_semantic_digest := hash_bytes sha256_hash private_bytes |}
  end.

Definition identity_digest (self : LinuxExecutionIdentityV2) : result string DiagnosticSha256 :=
  validate_fields self ≫= λ _,
  hash_bytes sha256_hash <$>
    encode_limited REGISTRY_BYTES (domain "execution-identity-v2") (identity_body self).

Definition identity_validate (self : LinuxExecutionIdentityV2) : result string () :=
  digest ← identity_digest self;
  guard_err (digest ≠? identity_semantic_digest (xi_reference self))
    "execution identity semantic digest differs"%string.

(** ** Validation *)

Fixpoint validate_profiles_v2 (prior rest : list RuntimePrivateProfileDefinition) : result string () :=
  match rest with
  | [] => Ok ()
  | profile :: rest =>
      guard_err
        ((qd_reference profile ≠? kind_reference (qd_profile profile))
         || existsb (λ p, profile_id (qd_reference p) ≟ profile_id (qd_reference profile)) prior)
        "invalid or duplicate V2 profile definition"%string ;;
      validate_profiles_v2 (prior ++ [profile]) rest
  end.

Fixpoint validate_identities (prior rest : list LinuxExecutionIdentityV2) : result string () :=
  match rest with
  | [] => Ok ()
  | identity :: rest =>
      identity_validate identity ;;
      guard_err (existsb (λ p, identity_id (xi_reference p) ≟ identity_id (xi_reference identity)) prior)
        "duplicate execution identity"%string ;;
      validate_identities (prior ++ [identity]) rest
  end.

Fixpoint validate_callers_v2 (prior rest : list CallerSelector) : result string () :=
  match rest with
  | [] => Ok ()
  | caller :: rest =>
      guard_err (negb (match caller with Caller_Linux _ => true | Caller_Windows _ => false end)
                 || bool_decide (caller ∈ prior))
        "V2 caller must be a unique Linux identity"%string ;;
      validate_callers_v2 (prior ++ [caller]) rest
  end.

Definition grant_identity_check (profiles : list RuntimePrivateProfileDefinition)
    (identities : list LinuxExecutionIdentityV2) (grant : PolicyGrantV2) : result string () :=
  match qg_execution_identity grant with
  | PreserveCaller => Ok ()
  | AdministratorProfile reference =>
      guard_err (negb (existsb (λ identity, (xi_reference identity ≟ reference)
                                            && (negb (qg_enabled grant) || xi_enabled identity)) identities))
        "V2 grant execution identity is absent or disabled"%string ;;
      guard_err (negb (existsb (λ profile, (qd_reference profile ≟ qg_profile grant)
                                           && (qd_profile profile ≟ LinuxTcp4PrivateV1)) profiles))
        "delegated identity requires private Linux profile"%string
  end.

Definition grant_profile_known_v2 (profiles : list RuntimePrivateProfileDefinition)
    (grant : PolicyGrantV2) : bool :=
  existsb (λ profile, (qd_reference profile ≟ qg_profile grant)
                      && ceiling_contains (qg_ceiling grant) (kind_ceiling (qd_profile profile)))
    profiles.

Fixpoint validate_grants_v2 (profiles : list RuntimePrivateProfileDefinition)
    (identities : list LinuxExecutionIdentityV2) (prior rest : list PolicyGrantV2) : result string () :=
  match rest with
  | [] => Ok ()
  | grant :: rest =>
      guard_err
        (existsb (λ p, qg_id p ≟ qg_id grant) prior
         || bool_decide (as_slice (qg_callers grant) = [])
         || bool_decide (as_slice (qg_approved_plans grant) = [])
         || negb (grant_profile_known_v2 profiles grant))
        "invalid V2 grant identity, profile or selectors"%string ;;
      validate_callers_v2 [] (as_slice (qg_callers grant)) ;;
      validate_plans "duplicate V2 approved plan" [] (as_slice (qg_approved_plans grant)) ;;
      grant_identity_check profiles identities grant ;;
      validate_grants_v2 profiles identities (prior ++ [grant]) rest
  end.

Definition registry_validate_v2 (self : RuntimePrivatePolicyRegistry) : result string () :=
  guard_err ((qr_format self ≠? "memcordon.local-private-policy"%string) || negb (qr_revision self =? 1))
    "local private policy format differs"%string ;;
  validate_profiles_v2 [] (as_slice (qr_profiles self)) ;;
  validate_identities [] (as_slice (qr_execution_identities self)) ;;
  validate_grants_v2 (as_slice (qr_profiles self)) (as_slice (qr_execution_identities self)) []
    (as_slice (qr_grants self)).

(** ** Canonical bytes *)

Definition private_profile_le (a b : RuntimePrivateProfileDefinition) : bool :=
  id_le (profile_id (qd_reference a)) (profile_id (qd_reference b)).
Definition identity_le (a b : LinuxExecutionIdentityV2) : bool :=
  id_le (identity_id (xi_reference a)) (identity_id (xi_reference b)).
Definition grant_v2_le (a b : PolicyGrantV2) : bool := id_le (qg_id a) (qg_id b).

Definition put_private_profile (p : RuntimePrivateProfileDefinition) : stM Encoder string () :=
  put_id (profile_id (qd_reference p)) ≫= λ _,
  put_digest (profile_semantic_digest (qd_reference p)) ≫= λ _,
  put_byte (N.b2n (qd_enabled p)).

Definition put_execution_identity (i : LinuxExecutionIdentityV2) : stM Encoder string () :=
  put_id (identity_id (xi_reference i)) ≫= λ _,
  put_digest (identity_semantic_digest (xi_reference i)) ≫= λ _,
  put_byte (N.b2n (xi_enabled i)) ≫= λ _,
  put_u64 (xi_uid i) ≫= λ _,
  put_u64 (xi_gid i) ≫= λ _,
  put_groups (as_slice (xi_supplementary_groups i)) ≫= λ _,
  put_entrypoints (as_slice (xi_entrypoints i)).

(** [unreachable!] for a Windows caller, which a valid registry has not. *)
Definition caller_uid (caller : CallerSelector) : N :=
  match caller with Caller_Linux uid => uid | Caller_Windows _ => 0 end.
Definition put_linux_caller (caller : CallerSelector) : stM Encoder string () :=
  put_byte 1 ≫= λ _, raw (be_bytes 4 (caller_uid caller)).
Definition put_linux_callers (callers : list CallerSelector) : stM Encoder string () :=
  let callers := sort_by (λ a b, caller_uid a <=? caller_uid b) callers in
  put_count (N.of_nat (length callers)) ≫= λ _, st_for put_linux_caller callers.

Definition put_grant_v2 (grant : PolicyGrantV2) : stM Encoder string () :=
  put_id (qg_id grant) ≫= λ _,
  put_u64 (qg_revision grant) ≫= λ _,
  put_id (profile_id (qg_profile grant)) ≫= λ _,
  put_digest (profile_semantic_digest (qg_profile grant)) ≫= λ _,
  encode_ceiling (qg_ceiling grant) ≫= λ _,
  put_byte (N.b2n (qg_enabled grant)) ≫= λ _,
  put_linux_callers (as_slice (qg_callers grant)) ≫= λ _,
  put_plans (as_slice (qg_approved_plans grant)) ≫= λ _,
  put_identity (qg_execution_identity grant).

Definition put_registry_v2 (self : RuntimePrivatePolicyRegistry) : stM Encoder string () :=
  let profiles := sort_by private_profile_le (as_slice (qr_profiles self)) in
  put_count (N.of_nat (length profiles)) ≫= λ _,
  st_for put_private_profile profiles ≫= λ _,
  let identities := sort_by identity_le (as_slice (qr_execution_identities self)) in
  put_count (N.of_nat (length identities)) ≫= λ _,
  st_for put_execution_identity identities ≫= λ _,
  let grants := sort_by grant_v2_le (as_slice (qr_grants self)) in
  put_count (N.of_nat (length grants)) ≫= λ _,
  st_for put_grant_v2 grants ≫= λ _,
  put_byte (disposition_tag (qr_active_attempt_disposition self)).

Definition registry_bytes_v2 (self : RuntimePrivatePolicyRegistry) : result string (list u8) :=
  registry_validate_v2 self ≫= λ _,
  encode_limited REGISTRY_BYTES (domain "memcordon.local-private-policy/revision1") (put_registry_v2 self).
Definition registry_digest_v2 (self : RuntimePrivatePolicyRegistry) : result string DiagnosticSha256 :=
  hash_bytes sha256_hash <$> registry_bytes_v2 self.

(** ** The version-one projection *)

Definition v1_profile (p : RuntimePrivateProfileDefinition) : RuntimeProfileDefinition :=
  {| pd_profile := LinuxUnixCreate; pd_reference := qd_reference p; pd_enabled := qd_enabled p |}.
Definition v1_grant (g : PolicyGrantV2) : PolicyGrantV1 :=
  {| pg_id := qg_id g; pg_revision := qg_revision g; pg_profile := qg_profile g;
     pg_ceiling := qg_ceiling g; pg_enabled := qg_enabled g; pg_callers := qg_callers g;
     pg_approved_plans := qg_approved_plans g |}.

(** [for x in l { if keep(x) { out.try_push(f(x)).map_err(..)?; } }] *)
Fixpoint project {A B n} (keep : A → bool) (f : A → B) (message : string) (out : BoundedVec B n)
    (l : list A) : result string (BoundedVec B n) :=
  match l with
  | [] => Ok out
  | x :: l =>
      if keep x then
        match try_push (f x) out with
        | (out, Ok _) => project keep f message out l
        | (_, Err _) => Err message
        end
      else project keep f message out l
  end.

Definition is_baseline_profile (p : RuntimePrivateProfileDefinition) : bool :=
  qd_profile p ≟ LinuxUnixCreateV1.
Definition is_baseline_grant (g : PolicyGrantV2) : bool :=
  (qg_profile g ≟ baseline_reference sha256_hash LinuxUnixCreate)
  && (qg_execution_identity g ≟ PreserveCaller).

Definition baseline_v1_projection (self : RuntimePrivatePolicyRegistry)
    : result string RuntimePolicyRegistry :=
  registry_validate_v2 self ≫= λ _,
  profiles ← project is_baseline_profile v1_profile "V1 baseline profile projection exceeds bound"
               [] (as_slice (qr_profiles self));
  grants ← project is_baseline_grant v1_grant "V1 baseline grant projection exceeds bound"
             [] (as_slice (qr_grants self));
  let projected :=
    {| pr_format := "memcordon.local-policy"; pr_revision := 1; pr_profiles := profiles;
       pr_grants := grants;
       pr_active_attempt_disposition := qr_active_attempt_disposition self |} in
  registry_validate sha256_hash projected ≫= λ _,
  Ok projected.
End registry.

(** ** Admission *)

Inductive AdmissionCodeV2 : Type :=
| V2_ProfileNotAuthorized | V2_PlanNotApproved | V2_ProfileDigestMismatch | V2_PolicyEpochStale
| V2_PolicyIncompatible | V2_FeatureNotEnforceable | V2_CallerEnvelopeIncompatible
| V2_DescriptorAuthorityIncompatible | V2_HostPrerequisiteUnavailable | V2_EnforcementInstallFailed
| V2_EnforcementReadbackFailed | V2_PolicyDrift | V2_ExecutionIdentityNotAuthorized
| V2_ExecutionIdentityUnavailable | V2_EntrypointAuthorityMismatch.

Record AdmissionConflictV2 : Type := { cf2_requirement : option LogicalId; cf2_code : AdmissionCodeV2 }.
Record AdmissionRejectionV2 : Type := {
  ad2_code : AdmissionCodeV2;
  ad2_conflicts : BoundedVec AdmissionConflictV2 CONFLICTS;
  ad2_remaining_conflicts : N
}.
Definition AdmissionRejectionV2_single (code : AdmissionCodeV2) : AdmissionRejectionV2 :=
  {| ad2_code := code; ad2_conflicts := []; ad2_remaining_conflicts := 0 |}.

Definition requirement_conflict_v2 (native : ProfileKindV2) (r : RequirementV1) : option AdmissionCodeV2 :=
  match native, r with
  | LinuxUnixCreateV1, (UnixSocketCreation _ _ | UnixSocketPair _ _) => None
  | LinuxUnixCreateV1, DenialExercise _ InetSocketCreation => None
  | LinuxTcp4PrivateV1, Tcp _ IpFamily_V4 _ AttemptPrivateStack _ peer =>
      match peer with
      | ExactAddress (TcpEndpoint_V4 address _) =>
          if negb (v4_is_loopback address) then Some V2_PolicyIncompatible else None
      | _ => None
      end
  | LinuxTcp4PrivateV1, DenialExercise _ NamedUnixSocketCreation => None
  | _, Tcp _ _ _ _ _ _ => Some V2_PolicyIncompatible
  | LinuxTcp4PrivateV1, DenialExercise _ InetSocketCreation => Some V2_PolicyIncompatible
  | _, _ => Some V2_FeatureNotEnforceable
  end.

Definition grant_selected_v2 (request : WorkloadContractV2) (caller : CallerSelector)
    (grant : PolicyGrantV2) : bool :=
  (qg_id grant ≟ grant_id (v2_authorization request))
  && (qg_revision grant =? grant_revision (v2_authorization request))
  && qg_enabled grant
  && bool_decide (caller ∈ as_slice (qg_callers grant)).

Definition is_linux_caller (caller : CallerSelector) : bool :=
  match caller with Caller_Linux _ => true | Caller_Windows _ => false end.

Definition resolve_v2 (sha256_hash : list u8 → list u8) (registry : RuntimePrivatePolicyRegistry)
    (current_epoch : PolicyEpoch) (request : WorkloadContractV2) (caller : CallerSelector)
    (native : ProfileKindV2) : result AdmissionRejectionV2 PolicyGrantV2 :=
  let reject := AdmissionRejectionV2_single in
  guard_err (negb (is_ok (registry_validate_v2 sha256_hash registry)) || negb (is_ok (validate_v2 request)))
    (reject V2_PolicyIncompatible) ;;
  guard_err (negb (is_linux_caller caller)) (reject V2_ProfileNotAuthorized) ;;
  grant ← ok_or (reject V2_ProfileNotAuthorized)
            (List.find (grant_selected_v2 request caller) (as_slice (qr_grants registry)));
  guard_err (negb (bool_decide (v2_workload_plan_digest request ∈ as_slice (qg_approved_plans grant)))
             || (approved_plan_digest (v2_authorization request) ≠? v2_workload_plan_digest request))
    (reject V2_PlanNotApproved) ;;
  guard_err (current_epoch ≠? v2_expected_epoch request) (reject V2_PolicyEpochStale) ;;
  guard_err (qg_profile grant ≠? v2_authorized_profile request) (reject V2_ProfileDigestMismatch) ;;
  profile ← ok_or (reject V2_ProfileNotAuthorized)
              (List.find (λ p, (qd_reference p ≟ qg_profile grant) && qd_enabled p)
                 (as_slice (qr_profiles registry)));
  guard_err (qd_profile profile ≠? native) (reject V2_HostPrerequisiteUnavailable) ;;
  guard_err (qg_execution_identity grant ≠? v2_execution_identity request)
    (reject V2_ExecutionIdentityNotAuthorized) ;;
  guard_err
    (match v2_execution_identity request with
     | AdministratorProfile reference =>
         negb (existsb (λ identity, xi_enabled identity && (xi_reference identity ≟ reference))
                 (as_slice (qr_execution_identities registry)))
     | PreserveCaller => false
     end) (reject V2_ExecutionIdentityUnavailable) ;;
  guard_err (negb (ceiling_contains (qg_ceiling grant) (v2_ceiling request))
             || negb (ceiling_contains (v2_ceiling request) (kind_ceiling (qd_profile profile))))
    (reject V2_PolicyIncompatible) ;;
  let '(conflicts, remaining) :=
    collect_conflicts (requirement_conflict_v2 native) [] 0
      (sort_by requirement_le (as_slice (v2_requirements request))) in
  match as_slice conflicts with
  | (_, first) :: _ =>
      Err {| ad2_code := first;
             ad2_conflicts := (λ '(id, code), {| cf2_requirement := Some id; cf2_code := code |})
                                <$> as_slice conflicts;
             ad2_remaining_conflicts := remaining |}
  | [] => Ok grant
  end.

Inductive CandidatePolicyDecisionV2 : Type :=
| Accepted
| Rejected (rejection : AdmissionRejectionV2).

Definition evaluate_candidate_policy_v2 (sha256_hash : list u8 → list u8)
    (registry : RuntimePrivatePolicyRegistry) (current_epoch : PolicyEpoch)
    (request : WorkloadContractV2) (caller : CallerSelector) (native : ProfileKindV2)
    : CandidatePolicyDecisionV2 :=
  match resolve_v2 sha256_hash registry current_epoch request caller native with
  | Ok _ => Accepted
  | Err rejection => Rejected rejection
  end.

(** ** What a valid private registry is *)

Record grant_valid_v2 (profiles : list RuntimePrivateProfileDefinition)
    (identities : list LinuxExecutionIdentityV2) (grant : PolicyGrantV2) : Prop := {
  gv2_callers : as_slice (qg_callers grant) ≠ [];
  gv2_callers_linux : Forall (λ c, is_linux_caller c = true) (as_slice (qg_callers grant));
  gv2_callers_distinct : NoDup (as_slice (qg_callers grant));
  gv2_plans : as_slice (qg_approved_plans grant) ≠ [];
  gv2_plans_distinct : NoDup (as_slice (qg_approved_plans grant));
  gv2_profile : grant_profile_known_v2 profiles grant = true;
  gv2_identity : grant_identity_check profiles identities grant = Ok ()
}.

Record registry_valid_v2 sha256_hash (self : RuntimePrivatePolicyRegistry) : Prop := {
  rv2_format : qr_format self = "memcordon.local-private-policy"%string;
  rv2_revision : qr_revision self = 1;
  rv2_profiles : Forall (λ p, qd_reference p = kind_reference sha256_hash (qd_profile p))
                   (as_slice (qr_profiles self));
  rv2_profiles_distinct : NoDup ((profile_id ∘ qd_reference) <$> as_slice (qr_profiles self));
  rv2_identities : Forall (λ i, identity_validate sha256_hash i = Ok ())
                     (as_slice (qr_execution_identities self));
  rv2_identities_distinct :
    NoDup ((identity_id ∘ xi_reference) <$> as_slice (qr_execution_identities self));
  rv2_grants : Forall (grant_valid_v2 (as_slice (qr_profiles self))
                        (as_slice (qr_execution_identities self))) (as_slice (qr_grants self));
  rv2_grants_distinct : NoDup (qg_id <$> as_slice (qr_grants self))
}.

Lemma validate_profiles_v2_Ok sha256_hash profiles :
  validate_profiles_v2 sha256_hash [] profiles = Ok () ↔
  NoDup ((profile_id ∘ qd_reference) <$> profiles) ∧
  Forall (λ p, qd_reference p = kind_reference sha256_hash (qd_profile p)) profiles.
Proof.
  apply (prior_loop_start (profile_id ∘ qd_reference)); [done|]. intros prior x rest.
  cbn [validate_profiles_v2]. rewrite bind_unit_Ok, guard_err_Ok, orb_false_iff, negb_false_iff,
    bool_decide_eq_true, (existsb_key_false (profile_id ∘ qd_reference)). naive_solver.
Qed.

Lemma validate_identities_Ok sha256_hash identities :
  validate_identities sha256_hash [] identities = Ok () ↔
  NoDup ((identity_id ∘ xi_reference) <$> identities) ∧
  Forall (λ i, identity_validate sha256_hash i = Ok ()) identities.
Proof.
  apply (prior_loop_start (identity_id ∘ xi_reference)); [done|]. intros prior x rest.
  cbn [validate_identities]. rewrite !bind_unit_Ok, guard_err_Ok,
    (existsb_key_false (identity_id ∘ xi_reference)). tauto.
Qed.

Lemma validate_callers_v2_Ok callers :
  validate_callers_v2 [] callers = Ok () ↔
  NoDup callers ∧ Forall (λ c, is_linux_caller c = true) callers.
Proof.
  rewrite <- (list_fmap_id callers) at 2.
  apply (prior_loop_start id); [done|]. intros prior x rest. rewrite list_fmap_id.
  cbn [validate_callers_v2]. rewrite !bind_unit_Ok, guard_err_Ok, orb_false_iff, negb_false_iff,
    bool_decide_eq_false. unfold id, is_linux_caller. tauto.
Qed.

Lemma validate_grants_v2_Ok profiles identities grants :
  validate_grants_v2 profiles identities [] grants = Ok () ↔
  NoDup (qg_id <$> grants) ∧ Forall (grant_valid_v2 profiles identities) grants.
Proof.
  apply (prior_loop_start qg_id); [done|]. intros prior x rest. cbn [validate_grants_v2].
  rewrite !bind_unit_Ok, guard_err_Ok, !orb_false_iff, negb_false_iff, !bool_decide_eq_false,
    (existsb_key_false qg_id), validate_callers_v2_Ok, validate_plans_Ok.
  split; [intros ([[[? ?] ?] ?] & [? ?] & ? & ? & ?); by repeat constructor|].
  intros (? & [] & ?). by split_and!.
Qed.

Lemma registry_validate_v2_Ok sha256_hash self :
  registry_validate_v2 sha256_hash self = Ok () ↔ registry_valid_v2 sha256_hash self.
Proof.
  unfold registry_validate_v2. rewrite !bind_unit_Ok, guard_err_Ok, orb_false_iff, !negb_false_iff,
    bool_decide_eq_true, N.eqb_eq, validate_profiles_v2_Ok, validate_identities_Ok, validate_grants_v2_Ok.
  split; [intros ([? ?] & [? ?] & [? ?] & ? & ?); by constructor|]. intros []. by split_and!.
Qed.

(** ** Admission *)

Record admitted_v2 sha256_hash (registry : RuntimePrivatePolicyRegistry) (current_epoch : PolicyEpoch)
    (request : WorkloadContractV2) (caller : CallerSelector) (native : ProfileKindV2)
    (grant : PolicyGrantV2) : Prop := {
  am2_registry : registry_valid_v2 sha256_hash registry;
  am2_request : validate_v2 request = Ok ();
  am2_grant : grant ∈ as_slice (qr_grants registry);
  am2_id : qg_id grant = grant_id (v2_authorization request);
  am2_revision : qg_revision grant = grant_revision (v2_authorization request);
  am2_enabled : qg_enabled grant = true;
  am2_caller : caller ∈ as_slice (qg_callers grant);
  am2_plan : v2_workload_plan_digest request ∈ as_slice (qg_approved_plans grant);
  am2_approved : approved_plan_digest (v2_authorization request) = v2_workload_plan_digest request;
  am2_epoch : current_epoch = v2_expected_epoch request;
  am2_authorized : qg_profile grant = v2_authorized_profile request;
  am2_profile : ∃ profile, profile ∈ as_slice (qr_profiles registry) ∧
    qd_reference profile = qg_profile grant ∧ qd_enabled profile = true ∧ qd_profile profile = native;
  am2_identity : qg_execution_identity grant = v2_execution_identity request;
  am2_identity_enabled : ∀ reference, v2_execution_identity request = AdministratorProfile reference →
    ∃ identity, identity ∈ as_slice (qr_execution_identities registry) ∧
      xi_enabled identity = true ∧ xi_reference identity = reference;
  am2_ceiling : ceiling_contains (qg_ceiling grant) (v2_ceiling request) = true;
  am2_native_ceiling : ceiling_contains (v2_ceiling request) (kind_ceiling native) = true;
  am2_requirements :
    Forall (λ r, requirement_conflict_v2 native r = None) (as_slice (v2_requirements request))
}.

Lemma existsb_elem {A} (p : A → bool) (l : list A) : existsb p l = true ↔ ∃ x, x ∈ l ∧ p x = true.
Proof. rewrite existsb_exists. by setoid_rewrite list_elem_of_In. Qed.

(** The requirements loop leaves no conflict exactly when there is none. *)
Lemma no_conflicts {C} (conflict : RequirementV1 → option C) l :
  as_slice (collect_conflicts conflict [] 0 (sort_by requirement_le l)).1 = [] ↔
  Forall (λ r, conflict r = None) l.
Proof.
  rewrite collect_conflicts_eq by (cbn; lia). cbn [fst app length]. rewrite Nat.sub_0_r.
  pose proof (sort_by_perm requirement_le l) as Hp. rewrite <- Hp at 2. rewrite <- all_conflicts_nil.
  destruct (all_conflicts _ _); naive_solver.
Qed.

Lemma grant_selected_v2_true request caller grant :
  grant_selected_v2 request caller grant = true ↔
  qg_id grant = grant_id (v2_authorization request) ∧
  qg_revision grant = grant_revision (v2_authorization request) ∧ qg_enabled grant = true ∧
  caller ∈ as_slice (qg_callers grant).
Proof. unfold grant_selected_v2. rewrite !andb_true_iff, !bool_decide_eq_true, N.eqb_eq. tauto. Qed.

Definition identity_unavailable (registry : RuntimePrivatePolicyRegistry) (request : WorkloadContractV2)
    : bool :=
  match v2_execution_identity request with
  | AdministratorProfile reference =>
      negb (existsb (λ identity, xi_enabled identity && (xi_reference identity ≟ reference))
              (as_slice (qr_execution_identities registry)))
  | PreserveCaller => false
  end.

Lemma identity_unavailable_false registry request :
  identity_unavailable registry request = false ↔
  ∀ reference, v2_execution_identity request = AdministratorProfile reference →
    ∃ identity, identity ∈ as_slice (qr_execution_identities registry) ∧
      xi_enabled identity = true ∧ xi_reference identity = reference.
Proof.
  unfold identity_unavailable. destruct (v2_execution_identity request) as [|reference]; [naive_solver|].
  rewrite negb_false_iff, existsb_elem. split.
  - intros (i & Hi & H) ? [= <-]. bool_hyps. eauto.
  - intros H. destruct (H _ eq_refl) as (i & Hi & He & Hr). exists i. by rewrite He, bool_decide_eq_true_2.
Qed.

Lemma is_ok_unit {E} (r : result E ()) : is_ok r = true ↔ r = Ok ().
Proof. destruct r as [[]|]; naive_solver. Qed.

Lemma resolve_v2_iff sha256_hash registry current_epoch request caller native grant :
  resolve_v2 sha256_hash registry current_epoch request caller native = Ok grant ↔
  admitted_v2 sha256_hash registry current_epoch request caller native grant.
Proof.
  unfold resolve_v2. fold (identity_unavailable registry request). split.
  - intros H. run_ok. bool_hyps.
    repeat match goal with H : is_ok _ = true |- _ => apply is_ok_unit in H end.
    repeat match goal with H : List.find _ _ = Some _ |- _ => apply find_some in H as [??] end.
    match goal with H : grant_selected_v2 _ _ _ = true |- _ => apply grant_selected_v2_true in H as (?&?&?&?) end.
    match goal with H : identity_unavailable _ _ = false |- _ => rewrite identity_unavailable_false in H end.
    destruct (collect_conflicts _ _ _ _) as [c k] eqn:Ec. destruct (as_slice c) as [|[] ?] eqn:Es; [|done].
    assert (Forall (λ r, requirement_conflict_v2 native r = None) (as_slice (v2_requirements request)))
      by (apply no_conflicts; by rewrite Ec).
    simplify_eq. bool_hyps. constructor; try done; try (by apply registry_validate_v2_Ok);
      try (by apply list_elem_of_In); try congruence.
    eexists. split_and!; [by apply list_elem_of_In|done..].
  - intros [Hr Hv Hg Hid Hrev Hen Hc Hp Ha He Hau (profile & Hpr & Href & Hpe & Hk) Hi Hie Hc1 Hc2 Hreq].
    pose proof Hr as Hr'. apply registry_validate_v2_Ok in Hr'. rewrite Hr', Hv. cbn.
    destruct Hr as [_ _ _ Hpd _ _ Hgv Hgd].
    assert (is_linux_caller caller = true) as ->.
    { rewrite Forall_forall in Hgv. destruct (Hgv grant Hg) as [_ Hl _ _ _ _ _].
      rewrite Forall_forall in Hl. by apply Hl. }
    cbn. rewrite (find_unique _ _ grant); [|done|by apply grant_selected_v2_true|].
    2:{ intros y Hy Sy. apply grant_selected_v2_true in Sy as [E _].
        eapply (NoDup_key_eq qg_id); [done..|congruence]. }
    cbn. rewrite Ha, He, Hau, !bool_decide_eq_true_2 by done. cbn.
    rewrite (find_unique _ _ profile); [|done| |].
    + cbn. rewrite (proj2 (identity_unavailable_false registry request)) by done.
      rewrite ?Hk, ?Hi, ?bool_decide_eq_true_2, Hc1, Hc2 by done. cbn.
      apply no_conflicts in Hreq. destruct (collect_conflicts _ _ _ _) as [c k]. cbn in Hreq.
      by rewrite Hreq.
    + rewrite Hpe, bool_decide_eq_true_2 by congruence. done.
    + intros y Hy Sy. bool_hyps. eapply (NoDup_key_eq (profile_id ∘ qd_reference)); [done..|].
      cbn. congruence.
Qed.

(** ** The projection *)

Lemma project_filter {A B n} (keep : A → bool) (f : A → B) message (out : BoundedVec B n) l :
  (length out + length l <= n)%nat →
  project keep f message out l = Ok (out ++ (f <$> List.filter keep l)).
Proof.
  revert out. induction l as [|x l IH]; intros out H; cbn.
  - by rewrite app_nil_r.
  - simpl in H. destruct (keep x); cbn; [|apply IH; lia].
    unfold try_push. rewrite bool_decide_eq_false_2 by lia.
    rewrite IH by (rewrite length_app; simpl; lia). by rewrite <- app_assoc.
Qed.

Lemma elem_of_filter_list {A} (p : A → bool) (l : list A) x : x ∈ List.filter p l ↔ x ∈ l ∧ p x = true.
Proof. by rewrite !list_elem_of_In, filter_In. Qed.

Lemma NoDup_fmap_filter {A K} (key : A → K) (p : A → bool) (l : list A) :
  NoDup (key <$> l) → NoDup (key <$> List.filter p l).
Proof.
  induction l as [|x l IH]; cbn; [done|]. intros [Hx H]%NoDup_cons.
  destruct (p x); cbn; [|by apply IH]. constructor; [|by apply IH].
  intros (y & E & Hy)%list_elem_of_fmap. apply Hx. apply elem_of_filter_list in Hy as [Hy _].
  rewrite E. by apply list_elem_of_fmap_2.
Qed.

Lemma kind_of_baseline sha256_hash kind :
  kind_reference sha256_hash kind = baseline_reference sha256_hash LinuxUnixCreate →
  kind = LinuxUnixCreateV1.
Proof. intros E. apply (f_equal (id_str ∘ profile_id)) in E. by destruct kind. Qed.

Section projection.
  Context (sha256_hash : list u8 → list u8) (registry : RuntimePrivatePolicyRegistry).
  Hypothesis profiles_bounded : (length (as_slice (qr_profiles registry)) <= PROFILES)%nat.
  Hypothesis grants_bounded : (length (as_slice (qr_grants registry)) <= GRANTS)%nat.
  Hypothesis valid : registry_valid_v2 sha256_hash registry.

Definition projected : RuntimePolicyRegistry :=
  {| pr_format := "memcordon.local-policy"; pr_revision := 1;
     pr_profiles := v1_profile <$> List.filter is_baseline_profile (as_slice (qr_profiles registry));
     pr_grants := v1_grant <$> List.filter (is_baseline_grant sha256_hash) (as_slice (qr_grants registry));
     pr_active_attempt_disposition := qr_active_attempt_disposition registry |}.

Lemma baseline_profile_kind p :
  p ∈ as_slice (qr_profiles registry) → qd_reference p = baseline_reference sha256_hash LinuxUnixCreate →
  is_baseline_profile p = true.
Proof using valid.
  intros Hp E. destruct valid as [_ _ Hk _ _ _ _ _]. rewrite Forall_forall in Hk.
  unfold is_baseline_profile. apply bool_decide_eq_true_2, (kind_of_baseline sha256_hash).
  by rewrite <- (Hk p Hp).
Qed.

Lemma projected_profile q :
  q ∈ as_slice (pr_profiles projected) ↔
  ∃ p, q = v1_profile p ∧ p ∈ as_slice (qr_profiles registry) ∧ qd_profile p = LinuxUnixCreateV1.
Proof using Type.
  unfold projected, as_slice. cbn. rewrite list_elem_of_fmap. setoid_rewrite elem_of_filter_list.
  unfold is_baseline_profile. by setoid_rewrite bool_decide_eq_true.
Qed.

Lemma projected_grant g1 :
  g1 ∈ as_slice (pr_grants projected) ↔
  ∃ g, g1 = v1_grant g ∧ g ∈ as_slice (qr_grants registry) ∧
    qg_profile g = baseline_reference sha256_hash LinuxUnixCreate ∧
    qg_execution_identity g = PreserveCaller.
Proof using Type.
  unfold projected, as_slice. cbn. rewrite list_elem_of_fmap. setoid_rewrite elem_of_filter_list.
  unfold is_baseline_grant. setoid_rewrite andb_true_iff. by setoid_rewrite bool_decide_eq_true.
Qed.

Lemma projected_grant_valid g :
  g ∈ as_slice (qr_grants registry) → qg_profile g = baseline_reference sha256_hash LinuxUnixCreate →
  grant_valid (as_slice (pr_profiles projected)) (v1_grant g).
Proof using valid.
  intros Hg Hp. pose proof (rv2_grants _ _ valid) as Hv. rewrite Forall_forall in Hv.
  destruct (Hv g Hg) as [H1 H2 H3 H4 H5 H6 H7].
  constructor; cbn; try done.
  - eapply Forall_impl; [exact H2|]. by intros [].
  - unfold grant_profile_known_v2 in H6. apply existsb_elem in H6 as (p & Hin & H). bool_hyps.
    exists (v1_profile p). split_and!.
    + apply projected_profile. exists p. split_and!; [done..|].
      apply (kind_of_baseline sha256_hash). pose proof (rv2_profiles _ _ valid) as Hk.
      rewrite Forall_forall in Hk. rewrite <- (Hk p Hin). congruence.
    + done.
    + assert (is_baseline_profile p = true) as Hb by (apply baseline_profile_kind; [done|congruence]).
      unfold is_baseline_profile in Hb. apply bool_decide_eq_true in Hb. rewrite Hb in *. done.
Qed.

Lemma projected_valid : registry_valid sha256_hash projected.
Proof using valid.
  destruct valid as [_ _ Hk Hkd _ _ _ Hgd]. constructor; [done|done|..].
  - apply Forall_forall. intros q (p & -> & Hp & Ek)%projected_profile. cbn.
    rewrite Forall_forall in Hk. by rewrite (Hk p Hp), Ek.
  - unfold projected, as_slice. cbn. rewrite <- list_fmap_compose.
    by apply (NoDup_fmap_filter (profile_id ∘ qd_reference)).
  - apply Forall_forall. intros g1 (g & -> & Hg & Hp & _)%projected_grant. by apply projected_grant_valid.
  - unfold projected, as_slice. cbn. rewrite <- list_fmap_compose. by apply (NoDup_fmap_filter qg_id).
Qed.

Lemma projection_Ok : baseline_v1_projection sha256_hash registry = Ok projected.
Proof using valid profiles_bounded grants_bounded.
  unfold baseline_v1_projection. rewrite (proj2 (registry_validate_v2_Ok sha256_hash registry) valid).
  cbn [mbind result_bind]. rewrite !project_filter by (cbn; lia). cbn [mbind result_bind app].
  fold projected. by rewrite (proj2 (registry_validate_Ok sha256_hash projected) projected_valid).
Qed.
End projection.

(** The two versions agree on what the baseline profile can meet. *)
Lemma baseline_conflicts r :
  requirement_conflict_v2 LinuxUnixCreateV1 r = None ↔ requirement_conflict LinuxUnixCreate r = None.
Proof. by destruct r as [| |? ? ? []| |? []]. Qed.

(** For the baseline profile the two admission specifications coincide. *)
Lemma projected_admitted sha256_hash registry epoch request caller g1 :
  registry_valid_v2 sha256_hash registry → validate_v2 request = Ok () →
  v2_execution_identity request = PreserveCaller →
  admitted (projected sha256_hash registry) epoch (v1_view request) caller LinuxUnixCreate g1 ↔
  ∃ g, g1 = v1_grant g ∧
    admitted_v2 sha256_hash registry epoch request caller LinuxUnixCreateV1 g.
Proof.
  intros Hv Hr Hi.
  assert (∀ l, Forall (λ r, requirement_conflict_v2 LinuxUnixCreateV1 r = None) l ↔
               Forall (λ r, requirement_conflict LinuxUnixCreate r = None) l) as Hc.
  { intros l. rewrite !Forall_forall. by setoid_rewrite baseline_conflicts. }
  split.
  - intros [Hag ? ? ? ? ? ? ? ? Hap ? ? ?]. apply projected_grant in Hag as (g & -> & Hg & Hp & Hgi). exists g. split; [done|].
    destruct Hap as (q & (p & -> & Hpin & Hk)%projected_profile & Hqr & Hqe & _).
    constructor; try done; [by exists p|congruence|rewrite Hi; by intros ? [=]|by apply Hc].
  - intros (g & -> & [? ? ? ? ? ? ? ? ? ? ? Hap ? ? ? ? ?]). destruct Hap as (p & Hp & Hpr & Hpe & Hk).
    constructor; try done; [| |by apply Hc].
    + apply projected_grant. exists g. split_and!; [done..| |congruence].
      rewrite <- Hpr. pose proof (rv2_profiles _ _ Hv) as Hf. rewrite Forall_forall in Hf.
      by rewrite (Hf p Hp), Hk.
    + exists (v1_profile p). split_and!; [|done..]. apply projected_profile. by exists p.
Qed.

(** Activating a private registry keeps exactly the version-one Linux
    baseline authority.  The projection of a valid registry is a valid
    version-one registry; whatever it admits comes from a preserve-caller grant
    of the baseline profile, never from a private or delegated one; and for a
    valid preserve-caller request it admits what the private registry admits
    under that profile, with the same grant. *)
Theorem projection_keeps_baseline sha256_hash registry :
  (length (as_slice (qr_profiles registry)) <= PROFILES)%nat →
  (length (as_slice (qr_grants registry)) <= GRANTS)%nat →
  registry_validate_v2 sha256_hash registry = Ok () →
  ∃ v1, baseline_v1_projection sha256_hash registry = Ok v1 ∧
    registry_validate sha256_hash v1 = Ok () ∧
    (∀ epoch request caller native g1, resolve v1 epoch request caller native = Ok g1 →
       native = LinuxUnixCreate ∧
       ∃ g, g1 = v1_grant g ∧ g ∈ as_slice (qr_grants registry) ∧
         qg_execution_identity g = PreserveCaller ∧
         qg_profile g = baseline_reference sha256_hash LinuxUnixCreate) ∧
    (∀ epoch request caller g1, v2_execution_identity request = PreserveCaller →
       validate_v2 request = Ok () →
       resolve v1 epoch (v1_view request) caller LinuxUnixCreate = Ok g1 ↔
       ∃ g, g1 = v1_grant g ∧
         resolve_v2 sha256_hash registry epoch request caller LinuxUnixCreateV1 = Ok g).
Proof.
  intros Hp Hg Hv%registry_validate_v2_Ok. exists (projected sha256_hash registry).
  pose proof (projected_valid _ _ Hv) as Pv. pose proof Pv as Pv'. apply registry_validate_Ok in Pv'.
  split_and!; [by apply projection_Ok|done|..].
  - intros epoch request caller native g1 H%(resolve_admitted _ _ _ _ _ _ _ Pv).
    destruct H as [Hag _ _ _ _ _ _ _ _ Hap _ _ _].
    apply projected_grant in Hag as (g & -> & ? & ? & ?). split; [|by exists g].
    by destruct Hap as (q & (p & -> & _)%projected_profile & _ & _ & <-).
  - intros epoch request caller g1 Hi Hr. rewrite (resolve_admitted _ _ _ _ _ _ _ Pv).
    setoid_rewrite resolve_v2_iff. by apply projected_admitted.
Qed.

(** ** Delegated identities *)

Lemma delegated_grant_private sha256_hash registry grant reference :
  registry_valid_v2 sha256_hash registry → grant ∈ as_slice (qr_grants registry) →
  qg_execution_identity grant = AdministratorProfile reference →
  qg_profile grant = kind_reference sha256_hash LinuxTcp4PrivateV1.
Proof.
  intros Hv Hg Hi. pose proof (rv2_grants _ _ Hv) as Hgs. rewrite Forall_forall in Hgs.
  pose proof (gv2_identity _ _ _ (Hgs grant Hg)) as Hc. unfold grant_identity_check in Hc.
  rewrite Hi in Hc. rewrite bind_unit_Ok, !guard_err_Ok, !negb_false_iff, !existsb_elem in Hc.
  destruct Hc as (_ & p & Hp & H). bool_hyps.
  pose proof (rv2_profiles _ _ Hv) as Hk. rewrite Forall_forall in Hk.
  match goal with E : qd_reference p = _, K : qd_profile p = _ |- _ =>
    by rewrite <- E, (Hk p Hp), K end.
Qed.

Lemma kind_reference_inj sha256_hash a b :
  kind_reference sha256_hash a = kind_reference sha256_hash b → a = b.
Proof. intros E. apply (f_equal (id_str ∘ profile_id)) in E. by destruct a, b. Qed.

(** A path the administrator may name: absolute, and with no empty, [.] or
    [..] component. *)
Definition path_normal (path : string) : Prop :=
  starts_with "/" path = true ∧ path ≠ "/"%string ∧ str_contains NUL path = false ∧
  ∀ part, part ∈ drop 1 (split "/" path) → part ≠ ""%string ∧ part ≠ "."%string ∧ part ≠ ".."%string.

Lemma path_invalid_false path : path_invalid path = false ↔ path_normal path.
Proof.
  unfold path_invalid, path_normal.
  rewrite !orb_false_iff, negb_false_iff, bool_decide_eq_false, existsb_false_elem.
  unfold path_part_invalid. setoid_rewrite orb_false_iff. setoid_rewrite orb_false_iff.
  setoid_rewrite bool_decide_eq_false.
  assert (∀ s, str_is_empty s = false ↔ s ≠ ""%string) as He by (by intros []).
  setoid_rewrite He. naive_solver.
Qed.

Lemma validate_entrypoints_Ok entrypoints :
  validate_entrypoints [] entrypoints = Ok () ↔
  NoDup (ep_id <$> entrypoints) ∧ Forall (λ e, path_normal (text (ep_absolute_path e))) entrypoints.
Proof.
  apply (prior_loop_start ep_id); [done|]. intros prior x rest.
  cbn [validate_entrypoints]. rewrite bind_unit_Ok, guard_err_Ok, orb_false_iff,
    (existsb_key_false ep_id), path_invalid_false. tauto.
Qed.

(** A registered identity: at least one approved entrypoint, every path of them
    normal, and the reference carrying the digest of all of it. *)
Lemma identity_validate_Ok sha256_hash identity :
  identity_validate sha256_hash identity = Ok () →
  as_slice (xi_entrypoints identity) ≠ [] ∧
  Forall (λ e, path_normal (text (ep_absolute_path e))) (as_slice (xi_entrypoints identity)) ∧
  identity_digest sha256_hash identity = Ok (identity_semantic_digest (xi_reference identity)).
Proof.
  unfold identity_validate. intros (d & Hd & Hg)%bind_Ok. pose proof Hd as Hd'.
  unfold identity_digest in Hd. apply bind_Ok in Hd as ([] & Hf & _).
  unfold validate_fields in Hf.
  rewrite !bind_unit_Ok, guard_err_Ok, bool_decide_eq_false, validate_entrypoints_Ok in Hf.
  rewrite guard_err_Ok, negb_false_iff, bool_decide_eq_true in Hg. subst d. tauto.
Qed.

(** What a private-stack request may ask of the network. *)
Definition confined_requirement (r : RequirementV1) : Prop :=
  match r with
  | Tcp _ family _ scope _ peer =>
      family = IpFamily_V4 ∧ scope = AttemptPrivateStack ∧
      ∀ address port, peer = ExactAddress (TcpEndpoint_V4 address port) → v4_is_loopback address = true
  | DenialExercise _ exercise => exercise = NamedUnixSocketCreation
  | _ => False
  end.

Lemma private_conflicts r :
  requirement_conflict_v2 LinuxTcp4PrivateV1 r = None → confined_requirement r.
Proof.
  destruct r as [| |id f ops s lp peer| |? []]; try done; cbn. destruct f, s; try done.
  destruct peer as [|[address port|]]; try done.
  destruct (v4_is_loopback address) eqn:E; [|done]. intros _. split_and!; [done..|].
  by intros ? ? [= <- <-].
Qed.

Lemma ceiling_contains_private ceiling authority :
  ceiling_contains ceiling authority = true →
  direct_socket_authority authority = AttemptPrivateIpv4StackAllPorts →
  direct_socket_authority ceiling = AttemptPrivateIpv4StackAllPorts ∧
  credential_gains ceiling = credential_gains authority.
Proof.
  unfold ceiling_contains. intros H E. rewrite E in H. bool_hyps. split; [|done].
  destruct (direct_socket_authority ceiling); vm_compute in *; congruence.
Qed.

(** C32: an execution identity other than the caller's own is lent only inside
    the private network stack.  When [resolve_v2] grants an administrator's
    identity, the host runs the private profile, the ceilings allow no credential
    gain and no socket outside the attempt's own stack, the registry lists that
    identity, enabled, under the digest the request names, with approved
    entrypoints at normal absolute paths only, and every requirement stays on the
    private stack. *)
Theorem delegation_confined sha256_hash registry epoch request caller native grant reference :
  resolve_v2 sha256_hash registry epoch request caller native = Ok grant →
  v2_execution_identity request = AdministratorProfile reference →
  native = LinuxTcp4PrivateV1 ∧
  credential_gains (v2_ceiling request) = NoGain ∧
  direct_socket_authority (v2_ceiling request) = AttemptPrivateIpv4StackAllPorts ∧
  direct_socket_authority (qg_ceiling grant) = AttemptPrivateIpv4StackAllPorts ∧
  caller ∈ as_slice (qg_callers grant) ∧
  (∃ identity, identity ∈ as_slice (qr_execution_identities registry) ∧
     xi_enabled identity = true ∧ xi_reference identity = reference ∧
     identity_digest sha256_hash identity = Ok (identity_semantic_digest reference) ∧
     as_slice (xi_entrypoints identity) ≠ [] ∧
     Forall (λ e, path_normal (text (ep_absolute_path e))) (as_slice (xi_entrypoints identity))) ∧
  Forall confined_requirement (as_slice (v2_requirements request)).
Proof.
  intros H%resolve_v2_iff Hi.
  destruct H as [Hv Hr Hg _ _ _ Hc _ _ _ Ha (p & Hp & Hpr & _ & Hk) Hgi Hie Hc1 Hc2 Hreq].
  assert (native = LinuxTcp4PrivateV1) as ->.
  { subst native. apply (kind_reference_inj sha256_hash).
    pose proof (rv2_profiles _ _ Hv) as Hf. rewrite Forall_forall in Hf. rewrite <- (Hf p Hp), Hpr.
    eapply delegated_grant_private; [done..|]. by rewrite Hgi. }
  apply ceiling_contains_private in Hc2 as [Hd2 Hn2]; [|done].
  apply ceiling_contains_private in Hc1 as [Hd1 _]; [|done].
  destruct (Hie _ Hi) as (i & Hin & Hen & Href).
  pose proof (rv2_identities _ _ Hv) as Hids. rewrite Forall_forall in Hids.
  destruct (identity_validate_Ok _ _ (Hids i Hin)) as (? & ? & Hd).
  split_and!; try done.
  - exists i. rewrite <- Href. by split_and!.
  - eapply Forall_impl; [exact Hreq|]. apply private_conflicts.
Qed.

(** ** A registry with a baseline grant and a delegated one *)

Module RegistryV2Examples.
Import RegistryExamples.

Definition private : ProfileRef := kind_reference hash LinuxTcp4PrivateV1.
Definition entrypoint : ApprovedEntrypointV2 :=
  {| ep_id := logical_id "e"; ep_absolute_path := BoundedText_of "/usr/bin/env"; ep_sha256 := plan;
     ep_size := 4096 |}.
Definition unnamed (digest : DiagnosticSha256) : LinuxExecutionIdentityV2 :=
  {| xi_reference := {| identity_id := logical_id "svc"; identity_semantic_digest := digest |};
     xi_enabled := true; xi_uid := 900; xi_gid := 900; xi_supplementary_groups := [];
     xi_entrypoints := [entrypoint] |}.
Definition service_digest : DiagnosticSha256 :=
  match identity_digest hash (unnamed plan) with Ok d => d | Err _ => plan end.
Definition service : LinuxExecutionIdentityV2 := unnamed service_digest.
Definition baseline_grant : PolicyGrantV2 :=
  {| qg_id := logical_id "g"; qg_revision := 3; qg_profile := linux;
     qg_ceiling := baseline_ceiling LinuxUnixCreate; qg_enabled := true; qg_callers := [alice];
     qg_approved_plans := [plan]; qg_execution_identity := PreserveCaller |}.
Definition delegated_grant : PolicyGrantV2 :=
  {| qg_id := logical_id "h"; qg_revision := 1; qg_profile := private;
     qg_ceiling := kind_ceiling LinuxTcp4PrivateV1; qg_enabled := true; qg_callers := [bob];
     qg_approved_plans := [plan]; qg_execution_identity := AdministratorProfile (xi_reference service) |}.
Definition registry_v2 : RuntimePrivatePolicyRegistry :=
  {| qr_format := "memcordon.local-private-policy"; qr_revision := 1;
     qr_profiles := [{| qd_profile := LinuxUnixCreateV1; qd_reference := linux; qd_enabled := true |};
                     {| qd_profile := LinuxTcp4PrivateV1; qd_reference := private; qd_enabled := true |}];
     qr_execution_identities := [service]; qr_grants := [baseline_grant; delegated_grant];
     qr_active_attempt_disposition := RevokeActive |}.

Definition baseline_request : WorkloadContractV2 :=
  {| v2_workload_plan_digest := plan; v2_authorized_profile := linux;
     v2_authorization := {| grant_id := logical_id "g"; grant_revision := 3; approved_plan_digest := plan |};
     v2_ceiling := baseline_ceiling LinuxUnixCreate; v2_requirements := [unix_socket];
     v2_endpoints := []; v2_expected_epoch := epoch; v2_execution_identity := PreserveCaller |}.
Definition delegated_request : WorkloadContractV2 :=
  {| v2_workload_plan_digest := plan; v2_authorized_profile := private;
     v2_authorization := {| grant_id := logical_id "h"; grant_revision := 1; approved_plan_digest := plan |};
     v2_ceiling := kind_ceiling LinuxTcp4PrivateV1;
     v2_requirements := [DenialExercise (logical_id "d") NamedUnixSocketCreation];
     v2_endpoints := []; v2_expected_epoch := epoch;
     v2_execution_identity := AdministratorProfile (xi_reference service) |}.
End RegistryV2Examples.

Lemma projection_keeps_baseline_witness :
  ∃ v1, baseline_v1_projection RegistryExamples.hash RegistryV2Examples.registry_v2 = Ok v1 ∧
    resolve v1 RegistryExamples.epoch (v1_view RegistryV2Examples.baseline_request)
      RegistryExamples.alice LinuxUnixCreate = Ok (v1_grant RegistryV2Examples.baseline_grant).
Proof.
  destruct (projection_keeps_baseline RegistryExamples.hash RegistryV2Examples.registry_v2)
    as (v1 & E & _ & _ & H); [cbn; unfold PROFILES; lia|cbn; unfold GRANTS; lia|vm_compute; reflexivity|].
  exists v1. split; [exact E|].
  apply H; [reflexivity|vm_compute; reflexivity|].
  exists RegistryV2Examples.baseline_grant. split; [reflexivity|vm_compute; reflexivity].
Defined.

Lemma delegation_confined_witness :
  resolve_v2 RegistryExamples.hash RegistryV2Examples.registry_v2 RegistryExamples.epoch
    RegistryV2Examples.delegated_request RegistryExamples.bob LinuxTcp4PrivateV1
  = Ok RegistryV2Examples.delegated_grant ∧
  RegistryExamples.bob ∈ as_slice (qg_callers RegistryV2Examples.delegated_grant).
Proof.
  assert (resolve_v2 RegistryExamples.hash RegistryV2Examples.registry_v2 RegistryExamples.epoch
    RegistryV2Examples.delegated_request RegistryExamples.bob LinuxTcp4PrivateV1
    = Ok RegistryV2Examples.delegated_grant) as E by (vm_compute; reflexivity).
  split; [exact E|].
  apply (delegation_confined _ _ _ _ _ _ _ (xi_reference RegistryV2Examples.service) E). reflexivity.
Defined.
