(* ===== verification/JsonDocuments.v ===== *)
(** * Administrator and request documents

    The JSON entry points of memcordon-core: the duplicate-key pass of
    workload_contract.rs, the parsers of workload contracts, of both policy
    registries and of admission snapshots.  serde_json and the derived
    [Deserialize] implementations are the classes [SerdeJson] and [Deserialize]:
    what the text denotes, and what each type reads from it. *)

From S2P Require Import Prelude Decimal Bounded Diagnostics RecordLimits WorkloadContract WorkloadCodec Registry RegistryV2.
From Stdlib Require Import Ascii.
#[local] Open Scope N_scope.

(** serde_json: the tree it presents to a visitor for a byte string. *)
Class SerdeJson : Type := { json_of : list u8 → result string json }.
(** [serde_json::from_slice] at a type with a derived reader. *)
Class Deserialize (A : Type) : Type := { from_slice : list u8 → result string A }.

(** A derived writer: the chunks serde_json hands to the output, in order. *)
Class Serialize (A : Type) : Type := { to_chunks : A → result string (list (list u8)) }.
Definition to_vec {A} `{Serialize A} (value : A) : result string (list u8) :=
  @concat u8 <$> to_chunks value.

(** ** Bounded output *)

Record Output : Type := { out_bytes : list u8; out_maximum : N }.

Definition output_write (bytes : list u8) (self : Output) : result string Output :=
  guard_err (out_maximum self - N.of_nat (length (out_bytes self)) <? N.of_nat (length bytes))
    "serialized JSON exceeds reserved capacity"%string ;;
  Ok {| out_bytes := out_bytes self ++ bytes; out_maximum := out_maximum self |}.

Fixpoint output_write_all (chunks : list (list u8)) (self : Output) : result string Output :=
  match chunks with
  | [] => Ok self
  | chunk :: chunks => self ← output_write chunk self; output_write_all chunks self
  end.

(** The compact writer ([pretty] false, what the core crate uses); the reservation
    of [maximum] bytes is taken to succeed. *)
Definition bounded_json_bytes {A} `{Serialize A} (value : A) (maximum : N) : result string (list u8) :=
  chunks ← to_chunks value;
  output ← output_write_all chunks {| out_bytes := []; out_maximum := maximum - 1 |};
  guard_err (maximum =? 0) "JSON reservation is empty"%string ;;
  Ok (out_bytes output ++ [ascii_of_N 10]).

Lemma output_write_all_spec chunks self :
  N.of_nat (length (out_bytes self)) <= out_maximum self →
  output_write_all chunks self =
    if N.of_nat (length (out_bytes self ++ concat chunks)) <=? out_maximum self
    then Ok {| out_bytes := out_bytes self ++ concat chunks; out_maximum := out_maximum self |}
    else Err "serialized JSON exceeds reserved capacity"%string.
Proof.
  revert self. induction chunks as [|c chunks IH]; intros [bs mx] Hl; cbn -[N.leb N.ltb] in *.
  - rewrite app_nil_r. by replace (_ <=? _) with true by lia.
  - unfold output_write. cbn -[N.leb N.ltb]. rewrite !length_app.
    destruct (mx - _ <? _) eqn:E; cbn -[N.leb N.ltb].
    + by replace (_ <=? _) with false by lia.
    + rewrite IH; cbn -[N.leb N.ltb]; rewrite ?length_app; [|lia].
      rewrite <- (assoc_L (++)), Nat.add_assoc. done.
Qed.

(** The text and a line feed, when both fit; how the text was cut does not matter. *)
Lemma bounded_json_bytes_Ok {A} `{Serialize A} (value : A) maximum bs :
  bounded_json_bytes value maximum = Ok bs ↔
  ∃ text, to_vec value = Ok text ∧ N.of_nat (length text) < maximum ∧ bs = text ++ [ascii_of_N 10].
Proof.
  unfold bounded_json_bytes, to_vec. destruct (to_chunks value) as [chunks|]; cbn -[N.leb]; [|naive_solver].
  rewrite output_write_all_spec by (cbn; lia). cbn -[N.leb].
  destruct (N.leb_spec (N.of_nat (length (concat chunks))) (maximum - 1)) as [Hl|Hl]; cbn.
  - destruct (N.eqb_spec maximum 0) as [->|Hm]; cbn.
    + split; [done|]. intros (? & _ & ? & _). lia.
    + split; [intros [= <-]; eexists; split_and!; [done|lia|done]|by intros (? & [= <-] & _ & ->)].
  - split; [done|]. intros (? & [= <-] & ? & _). lia.
Qed.

(** ** Duplicate keys *)

(** [Unique]: the visitor of the first pass; [keys] is the set of keys seen in
    the object being read. *)
Fixpoint unique_visit (j : json) : result string () :=
  match j with
  | JNull | JBool _ | JNumber | JString _ => Ok ()
  | JArray elements =>
      (fix visit_seq (l : list json) : result string () :=
         match l with
         | [] => Ok ()
         | x :: l => unique_visit x ≫= λ _, visit_seq l
         end) elements
  | JObject members =>
      (fix visit_map (keys : list string) (l : list (string * json)) : result string () :=
         match l with
         | [] => Ok ()
         | (key, x) :: l =>
             key ← BoundedText_new 256 key;
             guard_err (256 <=? N.of_nat (length keys)) "JSON object key count exceeds bound"%string ;;
             guard_err (bool_decide (text key ∈ keys)) "duplicate JSON key"%string ;;
             unique_visit x ≫= λ _, visit_map (text key :: keys) l
         end) [] members
  end.

(** A byte string that is no JSON is rejected too; which of the two errors of a
    bad document is reported first is not modelled. *)
Definition reject_duplicate_json_keys `{SerdeJson} (bytes : list u8) : result string () :=
  j ← json_of bytes; unique_visit j.

(** The objects the pass lets through. *)
Definition members_ok (members : list (string * json)) : Prop :=
  NoDup members.*1 ∧ (length members <= 256)%nat ∧
  Forall (λ key, is_ok (BoundedText_new 256 key) = true) members.*1.
Fixpoint keys_unique (j : json) : Prop :=
  match j with
  | JNull | JBool _ | JNumber | JString _ => True
  | JArray elements => foldr (λ x P, keys_unique x ∧ P) True elements
  | JObject members => members_ok members ∧ foldr (λ m P, keys_unique m.2 ∧ P) True members
  end.

Lemma visit_map_Ok (members : list (string * json)) keys :
  Forall (λ m, unique_visit m.2 = Ok () ↔ keys_unique m.2) members →
  NoDup keys → (length keys <= 256)%nat →
  (fix visit_map (keys : list string) (l : list (string * json)) : result string () :=
     match l with
     | [] => Ok ()
     | (key, x) :: l =>
         key ← BoundedText_new 256 key;
         guard_err (256 <=? N.of_nat (length keys)) "JSON object key count exceeds bound"%string ;;
         guard_err (bool_decide (text key ∈ keys)) "duplicate JSON key"%string ;;
         unique_visit x ≫= λ _, visit_map (text key :: keys) l
     end) keys members = Ok () ↔
  NoDup (members.*1 ++ keys) ∧ (length members + length keys <= 256)%nat ∧
  Forall (λ key, is_ok (BoundedText_new 256 key) = true) members.*1 ∧
  foldr (λ m P, keys_unique m.2 ∧ P) True members.
Proof.
  intros HF. revert keys. induction HF as [|[key x] l Hx HF IH]; intros keys Hn Hl; cbn -[BoundedText_new].
  { split; [|done]. intros _. split_and!; [done|lia|by apply Forall_nil|done]. }
  rewrite Forall_cons, NoDup_cons. simpl in Hx.
  destruct (BoundedText_new 256 key) as [k|] eqn:Ek; cbn -[BoundedText_new]; [|by naive_solver].
  assert (text k = key) as Hk by (unfold BoundedText_new in Ek; case_match; [done|by simplify_eq]).
  rewrite Hk, !bind_unit_Ok, !guard_err_Ok, bool_decide_eq_false, N.leb_gt, Hx.
  split.
  - intros (Hc & Hin & Hu & Hr). apply IH in Hr as (N1 & N2 & N3 & N4); [|by constructor|simpl; lia].
    rewrite <- Permutation_middle, NoDup_cons in N1. destruct N1. simpl in N2. split_and!; try done; lia.
  - intros ([Hin N1] & N2 & [_ N3] & Hu & N4). rewrite elem_of_app in Hin.
    assert (key ∉ keys) by tauto.
    split_and!; [lia|done|done|]. apply IH; [by constructor|simpl; lia|].
    rewrite <- Permutation_middle, NoDup_cons, elem_of_app. simpl. split_and!; try done; first [tauto|lia].
Qed.

Lemma unique_visit_Ok j : unique_visit j = Ok () ↔ keys_unique j.
Proof.
  induction j as [| | | |l IH|l IH] using json_ind'; [done..| |].
  - cbn. induction IH as [|x l Hx _ IH]; [done|]. cbn. by rewrite bind_unit_Ok, Hx, IH.
  - cbn -[BoundedText_new]. rewrite visit_map_Ok; [|done|constructor|simpl; lia].
    rewrite app_nil_r, Nat.add_0_r. unfold members_ok. tauto.
Qed.

(** ** Contracts *)

Inductive WorkloadContract_any : Type :=
| Contract_V1 (request : WorkloadContractV1)
| Contract_V2 (request : WorkloadContractV2).

Record VersionProbe : Type := { probe_schema_version : N }.

Section parse.
  Context `{SerdeJson} `{Deserialize VersionProbe} `{Deserialize WorkloadContractV1}
    `{Deserialize WorkloadContractV2} `{Deserialize RuntimePolicyRegistry}
    `{Deserialize RuntimePrivatePolicyRegistry} (sha256_hash : list u8 → list u8).

Definition over (limit : N) (bytes : list u8) : bool := limit <? N.of_nat (length bytes).

Definition WorkloadContract_parse (bytes : list u8) : result string WorkloadContract_any :=
  guard_err (over CONTRACT_BYTES bytes) "workload contract exceeds byte limit"%string ;;
  reject_duplicate_json_keys bytes ≫= λ _,
  version ← from_slice (A := VersionProbe) bytes;
  if probe_schema_version version =? 1 then
    request ← from_slice bytes; validate request ≫= λ _, Ok (Contract_V1 request)
  else if probe_schema_version version =? 2 then
    request ← from_slice bytes; validate_v2 request ≫= λ _, Ok (Contract_V2 request)
  else Err "unsupported workload contract version"%string.

Definition WorkloadContractV2_parse (bytes : list u8) : result string WorkloadContractV2 :=
  contract ← WorkloadContract_parse bytes;
  match contract with
  | Contract_V2 request => Ok request
  | Contract_V1 _ => Err "expected workload contract version two"%string
  end.

(** The parsers that follow one scheme: a size limit, the duplicate-key pass,
    the derived reader, and the type's own validation. *)
Definition read_document {A} `{Deserialize A} (limit : N) (message : string)
    (check : A → result string ()) (bytes : list u8) : result string A :=
  guard_err (over limit bytes) message ;;
  reject_duplicate_json_keys bytes ≫= λ _,
  value ← from_slice bytes;
  check value ≫= λ _,
  Ok value.

Definition WorkloadContractV1_parse : list u8 → result string WorkloadContractV1 :=
  read_document CONTRACT_BYTES "workload contract exceeds byte limit" validate.
Definition registry_parse : list u8 → result string RuntimePolicyRegistry :=
  read_document REGISTRY_BYTES "policy registry exceeds byte limit" (registry_validate sha256_hash).
Definition registry_parse_v2 : list u8 → result string RuntimePrivatePolicyRegistry :=
  read_document REGISTRY_BYTES "policy registry exceeds byte limit" (registry_validate_v2 sha256_hash).
End parse.

(** What an accepted document is. *)
Record document {A} `{SerdeJson} `{Deserialize A} (limit : N) (valid : A → Prop) (bytes : list u8)
    (value : A) : Prop := {
  dc_size : N.of_nat (length bytes) <= limit;
  dc_keys : ∃ j, json_of bytes = Ok j ∧ keys_unique j;
  dc_value : from_slice bytes = Ok value;
  dc_valid : valid value
}.

Lemma bind_ignore_Ok {E A} (m : result E ()) (k : result E A) v :
  (m ≫= λ _, k) = Ok v ↔ m = Ok () ∧ k = Ok v.
Proof. destruct m as [[]|]; cbn; naive_solver. Qed.

Lemma reject_duplicate_Ok `{SerdeJson} bytes :
  reject_duplicate_json_keys bytes = Ok () ↔ ∃ j, json_of bytes = Ok j ∧ keys_unique j.
Proof.
  unfold reject_duplicate_json_keys. rewrite bind_Ok. by setoid_rewrite unique_visit_Ok.
Qed.

Lemma over_false limit bytes : over limit bytes = false ↔ N.of_nat (length bytes) <= limit.
Proof. apply N.ltb_ge. Qed.

Lemma read_document_Ok {A} `{SerdeJson} `{Deserialize A} limit message check (valid : A → Prop) bytes value :
  (∀ v, check v = Ok () ↔ valid v) →
  read_document limit message check bytes = Ok value ↔ document limit valid bytes value.
Proof.
  intros Hv. unfold read_document. rewrite bind_ignore_Ok, guard_err_Ok, over_false, bind_ignore_Ok,
    reject_duplicate_Ok, bind_Ok. setoid_rewrite bind_ignore_Ok. setoid_rewrite Hv. split.
  - intros (Hs & Hk & v & Hf & Hc & [= <-]). by constructor.
  - intros []. split_and!; try done. by exists value.
Qed.

Lemma contract_parse_Ok `{SerdeJson} `{Deserialize VersionProbe} `{Deserialize WorkloadContractV1}
    `{Deserialize WorkloadContractV2} bytes w :
  WorkloadContract_parse bytes = Ok w ↔
  N.of_nat (length bytes) <= CONTRACT_BYTES ∧ (∃ j, json_of bytes = Ok j ∧ keys_unique j) ∧
  ∃ p, from_slice bytes = Ok p ∧
    ((probe_schema_version p = 1 ∧
      ∃ c, from_slice bytes = Ok c ∧ validate c = Ok () ∧ w = Contract_V1 c) ∨
     (probe_schema_version p = 2 ∧
      ∃ c, from_slice bytes = Ok c ∧ validate_v2 c = Ok () ∧ w = Contract_V2 c)).
Proof.
  unfold WorkloadContract_parse. rewrite bind_ignore_Ok, guard_err_Ok, over_false, bind_ignore_Ok,
    reject_duplicate_Ok, bind_Ok. do 2 apply and_iff_compat_l. f_equiv. intros p. apply and_iff_compat_l.
  destruct (N.eqb_spec (probe_schema_version p) 1) as [E1|E1];
    [|destruct (N.eqb_spec (probe_schema_version p) 2) as [E2|E2]].
  - rewrite bind_Ok. split.
    + intros (c & Hc & [Hv [= <-]]%bind_ignore_Ok). left. split; [done|]. by exists c.
    + intros [(_ & c & Hc & Hv & ->)|[E _]]; [|congruence]. exists c. by rewrite Hv.
  - rewrite bind_Ok. split.
    + intros (c & Hc & [Hv [= <-]]%bind_ignore_Ok). right. split; [done|]. by exists c.
    + intros [[E _]|(_ & c & Hc & Hv & ->)]; [congruence|]. exists c. by rewrite Hv.
  - split; [done|]. intros [[E _]|[E _]]; congruence.
Qed.

(** The document readers accept exactly the documents that fit their byte
    limit, repeat no key in any object (at most 256 keys of at most 256 bytes
    each), read as the type and satisfy its specification; and the dispatching
    reader yields a version-one contract only for a document that declares
    version one, so the identity of a version-two request is never dropped. *)
Theorem documents_decide `{SerdeJson} `{Deserialize VersionProbe} `{Deserialize WorkloadContractV1}
    `{Deserialize WorkloadContractV2} `{Deserialize RuntimePolicyRegistry}
    `{Deserialize RuntimePrivatePolicyRegistry} sha256_hash bytes :
  (∀ c, WorkloadContractV1_parse bytes = Ok c ↔ document CONTRACT_BYTES contract_valid bytes c) ∧
  (∀ r, registry_parse sha256_hash bytes = Ok r ↔
     document REGISTRY_BYTES (registry_valid sha256_hash) bytes r) ∧
  (∀ r, registry_parse_v2 sha256_hash bytes = Ok r ↔
     document REGISTRY_BYTES (registry_valid_v2 sha256_hash) bytes r) ∧
  (∀ c, WorkloadContract_parse bytes = Ok (Contract_V1 c) ↔
     document CONTRACT_BYTES contract_valid bytes c ∧
     ∃ p, from_slice bytes = Ok p ∧ probe_schema_version p = 1) ∧
  (∀ c, WorkloadContractV2_parse bytes = Ok c ↔
     document CONTRACT_BYTES (λ c, validate_v2 c = Ok ()) bytes c ∧
     ∃ p, from_slice bytes = Ok p ∧ probe_schema_version p = 2).
Proof.
  split_and!.
  - intros c. apply read_document_Ok, validate_Ok.
  - intros r. apply read_document_Ok, registry_validate_Ok.
  - intros r. apply read_document_Ok, registry_validate_v2_Ok.
  - intros c. rewrite contract_parse_Ok. split.
    + intros (Hs & Hk & p & Hp & [(Hv & c' & Hc & Hva & [= ->])|(_ & c' & _ & _ & [=])]).
      split; [|by exists p]. constructor; try done. by apply validate_Ok.
    + intros ([Hs Hk Hc Hva] & p & Hp & Hv). split_and!; try done. exists p. split; [done|]. left.
      split; [done|]. exists c. split_and!; try done. by apply validate_Ok.
  - intros c. unfold WorkloadContractV2_parse. rewrite bind_Ok. setoid_rewrite contract_parse_Ok. split.
    + intros (w & (Hs & Hk & p & Hp & [(_ & c' & _ & _ & ->)|(Hv & c' & Hc & Hva & ->)]) & E); [done|].
      simplify_eq. split; [|by exists p]. by constructor.
    + intros ([Hs Hk Hc Hva] & p & Hp & Hv). exists (Contract_V2 c). split; [|done].
      split_and!; try done. exists p. split; [done|]. right. split; [done|]. by exists c.
Qed.
