(* ===== verification/WindowsObservation.v ===== *)
(** * Windows process observation

    memcordon-core/src/windows_process_observation.rs: the bounded sample of a
    Job's members an observer keeps, the record it freezes to, and the check a
    reader makes of it, with the sampling step of the launcher's monitor
    (windows/launcher_service.rs) that drives the observer. *)

From S2P Require Import Prelude Decimal Bounded Diagnostics RecordLimits JsonDocuments.
From Stdlib Require Import Ascii.
From stdpp Require Import relations.
#[local] Open Scope N_scope.

Record WindowsProcessIdentityV1 : Type := { process_id : N; creation_time_100ns : N }.
#[global] Instance WindowsProcessIdentityV1_eq_dec : EqDecision WindowsProcessIdentityV1.
Proof. solve_decision. Defined.

Definition valid_identity (identity : WindowsProcessIdentityV1) : bool :=
  negb (process_id identity =? 0) && negb (creation_time_100ns identity =? 0).

(** ** Records *)

Record ProcessObservationPolicyV1 : Type := {
  po_snapshot_storage_bytes : N;
  po_sample_storage_bytes : N;
  po_serialized_field_bytes : N;
  po_snapshot_queries_per_tick : N;
  po_identity_queries_per_tick : N;
  po_sample_interval_millis : N
}.
#[global] Instance ProcessObservationPolicyV1_eq_dec : EqDecision ProcessObservationPolicyV1.
Proof. solve_decision. Defined.

Definition SERVICE : ProcessObservationPolicyV1 :=
  {| po_snapshot_storage_bytes := 256 * 1024; po_sample_storage_bytes := 24 * 1024;
     po_serialized_field_bytes := 128 * 1024; po_snapshot_queries_per_tick := 2;
     po_identity_queries_per_tick := 64; po_sample_interval_millis := 100 |}.

(** [size_of::<ProcessSampleEntryV1>()]: a [u32] padded to eight bytes and two [u64]. *)
Definition SAMPLE_ENTRY_BYTES : N := 24.
Definition sample_slots (self : ProcessObservationPolicyV1) : N :=
  po_sample_storage_bytes self / SAMPLE_ENTRY_BYTES.
Definition policy_is_valid (self : ProcessObservationPolicyV1) : bool :=
  (self ≟ SERVICE) && (0 <? sample_slots self).

Record ProcessObservationCountersV1 : Type := {
  polls_attempted : N;
  snapshots_obtained : N;
  identity_queries_attempted : N;
  identity_observations_verified : N;
  vanished_or_not_member : N;
  sample_evictions : N;
  counter_saturated : bool
}.
Record ProcessObservationOmissionsV1 : Type := {
  om_snapshot_byte_budget : N;
  om_snapshot_race_or_retry_budget : N;
  om_per_tick_query_budget : N;
  om_allocation_unavailable : N;
  om_sample_eviction : N
}.
Record ProcessSampleEntryV1 : Type := {
  se_identity : WindowsProcessIdentityV1;
  se_last_observation_sequence : N
}.

(** [visit_seq] of the bounded sample: the element after the last slot is
    refused before it is kept. *)
Fixpoint visit_sample (capacity : nat) (entries sequence : list ProcessSampleEntryV1)
    : result string (list ProcessSampleEntryV1) :=
  match capacity, sequence with
  | O, [] => Ok entries
  | O, _ :: _ => Err "process sample capacity exceeded"%string
  | S _, [] => Ok entries
  | S capacity, entry :: sequence => visit_sample capacity (entries ++ [entry]) sequence
  end.
Definition sample_deserialize (sequence : list ProcessSampleEntryV1)
    : result string (list ProcessSampleEntryV1) :=
  visit_sample (N.to_nat (sample_slots SERVICE)) [] sequence.

Inductive ProcessObservationUnavailableReasonV1 : Type :=
| WorkerLostBeforeFreeze | LegacyObservationUnavailable | TargetNotCreated.
#[global] Instance ProcessObservationUnavailableReasonV1_eq_dec :
  EqDecision ProcessObservationUnavailableReasonV1.
Proof. solve_decision. Defined.

Inductive ProcessObservationCoverageV1 : Type :=
| Sampled (policy : ProcessObservationPolicyV1) (counters : ProcessObservationCountersV1)
    (omissions : ProcessObservationOmissionsV1) (sample : list ProcessSampleEntryV1)
| CoverageUnavailable (reason : ProcessObservationUnavailableReasonV1).

Record WindowsJobAccountingObservationV1 : Type := {
  ac_total_processes : N;
  ac_active_processes : N;
  ac_observed_after_target_retirement : bool;
  ac_counter_regression_observed : bool
}.

Inductive WindowsQualificationWitnessRoleV1 : Type := NestedAlternateToken.
#[global] Instance WindowsQualificationWitnessRoleV1_eq_dec : EqDecision WindowsQualificationWitnessRoleV1.
Proof. solve_decision. Defined.

Record WindowsQualificationMembershipWitnessV1 : Type := {
  qw_schema_version : N;
  qw_role : WindowsQualificationWitnessRoleV1;
  qw_child_identity : WindowsProcessIdentityV1;
  qw_attempt_id : string;
  qw_nonce : string;
  qw_request_sha256 : string;
  qw_qualification_lease : string
}.

Record WindowsProcessObservationV2 : Type := {
  ob_schema_version : N;
  ob_coverage : ProcessObservationCoverageV1;
  ob_root_identity : option WindowsProcessIdentityV1;
  ob_final_accounting : option WindowsJobAccountingObservationV1;
  ob_required_witness : option WindowsQualificationMembershipWitnessV1
}.
#[global] Instance ProcessObservationCountersV1_eq_dec : EqDecision ProcessObservationCountersV1.
Proof. solve_decision. Defined.
#[global] Instance ProcessObservationOmissionsV1_eq_dec : EqDecision ProcessObservationOmissionsV1.
Proof. solve_decision. Defined.
#[global] Instance ProcessSampleEntryV1_eq_dec : EqDecision ProcessSampleEntryV1.
Proof. solve_decision. Defined.
#[global] Instance ProcessObservationCoverageV1_eq_dec : EqDecision ProcessObservationCoverageV1.
Proof. solve_decision. Defined.
#[global] Instance WindowsJobAccountingObservationV1_eq_dec : EqDecision WindowsJobAccountingObservationV1.
Proof. solve_decision. Defined.
#[global] Instance WindowsQualificationMembershipWitnessV1_eq_dec :
  EqDecision WindowsQualificationMembershipWitnessV1.
Proof. solve_decision. Defined.
#[global] Instance WindowsProcessObservationV2_eq_dec : EqDecision WindowsProcessObservationV2.
Proof. solve_decision. Defined.

Definition observation_unavailable (reason : ProcessObservationUnavailableReasonV1)
    : WindowsProcessObservationV2 :=
  {| ob_schema_version := 2; ob_coverage := CoverageUnavailable reason; ob_root_identity := None;
     ob_final_accounting := None; ob_required_witness := None |}.

(** One entry of the loop over the sample; [prior] is [sample[..index]]. *)
Fixpoint validate_sample (prior rest : list ProcessSampleEntryV1) : result string () :=
  match rest with
  | [] => Ok ()
  | entry :: rest =>
      guard_err (negb (valid_identity (se_identity entry))
                 || (se_last_observation_sequence entry =? 0)
                 || existsb (λ p, se_identity p ≟ se_identity entry) prior)
        "process_observation.sample"%string ;;
      validate_sample (prior ++ [entry]) rest
  end.

Definition witness_is_invalid (self : WindowsProcessObservationV2) (attempt_id nonce request_sha256 : string)
    (witness : WindowsQualificationMembershipWitnessV1) : bool :=
  negb (qw_schema_version witness =? 1)
  || negb (valid_identity (qw_child_identity witness))
  || (qw_attempt_id witness ≠? attempt_id)
  || (qw_nonce witness ≠? nonce)
  || (qw_request_sha256 witness ≠? request_sha256)
  || str_is_empty (qw_qualification_lease witness)
  || (ob_root_identity self ≟ Some (qw_child_identity witness)).

Definition observation_validate `{Serialize WindowsProcessObservationV2}
    (self : WindowsProcessObservationV2) (attempt_id nonce request_sha256 : string) : result string () :=
  guard_err (negb (ob_schema_version self =? 2)) "process_observation.schema_version"%string ;;
  guard_err (is_some_and (λ identity, negb (valid_identity identity)) (ob_root_identity self))
    "process_observation.root_identity"%string ;;
  guard_err (is_some_and (witness_is_invalid self attempt_id nonce request_sha256) (ob_required_witness self))
    "process_observation.required_witness"%string ;;
  match ob_coverage self with
  | CoverageUnavailable reason =>
      guard_err (is_some (ob_required_witness self)
                 || ((reason ≟ TargetNotCreated)
                     && (is_some (ob_root_identity self) || is_some (ob_final_accounting self))))
        "process_observation.unavailable"%string
  | Sampled policy counters omissions sample =>
      guard_err (negb (policy_is_valid policy) || (sample_slots policy <? N.of_nat (length sample)))
        "process_observation.policy_or_capacity"%string ;;
      guard_err ((polls_attempted counters <? snapshots_obtained counters)
                 || (identity_queries_attempted counters <? identity_observations_verified counters)
                 || (identity_queries_attempted counters <? vanished_or_not_member counters)
                 || negb (om_sample_eviction omissions =? sample_evictions counters))
        "process_observation.counters"%string ;;
      validate_sample [] sample ;;
      wire ← map_err (λ _, "process_observation.wire_budget"%string)
               (bounded_json_bytes self (po_serialized_field_bytes policy));
      guard_err (po_serialized_field_bytes policy <? N.of_nat (length wire))
        "process_observation.wire_budget"%string
  end.

(** ** The observer *)

Record ProcessObserver : Type := {
  pv_policy : ProcessObservationPolicyV1;
  pv_counters : ProcessObservationCountersV1;
  pv_omissions : ProcessObservationOmissionsV1;
  pv_sample : list ProcessSampleEntryV1;
  pv_sample_storage_available : bool;
  pv_sequence : N;
  pv_final_accounting : option WindowsJobAccountingObservationV1;
  pv_last_total : option N
}.

Definition counters_default : ProcessObservationCountersV1 :=
  {| polls_attempted := 0; snapshots_obtained := 0; identity_queries_attempted := 0;
     identity_observations_verified := 0; vanished_or_not_member := 0; sample_evictions := 0;
     counter_saturated := false |}.
Definition omissions_default : ProcessObservationOmissionsV1 :=
  {| om_snapshot_byte_budget := 0; om_snapshot_race_or_retry_budget := 0;
     om_per_tick_query_budget := 0; om_allocation_unavailable := 0; om_sample_eviction := 0 |}.

(** The sample's allocation is taken to succeed; [without_sample_storage] is the
    other case. *)
Definition ProcessObserver_new (policy : ProcessObservationPolicyV1) : result string ProcessObserver :=
  guard_err (negb (policy_is_valid policy)) "invalid process observation policy"%string ;;
  Ok {| pv_policy := policy; pv_counters := counters_default; pv_omissions := omissions_default;
        pv_sample := []; pv_sample_storage_available := true; pv_sequence := 0;
        pv_final_accounting := None; pv_last_total := None |}.

Definition without_sample_storage : ProcessObserver :=
  {| pv_policy := SERVICE; pv_counters := counters_default;
     pv_omissions :=
       {| om_snapshot_byte_budget := 0; om_snapshot_race_or_retry_budget := 0;
          om_per_tick_query_budget := 0; om_allocation_unavailable := 1; om_sample_eviction := 0 |};
     pv_sample := []; pv_sample_storage_available := false; pv_sequence := 0;
     pv_final_accounting := None; pv_last_total := None |}.

(** [increment]: the counter, and the flag it raises instead of overflowing. *)
Definition increment (counter : N) (saturated : bool) : N * bool :=
  match checked_add 64 counter 1 with
  | Some next => (next, saturated)
  | None => (counter, true)
  end.

(** Which counter of the counters or omissions an operation increments. *)
Inductive counter : Type :=
| Polls | Snapshots | Queries | VerifiedObservations | Vanished | Evictions
| Omit_bytes | Omit_race | Omit_queries | Omit_allocation | Omit_evictions | Sequence.

Definition get_counter (c : counter) (self : ProcessObserver) : N :=
  match c with
  | Polls => polls_attempted (pv_counters self)
  | Snapshots => snapshots_obtained (pv_counters self)
  | Queries => identity_queries_attempted (pv_counters self)
  | VerifiedObservations => identity_observations_verified (pv_counters self)
  | Vanished => vanished_or_not_member (pv_counters self)
  | Evictions => sample_evictions (pv_counters self)
  | Omit_bytes => om_snapshot_byte_budget (pv_omissions self)
  | Omit_race => om_snapshot_race_or_retry_budget (pv_omissions self)
  | Omit_queries => om_per_tick_query_budget (pv_omissions self)
  | Omit_allocation => om_allocation_unavailable (pv_omissions self)
  | Omit_evictions => om_sample_eviction (pv_omissions self)
  | Sequence => pv_sequence self
  end.
#[global] Instance counter_eq_dec : EqDecision counter.
Proof. solve_decision. Defined.

(** [increment(&mut self.<counter>, &mut self.counters.counter_saturated)] *)
Definition count (c : counter) (self : ProcessObserver) : ProcessObserver :=
  let '(next, saturated) := increment (get_counter c self) (counter_saturated (pv_counters self)) in
  let value d := if c ≟ d then next else get_counter d self in
  {| pv_policy := pv_policy self;
     pv_counters :=
       {| polls_attempted := value Polls; snapshots_obtained := value Snapshots;
          identity_queries_attempted := value Queries;
          identity_observations_verified := value VerifiedObservations;
          vanished_or_not_member := value Vanished; sample_evictions := value Evictions;
          counter_saturated := saturated |};
     pv_omissions :=
       {| om_snapshot_byte_budget := value Omit_bytes;
          om_snapshot_race_or_retry_budget := value Omit_race;
          om_per_tick_query_budget := value Omit_queries;
          om_allocation_unavailable := value Omit_allocation;
          om_sample_eviction := value Omit_evictions |};
     pv_sample := pv_sample self; pv_sample_storage_available := pv_sample_storage_available self;
     pv_sequence := value Sequence; pv_final_accounting := pv_final_accounting self;
     pv_last_total := pv_last_total self |}.

Definition attempt_poll : ProcessObserver → ProcessObserver := count Polls.
Definition snapshot_obtained : ProcessObserver → ProcessObserver := count Snapshots.
Definition identity_query_attempted : ProcessObserver → ProcessObserver := count Queries.
Definition observe_vanished_or_not_member : ProcessObserver → ProcessObserver := count Vanished.
Definition omit_snapshot_byte_budget : ProcessObserver → ProcessObserver := count Omit_bytes.
Definition omit_snapshot_race_or_retry_budget : ProcessObserver → ProcessObserver := count Omit_race.
Definition omit_per_tick_query_budget : ProcessObserver → ProcessObserver := count Omit_queries.
Definition omit_allocation_unavailable : ProcessObserver → ProcessObserver := count Omit_allocation.

Definition set_sample (sample : list ProcessSampleEntryV1) (self : ProcessObserver) : ProcessObserver :=
  {| pv_policy := pv_policy self; pv_counters := pv_counters self; pv_omissions := pv_omissions self;
     pv_sample := sample; pv_sample_storage_available := pv_sample_storage_available self;
     pv_sequence := pv_sequence self; pv_final_accounting := pv_final_accounting self;
     pv_last_total := pv_last_total self |}.

(** [iter_mut().find(..)] and the assignment to the entry it finds. *)
Fixpoint touch (identity : WindowsProcessIdentityV1) (sequence : N) (l : list ProcessSampleEntryV1)
    : option (list ProcessSampleEntryV1) :=
  match l with
  | [] => None
  | entry :: l =>
      if se_identity entry ≟ identity
      then Some ({| se_identity := se_identity entry; se_last_observation_sequence := sequence |} :: l)
      else cons entry <$> touch identity sequence l
  end.

Definition observe_identity (identity : WindowsProcessIdentityV1) (self : ProcessObserver)
    : ProcessObserver * result string () :=
  if negb (valid_identity identity) then (self, Err "invalid verified process identity"%string)
  else
    let self := count Sequence (count VerifiedObservations self) in
    if negb (pv_sample_storage_available self) then (self, Ok ())
    else
      match touch identity (pv_sequence self) (pv_sample self) with
      | Some sample => (set_sample sample self, Ok ())
      | None =>
          let self :=
            if N.of_nat (length (pv_sample self)) =? sample_slots (pv_policy self)
            then count Omit_evictions (count Evictions (set_sample (drop 1 (pv_sample self)) self))
            else self in
          (set_sample (pv_sample self
                         ++ [{| se_identity := identity;
                                se_last_observation_sequence := pv_sequence self |}]) self, Ok ())
      end.

Definition observe_accounting (total active : N) (after_retirement : bool) (self : ProcessObserver)
    : ProcessObserver :=
  let regression :=
    is_some_and (λ prior, total <? prior) (pv_last_total self)
    || is_some_and ac_counter_regression_observed (pv_final_accounting self) in
  {| pv_policy := pv_policy self; pv_counters := pv_counters self; pv_omissions := pv_omissions self;
     pv_sample := pv_sample self; pv_sample_storage_available := pv_sample_storage_available self;
     pv_sequence := pv_sequence self;
     pv_final_accounting :=
       Some {| ac_total_processes := total; ac_active_processes := active;
               ac_observed_after_target_retirement := after_retirement;
               ac_counter_regression_observed := regression |};
     pv_last_total := Some total |}.

Definition freeze (self : ProcessObserver) (root_identity : option WindowsProcessIdentityV1)
    (required_witness : option WindowsQualificationMembershipWitnessV1) : WindowsProcessObservationV2 :=
  {| ob_schema_version := 2;
     ob_coverage := Sampled (pv_policy self) (pv_counters self) (pv_omissions self) (pv_sample self);
     ob_root_identity := root_identity; ob_final_accounting := pv_final_accounting self;
     ob_required_witness := required_witness |}.

(** ** The sampling step of the launcher's monitor

    One observation of the loop in launcher_service.rs: a bounded snapshot of the
    Job, then at most [identity_queries_per_tick] identity queries, starting where
    the last snapshot stopped.  The host answers the snapshot and the queries, and
    says before which query the monitor ends (deadline, lost frontend). *)

Inductive BoundedProcessSnapshot : Type :=
| Complete (process_ids : list N) | ByteBudget | RetryBudget | AllocationUnavailable.

Inductive sampling_end : Type := SampledTick | MonitorEnded | SamplingFailed (error : string).

Fixpoint query_loop (query : N → result string (option WindowsProcessIdentityV1)) (ends : nat → bool)
    (process_ids : list N) (snapshot_offset : nat) (indices : list nat) (observer : ProcessObserver)
    : ProcessObserver * sampling_end :=
  match indices with
  | [] => (observer, SampledTick)
  | index :: indices =>
      if ends index then (observer, MonitorEnded)
      else
        let offset := ((snapshot_offset + index) mod length process_ids)%nat in
        let observer := identity_query_attempted observer in
        match query (default 0 (process_ids !! offset)) with
        | Err e => (observer, SamplingFailed e)
        | Ok (Some found) =>
            match observe_identity found observer with
            | (observer, Ok _) => query_loop query ends process_ids snapshot_offset indices observer
            | (observer, Err e) => (observer, SamplingFailed e)
            end
        | Ok None =>
            query_loop query ends process_ids snapshot_offset indices
              (observe_vanished_or_not_member observer)
        end
  end.

Definition sample_tick (snapshot : result string BoundedProcessSnapshot)
    (query : N → result string (option WindowsProcessIdentityV1)) (ends : nat → bool)
    (snapshot_offset : nat) (observer : ProcessObserver) : ProcessObserver * nat * sampling_end :=
  let observer := attempt_poll observer in
  match snapshot with
  | Err e => (observer, snapshot_offset, SamplingFailed e)
  | Ok (Complete process_ids) =>
      let observer := snapshot_obtained observer in
      let budget := N.to_nat (po_identity_queries_per_tick SERVICE) in
      let observer :=
        if (budget <? length process_ids)%nat then omit_per_tick_query_budget observer else observer in
      let count := (length process_ids `min` budget)%nat in
      match query_loop query ends process_ids snapshot_offset (seq 0 count) observer with
      | (observer, SampledTick) =>
          (observer,
           match process_ids with
           | [] => snapshot_offset
           | _ :: _ => ((snapshot_offset + count) mod length process_ids)%nat
           end, SampledTick)
      | (observer, e) => (observer, snapshot_offset, e)
      end
  | Ok ByteBudget => (omit_snapshot_byte_budget observer, snapshot_offset, SampledTick)
  | Ok RetryBudget => (omit_snapshot_race_or_retry_budget observer, snapshot_offset, SampledTick)
  | Ok AllocationUnavailable => (omit_allocation_unavailable observer, snapshot_offset, SampledTick)
  end.

(** ** What an observer always knows *)

Record observer_ok (o : ProcessObserver) : Prop := {
  ok_policy : pv_policy o = SERVICE;
  ok_snapshots : get_counter Snapshots o <= get_counter Polls o;
  ok_verified : get_counter VerifiedObservations o <= get_counter Queries o;
  ok_vanished : get_counter Vanished o <= get_counter Queries o;
  ok_evictions : get_counter Omit_evictions o = get_counter Evictions o;
  ok_width : ∀ c, get_counter c o < 2 ^ 64;
  ok_size : N.of_nat (length (pv_sample o)) <= sample_slots SERVICE;
  ok_distinct : NoDup (se_identity <$> pv_sample o);
  ok_entries : Forall (λ e, valid_identity (se_identity e) = true ∧
                            0 < se_last_observation_sequence e <= get_counter Sequence o) (pv_sample o);
  ok_storage : pv_sample_storage_available o = false → pv_sample o = []
}.

Definition step_of (n : N) : N := if n + 1 <? 2 ^ 64 then n + 1 else n.

Lemma get_counter_count c d o : get_counter d (count c o) = if c ≟ d then step_of (get_counter c o) else get_counter d o.
Proof.
  unfold count, increment, checked_add, fits, step_of. destruct (_ <? _), d; cbn; case_bool_decide; by subst.
Qed.
Lemma count_frame c o :
  pv_policy (count c o) = pv_policy o ∧ pv_sample (count c o) = pv_sample o ∧
  pv_sample_storage_available (count c o) = pv_sample_storage_available o.
Proof. unfold count. by destruct (increment _ _). Qed.
Lemma step_of_bounds n : n < 2 ^ 64 → n <= step_of n ∧ step_of n < 2 ^ 64 ∧ 0 < step_of n.
Proof. unfold step_of. destruct (N.ltb_spec (n + 1) (2 ^ 64)); lia. Qed.
Lemma step_of_le a b : a <= b → b < 2 ^ 64 → step_of a <= step_of b.
Proof. unfold step_of. destruct (N.ltb_spec (a + 1) (2 ^ 64)), (N.ltb_spec (b + 1) (2 ^ 64)); lia. Qed.

(** Counters only grow, and a later counter of a pair never overtakes the first. *)
Lemma count_ok c o :
  observer_ok o → c ∈ [Polls; Queries; Omit_bytes; Omit_race; Omit_queries; Omit_allocation; Sequence] →
  observer_ok (count c o).
Proof.
  intros H Hc. destruct H as [Hp Hs Hv Hn He Hw Hz Hd Hf Ht].
  destruct (count_frame c o) as (Fp & Fs & Fa).
  assert (∀ d, get_counter d o <= get_counter d (count c o) < 2 ^ 64) as Hg.
  { intros d. rewrite get_counter_count. pose proof (step_of_bounds _ (Hw c)). pose proof (Hw d).
    case_bool_decide; subst; lia. }
  assert (∀ d, c ≠ d → get_counter d (count c o) = get_counter d o) as Hk.
  { intros d Hne. rewrite get_counter_count. by rewrite bool_decide_eq_false_2. }
  assert (c ≠ Snapshots ∧ c ≠ VerifiedObservations ∧ c ≠ Vanished ∧ c ≠ Omit_evictions ∧ c ≠ Evictions)
    as (N1 & N2 & N3 & N4 & N5) by (set_unfold in Hc; naive_solver).
  pose proof (Hg Polls). pose proof (Hg Queries). pose proof (Hg Sequence).
  constructor; rewrite ?Fp, ?Fs, ?Fa; try done; try (rewrite ?(Hk Snapshots), ?(Hk VerifiedObservations),
    ?(Hk Vanished), ?(Hk Omit_evictions), ?(Hk Evictions) by done; lia).
  - intros d. apply Hg.
  - eapply Forall_impl; [exact Hf|]. intros e [? ?]. split; [done|lia].
Qed.

(** A query or a poll, then the counter of its outcome. *)
Lemma count_pair_ok first second o :
  observer_ok o →
  (first, second) ∈ [(Polls, Snapshots); (Queries, VerifiedObservations); (Queries, Vanished)] →
  observer_ok (count second (count first o)).
Proof.
  intros H Hc. destruct H as [Hp Hs Hv Hn He Hw Hz Hd Hf Ht].
  destruct (count_frame first o) as (Fp & Fs & Fa).
  destruct (count_frame second (count first o)) as (Gp & Gs & Ga).
  assert (∀ d, get_counter d (count second (count first o)) =
    if bool_decide (first = d) || bool_decide (second = d) then step_of (get_counter d o) else get_counter d o)
    as Hg.
  { intros d. rewrite !get_counter_count. assert (first ≠ second) by (set_unfold in Hc; naive_solver).
    repeat case_bool_decide; simplify_eq/=; done. }
  pose proof (step_of_le _ _ Hs (Hw Polls)). pose proof (step_of_le _ _ Hv (Hw Queries)).
  pose proof (step_of_le _ _ Hn (Hw Queries)). pose proof (step_of_bounds _ (Hw Queries)).
  assert ((first = Polls ∧ second = Snapshots) ∨ (first = Queries ∧ second = VerifiedObservations) ∨
          (first = Queries ∧ second = Vanished)) as Hcases.
  { repeat (apply elem_of_cons in Hc as [Hc|Hc]; [simplify_eq; naive_solver|]).
    by apply not_elem_of_nil in Hc. }
  clear Hc. constructor; rewrite ?Gp, ?Gs, ?Ga, ?Fp, ?Fs, ?Fa; try done; rewrite ?Hg.
  1-4: destruct Hcases as [[-> ->]|[[-> ->]|[-> ->]]]; repeat (case_bool_decide; try discriminate);
    cbn [orb]; first [done|lia].
  - intros d. rewrite Hg. pose proof (step_of_bounds _ (Hw d)). pose proof (Hw d). destruct (_ || _); lia.
  - destruct Hcases as [[-> ->]|[[-> ->]|[-> ->]]]; done.
Qed.

Lemma set_sample_ok l o :
  observer_ok o → N.of_nat (length l) <= sample_slots SERVICE → NoDup (se_identity <$> l) →
  Forall (λ e, valid_identity (se_identity e) = true ∧
               0 < se_last_observation_sequence e <= get_counter Sequence o) l →
  (pv_sample_storage_available o = false → l = []) →
  observer_ok (set_sample l o).
Proof. intros [] H1 H2 H3 H4. by constructor. Qed.

Lemma eviction_ok o : observer_ok o → observer_ok (count Omit_evictions (count Evictions o)).
Proof.
  intros [Hp Hs Hv Hn He Hw Hz Hd Hf Ht]. destruct (count_frame Evictions o) as (Fp & Fs & Fa).
  destruct (count_frame Omit_evictions (count Evictions o)) as (Gp & Gs & Ga).
  assert (∀ d, get_counter d (count Omit_evictions (count Evictions o)) =
    if bool_decide (Evictions = d) || bool_decide (Omit_evictions = d)
    then step_of (get_counter Evictions o) else get_counter d o) as Hg.
  { intros d. rewrite !get_counter_count. repeat case_bool_decide; simplify_eq/=; congruence. }
  constructor; rewrite ?Gp, ?Gs, ?Ga, ?Fp, ?Fs, ?Fa; try done; rewrite ?Hg; try done.
  intros d. rewrite Hg. pose proof (step_of_bounds _ (Hw Evictions)). pose proof (Hw d). destruct (_ || _); lia.
Qed.

Lemma touch_Some identity sequence l l' :
  touch identity sequence l = Some l' →
  se_identity <$> l' = se_identity <$> l ∧ length l' = length l ∧
  (∀ e, e ∈ l' → e ∈ l ∨ (se_last_observation_sequence e = sequence ∧ se_identity e = identity)).
Proof.
  revert l'. induction l as [|x l IH]; intros l' H; cbn in H; [done|]. case_bool_decide as E.
  - injection H as <-. cbn. split_and!; [done|done|]. intros e [->|?]%elem_of_cons; [by right|].
    left. by right.
  - destruct (touch identity sequence l) as [t|] eqn:Et; [|done]. injection H as <-.
    destruct (IH t eq_refl) as (I1 & I2 & I3). cbn. split_and!; [by rewrite I1|by rewrite I2|].
    intros e [->|He]%elem_of_cons; [left; left|]. destruct (I3 e He); [left; by right|by right].
Qed.
Lemma touch_None identity sequence l : touch identity sequence l = None → identity ∉ (se_identity <$> l).
Proof.
  induction l as [|x l IH]; cbn; [intros _ H; by apply not_elem_of_nil in H|]. case_bool_decide as E; [done|].
  destruct (touch identity sequence l); [done|]. intros _ [->|H]%elem_of_cons; [done|]. by apply IH.
Qed.

(** A new entry at the end of a sample with a free slot. *)
Lemma push_entry_ok found o :
  observer_ok o → valid_identity found = true → 0 < get_counter Sequence o →
  pv_sample_storage_available o = true → found ∉ (se_identity <$> pv_sample o) →
  N.of_nat (length (pv_sample o)) < sample_slots SERVICE →
  observer_ok (set_sample (pv_sample o ++
    [{| se_identity := found; se_last_observation_sequence := pv_sequence o |}]) o).
Proof.
  intros H Hv Hs Ha Hn Hl. pose proof H as [_ _ _ _ _ _ Hz Hd Hf _].
  apply set_sample_ok; [done|rewrite length_app; cbn; lia| | |congruence].
  - rewrite fmap_app. cbn. apply NoDup_app. split_and!; [done| |apply NoDup_singleton].
    by intros x Hx ->%list_elem_of_singleton.
  - apply Forall_app. split; [done|]. apply Forall_singleton. cbn. split; [done|]. cbn in Hs. lia.
Qed.

Lemma observe_identity_ok found o :
  observer_ok o → observer_ok (observe_identity found (identity_query_attempted o)).1.
Proof.
  intros H. unfold observe_identity. destruct (valid_identity found) eqn:Ev; cbn [negb];
    [|by apply count_ok; [|set_solver]].
  set (o2 := count Sequence (count VerifiedObservations (identity_query_attempted o))).
  assert (observer_ok o2) as H2.
  { apply count_ok; [|set_solver]. by apply (count_pair_ok Queries); [|set_solver]. }
  assert (0 < get_counter Sequence o2) as Hs.
  { unfold o2. rewrite get_counter_count, bool_decide_eq_true_2 by done. apply step_of_bounds.
    pose proof (count_pair_ok Queries VerifiedObservations o H ltac:(set_solver)) as []. apply ok_width0. }
  clearbody o2. clear H o. destruct (pv_sample_storage_available o2) eqn:Ea; cbn [negb fst]; [|done].
  destruct (touch found (pv_sequence o2) (pv_sample o2)) as [l|] eqn:Et; cbn [fst].
  - apply touch_Some in Et as (T1 & T2 & T3). pose proof H2 as [_ _ _ _ _ _ Hz Hd Hf _].
    apply set_sample_ok; [done|lia|by rewrite T1| |congruence].
    apply Forall_forall. intros e [He|[E1 E2]]%T3; [by eapply Forall_forall in Hf|].
    rewrite E1, E2. split; [done|]. cbn. cbn in Hs. lia.
  - apply touch_None in Et. pose proof H2 as [Hp _ _ _ _ _ Hz Hd Hf _].
    rewrite Hp. destruct (N.eqb_spec (N.of_nat (length (pv_sample o2))) (sample_slots SERVICE)) as [El|El].
    + set (o3 := set_sample (drop 1 (pv_sample o2)) o2).
      assert (observer_ok o3) as H3.
      { apply set_sample_ok; [done| | | |congruence].
        - rewrite length_drop. lia.
        - rewrite fmap_drop. apply (sublist_NoDup _ (se_identity <$> pv_sample o2)); [done|apply sublist_drop].
        - by apply Forall_drop. }
      destruct (count_frame Evictions o3) as (_ & Fs & Fa).
      destruct (count_frame Omit_evictions (count Evictions o3)) as (_ & Gs & Ga).
      apply push_entry_ok; [by apply eviction_ok|done| | | |].
      * by rewrite !get_counter_count.
      * by rewrite Ga, Fa.
      * rewrite Gs, Fs. cbn [o3 set_sample pv_sample]. rewrite fmap_drop. intros Hin. apply Et.
        eapply elem_of_sublist; [exact Hin|apply sublist_drop].
      * rewrite Gs, Fs. cbn [o3 set_sample pv_sample]. rewrite length_drop.
        change (sample_slots SERVICE) with 1024 in *. lia.
    + apply push_entry_ok; try done. lia.
Qed.

Lemma observe_accounting_ok total active after o :
  observer_ok o → observer_ok (observe_accounting total active after o).
Proof. intros []. by constructor. Qed.

Lemma query_loop_ok query ends process_ids offset indices o :
  observer_ok o → observer_ok (query_loop query ends process_ids offset indices o).1.
Proof.
  revert o. induction indices as [|i indices IH]; intros o H; cbn; [done|].
  destruct (ends i); [done|]. destruct (query _) as [[found|]|e]; cbn.
  - pose proof (observe_identity_ok found o H) as Hi.
    destruct (observe_identity found (identity_query_attempted o)) as [o' [[]|e]]; [by apply IH|done].
  - apply IH. by apply (count_pair_ok Queries); [|set_solver].
  - by apply count_ok; [|set_solver].
Qed.

Lemma sample_tick_ok snapshot query ends offset o :
  observer_ok o → observer_ok (sample_tick snapshot query ends offset o).1.1.
Proof.
  intros H. unfold sample_tick. destruct snapshot as [[ids| | |]|e]; cbn [fst snd].
  2-5: repeat (apply count_ok; [|set_solver]); done.
  set (o1 := if (_ <? _)%nat then _ else _). assert (observer_ok o1) as H1.
  { unfold o1. destruct (_ <? _)%nat; [apply count_ok; [|set_solver]|];
      by apply (count_pair_ok Polls); [|set_solver]. }
  pose proof (query_loop_ok query ends ids offset
    (seq 0 (length ids `min` N.to_nat (po_identity_queries_per_tick SERVICE))) o1 H1) as Hq.
  destruct (query_loop _ _ _ _ _ _) as [o' []]; exact Hq.
Qed.

Lemma ProcessObserver_new_ok policy o : ProcessObserver_new policy = Ok o → observer_ok o.
Proof.
  unfold ProcessObserver_new. intros (? & Hg & [= <-])%bind_Ok. apply guard_err_Ok in Hg.
  unfold policy_is_valid in Hg. destruct (policy ≟ SERVICE) eqn:E; [|done]. apply bool_decide_eq_true in E as ->.
  constructor; try done; [intros []; done|apply NoDup_nil_2].
Qed.
Lemma without_sample_storage_ok : observer_ok without_sample_storage.
Proof. constructor; try done; [intros []; done|apply NoDup_nil_2]. Qed.

(** *** The monitor as a transition system *)

Inductive observer_step : ProcessObserver → ProcessObserver → Prop :=
| step_tick snapshot query ends offset o :
    observer_step o (sample_tick snapshot query ends offset o).1.1
| step_accounting total active after o :
    observer_step o (observe_accounting total active after o).
Inductive observer_start : ProcessObserver → Prop :=
| start_new policy o : ProcessObserver_new policy = Ok o → observer_start o
| start_without_storage : observer_start without_sample_storage.

Lemma observer_reachable_ok o o' : observer_start o → rtc observer_step o o' → observer_ok o'.
Proof.
  intros Hs Hr. assert (observer_ok o) as H
    by (destruct Hs; [by eapply ProcessObserver_new_ok|apply without_sample_storage_ok]).
  clear Hs. induction Hr as [|o1 o2 o3 Hst _ IH]; [done|]. apply IH.
  destruct Hst; [by apply sample_tick_ok|by apply observe_accounting_ok].
Qed.

Lemma validate_sample_Ok prior rest :
  validate_sample prior rest = Ok () ↔
  Forall (λ e, valid_identity (se_identity e) = true ∧ 0 < se_last_observation_sequence e) rest ∧
  NoDup (se_identity <$> rest) ∧ (∀ e, e ∈ rest → se_identity e ∉ (se_identity <$> prior)).
Proof.
  revert prior. induction rest as [|e rest IH]; intros prior; cbn.
  { split; [|done]. intros _. split_and!; [constructor|apply NoDup_nil_2|]. by intros ? ?%not_elem_of_nil. }
  rewrite Forall_cons, NoDup_cons. split.
  - intros ([] & Hg & Hr)%bind_Ok. apply guard_err_Ok in Hg. rewrite !orb_false_iff in Hg.
    destruct Hg as [[Hv Hs] Hx]. apply IH in Hr as (F & D & P). apply N.eqb_neq in Hs.
    rewrite existsb_false_elem in Hx. split_and!; try done.
    + by apply negb_false_iff.
    + lia.
    + intros (e' & He & Hin)%list_elem_of_fmap. apply (P _ Hin). rewrite <- He, fmap_app.
      apply elem_of_app. right. cbn. by apply list_elem_of_singleton.
    + intros x [->|Hin]%elem_of_cons.
      * intros (p & Hp & Hin)%list_elem_of_fmap. specialize (Hx p Hin). by apply bool_decide_eq_false in Hx.
      * intros Hp. apply (P _ Hin). rewrite fmap_app. apply elem_of_app. by left.
  - intros ([[Hv Hs] F] & [Hni D] & P).
    replace (guard_err _ _) with (Ok () : result string ()).
    + cbn. apply IH. split_and!; [done|done|]. intros x Hx. rewrite fmap_app. cbn.
      intros [Hp|Hp%list_elem_of_singleton]%elem_of_app; [by apply (P x); [right|]|].
      apply Hni. rewrite <- Hp. by apply list_elem_of_fmap_2.
    + symmetry. apply guard_err_Ok. rewrite Hv. cbn. destruct (N.eqb_spec (se_last_observation_sequence e) 0); [lia|].
      apply existsb_false_elem. intros p Hp. apply bool_decide_eq_false. intros Heq.
      apply (P e); [left|]. rewrite <- Heq. by apply list_elem_of_fmap_2.
Qed.

(** *** Freezing *)

Section Freeze.
Context `{Serialize WindowsProcessObservationV2}.

(** The monitor of a sealed launch never produces an observation its readers
    refuse.  Whatever the host answers to snapshots and identity queries, in
    whatever order samples and accounting readings come, and whenever the monitor
    is cut off, freezing the observer gives a record [observation_validate]
    accepts, as long as the root identity and the witness it is given are valid
    and the record's JSON fits the field's budget. *)
Theorem frozen_observation_validates o o' root witness attempt nonce request wire :
  observer_start o → rtc observer_step o o' →
  is_none_or valid_identity root = true →
  is_none_or (λ w, negb (witness_is_invalid (freeze o' root witness) attempt nonce request w)) witness = true →
  to_vec (freeze o' root witness) = Ok wire → N.of_nat (length wire) < po_serialized_field_bytes SERVICE →
  observation_validate (freeze o' root witness) attempt nonce request = Ok ().
Proof.
  intros Hs Hr Hroot Hw Hv Hl. pose proof (observer_reachable_ok o o' Hs Hr) as [Hp Hsn Hve Hva He _ Hz Hd Hf _].
  unfold observation_validate. cbn [freeze ob_schema_version ob_root_identity ob_required_witness ob_coverage].
  replace (guard_err (is_some_and _ root) _) with (Ok () : result string ())
    by (destruct root; cbn in *; by rewrite ?Hroot).
  replace (guard_err (is_some_and _ witness) _) with (Ok () : result string ()).
  2: { symmetry. apply guard_err_Ok. destruct witness as [w|]; cbn in *; [|done]. by apply negb_true_iff. }
  cbn -[N.leb N.ltb N.mul]. rewrite Hp. cbn in Hsn, Hve, Hva, He.
  replace (guard_err (negb (policy_is_valid SERVICE) || _) _) with (Ok () : result string ()).
  2: { symmetry. apply guard_err_Ok. apply orb_false_iff. split; [done|]. by apply N.ltb_ge. }
  replace (guard_err (_ || _ || _ || _) _) with (Ok () : result string ()).
  2: { symmetry. apply guard_err_Ok. rewrite !orb_false_iff, !N.ltb_ge, negb_false_iff, N.eqb_eq. done. }
  cbn [mbind result_bind].
  assert (validate_sample [] (pv_sample o') = Ok ()) as Hok.
  { apply validate_sample_Ok. split_and!; [|done|by intros ? ? ?%not_elem_of_nil].
    eapply Forall_impl; [exact Hf|]. cbn. intros e [? ?]. split; [done|lia]. }
  rewrite Hok. assert (bounded_json_bytes (freeze o' root witness) (po_serialized_field_bytes SERVICE) =
    Ok (wire ++ [ascii_of_N 10])) as Hb by (apply bounded_json_bytes_Ok; eauto).
  rewrite Hb. apply guard_err_Ok. cbn [mbind]. rewrite length_app. apply N.ltb_ge. cbn [length]. lia.
Qed.
End Freeze.

(** *** Accounting

    The totals a run reads, in order, and the flag of its last reading. *)
Inductive accounted : list N → ProcessObserver → ProcessObserver → Prop :=
| accounted_refl o : accounted [] o o
| accounted_tick totals snapshot query ends offset o o' :
    accounted totals (sample_tick snapshot query ends offset o).1.1 o' → accounted totals o o'
| accounted_reading total totals active after o o' :
    accounted totals (observe_accounting total active after o) o' → accounted (total :: totals) o o'.

(** Some total is below the one read just before it. *)
Fixpoint regresses (prior : option N) (totals : list N) : bool :=
  match totals with
  | [] => false
  | total :: totals => is_some_and (λ p, total <? p) prior || regresses (Some total) totals
  end.

Definition same_accounting (o o' : ProcessObserver) : Prop :=
  pv_final_accounting o = pv_final_accounting o' ∧ pv_last_total o = pv_last_total o'.
#[global] Instance same_accounting_equiv : Equivalence same_accounting.
Proof. split; unfold same_accounting; [intros ?|intros ?? []|intros ??? [] []]; split; congruence. Qed.

Lemma count_same_accounting c o : same_accounting (count c o) o.
Proof. unfold count. by destruct (increment _ _). Qed.
Lemma observe_identity_same_accounting found o : same_accounting (observe_identity found o).1 o.
Proof.
  unfold observe_identity. destruct (negb (valid_identity found)); [done|].
  set (o2 := count Sequence _).
  assert (same_accounting o2 o) as H2 by (unfold o2; by rewrite !count_same_accounting).
  clearbody o2. destruct (negb _); [done|]. destruct (touch _ _ _); [exact H2|].
  destruct (_ =? _); [|exact H2]. cbn [fst]. transitivity o2; [|exact H2].
  change (same_accounting (count Omit_evictions (count Evictions (set_sample (drop 1 (pv_sample o2)) o2))) o2).
  by rewrite !count_same_accounting.
Qed.
Lemma query_loop_same_accounting query ends ids offset indices o :
  same_accounting (query_loop query ends ids offset indices o).1 o.
Proof.
  revert o. induction indices as [|i indices IH]; intros o; cbn; [done|].
  destruct (ends i); [done|]. destruct (query _) as [[found|]|e]; cbn.
  - pose proof (observe_identity_same_accounting found (identity_query_attempted o)) as Hi.
    destruct (observe_identity found (identity_query_attempted o)) as [o' [[]|e]]; cbn in Hi |- *;
      rewrite ?IH, Hi; apply count_same_accounting.
  - rewrite IH. unfold observe_vanished_or_not_member, identity_query_attempted. by rewrite !count_same_accounting.
  - apply count_same_accounting.
Qed.
Lemma sample_tick_same_accounting snapshot query ends offset o :
  same_accounting (sample_tick snapshot query ends offset o).1.1 o.
Proof.
  unfold sample_tick. destruct snapshot as [[ids| | |]|e]; cbn [fst snd].
  2-5: unfold omit_snapshot_byte_budget, omit_snapshot_race_or_retry_budget, omit_allocation_unavailable,
         attempt_poll; by rewrite !count_same_accounting.
  set (o1 := if (_ <? _)%nat then _ else _). assert (same_accounting o1 o) as H1.
  { unfold o1, omit_per_tick_query_budget, snapshot_obtained, attempt_poll.
    destruct (_ <? _)%nat; by rewrite !count_same_accounting. }
  pose proof (query_loop_same_accounting query ends ids offset
    (seq 0 (length ids `min` N.to_nat (po_identity_queries_per_tick SERVICE))) o1) as Hq.
  destruct (query_loop _ _ _ _ _ _) as [o' []]; cbn in Hq |- *; by rewrite Hq.
Qed.

(** The last reading reports a regression exactly when some reading of the whole
    run was below the one before it, however many samples came in between. *)
Theorem accounting_regression_is_kept totals o o' :
  accounted totals o o' →
  is_some_and ac_counter_regression_observed (pv_final_accounting o') =
    is_some_and ac_counter_regression_observed (pv_final_accounting o)
    || regresses (pv_last_total o) totals.
Proof.
  induction 1 as [o|totals snapshot query ends offset o o' _ IH|total totals active after o o' _ IH]; cbn.
  - by rewrite orb_false_r.
  - destruct (sample_tick_same_accounting snapshot query ends offset o) as [E1 E2]. by rewrite <- E1, <- E2.
  - rewrite IH. cbn. rewrite !orb_assoc. f_equal. apply orb_comm.
Qed.

(** ** Examples *)

Module ObservationExamples.
Definition member : WindowsProcessIdentityV1 := {| process_id := 7; creation_time_100ns := 9 |}.
(** A writer that gives one short record. *)
#[local] Instance writer : Serialize WindowsProcessObservationV2 := {| to_chunks := λ _, Ok [bytes "{}"] |}.
Definition query (pid : N) : result string (option WindowsProcessIdentityV1) :=
  Ok (if pid =? 7 then Some member else None).
Definition opened : ProcessObserver :=
  {| pv_policy := SERVICE; pv_counters := counters_default; pv_omissions := omissions_default;
     pv_sample := []; pv_sample_storage_available := true; pv_sequence := 0;
     pv_final_accounting := None; pv_last_total := None |}.
Definition sampled : ProcessObserver :=
  (sample_tick (Ok (Complete [7; 8; 7])) query (λ _, false) 0 opened).1.1.
Definition lease : WindowsQualificationMembershipWitnessV1 :=
  {| qw_schema_version := 1; qw_role := NestedAlternateToken;
     qw_child_identity := {| process_id := 8; creation_time_100ns := 1 |}; qw_attempt_id := "a";
     qw_nonce := "n"; qw_request_sha256 := "r"; qw_qualification_lease := "l" |}.

Example sampled_once : pv_sample sampled = [{| se_identity := member; se_last_observation_sequence := 2 |}].
Proof. vm_compute. reflexivity. Qed.

Lemma frozen_observation_validates_witness :
  observation_validate (freeze sampled (Some member) (Some lease)) "a" "n" "r" = Ok ().
Proof.
  apply (frozen_observation_validates opened sampled (Some member) (Some lease) "a" "n" "r" (bytes "{}")).
  - apply (start_new SERVICE). vm_compute. reflexivity.
  - apply rtc_once. exact (step_tick (Ok (Complete [7; 8; 7])) query (λ _, false) 0 opened).
  - vm_compute. reflexivity.
  - vm_compute. reflexivity.
  - vm_compute. reflexivity.
  - vm_compute. reflexivity.
Defined.
End ObservationExamples.
