(* ===== verification/WindowsRecovery.v ===== *)
(** * Windows recovery authorization and capability owners

    windows_recovery_authorization.rs: the access floor a recovery requester has to
    reach and the authorization that names it; windows_capability_owner.rs: the
    inventory of the owners of an attempt's capabilities.  SHA-256 and serde's
    writer are parameters. *)

From S2P Require Import Prelude Decimal Bounded RecordLimits JsonDocuments WindowsObservation.
From Stdlib Require Import Ascii.
From stdpp Require Import vector.
#[local] Open Scope N_scope.

Definition SHA256_OUTPUT_SIZE : N := 32.
Definition digest (value : string) : bool :=
  (str_len value =? SHA256_OUTPUT_SIZE * 2) && str_all is_ascii_hexdigit value.

Definition str_strip_prefix (prefix value : string) : option string :=
  String.string_of_list_ascii <$> RecordLimits.strip_prefix (bytes prefix) (bytes value).
Definition str_starts_with (prefix value : string) : bool := is_some (str_strip_prefix prefix value).

Definition integrity_rid (value : string) : option N :=
  rest ← str_strip_prefix "S-1-16-" value; parse_uint 32 rest.

Inductive WindowsRecoveryPolicyV1 : Type := SameOwnerBootSensitive.
#[global] Instance WindowsRecoveryPolicyV1_eq_dec : EqDecision WindowsRecoveryPolicyV1.
Proof. solve_decision. Defined.

Record WindowsRecoveryAccessFloorV1 : Type := {
  fl_integrity_level : string;
  fl_elevated : bool;
  fl_restricted : bool;
  fl_restricted_sids_sha256 : option string;
  fl_appcontainer : bool;
  fl_appcontainer_binding_sha256 : option string
}.
#[global] Instance WindowsRecoveryAccessFloorV1_eq_dec : EqDecision WindowsRecoveryAccessFloorV1.
Proof. solve_decision. Defined.

Definition floor_is_consistent (self : WindowsRecoveryAccessFloorV1) : bool :=
  is_some (integrity_rid (fl_integrity_level self))
  && (fl_restricted self ≟ is_some (fl_restricted_sids_sha256 self))
  && is_none_or digest (fl_restricted_sids_sha256 self)
  && (fl_appcontainer self ≟ is_some (fl_appcontainer_binding_sha256 self))
  && is_none_or digest (fl_appcontainer_binding_sha256 self).

Definition zip_options {A B} (a : option A) (b : option B) : option (A * B) :=
  x ← a; y ← b; Some (x, y).

Definition admits (self observed : WindowsRecoveryAccessFloorV1) : bool :=
  floor_is_consistent self
  && floor_is_consistent observed
  && is_some_and (λ '(current, admitted), admitted <=? current)
       (zip_options (integrity_rid (fl_integrity_level observed)) (integrity_rid (fl_integrity_level self)))
  && (negb (fl_elevated self) || fl_elevated observed)
  && (fl_restricted self ≟ fl_restricted observed)
  && (fl_restricted_sids_sha256 self ≟ fl_restricted_sids_sha256 observed)
  && (fl_appcontainer self ≟ fl_appcontainer observed)
  && (fl_appcontainer_binding_sha256 self ≟ fl_appcontainer_binding_sha256 observed).

Record WindowsRecoveryAuthorizationV1 : Type := {
  au_schema_version : N;
  au_user_sid : string;
  au_launch_logon_identity : N;
  au_launch_token_binding_sha256 : string;
  au_recovery_access_floor : WindowsRecoveryAccessFloorV1;
  au_policy : WindowsRecoveryPolicyV1
}.
#[global] Instance WindowsRecoveryAuthorizationV1_eq_dec : EqDecision WindowsRecoveryAuthorizationV1.
Proof. solve_decision. Defined.

Definition authorization_is_consistent (self : WindowsRecoveryAuthorizationV1) : bool :=
  (au_schema_version self =? 1)
  && str_starts_with "S-1-" (au_user_sid self)
  && (str_len (au_user_sid self) <=? 256)
  && negb (au_launch_logon_identity self =? 0)
  && digest (au_launch_token_binding_sha256 self)
  && floor_is_consistent (au_recovery_access_floor self)
  && (au_policy self ≟ SameOwnerBootSensitive).

Definition admits_recovery (self : WindowsRecoveryAuthorizationV1) (observed_user_sid : string)
    (observed_logon_identity : N) (observed_floor : WindowsRecoveryAccessFloorV1)
    (same_trusted_boot : bool) : bool :=
  authorization_is_consistent self
  && (au_user_sid self ≟ observed_user_sid)
  && negb (observed_logon_identity =? 0)
  && (negb same_trusted_boot || (au_launch_logon_identity self =? observed_logon_identity))
  && admits (au_recovery_access_floor self) observed_floor.

Record WindowsRecoveryCallerEvidenceV1 : Type := {
  rc_schema_version : N;
  rc_current_boot_identity : string;
  rc_process_identity : WindowsProcessIdentityV1;
  rc_user_sid : string;
  rc_logon_identity : N;
  rc_token_binding_sha256 : string;
  rc_access_floor : WindowsRecoveryAccessFloorV1
}.

Definition caller_is_consistent (self : WindowsRecoveryCallerEvidenceV1) : bool :=
  (rc_schema_version self =? 1)
  && negb (str_is_empty (rc_current_boot_identity self))
  && negb (process_id (rc_process_identity self) =? 0)
  && negb (creation_time_100ns (rc_process_identity self) =? 0)
  && str_starts_with "S-1-" (rc_user_sid self)
  && (str_len (rc_user_sid self) <=? 256)
  && negb (rc_logon_identity self =? 0)
  && digest (rc_token_binding_sha256 self)
  && floor_is_consistent (rc_access_floor self).

(** ** Capability owners *)

Definition WINDOWS_CAPABILITY_OWNER_MANIFEST_SCHEMA_VERSION : N := 1.
Definition WINDOWS_CAPABILITY_OWNER_ROLE_COUNT : nat := 12.

Inductive WindowsCapabilityOwnerRoleV1 : Type :=
| LauncherJob | ActiveRegistryDuplicate | DirectTargetProcess | DesktopBootstrapJob
| DesktopBootstrapProcess | GuardianProcess | ControlRelay | FrontendRelay | BrokerHolder
| SessionBrokerTransfer | LaunchGate | PolicyReference.
#[global] Instance WindowsCapabilityOwnerRoleV1_eq_dec : EqDecision WindowsCapabilityOwnerRoleV1.
Proof. solve_decision. Defined.

Definition Role_ALL : list WindowsCapabilityOwnerRoleV1 :=
  [LauncherJob; ActiveRegistryDuplicate; DirectTargetProcess; DesktopBootstrapJob;
   DesktopBootstrapProcess; GuardianProcess; ControlRelay; FrontendRelay; BrokerHolder;
   SessionBrokerTransfer; LaunchGate; PolicyReference].

Definition required (self : WindowsCapabilityOwnerRoleV1) : bool :=
  match self with
  | LauncherJob | ActiveRegistryDuplicate | DirectTargetProcess | GuardianProcess | ControlRelay
  | FrontendRelay | LaunchGate => true
  | _ => false
  end.

Record WindowsCapabilityOwnerEntryV1 : Type := {
  ow_role : WindowsCapabilityOwnerRoleV1;
  ow_present : bool;
  ow_process_identity : option WindowsProcessIdentityV1;
  ow_capability_binding_sha256 : option string
}.
(** [entries] is an array of [WINDOWS_CAPABILITY_OWNER_ROLE_COUNT] elements. *)
Record WindowsCapabilityOwnerManifestV1 : Type := {
  om_schema_version : N;
  om_attempt_id : string;
  om_provider_generation : string;
  om_launch_incarnation : string;
  om_entries : vec WindowsCapabilityOwnerEntryV1 WINDOWS_CAPABILITY_OWNER_ROLE_COUNT
}.

Definition owner_entry_is_invalid (expected : option WindowsCapabilityOwnerRoleV1)
    (roles : list WindowsCapabilityOwnerRoleV1) (entry : WindowsCapabilityOwnerEntryV1) : bool :=
  (Some (ow_role entry) ≠? expected)
  || bool_decide (ow_role entry ∈ roles)
  || (required (ow_role entry) && negb (ow_present entry))
  || (ow_present entry ≠? is_some (ow_capability_binding_sha256 entry))
  || is_some_and (λ d, negb (digest d)) (ow_capability_binding_sha256 entry)
  || is_some_and (λ identity, negb (ow_present entry) || (process_id identity =? 0)
                              || (creation_time_100ns identity =? 0)) (ow_process_identity entry).

(** The loop over the entries; [roles] is the set filled so far. *)
Fixpoint check_entries (index : nat) (roles : list WindowsCapabilityOwnerRoleV1)
    (entries : list WindowsCapabilityOwnerEntryV1) : result string () :=
  match entries with
  | [] => Ok ()
  | entry :: entries =>
      guard_err (owner_entry_is_invalid (Role_ALL !! index) roles entry) "owner_manifest.entries"%string ;;
      check_entries (S index) (ow_role entry :: roles) entries
  end.

Definition manifest_validate (self : WindowsCapabilityOwnerManifestV1) : result string () :=
  guard_err (negb (om_schema_version self =? WINDOWS_CAPABILITY_OWNER_MANIFEST_SCHEMA_VERSION)
             || negb (digest (om_attempt_id self))
             || str_is_empty (om_provider_generation self)
             || str_is_empty (om_launch_incarnation self))
    "owner_manifest.binding_or_shape"%string ;;
  check_entries 0 [] (vec_to_list (om_entries self)).

Section Canonical.
Context `{Serialize WindowsCapabilityOwnerManifestV1}.
Variable sha256_of : list u8 → list u8.

Definition canonical_sha256 (self : WindowsCapabilityOwnerManifestV1) : result string string :=
  manifest_validate self ;;
  bytes ← map_err (λ _, "owner_manifest.serialization"%string) (to_vec self);
  Ok (String.string_of_list_ascii (flat_map hex_byte (sha256_of bytes))).
End Canonical.

(** ** The floor as an order *)

(** What [admits] compares, besides consistency. *)
Definition floor_le (a b : WindowsRecoveryAccessFloorV1) : Prop :=
  (∃ admitted current, integrity_rid (fl_integrity_level a) = Some admitted ∧
     integrity_rid (fl_integrity_level b) = Some current ∧ admitted <= current) ∧
  (fl_elevated a = true → fl_elevated b = true) ∧
  fl_restricted a = fl_restricted b ∧ fl_restricted_sids_sha256 a = fl_restricted_sids_sha256 b ∧
  fl_appcontainer a = fl_appcontainer b ∧
  fl_appcontainer_binding_sha256 a = fl_appcontainer_binding_sha256 b.

Lemma admits_spec a b :
  admits a b = true ↔ floor_is_consistent a = true ∧ floor_is_consistent b = true ∧ floor_le a b.
Proof.
  unfold admits, floor_le, zip_options. rewrite !andb_true_iff, !bool_decide_eq_true, orb_true_iff, negb_true_iff.
  destruct (integrity_rid (fl_integrity_level a)) as [ra|], (integrity_rid (fl_integrity_level b)) as [rb|];
    cbn; rewrite ?N.leb_le; destruct (fl_elevated a); naive_solver.
Qed.

Lemma consistent_rid a : floor_is_consistent a = true → ∃ rid, integrity_rid (fl_integrity_level a) = Some rid.
Proof. unfold floor_is_consistent. destruct (integrity_rid _); [eauto|done]. Qed.

Lemma floor_le_refl a : floor_is_consistent a = true → floor_le a a.
Proof. intros [rid H]%consistent_rid. split; [|done]. exists rid, rid. split_and!; [done|done|lia]. Qed.
Lemma floor_le_trans a b c : floor_le a b → floor_le b c → floor_le a c.
Proof.
  intros [(ra & rb & H1 & H2 & H3) (E1 & E2 & E3 & E4 & E5)] [(rb' & rc & G1 & G2 & G3) (F1 & F2 & F3 & F4 & F5)].
  simplify_eq. split; [exists ra, rc; split_and!; [done|done|lia]|]. split_and!; [auto|congruence..].
Qed.

Lemma admits_recovery_spec auth sid logon floor boot :
  admits_recovery auth sid logon floor boot = true ↔
  authorization_is_consistent auth = true ∧ au_user_sid auth = sid ∧ logon ≠ 0 ∧
  (boot = true → au_launch_logon_identity auth = logon) ∧
  admits (au_recovery_access_floor auth) floor = true.
Proof.
  unfold admits_recovery. rewrite !andb_true_iff, bool_decide_eq_true, orb_true_iff, !negb_true_iff, N.eqb_neq, N.eqb_eq.
  destruct boot; naive_solver.
Qed.

(** Recovery authority only depends on how much access a requester has beyond
    the admitted floor.  [admits] is a preorder on consistent floors; a requester
    an authorization admits is still admitted with any floor above its own and,
    once the trusted boot ended, with any live logon, but never as another user and
    never under another logon of the same boot. *)
Theorem recovery_admission_is_monotone auth sid logon floor boot :
  admits_recovery auth sid logon floor boot = true →
  (∀ above, admits floor above = true → admits_recovery auth sid logon above boot = true) ∧
  (∀ logon', logon' ≠ 0 → admits_recovery auth sid logon' floor false = true) ∧
  (∀ sid' logon' floor' boot', admits_recovery auth sid' logon' floor' boot' = true →
     sid' = sid ∧ (boot' = true → logon' = au_launch_logon_identity auth)) ∧
  admits floor floor = true.
Proof.
  rewrite admits_recovery_spec. intros (Hc & Hs & Hl & Hb & Ha). pose proof Ha as (Ca & Cf & Le)%admits_spec.
  split_and!.
  - intros above (_ & Cb & Lb)%admits_spec. apply admits_recovery_spec. split_and!; try done.
    apply admits_spec. eauto using floor_le_trans.
  - intros logon' Hl'. by apply admits_recovery_spec.
  - intros sid' logon' floor' boot' (_ & Hs' & _ & Hb' & _)%admits_recovery_spec. split; [congruence|].
    intros E. by rewrite Hb'.
  - apply admits_spec. auto using floor_le_refl.
Qed.

(** ** The inventory of owners *)

Definition entry_sound (entry : WindowsCapabilityOwnerEntryV1) : Prop :=
  (required (ow_role entry) = true → ow_present entry = true) ∧
  (ow_present entry = true ↔ ∃ d, ow_capability_binding_sha256 entry = Some d) ∧
  (∀ d, ow_capability_binding_sha256 entry = Some d → digest d = true) ∧
  (∀ i, ow_process_identity entry = Some i → ow_present entry = true ∧ valid_identity i = true).

Lemma owner_entry_is_invalid_spec expected roles entry :
  owner_entry_is_invalid expected roles entry = false ↔
  expected = Some (ow_role entry) ∧ (ow_role entry ∉ roles) ∧ entry_sound entry.
Proof.
  unfold owner_entry_is_invalid, entry_sound, valid_identity.
  rewrite !orb_false_iff, negb_false_iff, bool_decide_eq_true, bool_decide_eq_false, andb_false_iff, negb_false_iff.
  destruct entry as [role present identity binding]; cbn.
  assert ((required role = false ∨ present = true) ↔ (required role = true → present = true)) as ->
    by (destruct (required role), present; naive_solver).
  assert ((present ≠? is_some binding) = false ↔ (present = true ↔ ∃ d, binding = Some d)) as ->
    by (destruct present, binding; cbn; split; intros; try done; naive_solver).
  assert (is_some_and (λ d, negb (digest d)) binding = false ↔ ∀ d, binding = Some d → digest d = true) as ->
    by (destruct binding; cbn; rewrite ?negb_false_iff; naive_solver).
  set (bad := λ i, _ || _ || _).
  assert (is_some_and bad identity = false ↔ ∀ i, identity = Some i → bad i = false) as ->
    by (destruct identity; cbn; naive_solver).
  assert (∀ i, bad i = false ↔ present = true ∧
    negb (process_id i =? 0) && negb (creation_time_100ns i =? 0) = true) as Hbad.
  { intros i. unfold bad. rewrite !orb_false_iff, negb_false_iff, andb_true_iff, !negb_true_iff. tauto. }
  setoid_rewrite Hbad. intuition congruence.
Qed.

(** Position [index] of [Role_ALL] on, with the roles before it already seen:
    the set test never decides. *)
Lemma check_entries_spec index entries :
  (index + length entries <= WINDOWS_CAPABILITY_OWNER_ROLE_COUNT)%nat →
  check_entries index (reverse (take index Role_ALL)) entries = Ok () ↔
  ow_role <$> entries = take (length entries) (drop index Role_ALL) ∧ Forall entry_sound entries.
Proof.
  revert index. induction entries as [|e entries IH]; intros index Hl; cbn in *; [naive_solver|].
  assert (∃ r, Role_ALL !! index = Some r) as [r Hr]
    by (apply lookup_lt_is_Some; cbn; unfold WINDOWS_CAPABILITY_OWNER_ROLE_COUNT in Hl; lia).
  assert (NoDup Role_ALL) as Hnd by (apply all_distinct_NoDup; reflexivity).
  assert (r ∉ reverse (take index Role_ALL)) as Hnot.
  { rewrite elem_of_reverse. intros (j & Hj & Hlt)%elem_of_take.
    pose proof (NoDup_lookup _ _ _ _ Hnd Hj Hr). lia. }
  rewrite (drop_S Role_ALL r index Hr), Forall_cons. cbn [take]. split.
  - intros ([] & Hg & Hrest)%bind_Ok. apply guard_err_Ok, owner_entry_is_invalid_spec in Hg as (E & _ & Hsound).
    rewrite Hr in E. injection E as ->.
    replace (ow_role e :: reverse _) with (reverse (take (S index) Role_ALL)) in Hrest
      by (by rewrite (take_S_r _ _ _ Hr), reverse_snoc).
    apply IH in Hrest as [-> ?]; [done|lia].
  - intros ([= E Hroles] & Hsound & Hf). apply bind_Ok. exists (). split.
    + apply guard_err_Ok, owner_entry_is_invalid_spec. rewrite Hr, E. done.
    + replace (ow_role e :: reverse _) with (reverse (take (S index) Role_ALL))
        by (by rewrite (take_S_r _ _ _ Hr), reverse_snoc, E).
      apply IH; [lia|done].
Qed.

(** A manifest is accepted exactly when it binds an attempt, a provider and an
    incarnation and lists every role once, in order, with every required owner
    present and no identity or binding of an absent one. *)
Theorem manifest_validate_decides m :
  manifest_validate m = Ok () ↔
  (om_schema_version m = 1 ∧ digest (om_attempt_id m) = true ∧
   om_provider_generation m ≠ ""%string ∧ om_launch_incarnation m ≠ ""%string) ∧
  ow_role <$> vec_to_list (om_entries m) = Role_ALL ∧ Forall entry_sound (vec_to_list (om_entries m)).
Proof.
  unfold manifest_validate. pose proof (length_vec_to_list (om_entries m)) as Hl.
  pose proof (check_entries_spec 0 (vec_to_list (om_entries m)) ltac:(rewrite Hl; done)) as Hc.
  rewrite Hl in Hc. change (reverse (take 0 Role_ALL)) with (@nil WindowsCapabilityOwnerRoleV1) in Hc.
  change (take _ (drop 0 Role_ALL)) with Role_ALL in Hc. rewrite bind_Ok, <- Hc.
  assert (∀ s, str_is_empty s = false ↔ s ≠ ""%string) as He by (intros []; naive_solver).
  split.
  - intros ([] & Hg & Hr). apply guard_err_Ok in Hg. rewrite !orb_false_iff, !negb_false_iff, N.eqb_eq, !He in Hg.
    naive_solver.
  - intros [(H1 & H2 & H3 & H4) Hr]. exists (). split; [|done]. apply guard_err_Ok.
    rewrite !orb_false_iff, !negb_false_iff, N.eqb_eq, !He. done.
Qed.

(** ** Examples *)

Module RecoveryExamples.
Definition hex : string := "0123456789abcdef0123456789ABCDEF0123456789abcdef0123456789abcdef".
Definition floor_at (level : string) : WindowsRecoveryAccessFloorV1 :=
  {| fl_integrity_level := level; fl_elevated := false; fl_restricted := true;
     fl_restricted_sids_sha256 := Some hex; fl_appcontainer := false; fl_appcontainer_binding_sha256 := None |}.
Definition authorization : WindowsRecoveryAuthorizationV1 :=
  {| au_schema_version := 1; au_user_sid := "S-1-5-21"; au_launch_logon_identity := 5;
     au_launch_token_binding_sha256 := hex; au_recovery_access_floor := floor_at "S-1-16-8192";
     au_policy := SameOwnerBootSensitive |}.

Lemma recovery_admission_witness :
  admits_recovery authorization "S-1-5-21" 5 (floor_at "S-1-16-12288") true = true ∧
  admits_recovery authorization "S-1-5-21" 5 (floor_at "S-1-16-4096") true = false.
Proof.
  split; [|vm_compute; reflexivity].
  apply (recovery_admission_is_monotone authorization "S-1-5-21" 5 (floor_at "S-1-16-8192") true);
    vm_compute; reflexivity.
Defined.

Definition owner (role : WindowsCapabilityOwnerRoleV1) : WindowsCapabilityOwnerEntryV1 :=
  {| ow_role := role; ow_present := required role; ow_process_identity := None;
     ow_capability_binding_sha256 := if required role then Some hex else None |}.
Example minimal_manifest_accepted :
  manifest_validate {| om_schema_version := 1; om_attempt_id := hex; om_provider_generation := "g";
    om_launch_incarnation := "i"; om_entries := list_to_vec (owner <$> Role_ALL) |} = Ok ().
Proof. vm_compute. reflexivity. Qed.
End RecoveryExamples.
