(* ===== verification/WorkloadEvidence.v ===== *)
(** * Workload evidence

    memcordon-core/src/workload_evidence.rs: how a request, the plan made for
    it, the attempt that ran it and the end of that attempt are bound together
    by digests, and what a consumer checks before it believes an enforcement
    record.  SHA-256 is the parameter [sha256_hash]. *)

From S2P Require Import Prelude Decimal Bounded Codec Diagnostics WorkloadContract WorkloadCodec EncoderLaws Registry.
From Stdlib Require Import Ascii.
#[local] Open Scope N_scope.


Inductive WorkloadRequestReport : Type :=
| Report_LegacyUnspecified
| Report_StrictV1 (contract : WorkloadContractV1).

Definition report_from_contract (contract : option WorkloadContractV1) : WorkloadRequestReport :=
  match contract with
  | Some contract => Report_StrictV1 contract
  | None => Report_LegacyUnspecified
  end.

Inductive BaselineRestrictionObservationV1 : Type :=
| LinuxUnixOnlySocketSyscallFilterAlternatePathsUnknown
| WindowsNetworkExternallyGoverned
| UnmanagedStandardBackend.
#[global] Instance BaselineRestrictionObservationV1_eq_dec : EqDecision BaselineRestrictionObservationV1.
Proof. solve_decision. Defined.

Record RequestBindingV1 : Type := {
  rb_request_digest : DiagnosticSha256;
  rb_workload_plan_digest : DiagnosticSha256;
  rb_profile : ProfileRef;
  rb_authorization : AuthorizationRef;
  rb_epoch : PolicyEpoch
}.
#[global] Instance AuthorizationRef_eq_dec : EqDecision AuthorizationRef.
Proof. solve_decision. Defined.
#[global] Instance RequestBindingV1_eq_dec : EqDecision RequestBindingV1.
Proof. solve_decision. Defined.

Record RuntimePlanBinding : Type := {
  pb_format : string;
  pb_revision : N;
  pb_request : RequestBindingV1;
  pb_registry_digest : DiagnosticSha256;
  pb_provider : PublicProviderBindingV1;
  pb_boot_identity : BoundedText 128;
  pb_effective_policy_digest : DiagnosticSha256
}.
#[global] Instance RuntimePlanBinding_eq_dec : EqDecision RuntimePlanBinding.
Proof. solve_decision. Defined.

Record RuntimeAttemptBinding : Type := {
  ab_format : string;
  ab_revision : N;
  ab_plan : RuntimePlanBinding;
  ab_attempt_id : BoundedText 128;
  ab_restart_attempt : N;
  ab_admission_nonce : Nonce128;
  ab_caller_invocation_reference : Nonce128
}.
#[global] Instance RuntimeAttemptBinding_eq_dec : EqDecision RuntimeAttemptBinding.
Proof. solve_decision. Defined.

Inductive PrelaunchCheck : Type :=
| CallerIdentity | InvocationIdentity | DescriptorCustody | NativeControls | Guardian | CurrentEpoch
| DurableCheckpoint.
#[global] Instance PrelaunchCheck_eq_dec : EqDecision PrelaunchCheck.
Proof. solve_decision. Defined.

Definition PENDING_PRELAUNCH_CHECKS : list PrelaunchCheck :=
  [CallerIdentity; InvocationIdentity; DescriptorCustody; NativeControls; Guardian; CurrentEpoch;
   DurableCheckpoint].

Inductive AuthorizationKnowledge : Type :=
| Knowledge_NotAuthorized | Knowledge_Authorized | Knowledge_Unknown.
#[global] Instance AuthorizationKnowledge_eq_dec : EqDecision AuthorizationKnowledge.
Proof. solve_decision. Defined.

Inductive AdmissionAvailabilityFailure : Type :=
| ProviderUnavailable | TransportLost | UnqualifiedHost | BindingUnavailable | TerminalUnavailable.
#[global] Instance AdmissionAvailabilityFailure_eq_dec : EqDecision AdmissionAvailabilityFailure.
Proof. solve_decision. Defined.

Record EffectiveWorkloadPolicyV1 : Type := {
  ef_profile : BaselineProfile;
  ef_ceiling : NetworkCeilingV1;
  ef_restriction : BaselineRestrictionObservationV1
}.

(** [False(bool)]: its field is private and every constructor makes it false. *)
Record FalseFlag : Type := { flag : bool }.
Definition FalseFlag_default : FalseFlag := {| flag := false |}.
Definition false_deserialize (value : bool) : result string FalseFlag :=
  if value then Err "rejection cannot authorize a target"%string else Ok FalseFlag_default.

Inductive RuntimeWorkloadResolution : Type :=
| Resolution_LegacyUnspecified (restrictions : BaselineRestrictionObservationV1)
| Resolution_Planned (binding : RuntimePlanBinding) (effective : EffectiveWorkloadPolicyV1)
    (pending : BoundedVec PrelaunchCheck 32)
| Resolution_Rejected (binding : RequestBindingV1) (rejection : AdmissionRejectionV1)
    (target_authorized : FalseFlag)
| Resolution_Admitted (binding : RuntimeAttemptBinding) (effective : EffectiveWorkloadPolicyV1)
    (preauthorization : DiagnosticSha256)
| Resolution_Unavailable (request : option RequestBindingV1) (reason : AdmissionAvailabilityFailure)
    (authorization : AuthorizationKnowledge).

Record WorkloadAdmissionRejectionV1 : Type := {
  wa_request : RequestBindingV1;
  wa_rejection : AdmissionRejectionV1
}.
#[global] Instance WorkloadAdmissionRejectionV1_eq_dec : EqDecision WorkloadAdmissionRejectionV1.
Proof. solve_decision. Defined.

Inductive PolicyTerminalEvidenceV1 : Type :=
| Terminal_Retired (attempt_binding checkpoint : DiagnosticSha256)
    (controls_preserved provider_resources_closed : bool)
| Terminal_Unavailable (reason : AdmissionAvailabilityFailure).

Record VerifiedCheckpointV1 : Type := {
  cp_attempt_binding : DiagnosticSha256;
  cp_digest : DiagnosticSha256;
  cp_controls : BaselineRestrictionObservationV1;
  cp_target_gated : bool;
  cp_caller_verified : bool;
  cp_resources_verified : bool;
  cp_guardian_verified : bool;
  cp_epoch_verified : bool;
  cp_durable : bool
}.
(** The wire form has the same fields. *)
Definition CheckpointWire : Type := VerifiedCheckpointV1.

Inductive RuntimePolicyEnforcement : Type :=
| Enforcement_LegacyUnspecified
| Enforcement_NotAuthorized (request : RequestBindingV1) (rejection : AdmissionRejectionV1)
| Enforcement_Authorized (admission : RuntimeAttemptBinding)
    (before_authorization : VerifiedCheckpointV1) (terminal : PolicyTerminalEvidenceV1)
| Enforcement_AuthorizationUncertain (request : option RequestBindingV1)
    (failure : AdmissionAvailabilityFailure).

Definition baseline_observation (profile : BaselineProfile) : BaselineRestrictionObservationV1 :=
  match profile with
  | LinuxUnixCreate => LinuxUnixOnlySocketSyscallFilterAlternatePathsUnknown
  | WindowsHostNetworkExternal => WindowsNetworkExternallyGoverned
  end.

(** [text]: length and bytes of an ASCII string. *)
Definition put_text (value : string) : stM Encoder string () :=
  st_lift (guard_err (negb (str_all is_ascii value)) "canonical public binding text must be ASCII"%string)
    ≫= λ _, put_count (str_len value) ≫= λ _, raw (bytes value).

Definition put_attempt (self : RuntimeAttemptBinding) : stM Encoder string () :=
  let request := pb_request (ab_plan self) in
  put_digest (rb_request_digest request) ≫= λ _,
  put_digest (rb_workload_plan_digest request) ≫= λ _,
  put_id (profile_id (rb_profile request)) ≫= λ _,
  put_digest (profile_semantic_digest (rb_profile request)) ≫= λ _,
  put_id (grant_id (rb_authorization request)) ≫= λ _,
  put_u64 (grant_revision (rb_authorization request)) ≫= λ _,
  put_digest (approved_plan_digest (rb_authorization request)) ≫= λ _,
  raw (nonce_bytes (service_instance (rb_epoch request))) ≫= λ _,
  put_u64 (revision (rb_epoch request)) ≫= λ _,
  put_digest (pb_registry_digest (ab_plan self)) ≫= λ _,
  put_text (text (generation (pb_provider (ab_plan self)))) ≫= λ _,
  put_text (text (source_commit (pb_provider (ab_plan self)))) ≫= λ _,
  put_digest (runtime_manifest_sha256 (pb_provider (ab_plan self))) ≫= λ _,
  put_text (text (pb_boot_identity (ab_plan self))) ≫= λ _,
  put_digest (pb_effective_policy_digest (ab_plan self)) ≫= λ _,
  put_text (text (ab_attempt_id self)) ≫= λ _,
  put_u64 (ab_restart_attempt self) ≫= λ _,
  raw (nonce_bytes (ab_admission_nonce self)) ≫= λ _,
  raw (nonce_bytes (ab_caller_invocation_reference self)).

Definition controls_tag (controls : BaselineRestrictionObservationV1) : result string N :=
  match controls with
  | LinuxUnixOnlySocketSyscallFilterAlternatePathsUnknown => Ok 1
  | WindowsNetworkExternallyGoverned => Ok 2
  | UnmanagedStandardBackend => Err "unmanaged controls cannot make a verified checkpoint"%string
  end.

Section evidence.
  Context (sha256_hash : list u8 → list u8).

Definition request_binding (contract : WorkloadContractV1) : result string RequestBindingV1 :=
  request_digest ← contract_digest sha256_hash contract;
  Ok {| rb_request_digest := request_digest;
        rb_workload_plan_digest := workload_plan_digest contract;
        rb_profile := authorized_profile contract;
        rb_authorization := authorization contract;
        rb_epoch := expected_epoch contract |}.

Definition baseline_for (reference : ProfileRef) : option BaselineProfile :=
  List.find (λ profile, baseline_reference sha256_hash profile ≟ reference)
    [LinuxUnixCreate; WindowsHostNetworkExternal].

Definition put_effective (request : RequestBindingV1) (registry_digest : DiagnosticSha256)
    (ceiling : NetworkCeilingV1) : stM Encoder string () :=
  put_digest (rb_request_digest request) ≫= λ _,
  put_digest (profile_semantic_digest (rb_profile request)) ≫= λ _,
  put_digest registry_digest ≫= λ _,
  encode_ceiling ceiling.

Definition plan_from_local_grant (request : WorkloadContractV1) (registry_digest : DiagnosticSha256)
    (provider : PublicProviderBindingV1) (boot_identity : BoundedText 128)
    : result string RuntimePlanBinding :=
  guard_err (negb (binding_is_consistent provider) || str_is_empty (text boot_identity))
    "provider/boot binding unavailable"%string ;;
  profile ← ok_or "unknown qualified baseline profile"%string (baseline_for (authorized_profile request));
  let ceiling := baseline_ceiling profile in
  request ← request_binding request;
  effective ← encode_limited PUBLIC_OBJECT_BYTES (domain "effective-workload-policy-v1")
                (put_effective request registry_digest ceiling);
  Ok {| pb_format := "memcordon.local-plan"; pb_revision := 1; pb_request := request;
        pb_registry_digest := registry_digest; pb_provider := provider;
        pb_boot_identity := boot_identity;
        pb_effective_policy_digest := hash_bytes sha256_hash effective |}.

Definition is_ok_and {E A} (p : A → bool) (r : result E A) : bool :=
  match r with Ok x => p x | Err _ => false end.

Definition plan_matches_contract (self : RuntimePlanBinding) (contract : WorkloadContractV1) : bool :=
  is_ok_and (λ expected, expected ≟ self)
    (plan_from_local_grant contract (pb_registry_digest self) (pb_provider self)
       (pb_boot_identity self)).

Definition attempt_matches_snapshot (self : RuntimeAttemptBinding) (snapshot : RuntimeAdmissionSnapshot)
    : bool :=
  (ab_format self ≟ "memcordon.local-attempt-binding"%string)
  && (ab_revision self =? 1)
  && is_ok (admission_snapshot_validate sha256_hash snapshot)
  && (ab_admission_nonce self ≟ sn_admission_nonce snapshot)
  && plan_matches_contract (ab_plan self) (sn_request snapshot)
  && (ab_caller_invocation_reference self ≟ sn_caller_invocation_reference snapshot)
  && (pb_registry_digest (ab_plan self) ≟ sn_registry_digest snapshot)
  && is_ok_and (λ request, request ≟ pb_request (ab_plan self)) (request_binding (sn_request snapshot)).

Definition attempt_from_snapshot (snapshot : RuntimeAdmissionSnapshot)
    (provider : PublicProviderBindingV1) (boot_identity attempt_id : BoundedText 128)
    (restart_attempt : N) : result string RuntimeAttemptBinding :=
  admission_snapshot_validate sha256_hash snapshot ≫= λ _,
  guard_err (negb (binding_is_consistent provider) || str_is_empty (text boot_identity)
             || str_is_empty (text attempt_id))
    "provider/boot/attempt binding unavailable"%string ;;
  plan ← plan_from_local_grant (sn_request snapshot) (sn_registry_digest snapshot) provider boot_identity;
  Ok {| ab_format := "memcordon.local-attempt-binding"; ab_revision := 1; ab_plan := plan;
        ab_attempt_id := attempt_id; ab_restart_attempt := restart_attempt;
        ab_admission_nonce := sn_admission_nonce snapshot;
        ab_caller_invocation_reference := sn_caller_invocation_reference snapshot |}.

(** The bytes [canonical_digest] hashes. *)
Definition attempt_bytes (self : RuntimeAttemptBinding) : result string (list u8) :=
  guard_err ((ab_format self ≠? "memcordon.local-attempt-binding"%string) || negb (ab_revision self =? 1)
             || (pb_format (ab_plan self) ≠? "memcordon.local-plan"%string)
             || negb (pb_revision (ab_plan self) =? 1))
    "local attempt binding format differs"%string ;;
  encode_limited PUBLIC_OBJECT_BYTES (domain "memcordon.local-attempt-binding/revision1")
    (put_attempt self).
Definition attempt_digest (self : RuntimeAttemptBinding) : result string DiagnosticSha256 :=
  hash_bytes sha256_hash <$> attempt_bytes self.

Definition put_checkpoint (attempt : DiagnosticSha256) (controls : BaselineRestrictionObservationV1)
    : stM Encoder string () :=
  put_digest attempt ≫= λ _,
  st_lift (controls_tag controls) ≫= λ tag,
  put_byte tag ≫= λ _,
  raw (byte <$> [1; 1; 1; 1; 1; 1]).
Definition checkpoint_bytes (attempt : DiagnosticSha256) (controls : BaselineRestrictionObservationV1)
    : result string (list u8) :=
  encode_limited PUBLIC_OBJECT_BYTES (domain "attempt-policy-enforcement-v1")
    (put_checkpoint attempt controls).
Definition checkpoint_digest (attempt : DiagnosticSha256) (controls : BaselineRestrictionObservationV1)
    : result string DiagnosticSha256 :=
  hash_bytes sha256_hash <$> checkpoint_bytes attempt controls.

Definition checkpoint_try_from (wire : CheckpointWire) : result string VerifiedCheckpointV1 :=
  guard_err
    (negb (cp_target_gated wire && cp_caller_verified wire && cp_resources_verified wire
           && cp_guardian_verified wire && cp_epoch_verified wire && cp_durable wire)
     || (cp_controls wire ≟ UnmanagedStandardBackend))
    "incomplete workload preauthorization checkpoint"%string ;;
  digest ← checkpoint_digest (cp_attempt_binding wire) (cp_controls wire);
  guard_err (digest ≠? cp_digest wire) "workload checkpoint digest differs"%string ;;
  Ok wire.

Definition checkpoint_matches_binding (self : VerifiedCheckpointV1) (binding : RuntimeAttemptBinding)
    : bool :=
  is_some_and (λ profile, cp_controls self ≟ baseline_observation profile)
    (baseline_for (rb_profile (pb_request (ab_plan binding))))
  && is_ok_and (λ digest,
       (digest ≟ cp_attempt_binding self)
       && is_ok_and (λ d, d ≟ cp_digest self) (checkpoint_digest digest (cp_controls self)))
       (attempt_digest binding).

Definition checkpoint_observed (binding : RuntimeAttemptBinding)
    (controls : BaselineRestrictionObservationV1)
    (target_gated caller_verified resources_verified guardian_verified epoch_verified durable : bool)
    : result string VerifiedCheckpointV1 :=
  attempt_binding ← attempt_digest binding;
  digest ← checkpoint_digest attempt_binding controls;
  checkpoint_try_from
    {| cp_attempt_binding := attempt_binding; cp_digest := digest; cp_controls := controls;
       cp_target_gated := target_gated; cp_caller_verified := caller_verified;
       cp_resources_verified := resources_verified; cp_guardian_verified := guardian_verified;
       cp_epoch_verified := epoch_verified; cp_durable := durable |}.

(** ** Enforcement records *)

Definition enforcement_is_consistent (self : RuntimePolicyEnforcement) : bool :=
  match self with
  | Enforcement_LegacyUnspecified => true
  | Enforcement_NotAuthorized request _ =>
      approved_plan_digest (rb_authorization request) ≟ rb_workload_plan_digest request
  | Enforcement_AuthorizationUncertain _ _ => true
  | Enforcement_Authorized admission before_authorization terminal =>
      match attempt_digest admission with
      | Err _ => false
      | Ok digest =>
          checkpoint_matches_binding before_authorization admission
          && match terminal with
             | Terminal_Retired attempt_binding checkpoint controls_preserved
                 provider_resources_closed =>
                 (attempt_binding ≟ digest) && (checkpoint ≟ cp_digest before_authorization)
                 && controls_preserved && provider_resources_closed
             | Terminal_Unavailable _ => true
             end
      end
  end.

Definition terminal_success (self : RuntimePolicyEnforcement) : bool :=
  enforcement_is_consistent self
  && match self with Enforcement_Authorized _ _ (Terminal_Retired _ _ _ _) => true | _ => false end.

Definition enforcement_retired (binding : RuntimeAttemptBinding) (checkpoint : VerifiedCheckpointV1)
    (controls_preserved provider_resources_closed : bool) : result string RuntimePolicyEnforcement :=
  guard_err (negb (controls_preserved && provider_resources_closed))
    "terminal workload enforcement is incomplete"%string ;;
  digest ← attempt_digest binding;
  guard_err (cp_attempt_binding checkpoint ≠? digest) "checkpoint belongs to another attempt"%string ;;
  Ok (Enforcement_Authorized binding checkpoint
        (Terminal_Retired digest (cp_digest checkpoint) controls_preserved provider_resources_closed)).

Definition matches_terminal_request (self : RuntimePolicyEnforcement)
    (contract : option WorkloadContractV1) : bool :=
  match self, contract with
  | Enforcement_LegacyUnspecified, None => true
  | Enforcement_Authorized admission _ _, Some contract =>
      terminal_success self
      && is_ok_and (λ request, request ≟ pb_request (ab_plan admission)) (request_binding contract)
  | _, _ => false
  end.

Definition valid_native_terminal (self : RuntimePolicyEnforcement) (contract : option WorkloadContractV1)
    (profile : BaselineProfile) (attempt_id : string) (restart_attempt : N) (boot : string) : bool :=
  matches_terminal_request self contract
  && match self, contract with
     | Enforcement_LegacyUnspecified, None => true
     | Enforcement_Authorized admission before_authorization _, Some contract =>
         plan_matches_contract (ab_plan admission) contract
         && (authorized_profile contract ≟ baseline_reference sha256_hash profile)
         && (text (ab_attempt_id admission) ≟ attempt_id)
         && (ab_restart_attempt admission =? restart_attempt)
         && (text (pb_boot_identity (ab_plan admission)) ≟ boot)
         && (cp_controls before_authorization ≟ baseline_observation profile)
     | _, _ => false
     end.

Definition effective_policy (profile : BaselineProfile) : EffectiveWorkloadPolicyV1 :=
  {| ef_profile := profile; ef_ceiling := baseline_ceiling profile;
     ef_restriction := baseline_observation profile |}.

Definition enforcement_resolution (self : RuntimePolicyEnforcement) : option RuntimeWorkloadResolution :=
  if negb (enforcement_is_consistent self) then None
  else
    match self with
    | Enforcement_Authorized admission before_authorization _ =>
        profile ← baseline_for (rb_profile (pb_request (ab_plan admission)));
        Some (Resolution_Admitted admission (effective_policy profile) (cp_digest before_authorization))
    | Enforcement_NotAuthorized request rejection =>
        Some (Resolution_Rejected request rejection FalseFlag_default)
    | Enforcement_AuthorizationUncertain request failure =>
        Some (Resolution_Unavailable request failure Knowledge_Unknown)
    | Enforcement_LegacyUnspecified => None
    end.

(** ** Resolutions *)

Definition matches_request (self : RuntimeWorkloadResolution) (request : WorkloadRequestReport) : bool :=
  match request with
  | Report_LegacyUnspecified =>
      match self with Resolution_LegacyUnspecified _ => true | _ => false end
  | Report_StrictV1 contract =>
      match request_binding contract with
      | Err _ => false
      | Ok expected =>
          match self with
          | Resolution_LegacyUnspecified _ => false
          | Resolution_Planned binding _ _ => pb_request binding ≟ expected
          | Resolution_Rejected binding _ _ => binding ≟ expected
          | Resolution_Admitted binding _ _ => pb_request (ab_plan binding) ≟ expected
          | Resolution_Unavailable request _ _ => request ≟ Some expected
          end
      end
  end.

Definition valid_plan_response (self : RuntimeWorkloadResolution) (contract : WorkloadContractV1)
    (profile : BaselineProfile) : bool :=
  matches_request self (report_from_contract (Some contract))
  && match self with
     | Resolution_Planned binding effective pending =>
         plan_matches_contract binding contract
         && (authorized_profile contract ≟ baseline_reference sha256_hash profile)
         && (ef_profile effective ≟ profile)
         && (ef_ceiling effective ≟ baseline_ceiling profile)
         && (ef_restriction effective ≟ baseline_observation profile)
         && (as_slice pending ≟ PENDING_PRELAUNCH_CHECKS)
     | Resolution_Rejected _ _ _ => true
     | Resolution_Unavailable _ _ authorization => authorization ≟ Knowledge_NotAuthorized
     | _ => false
     end.

(** The [expect] of the source is the error branch. *)
Definition unresolved (contract : option WorkloadContractV1)
    (restriction : BaselineRestrictionObservationV1) : result string RuntimeWorkloadResolution :=
  match contract with
  | None => Ok (Resolution_LegacyUnspecified restriction)
  | Some contract =>
      request ← request_binding contract;
      Ok (Resolution_Unavailable (Some request) BindingUnavailable Knowledge_NotAuthorized)
  end.
End evidence.

(** ** What the digests bind *)

Definition epoch_wf (e : PolicyEpoch) : Prop :=
  length (nonce_bytes (service_instance e)) = 16%nat ∧ revision e < 2 ^ 64.
Definition authorization_wf (a : AuthorizationRef) : Prop :=
  id_wf (grant_id a) ∧ grant_revision a < 2 ^ 64 ∧ sha_wf (approved_plan_digest a).
Definition public_text_wf (limit : N) (s : string) : Prop := str_all is_ascii s = true ∧ str_len s <= limit.

Record request_binding_wf (b : RequestBindingV1) : Prop := {
  bw_request : sha_wf (rb_request_digest b);
  bw_plan : sha_wf (rb_workload_plan_digest b);
  bw_profile : reference_wf (rb_profile b);
  bw_authorization : authorization_wf (rb_authorization b);
  bw_epoch : epoch_wf (rb_epoch b)
}.

Record provider_wf (p : PublicProviderBindingV1) : Prop := {
  vw_generation : public_text_wf 256 (text (generation p));
  vw_source : public_text_wf 64 (text (source_commit p));
  vw_manifest : sha_wf (runtime_manifest_sha256 p)
}.

(** The machine types of an attempt binding, and the formats its digest checks. *)
Record attempt_wf (b : RuntimeAttemptBinding) : Prop := {
  aw_format : ab_format b = "memcordon.local-attempt-binding"%string;
  aw_revision : ab_revision b = 1;
  aw_plan_format : pb_format (ab_plan b) = "memcordon.local-plan"%string;
  aw_plan_revision : pb_revision (ab_plan b) = 1;
  aw_request : request_binding_wf (pb_request (ab_plan b));
  aw_registry : sha_wf (pb_registry_digest (ab_plan b));
  aw_provider : provider_wf (pb_provider (ab_plan b));
  aw_boot : public_text_wf 128 (text (pb_boot_identity (ab_plan b)));
  aw_effective : sha_wf (pb_effective_policy_digest (ab_plan b));
  aw_attempt : public_text_wf 128 (text (ab_attempt_id b));
  aw_restart : ab_restart_attempt b < 2 ^ 64;
  aw_nonce : length (nonce_bytes (ab_admission_nonce b)) = 16%nat;
  aw_reference : length (nonce_bytes (ab_caller_invocation_reference b)) = 16%nat
}.

Lemma put_text_ascii s e :
  str_all is_ascii s = true → put_text s e = (put_count (str_len s) ≫= λ _, raw (bytes s)) e.
Proof. intros H. unfold put_text, mbind, stM_bind at 1, st_lift. by rewrite H. Qed.

Lemma codes_public_text : codes (λ s, str_all is_ascii s = true ∧ str_len s < 2 ^ 16) put_text.
Proof.
  destruct codes_text as (enc & Hw & Hd & He). exists enc. split_and!; [|by naive_solver|by naive_solver].
  intros s [Ha Hl] e. rewrite put_text_ascii by done. by apply Hw.
Qed.

Lemma within_public_text n s : N.of_nat n < 2 ^ 16 → public_text_wf (N.of_nat n) s → within (2 + n) (put_text s).
Proof.
  intros Hn [Ha Hl]. destruct (within_text n s Hl Hn) as (bs & W & L). exists bs. split; [|done].
  intros e. rewrite put_text_ascii by done. apply W.
Qed.

(** Each component is written by a coder of its own. *)
Ltac coded_field :=
  first [ eapply (determines_comp _ _ _ _ _ codes_digest) | eapply (determines_comp _ _ _ _ _ codes_id)
        | eapply (determines_comp _ _ _ _ _ codes_u64) | eapply (determines_comp _ _ _ _ _ codes_public_text)
        | eapply (determines_comp _ _ _ _ _ (codes_fixed 16)) ].
Ltac open_attempt H :=
  destruct H as [? ? ? ? [? ? [? ?] (? & ? & ?) [? ?]] ? [[? ?] [? ?] ?] [? ?] ? [? ?] ? ? ?].

Lemma codes_attempt : codes attempt_wf put_attempt.
Proof.
  unfold put_attempt. eapply determines_ext.
  - repeat (apply determines_bind; [coded_field|]); [..|coded_field].
    all: intros b H; open_attempt H; cbn; first [done|split; [done|lia]].
  - intros b c Hb Hc. split; [|by intros [= ->]]. destruct Hb as [? ? ? ? _ _ _ _ _ _ _ _ _].
    destruct Hc as [? ? ? ? _ _ _ _ _ _ _ _ _]. cbn. intros E. simplify_eq.
    destruct b as [? ? [? ? [? ? [] [] [[] ?]] ? [[] [] ?] [] ?] [] ? [] []].
    destruct c as [? ? [? ? [? ? [] [] [[] ?]] ? [[] [] ?] [] ?] [] ? [] []].
    simpl in *. congruence.
Qed.

Lemma attempt_encodes b : attempt_wf b → ∃ bs, attempt_bytes b = Ok bs.
Proof.
  intros H. unfold attempt_bytes.
  rewrite (aw_format _ H), (aw_revision _ H), (aw_plan_format _ H), (aw_plan_revision _ H).
  rewrite !bool_decide_eq_true_2 by done. cbn [negb orb N.eqb Pos.eqb guard_err mbind result_bind].
  apply (within_encode 1100); [|vm_compute; discriminate]. open_attempt H. unfold put_attempt.
  eapply within_le.
  - repeat (apply within_bind; [first
      [ by apply within_digest | by apply within_id | apply within_u64
      | by apply (within_public_text 256) | by apply (within_public_text 128)
      | by apply (within_public_text 64) | apply (within_raw 16); lia ]|]).
    apply (within_raw 16). lia.
  - cbn. lia.
Qed.

Section binding.
  Context (sha256_hash : list u8 → list u8).

(** Two byte strings the program hashes that collide. *)
Definition collision (x y : list u8) : Prop := x ≠ y ∧ sha256_hash x = sha256_hash y.

Lemma attempt_digest_binds b1 b2 d :
  attempt_wf b1 → attempt_wf b2 →
  attempt_digest sha256_hash b1 = Ok d → attempt_digest sha256_hash b2 = Ok d →
  b1 = b2 ∨ ∃ x y, attempt_bytes b1 = Ok x ∧ attempt_bytes b2 = Ok y ∧ collision x y.
Proof.
  intros H1 H2. unfold attempt_digest.
  destruct (attempt_encodes b1 H1) as [x E1], (attempt_encodes b2 H2) as [y E2]. rewrite E1, E2. cbn.
  intros [= <-] [= E]. destruct (decide (x = y :> list u8)) as [->|Hne]; [left|right; by exists x, y].
  assert (∀ b z, attempt_bytes b = Ok z →
    encode_limited PUBLIC_OBJECT_BYTES (domain "memcordon.local-attempt-binding/revision1")
      (put_attempt b) = Ok z) as Hz.
  { intros b z Hb. unfold attempt_bytes in Hb. by apply bind_Ok in Hb as ([] & _ & Hb). }
  exact (determines_encode _ _ _ _ _ _ _ _ codes_attempt H1 H2 (Hz _ _ E1) (Hz _ _ E2)).
Qed.

Definition checkpoint_body (d : DiagnosticSha256) (tag : N) : list u8 :=
  sha_bytes d ++ [byte tag] ++ (byte <$> [1; 1; 1; 1; 1; 1]).

Lemma writes_checkpoint d controls tag :
  controls_tag controls = Ok tag → writes (put_checkpoint d controls) (checkpoint_body d tag).
Proof.
  intros Ht. unfold put_checkpoint, checkpoint_body. apply writes_bind; [apply writes_raw|].
  rewrite Ht. intros e. unfold mbind, stM_bind at 1, st_lift. revert e. change
    (writes (put_byte tag ≫= λ _, raw (byte <$> [1; 1; 1; 1; 1; 1]))
       ([byte tag] ++ (byte <$> [1; 1; 1; 1; 1; 1]))).
  apply writes_bind; apply writes_raw.
Qed.

Lemma checkpoint_bytes_Ok d controls bs :
  checkpoint_bytes d controls = Ok bs →
  ∃ tag, controls_tag controls = Ok tag ∧
    bs = header (domain "attempt-policy-enforcement-v1") ++ checkpoint_body d tag.
Proof.
  unfold checkpoint_bytes. intros H. destruct (controls_tag controls) as [tag|] eqn:Et.
  - exists tag. split; [done|]. pose proof (encode_limited_spec PUBLIC_OBJECT_BYTES
      (domain "attempt-policy-enforcement-v1") _ _ (writes_checkpoint d controls tag Et)) as S.
    rewrite H in S. destruct (_ <=? _); [congruence|done].
  - exfalso. unfold encode_limited in H. apply bind_Ok in H as (enc & _ & H).
    unfold put_checkpoint, mbind, stM_bind in H. destruct (put_digest d enc) as [? [[]|]]; [|done].
    unfold st_lift in H. by rewrite Et in H.
Qed.

Lemma checkpoint_bytes_inj d1 d2 c1 c2 bs :
  checkpoint_bytes d1 c1 = Ok bs → checkpoint_bytes d2 c2 = Ok bs → d1 = d2 ∧ c1 = c2.
Proof.
  intros (t1 & T1 & E1)%checkpoint_bytes_Ok (t2 & T2 & E2)%checkpoint_bytes_Ok.
  rewrite E1 in E2. apply app_inv_head in E2. unfold checkpoint_body in E2.
  apply app_inj_2 in E2 as [Ed Et]; [|done]. destruct d1, d2. simpl in Ed. subst. split; [done|].
  destruct c1, c2; simplify_eq/=; done.
Qed.
End binding.

Lemma is_ok_and_true {E A} (p : A → bool) (r : result E A) :
  is_ok_and p r = true ↔ ∃ x, r = Ok x ∧ p x = true.
Proof. destruct r; simpl; naive_solver. Qed.

Lemma checkpoint_matches_binding_true sha256_hash c b :
  checkpoint_matches_binding sha256_hash c b = true ↔
  ∃ profile, baseline_for sha256_hash (rb_profile (pb_request (ab_plan b))) = Some profile ∧
    cp_controls c = baseline_observation profile ∧
    attempt_digest sha256_hash b = Ok (cp_attempt_binding c) ∧
    checkpoint_digest sha256_hash (cp_attempt_binding c) (cp_controls c) = Ok (cp_digest c).
Proof.
  unfold checkpoint_matches_binding. rewrite andb_true_iff, is_some_and_true, is_ok_and_true.
  setoid_rewrite andb_true_iff. setoid_rewrite is_ok_and_true. setoid_rewrite bool_decide_eq_true.
  split.
  - intros ((p & Hp & Hc) & d & Hd & -> & d' & Hd' & ->). by exists p.
  - intros (p & Hp & Hc & Hd & Hd'). split; [by exists p|]. eexists. split; [done|]. split; [done|].
    by eexists.
Qed.

(** A preauthorization checkpoint cannot be moved to another attempt.  Two
    checkpoints with one digest that each match an attempt belong to the same
    attempt, with every field of its plan, provider, boot, nonce and restart
    number, under the same controls; or two byte strings that collide under
    SHA-256 are exhibited. *)
Theorem checkpoint_binds_attempt sha256_hash b1 b2 c1 c2 :
  attempt_wf b1 → attempt_wf b2 →
  checkpoint_matches_binding sha256_hash c1 b1 = true →
  checkpoint_matches_binding sha256_hash c2 b2 = true →
  cp_digest c1 = cp_digest c2 →
  (b1 = b2 ∧ cp_controls c1 = cp_controls c2) ∨
  (∃ x y, attempt_bytes b1 = Ok x ∧ attempt_bytes b2 = Ok y ∧ collision sha256_hash x y) ∨
  (∃ x y, checkpoint_bytes (cp_attempt_binding c1) (cp_controls c1) = Ok x ∧
     checkpoint_bytes (cp_attempt_binding c2) (cp_controls c2) = Ok y ∧ collision sha256_hash x y).
Proof.
  intros W1 W2 (p1 & _ & _ & D1 & K1)%checkpoint_matches_binding_true
    (p2 & _ & _ & D2 & K2)%checkpoint_matches_binding_true E.
  unfold checkpoint_digest in K1, K2.
  destruct (checkpoint_bytes (cp_attempt_binding c1) (cp_controls c1)) as [x|] eqn:X; [|done].
  destruct (checkpoint_bytes (cp_attempt_binding c2) (cp_controls c2)) as [y|] eqn:Y; [|done].
  cbn in K1, K2. rewrite E, <- K2 in K1. injection K1 as K.
  destruct (decide (x = y :> list u8)) as [->|Hne]; [|right; right; by exists x, y].
  destruct (checkpoint_bytes_inj _ _ _ _ _ X Y) as [Ed Ec]. rewrite Ed in D1.
  destruct (attempt_digest_binds _ _ _ _ W1 W2 D1 D2) as [->|(z & w & ?)]; [by left|].
  right; left; by exists z, w.
Qed.

(** ** From a snapshot to a terminal *)

Lemma baseline_for_reference sha256_hash profile :
  baseline_for sha256_hash (baseline_reference sha256_hash profile) = Some profile.
Proof.
  unfold baseline_for. cbn [List.find]. case_bool_decide as E1.
  { apply baseline_reference_inj in E1. by subst. }
  case_bool_decide as E2; [apply baseline_reference_inj in E2; by subst|].
  by destruct profile.
Qed.

Lemma alphanumeric_ascii c : is_ascii_alphanumeric c = true → is_ascii c = true.
Proof.
  unfold is_ascii_alphanumeric, is_ascii_digit, is_ascii_lowercase, is_ascii_uppercase, byte_between, byte_le, is_ascii.
  change (N_of_ascii "9") with 57. change (N_of_ascii "z") with 122. change (N_of_ascii "Z") with 90. lia.
Qed.

Lemma consistent_provider_wf p :
  binding_is_consistent p = true → str_len (text (generation p)) <= 256 →
  sha_wf (runtime_manifest_sha256 p) → provider_wf p.
Proof.
  unfold binding_is_consistent. intros H Hl Hm. bool_hyps. constructor; [split|split|]; try done.
  - eapply str_all_impl; [|done]. intros c [Hc|Hc]%orb_true_iff; [by apply alphanumeric_ascii|].
    apply bool_decide_eq_true in Hc. repeat (apply elem_of_cons in Hc as [->|Hc]; [done|]).
    by apply not_elem_of_nil in Hc.
  - eapply str_all_impl; [|done]. intros c Hc. apply alphanumeric_ascii.
    unfold is_lower_hex, is_ascii_alphanumeric, is_ascii_digit, is_ascii_lowercase, byte_between, byte_le in *.
    change (N_of_ascii "f") with 102 in Hc. change (N_of_ascii "z") with 122. lia.
  - match goal with H : str_len _ ∈ _ |- _ =>
      apply elem_of_cons in H as [H|[H|H%not_elem_of_nil]%elem_of_cons]; [lia|lia|done] end.
Qed.

Lemma contract_digest_total sha256_hash c :
  contract_wf c → validate c = Ok () → ∃ d, contract_digest sha256_hash c = Ok d.
Proof.
  intros Hw Hv. destruct (contract_encodes c Hw Hv) as (bs & E & _). unfold contract_digest. rewrite E.
  by eexists.
Qed.

(** Sizes of the values [from_snapshot] is given. *)
Record snapshot_wf (s : RuntimeAdmissionSnapshot) : Prop := {
  sw_request : contract_wf (sn_request s);
  sw_registry : sha_wf (sn_registry_digest s);
  sw_nonce : length (nonce_bytes (sn_admission_nonce s)) = 16%nat;
  sw_reference : length (nonce_bytes (sn_caller_invocation_reference s)) = 16%nat
}.

Lemma snapshot_validate_Ok sha256_hash s :
  admission_snapshot_validate sha256_hash s = Ok () →
  validate (sn_request s) = Ok () ∧
  contract_digest sha256_hash (sn_request s) = Ok (sn_request_digest s) ∧
  authorized_profile (sn_request s) = baseline_reference sha256_hash (sn_native_profile s).
Proof.
  unfold admission_snapshot_validate. intros H. apply bind_Ok in H as ([] & Hv & H).
  apply bind_Ok in H as (d & Hd & H). apply guard_err_Ok in H. bool_hyps.
  destruct (_ || _); [done|]. split_and!; [done|congruence|done].
Qed.

Section lifecycle.
  Context (sha256_hash : list u8 → list u8).
  Hypothesis hash_length : ∀ bs, length (sha256_hash bs) = 32%nat.

Lemma hash_bytes_wf bs : sha_wf (hash_bytes sha256_hash bs).
Proof using hash_length. apply hash_length. Qed.

Lemma contract_digest_wf c d : contract_digest sha256_hash c = Ok d → sha_wf d.
Proof using hash_length.
  unfold contract_digest. destruct (encode_contract c); [|done]. intros [= <-]. apply hash_bytes_wf.
Qed.

Lemma request_binding_Ok c :
  contract_wf c → validate c = Ok () →
  ∃ b, request_binding sha256_hash c = Ok b ∧ request_binding_wf b ∧ rb_profile b = authorized_profile c.
Proof using hash_length.
  intros Hw Hv. destruct (contract_digest_total sha256_hash c Hw Hv) as [d Hd].
  unfold request_binding. rewrite Hd. eexists. split; [done|]. split; [|done].
  pose proof (contract_digest_wf _ _ Hd). destruct Hw as [? ? (? & [? ?] & ?) ? ? [? [? ?]]].
  by constructor.
Qed.

Lemma plan_from_local_grant_Ok c registry_digest provider boot profile :
  contract_wf c → validate c = Ok () → sha_wf registry_digest →
  authorized_profile c = baseline_reference sha256_hash profile →
  binding_is_consistent provider = true → text boot ≠ ""%string →
  ∃ plan request, plan_from_local_grant sha256_hash c registry_digest provider boot = Ok plan ∧
    request_binding sha256_hash c = Ok request ∧ request_binding_wf request ∧
    pb_format plan = "memcordon.local-plan"%string ∧ pb_revision plan = 1 ∧
    pb_request plan = request ∧ rb_profile request = authorized_profile c ∧
    pb_registry_digest plan = registry_digest ∧ pb_provider plan = provider ∧
    pb_boot_identity plan = boot ∧ sha_wf (pb_effective_policy_digest plan).
Proof using hash_length.
  intros Hw Hv Hr Hp Hb Ht. destruct (request_binding_Ok c Hw Hv) as (b & Eb & Wb & Pb).
  unfold plan_from_local_grant. rewrite Hb, Hp, baseline_for_reference.
  assert (str_is_empty (text boot) = false) as -> by (by destruct (text boot)). cbn [negb orb guard_err].
  cbn [mbind result_bind ok_or]. rewrite Eb. cbn [mbind result_bind].
  destruct (within_encode 101 PUBLIC_OBJECT_BYTES (domain "effective-workload-policy-v1")
    (put_effective b registry_digest (baseline_ceiling profile))) as [bs ->].
  - unfold put_effective. destruct Wb as [? ? [? ?] ? ?].
    do 3 (apply (within_bind 32); [by apply within_digest|]). apply within_ceiling.
  - vm_compute. discriminate.
  - do 2 eexists. split; [done|]. split_and!; try done; [congruence|apply hash_bytes_wf].
Qed.

(** A binding made from a valid snapshot is well formed and matches it. *)
Lemma attempt_from_snapshot_Ok snapshot provider boot attempt_id restart :
  snapshot_wf snapshot → admission_snapshot_validate sha256_hash snapshot = Ok () →
  binding_is_consistent provider = true → provider_wf provider →
  text boot ≠ ""%string → public_text_wf 128 (text boot) →
  text attempt_id ≠ ""%string → public_text_wf 128 (text attempt_id) → restart < 2 ^ 64 →
  ∃ b, attempt_from_snapshot sha256_hash snapshot provider boot attempt_id restart = Ok b ∧
    attempt_wf b ∧ attempt_matches_snapshot sha256_hash b snapshot = true ∧
    plan_matches_contract sha256_hash (ab_plan b) (sn_request snapshot) = true ∧
    request_binding sha256_hash (sn_request snapshot) = Ok (pb_request (ab_plan b)) ∧
    rb_profile (pb_request (ab_plan b)) = baseline_reference sha256_hash (sn_native_profile snapshot) ∧
    pb_boot_identity (ab_plan b) = boot ∧ ab_attempt_id b = attempt_id ∧ ab_restart_attempt b = restart.
Proof using hash_length.
  intros [Wr Wg Wn Wi] Hs Hp Wp Hb Wb Ha Wa Wre.
  pose proof (snapshot_validate_Ok _ _ Hs) as (Hv & _ & Hprof).
  destruct (plan_from_local_grant_Ok _ _ provider boot _ Wr Hv Wg Hprof Hp Hb)
    as (plan & request & Ep & Er & Wreq & F1 & F2 & F3 & F4 & F5 & F6 & F7 & F8).
  unfold attempt_from_snapshot. rewrite Hs, Hp.
  assert (∀ s, s ≠ ""%string → str_is_empty s = false) as He by (by intros []).
  rewrite !He by done. cbn [negb orb guard_err mbind result_bind]. rewrite Ep.
  eexists. split; [reflexivity|].
  assert (plan_matches_contract sha256_hash plan (sn_request snapshot) = true) as Hm.
  { unfold plan_matches_contract. rewrite F5, F6, F7, Ep. by apply bool_decide_eq_true_2. }
  split; [|split].
  - subst. constructor; cbn [ab_plan ab_format ab_revision ab_attempt_id ab_restart_attempt ab_admission_nonce ab_caller_invocation_reference]; try done; congruence.
  - unfold attempt_matches_snapshot. cbn [ab_format ab_revision ab_plan ab_admission_nonce
      ab_caller_invocation_reference]. rewrite Hs, Hm, Er, F3, F5. cbn [is_ok is_ok_and].
    by rewrite !bool_decide_eq_true_2.
  - cbn [ab_plan ab_attempt_id ab_restart_attempt]. split_and!; try done; congruence.
Qed.

Lemma checkpoint_digest_Ok d profile :
  sha_wf d → ∃ k, checkpoint_digest sha256_hash d (baseline_observation profile) = Ok k.
Proof.
  intros Hd. unfold checkpoint_digest, checkpoint_bytes.
  destruct (within_encode 39 PUBLIC_OBJECT_BYTES (domain "attempt-policy-enforcement-v1")
    (put_checkpoint d (baseline_observation profile))) as [bs ->]; [|vm_compute; discriminate|by eexists].
  destruct profile; (eexists; split; [by apply writes_checkpoint|]); unfold checkpoint_body;
    rewrite !length_app, Hd; done.
Qed.
End lifecycle.

(** The gates a checkpoint must have observed. *)
Lemma checkpoint_observed_gates sha256_hash b controls g1 g2 g3 g4 g5 g6 c :
  checkpoint_observed sha256_hash b controls g1 g2 g3 g4 g5 g6 = Ok c →
  g1 && g2 && g3 && g4 && g5 && g6 = true ∧ controls ≠ UnmanagedStandardBackend ∧
  attempt_digest sha256_hash b = Ok (cp_attempt_binding c) ∧ cp_controls c = controls ∧
  checkpoint_digest sha256_hash (cp_attempt_binding c) controls = Ok (cp_digest c).
Proof.
  unfold checkpoint_observed. intros H. apply bind_Ok in H as (d & Hd & H).
  apply bind_Ok in H as (k & Hk & H). unfold checkpoint_try_from in H.
  rewrite bind_Ok in H. destruct H as ([] & G & H). cbn in G, H. rewrite Hk in H. cbn in H.
  apply guard_err_Ok in G. apply bind_Ok in H as ([] & _ & [= <-]). cbn.
  apply orb_false_iff in G as [G1 G2]. apply negb_false_iff in G1. apply bool_decide_eq_false in G2.
  by split_and!.
Qed.

(** C39: the evidence of an admitted attempt is accepted from end to end, and not
    without every gate.  For a snapshot that validates, a consistent provider and
    proper identifiers, the attempt binding is made and matches the snapshot; with
    all six gates observed the checkpoint is made; once the controls are preserved
    and the resources closed the attempt retires; and the consumer accepts that
    record for this request, profile, attempt, restart number and boot, and
    resolves it as admitted.  With any gate missing no checkpoint exists. *)
Theorem admission_lifecycle sha256_hash snapshot provider boot attempt_id restart :
  (∀ bs, length (sha256_hash bs) = 32%nat) →
  snapshot_wf snapshot → admission_snapshot_validate sha256_hash snapshot = Ok () →
  binding_is_consistent provider = true → provider_wf provider →
  text boot ≠ ""%string → public_text_wf 128 (text boot) →
  text attempt_id ≠ ""%string → public_text_wf 128 (text attempt_id) → restart < 2 ^ 64 →
  let profile := sn_native_profile snapshot in
  ∃ b c e,
    attempt_from_snapshot sha256_hash snapshot provider boot attempt_id restart = Ok b ∧
    attempt_matches_snapshot sha256_hash b snapshot = true ∧
    checkpoint_observed sha256_hash b (baseline_observation profile) true true true true true true = Ok c ∧
    checkpoint_matches_binding sha256_hash c b = true ∧
    enforcement_retired sha256_hash b c true true = Ok e ∧
    valid_native_terminal sha256_hash e (Some (sn_request snapshot)) profile (text attempt_id) restart
      (text boot) = true ∧
    enforcement_resolution sha256_hash e
      = Some (Resolution_Admitted b (effective_policy profile) (cp_digest c)) ∧
    (∀ g1 g2 g3 g4 g5 g6, g1 && g2 && g3 && g4 && g5 && g6 = false → ∀ controls,
       is_ok (checkpoint_observed sha256_hash b controls g1 g2 g3 g4 g5 g6) = false).
Proof.
  intros Hh Ws Hs Hp Wp Hb Wb Ha Wa Wr profile.
  destruct (attempt_from_snapshot_Ok _ Hh _ _ _ _ _ Ws Hs Hp Wp Hb Wb Ha Wa Wr)
    as (b & Eb & Wf & Hm & Hpm & Hreq & Hprof & Fboot & Fid & Fre).
  destruct (attempt_encodes b Wf) as [bs Ebs].
  assert (attempt_digest sha256_hash b = Ok (hash_bytes sha256_hash bs)) as Ed
    by (unfold attempt_digest; by rewrite Ebs).
  destruct (checkpoint_digest_Ok sha256_hash (hash_bytes sha256_hash bs) profile) as [k Ek];
    [by apply hash_bytes_wf|].
  set (c := {| cp_attempt_binding := hash_bytes sha256_hash bs; cp_digest := k;
               cp_controls := baseline_observation profile; cp_target_gated := true;
               cp_caller_verified := true; cp_resources_verified := true; cp_guardian_verified := true;
               cp_epoch_verified := true; cp_durable := true |}).
  assert (checkpoint_matches_binding sha256_hash c b = true) as Hc.
  { apply checkpoint_matches_binding_true. exists profile. rewrite Hprof, baseline_for_reference. done. }
  set (e := Enforcement_Authorized b c (Terminal_Retired (hash_bytes sha256_hash bs) k true true)).
  assert (enforcement_is_consistent sha256_hash e = true) as He.
  { cbn. rewrite Ed, Hc. by rewrite !bool_decide_eq_true_2. }
  exists b, c, e. split_and!; try done.
  - unfold checkpoint_observed. rewrite Ed. cbn. rewrite Ek. cbn. unfold checkpoint_try_from. cbn.
    rewrite Ek. destruct profile; cbn; by rewrite bool_decide_eq_true_2.
  - unfold enforcement_retired. rewrite Ed. cbn. by rewrite bool_decide_eq_true_2.
  - unfold valid_native_terminal, matches_terminal_request, terminal_success. rewrite He. cbn [e andb].
    rewrite Hreq, Hpm, Fboot, Fid, Fre, N.eqb_refl. cbn [is_ok_and andb].
    pose proof (snapshot_validate_Ok _ _ Hs) as (_ & _ & Hau).
    rewrite Hau. by rewrite !bool_decide_eq_true_2.
  - unfold enforcement_resolution. rewrite He. cbn [negb e]. by rewrite Hprof, baseline_for_reference.
  - intros g1 g2 g3 g4 g5 g6 Hg controls. destruct (checkpoint_observed _ _ _ _ _ _ _ _ _) eqn:Eo; [|done].
    apply checkpoint_observed_gates in Eo as [? _]. congruence.
Qed.

Module EvidenceExamples.
Import RegistryExamples.

Definition request_digest : DiagnosticSha256 :=
  match contract_digest hash (request [unix_socket]) with Ok d => d | Err _ => plan end.
Definition snapshot : RuntimeAdmissionSnapshot :=
  {| sn_format := "memcordon.local-admission"; sn_revision := 1; sn_request := request [unix_socket];
     sn_request_digest := request_digest; sn_registry_digest := plan; sn_admission_nonce := nonce;
     sn_caller_invocation_reference := nonce; sn_private_invocation_digest := plan;
     sn_caller := alice; sn_native_profile := LinuxUnixCreate |}.
Definition provider : PublicProviderBindingV1 :=
  {| generation := BoundedText_of "g1";
     source_commit := BoundedText_of "0123456789abcdef0123456789abcdef01234567";
     runtime_manifest_sha256 := plan |}.
Definition boot : BoundedText 128 := BoundedText_of "boot".
Definition attempt_id : BoundedText 128 := BoundedText_of "attempt".

Lemma hash_length bs : length (hash bs) = 32%nat.
Proof. unfold hash. rewrite length_take, length_app, length_replicate. lia. Qed.
Lemma snapshot_sample : snapshot_wf snapshot.
Proof.
  constructor; try done. constructor; try done; cbn.
  - split; [unfold bounded, REQUIREMENTS; cbn; lia|]. by apply Forall_singleton.
  - split; [unfold bounded, ENDPOINTS; cbn; lia|]. by apply Forall_nil.
Qed.
Lemma provider_sample : provider_wf provider.
Proof. constructor; [split|split|]; done. Qed.
End EvidenceExamples.

Lemma admission_lifecycle_witness :
  ∃ b, attempt_from_snapshot RegistryExamples.hash EvidenceExamples.snapshot EvidenceExamples.provider
         EvidenceExamples.boot EvidenceExamples.attempt_id 3 = Ok b ∧
    is_ok (checkpoint_observed RegistryExamples.hash b
             LinuxUnixOnlySocketSyscallFilterAlternatePathsUnknown true true true true false true) = false.
Proof.
  destruct (admission_lifecycle RegistryExamples.hash EvidenceExamples.snapshot EvidenceExamples.provider
    EvidenceExamples.boot EvidenceExamples.attempt_id 3 EvidenceExamples.hash_length
    EvidenceExamples.snapshot_sample ltac:(vm_compute; reflexivity) ltac:(reflexivity)
    EvidenceExamples.provider_sample ltac:(discriminate) ltac:(split; [reflexivity|vm_compute; discriminate])
    ltac:(discriminate) ltac:(split; [reflexivity|vm_compute; discriminate]) ltac:(reflexivity))
    as (b & c & e & H & _ & _ & _ & _ & _ & _ & G).
  exists b. split; [exact H|]. apply G. reflexivity.
Defined.

(** The checkpoint of the sample attempt matches itself and no other restart. *)
Lemma checkpoint_binds_attempt_witness :
  ∃ b c, checkpoint_matches_binding RegistryExamples.hash c b = true ∧
    ((b = b ∧ cp_controls c = cp_controls c) ∨
     (∃ x y, attempt_bytes b = Ok x ∧ attempt_bytes b = Ok y ∧ collision RegistryExamples.hash x y) ∨
     (∃ x y, checkpoint_bytes (cp_attempt_binding c) (cp_controls c) = Ok x ∧
        checkpoint_bytes (cp_attempt_binding c) (cp_controls c) = Ok y ∧
        collision RegistryExamples.hash x y)).
Proof.
  destruct (attempt_from_snapshot_Ok RegistryExamples.hash EvidenceExamples.hash_length
    EvidenceExamples.snapshot EvidenceExamples.provider EvidenceExamples.boot
    EvidenceExamples.attempt_id 3) as (b & Eb & Wf & _).
  1: exact EvidenceExamples.snapshot_sample.
  1: vm_compute; reflexivity.
  1: reflexivity.
  1: exact EvidenceExamples.provider_sample.
  1,3: discriminate.
  1,2: split; [reflexivity|vm_compute; discriminate].
  1: reflexivity.
  destruct (checkpoint_observed RegistryExamples.hash b
    LinuxUnixOnlySocketSyscallFilterAlternatePathsUnknown true true true true true true) as [c|] eqn:Ec.
  2:{ exfalso. vm_compute in Eb. injection Eb as <-. vm_compute in Ec. discriminate. }
  assert (checkpoint_matches_binding RegistryExamples.hash c b = true) as Hc.
  { vm_compute in Eb. injection Eb as <-. vm_compute in Ec. injection Ec as <-. vm_compute. reflexivity. }
  exists b, c. split; [exact Hc|].
  exact (checkpoint_binds_attempt RegistryExamples.hash b b c c Wf Wf Hc Hc eq_refl).
Defined.
