(* ===== verification/Protocol.v ===== *)
(** * Provider frames

    protocol.rs of the sealed agent: the frame that carries every message
    between frontend, provider and broker.  A reader is the bytes that arrive
    before the end and the kind of the error that ends it; a writer is the
    interface [Write].  SHA-256 is the parameter [sha256_hash]. *)

From S2P Require Import Prelude Decimal Bounded Codec.
From Stdlib Require Import Ascii.

Definition PROTOCOL_VERSION : N := 3.
Definition MAX_FRAME_LENGTH : N := 1024 * 1024.
Definition DIGEST_LENGTH : N := 32.
Definition HEADER_LENGTH : N := 2 + 2 + 4 + 16 + 16 + DIGEST_LENGTH.

Inductive MessageKind : Type :=
| Probe | Launch | Cancel | Query | BrokerProbe | BrokerLaunch | BrokerAuthenticate | WorkloadPlan
| WorkloadDiscovery | PrivateLaunch | PrivateBrokerLaunch | PrivatePlan | PrivateDiscovery | ProbeReceipt
| LaunchPrepared | Authorized | Progress | Terminal | Rejected | BrokerAuthenticated | WorkloadPlanReceipt
| WorkloadDiscoveryReceipt | PrivateTerminal | PrivateRejected | PrivatePlanReceipt | PrivateDiscoveryReceipt.
#[global] Instance MessageKind_eq_dec : EqDecision MessageKind.
Proof. solve_decision. Defined.

(** [kind as u16] *)
Definition kind_code (k : MessageKind) : N :=
  match k with
  | Probe => 1 | Launch => 2 | Cancel => 3 | Query => 4 | BrokerProbe => 5 | BrokerLaunch => 6
  | BrokerAuthenticate => 7 | WorkloadPlan => 8 | WorkloadDiscovery => 9 | PrivateLaunch => 10
  | PrivateBrokerLaunch => 11 | PrivatePlan => 12 | PrivateDiscovery => 13 | ProbeReceipt => 101
  | LaunchPrepared => 102 | Authorized => 103 | Progress => 104 | Terminal => 105 | Rejected => 106
  | BrokerAuthenticated => 107 | WorkloadPlanReceipt => 108 | WorkloadDiscoveryReceipt => 109
  | PrivateTerminal => 110 | PrivateRejected => 113 | PrivatePlanReceipt => 111 | PrivateDiscoveryReceipt => 112
  end.

(** An [io::ErrorKind], by name. *)
Definition ErrorKind : Type := string.
Inductive ProtocolError : Type :=
| Io (kind : ErrorKind) | UnsupportedVersion (version : N) | UnknownKind (kind : N) | FrameTooLarge (length : N)
| InvalidLength (length : N) | PayloadDigestMismatch.

Definition kind_try_from (value : N) : result ProtocolError MessageKind :=
  match value with
  | 1 => Ok Probe | 2 => Ok Launch | 3 => Ok Cancel | 4 => Ok Query | 5 => Ok BrokerProbe | 6 => Ok BrokerLaunch
  | 7 => Ok BrokerAuthenticate | 8 => Ok WorkloadPlan | 9 => Ok WorkloadDiscovery | 10 => Ok PrivateLaunch
  | 11 => Ok PrivateBrokerLaunch | 12 => Ok PrivatePlan | 13 => Ok PrivateDiscovery | 101 => Ok ProbeReceipt
  | 102 => Ok LaunchPrepared | 103 => Ok Authorized | 104 => Ok Progress | 105 => Ok Terminal | 106 => Ok Rejected
  | 107 => Ok BrokerAuthenticated | 108 => Ok WorkloadPlanReceipt | 109 => Ok WorkloadDiscoveryReceipt
  | 110 => Ok PrivateTerminal | 113 => Ok PrivateRejected | 111 => Ok PrivatePlanReceipt
  | 112 => Ok PrivateDiscoveryReceipt
  | _ => Err (UnknownKind value)
  end.

Record Frame : Type := {
  fr_kind : MessageKind; fr_nonce : list u8; fr_attempt_id : list u8; fr_payload : list u8
}.

(** ** Reading *)
Record reader : Type := { rd_bytes : list u8; rd_error : option ErrorKind }.
Definition read_exact (n : N) : stM reader ErrorKind (list u8) := λ input,
  if N.of_nat (length (rd_bytes input)) <? n
  then ({| rd_bytes := []; rd_error := rd_error input |}, Err (default "UnexpectedEof"%string (rd_error input)))
  else ({| rd_bytes := drop (N.to_nat n) (rd_bytes input); rd_error := rd_error input |},
        Ok (take (N.to_nat n) (rd_bytes input))).
Definition read_io (n : N) : stM reader ProtocolError (list u8) := λ input,
  let '(input, r) := read_exact n input in (input, map_err Io r).

(** [&bytes[from..to]] *)
Definition slice (from to : N) (l : list u8) : list u8 := take (N.to_nat (to - from)) (drop (N.to_nat from) l).

Section Frames.
Context (sha256_hash : list u8 → list u8).

Definition read_frame_version (expected_version : N) : stM reader ProtocolError Frame :=
  header ← read_io HEADER_LENGTH;
  let version := from_be_bytes (slice 0 2 header) in
  st_lift (guard_err (negb (version =? expected_version)) (UnsupportedVersion version)) ≫= λ _,
  kind ← st_lift (kind_try_from (from_be_bytes (slice 2 4 header)));
  let total := from_be_bytes (slice 4 8 header) in
  st_lift (guard_err (total <? HEADER_LENGTH) (InvalidLength total)) ≫= λ _,
  st_lift (guard_err (MAX_FRAME_LENGTH <? total) (FrameTooLarge total)) ≫= λ _,
  let nonce := slice 8 24 header in
  let attempt_id := slice 24 40 header in
  let expected_digest := slice 40 HEADER_LENGTH header in
  payload ← read_io (total - HEADER_LENGTH);
  st_lift (guard_err (sha256_hash payload ≠? expected_digest) PayloadDigestMismatch) ≫= λ _,
  mret {| fr_kind := kind; fr_nonce := nonce; fr_attempt_id := attempt_id; fr_payload := payload |}.
Definition read_frame : stM reader ProtocolError Frame := read_frame_version PROTOCOL_VERSION.

(** ** Writing *)
Class Write (W : Type) : Type := { write_all : list u8 → stM W ErrorKind () }.
(** [Vec<u8>] *)
#[global] Instance write_vec : Write (list u8) := {| write_all := λ l w, (w ++ l, Ok ()) |}.

Definition frame_total (payload : list u8) : result ProtocolError N :=
  total ← ok_or (FrameTooLarge u64_max) (checked_add 64 HEADER_LENGTH (N.of_nat (length payload)));
  guard_err (MAX_FRAME_LENGTH <? total) (FrameTooLarge total) ;;
  ok_or (FrameTooLarge total) (try_from 32 total).

(** The chunks in order, up to the first that fails. *)
Definition write_chunks {W} `{Write W} (chunks : list (list u8)) : stM W ProtocolError () := λ w,
  let '(w, r) := st_for write_all chunks w in (w, map_err Io r).
Definition write_frame_version {W} `{Write W} (frame : Frame) (version : N) : stM W ProtocolError () :=
  total ← st_lift (frame_total (fr_payload frame));
  write_chunks
    [be_bytes 2 version; be_bytes 2 (kind_code (fr_kind frame)); be_bytes 4 total; fr_nonce frame;
     fr_attempt_id frame; sha256_hash (fr_payload frame); fr_payload frame].
Definition write_frame {W} `{Write W} (frame : Frame) : stM W ProtocolError () :=
  write_frame_version frame PROTOCOL_VERSION.

(** ** Frames on the wire *)
Record frame_wf (f : Frame) : Prop := {
  fw_nonce : length (fr_nonce f) = 16%nat; fw_attempt : length (fr_attempt_id f) = 16%nat;
  fw_payload : N.of_nat (length (fr_payload f)) <= MAX_FRAME_LENGTH - HEADER_LENGTH
}.
Definition frame_bytes (f : Frame) : list u8 :=
  be_bytes 2 PROTOCOL_VERSION ++ be_bytes 2 (kind_code (fr_kind f))
  ++ be_bytes 4 (HEADER_LENGTH + N.of_nat (length (fr_payload f))) ++ fr_nonce f ++ fr_attempt_id f
  ++ sha256_hash (fr_payload f) ++ fr_payload f.

Lemma kind_try_from_Ok n k : kind_try_from n = Ok k ↔ kind_code k = n.
Proof.
  split; [|intros <-; by destruct k]. unfold kind_try_from. by repeat case_match; intros [= <-].
Qed.

Lemma frame_total_Ok payload total :
  frame_total payload = Ok total ↔
  total = HEADER_LENGTH + N.of_nat (length payload) ∧ N.of_nat (length payload) <= MAX_FRAME_LENGTH - HEADER_LENGTH.
Proof.
  unfold frame_total, HEADER_LENGTH, DIGEST_LENGTH, MAX_FRAME_LENGTH. split.
  - intros (t & [-> Hs]%ok_or_Ok%checked_add_Some & [Hg%N.ltb_ge E]%guard_bind_Ok)%bind_Ok.
    apply ok_or_Ok, try_from_Some in E as [-> _]. lia.
  - intros [-> Hl]. unfold checked_add, fits, try_from.
    replace (_ <? 2 ^ 64) with true by lia. cbn [ok_or mbind result_bind].
    apply guard_bind_Ok. split; [apply N.ltb_ge; lia|]. unfold fits. by replace (_ <? 2 ^ 32) with true by lia.
Qed.

Lemma read_io_Ok n i i' x :
  read_io n i = (i', Ok x) ↔
  N.of_nat (length x) = n ∧ rd_bytes i = x ++ rd_bytes i' ∧ rd_error i' = rd_error i.
Proof.
  unfold read_io, read_exact. destruct i as [b e], i' as [b' e']. cbn [rd_bytes rd_error].
  destruct (N.ltb_spec (N.of_nat (length b)) n) as [L|L]; cbn [map_err]; split; try done.
  - intros (Hx & -> & _). rewrite length_app in L. lia.
  - intros [= <- <- <-]. rewrite length_take, take_drop. split_and!; [lia|done..].
  - intros (Hx & -> & ->). by rewrite take_app_length', drop_app_length' by lia.
Qed.

Lemma kind_code_bound k : kind_code k < 2 ^ 16.
Proof. by destruct k. Qed.

(** A slice of a header in the middle of it. *)
Lemma slice_app (from to : N) a b c : N.of_nat (length a) = from → N.of_nat (length b) = to - from →
  slice from to (a ++ b ++ c) = b.
Proof. intros Ha Hb. unfold slice. by rewrite drop_app_length', take_app_length' by lia. Qed.
Lemma slice_split (from mid to : N) l : from <= mid → mid <= to →
  slice from to l = slice from mid l ++ slice mid to l.
Proof.
  intros H1 H2. unfold slice.
  replace (N.to_nat (to - from)) with (N.to_nat (mid - from) + N.to_nat (to - mid))%nat by lia.
  replace (drop (N.to_nat mid) l) with (drop (N.to_nat (mid - from)) (drop (N.to_nat from) l))
    by (rewrite drop_drop; f_equal; lia).
  by rewrite take_take_drop.
Qed.
Lemma slice_whole n l : N.of_nat (length l) = n → slice 0 n l = l.
Proof. intros Hl. unfold slice. rewrite drop_0, take_ge; [done|lia]. Qed.
Lemma slice_length (from to : N) l : to <= N.of_nat (length l) → N.of_nat (length (slice from to l)) = to - from.
Proof. intros Hl. unfold slice. rewrite length_take, length_drop. lia. Qed.
Lemma slice_be (k : nat) (from to : N) l : to - from = N.of_nat k → to <= N.of_nat (length l) →
  be_bytes k (from_be_bytes (slice from to l)) = slice from to l.
Proof.
  intros Hk Hl. pose proof (slice_length from to l Hl) as Hs. rewrite <- (be_bytes_decode (slice from to l)) at 2.
  f_equal. lia.
Qed.

Context (sha256_length : ∀ x, N.of_nat (length (sha256_hash x)) = 32).

Lemma header_fields total f : total < 2 ^ 32 → frame_wf f →
  let h := be_bytes 2 PROTOCOL_VERSION ++ be_bytes 2 (kind_code (fr_kind f)) ++ be_bytes 4 total ++ fr_nonce f
           ++ fr_attempt_id f ++ sha256_hash (fr_payload f) in
  N.of_nat (length h) = HEADER_LENGTH ∧ from_be_bytes (slice 0 2 h) = PROTOCOL_VERSION
  ∧ from_be_bytes (slice 2 4 h) = kind_code (fr_kind f) ∧ from_be_bytes (slice 4 8 h) = total
  ∧ slice 8 24 h = fr_nonce f ∧ slice 24 40 h = fr_attempt_id f
  ∧ slice 40 HEADER_LENGTH h = sha256_hash (fr_payload f).
Proof.
  intros Ht [Hn Ha _] h. pose proof (sha256_length (fr_payload f)) as Hd.
  assert (∀ a b c, h = a ++ b ++ c → slice (N.of_nat (length a)) (N.of_nat (length a) + N.of_nat (length b)) h = b)
    as Hs by (intros a b c ->; apply slice_app; [done|lia]).
  split_and!.
  - unfold h, HEADER_LENGTH, DIGEST_LENGTH. rewrite !length_app, !length_be_bytes, Hn, Ha. lia.
  - by rewrite (Hs [] (be_bytes 2 PROTOCOL_VERSION) _ eq_refl : slice 0 2 h = _).
  - rewrite (Hs (be_bytes 2 PROTOCOL_VERSION) (be_bytes 2 (kind_code (fr_kind f))) _ eq_refl : slice 2 4 h = _).
    apply from_be_bytes_encode, kind_code_bound.
  - rewrite (Hs (be_bytes 2 PROTOCOL_VERSION ++ be_bytes 2 (kind_code (fr_kind f))) (be_bytes 4 total)
      (fr_nonce f ++ fr_attempt_id f ++ sha256_hash (fr_payload f))
      ltac:(unfold h; by rewrite <- !(assoc_L (++))) : slice 4 8 h = _). by apply from_be_bytes_encode.
  - specialize (Hs (be_bytes 2 PROTOCOL_VERSION ++ be_bytes 2 (kind_code (fr_kind f)) ++ be_bytes 4 total) (fr_nonce f)
      (fr_attempt_id f ++ sha256_hash (fr_payload f)) ltac:(unfold h; by rewrite <- !(assoc_L (++)))).
    by rewrite Hn in Hs.
  - specialize (Hs (be_bytes 2 PROTOCOL_VERSION ++ be_bytes 2 (kind_code (fr_kind f)) ++ be_bytes 4 total ++ fr_nonce f)
      (fr_attempt_id f) (sha256_hash (fr_payload f)) ltac:(unfold h; by rewrite <- !(assoc_L (++)))).
    rewrite !length_app, Hn, Ha in Hs. exact Hs.
  - specialize (Hs (be_bytes 2 PROTOCOL_VERSION ++ be_bytes 2 (kind_code (fr_kind f)) ++ be_bytes 4 total ++ fr_nonce f
      ++ fr_attempt_id f) (sha256_hash (fr_payload f)) []
      ltac:(unfold h; by rewrite app_nil_r, <- !(assoc_L (++)))).
    rewrite !length_app, Hn, Ha, Hd in Hs. exact Hs.
Qed.

Lemma guard_lift_Ok {S E B} c (e : E) (k : () → stM S E B) (s s' : S) b :
  (st_lift (guard_err c e) ≫= k) s = (s', Ok b) ↔ c = false ∧ k () s = (s', Ok b).
Proof. destruct c; cbn; [naive_solver|]. by split; [intros|intros [_ ?]]. Qed.

Lemma read_frame_Ok i i' f :
  read_frame i = (i', Ok f) ↔
  frame_wf f ∧ rd_bytes i = frame_bytes f ++ rd_bytes i' ∧ rd_error i' = rd_error i.
Proof.
  unfold read_frame, read_frame_version. split.
  - intros (i1 & h & (Hh & Eb & Ee)%read_io_Ok & E)%stM_bind_Ok. cbv zeta in E.
    apply guard_lift_Ok in E as [Hv E]. apply stM_bind_Ok in E as (i2 & kind & [-> Hk%kind_try_from_Ok]%st_lift_Ok & E).
    apply guard_lift_Ok in E as [Hl E]. apply guard_lift_Ok in E as [Hm E].
    apply stM_bind_Ok in E as (i3 & payload & (Hp & Eb' & Ee')%read_io_Ok & E).
    apply guard_lift_Ok in E as [Hd E]. injection E as <- <-.
    apply negb_false_iff, N.eqb_eq in Hv. apply negb_false_iff, bool_decide_eq_true in Hd.
    apply N.ltb_ge in Hl, Hm. unfold HEADER_LENGTH, DIGEST_LENGTH, MAX_FRAME_LENGTH in *.
    split_and!; [|..|congruence].
    + split; cbn [fr_nonce fr_attempt_id fr_payload].
      * pose proof (slice_length 8 24 h). lia.
      * pose proof (slice_length 24 40 h). lia.
      * unfold MAX_FRAME_LENGTH, HEADER_LENGTH, DIGEST_LENGTH. lia.
    + unfold frame_bytes. cbn [fr_kind fr_nonce fr_attempt_id fr_payload].
      rewrite Eb, Eb', Hk, <- Hv, Hd.
      replace (HEADER_LENGTH + N.of_nat (length payload)) with (from_be_bytes (slice 4 8 h))
        by (unfold HEADER_LENGTH, DIGEST_LENGTH; lia).
      rewrite !slice_be by lia. rewrite <- (slice_whole _ h Hh) at 1.
      rewrite (slice_split 0 2), (slice_split 2 4), (slice_split 4 8), (slice_split 8 24), (slice_split 24 40) by lia.
      by rewrite <- !(assoc_L (++)).
  - intros (Hwf & Eb & Ee). pose proof Hwf as [_ _ Hp].
    unfold MAX_FRAME_LENGTH, HEADER_LENGTH, DIGEST_LENGTH in Hp.
    set (total := HEADER_LENGTH + N.of_nat (length (fr_payload f))).
    assert (total < 2 ^ 32) as Ht by (unfold total, HEADER_LENGTH, DIGEST_LENGTH; lia).
    pose proof (header_fields total f Ht Hwf) as Hf. cbv zeta in Hf.
    set (h := be_bytes 2 PROTOCOL_VERSION ++ _) in Hf. destruct Hf as (Hlen & F1 & F2 & F3 & F4 & F5 & F6).
    apply stM_bind_Ok. exists {| rd_bytes := fr_payload f ++ rd_bytes i'; rd_error := rd_error i |}, h. split.
    { apply read_io_Ok. split_and!; [done| |done]. rewrite Eb. unfold frame_bytes, h, total. cbn [rd_bytes].
      by rewrite <- !(assoc_L (++)). }
    cbv zeta. rewrite F1, F2, F3, F4, F5, F6. apply guard_lift_Ok. split; [done|].
    apply stM_bind_Ok. eexists _, (fr_kind f). split; [apply st_lift_Ok; split; [done|by apply kind_try_from_Ok]|].
    apply guard_lift_Ok. split; [apply N.ltb_ge; unfold total; lia|].
    apply guard_lift_Ok. split; [apply N.ltb_ge; unfold total, HEADER_LENGTH, DIGEST_LENGTH, MAX_FRAME_LENGTH; lia|].
    apply stM_bind_Ok. exists i', (fr_payload f). split.
    { apply read_io_Ok. cbn [rd_bytes rd_error]. split_and!; [unfold total; lia|done|done]. }
    rewrite bool_decide_true by done. cbn. by destruct f.
Qed.

Lemma write_frame_spec f (w : list u8) :
  write_frame f w =
    if HEADER_LENGTH + N.of_nat (length (fr_payload f)) <=? MAX_FRAME_LENGTH then (w ++ frame_bytes f, Ok ())
    else (w, Err (match checked_add 64 HEADER_LENGTH (N.of_nat (length (fr_payload f))) with
                  | Some total => FrameTooLarge total | None => FrameTooLarge u64_max end)).
Proof.
  unfold write_frame, write_frame_version, mbind, stM_bind, st_lift.
  destruct (N.leb_spec (HEADER_LENGTH + N.of_nat (length (fr_payload f))) MAX_FRAME_LENGTH) as [Hl|Hl].
  - assert (N.of_nat (length (fr_payload f)) <= MAX_FRAME_LENGTH - HEADER_LENGTH) as Hp
      by (unfold MAX_FRAME_LENGTH, HEADER_LENGTH, DIGEST_LENGTH in *; lia).
    rewrite (proj2 (frame_total_Ok (fr_payload f) _) (conj eq_refl Hp)).
    unfold write_chunks, frame_bytes. cbn [st_for write_all write_vec].
    unfold mbind, stM_bind, mret, stM_ret. cbn [map_err]. by rewrite <- !(assoc_L (++)).
  - unfold frame_total. destruct (checked_add 64 _ _) as [t|] eqn:Et; cbn [ok_or mbind result_bind]; [|done].
    apply checked_add_Some in Et as [-> _]. by replace (MAX_FRAME_LENGTH <? _) with true by lia.
Qed.

(** C27: provider frames are exact.  A frame is read off the front of the input
    exactly when its bytes are there: 72 bytes of header with this version,
    the kind, the length, the identities and the digest of the payload, then
    the payload and nothing of what follows; a frame that fits is written as
    those bytes, and of one that does not nothing is written.  So what was
    written is read back, and at most a mebibyte is read for one frame. *)
Theorem frame_exact :
  (∀ i i' f, read_frame i = (i', Ok f) ↔
    frame_wf f ∧ rd_bytes i = frame_bytes f ++ rd_bytes i' ∧ rd_error i' = rd_error i)
  ∧ (∀ f (w : list u8), frame_wf f → write_frame f w = (w ++ frame_bytes f, Ok ()))
  ∧ (∀ f (w w' : list u8) r, write_frame f w = (w', r) → r ≠ Ok () →
      w' = w ∧ MAX_FRAME_LENGTH < HEADER_LENGTH + N.of_nat (length (fr_payload f)))
  ∧ (∀ f, frame_wf f → N.of_nat (length (frame_bytes f)) <= MAX_FRAME_LENGTH).
Proof.
  split_and!.
  - apply read_frame_Ok.
  - intros f w [_ _ Hp]. rewrite write_frame_spec. unfold MAX_FRAME_LENGTH, HEADER_LENGTH, DIGEST_LENGTH in *.
    by replace (_ <=? _) with true by lia.
  - intros f w w' r E Hr. rewrite write_frame_spec in E. case_match eqn:Hl; simplify_eq.
    split; [done|]. by apply N.leb_gt in Hl.
  - intros f [Hn Ha Hp]. pose proof (sha256_length (fr_payload f)). unfold frame_bytes.
    rewrite !length_app, !length_be_bytes, Hn, Ha. unfold MAX_FRAME_LENGTH, HEADER_LENGTH, DIGEST_LENGTH in *. lia.
Qed.
End Frames.

Module ProtocolExamples.
Definition hash (l : list u8) : list u8 := be_bytes 32 (N.of_nat (length l)).
Definition cancel : Frame :=
  {| fr_kind := Cancel; fr_nonce := replicate 16 "n"%char; fr_attempt_id := replicate 16 "a"%char;
     fr_payload := bytes "now" |}.
Lemma checksum_length x : N.of_nat (length (hash x)) = 32.
Proof. unfold hash. by rewrite length_be_bytes. Qed.

(** C?: a frame written and read back, with the start of the next one behind it. *)
Lemma frame_exact_witness :
  read_frame hash {| rd_bytes := frame_bytes hash cancel ++ [NUL]; rd_error := None |} =
    ({| rd_bytes := [NUL]; rd_error := None |}, Ok cancel)
  ∧ write_frame hash cancel [] = (frame_bytes hash cancel, Ok ()).
Proof.
  split.
  - by apply (proj1 (frame_exact hash checksum_length)).
  - by apply (proj1 (proj2 (frame_exact hash checksum_length))).
Defined.
End ProtocolExamples.
