(* ===== verification/LaunchRequest.v ===== *)
(** * Launch requests

    request.rs of the sealed agent: the typed, bounded payload a frontend sends
    to the provider, and the request the provider's control process passes to
    its launch broker, bound to the caller and to the attempt.  A byte array
    of fixed size is a list whose length is part of [wf]; [usize] has 64 bits.
    SHA-256 is the parameter [sha256_hash]; the JSON of a contract goes through
    the serde classes. *)

From S2P Require Import Prelude Decimal Bounded Codec RecordLimits WorkloadContract WorkloadCodec JsonDocuments WorkloadEvidence.
From Stdlib Require Import Ascii.

Definition MAX_NATIVE_VALUE_LENGTH : N := 64 * 1024.
Definition MAX_ARGUMENTS : N := 4096.
Definition MAX_ENVIRONMENT_ENTRIES : N := 8192.
Definition LAUNCH_REQUEST_VERSION : N := 3.
Definition LAUNCH_BROKER_REQUEST_VERSION : N := 3.
Definition MAX_SUPPLEMENTARY_GROUPS : N := 256.

Inductive DeadlineScope : Type := DeadlineScope_Attempt | DeadlineScope_Supervision.
Inductive Lifetime : Type := Lifetime_Command | Lifetime_Workload.
Inductive SwapLimit : Type := SwapLimit_Bytes (bytes : N) | SwapLimit_Unlimited | SwapLimit_Host.

Record LaunchPolicyV2 : Type := {
  lpo_memory_limit_bytes : option N; lpo_swap_limit : SwapLimit;
  lpo_absolute_deadline_millis : option N; lpo_deadline_scope : DeadlineScope; lpo_lifetime : Lifetime;
  lpo_poll_interval_millis : N; lpo_signal_grace_millis : N; lpo_command_exit_grace_millis : N;
  lpo_limit_grace_millis : N
}.

Inductive DescriptorPurpose : Type :=
| CurrentDirectory | Stdin | Stdout | Stderr | FrontendLiveness | CallerMountNamespace | CallerRoot
| VerifiedExecutable.
#[global] Instance DescriptorPurpose_eq_dec : EqDecision DescriptorPurpose.
Proof. solve_decision. Defined.

Record LaunchRequestV2 : Type := {
  lq_restart_attempt : N; lq_workload_contract : option WorkloadContractV1; lq_program : list u8;
  lq_arguments : list (list u8); lq_environment : list (list u8 * list u8); lq_policy : LaunchPolicyV2;
  lq_descriptors : list DescriptorPurpose
}.

(** [NamespaceIdentity] and [FileIdentity] *)
Record NamespaceIdentity : Type := { nid_device : N; nid_inode : N }.
Definition FileIdentity : Type := NamespaceIdentity.

Record CallerExecutionEnvelopeV2 : Type := {
  cx_pid : Z; cx_process_start_time : N; cx_uid : N; cx_gid : N; cx_supplementary_groups : list N;
  cx_no_new_privs : bool; cx_capability_bounding_set : N;
  cx_mount_namespace_identity : NamespaceIdentity; cx_pid_namespace_identity : NamespaceIdentity;
  cx_user_namespace_identity : NamespaceIdentity; cx_network_namespace_identity : NamespaceIdentity;
  cx_ipc_namespace_identity : NamespaceIdentity; cx_uts_namespace_identity : NamespaceIdentity;
  cx_time_namespace_identity : NamespaceIdentity; cx_current_directory_identity : FileIdentity;
  cx_root_identity : FileIdentity
}.

Record RecordIdentityV2 : Type := { ri_attempt_id : list u8; ri_caller_envelope_digest : list u8 }.

Record LaunchBrokerRequestV2 : Type := {
  bq_attempt_id : list u8; bq_request_digest : list u8; bq_control_process_id : Z;
  bq_control_process_start_time : N; bq_launch : LaunchRequestV2; bq_caller : CallerExecutionEnvelopeV2;
  bq_descriptor_manifest : list DescriptorPurpose; bq_record_identity : RecordIdentityV2;
  bq_request_authentication_binding : list u8
}.

Inductive RequestCodecError : Type :=
| Truncated | UnsupportedVersion (version : N) | InvalidValue | ValueTooLarge | TooManyArguments
| TooManyEnvironmentEntries | TrailingBytes.

(** ** Writing *)
Definition len {A} (l : list A) : N := N.of_nat (length l).

Definition put_count (encoded : list u8) (count : N) : result RequestCodecError (list u8) :=
  count ← ok_or ValueTooLarge (try_from 32 count);
  Ok (encoded ++ be_bytes 4 count).
Definition put_bytes (encoded value : list u8) : result RequestCodecError (list u8) :=
  guard_err (MAX_NATIVE_VALUE_LENGTH <? len value) ValueTooLarge ;;
  encoded ← put_count encoded (len value);
  Ok (encoded ++ value).
Definition put_optional_u64 (encoded : list u8) (value : option N) : list u8 :=
  encoded ++ bool_byte (is_some value) :: match value with Some value => be_bytes 8 value | None => [] end.

(** [for value in values { put(encoded, value)?; }] *)
Fixpoint put_all {A} (put : list u8 → A → result RequestCodecError (list u8)) (encoded : list u8) (values : list A)
    : result RequestCodecError (list u8) :=
  match values with
  | [] => Ok encoded
  | value :: values => encoded ← put encoded value; put_all put encoded values
  end.
Definition put_pair (encoded : list u8) (entry : list u8 * list u8) : result RequestCodecError (list u8) :=
  encoded ← put_bytes encoded entry.1; put_bytes encoded entry.2.

(** [purpose as u8] and the other discriminants. *)
Definition purpose_byte (p : DescriptorPurpose) : N :=
  match p with
  | CurrentDirectory => 1 | Stdin => 2 | Stdout => 3 | Stderr => 4 | FrontendLiveness => 5
  | CallerMountNamespace => 6 | CallerRoot => 7 | VerifiedExecutable => 8
  end.
Definition scope_byte (s : DeadlineScope) : N :=
  match s with DeadlineScope_Attempt => 1 | DeadlineScope_Supervision => 2 end.
Definition lifetime_byte (l : Lifetime) : N := match l with Lifetime_Command => 1 | Lifetime_Workload => 2 end.
Definition put_swap_limit (s : SwapLimit) : list u8 :=
  match s with
  | SwapLimit_Bytes bytes => byte 1 :: be_bytes 8 bytes
  | SwapLimit_Unlimited => [byte 2]
  | SwapLimit_Host => [byte 3]
  end.

(** ** Validation *)
Definition public_purposes : list DescriptorPurpose := [CurrentDirectory; Stdin; Stdout; Stderr; FrontendLiveness].
Definition broker_purposes : list DescriptorPurpose := public_purposes ++ [CallerMountNamespace; CallerRoot].

Definition contains (code : N) (value : list u8) : bool := existsb (λ b, N_of_ascii b =? code) value.

Definition validate_request (request : LaunchRequestV2) : result RequestCodecError () :=
  guard_err ((len (lq_program request) =? 0) || contains 0 (lq_program request)
             || existsb (contains 0) (lq_arguments request)
             || existsb (λ '(name, value), (len name =? 0) || contains 0 name || contains 61 name || contains 0 value)
                  (lq_environment request))
    InvalidValue ;;
  guard_err (MAX_ARGUMENTS <? len (lq_arguments request)) TooManyArguments ;;
  guard_err (MAX_ENVIRONMENT_ENTRIES <? len (lq_environment request)) TooManyEnvironmentEntries ;;
  guard_err (lq_descriptors request ≠? public_purposes) InvalidValue.

(** ** Reading *)
Definition cursorM (A : Type) : Type := stM (list u8) RequestCodecError A.

Definition cursor_take (length' : N) : cursorM (list u8) := λ remaining,
  if len remaining <? length' then (remaining, Err Truncated)
  else (drop (N.to_nat length') remaining, Ok (take (N.to_nat length') remaining)).
Definition cursor_u8 : cursorM N := value ← cursor_take 1; mret (from_be_bytes value).
Definition cursor_u16 : cursorM N := value ← cursor_take 2; mret (from_be_bytes value).
Definition cursor_u32 : cursorM N := value ← cursor_take 4; mret (from_be_bytes value).
Definition cursor_i32 : cursorM Z := value ← cursor_take 4; mret (i32_from_be_bytes value).
Definition cursor_count : cursorM N := value ← cursor_take 4; mret (from_be_bytes value).
Definition cursor_u64 : cursorM N := value ← cursor_take 8; mret (from_be_bytes value).
Definition cursor_bytes : cursorM (list u8) :=
  length' ← cursor_count;
  st_lift (guard_err (MAX_NATIVE_VALUE_LENGTH <? length') ValueTooLarge) ≫= λ _,
  cursor_take length'.
Definition cursor_optional_u64 : cursorM (option N) :=
  present ← cursor_u8;
  match present with
  | 0 => mret None
  | 1 => value ← cursor_u64; mret (Some value)
  | _ => st_lift (Err InvalidValue)
  end.
Definition cursor_is_empty : cursorM bool := λ remaining, (remaining, Ok (len remaining =? 0)).

Definition swap_limit : cursorM SwapLimit :=
  tag ← cursor_u8;
  match tag with
  | 1 => bytes ← cursor_u64; mret (SwapLimit_Bytes bytes)
  | 2 => mret SwapLimit_Unlimited
  | 3 => mret SwapLimit_Host
  | _ => st_lift (Err InvalidValue)
  end.
Definition deadline_scope (tag : N) : result RequestCodecError DeadlineScope :=
  match tag with 1 => Ok DeadlineScope_Attempt | 2 => Ok DeadlineScope_Supervision | _ => Err InvalidValue end.
Definition lifetime (tag : N) : result RequestCodecError Lifetime :=
  match tag with 1 => Ok Lifetime_Command | 2 => Ok Lifetime_Workload | _ => Err InvalidValue end.
Definition public_purpose (tag : N) : result RequestCodecError DescriptorPurpose :=
  match tag with
  | 1 => Ok CurrentDirectory | 2 => Ok Stdin | 3 => Ok Stdout | 4 => Ok Stderr | 5 => Ok FrontendLiveness
  | _ => Err InvalidValue
  end.
Definition broker_purpose (tag : N) : result RequestCodecError DescriptorPurpose :=
  match tag with
  | 1 => Ok CurrentDirectory | 2 => Ok Stdin | 3 => Ok Stdout | 4 => Ok Stderr | 5 => Ok FrontendLiveness
  | 6 => Ok CallerMountNamespace | 7 => Ok CallerRoot
  | _ => Err InvalidValue
  end.

(** A list whose length is announced and bounded. *)
Definition counted {A} (maximum : N) (error : RequestCodecError) (item : cursorM A) : cursorM (list A) :=
  count ← cursor_count;
  st_lift (guard_err (maximum <? count) error) ≫= λ _,
  st_repeat (N.to_nat count) item.

Section Codec.
Context `{SerdeJson} `{Serialize WorkloadContractV1} `{Deserialize WorkloadContractV1}.

Definition put_contract (encoded : list u8) (contract : option WorkloadContractV1)
    : result RequestCodecError (list u8) :=
  match contract with
  | None => Ok (encoded ++ [byte 0])
  | Some contract =>
      map_err (λ _, InvalidValue) (validate contract) ≫= λ _,
      text ← map_err (λ _, InvalidValue) (to_vec contract);
      put_bytes (encoded ++ [byte 1]) text
  end.

Definition encode_launch_request (request : LaunchRequestV2) : result RequestCodecError (list u8) :=
  validate_request request ≫= λ _,
  let policy := lq_policy request in
  let encoded := be_bytes 2 LAUNCH_REQUEST_VERSION ++ be_bytes 8 (lq_restart_attempt request) in
  encoded ← put_bytes encoded (lq_program request);
  encoded ← put_count encoded (len (lq_arguments request));
  encoded ← put_all put_bytes encoded (lq_arguments request);
  encoded ← put_count encoded (len (lq_environment request));
  encoded ← put_all put_pair encoded (lq_environment request);
  let encoded := put_optional_u64 encoded (lpo_memory_limit_bytes policy) in
  let encoded := encoded ++ put_swap_limit (lpo_swap_limit policy) in
  let encoded := put_optional_u64 encoded (lpo_absolute_deadline_millis policy) in
  let encoded := encoded ++ [byte (scope_byte (lpo_deadline_scope policy)); byte (lifetime_byte (lpo_lifetime policy))]
                 ++ be_bytes 8 (lpo_poll_interval_millis policy) ++ be_bytes 8 (lpo_signal_grace_millis policy)
                 ++ be_bytes 8 (lpo_command_exit_grace_millis policy) ++ be_bytes 8 (lpo_limit_grace_millis policy) in
  encoded ← put_count encoded (len (lq_descriptors request));
  let encoded := encoded ++ (byte ∘ purpose_byte <$> lq_descriptors request) in
  put_contract encoded (lq_workload_contract request).

Definition cursor_contract : cursorM (option WorkloadContractV1) :=
  tag ← cursor_u8;
  match tag with
  | 0 => mret None
  | 1 => text ← cursor_bytes;
         st_lift (Some <$> map_err (λ _, InvalidValue) (WorkloadContractV1_parse text))
  | _ => st_lift (Err InvalidValue)
  end.

Definition read_launch_request : cursorM LaunchRequestV2 :=
  version ← cursor_u16;
  st_lift (guard_err (negb (version =? LAUNCH_REQUEST_VERSION)) (UnsupportedVersion version)) ≫= λ _,
  restart_attempt ← cursor_u64;
  program ← cursor_bytes;
  arguments ← counted MAX_ARGUMENTS TooManyArguments cursor_bytes;
  environment ← counted MAX_ENVIRONMENT_ENTRIES TooManyEnvironmentEntries
                  (name ← cursor_bytes; value ← cursor_bytes; mret (name, value));
  memory_limit_bytes ← cursor_optional_u64;
  swap_limit ← swap_limit;
  absolute_deadline_millis ← cursor_optional_u64;
  deadline_scope ← (tag ← cursor_u8; st_lift (deadline_scope tag));
  lifetime ← (tag ← cursor_u8; st_lift (lifetime tag));
  poll_interval_millis ← cursor_u64;
  signal_grace_millis ← cursor_u64;
  command_exit_grace_millis ← cursor_u64;
  limit_grace_millis ← cursor_u64;
  descriptors ← counted 5 InvalidValue (tag ← cursor_u8; st_lift (public_purpose tag));
  workload_contract ← cursor_contract;
  empty ← cursor_is_empty;
  st_lift (guard_err (negb empty) TrailingBytes) ≫= λ _,
  let request :=
    {| lq_restart_attempt := restart_attempt; lq_workload_contract := workload_contract; lq_program := program;
       lq_arguments := arguments; lq_environment := environment;
       lq_policy :=
         {| lpo_memory_limit_bytes := memory_limit_bytes; lpo_swap_limit := swap_limit;
            lpo_absolute_deadline_millis := absolute_deadline_millis; lpo_deadline_scope := deadline_scope;
            lpo_lifetime := lifetime; lpo_poll_interval_millis := poll_interval_millis;
            lpo_signal_grace_millis := signal_grace_millis;
            lpo_command_exit_grace_millis := command_exit_grace_millis;
            lpo_limit_grace_millis := limit_grace_millis |};
       lq_descriptors := descriptors |} in
  st_lift (validate_request request) ≫= λ _,
  mret request.
Definition decode_launch_request (payload : list u8) : result RequestCodecError LaunchRequestV2 :=
  (read_launch_request payload).2.
End Codec.

(** ** The caller's envelope *)
Definition put_identity (identity : NamespaceIdentity) : list u8 :=
  be_bytes 8 (nid_device identity) ++ be_bytes 8 (nid_inode identity).

Definition encode_caller_envelope (encoded : list u8) (caller : CallerExecutionEnvelopeV2)
    : result RequestCodecError (list u8) :=
  guard_err ((cx_pid caller <=? 0)%Z || (MAX_SUPPLEMENTARY_GROUPS <? len (cx_supplementary_groups caller)))
    InvalidValue ;;
  let encoded := encoded ++ i32_be_bytes (cx_pid caller) ++ be_bytes 8 (cx_process_start_time caller)
                 ++ be_bytes 4 (cx_uid caller) ++ be_bytes 4 (cx_gid caller) in
  encoded ← put_count encoded (len (cx_supplementary_groups caller));
  Ok (encoded ++ concat (be_bytes 4 <$> cx_supplementary_groups caller)
      ++ [bool_byte (cx_no_new_privs caller)] ++ be_bytes 8 (cx_capability_bounding_set caller)
      ++ concat (put_identity <$>
           [cx_mount_namespace_identity caller; cx_pid_namespace_identity caller;
            cx_user_namespace_identity caller; cx_network_namespace_identity caller;
            cx_ipc_namespace_identity caller; cx_uts_namespace_identity caller;
            cx_time_namespace_identity caller])
      ++ concat (put_identity <$> [cx_current_directory_identity caller; cx_root_identity caller])).

Definition no_new_privs_flag (tag : N) : result RequestCodecError bool :=
  match tag with 0 => Ok false | 1 => Ok true | _ => Err InvalidValue end.
Definition namespace : cursorM NamespaceIdentity :=
  device ← cursor_u64; inode ← cursor_u64; mret {| nid_device := device; nid_inode := inode |}.

Definition decode_caller_envelope : cursorM CallerExecutionEnvelopeV2 :=
  pid ← cursor_i32;
  process_start_time ← cursor_u64;
  uid ← cursor_u32;
  gid ← cursor_u32;
  group_count ← cursor_count;
  st_lift (guard_err ((pid <=? 0)%Z || (MAX_SUPPLEMENTARY_GROUPS <? group_count)) InvalidValue) ≫= λ _,
  supplementary_groups ← st_repeat (N.to_nat group_count) cursor_u32;
  no_new_privs ← (tag ← cursor_u8; st_lift (no_new_privs_flag tag));
  capability_bounding_set ← cursor_u64;
  mount_namespace_identity ← namespace;
  pid_namespace_identity ← namespace;
  user_namespace_identity ← namespace;
  network_namespace_identity ← namespace;
  ipc_namespace_identity ← namespace;
  uts_namespace_identity ← namespace;
  time_namespace_identity ← namespace;
  current_directory_identity ← namespace;
  root_identity ← namespace;
  mret {| cx_pid := pid; cx_process_start_time := process_start_time; cx_uid := uid; cx_gid := gid;
          cx_supplementary_groups := supplementary_groups; cx_no_new_privs := no_new_privs;
          cx_capability_bounding_set := capability_bounding_set;
          cx_mount_namespace_identity := mount_namespace_identity;
          cx_pid_namespace_identity := pid_namespace_identity;
          cx_user_namespace_identity := user_namespace_identity;
          cx_network_namespace_identity := network_namespace_identity;
          cx_ipc_namespace_identity := ipc_namespace_identity;
          cx_uts_namespace_identity := uts_namespace_identity;
          cx_time_namespace_identity := time_namespace_identity;
          cx_current_directory_identity := current_directory_identity; cx_root_identity := root_identity |}.

(** ** The broker request *)
Section Broker.
Context (sha256_hash : list u8 → list u8).
Context `{SerdeJson} `{Serialize WorkloadContractV1} `{Deserialize WorkloadContractV1}.

(** How a broker function ends without a value: an error, or the panic of an
    [expect]. *)
Inductive request_failure : Type := Rejected (error : RequestCodecError) | Panicked (message : string).
Definition rejecting {A} (r : result RequestCodecError A) : result request_failure A := map_err Rejected r.

Definition caller_digest (caller : CallerExecutionEnvelopeV2) : result request_failure (list u8) :=
  encoded ← map_err (λ _, Panicked "validated caller envelope always has a bounded encoding")
              (encode_caller_envelope [] caller);
  Ok (sha256_hash encoded).

Definition expected_authentication_binding (self : LaunchBrokerRequestV2) : result request_failure (list u8) :=
  caller ← caller_digest (bq_caller self);
  Ok (sha256_hash
        (bytes "memcordon-launch-broker-request-v2" ++ [NUL] ++ bq_attempt_id self ++ bq_request_digest self
         ++ i32_be_bytes (bq_control_process_id self) ++ be_bytes 8 (bq_control_process_start_time self)
         ++ caller ++ ri_attempt_id (bq_record_identity self)
         ++ ri_caller_envelope_digest (bq_record_identity self)
         ++ (byte ∘ purpose_byte <$> bq_descriptor_manifest self))).

(** The operands of [||] after the first true one are not evaluated. *)
Definition validate_broker_request (request : LaunchBrokerRequestV2) : result request_failure () :=
  encoded_launch ← rejecting (encode_launch_request (bq_launch request));
  let launch_digest := sha256_hash encoded_launch in
  rejecting (guard_err
    ((bq_descriptor_manifest request ≠? broker_purposes)
     || (cx_pid (bq_caller request) <=? 0)%Z
     || (MAX_SUPPLEMENTARY_GROUPS <? len (cx_supplementary_groups (bq_caller request)))
     || (bq_control_process_id request <=? 0)%Z
     || (bq_control_process_start_time request =? 0)
     || (bq_request_digest request ≠? launch_digest)
     || (ri_attempt_id (bq_record_identity request) ≠? bq_attempt_id request)) InvalidValue) ;;
  digest ← caller_digest (bq_caller request);
  rejecting (guard_err (ri_caller_envelope_digest (bq_record_identity request) ≠? digest) InvalidValue) ;;
  binding ← expected_authentication_binding request;
  rejecting (guard_err (bq_request_authentication_binding request ≠? binding) InvalidValue).

Definition set_binding (binding : list u8) (request : LaunchBrokerRequestV2) : LaunchBrokerRequestV2 :=
  {| bq_attempt_id := bq_attempt_id request; bq_request_digest := bq_request_digest request;
     bq_control_process_id := bq_control_process_id request;
     bq_control_process_start_time := bq_control_process_start_time request; bq_launch := bq_launch request;
     bq_caller := bq_caller request; bq_descriptor_manifest := bq_descriptor_manifest request;
     bq_record_identity := bq_record_identity request; bq_request_authentication_binding := binding |}.

Definition authenticated (attempt_id request_digest : list u8) (control_process_id : Z)
    (control_process_start_time : N) (launch : LaunchRequestV2) (caller : CallerExecutionEnvelopeV2)
    (descriptor_manifest : list DescriptorPurpose) : result request_failure LaunchBrokerRequestV2 :=
  digest ← caller_digest caller;
  let request :=
    {| bq_attempt_id := attempt_id; bq_request_digest := request_digest;
       bq_control_process_id := control_process_id; bq_control_process_start_time := control_process_start_time;
       bq_launch := launch; bq_caller := caller; bq_descriptor_manifest := descriptor_manifest;
       bq_record_identity := {| ri_attempt_id := attempt_id; ri_caller_envelope_digest := digest |};
       bq_request_authentication_binding := replicate 32 NUL |} in
  binding ← expected_authentication_binding request;
  let request := set_binding binding request in
  validate_broker_request request ≫= λ _,
  Ok request.

Definition authenticated_private (attempt_id public_request : list u8) (control_process_id : Z)
    (control_process_start_time : N) (launch : LaunchRequestV2) (caller : CallerExecutionEnvelopeV2)
    (descriptor_manifest : list DescriptorPurpose)
    : result request_failure (LaunchBrokerRequestV2 * DiagnosticSha256) :=
  encoded ← rejecting (encode_launch_request launch);
  broker ← authenticated attempt_id (sha256_hash encoded) control_process_id control_process_start_time launch
             caller descriptor_manifest;
  Ok (broker, sha256 (sha256_hash public_request)).

Definition encode_launch_broker_request (request : LaunchBrokerRequestV2) : result request_failure (list u8) :=
  rejecting (validate_request (bq_launch request)) ≫= λ _,
  validate_broker_request request ≫= λ _,
  public ← rejecting (encode_launch_request (bq_launch request));
  let encoded := be_bytes 2 LAUNCH_BROKER_REQUEST_VERSION ++ bq_attempt_id request ++ bq_request_digest request
                 ++ i32_be_bytes (bq_control_process_id request)
                 ++ be_bytes 8 (bq_control_process_start_time request) in
  encoded ← rejecting (put_bytes encoded public);
  encoded ← rejecting (encode_caller_envelope encoded (bq_caller request));
  encoded ← rejecting (put_count encoded (len (bq_descriptor_manifest request)));
  Ok (encoded ++ (byte ∘ purpose_byte <$> bq_descriptor_manifest request)
      ++ ri_attempt_id (bq_record_identity request) ++ ri_caller_envelope_digest (bq_record_identity request)
      ++ bq_request_authentication_binding request).

(** The reading of the fields, which does not panic. *)
Definition read_launch_broker_request : cursorM LaunchBrokerRequestV2 :=
  version ← cursor_u16;
  st_lift (guard_err (negb (version =? LAUNCH_BROKER_REQUEST_VERSION)) (UnsupportedVersion version)) ≫= λ _,
  attempt_id ← cursor_take 16;
  request_digest ← cursor_take 32;
  control_process_id ← cursor_i32;
  control_process_start_time ← cursor_u64;
  launch ← (public ← cursor_bytes; st_lift (decode_launch_request public));
  caller ← decode_caller_envelope;
  descriptor_manifest ← counted 7 InvalidValue (tag ← cursor_u8; st_lift (broker_purpose tag));
  record_attempt_id ← cursor_take 16;
  caller_envelope_digest ← cursor_take 32;
  request_authentication_binding ← cursor_take 32;
  empty ← cursor_is_empty;
  st_lift (guard_err (negb empty) TrailingBytes) ≫= λ _,
  mret {| bq_attempt_id := attempt_id; bq_request_digest := request_digest;
          bq_control_process_id := control_process_id;
          bq_control_process_start_time := control_process_start_time; bq_launch := launch; bq_caller := caller;
          bq_descriptor_manifest := descriptor_manifest;
          bq_record_identity := {| ri_attempt_id := record_attempt_id;
                                   ri_caller_envelope_digest := caller_envelope_digest |};
          bq_request_authentication_binding := request_authentication_binding |}.

Definition decode_launch_broker_request (payload : list u8) : result request_failure LaunchBrokerRequestV2 :=
  request ← rejecting (read_launch_broker_request payload).2;
  validate_broker_request request ≫= λ _,
  Ok request.
End Broker.

(** ** What the readers accept *)
Lemma len_length {A} (l : list A) n : len l = n ↔ length l = N.to_nat n.
Proof. unfold len. lia. Qed.

#[global] Instance exact_take n : ExactReader (cursor_take n) (λ v, len v = n) id.
Proof.
  intros l rest v. unfold cursor_take. destruct (N.ltb_spec (len l) n) as [Hl|Hl].
  - split; [done|]. intros [Hv ->]. unfold len, id in *. rewrite length_app in Hl. lia.
  - split.
    + intros [= <- <-]. unfold id. rewrite take_drop. split; [|done]. unfold len in *. rewrite length_take. lia.
    + intros [Hv%len_length ->]. unfold id. by rewrite take_app_length', drop_app_length' by done.
Qed.

(** An integer of [k] bytes. *)
Lemma exact_integer k :
  ExactReader (value ← cursor_take (N.of_nat k); mret (from_be_bytes value)) (λ n, n < 256 ^ N.of_nat k) (be_bytes k).
Proof.
  intros l rest n. rewrite (exact_bind (cursor_take _)). split.
  - intros (v & l' & Hv%len_length & -> & [= <- <-]). rewrite Nat2N.id in Hv. subst k.
    unfold id. by rewrite be_bytes_decode; split; [apply from_be_bytes_bound|].
  - intros [Hn ->]. exists (be_bytes k n), rest. unfold len. rewrite length_be_bytes, from_be_bytes_encode by done.
    done.
Qed.
#[global] Instance exact_u8 : ExactReader cursor_u8 (λ n, n < 2 ^ 8) (be_bytes 1) := exact_integer 1.
#[global] Instance exact_u16 : ExactReader cursor_u16 (λ n, n < 2 ^ 16) (be_bytes 2) := exact_integer 2.
#[global] Instance exact_u32 : ExactReader cursor_u32 (λ n, n < 2 ^ 32) (be_bytes 4) := exact_integer 4.
#[global] Instance exact_count : ExactReader cursor_count (λ n, n < 2 ^ 32) (be_bytes 4) := exact_integer 4.
#[global] Instance exact_u64 : ExactReader cursor_u64 (λ n, n < 2 ^ 64) (be_bytes 8) := exact_integer 8.
#[global] Instance exact_i32 : ExactReader cursor_i32 is_i32 i32_be_bytes.
Proof.
  intros l rest z. unfold cursor_i32. rewrite (exact_bind (cursor_take 4)). split.
  - intros (v & l' & Hv%len_length & -> & [= <- <-]). destruct (i32_from_decode v) as [E ?]; [done|].
    unfold id. by rewrite E.
  - intros [Hz ->]. exists (i32_be_bytes z), rest. rewrite i32_from_encode by done. done.
Qed.

Definition short (value : list u8) : Prop := len value <= MAX_NATIVE_VALUE_LENGTH.
Definition value_bytes (value : list u8) : list u8 := be_bytes 4 (len value) ++ value.
#[global] Instance exact_bytes : ExactReader cursor_bytes short value_bytes.
Proof.
  intros l rest v. unfold cursor_bytes, value_bytes. rewrite (exact_bind cursor_count). split.
  - intros (n & l' & _ & -> & E). apply stM_bind_Ok in E as (s & [] & [-> Hg%guard_err_Ok]%st_lift_Ok & E).
    apply (exact_ok (d := cursor_take n)) in E as [<- ->]. unfold id. rewrite <- (assoc_L (++)).
    split; [by apply N.ltb_ge in Hg|done].
  - intros [Hv ->]. exists (len v), (v ++ rest). unfold short, MAX_NATIVE_VALUE_LENGTH in *.
    rewrite <- (assoc_L (++)). split_and!; [lia|done|].
    unfold mbind, stM_bind, st_lift. replace (_ <? len v) with false by (unfold MAX_NATIVE_VALUE_LENGTH; lia).
    cbn. by apply (exact_ok (d := cursor_take (len v))).
Qed.

Definition optional_bytes (value : option N) : list u8 := put_optional_u64 [] value.
#[global] Instance exact_optional_u64 :
  ExactReader cursor_optional_u64 (λ v, ∀ n, v = Some n → n < 2 ^ 64) optional_bytes.
Proof.
  intros l rest v. unfold cursor_optional_u64. rewrite (exact_bind cursor_u8). split.
  - intros (tag & l' & Ht & -> & E). destruct tag as [|[?|?|]]; try done.
    + by injection E as <- <-.
    + apply (exact_bind cursor_u64) in E as (n & l2 & Hn & -> & [= <- <-]).
      split; [by intros ? [= <-]|done].
  - intros [Hv ->]. destruct v as [n|]; [exists 1, (be_bytes 8 n ++ rest)|exists 0, rest]; (split_and!; [lia|done|]).
    + by rewrite (exact_run cursor_u64 _ n rest) by auto.
    + done.
Qed.

Definition swap_wf (s : SwapLimit) : Prop := match s with SwapLimit_Bytes n => n < 2 ^ 64 | _ => True end.
#[global] Instance exact_swap_limit : ExactReader swap_limit swap_wf put_swap_limit.
Proof.
  intros l rest s. unfold swap_limit. rewrite (exact_bind cursor_u8). split.
  - intros (tag & l' & Ht & -> & E). destruct tag as [|[[]|[]|]]; try done; try (by injection E as <- <-).
    apply (exact_bind cursor_u64) in E as (n & l2 & Hn & -> & [= <- <-]). done.
  - intros [Hs ->]. destruct s as [n| |];
      [exists 1, (be_bytes 8 n ++ rest)|exists 2, rest|exists 3, rest]; (split_and!; [lia|done|]); [|done|done].
    by rewrite (exact_run cursor_u64 _ n rest) by auto.
Qed.

Lemma exact_ext {E A} (d : stM (list u8) E A) P enc enc' :
  ExactReader d P enc → (∀ a, P a → enc a = enc' a) → ExactReader d P enc'.
Proof. intros Hd He l rest a. rewrite (exact_ok (d := d)). naive_solver congruence. Qed.

Lemma be_bytes_1 n : n < 256 → be_bytes 1 n = [byte n].
Proof. intros Hn. cbn. by rewrite N.mod_small. Qed.

(** A reader that looks a byte up. *)
Lemma exact_byte {B} (f : N → result RequestCodecError B) (g : B → N) (Q : B → Prop) :
  (∀ a b, f a = Ok b ↔ Q b ∧ g b = a) → (∀ b, g b < 256) →
  ExactReader (tag ← cursor_u8; st_lift (f tag)) Q (λ b, [byte (g b)]).
Proof.
  intros Hf Hg. eapply exact_ext; [apply (exact_tag cursor_u8 f g)|]; [auto|auto|].
  intros b _. apply be_bytes_1, Hg.
Qed.
#[global] Instance exact_scope :
  ExactReader (tag ← cursor_u8; st_lift (deadline_scope tag)) (λ _, True) (λ s, [byte (scope_byte s)]).
Proof.
  apply exact_byte; [|by intros []]. intros a b. unfold deadline_scope.
  split; [by repeat case_match; intros [= <-]|]. by intros [_ <-]; destruct b.
Qed.
#[global] Instance exact_lifetime :
  ExactReader (tag ← cursor_u8; st_lift (lifetime tag)) (λ _, True) (λ s, [byte (lifetime_byte s)]).
Proof.
  apply exact_byte; [|by intros []]. intros a b. unfold lifetime.
  split; [by repeat case_match; intros [= <-]|]. by intros [_ <-]; destruct b.
Qed.
#[global] Instance exact_flag :
  ExactReader (tag ← cursor_u8; st_lift (no_new_privs_flag tag)) (λ _, True) (λ b, [bool_byte b]).
Proof.
  apply (exact_byte _ (λ b : bool, if b then 1 else 0)); [|by intros []]. intros a b. unfold no_new_privs_flag.
  split; [destruct a as [|[]]; by intros [= <-]|]. by intros [_ <-]; destruct b.
Qed.
Definition purpose_bytes (p : DescriptorPurpose) : list u8 := [byte (purpose_byte p)].
#[global] Instance exact_public_purpose :
  ExactReader (tag ← cursor_u8; st_lift (public_purpose tag)) (λ p, p ∈ public_purposes) purpose_bytes.
Proof.
  apply exact_byte; [|by intros []]. intros a b. unfold public_purpose, public_purposes.
  split; [repeat case_match; intros [= <-]; (split; [set_solver|done])|].
  intros [Hb <-]. by destruct b; try done; exfalso; set_unfold; naive_solver.
Qed.
#[global] Instance exact_broker_purpose :
  ExactReader (tag ← cursor_u8; st_lift (broker_purpose tag)) (λ p, p ∈ broker_purposes) purpose_bytes.
Proof.
  apply exact_byte; [|by intros []]. intros a b. unfold broker_purpose, broker_purposes, public_purposes.
  split; [repeat case_match; intros [= <-]; (split; [set_solver|done])|].
  intros [Hb <-]. by destruct b; try done; exfalso; set_unfold; naive_solver.
Qed.

Definition counted_bytes {A} (enc : A → list u8) (l : list A) : list u8 := be_bytes 4 (len l) ++ concat (enc <$> l).
Lemma exact_counted {A} (maximum : N) error (item : cursorM A) P enc : maximum < 2 ^ 32 → ExactReader item P enc →
  ExactReader (counted maximum error item) (λ l, len l <= maximum ∧ Forall P l) (counted_bytes enc).
Proof.
  intros Hm Hi l rest x. unfold counted, counted_bytes. rewrite (exact_bind cursor_count). split.
  - intros (n & l' & _ & -> & E). apply stM_bind_Ok in E as (s & [] & [-> Hg%guard_err_Ok]%st_lift_Ok & E).
    apply (exact_ok (d := st_repeat _ item)) in E as [[Hn Hf] ->]. apply N.ltb_ge in Hg.
    assert (len x = n) as <- by (unfold len; lia). by rewrite <- (assoc_L (++)).
  - intros [[Hx Hf] ->]. exists (len x), (concat (enc <$> x) ++ rest). rewrite <- (assoc_L (++)).
    split_and!; [lia|done|]. unfold mbind, stM_bind, st_lift. replace (maximum <? len x) with false by lia. cbn.
    apply (exact_ok (d := st_repeat _ item)). split; [|done]. split; [|done]. unfold len. lia.
Qed.
#[global] Instance exact_arguments :
  ExactReader (counted MAX_ARGUMENTS TooManyArguments cursor_bytes) (λ l, len l <= MAX_ARGUMENTS ∧ Forall short l)
    (counted_bytes value_bytes).
Proof. apply exact_counted; [done|apply _]. Qed.

Definition pair_bytes (entry : list u8 * list u8) : list u8 := value_bytes entry.1 ++ value_bytes entry.2.
Definition short_pair (entry : list u8 * list u8) : Prop := short entry.1 ∧ short entry.2.
#[global] Instance exact_pair :
  ExactReader (name ← cursor_bytes; value ← cursor_bytes; mret (name, value)) short_pair pair_bytes.
Proof.
  intros l rest [n v]. rewrite (exact_bind cursor_bytes). unfold pair_bytes, short_pair. cbn [fst snd]. split.
  - intros (n' & l1 & Hn & -> & E). apply (exact_bind cursor_bytes) in E as (v' & l2 & Hv & -> & [= <- <- <-]).
    by rewrite <- (assoc_L (++)).
  - intros [[Hn Hv] ->]. exists n, (value_bytes v ++ rest). rewrite <- (assoc_L (++)). split_and!; [done|done|].
    by rewrite (exact_run cursor_bytes _ v rest).
Qed.
#[global] Instance exact_environment :
  ExactReader (counted MAX_ENVIRONMENT_ENTRIES TooManyEnvironmentEntries
                 (name ← cursor_bytes; value ← cursor_bytes; mret (name, value)))
    (λ l, len l <= MAX_ENVIRONMENT_ENTRIES ∧ Forall short_pair l) (counted_bytes pair_bytes).
Proof. apply exact_counted; [done|apply _]. Qed.
#[global] Instance exact_descriptors :
  ExactReader (counted 5 InvalidValue (tag ← cursor_u8; st_lift (public_purpose tag)))
    (λ l, len l <= 5 ∧ Forall (.∈ public_purposes) l) (counted_bytes purpose_bytes).
Proof. apply exact_counted; [done|apply _]. Qed.
#[global] Instance exact_manifest :
  ExactReader (counted 7 InvalidValue (tag ← cursor_u8; st_lift (broker_purpose tag)))
    (λ l, len l <= 7 ∧ Forall (.∈ broker_purposes) l) (counted_bytes purpose_bytes).
Proof. apply exact_counted; [done|apply _]. Qed.

(** ** The caller's envelope is read exactly *)
Definition identity_wf (i : NamespaceIdentity) : Prop := nid_device i < 2 ^ 64 ∧ nid_inode i < 2 ^ 64.
#[global] Instance exact_namespace : ExactReader namespace identity_wf put_identity.
Proof.
  intros l rest [d i]. unfold namespace, identity_wf, put_identity. cbn [nid_device nid_inode].
  rewrite (exact_bind cursor_u64). split.
  - intros (d' & l1 & Hd & -> & E). apply (exact_bind cursor_u64) in E as (i' & l2 & Hi & -> & [= <- <- <-]).
    by rewrite <- (assoc_L (++)).
  - intros [[Hd Hi] ->]. exists d, (be_bytes 8 i ++ rest). rewrite <- (assoc_L (++)). split_and!; [done|done|].
    by rewrite (exact_run cursor_u64 _ i rest).
Qed.

(** Every integer is within its type. *)
Record caller_typed (c : CallerExecutionEnvelopeV2) : Prop := {
  ct_pid : is_i32 (cx_pid c); ct_start : cx_process_start_time c < 2 ^ 64;
  ct_uid : cx_uid c < 2 ^ 32; ct_gid : cx_gid c < 2 ^ 32;
  ct_groups : Forall (λ g, g < 2 ^ 32) (cx_supplementary_groups c);
  ct_capabilities : cx_capability_bounding_set c < 2 ^ 64;
  ct_mount : identity_wf (cx_mount_namespace_identity c); ct_pidns : identity_wf (cx_pid_namespace_identity c);
  ct_user : identity_wf (cx_user_namespace_identity c); ct_network : identity_wf (cx_network_namespace_identity c);
  ct_ipc : identity_wf (cx_ipc_namespace_identity c); ct_uts : identity_wf (cx_uts_namespace_identity c);
  ct_time : identity_wf (cx_time_namespace_identity c);
  ct_cwd : identity_wf (cx_current_directory_identity c); ct_root : identity_wf (cx_root_identity c)
}.
(** The envelopes that have an encoding. *)
Definition caller_bounded (c : CallerExecutionEnvelopeV2) : bool :=
  negb ((cx_pid c <=? 0)%Z || (MAX_SUPPLEMENTARY_GROUPS <? len (cx_supplementary_groups c))).

Definition envelope_bytes (c : CallerExecutionEnvelopeV2) : list u8 :=
  i32_be_bytes (cx_pid c) ++ be_bytes 8 (cx_process_start_time c) ++ be_bytes 4 (cx_uid c) ++ be_bytes 4 (cx_gid c)
  ++ be_bytes 4 (len (cx_supplementary_groups c)) ++ concat (be_bytes 4 <$> cx_supplementary_groups c)
  ++ [bool_byte (cx_no_new_privs c)] ++ be_bytes 8 (cx_capability_bounding_set c)
  ++ put_identity (cx_mount_namespace_identity c) ++ put_identity (cx_pid_namespace_identity c)
  ++ put_identity (cx_user_namespace_identity c) ++ put_identity (cx_network_namespace_identity c)
  ++ put_identity (cx_ipc_namespace_identity c) ++ put_identity (cx_uts_namespace_identity c)
  ++ put_identity (cx_time_namespace_identity c) ++ put_identity (cx_current_directory_identity c)
  ++ put_identity (cx_root_identity c).

Lemma put_count_Ok encoded count out :
  put_count encoded count = Ok out ↔ count < 2 ^ 32 ∧ out = encoded ++ be_bytes 4 count.
Proof. unfold put_count, try_from, fits. destruct (N.ltb_spec count (2 ^ 32)); cbn; naive_solver lia. Qed.

Lemma encode_caller_spec encoded c :
  encode_caller_envelope encoded c = if caller_bounded c then Ok (encoded ++ envelope_bytes c) else Err InvalidValue.
Proof.
  unfold encode_caller_envelope, caller_bounded, envelope_bytes.
  destruct (_ || _) eqn:Hb; cbn [negb guard_err mbind result_bind]; [done|].
  apply orb_false_iff in Hb as [_ Hg%N.ltb_ge]. unfold MAX_SUPPLEMENTARY_GROUPS in Hg.
  destruct (put_count _ _) as [out|e] eqn:E; cbn [mbind result_bind].
  - apply put_count_Ok in E as [_ ->]. f_equal. cbn [fmap list_fmap concat].
    by rewrite !app_nil_r, <- !(assoc_L (++)).
  - exfalso. revert E. unfold put_count, try_from, fits. by replace (_ <? 2 ^ 32) with true by lia.
Qed.

(** Reads the next field, forwards. *)
Ltac read_forward E :=
  apply (exact_bind _) in E as (? & ? & ? & -> & E).
Ltac read_guard E H :=
  apply stM_bind_Ok in E as (? & [] & [-> H%guard_err_Ok]%st_lift_Ok & E).

(** Runs the reader on a written field, and past a check that holds. *)
Ltac read_back a := etrans; [eapply (exact_run _ _ a); [cbn beta; solve [done | auto]|reflexivity]|].
Lemma guard_run {S E B} c (e : E) (k : () → stM S E B) (s : S) :
  c = false → (st_lift (guard_err c e) ≫= k) s = k () s.
Proof. by intros ->. Qed.
Ltac read_pass H := etrans; [apply guard_run; exact H|].

#[global] Instance exact_caller :
  ExactReader decode_caller_envelope (λ c, caller_typed c ∧ caller_bounded c = true) envelope_bytes.
Proof.
  intros l rest c. split.
  - intros E. unfold decode_caller_envelope in E. do 5 read_forward E. read_guard E Hg.
    do 12 read_forward E. injection E as <- <-. destruct_and!. unfold envelope_bytes, caller_bounded, len.
    cbn [cx_pid cx_process_start_time cx_uid cx_gid cx_supplementary_groups cx_no_new_privs
         cx_capability_bounding_set cx_mount_namespace_identity cx_pid_namespace_identity
         cx_user_namespace_identity cx_network_namespace_identity cx_ipc_namespace_identity
         cx_uts_namespace_identity cx_time_namespace_identity cx_current_directory_identity cx_root_identity].
    match goal with H : length _ = N.to_nat _ |- _ => rewrite H, N2Nat.id in * end.
    split; [|by rewrite <- !(assoc_L (++))]. split; [by constructor|by rewrite Hg].
  - intros [[[] Hb] ->]. unfold decode_caller_envelope, envelope_bytes.
    unfold caller_bounded in Hb. apply negb_true_iff in Hb. pose proof Hb as [_ Hn%N.ltb_ge]%orb_false_iff.
    assert (len (cx_supplementary_groups c) < 2 ^ 32) by (unfold MAX_SUPPLEMENTARY_GROUPS in Hn; lia).
    assert (length (cx_supplementary_groups c) = N.to_nat (len (cx_supplementary_groups c))) by by apply len_length.
    rewrite <- !(assoc_L (++)).
    read_back (cx_pid c). read_back (cx_process_start_time c). read_back (cx_uid c). read_back (cx_gid c).
    read_back (len (cx_supplementary_groups c)). read_pass Hb.
    read_back (cx_supplementary_groups c). read_back (cx_no_new_privs c). read_back (cx_capability_bounding_set c).
    read_back (cx_mount_namespace_identity c). read_back (cx_pid_namespace_identity c).
    read_back (cx_user_namespace_identity c). read_back (cx_network_namespace_identity c).
    read_back (cx_ipc_namespace_identity c). read_back (cx_uts_namespace_identity c).
    read_back (cx_time_namespace_identity c). read_back (cx_current_directory_identity c).
    read_back (cx_root_identity c). by destruct c.
Qed.

(** ** The launch request is read exactly *)
Record launch_typed (r : LaunchRequestV2) : Prop := {
  lt_attempt : lq_restart_attempt r < 2 ^ 64;
  lt_memory : ∀ n, lpo_memory_limit_bytes (lq_policy r) = Some n → n < 2 ^ 64;
  lt_swap : swap_wf (lpo_swap_limit (lq_policy r));
  lt_deadline : ∀ n, lpo_absolute_deadline_millis (lq_policy r) = Some n → n < 2 ^ 64;
  lt_poll : lpo_poll_interval_millis (lq_policy r) < 2 ^ 64;
  lt_signal : lpo_signal_grace_millis (lq_policy r) < 2 ^ 64;
  lt_exit : lpo_command_exit_grace_millis (lq_policy r) < 2 ^ 64;
  lt_limit : lpo_limit_grace_millis (lq_policy r) < 2 ^ 64
}.
(** Every value fits its length field. *)
Definition launch_short (r : LaunchRequestV2) : Prop :=
  short (lq_program r) ∧ Forall short (lq_arguments r) ∧ Forall short_pair (lq_environment r).

Definition launch_head (r : LaunchRequestV2) : list u8 :=
  let p := lq_policy r in
  be_bytes 2 LAUNCH_REQUEST_VERSION ++ be_bytes 8 (lq_restart_attempt r) ++ value_bytes (lq_program r)
  ++ counted_bytes value_bytes (lq_arguments r) ++ counted_bytes pair_bytes (lq_environment r)
  ++ optional_bytes (lpo_memory_limit_bytes p) ++ put_swap_limit (lpo_swap_limit p)
  ++ optional_bytes (lpo_absolute_deadline_millis p) ++ [byte (scope_byte (lpo_deadline_scope p))]
  ++ [byte (lifetime_byte (lpo_lifetime p))] ++ be_bytes 8 (lpo_poll_interval_millis p)
  ++ be_bytes 8 (lpo_signal_grace_millis p) ++ be_bytes 8 (lpo_command_exit_grace_millis p)
  ++ be_bytes 8 (lpo_limit_grace_millis p) ++ counted_bytes purpose_bytes (lq_descriptors r).

Record request_checks (r : LaunchRequestV2) : Prop := {
  rk_arguments : len (lq_arguments r) <= MAX_ARGUMENTS;
  rk_environment : len (lq_environment r) <= MAX_ENVIRONMENT_ENTRIES;
  rk_descriptors : lq_descriptors r = public_purposes
}.
Lemma validate_checks r : validate_request r = Ok () → request_checks r.
Proof.
  unfold validate_request. intros [_ E]%guard_bind_Ok. apply guard_bind_Ok in E as [Ha E].
  apply guard_bind_Ok in E as [He E]. apply guard_err_Ok in E. bool_hyps. done.
Qed.

Lemma put_bytes_Ok encoded value out :
  put_bytes encoded value = Ok out ↔ short value ∧ out = encoded ++ value_bytes value.
Proof.
  unfold put_bytes, short, value_bytes. rewrite guard_bind_Ok, N.ltb_ge, bind_Ok. setoid_rewrite put_count_Ok. split.
  - intros [Hs (? & [_ ->] & [= <-])]. by rewrite <- (assoc_L (++)).
  - intros [Hs ->]. split; [done|]. eexists. split; [split; [|done]|by rewrite <- (assoc_L (++))].
    unfold MAX_NATIVE_VALUE_LENGTH in Hs. lia.
Qed.
Lemma put_all_Ok {A} put (P : A → Prop) enc :
  (∀ encoded v out, put encoded v = Ok out ↔ P v ∧ out = encoded ++ enc v) →
  ∀ l encoded out, put_all put encoded l = Ok out ↔ Forall P l ∧ out = encoded ++ concat (enc <$> l).
Proof.
  intros Hp l. induction l as [|v l IH]; intros encoded out; cbn [put_all].
  - rewrite app_nil_r. split; [intros [= <-]; split; [by apply Forall_nil|done]|by intros [_ ->]].
  - rewrite bind_Ok, Forall_cons, fmap_cons. setoid_rewrite Hp. setoid_rewrite IH. cbn [concat]. split.
    + intros (? & [Hv ->] & Hl & ->). by rewrite <- (assoc_L (++)).
    + intros [[Hv Hl] ->]. eexists. split; [done|]. by rewrite <- (assoc_L (++)).
Qed.
Lemma put_pair_Ok encoded entry out :
  put_pair encoded entry = Ok out ↔ short_pair entry ∧ out = encoded ++ pair_bytes entry.
Proof.
  unfold put_pair, short_pair, pair_bytes. rewrite bind_Ok. setoid_rewrite put_bytes_Ok. split.
  - intros (? & [? ->] & ? & ->). by rewrite <- (assoc_L (++)).
  - intros [[? ?] ->]. eexists. split; [done|]. by rewrite <- (assoc_L (++)).
Qed.
Lemma purposes_bytes l : concat (purpose_bytes <$> l) = byte ∘ purpose_byte <$> l.
Proof. induction l as [|p l IH]; [done|]. rewrite !fmap_cons. cbn [concat]. by rewrite IH. Qed.
Lemma optional_app encoded v : put_optional_u64 encoded v = encoded ++ optional_bytes v.
Proof. done. Qed.

Section Exact.
Context `{SerdeJson} `{Serialize WorkloadContractV1} `{Deserialize WorkloadContractV1}.

(** The last field: a contract's text is any document that is read as it. *)
Definition contract_chunk (contract : option WorkloadContractV1) (chunk : list u8) : Prop :=
  match contract with
  | None => chunk = [byte 0]
  | Some c => ∃ text, chunk = byte 1 :: value_bytes text ∧ short text ∧ WorkloadContractV1_parse text = Ok c
  end.

Lemma cursor_contract_Ok l rest c :
  cursor_contract l = (rest, Ok c) ↔ ∃ chunk, contract_chunk c chunk ∧ l = chunk ++ rest.
Proof.
  unfold cursor_contract. rewrite (exact_bind cursor_u8). split.
  - intros (tag & l' & Ht & -> & E). destruct tag as [|[?|?|]]; try done.
    + injection E as <- <-. by exists [byte 0].
    + apply (exact_bind cursor_bytes) in E as (text & l2 & Hs & -> & E).
      apply st_lift_Ok in E as [-> E]. destruct (map_err _ _) as [c'|] eqn:Ep; [|done]. injection E as <-.
      apply map_err_Ok in Ep. exists (byte 1 :: value_bytes text). split; [|done]. by exists text.
  - intros (chunk & Hc & ->). destruct c as [c|]; cbn in Hc.
    + destruct Hc as (text & -> & Hs & Ep). exists 1, (value_bytes text ++ rest). split_and!; [lia|done|].
      read_back text. unfold st_lift. by rewrite Ep.
    + subst. by exists 0, rest.
Qed.

Lemma decode_launch_Ok payload r :
  decode_launch_request payload = Ok r ↔
  launch_typed r ∧ launch_short r ∧ validate_request r = Ok () ∧
  ∃ chunk, contract_chunk (lq_workload_contract r) chunk ∧ payload = launch_head r ++ chunk.
Proof.
  unfold decode_launch_request. split.
  - destruct (read_launch_request payload) as [rest x] eqn:E. cbn [snd]. intros ->.
    unfold read_launch_request in E. read_forward E. read_guard E Hv. apply negb_false_iff, N.eqb_eq in Hv. subst.
    do 14 read_forward E. apply stM_bind_Ok in E as (? & c & (chunk & Hc & ->)%cursor_contract_Ok & E).
    unfold cursor_is_empty in E at 1. apply stM_bind_Ok in E as (? & ? & [= <- <-] & E).
    read_guard E Hn. apply negb_false_iff, N.eqb_eq, len_length, nil_length_inv in Hn. subst.
    apply stM_bind_Ok in E as (? & [] & [-> Hok]%st_lift_Ok & E). injection E as <- <-. destruct_and!.
    split_and!; [by constructor|done|done|]. exists chunk. split; [done|]. unfold launch_head.
    cbn [lq_policy lq_restart_attempt lq_program lq_arguments lq_environment lq_descriptors lpo_memory_limit_bytes
         lpo_swap_limit lpo_absolute_deadline_millis lpo_deadline_scope lpo_lifetime lpo_poll_interval_millis
         lpo_signal_grace_millis lpo_command_exit_grace_millis lpo_limit_grace_millis].
    by rewrite <- !(assoc_L (++)), app_nil_r.
  - intros (Ht & (Hp & Ha & He) & Hok & chunk & Hc & ->). destruct Ht.
    destruct (validate_checks _ Hok) as [Ka Ke Kd]. unfold read_launch_request, launch_head.
    rewrite <- !(assoc_L (++)).
    assert (len (lq_descriptors r) <= 5 ∧ Forall (.∈ public_purposes) (lq_descriptors r)).
    { rewrite Kd. split; [done|]. by apply Forall_forall. }
    match goal with |- (?m ?l).2 = _ => assert (m l = ([], Ok r)) as ->; [|done] end.
    read_back LAUNCH_REQUEST_VERSION. read_pass (eq_refl false).
    read_back (lq_restart_attempt r). read_back (lq_program r). read_back (lq_arguments r).
    read_back (lq_environment r). read_back (lpo_memory_limit_bytes (lq_policy r)).
    read_back (lpo_swap_limit (lq_policy r)). read_back (lpo_absolute_deadline_millis (lq_policy r)).
    read_back (lpo_deadline_scope (lq_policy r)). read_back (lpo_lifetime (lq_policy r)).
    read_back (lpo_poll_interval_millis (lq_policy r)). read_back (lpo_signal_grace_millis (lq_policy r)).
    read_back (lpo_command_exit_grace_millis (lq_policy r)). read_back (lpo_limit_grace_millis (lq_policy r)).
    read_back (lq_descriptors r).
    unfold mbind at 1, stM_bind.
    rewrite (proj2 (cursor_contract_Ok chunk [] (lq_workload_contract r))) by (exists chunk; by rewrite app_nil_r).
    cbn. destruct r as [? ? ? ? ? [] ?]. cbn in *. unfold st_lift. rewrite Hok. done.
Qed.

Definition contract_written (contract : option WorkloadContractV1) (chunk : list u8) : Prop :=
  match contract with
  | None => chunk = [byte 0]
  | Some c => ∃ text, chunk = byte 1 :: value_bytes text ∧ short text ∧ validate c = Ok () ∧ to_vec c = Ok text
  end.

Lemma put_contract_Ok encoded c out :
  put_contract encoded c = Ok out ↔ ∃ chunk, contract_written c chunk ∧ out = encoded ++ chunk.
Proof.
  unfold put_contract. destruct c as [c|]; cbn [contract_written].
  - split.
    + intros ([] & Hv%map_err_Ok & (text & Ht%map_err_Ok & (Hs & ->)%put_bytes_Ok)%bind_Ok)%bind_Ok.
      exists (byte 1 :: value_bytes text). rewrite <- (assoc_L (++)). split; [|done]. by exists text.
    + intros (chunk & (text & -> & Hs & Hv & Ht) & ->). rewrite Hv, Ht. apply put_bytes_Ok.
      by rewrite <- (assoc_L (++)).
  - naive_solver.
Qed.

Lemma encode_launch_Ok r out :
  encode_launch_request r = Ok out ↔
  validate_request r = Ok () ∧ launch_short r ∧
  ∃ chunk, contract_written (lq_workload_contract r) chunk ∧ out = launch_head r ++ chunk.
Proof.
  unfold encode_launch_request, launch_short. split.
  - intros ([] & Hv & E)%bind_Ok.
    apply bind_Ok in E as (? & [Hp ->]%put_bytes_Ok & E). apply bind_Ok in E as (? & [_ ->]%put_count_Ok & E).
    apply bind_Ok in E as (? & [Ha ->]%(put_all_Ok _ _ _ put_bytes_Ok) & E).
    apply bind_Ok in E as (? & [_ ->]%put_count_Ok & E).
    apply bind_Ok in E as (? & [He ->]%(put_all_Ok _ _ _ put_pair_Ok) & E).
    apply bind_Ok in E as (? & [_ ->]%put_count_Ok & (chunk & Hc & ->)%put_contract_Ok).
    split_and!; [done..|]. exists chunk. split; [done|]. unfold launch_head, counted_bytes.
    by rewrite purposes_bytes, !optional_app, <- !(assoc_L (++)).
  - intros (Hv & (Hp & Ha & He) & chunk & Hc & ->). destruct (validate_checks _ Hv) as [Ka Ke Kd].
    unfold MAX_ARGUMENTS, MAX_ENVIRONMENT_ENTRIES in *. rewrite Hv. cbn [mbind result_bind].
    assert (∀ n, n <= 8192 → n < 2 ^ 32) as Hn by (intros; lia).
    apply bind_Ok. eexists. split; [by apply put_bytes_Ok|].
    apply bind_Ok. eexists. split; [apply put_count_Ok; split; [apply Hn; lia|done]|].
    apply bind_Ok. eexists. split; [by apply (put_all_Ok _ _ _ put_bytes_Ok)|].
    apply bind_Ok. eexists. split; [apply put_count_Ok; split; [by apply Hn|done]|].
    apply bind_Ok. eexists. split; [by apply (put_all_Ok _ _ _ put_pair_Ok)|].
    apply bind_Ok. eexists. split; [apply put_count_Ok; split; [by rewrite Kd|done]|].
    apply put_contract_Ok. exists chunk. split; [done|]. unfold launch_head, counted_bytes.
    by rewrite purposes_bytes, !optional_app, <- !(assoc_L (++)).
Qed.

(** What serde_json documents about its compact writer. *)
Record contract_serde : Prop := {
  cs_reads (c : WorkloadContractV1) text : to_vec c = Ok text → from_slice text = Ok c;
  cs_keys (c : WorkloadContractV1) text : to_vec c = Ok text → reject_duplicate_json_keys text = Ok ()
}.

Lemma written_read c chunk : contract_serde → contract_written c chunk → contract_chunk c chunk.
Proof.
  intros Hs. destruct c as [c|]; [|done]. intros (text & -> & Hl & Hv & Ht). exists text. split_and!; [done..|].
  unfold WorkloadContractV1_parse, read_document.
  assert (over CONTRACT_BYTES text = false) as -> by (by apply N.ltb_ge).
  cbn [guard_err mbind result_bind]. by rewrite (cs_keys Hs _ _ Ht), (cs_reads Hs _ _ Ht); cbn; rewrite Hv.
Qed.

Lemma launch_encode_decode r out : contract_serde → launch_typed r →
  encode_launch_request r = Ok out → decode_launch_request out = Ok r.
Proof.
  intros Hs Ht (Hv & Hl & chunk & Hc & ->)%encode_launch_Ok. apply decode_launch_Ok.
  split_and!; [done..|]. exists chunk. split; [by apply written_read|done].
Qed.

(** C24: the launch payload is exact.  Every encoded request is decoded to the
    same request; a payload is accepted exactly when it is the layout of a
    typed request that passes validation and whose values fit, followed by
    nothing; so a payload without a contract has one encoding, the one it is. *)
Theorem launch_codec_exact : contract_serde →
  (∀ r out, launch_typed r → encode_launch_request r = Ok out → decode_launch_request out = Ok r)
  ∧ (∀ payload r, decode_launch_request payload = Ok r ↔
      launch_typed r ∧ launch_short r ∧ validate_request r = Ok () ∧
      ∃ chunk, contract_chunk (lq_workload_contract r) chunk ∧ payload = launch_head r ++ chunk)
  ∧ (∀ payload r, decode_launch_request payload = Ok r → lq_workload_contract r = None →
      encode_launch_request r = Ok payload).
Proof.
  intros Hs. split_and!.
  - intros r out. by apply launch_encode_decode.
  - apply decode_launch_Ok.
  - intros payload r (Ht & Hl & Hv & chunk & Hc & ->)%decode_launch_Ok Hn. apply encode_launch_Ok.
    split_and!; [done..|]. exists chunk. by rewrite Hn in *.
Qed.
End Exact.

(** ** The broker request *)
Section Authenticated.
Context (sha256_hash : list u8 → list u8).
Context `{SerdeJson} `{Serialize WorkloadContractV1} `{Deserialize WorkloadContractV1}.

Record broker_typed (r : LaunchBrokerRequestV2) : Prop := {
  bt_attempt : len (bq_attempt_id r) = 16; bt_digest : len (bq_request_digest r) = 32;
  bt_control : is_i32 (bq_control_process_id r); bt_start : bq_control_process_start_time r < 2 ^ 64;
  bt_launch : launch_typed (bq_launch r); bt_caller : caller_typed (bq_caller r);
  bt_record : len (ri_attempt_id (bq_record_identity r)) = 16;
  bt_envelope : len (ri_caller_envelope_digest (bq_record_identity r)) = 32;
  bt_binding : len (bq_request_authentication_binding r) = 32
}.

Definition binding_preimage (r : LaunchBrokerRequestV2) (caller : list u8) : list u8 :=
  bytes "memcordon-launch-broker-request-v2" ++ [NUL] ++ bq_attempt_id r ++ bq_request_digest r
  ++ i32_be_bytes (bq_control_process_id r) ++ be_bytes 8 (bq_control_process_start_time r)
  ++ caller ++ ri_attempt_id (bq_record_identity r) ++ ri_caller_envelope_digest (bq_record_identity r)
  ++ (byte ∘ purpose_byte <$> bq_descriptor_manifest r).

Record broker_valid (r : LaunchBrokerRequestV2) (encoded : list u8) : Prop := {
  bv_launch : encode_launch_request (bq_launch r) = Ok encoded;
  bv_manifest : bq_descriptor_manifest r = broker_purposes;
  bv_caller : caller_bounded (bq_caller r) = true;
  bv_control : (0 < bq_control_process_id r)%Z;
  bv_start : bq_control_process_start_time r ≠ 0;
  bv_digest : bq_request_digest r = sha256_hash encoded;
  bv_attempt : ri_attempt_id (bq_record_identity r) = bq_attempt_id r;
  bv_envelope : ri_caller_envelope_digest (bq_record_identity r) = sha256_hash (envelope_bytes (bq_caller r));
  bv_binding : bq_request_authentication_binding r =
    sha256_hash (binding_preimage r (sha256_hash (envelope_bytes (bq_caller r))))
}.

Lemma caller_digest_spec c :
  caller_digest sha256_hash c =
    if caller_bounded c then Ok (sha256_hash (envelope_bytes c))
    else Err (Panicked "validated caller envelope always has a bounded encoding").
Proof. unfold caller_digest. rewrite encode_caller_spec. by destruct (caller_bounded c). Qed.

Lemma rejecting_guard_Ok c e : rejecting (guard_err c e) = Ok () ↔ c = false.
Proof. destruct c; cbn; naive_solver. Qed.

Lemma validate_broker_Ok r :
  validate_broker_request sha256_hash r = Ok () ↔ ∃ encoded, broker_valid r encoded.
Proof.
  unfold validate_broker_request, expected_authentication_binding, rejecting. rewrite bind_Ok. split.
  - intros (encoded & Hl%map_err_Ok & E). exists encoded.
    apply bind_Ok in E as ([] & Hg%rejecting_guard_Ok & E). bool_hyps.
    apply bind_Ok in E as (digest & Hd & E). rewrite caller_digest_spec in Hd, E.
    destruct (caller_bounded (bq_caller r)) eqn:Hc; [|done]. apply (inj Ok) in Hd. subst digest.
    apply bind_Ok in E as ([] & He%rejecting_guard_Ok & E).
    apply bind_Ok in E as (binding & Hb & E%rejecting_guard_Ok). apply (inj Ok) in Hb. subst binding.
    bool_hyps. split; try done; lia.
  - intros (encoded & [Hl Hm Hc Hi Hs Hd Ha He Hb]). exists encoded. rewrite Hl. split; [done|].
    pose proof Hc as Hc'. unfold caller_bounded in Hc'. bool_hyps.
    apply bind_Ok. exists (). split.
    { apply rejecting_guard_Ok. rewrite !bool_decide_true by done. bool_goal; cbn; try done; lia. }
    rewrite caller_digest_spec, Hc. cbn [mbind result_bind].
    rewrite bool_decide_true by done. cbn [negb guard_err map_err mbind result_bind].
    by rewrite bool_decide_true by done.
Qed.

(** A request whose caller has no encoding ends in a panic, before any check. *)
Lemma authenticated_unbounded attempt digest control start launch caller manifest :
  caller_bounded caller = false →
  authenticated sha256_hash attempt digest control start launch caller manifest =
    Err (Panicked "validated caller envelope always has a bounded encoding").
Proof. intros Hc. unfold authenticated. by rewrite caller_digest_spec, Hc. Qed.

Lemma authenticated_Ok attempt digest control start launch caller manifest r :
  authenticated sha256_hash attempt digest control start launch caller manifest = Ok r →
  (∃ encoded, broker_valid r encoded)
  ∧ bq_attempt_id r = attempt ∧ bq_request_digest r = digest ∧ bq_control_process_id r = control
  ∧ bq_control_process_start_time r = start ∧ bq_launch r = launch ∧ bq_caller r = caller.
Proof.
  unfold authenticated. intros (d & _ & E)%bind_Ok. apply bind_Ok in E as (binding & _ & E).
  apply bind_Ok in E as ([] & Hv%validate_broker_Ok & E). apply (inj Ok) in E. by subst r.
Qed.

Definition broker_layout (r : LaunchBrokerRequestV2) (public : list u8) : list u8 :=
  be_bytes 2 LAUNCH_BROKER_REQUEST_VERSION ++ bq_attempt_id r ++ bq_request_digest r
  ++ i32_be_bytes (bq_control_process_id r) ++ be_bytes 8 (bq_control_process_start_time r) ++ value_bytes public
  ++ envelope_bytes (bq_caller r) ++ counted_bytes purpose_bytes (bq_descriptor_manifest r)
  ++ ri_attempt_id (bq_record_identity r) ++ ri_caller_envelope_digest (bq_record_identity r)
  ++ bq_request_authentication_binding r.

Lemma read_public_Ok l rest launch :
  (public ← cursor_bytes; st_lift (decode_launch_request public)) l = (rest, Ok launch) ↔
  ∃ public, short public ∧ l = value_bytes public ++ rest ∧ decode_launch_request public = Ok launch.
Proof.
  rewrite (exact_bind cursor_bytes). setoid_rewrite st_lift_Ok. naive_solver.
Qed.

Lemma decode_broker_Ok payload r :
  decode_launch_broker_request sha256_hash payload = Ok r ↔
  broker_typed r ∧ (∃ encoded, broker_valid r encoded) ∧
  ∃ public, short public ∧ decode_launch_request public = Ok (bq_launch r) ∧ payload = broker_layout r public.
Proof.
  unfold decode_launch_broker_request, rejecting. split.
  - intros (r' & Er%map_err_Ok & E)%bind_Ok. apply bind_Ok in E as ([] & Hv%validate_broker_Ok & E).
    apply (inj Ok) in E. subst r'. destruct (read_launch_broker_request payload) as [rest x] eqn:E. cbn [snd] in Er.
    subst x. unfold read_launch_broker_request in E. read_forward E. read_guard E Hn.
    apply negb_false_iff, N.eqb_eq in Hn. subst. do 4 read_forward E.
    apply stM_bind_Ok in E as (? & launch & (public & Hs & -> & Hl)%read_public_Ok & E).
    do 5 read_forward E. unfold cursor_is_empty in E at 1. apply stM_bind_Ok in E as (? & ? & [= <- <-] & E).
    read_guard E Hn. apply negb_false_iff, N.eqb_eq, len_length, nil_length_inv in Hn. subst.
    injection E as <- <-. destruct_and!.
    split_and!; [constructor; try done; by apply decode_launch_Ok in Hl as [? _]|done|].
    exists public. split_and!; [done..|]. unfold broker_layout, id.
    cbn [bq_attempt_id bq_request_digest bq_control_process_id bq_control_process_start_time bq_caller
         bq_descriptor_manifest bq_record_identity bq_request_authentication_binding ri_attempt_id
         ri_caller_envelope_digest]. by rewrite app_nil_r.
  - intros (Ht & Hv & public & Hs & Hl & ->).
    assert (read_launch_broker_request (broker_layout r public) = ([], Ok r)) as ->; cycle 1.
    { cbn [snd map_err mbind result_bind]. by rewrite (proj2 (validate_broker_Ok r) Hv). }
    destruct Ht, Hv as (encoded & [? Hm Hc]).
    assert (len (bq_descriptor_manifest r) <= 7 ∧ Forall (.∈ broker_purposes) (bq_descriptor_manifest r)).
    { rewrite Hm. split; [done|]. by apply Forall_forall. }
    unfold read_launch_broker_request, broker_layout.
    read_back LAUNCH_BROKER_REQUEST_VERSION. read_pass (eq_refl false).
    read_back (bq_attempt_id r). read_back (bq_request_digest r). read_back (bq_control_process_id r).
    read_back (bq_control_process_start_time r). unfold mbind at 1, stM_bind at 1.
    rewrite (proj2 (read_public_Ok _ _ (bq_launch r))) by (by eexists).
    read_back (bq_caller r). read_back (bq_descriptor_manifest r).
    read_back (ri_attempt_id (bq_record_identity r)). read_back (ri_caller_envelope_digest (bq_record_identity r)).
    etrans; [eapply (exact_run _ _ (bq_request_authentication_binding r) []); [done|by rewrite app_nil_r]|].
    by destruct r as [? ? ? ? ? ? ? [] ?].
Qed.

Lemma encode_broker_spec r encoded : broker_valid r encoded →
  encode_launch_broker_request sha256_hash r =
    if MAX_NATIVE_VALUE_LENGTH <? len encoded then Err (Rejected ValueTooLarge) else Ok (broker_layout r encoded).
Proof.
  intros Hv. pose proof Hv as [Hl Hm Hc _ _ _ _ _ _].
  pose proof (proj1 (encode_launch_Ok _ _) Hl) as (Hr & _).
  unfold encode_launch_broker_request, rejecting.
  rewrite Hr, (proj2 (validate_broker_Ok r)), Hl by eauto. cbn [map_err mbind result_bind].
  destruct (put_bytes _ encoded) as [out|e] eqn:Eb.
  - apply put_bytes_Ok in Eb as [Hs ->]. cbn [map_err mbind result_bind].
    replace (_ <? _) with false by (symmetry; by apply N.ltb_ge).
    rewrite encode_caller_spec, Hc, Hm. cbn [map_err mbind result_bind]. unfold broker_layout, counted_bytes.
    rewrite Hm, purposes_bytes.
    match goal with |- context [put_count ?e ?n] =>
      rewrite (proj2 (put_count_Ok e n (e ++ be_bytes 4 n)) (conj eq_refl eq_refl)) end.
    cbn [map_err mbind result_bind]. by rewrite <- !(assoc_L (++)).
  - unfold put_bytes in Eb. destruct (MAX_NATIVE_VALUE_LENGTH <? len encoded) eqn:El; cbn in Eb; [by simplify_eq|].
    apply N.ltb_ge in El. unfold put_count, try_from, fits in Eb. exfalso. revert Eb.
    unfold MAX_NATIVE_VALUE_LENGTH in El. by replace (len encoded <? 2 ^ 32) with true by lia.
Qed.

Context (sha256_length : ∀ x, len (sha256_hash x) = 32).

Lemma valid_typed r encoded : broker_valid r encoded → len (bq_attempt_id r) = 16 →
  is_i32 (bq_control_process_id r) → bq_control_process_start_time r < 2 ^ 64 →
  launch_typed (bq_launch r) → caller_typed (bq_caller r) → broker_typed r.
Proof.
  intros [? ? ? ? ? Hd Ha He Hb] ? ? ? ? ?.
  split; rewrite ?Hd, ?Ha, ?He, ?Hb; auto.
Qed.

(** C26: a request the control process binds reaches the broker unchanged, if it is
    small enough.  When binding an attempt's launch to its caller succeeds, a
    launch of at most 64 KiB is encoded and the broker decodes exactly the
    bound request; a longer launch, which the public codec accepts, is
    refused. *)
Theorem broker_delivery attempt digest control start launch caller manifest r :
  contract_serde → len attempt = 16 → is_i32 control → start < 2 ^ 64 → launch_typed launch → caller_typed caller →
  authenticated sha256_hash attempt digest control start launch caller manifest = Ok r →
  ∃ encoded, encode_launch_request launch = Ok encoded ∧ decode_launch_request encoded = Ok launch ∧
    if len encoded <=? MAX_NATIVE_VALUE_LENGTH
    then ∃ payload, encode_launch_broker_request sha256_hash r = Ok payload
      ∧ decode_launch_broker_request sha256_hash payload = Ok r
    else encode_launch_broker_request sha256_hash r = Err (Rejected ValueTooLarge).
Proof.
  intros Hs Ha Hi Hst Hl Hc E. apply authenticated_Ok in E as ((encoded & Hv) & Ea & _ & Ei & Est & El & Ec).
  rewrite <- Ea, <- Ei, <- Est, <- El, <- Ec in *. exists encoded.
  pose proof (bv_launch _ _ Hv) as Hen. pose proof (launch_encode_decode _ _ Hs Hl Hen) as Hde.
  split_and!; [done..|]. rewrite (encode_broker_spec r encoded Hv), N.ltb_antisym.
  destruct (N.leb_spec (len encoded) MAX_NATIVE_VALUE_LENGTH) as [Hle|]; cbn [negb]; [|done].
  eexists. split; [done|]. apply decode_broker_Ok. split_and!; [by eapply valid_typed|by exists encoded|].
  by exists encoded.
Qed.

Lemma rejecting_panic {A B} (x : result RequestCodecError A) (k : A → result request_failure B) m :
  (rejecting x ≫= k) = Err (Panicked m) → ∃ a, x = Ok a ∧ k a = Err (Panicked m).
Proof. destruct x as [a|e]; cbn; naive_solver. Qed.
Lemma validate_no_panic r m : caller_bounded (bq_caller r) = true →
  validate_broker_request sha256_hash r ≠ Err (Panicked m).
Proof.
  intros Hc E. unfold validate_broker_request, expected_authentication_binding in E.
  apply rejecting_panic in E as (e & _ & E). apply rejecting_panic in E as (? & _ & E).
  rewrite caller_digest_spec, Hc in E. cbn [mbind result_bind] in E. apply rejecting_panic in E as (? & _ & E).
  revert E. unfold rejecting, guard_err. by case_match.
Qed.

(** The control process panics on a caller with more than 256 supplementary
    groups, whatever else the request says, because the caller's digest is
    taken before the check that would reject it; a caller with a positive pid
    and at most 256 groups never makes it panic. *)
Theorem many_groups_panic attempt digest control start launch caller manifest :
  (authenticated sha256_hash attempt digest control start launch caller manifest =
    Err (Panicked "validated caller envelope always has a bounded encoding"))
  ↔ ((cx_pid caller <= 0)%Z ∨ MAX_SUPPLEMENTARY_GROUPS < len (cx_supplementary_groups caller)).
Proof.
  transitivity (caller_bounded caller = false).
  - split; [|apply authenticated_unbounded]. intros E. destruct (caller_bounded caller) eqn:Hc; [exfalso|done].
    unfold authenticated, expected_authentication_binding in E. cbn [bq_caller] in E.
    rewrite caller_digest_spec, Hc in E. cbn [mbind result_bind] in E.
    destruct (validate_broker_request _ _) as [[]|f] eqn:Ev; [done|]. injection E as ->.
    by eapply validate_no_panic in Ev.
  - unfold caller_bounded. rewrite negb_false_iff, orb_true_iff, Z.leb_le, N.ltb_lt. done.
Qed.

Lemma same_length {A} (l k : list A) n : len l = n → len k = n → length l = length k.
Proof. unfold len. lia. Qed.
Lemma preimage_inj r1 r2 d1 d2 : broker_typed r1 → broker_typed r2 → len d1 = 32 → len d2 = 32 →
  binding_preimage r1 d1 = binding_preimage r2 d2 →
  bq_attempt_id r1 = bq_attempt_id r2 ∧ bq_request_digest r1 = bq_request_digest r2
  ∧ bq_control_process_id r1 = bq_control_process_id r2
  ∧ bq_control_process_start_time r1 = bq_control_process_start_time r2 ∧ d1 = d2.
Proof.
  intros [] [] Hd1 Hd2 E. unfold binding_preimage in *. do 2 apply app_inv_head in E.
  apply app_inj_1 in E as [E1 E]; [|by eapply same_length]. apply app_inj_1 in E as [E2 E]; [|by eapply same_length].
  apply i32_be_bytes_prefix_free in E as [E3 E]; [|done..].
  apply (be_bytes_prefix_free 8) in E as [E4 E]; [|done..]. by apply app_inj_1 in E as [E5 _]; [|by eapply same_length].
Qed.

(** C25: the authentication binding commits to the whole request.  Two requests
    the broker accepts with the same binding are the same request: attempt,
    digest, control process, launch, caller and descriptors; or two different
    byte strings the program hashed have the same SHA-256. *)
Theorem broker_binding_commits p1 p2 r1 r2 : contract_serde →
  decode_launch_broker_request sha256_hash p1 = Ok r1 → decode_launch_broker_request sha256_hash p2 = Ok r2 →
  bq_request_authentication_binding r1 = bq_request_authentication_binding r2 →
  r1 = r2
  ∨ collision sha256_hash (binding_preimage r1 (sha256_hash (envelope_bytes (bq_caller r1))))
      (binding_preimage r2 (sha256_hash (envelope_bytes (bq_caller r2))))
  ∨ collision sha256_hash (envelope_bytes (bq_caller r1)) (envelope_bytes (bq_caller r2))
  ∨ ∃ e1 e2, encode_launch_request (bq_launch r1) = Ok e1 ∧ encode_launch_request (bq_launch r2) = Ok e2
      ∧ collision sha256_hash e1 e2.
Proof.
  intros Hs (T1 & (e1 & V1) & _)%decode_broker_Ok (T2 & (e2 & V2) & _)%decode_broker_Ok Hb.
  pose proof (bv_binding _ _ V1) as B1. pose proof (bv_binding _ _ V2) as B2. rewrite B1, B2 in Hb.
  destruct (decide (binding_preimage r1 (sha256_hash (envelope_bytes (bq_caller r1))) =
    binding_preimage r2 (sha256_hash (envelope_bytes (bq_caller r2))))) as [Ep|]; [|by right; left].
  apply preimage_inj in Ep as (Ea & Ed & Ei & Est & Ec); [|by auto..].
  destruct (decide (envelope_bytes (bq_caller r1) = envelope_bytes (bq_caller r2))) as [Ec'|]; [|by right; right; left].
  destruct (decide (e1 = e2)) as [Ee|]; cycle 1.
  { right; right; right. exists e1, e2. split_and!; [by apply bv_launch..|]. split; [done|].
    by rewrite <- (bv_digest _ _ V1), <- (bv_digest _ _ V2). }
  left. assert (bq_caller r1 = bq_caller r2) as Ecl.
  { eapply (exact_inj decode_caller_envelope); [split; [by apply bt_caller|by eapply bv_caller]..|done]. }
  assert (bq_launch r1 = bq_launch r2) as El.
  { subst e2. pose proof (launch_encode_decode _ _ Hs (bt_launch _ T1) (bv_launch _ _ V1)) as D1.
    pose proof (launch_encode_decode _ _ Hs (bt_launch _ T2) (bv_launch _ _ V2)) as D2. congruence. }
  pose proof (bv_manifest _ _ V1). pose proof (bv_manifest _ _ V2). pose proof (bv_attempt _ _ V1).
  pose proof (bv_attempt _ _ V2). pose proof (bv_envelope _ _ V1). pose proof (bv_envelope _ _ V2).
  rewrite <- B1, <- B2 in Hb. clear T1 T2 V1 V2 B1 B2.
  destruct r1 as [? ? ? ? ? ? ? [] ?], r2 as [? ? ? ? ? ? ? [] ?]. cbn in *. congruence.
Qed.
End Authenticated.

(** ** Examples *)
Module LaunchExamples.
Import ContractExamples.

#[export] Instance WorkloadContractV1_eq_dec : EqDecision WorkloadContractV1.
Proof. solve_decision. Defined.

(** A serializer that knows one contract, and a hash of 32 bytes. *)
Definition known : WorkloadContractV1 := contract two_reqs two_eps.
#[export] Instance one_object : SerdeJson := {| json_of := λ _, Ok (JObject []) |}.
#[export] Instance write_known : Serialize WorkloadContractV1 :=
  {| to_chunks := λ c, if c ≟ known then Ok [bytes "{}"] else Err "unknown"%string |}.
#[export] Instance read_known : Deserialize WorkloadContractV1 :=
  {| from_slice := λ l, if l ≟ bytes "{}" then Ok known else Err "unknown"%string |}.
Definition hash (l : list u8) : list u8 := be_bytes 32 (foldl (λ a b, N.lxor a (N_of_ascii b)) (256 * len l) l).

Lemma known_serde : contract_serde.
Proof.
  split; intros c text; unfold to_vec, to_chunks, write_known; case_bool_decide; cbn [fmap result_fmap]; try done.
  intros E. apply (inj Ok) in E. by subst.
Qed.

Definition policy : LaunchPolicyV2 :=
  {| lpo_memory_limit_bytes := Some (2 ^ 30); lpo_swap_limit := SwapLimit_Bytes 0;
     lpo_absolute_deadline_millis := None; lpo_deadline_scope := DeadlineScope_Supervision;
     lpo_lifetime := Lifetime_Workload; lpo_poll_interval_millis := 100; lpo_signal_grace_millis := 5000;
     lpo_command_exit_grace_millis := 1000; lpo_limit_grace_millis := 1000 |}.
Definition launch (environment : list (list u8 * list u8)) : LaunchRequestV2 :=
  {| lq_restart_attempt := 2; lq_workload_contract := Some known; lq_program := bytes "/bin/server";
     lq_arguments := [bytes "--port"; bytes "8000"; []]; lq_environment := environment; lq_policy := policy;
     lq_descriptors := public_purposes |}.
Definition small : LaunchRequestV2 := launch [(bytes "HOME", bytes "/root"); (bytes "EMPTY", [])].
(** Two variables of 33,000 bytes. *)
Definition wide : list u8 := replicate (N.to_nat 33000) "x"%char.
Definition wide_environment : list (list u8 * list u8) := [(bytes "A", wide); (bytes "B", wide)].
Definition large : LaunchRequestV2 := launch wide_environment.

Definition at_inode (n : N) : NamespaceIdentity := {| nid_device := 4; nid_inode := n |}.
Definition caller (groups : nat) : CallerExecutionEnvelopeV2 :=
  {| cx_pid := 4242; cx_process_start_time := 99; cx_uid := 1000; cx_gid := 1000;
     cx_supplementary_groups := N.of_nat <$> seq 1 groups; cx_no_new_privs := true;
     cx_capability_bounding_set := 0; cx_mount_namespace_identity := at_inode 1;
     cx_pid_namespace_identity := at_inode 2; cx_user_namespace_identity := at_inode 3;
     cx_network_namespace_identity := at_inode 4; cx_ipc_namespace_identity := at_inode 5;
     cx_uts_namespace_identity := at_inode 6; cx_time_namespace_identity := at_inode 7;
     cx_current_directory_identity := at_inode 8; cx_root_identity := at_inode 9 |}.
Definition attempt : list u8 := replicate 16 "a"%char.
Definition bind_launch (l : LaunchRequestV2) : result request_failure LaunchBrokerRequestV2 :=
  encoded ← rejecting (encode_launch_request l);
  authenticated hash attempt (hash encoded) 73 99 l (caller 3) broker_purposes.

Lemma launch_is_typed e : launch_typed (launch e).
Proof. split; cbn; try done; by intros ? [= <-]. Qed.
Lemma control_is_typed : is_i32 73 ∧ 99 < 2 ^ 64.
Proof. done. Qed.
Lemma caller_is_typed : caller_typed (caller 3).
Proof. split; try done. by repeat constructor. Qed.

(** C?: a launch with its contract, and its broker request. *)
Lemma launch_codec_exact_witness :
  match encode_launch_request small with Ok out => decode_launch_request out = Ok small | Err _ => False end.
Proof.
  destruct (encode_launch_request small) as [out|] eqn:E; [|vm_compute in E; discriminate].
  exact (proj1 (launch_codec_exact known_serde) small out (launch_is_typed _) E).
Defined.

Lemma digest_length x : len (hash x) = 32.
Proof. unfold len, hash. by rewrite length_be_bytes. Qed.

(** C?: the small launch arrives. *)
Lemma broker_delivery_witness :
  match bind_launch small with
  | Ok r => ∃ payload, encode_launch_broker_request hash r = Ok payload
      ∧ decode_launch_broker_request hash payload = Ok r
  | Err _ => False
  end.
Proof.
  destruct (bind_launch small) as [r|] eqn:E; [|vm_compute in E; discriminate].
  apply bind_Ok in E as (e & He%map_err_Ok & E).
  destruct (broker_delivery hash digest_length attempt (hash e) 73 99 small (caller 3) broker_purposes r known_serde
    eq_refl (proj1 control_is_typed) (proj2 control_is_typed) (launch_is_typed _) caller_is_typed E)
    as (e' & He' & _ & Hr).
  vm_compute in He'. apply (inj Ok) in He'. subst e'. exact Hr.
Defined.

(** The large launch is bound, and refused when it is encoded for the broker. *)
Example large_launch_refused :
  is_ok (bind_launch large) = true
  ∧ (bind_launch large ≫= encode_launch_broker_request hash) = Err (Rejected ValueTooLarge).
Proof. split; vm_compute; reflexivity. Qed.

(** C?: a broker request read back determines itself. *)
Lemma broker_binding_commits_witness :
  match bind_launch small ≫= encode_launch_broker_request hash with
  | Ok payload =>
      match decode_launch_broker_request hash payload with
      | Ok r => r = r
          ∨ collision hash (binding_preimage r (hash (envelope_bytes (bq_caller r))))
              (binding_preimage r (hash (envelope_bytes (bq_caller r))))
          ∨ collision hash (envelope_bytes (bq_caller r)) (envelope_bytes (bq_caller r))
          ∨ ∃ e1 e2, encode_launch_request (bq_launch r) = Ok e1 ∧ encode_launch_request (bq_launch r) = Ok e2
              ∧ collision hash e1 e2
      | Err _ => False
      end
  | Err _ => False
  end.
Proof.
  destruct (bind_launch small ≫= encode_launch_broker_request hash) as [payload|] eqn:E;
    [|vm_compute in E; discriminate].
  destruct (decode_launch_broker_request hash payload) as [r|] eqn:D.
  - exact (broker_binding_commits hash digest_length payload payload r r known_serde D D eq_refl).
  - vm_compute in E. apply (inj Ok) in E. subst payload. vm_compute in D. discriminate.
Defined.

(** A caller in 257 groups. *)
Example caller_of_many_groups :
  authenticated hash attempt [] 73 99 small (caller 257) broker_purposes =
    Err (Panicked "validated caller envelope always has a bounded encoding").
Proof. by vm_compute. Qed.
End LaunchExamples.
