(* ===== verification/CommandLine.v ===== *)
(** * Windows command lines and environment blocks

    memcordon-core/src/windows_sealed.rs: the command line a sealed target is
    created with, its decoder, and the environment block.  A [u16] is an [N];
    the cursor of the decoder is the suffix it has not read.  Upper-casing of
    UTF-16 text follows the Unicode tables and is a parameter. *)

From S2P Require Import Prelude Decimal Codec WorkloadContract WorkloadCodec.
From stdpp Require Import sorting.
#[local] Open Scope N_scope.

Definition wide : Type := list N.

Definition SPACE : N := 32.
Definition TAB : N := 9.
Definition QUOTE : N := 34.
Definition BACKSLASH : N := 92.
Definition EQUALS : N := 61.
Definition COLON : N := 58.

Definition is_blank (value : N) : bool := (value =? SPACE) || (value =? TAB).

(** ** The encoder *)

(** The [for] over the argument: pending backslashes and the output so far. *)
Fixpoint escape_loop (backslashes : nat) (argument output : wide) : nat * wide :=
  match argument with
  | [] => (backslashes, output)
  | value :: argument =>
      if value =? BACKSLASH then escape_loop (S backslashes) argument output
      else
        let output :=
          if value =? QUOTE then output ++ replicate (backslashes * 2 + 1) BACKSLASH
          else output ++ replicate backslashes BACKSLASH in
        escape_loop 0 argument (output ++ [value])
  end.

Definition needs_quote (argument : wide) : bool :=
  bool_decide (argument = [])
  || existsb (λ value, (value =? SPACE) || (value =? TAB) || (value =? QUOTE)) argument.

Definition encode_windows_argument (argument output : wide) : wide :=
  if negb (needs_quote argument) then output ++ argument
  else
    let output := output ++ [QUOTE] in
    let '(backslashes, output) := escape_loop 0 argument output in
    output ++ replicate (backslashes * 2) BACKSLASH ++ [QUOTE].

Fixpoint encode_arguments (index : nat) (arguments : list wide) (output : wide) : wide :=
  match arguments with
  | [] => output
  | argument :: arguments =>
      let output := if (index =? 0)%nat then output else output ++ [SPACE] in
      encode_arguments (S index) arguments (encode_windows_argument argument output)
  end.
Definition encode_windows_command_line (arguments : list wide) : wide :=
  encode_arguments 0 arguments [].

(** ** The decoder *)

Fixpoint skip_blanks (l : wide) : wide :=
  match l with
  | value :: l' => if is_blank value then skip_blanks l' else l
  | [] => []
  end.

Fixpoint take_backslashes (l : wide) : nat * wide :=
  match l with
  | value :: l' =>
      if value =? BACKSLASH then let '(n, rest) := take_backslashes l' in (S n, rest) else (O, l)
  | [] => (O, [])
  end.

(** One argument: whether a quote is open at its end, its text, what is left.
    [None] is running out of steps. *)
Fixpoint decode_argument (steps : nat) (quoted : bool) (argument l : wide)
    : option (bool * wide * wide) :=
  match steps with
  | O => None
  | S steps =>
      match l with
      | [] => Some (quoted, argument, [])
      | value :: _ =>
          if negb quoted && is_blank value then Some (quoted, argument, l)
          else
            let '(backslashes, rest) := take_backslashes l in
            match rest with
            | [] => decode_argument steps quoted (argument ++ replicate backslashes BACKSLASH) []
            | next :: rest' =>
                if next =? QUOTE then
                  let argument := argument ++ replicate (backslashes / 2) BACKSLASH in
                  if (backslashes mod 2 =? 0)%nat
                  then decode_argument steps (negb quoted) argument rest'
                  else decode_argument steps quoted (argument ++ [QUOTE]) rest'
                else
                  let argument := argument ++ replicate backslashes BACKSLASH in
                  if negb quoted && is_blank next then Some (quoted, argument, rest)
                  else decode_argument steps quoted (argument ++ [next]) rest'
            end
      end
  end.

Fixpoint decode_arguments (steps : nat) (arguments : list wide) (l : wide)
    : result string (list wide) :=
  match steps with
  | O => Err out_of_steps
  | S steps =>
      match l with
      | [] => Ok arguments
      | _ =>
          match skip_blanks l with
          | [] => Ok arguments
          | l =>
              '(quoted, argument, l) ← ok_or out_of_steps (decode_argument (S (length l)) false [] l);
              if (quoted : bool) then Err "Windows command line has an unterminated quote"%string
              else decode_arguments steps (arguments ++ [argument]) l
          end
      end
  end.

Definition decode_windows_command_line (command_line : wide) : result string (list wide) :=
  if existsb (λ value, value =? 0) command_line then Err "Windows command line contains NUL"%string
  else decode_arguments (S (length command_line)) [] command_line.

(** ** Reading back an argument *)

(** What [escape_loop] writes, without its accumulators. *)
Fixpoint escaped (n : nat) (argument : wide) : wide :=
  match argument with
  | [] => replicate (n * 2) BACKSLASH
  | value :: argument =>
      if value =? BACKSLASH then escaped (S n) argument
      else (if value =? QUOTE then replicate (n * 2 + 1) BACKSLASH else replicate n BACKSLASH)
           ++ value :: escaped 0 argument
  end.

Lemma escape_loop_escaped n argument output :
  (let '(k, out) := escape_loop n argument output in out ++ replicate (k * 2) BACKSLASH)
  = output ++ escaped n argument.
Proof.
  revert n output. induction argument as [|v l IH]; intros n output; simpl; [done|].
  destruct (v =? BACKSLASH); [apply IH|]. rewrite IH.
  destruct (v =? QUOTE); by rewrite <- !app_assoc.
Qed.

Definition encoded (argument : wide) : wide :=
  if needs_quote argument then QUOTE :: escaped 0 argument ++ [QUOTE] else argument.

Lemma encode_windows_argument_eq argument output :
  encode_windows_argument argument output = output ++ encoded argument.
Proof.
  unfold encode_windows_argument, encoded. destruct (needs_quote argument); simpl; [|done].
  pose proof (escape_loop_escaped 0 argument (output ++ [QUOTE])) as E.
  destruct (escape_loop _ _ _) as [k out]. rewrite (app_assoc out), E, <- !app_assoc. done.
Qed.

Lemma take_backslashes_replicate n l :
  (∀ v l', l = v :: l' → v ≠ BACKSLASH) →
  take_backslashes (replicate n BACKSLASH ++ l) = (n, l).
Proof.
  intros Hl. induction n as [|n IH]; simpl.
  - destruct l as [|v l']; [done|]. simpl. specialize (Hl v l' eq_refl).
    by replace (v =? BACKSLASH) with false by lia.
  - by rewrite IH.
Qed.

Lemma take_backslashes_split l :
  let '(n, rest) := take_backslashes l in
  l = replicate n BACKSLASH ++ rest ∧ (∀ v l', rest = v :: l' → v ≠ BACKSLASH).
Proof.
  induction l as [|v l IH]; simpl; [done|].
  destruct (v =? BACKSLASH) eqn:E.
  - destruct (take_backslashes l) as [n rest]. destruct IH as [-> H]. split; [|done].
    simpl. f_equal. lia.
  - split; [done|]. intros ? ? [= <- <-]. lia.
Qed.

(** The steps given to the loop do not matter once they suffice, and one more
    than the length of the input suffices. *)
Lemma decode_argument_mono steps steps' q acc l r :
  decode_argument steps q acc l = Some r → (steps <= steps')%nat →
  decode_argument steps' q acc l = Some r.
Proof.
  revert steps' q acc l. induction steps as [|steps IH]; intros [|steps'] q acc l; simpl; try done; [lia|].
  intros H Hle. repeat case_match; try done; eapply IH; (done || lia).
Qed.

Lemma decode_argument_total steps q acc l :
  (length l < steps)%nat →
  ∃ q' acc' l', decode_argument steps q acc l = Some (q', acc', l') ∧
    (length l' <= length l)%nat ∧
    ((q = true ∨ ∀ v t, l = v :: t → is_blank v = false) → l ≠ [] → length l' < length l)%nat.
Proof.
  revert q acc l. induction steps as [|steps IH]; intros q acc l Hl; [lia|]. cbn [decode_argument].
  destruct l as [|v l]; [by do 3 eexists; split_and!|].
  destruct (negb q && is_blank v) eqn:Eb.
  { do 3 eexists. split; [done|]. split; [done|]. bool_hyps. intros [->|Hb]; [done|].
    by rewrite (Hb v l eq_refl) in *. }
  pose proof (take_backslashes_split (v :: l)) as Ht.
  destruct (take_backslashes (v :: l)) as [n [|next rest]]; destruct Ht as [E Hn].
  { destruct (IH q (acc ++ replicate n BACKSLASH) []) as (?&?&?&->&?&_); [simpl in *; lia|].
    do 3 eexists. split; [done|]. simpl in *. lia. }
  assert (length (v :: l) = n + S (length rest))%nat as El.
  { rewrite E, length_app, length_replicate. simpl. lia. }
  repeat case_match; try match goal with |- context [decode_argument steps ?q0 ?a0 rest] =>
    destruct (IH q0 a0 rest) as (?&?&?&->&?&_);
      [simpl in *; lia|do 3 eexists; split; [done|simpl in *; lia]] end.
  do 3 eexists. split; [done|]. split; [simpl in *; lia|]. intros _ _.
  destruct n as [|n]; [|simpl in *; lia]. simpl in E. simplify_eq. congruence.
Qed.

Definition argument_reads (q : bool) (acc l : wide) (r : bool * wide * wide) : Prop :=
  ∃ steps, decode_argument steps q acc l = Some r.

Lemma reads_decode q acc l r : argument_reads q acc l r → decode_argument (S (length l)) q acc l = Some r.
Proof.
  intros [steps H]. destruct (decode_argument_total (S (length l)) q acc l) as (q'&a'&l'&E&_); [lia|].
  pose proof (decode_argument_mono _ (Nat.max steps (S (length l))) _ _ _ _ H ltac:(lia)) as H1.
  pose proof (decode_argument_mono _ (Nat.max steps (S (length l))) _ _ _ _ E ltac:(lia)) as H2.
  congruence.
Qed.

(** One iteration, on a run of backslashes and the unit after it. *)
Lemma reads_unit q acc n next rest r :
  next ≠ BACKSLASH →
  (q = true ∨ is_blank next = false) →
  (if next =? QUOTE then
     if (n mod 2 =? 0)%nat
     then argument_reads (negb q) (acc ++ replicate (n / 2) BACKSLASH) rest r
     else argument_reads q (acc ++ replicate (n / 2) BACKSLASH ++ [QUOTE]) rest r
   else argument_reads q (acc ++ replicate n BACKSLASH ++ [next]) rest r) →
  argument_reads q acc (replicate n BACKSLASH ++ next :: rest) r.
Proof.
  intros Hn Hb H.
  assert (∀ steps, decode_argument (S steps) q acc (replicate n BACKSLASH ++ next :: rest) =
    if next =? QUOTE then
      if (n mod 2 =? 0)%nat
      then decode_argument steps (negb q) (acc ++ replicate (n / 2) BACKSLASH) rest
      else decode_argument steps q (acc ++ replicate (n / 2) BACKSLASH ++ [QUOTE]) rest
    else decode_argument steps q (acc ++ replicate n BACKSLASH ++ [next]) rest) as E.
  { intros steps. cbn [decode_argument].
    rewrite take_backslashes_replicate by (intros ? ? [= <- _]; done).
    assert (negb q && is_blank next = false) as -> by (destruct Hb as [->| ->]; [done|by destruct q]).
    destruct n as [|n]; cbn [replicate app].
    - assert (negb q && is_blank next = false) as -> by (destruct Hb as [->| ->]; [done|by destruct q]).
      by rewrite <- !app_assoc.
    - rewrite andb_false_r. by rewrite <- !app_assoc. }
  repeat case_match; destruct H as [steps H]; exists (S steps); by rewrite E.
Qed.

Lemma reads_escaped n argument acc tail r :
  argument_reads false (acc ++ replicate n BACKSLASH ++ argument) tail r →
  argument_reads true acc (escaped n argument ++ QUOTE :: tail) r.
Proof.
  revert n acc. induction argument as [|v argument IH]; intros n acc H; cbn [escaped].
  - apply reads_unit; [done|by left|]. cbn [N.eqb QUOTE Pos.eqb].
    rewrite Nat.Div0.mod_mul, Nat.div_mul by done. cbn. by rewrite app_nil_r in H.
  - destruct (v =? BACKSLASH) eqn:Ev.
    { apply IH. replace v with BACKSLASH in H by lia.
      rewrite replicate_S_end, <- app_assoc. exact H. }
    destruct (v =? QUOTE) eqn:Eq; rewrite <- app_assoc; cbn [app];
      (apply reads_unit; [lia|by left|]; rewrite Eq).
    + replace ((n * 2 + 1) mod 2)%nat with 1%nat by (rewrite Nat.add_comm, Nat.Div0.mod_add; done).
      replace ((n * 2 + 1) / 2)%nat with n by (rewrite Nat.add_comm, Nat.div_add; done).
      cbn. apply IH. rewrite <- !app_assoc. cbn. by replace QUOTE with v by lia.
    + apply IH. rewrite <- !app_assoc. exact H.
Qed.

(** An argument that needs no quotes ends at the next blank. *)
Lemma reads_plain argument acc tail :
  existsb (λ value, (value =? SPACE) || (value =? TAB) || (value =? QUOTE)) argument = false →
  (∀ v t, tail = v :: t → v = SPACE) →
  argument_reads false acc (argument ++ tail) (false, acc ++ argument, tail).
Proof.
  intros Hp Ht. remember (length argument) as k eqn:Ek. revert argument acc Hp Ek.
  induction k as [k IH] using lt_wf_ind. intros argument acc Hp ->.
  pose proof (take_backslashes_split argument) as Hs.
  destruct (take_backslashes argument) as [n rest]. destruct Hs as [-> Hr].
  rewrite existsb_app in Hp. apply orb_false_iff in Hp as [_ Hp].
  destruct rest as [|v rest].
  - rewrite app_nil_r. exists 2%nat. cbn [decode_argument].
    destruct tail as [|t tail].
    + rewrite take_backslashes_replicate by done.
      destruct n as [|n]; cbn; by rewrite ?app_nil_r.
    + specialize (Ht _ _ eq_refl) as ->.
      rewrite take_backslashes_replicate by (by intros ? ? [= <- _]).
      destruct n as [|n]; cbn; by rewrite ?app_nil_r.
  - cbn in Hp. bool_hyps. rewrite <- app_assoc. cbn [app].
    apply reads_unit; [by eapply Hr|right; unfold is_blank; bool_goal; by apply N.eqb_neq|].
    replace (v =? QUOTE) with false by lia.
    replace (acc ++ replicate n BACKSLASH ++ v :: rest)
      with ((acc ++ replicate n BACKSLASH ++ [v]) ++ rest) by (by rewrite <- !app_assoc).
    eapply IH; [|done..]. rewrite length_app. simpl. lia.
Qed.

Lemma reads_end acc tail :
  (∀ v t, tail = v :: t → v = SPACE) → argument_reads false acc tail (false, acc, tail).
Proof.
  intros Ht. exists 1%nat. destruct tail as [|v t]; [done|]. by rewrite (Ht v t eq_refl).
Qed.

Lemma reads_encoded argument tail :
  (∀ v t, tail = v :: t → v = SPACE) →
  argument_reads false [] (encoded argument ++ tail) (false, argument, tail).
Proof.
  intros Ht. unfold encoded. destruct (needs_quote argument) eqn:Eq.
  - change (argument_reads false [] (replicate 0 BACKSLASH ++ QUOTE :: (escaped 0 argument ++ [QUOTE]) ++ tail)
              (false, argument, tail)).
    apply reads_unit; [done|by right|]. cbn. rewrite <- app_assoc.
    apply reads_escaped. by apply reads_end.
  - unfold needs_quote in Eq. apply orb_false_iff in Eq as [_ Eq].
    by apply (reads_plain argument [] tail).
Qed.

Lemma encoded_head argument : ∃ v t, encoded argument = v :: t ∧ is_blank v = false.
Proof.
  unfold encoded. destruct (needs_quote argument) eqn:Eq; [by do 2 eexists|].
  unfold needs_quote in Eq. bool_hyps. destruct argument as [|v t]; [done|].
  exists v, t. split; [done|]. cbn in *. bool_hyps. unfold is_blank. bool_goal; by apply N.eqb_neq.
Qed.

Lemma encode_arguments_eq i arguments output :
  encode_arguments (S i) arguments output
  = output ++ concat ((λ a, SPACE :: encoded a) <$> arguments).
Proof.
  revert i output. induction arguments as [|a arguments IH]; intros i output; cbn.
  - by rewrite app_nil_r.
  - rewrite IH, encode_windows_argument_eq, <- !app_assoc. done.
Qed.

Lemma decode_arguments_encoded steps acc arguments l :
  (length l < steps)%nat →
  (∃ blank, l = blank ++ match arguments with
    | [] => [] | a :: arguments => encoded a ++ concat ((λ a, SPACE :: encoded a) <$> arguments)
    end ∧ (blank = [] ∨ blank = [SPACE])) →
  (l = [] → arguments = []) →
  decode_arguments steps acc l = Ok (acc ++ arguments).
Proof.
  revert steps acc l. induction arguments as [|a arguments IH]; intros [|steps] acc l Hl (b & -> & Hb) He;
    try lia.
  - destruct Hb as [->| ->]; cbn; by rewrite app_nil_r.
  - destruct (encoded_head a) as (v & t & Ea & Hv).
    set (tail := concat ((λ a, SPACE :: encoded a) <$> arguments)) in *.
    assert (skip_blanks (b ++ encoded a ++ tail) = encoded a ++ tail) as Es.
    { rewrite Ea. destruct Hb as [->| ->]; cbn; by rewrite Hv. }
    cbn [decode_arguments]. rewrite Es. destruct (b ++ encoded a ++ tail) as [|x xs] eqn:El.
    { by specialize (He eq_refl). }
    rewrite Ea. cbn [app]. change (v :: t ++ tail) with ((v :: t) ++ tail). rewrite <- Ea.
    rewrite (reads_decode false [] (encoded a ++ tail) (false, a, tail)).
    2:{ apply reads_encoded. unfold tail. by destruct arguments; intros ? ? [= <- _]. }
    cbn. replace (acc ++ a :: arguments) with ((acc ++ [a]) ++ arguments) by (by rewrite <- app_assoc).
    apply IH.
    + rewrite <- El in Hl. rewrite Ea, !length_app in Hl. simpl in Hl. lia.
    + unfold tail. destruct arguments as [|a' arguments]; cbn.
      * exists []. by auto.
      * exists [SPACE]. by auto.
    + unfold tail. by destruct arguments.
Qed.

Lemma escaped_no_nul n argument : Forall (λ v, v ≠ 0) argument → Forall (λ v, v ≠ 0) (escaped n argument).
Proof.
  intros H. revert n. induction H as [|v l Hv H IH]; intros n; cbn [escaped].
  - by apply Forall_replicate.
  - destruct (v =? BACKSLASH); [apply IH|].
    apply Forall_app. split; [|constructor; [done|apply IH]].
    destruct (v =? QUOTE); by apply Forall_replicate.
Qed.

Lemma encoded_no_nul argument : Forall (λ v, v ≠ 0) argument → Forall (λ v, v ≠ 0) (encoded argument).
Proof.
  intros H. unfold encoded. destruct (needs_quote argument); [|done].
  constructor; [done|]. apply Forall_app. split; [by apply escaped_no_nul|by repeat constructor].
Qed.

Lemma existsb_nul l : Forall (λ v, v ≠ 0) l → existsb (λ value, value =? 0) l = false.
Proof. induction 1; cbn; [done|]. rewrite IHForall, orb_false_r. by apply N.eqb_neq. Qed.

Lemma command_line_shape a arguments :
  encode_windows_command_line (a :: arguments)
  = encoded a ++ concat ((λ a, SPACE :: encoded a) <$> arguments).
Proof.
  unfold encode_windows_command_line. cbn. by rewrite encode_arguments_eq, encode_windows_argument_eq.
Qed.

Lemma skip_blanks_head l v t : skip_blanks l = v :: t → is_blank v = false.
Proof. induction l as [|w l IH]; cbn; [done|]. destruct (is_blank w) eqn:E; [done|]. by intros [= <- _]. Qed.
Lemma skip_blanks_length l : (length (skip_blanks l) <= length l)%nat.
Proof. induction l as [|w l IH]; cbn; [lia|]. destruct (is_blank w); cbn; lia. Qed.

Lemma decode_arguments_total steps acc l :
  (length l < steps)%nat → decode_arguments steps acc l ≠ Err out_of_steps.
Proof.
  revert acc l. induction steps as [|steps IH]; intros acc l Hl; [lia|]. cbn [decode_arguments].
  pose proof (skip_blanks_length l) as Hs. pose proof (skip_blanks_head l) as Hh.
  destruct l as [|x xs]; [done|].
  destruct (skip_blanks (x :: xs)) as [|v t] eqn:Es; [done|].
  destruct (decode_argument_total (S (length (v :: t))) false [] (v :: t)) as (q&a&l'&->&_&Hlt); [lia|].
  cbn. destruct q; [done|]. apply IH.
  specialize (Hlt (or_intror (λ v t E, Hh v t E)) ltac:(done)). simpl in *. lia.
Qed.

(** C33: the decoder reads back every argument vector the encoder is given,
    whatever quotes, blanks and runs of backslashes its arguments contain, as
    long as no argument contains a NUL unit; and on no input does the decoder
    run out of steps. *)
Theorem command_line_roundtrip :
  (∀ arguments, Forall (Forall (λ v, v ≠ 0)) arguments →
     decode_windows_command_line (encode_windows_command_line arguments) = Ok arguments) ∧
  (∀ l, decode_windows_command_line l ≠ Err out_of_steps).
Proof.
  split.
  - intros [|a arguments] H; [done|]. unfold decode_windows_command_line.
    rewrite command_line_shape, existsb_nul.
    + apply (decode_arguments_encoded _ [] (a :: arguments)); [lia|exists []; by auto|].
      destruct (encoded_head a) as (v & t & -> & _). done.
    + inversion H as [|? ? Ha Hr]; subst. apply Forall_app. split; [by apply encoded_no_nul|].
      apply Forall_concat, Forall_fmap. eapply Forall_impl; [exact Hr|].
      intros b Hb. constructor; [done|by apply encoded_no_nul].
  - intros l. unfold decode_windows_command_line. destruct (existsb _ l); [done|].
    apply decode_arguments_total. lia.
Qed.

Lemma command_line_roundtrip_witness :
  decode_windows_command_line
    (encode_windows_command_line [[97; 92; 92; 34; 32]; []; [92; 98]; [99; 32; 92]])
  = Ok [[97; 92; 92; 34; 32]; []; [92; 98]; [99; 32; 92]].
Proof. apply (proj1 command_line_roundtrip). repeat constructor; discriminate. Defined.

(** ** Environment blocks *)

Record WindowsEnvironmentEntryV1 : Type := { env_name : wide; env_value : wide }.

(** [Ord] of [Vec<u16>]. *)
Fixpoint wide_le (a b : wide) : bool :=
  match a, b with
  | [], _ => true
  | _ :: _, [] => false
  | x :: a, y :: b => (x <? y) || ((x =? y) && wide_le a b)
  end.

(** [matches!(name, ['=', drive, ':'] if drive is a letter)] *)
Definition drive_directory (name : wide) : bool :=
  match name with
  | [equals; drive; colon] =>
      (equals =? EQUALS) && (colon =? COLON)
      && (((65 <=? drive) && (drive <=? 90)) || ((97 <=? drive) && (drive <=? 122)))
  | _ => false
  end.

Definition wide_contains (value : N) (l : wide) : bool := existsb (λ v, v =? value) l.

Definition entry_is_invalid (entry : WindowsEnvironmentEntryV1) : bool :=
  bool_decide (env_name entry = [])
  || wide_contains 0 (env_name entry)
  || (wide_contains EQUALS (env_name entry) && negb (drive_directory (env_name entry)))
  || wide_contains 0 (env_value entry).

Fixpoint write_entries (entries : list WindowsEnvironmentEntryV1) (output : wide) : result string wide :=
  match entries with
  | [] => Ok output
  | entry :: entries =>
      guard_err (entry_is_invalid entry) "invalid Windows environment entry"%string ;;
      write_entries entries (output ++ env_name entry ++ [EQUALS] ++ env_value entry ++ [0])
  end.

(** [String::from_utf16_lossy]: scalar values, with U+FFFD for a surrogate
    that has no partner. *)
Definition is_high_surrogate (u : N) : bool := (0xD800 <=? u) && (u <=? 0xDBFF).
Definition is_low_surrogate (u : N) : bool := (0xDC00 <=? u) && (u <=? 0xDFFF).
Definition REPLACEMENT : N := 0xFFFD.
Fixpoint from_utf16_lossy (l : wide) : list N :=
  match l with
  | [] => []
  | u :: l =>
      if is_high_surrogate u then
        match l with
        | v :: rest =>
            if is_low_surrogate v
            then (0x10000 + (u - 0xD800) * 0x400 + (v - 0xDC00)) :: from_utf16_lossy rest
            else REPLACEMENT :: from_utf16_lossy l
        | [] => [REPLACEMENT]
        end
      else (if is_low_surrogate u then REPLACEMENT else u) :: from_utf16_lossy l
  end.

(** [str::encode_utf16] *)
Definition encode_utf16 (chars : list N) : wide :=
  mjoin ((λ c, if c <? 0x10000 then [c]
               else [0xD800 + (c - 0x10000) / 0x400; 0xDC00 + (c - 0x10000) mod 0x400]) <$> chars).

(** [to_uppercase] is the table of the Unicode standard. *)
Section environment.
  Context (to_uppercase : N → list N).

Definition windows_environment_key (name : wide) : wide :=
  encode_utf16 (mjoin (to_uppercase <$> from_utf16_lossy name)).

Definition entry_le (a b : WindowsEnvironmentEntryV1) : bool :=
  wide_le (windows_environment_key (env_name a)) (windows_environment_key (env_name b)).

(** [entries.windows(2)]: two neighbours with the same key. *)
Fixpoint adjacent_duplicate (entries : list WindowsEnvironmentEntryV1) : bool :=
  match entries with
  | a :: (b :: _) as rest =>
      bool_decide (windows_environment_key (env_name a) = windows_environment_key (env_name b))
      || adjacent_duplicate rest
  | _ => false
  end.

Definition encode_windows_environment_block (entries : list WindowsEnvironmentEntryV1)
    : result string wide :=
  let entries := sort_by entry_le entries in
  guard_err (adjacent_duplicate entries)
    "duplicate case-insensitive Windows environment name"%string ;;
  output ← write_entries entries [];
  let output := output ++ [0] in
  let output := if (length output =? 1)%nat then output ++ [0] else output in
  if 32767 <? N.of_nat (length output)
  then Err "Windows environment block exceeds the native UTF-16 limit"%string
  else Ok output.
End environment.

(** *** Reading a block

    How a process finds its environment: strings up to a NUL, the first empty
    one ends the block; a name ends at the first equals sign after its first
    unit. *)
Fixpoint until_unit (value : N) (l : wide) : option (wide * wide) :=
  match l with
  | [] => None
  | v :: l => if v =? value then Some ([], l)
              else '(text, rest) ← until_unit value l; Some (v :: text, rest)
  end.

Definition read_entry (text : wide) : option WindowsEnvironmentEntryV1 :=
  match text with
  | [] => None
  | v :: text => '(name, value) ← until_unit EQUALS text; Some {| env_name := v :: name; env_value := value |}
  end.

Fixpoint read_block (strings : nat) (l : wide) : option (list WindowsEnvironmentEntryV1) :=
  match strings with
  | O => None
  | S strings =>
      '(text, rest) ← until_unit 0 l;
      match text with
      | [] => Some []
      | _ => entry ← read_entry text; entries ← read_block strings rest; Some (entry :: entries)
      end
  end.

Lemma until_unit_app value text rest :
  wide_contains value text = false → until_unit value (text ++ value :: rest) = Some (text, rest).
Proof.
  induction text as [|v text IH]; cbn; intros H; [by rewrite N.eqb_refl|].
  apply orb_false_iff in H as [-> H]. by rewrite IH.
Qed.

Definition entry_text (entry : WindowsEnvironmentEntryV1) : wide :=
  env_name entry ++ [EQUALS] ++ env_value entry.

Lemma wide_contains_app value a b :
  wide_contains value (a ++ b) = wide_contains value a || wide_contains value b.
Proof. apply existsb_app. Qed.

Lemma valid_entry_text entry :
  entry_is_invalid entry = false →
  wide_contains 0 (entry_text entry) = false ∧ read_entry (entry_text entry) = Some entry ∧
  entry_text entry ≠ [].
Proof.
  destruct entry as [name value]. unfold entry_is_invalid, entry_text. cbn [env_name env_value]. intros H.
  repeat match goal with H : _ || _ = false |- _ => apply orb_false_iff in H as [??] end.
  assert (wide_contains 0 (name ++ EQUALS :: value) = false) as Hz.
  { rewrite wide_contains_app. by apply orb_false_iff. }
  split; [done|]. destruct name as [|v name]; [bool_hyps; done|]. split; [|done]. cbn.
  rewrite until_unit_app; [done|].
  destruct (wide_contains EQUALS (v :: name)) eqn:Eq;
    [|cbn in Eq; by apply orb_false_iff in Eq as [_ Eq]].
  assert (drive_directory (v :: name) = true) as Hd by
    (match goal with H : true && _ = false |- _ => by apply negb_false_iff in H end).
  destruct name as [|w [|x [|]]]; try done. clear -Hd. unfold drive_directory in Hd. cbn.
  unfold EQUALS, COLON in *. lia.
Qed.

Lemma write_entries_Ok entries output out :
  write_entries entries output = Ok out ↔
  Forall (λ e, entry_is_invalid e = false) entries ∧
  out = output ++ concat ((λ e, entry_text e ++ [0]) <$> entries).
Proof.
  revert output. induction entries as [|e entries IH]; intros output; cbn.
  - rewrite app_nil_r. naive_solver.
  - destruct (entry_is_invalid e) eqn:E; cbn.
    + split; [done|]. intros [H _]. inversion H. congruence.
    + rewrite IH, Forall_cons. unfold entry_text. rewrite <- !app_assoc. cbn.
      rewrite <- !app_assoc. cbn. tauto.
Qed.

(** *** The order on keys *)

Lemma wide_le_total a b : wide_le a b = true ∨ wide_le b a = true.
Proof. revert b. induction a as [|x a IH]; intros [|y b]; cbn; auto. destruct (IH b); lia. Qed.
Lemma wide_le_antisym a b : wide_le a b = true → wide_le b a = true → a = b.
Proof.
  revert b. induction a as [|x a IH]; intros [|y b]; cbn; try done. intros H1 H2.
  assert (x = y) as -> by lia. f_equal. apply IH; lia.
Qed.
Lemma wide_le_trans a b c : wide_le a b = true → wide_le b c = true → wide_le a c = true.
Proof.
  revert b c. induction a as [|x a IH]; intros [|y b] [|z c]; cbn; try done. intros H1 H2.
  assert (x < z ∨ (x = z ∧ x = y)) as [?|[-> ->]] by lia; [lia|].
  rewrite (IH b c) by lia. lia.
Qed.

Section block.
  Context (upper : N → list N).
Let key (e : WindowsEnvironmentEntryV1) : wide := windows_environment_key upper (env_name e).

(** In order with no two equal neighbours means all keys differ. *)
Lemma ordered_distinct entries :
  ordered (entry_le upper) entries → adjacent_duplicate upper entries = false →
  NoDup (key <$> entries).
Proof.
  intros Ho Hd.
  assert (StronglySorted (λ a b, wide_le (key a) (key b) = true ∧ key a ≠ key b) entries) as Hs.
  { apply Sorted_StronglySorted.
    { intros a b c [H1 N1] [H2 N2]. split; [by eapply wide_le_trans|]. intros E. apply N1.
      apply wide_le_antisym; [done|]. by rewrite E. }
    induction entries as [|a [|b rest] IH]; [by constructor|by repeat constructor|].
    destruct Ho as [Hab Ho]. cbn in Hd. apply orb_false_iff in Hd as [Hn Hd].
    constructor; [by apply IH|]. constructor. split; [done|]. by apply bool_decide_eq_false in Hn. }
  clear Ho Hd. induction Hs as [|a l Hs IH Hf]; cbn; constructor; [|done].
  rewrite list_elem_of_fmap. intros (b & E & Hb). rewrite Forall_forall in Hf.
  by destruct (Hf b Hb).
Qed.

Lemma distinct_no_duplicate entries :
  NoDup (key <$> entries) → adjacent_duplicate upper entries = false.
Proof.
  induction entries as [|a [|b rest] IH]; [done|done|]. intros H. cbn [fmap list_fmap] in H.
  apply NoDup_cons in H as [Ha H]. cbn [adjacent_duplicate]. apply orb_false_iff. split; [|by apply IH].
  apply bool_decide_eq_false. intros E. apply Ha. fold (key a) in E. rewrite E. constructor.
Qed.

Definition block_of (entries : list WindowsEnvironmentEntryV1) : wide :=
  concat ((λ e, entry_text e ++ [0]) <$> entries) ++
  (if bool_decide (entries = []) then [0; 0] else [0]).

Lemma read_block_of entries :
  Forall (λ e, entry_is_invalid e = false) entries →
  read_block (S (length entries)) (block_of entries) = Some entries.
Proof.
  intros H. unfold block_of. generalize (bool_decide (entries = [])). intros b.
  induction H as [|e entries He H IH]; [by destruct b|].
  destruct (valid_entry_text e He) as (Hz & Hr & Hn).
  cbn [fmap list_fmap concat]. rewrite <- !app_assoc. cbn [app].
  cbn [length]. revert IH. generalize (S (length entries)). intros k IH.
  cbn [read_block]. rewrite until_unit_app by done.
  unfold mbind, option_bind. destruct (entry_text e) as [|v t]; [done|]. by rewrite Hr, IH.
Qed.
End block.

(** The environment block is built exactly for entries with valid names
    and values whose upper-cased names differ and that fit the native limit,
    and a process reading the block finds those entries, in the order of their
    keys. *)
Theorem environment_block_readable upper entries :
  let sorted := sort_by (entry_le upper) entries in
  (∀ out, encode_windows_environment_block upper entries = Ok out ↔
     Forall (λ e, entry_is_invalid e = false) entries ∧
     NoDup (windows_environment_key upper ∘ env_name <$> entries) ∧
     N.of_nat (length (block_of sorted)) <= 32767 ∧ out = block_of sorted) ∧
  (∀ out, encode_windows_environment_block upper entries = Ok out →
     read_block (S (length entries)) out = Some sorted ∧ sorted ≡ₚ entries).
Proof.
  intros sorted. pose proof (sort_by_perm (entry_le upper) entries : sorted ≡ₚ entries) as Hp.
  assert (∀ out, encode_windows_environment_block upper entries = Ok out ↔
     Forall (λ e, entry_is_invalid e = false) entries ∧
     NoDup (windows_environment_key upper ∘ env_name <$> entries) ∧
     N.of_nat (length (block_of sorted)) <= 32767 ∧ out = block_of sorted) as Hiff.
  { intros out. unfold encode_windows_environment_block. fold sorted. rewrite <- Hp.
    rewrite bind_Ok. setoid_rewrite guard_err_Ok. setoid_rewrite bind_Ok.
    setoid_rewrite write_entries_Ok. cbn [app].
    assert ((adjacent_duplicate upper sorted = false) ↔
            NoDup (windows_environment_key upper ∘ env_name <$> sorted)) as Hnd.
    { split; [apply ordered_distinct, sort_by_ordered; intros; apply wide_le_total
             |apply distinct_no_duplicate]. }
    assert (∀ out' : wide, out' = concat ((λ e, entry_text e ++ [0]) <$> sorted) →
      (if (length (out' ++ [0%N]) =? 1)%nat then (out' ++ [0]) ++ [0] else out' ++ [0]) = block_of sorted)
      as Hb.
    { intros ? ->. unfold block_of. destruct sorted as [|e l]; [done|]. cbn [fmap list_fmap concat].
      rewrite bool_decide_eq_false_2 by done. rewrite !length_app. simpl length.
      by replace (_ =? 1)%nat with false by (symmetry; apply Nat.eqb_neq; lia). }
    split.
    - intros (u & Hd%Hnd & out' & [Hf ->] & E). rewrite (Hb _ eq_refl) in E.
      case_match; simplify_eq. split_and!; try done. lia.
    - intros (Hf & Hd%Hnd & Hl & ->). exists tt. split; [done|]. eexists. split; [by split|].
      rewrite (Hb _ eq_refl). by replace (_ <? _) with false by lia. }
  split; [exact Hiff|]. intros out H. apply Hiff in H as (Hf & _ & _ & ->). split; [|done].
  rewrite <- Hp in Hf. rewrite <- (Permutation_length Hp). by apply read_block_of.
Qed.

(** The table on ASCII. *)
Definition ascii_uppercase (c : N) : list N :=
  [if (97 <=? c) && (c <=? 122) then c - 32 else c].

Example key_of_surrogates :
  windows_environment_key ascii_uppercase [97; 0xD83D; 0xDE00; 0xDC00; 0xD800]
  = [65; 0xD83D; 0xDE00; 0xFFFD; 0xFFFD].
Proof. reflexivity. Qed.
Example case_insensitive_duplicate :
  encode_windows_environment_block ascii_uppercase
    [{| env_name := [97]; env_value := [] |}; {| env_name := [65]; env_value := [] |}]
  = Err "duplicate case-insensitive Windows environment name"%string.
Proof. reflexivity. Qed.

(** A drive directory, and a name that sorts behind it. *)
Lemma environment_block_readable_witness :
  read_block 3 [61; 67; 58; 61; 120; 0; 98; 61; 121; 0; 0]
  = Some [{| env_name := [61; 67; 58]; env_value := [120] |}; {| env_name := [98]; env_value := [121] |}].
Proof.
  eapply (proj2 (environment_block_readable ascii_uppercase
    [{| env_name := [98]; env_value := [121] |}; {| env_name := [61; 67; 58]; env_value := [120] |}])).
  vm_compute. reflexivity.
Defined.
