(* ===== verification/NativeText.v ===== *)
(** * Native text in reports

    Operating-system strings that need not be Unicode: NativeArgument of
    memcordon-core/src/report.rs, the path check of error.rs that reads it back,
    and the standard library's lossy UTF-8 decoding both rely on.  Base64 is a
    third-party package: the class [Base64]. *)

From S2P Require Import Prelude Decimal Bounded CommandLine.
From Stdlib Require Import Ascii.
#[local] Open Scope N_scope.

(** ** UTF-8 *)

Definition byte_in (lo hi : N) (b : u8) : bool := (lo <=? N_of_ascii b) && (N_of_ascii b <=? hi).
Definition is_continuation : u8 → bool := byte_in 0x80 0xBF.

(** The bytes allowed after the first byte of a three- and a four-byte sequence. *)
Definition second_of_three (first second : u8) : bool :=
  (byte_in 0xE0 0xE0 first && byte_in 0xA0 0xBF second)
  || (byte_in 0xE1 0xEC first && byte_in 0x80 0xBF second)
  || (byte_in 0xED 0xED first && byte_in 0x80 0x9F second)
  || (byte_in 0xEE 0xEF first && byte_in 0x80 0xBF second).
Definition second_of_four (first second : u8) : bool :=
  (byte_in 0xF0 0xF0 first && byte_in 0x90 0xBF second)
  || (byte_in 0xF1 0xF3 first && byte_in 0x80 0xBF second)
  || (byte_in 0xF4 0xF4 first && byte_in 0x80 0x8F second).

(** [core::str::Utf8Chunks]: whether the bytes start with a character, and how
    many bytes the character or its ill-formed start takes. *)
Definition utf8_step (l : list u8) : bool * nat :=
  match l with
  | [] => (true, 0%nat)
  | a :: rest =>
      if byte_in 0 0x7F a then (true, 1%nat)
      else if byte_in 0xC2 0xDF a then
        match rest with
        | b :: _ => if is_continuation b then (true, 2%nat) else (false, 1%nat)
        | [] => (false, 1%nat)
        end
      else if byte_in 0xE0 0xEF a then
        match rest with
        | b :: rest =>
            if second_of_three a b then
              match rest with
              | c :: _ => if is_continuation c then (true, 3%nat) else (false, 2%nat)
              | [] => (false, 2%nat)
              end
            else (false, 1%nat)
        | [] => (false, 1%nat)
        end
      else if byte_in 0xF0 0xF4 a then
        match rest with
        | b :: rest =>
            if second_of_four a b then
              match rest with
              | c :: rest =>
                  if is_continuation c then
                    match rest with
                    | d :: _ => if is_continuation d then (true, 4%nat) else (false, 3%nat)
                    | [] => (false, 3%nat)
                    end
                  else (false, 2%nat)
              | [] => (false, 2%nat)
              end
            else (false, 1%nat)
        | [] => (false, 1%nat)
        end
      else (false, 1%nat)
  end.

(** U+FFFD *)
Definition replacement_bytes : list u8 := [ascii_of_N 0xEF; ascii_of_N 0xBF; ascii_of_N 0xBD].

Fixpoint lossy_chunks (fuel : nat) (l : list u8) : list u8 :=
  match fuel, l with
  | S fuel, _ :: _ =>
      let '(valid, n) := utf8_step l in
      (if valid then take n l else replacement_bytes) ++ lossy_chunks fuel (drop n l)
  | _, _ => []
  end.
(** [String::from_utf8_lossy]; every step consumes a byte, so the length is
    enough fuel. *)
Definition from_utf8_lossy (l : list u8) : list u8 := lossy_chunks (length l) l.

(** [str::from_utf8(..).is_ok()] *)
Fixpoint utf8_chunks_valid (fuel : nat) (l : list u8) : bool :=
  match fuel, l with
  | S fuel, _ :: _ => let '(valid, n) := utf8_step l in valid && utf8_chunks_valid fuel (drop n l)
  | _, _ => true
  end.
Definition is_utf8 (l : list u8) : bool := utf8_chunks_valid (length l) l.

(** [char::encode_utf8] *)
Definition encode_utf8 (c : N) : list u8 :=
  ascii_of_N <$>
    (if c <? 0x80 then [c]
     else if c <? 0x800 then [0xC0 + c / 0x40; 0x80 + c mod 0x40]
     else if c <? 0x10000 then [0xE0 + c / 0x1000; 0x80 + c / 0x40 mod 0x40; 0x80 + c mod 0x40]
     else [0xF0 + c / 0x40000; 0x80 + c / 0x1000 mod 0x40; 0x80 + c / 0x40 mod 0x40; 0x80 + c mod 0x40]).

(** ** Native arguments *)

Class Base64 : Type := {
  base64_encode : list u8 → string;
  base64_decode : string → option (list u8)
}.
(** What the reader relies on: decoding gives back what was encoded, and the text,
    four characters for every three bytes begun, is at most twice as long. *)
Record base64_lawful `{Base64} : Prop := {
  base64_roundtrip : ∀ bytes, base64_decode (base64_encode bytes) = Some bytes;
  base64_length : ∀ bytes, str_len (base64_encode bytes) <= N.max 4 (2 * N.of_nat (length bytes))
}.

Record NativeArgumentRaw : Type := { raw_encoding : string; raw_data : string }.
Record NativeArgument : Type := { na_display : string; na_raw : option NativeArgumentRaw }.
#[global] Instance NativeArgumentRaw_eq_dec : EqDecision NativeArgumentRaw.
Proof. solve_decision. Defined.
#[global] Instance NativeArgument_eq_dec : EqDecision NativeArgument.
Proof. solve_decision. Defined.

(** [bytes.chunks_exact(2)] as [u16::from_le_bytes], and whether a byte remains. *)
Fixpoint u16le_words (l : list u8) : wide * bool :=
  match l with
  | a :: b :: rest =>
      let '(words, remainder) := u16le_words rest in
      ((N_of_ascii a + 256 * N_of_ascii b) :: words, remainder)
  | [_] => ([], true)
  | [] => ([], false)
  end.
Definition u16le_bytes (words : wide) : list u8 :=
  mjoin ((λ w, [ascii_of_N (w mod 256); ascii_of_N (w / 256)]) <$> words).

Definition string_of (l : list u8) : string := String.string_of_list_ascii l.
Definition utf16_lossy_string (words : wide) : string :=
  string_of (mjoin (encode_utf8 <$> from_utf16_lossy words)).

(** [char::decode_utf16(..)] without an error: no unpaired surrogate. *)
Fixpoint is_utf16 (l : wide) : bool :=
  match l with
  | [] => true
  | u :: l =>
      if is_high_surrogate u then
        match l with v :: rest => is_low_surrogate v && is_utf16 rest | [] => false end
      else negb (is_low_surrogate u) && is_utf16 l
  end.

Definition MAX_PATH_BYTES : N := 64 * 1024.

Section Arguments.
Context `{Base64}.

(** [from_os] on Unix, where the value is bytes, and on Windows, where it is
    sixteen-bit units. *)
Definition from_os_unix (value : list u8) : NativeArgument :=
  if is_utf8 value then {| na_display := string_of value; na_raw := None |}
  else {| na_display := string_of (from_utf8_lossy value);
          na_raw := Some {| raw_encoding := "unix-bytes-base64"; raw_data := base64_encode value |} |}.
Definition from_os_windows (value : wide) : NativeArgument :=
  if is_utf16 value then {| na_display := utf16_lossy_string value; na_raw := None |}
  else {| na_display := utf16_lossy_string value;
          na_raw := Some {| raw_encoding := "windows-u16le-base64";
                            raw_data := base64_encode (u16le_bytes value) |} |}.

Definition raw_is_consistent (display : string) (raw : NativeArgumentRaw) : bool :=
  if MAX_PATH_BYTES * 2 <? str_len (raw_data raw) then false
  else match base64_decode (raw_data raw) with
  | None => false
  | Some bytes =>
      if (match bytes with [] => true | _ => false end)
         || (MAX_PATH_BYTES <? N.of_nat (length bytes))
         || (base64_encode bytes ≠? raw_data raw)
      then false
      else if raw_encoding raw ≟ "unix-bytes-base64"%string then
        negb (bool_decide (NUL ∈ bytes)) && (string_of (from_utf8_lossy bytes) ≟ display)
      else if raw_encoding raw ≟ "windows-u16le-base64"%string then
        let '(words, remainder) := u16le_words bytes in
        negb remainder && negb (bool_decide (0 ∈ words)) && (utf16_lossy_string words ≟ display)
      else false
  end.

Definition native_startup_path_is_consistent (path : NativeArgument) : bool :=
  if str_is_empty (na_display path) || (MAX_PATH_BYTES <? str_len (na_display path))
     || str_contains NUL (na_display path)
  then false
  else match na_raw path with None => true | Some raw => raw_is_consistent (na_display path) raw end.
End Arguments.

(** ** Lossy decoding *)

(** A step takes at least one byte and no more than there are, and an ill-formed
    start is at most three bytes long. *)
Lemma utf8_step_bounds l : l ≠ [] →
  (1 <= (utf8_step l).2 <= length l)%nat ∧ ((utf8_step l).1 = false → ((utf8_step l).2 <= 3)%nat).
Proof.
  destruct l as [|a [|b [|c [|d l]]]]; intros ?; [done|..]; cbn [utf8_step];
    repeat (case_match; cbn); lia.
Qed.

(** Induction along the steps of the decoder. *)
Lemma utf8_ind (P : list u8 → Prop) :
  P [] → (∀ l, l ≠ [] → P (drop (utf8_step l).2 l) → P l) → ∀ l, P l.
Proof.
  intros H0 Hs l. induction l as [l IH] using (induction_ltof1 _ (@length u8)). unfold ltof in IH.
  destruct l as [|x l]; [done|]. apply Hs; [done|]. apply IH.
  destruct (utf8_step_bounds (x :: l) ltac:(done)) as [? _]. rewrite length_drop. cbn [length] in *. lia.
Qed.

Lemma lossy_chunks_more fuel l : (length l <= fuel)%nat → lossy_chunks fuel l = from_utf8_lossy l.
Proof.
  unfold from_utf8_lossy. revert fuel. induction l as [|l Hn IH] using utf8_ind; intros fuel Hf; [by destruct fuel|].
  destruct l as [|x l]; [done|]. destruct fuel as [|fuel]; [cbn in Hf; lia|].
  destruct (utf8_step_bounds (x :: l) Hn) as [Hb _]. cbn [length lossy_chunks].
  destruct (utf8_step (x :: l)) as [v n]; cbn [snd fst] in *. f_equal.
  assert (length (drop n (x :: l)) <= length l)%nat by (rewrite length_drop; cbn [length] in *; lia).
  cbn [length] in Hf. rewrite (IH fuel), (IH (length l)) by lia. done.
Qed.
Lemma from_utf8_lossy_step l : l ≠ [] →
  from_utf8_lossy l =
    (if (utf8_step l).1 then take (utf8_step l).2 l else replacement_bytes)
    ++ from_utf8_lossy (drop (utf8_step l).2 l).
Proof.
  intros Hn. destruct l as [|x l]; [done|]. destruct (utf8_step_bounds (x :: l) Hn) as [Hb _].
  unfold from_utf8_lossy at 1. cbn [length lossy_chunks].
  destruct (utf8_step (x :: l)) as [v n]; cbn [snd fst] in *. f_equal. apply lossy_chunks_more.
  rewrite length_drop. cbn [length] in *. lia.
Qed.

Lemma utf8_valid_more fuel l : (length l <= fuel)%nat → utf8_chunks_valid fuel l = is_utf8 l.
Proof.
  unfold is_utf8. revert fuel. induction l as [|l Hn IH] using utf8_ind; intros fuel Hf; [by destruct fuel|].
  destruct l as [|x l]; [done|]. destruct fuel as [|fuel]; [cbn in Hf; lia|].
  destruct (utf8_step_bounds (x :: l) Hn) as [Hb _]. cbn [length utf8_chunks_valid].
  destruct (utf8_step (x :: l)) as [v n]; cbn [snd fst] in *. f_equal.
  assert (length (drop n (x :: l)) <= length l)%nat by (rewrite length_drop; cbn [length] in *; lia).
  cbn [length] in Hf. rewrite (IH fuel), (IH (length l)) by lia. done.
Qed.
Lemma is_utf8_step l : l ≠ [] → is_utf8 l = (utf8_step l).1 && is_utf8 (drop (utf8_step l).2 l).
Proof.
  intros Hn. destruct l as [|x l]; [done|]. destruct (utf8_step_bounds (x :: l) Hn) as [Hb _].
  unfold is_utf8 at 1. cbn [length utf8_chunks_valid].
  destruct (utf8_step (x :: l)) as [v n]; cbn [snd fst] in *. f_equal. apply utf8_valid_more.
  rewrite length_drop. cbn [length] in *. lia.
Qed.

Lemma utf8_step_app a b : a ≠ [] → (utf8_step a).1 = true → utf8_step (a ++ b) = utf8_step a.
Proof.
  destruct a as [|x [|y [|z [|t a]]]]; intros ? Hv; [done|..]; cbn [utf8_step app] in *;
    repeat (case_match; cbn in *; try done).
Qed.
Lemma is_utf8_app a b : is_utf8 a = true → is_utf8 (a ++ b) = is_utf8 b.
Proof.
  induction a as [|a Hn IH] using utf8_ind; [done|]. rewrite is_utf8_step by done. intros [Hv Hr]%andb_true_iff.
  rewrite is_utf8_step by (by destruct a). rewrite utf8_step_app, Hv by done. cbn [andb].
  rewrite drop_app_le by apply utf8_step_bounds, Hn. by apply IH.
Qed.

Lemma from_utf8_lossy_valid l : is_utf8 l = true → from_utf8_lossy l = l.
Proof.
  induction l as [|l Hn IH] using utf8_ind; [done|]. rewrite is_utf8_step by done. intros [Hv Hr]%andb_true_iff.
  rewrite from_utf8_lossy_step, Hv, IH by done. apply take_drop.
Qed.
Lemma from_utf8_lossy_length l : (length l <= length (from_utf8_lossy l))%nat.
Proof.
  induction l as [|l Hn IH] using utf8_ind; [done|]. rewrite from_utf8_lossy_step, length_app by done.
  destruct (utf8_step_bounds l Hn) as [Hb H3]. rewrite length_drop in IH.
  destruct (utf8_step l).1; [rewrite length_take; lia|]. specialize (H3 eq_refl). cbn [length replacement_bytes]. lia.
Qed.
Lemma from_utf8_lossy_no_nul l : NUL ∉ l → NUL ∉ from_utf8_lossy l.
Proof.
  induction l as [|l Hn IH] using utf8_ind; [done|]. intros Hl. rewrite from_utf8_lossy_step by done.
  intros [Hin|Hin]%elem_of_app.
  - destruct (utf8_step l).1.
    + apply Hl. eapply elem_of_sublist; [exact Hin|apply sublist_take].
    + apply (bool_decide_eq_true_2 _) in Hin. by vm_compute in Hin.
  - apply IH; [|done]. intros Hd. apply Hl. eapply elem_of_sublist; [exact Hd|apply sublist_drop].
Qed.

(** ** Sixteen-bit units *)

Lemma u16le_roundtrip words : Forall (λ w, w < 2 ^ 16) words → u16le_words (u16le_bytes words) = (words, false).
Proof.
  induction 1 as [|w words Hw _ IH]; [done|].
  change (u16le_bytes (w :: words)) with (ascii_of_N (w mod 256) :: ascii_of_N (w / 256) :: u16le_bytes words).
  cbn [u16le_words]. rewrite IH, !N_ascii_embedding; [|apply N.Div0.div_lt_upper_bound; lia|apply N.mod_lt; lia].
  f_equal. f_equal. rewrite N.add_comm. symmetry. apply N.div_mod'.
Qed.
Lemma u16le_length words : length (u16le_bytes words) = (2 * length words)%nat.
Proof.
  induction words as [|w words IH]; [done|].
  change (u16le_bytes (w :: words)) with (ascii_of_N (w mod 256) :: ascii_of_N (w / 256) :: u16le_bytes words).
  cbn [length]. lia.
Qed.

Lemma from_utf16_lossy_nonzero words : 0 ∉ words → 0 ∉ from_utf16_lossy words.
Proof.
  induction words as [words IH] using (induction_ltof1 _ (@length N)). unfold ltof in IH.
  destruct words as [|u words]; [done|]. intros [Hu Hw]%not_elem_of_cons. cbn.
  destruct (is_high_surrogate u) eqn:Eh.
  - destruct words as [|v rest]; [set_solver|]. destruct (is_low_surrogate v) eqn:El.
    + apply not_elem_of_cons. split; [unfold is_high_surrogate, is_low_surrogate in *; lia|].
      apply IH; [cbn; lia|set_solver].
    + apply not_elem_of_cons. split; [done|]. apply IH; [cbn; lia|done].
  - apply not_elem_of_cons. split; [by destruct (is_low_surrogate u)|]. apply IH; [cbn; lia|done].
Qed.
Lemma from_utf16_lossy_range words : Forall (λ w, w < 2 ^ 16) words → Forall (λ c, c < 2 ^ 21) (from_utf16_lossy words).
Proof.
  induction words as [words IH] using (induction_ltof1 _ (@length N)). unfold ltof in IH.
  destruct words as [|u words]; [done|]. intros [Hu Hw]%Forall_cons. cbn.
  destruct (is_high_surrogate u) eqn:Eh.
  - destruct words as [|v rest]; [by repeat constructor|]. apply Forall_cons in Hw as [Hv Hw].
    destruct (is_low_surrogate v) eqn:El.
    + constructor; [unfold is_high_surrogate, is_low_surrogate in *; lia|]. apply IH; [cbn; lia|done].
    + constructor; [done|]. apply IH; [cbn; lia|by constructor].
  - constructor; [destruct (is_low_surrogate u); [done|lia]|]. apply IH; [cbn; lia|done].
Qed.
Lemma encode_utf8_no_nul c : c ≠ 0 → c < 2 ^ 21 → (NUL ∉ encode_utf8 c) ∧ encode_utf8 c ≠ [].
Proof.
  intros Hc Hl. assert (∀ n, 0 < n < 256 → ascii_of_N n ≠ NUL) as Hn.
  { intros n Hn E. apply (f_equal N_of_ascii) in E. rewrite N_ascii_embedding in E by lia. cbn in E. lia. }
  assert (∀ n, n mod 0x40 < 0x40) as Hm by (intros; apply N.mod_lt; lia).
  unfold encode_utf8. destruct (N.ltb_spec c 0x80); [|destruct (N.ltb_spec c 0x800); [|destruct (N.ltb_spec c 0x10000)]];
    cbn [fmap list_fmap]; (split; [|done]); rewrite ?not_elem_of_cons; split_and!;
    try (apply not_elem_of_nil); apply not_eq_sym, Hn.
  - lia.
  - assert (c / 0x40 < 0x20) by (apply N.Div0.div_lt_upper_bound; lia). lia.
  - specialize (Hm c). lia.
  - assert (c / 0x1000 < 0x10) by (apply N.Div0.div_lt_upper_bound; lia). lia.
  - specialize (Hm (c / 0x40)). lia.
  - specialize (Hm c). lia.
  - assert (c / 0x40000 < 0x8) by (apply N.Div0.div_lt_upper_bound; lia). lia.
  - specialize (Hm (c / 0x1000)). lia.
  - specialize (Hm (c / 0x40)). lia.
  - specialize (Hm c). lia.
Qed.

(** ** Reading native arguments back *)

Lemma string_of_display l :
  l ≠ [] → NUL ∉ l → str_is_empty (string_of l) = false ∧ str_contains NUL (string_of l) = false.
Proof.
  intros Hn Hl. split; [by destruct l|]. unfold str_contains. unfold string_of. rewrite bytes_string.
  apply existsb_false_elem. intros x Hx. apply bool_decide_eq_false. by intros ->.
Qed.

Section Readable.
Context `{Base64} (Hlaws : base64_lawful).

(** The reader's tests on the raw bytes before it renders them. *)
Lemma raw_bytes_accepted (raw : list u8) :
  raw ≠ [] → N.of_nat (length raw) <= MAX_PATH_BYTES →
  (MAX_PATH_BYTES * 2 <? str_len (base64_encode raw)) = false ∧
  base64_decode (base64_encode raw) = Some raw ∧
  (match raw with [] => true | _ => false end) || (MAX_PATH_BYTES <? N.of_nat (length raw))
    || (base64_encode raw ≠? base64_encode raw) = false.
Proof.
  intros Hn Hl. split_and!.
  - apply N.ltb_ge. pose proof (base64_length Hlaws raw). unfold MAX_PATH_BYTES in *. lia.
  - apply base64_roundtrip, Hlaws.
  - rewrite bool_decide_eq_true_2 by done. destruct raw; [done|]. cbn [orb negb]. rewrite orb_false_r.
    apply N.ltb_ge. done.
Qed.

Lemma path_display display raw :
  str_is_empty display = false ∧ str_contains NUL display = false → str_len display <= MAX_PATH_BYTES →
  is_none_or (raw_is_consistent display) raw = true →
  native_startup_path_is_consistent {| na_display := display; na_raw := raw |} = true.
Proof.
  intros [He Hc] Hl Hr. unfold native_startup_path_is_consistent. cbn [na_display na_raw].
  apply N.ltb_ge in Hl. rewrite He, Hc, Hl. by destruct raw.
Qed.

Lemma unix_argument_readable value :
  value ≠ [] → NUL ∉ value → N.of_nat (length (from_utf8_lossy value)) <= MAX_PATH_BYTES →
  native_startup_path_is_consistent (from_os_unix value) = true.
Proof.
  intros Hn Hz Hl. unfold from_os_unix. pose proof (from_utf8_lossy_length value) as Hlen.
  destruct (is_utf8 value) eqn:Eu.
  - apply path_display; [by apply string_of_display| |done].
    unfold string_of. rewrite str_len_string. by rewrite from_utf8_lossy_valid in Hl by done.
  - apply path_display.
    + apply string_of_display; [|by apply from_utf8_lossy_no_nul]. intros E. rewrite E in Hlen.
      destruct value; [done|]. cbn in Hlen. lia.
    + unfold string_of. by rewrite str_len_string.
    + cbn [is_none_or raw_is_consistent raw_encoding raw_data]. unfold raw_is_consistent. cbn [raw_encoding raw_data].
      destruct (raw_bytes_accepted value Hn) as (-> & -> & ->); [lia|].
      rewrite bool_decide_eq_true_2, bool_decide_eq_false_2, bool_decide_eq_true_2 by done. done.
Qed.

Lemma utf16_display_no_nul units :
  units ≠ [] → 0 ∉ units → Forall (λ w, w < 2 ^ 16) units →
  str_is_empty (utf16_lossy_string units) = false ∧ str_contains NUL (utf16_lossy_string units) = false.
Proof.
  intros Hn Hz Hw. pose proof (from_utf16_lossy_nonzero units Hz) as Hnz.
  pose proof (from_utf16_lossy_range units Hw) as Hr.
  assert (from_utf16_lossy units ≠ []) as Hne.
  { destruct units as [|u l]; [done|]. cbn. destruct (is_high_surrogate u); [|done].
    destruct l; [done|]. by destruct (is_low_surrogate _). }
  unfold utf16_lossy_string. generalize dependent (from_utf16_lossy units). intros cs Hnz Hr Hne.
  apply string_of_display.
  - destruct cs as [|c cs]; [done|]. apply Forall_cons in Hr as [Hc _]. apply not_elem_of_cons in Hnz as [Hc0 _].
    destruct (encode_utf8_no_nul c ltac:(done) Hc) as [_ He]. cbn. by destruct (encode_utf8 c).
  - intros (l & Hin & (c & -> & Hc)%list_elem_of_fmap)%list_elem_of_join. rewrite Forall_forall in Hr.
    destruct (encode_utf8_no_nul c ltac:(by intros ->) (Hr c Hc)) as [He _]. done.
Qed.

Lemma windows_argument_readable units :
  units ≠ [] → 0 ∉ units → Forall (λ w, w < 2 ^ 16) units →
  str_len (utf16_lossy_string units) <= MAX_PATH_BYTES → 2 * N.of_nat (length units) <= MAX_PATH_BYTES →
  native_startup_path_is_consistent (from_os_windows units) = true.
Proof.
  intros Hn Hz Hw Hl Hb. unfold from_os_windows.
  destruct (is_utf16 units); apply path_display; try done; try (by apply utf16_display_no_nul).
  cbn [is_none_or]. unfold raw_is_consistent. cbn [raw_encoding raw_data].
  destruct (raw_bytes_accepted (u16le_bytes units)) as (-> & -> & ->).
  - intros E. apply (f_equal length) in E. rewrite u16le_length in E. by destruct units.
  - rewrite u16le_length. lia.
  - rewrite bool_decide_eq_false_2, bool_decide_eq_true_2 by done. rewrite u16le_roundtrip by done.
    rewrite bool_decide_eq_false_2, bool_decide_eq_true_2 by done. done.
Qed.

(** Whatever bytes or sixteen-bit units an operating system hands over, the
    report's form of them passes the reader's check: the display is the standard
    library's lossy text, and where that loses information the raw form decodes to
    the very units it came from and renders to the same display. *)
Theorem native_argument_readable (value : list u8) (units : wide) :
  value ≠ [] → NUL ∉ value → N.of_nat (length (from_utf8_lossy value)) <= MAX_PATH_BYTES →
  units ≠ [] → 0 ∉ units → Forall (λ w, w < 2 ^ 16) units →
  str_len (utf16_lossy_string units) <= MAX_PATH_BYTES → 2 * N.of_nat (length units) <= MAX_PATH_BYTES →
  native_startup_path_is_consistent (from_os_unix value) = true ∧
  native_startup_path_is_consistent (from_os_windows units) = true.
Proof. intros. split; [by apply unix_argument_readable|by apply windows_argument_readable]. Qed.
End Readable.

(** ** Example: hexadecimal text in the place of base64 *)

Module NativeTextExamples.
Fixpoint hex_pairs (l : list u8) : option (list u8) :=
  match l with
  | a :: b :: rest =>
      match nibble a, nibble b, hex_pairs rest with
      | Ok x, Ok y, Some bytes => Some (ascii_of_N (16 * x + y) :: bytes)
      | _, _, _ => None
      end
  | [] => Some []
  | _ => None
  end.
#[local] Instance hexadecimal : Base64 := {|
  base64_encode := λ l, string_of (mjoin (hex_byte <$> l));
  base64_decode := λ s, hex_pairs (bytes s)
|}.
Lemma hexadecimal_lawful : base64_lawful.
Proof.
  split.
  - intros l. cbn. unfold string_of. rewrite bytes_string. induction l as [|b l IH]; [done|].
    change (mjoin (hex_byte <$> b :: l)) with (hex_byte b ++ mjoin (hex_byte <$> l)).
    destruct b as [[] [] [] [] [] [] [] []]; cbn [hex_byte app hex_pairs]; rewrite IH; vm_compute; reflexivity.
  - intros l. cbn. unfold string_of. rewrite str_len_string.
    assert (length (mjoin (hex_byte <$> l)) = 2 * length l)%nat as ->; [|lia].
    induction l as [|b l IH]; [done|]. change (mjoin (hex_byte <$> b :: l)) with (hex_byte b ++ mjoin (hex_byte <$> l)).
    rewrite length_app, IH. cbn. lia.
Qed.

Lemma native_argument_readable_witness :
  native_startup_path_is_consistent (from_os_unix (ascii_of_N 255 :: bytes "/bin")) = true ∧
  native_startup_path_is_consistent (from_os_windows [0xD800; 65]) = true.
Proof.
  apply (native_argument_readable hexadecimal_lawful (ascii_of_N 255 :: bytes "/bin") [0xD800; 65]).
  - discriminate.
  - intros Hin. apply (bool_decide_eq_true_2 _) in Hin. vm_compute in Hin. discriminate.
  - vm_compute. discriminate.
  - discriminate.
  - intros Hin. apply (bool_decide_eq_true_2 _) in Hin. vm_compute in Hin. discriminate.
  - repeat constructor.
  - vm_compute. discriminate.
  - vm_compute. discriminate.
Defined.
End NativeTextExamples.
