(* ===== verification/Netlink.v ===== *)
(** * The private network namespace

    network_netlink.rs and network_profile.rs of the Linux sealed agent: the
    bounded, sequence-checked NETLINK_ROUTE transport and the preparation of a
    private IPv4 namespace.  The kernel answers each call from the history of
    the calls before it, so it is an arbitrary environment, and the history is
    what the theorems speak of.  The byte order and the numbers of the C library
    are parameters.  A slice out of range is a panic. *)

From stdpp Require Import gmap.
From S2P Require Import Prelude Decimal Bounded Codec RecordLimits NativeText WorkloadContract LaunchRequest.
From Stdlib Require Import Ascii.

#[global] Instance NamespaceIdentity_eq_dec : EqDecision NamespaceIdentity.
Proof. solve_decision. Defined.

(** The numbers of the C library. *)
Class RouteLibc : Type := {
  RTM_NEWLINK : N; RTM_GETLINK : N; RTM_NEWADDR : N; RTM_GETADDR : N; RTM_NEWROUTE : N; RTM_GETROUTE : N;
  NLMSG_ERROR : N; NLMSG_DONE : N; NLM_F_REQUEST : N; NLM_F_MULTI : N; NLM_F_ACK : N; NLM_F_DUMP_INTR : N;
  NLM_F_EXCL : N; NLM_F_CREATE : N; NLM_F_DUMP : N;
  AF_NETLINK : N; AF_UNSPEC : N; AF_INET : N; ARPHRD_LOOPBACK : N; IFF_UP : N; IFF_LOOPBACK : N;
  IFLA_IFNAME : N; IFA_ADDRESS : N; IFA_LOCAL : N; RT_SCOPE_HOST : N; RT_SCOPE_LINK : N; RT_TABLE_LOCAL : N;
  RTPROT_KERNEL : N; RTN_LOCAL : N; RTN_BROADCAST : N;
  RTA_DST : N; RTA_OIF : N; RTA_PREFSRC : N; RTA_TABLE : N; RTA_PRIORITY : N; RTA_CACHEINFO : N;
  MSG_TRUNC : N; MSG_CTRUNC : N; SOCKADDR_NL_BYTES : N;
  big_endian : bool;
  (** the text of an error number *)
  os_error_text : Z → string
}.

Definition HEADER_LENGTH : N := 16.
Definition MAX_PACKET : N := 8192.
Definition MAX_MESSAGES : N := 64.
Definition MAX_DATAGRAMS : nat := 64.

(** An error, or a panic. *)
Inductive net_failure : Type := NetError (message : string) | NetPanic.
Abbreviation pureM := (result net_failure).
Definition nl_error (message : string) : net_failure := NetError ("MCSEALED-PRIVATE-NETLINK: " +:+ message).
Definition refuse (c : bool) (message : string) : pureM () := guard_err c (nl_error message).
(** [c || d] and [if c { return Err }] where evaluating [d] can panic *)
Definition lazy_or (c : bool) (d : pureM bool) : pureM bool := if c then Ok true else d.
Definition refuse_m (c : pureM bool) (message : string) : pureM () := b ← c; refuse b message.

Section Netlink.
Context `{RouteLibc}.

(** [as u16], [as u8] and [as u32] of a constant *)
Definition cast (w n : N) : N := n mod 2 ^ w.
(** [from_ne_bytes] and [to_ne_bytes] *)
Definition ne_uint (l : list u8) : N := if big_endian then from_be_bytes l else from_le_bytes l.
Definition ne_bytes (k : nat) (n : N) : list u8 := if big_endian then be_bytes k n else le_bytes k n.
Definition as_i32 (n : N) : Z := if (Z.of_N n <? 2 ^ 31)%Z then Z.of_N n else (Z.of_N n - 2 ^ 32)%Z.
Definition of_i32 (z : Z) : N := Z.to_N (z mod 2 ^ 32)%Z.

(** [&l[from..to]], [l[i]], and an integer read from a slice *)
Definition slice_at (l : list u8) (from to : N) : pureM (list u8) := ok_or NetPanic (get_range l from to).
Definition byte_at (l : list u8) (i : N) : pureM N := ok_or NetPanic (N_of_ascii <$> l !! N.to_nat i).
Definition uint_at (l : list u8) (from to : N) : pureM N := value ← slice_at l from to; Ok (ne_uint value).
(** [length.checked_add(3).map(|value| value & !3)] *)
Definition aligned_length (length : N) (message : string) : pureM N :=
  sum ← ok_or (nl_error message) (checked_add 64 length 3); Ok (N.ldiff sum 3).

Inductive DumpKind : Type := Links | Addresses | Routes.
Definition request_type (self : DumpKind) : N :=
  match self with Links => RTM_GETLINK | Addresses => RTM_GETADDR | Routes => RTM_GETROUTE end.
Definition response_type (self : DumpKind) : N :=
  match self with Links => RTM_NEWLINK | Addresses => RTM_NEWADDR | Routes => RTM_NEWROUTE end.
Definition request_body_length (self : DumpKind) : N := match self with Links => 16 | Addresses => 8 | Routes => 12 end.
Definition max_objects (self : DumpKind) : N := match self with Links => 8 | Addresses => 16 | Routes => 32 end.

(** ** Messages *)
Record NetlinkMessage : Type := { nm_kind : N; nm_flags : N; nm_payload : list u8 }.

(** One turn of the loop over a datagram, on the bytes not read yet: the
    message and the length it takes. *)
Definition parse_message (bytes : list u8) (sequence recipient_port_id : N) (count : N) : pureM (NetlinkMessage * N) :=
  let remaining := blen bytes in
  refuse (remaining <? HEADER_LENGTH) "short message header" ;;
  length ← uint_at bytes 0 4;
  aligned ← aligned_length length "message length overflow";
  refuse ((length <? HEADER_LENGTH) || (remaining <? length) || (remaining <? aligned)) "invalid message length" ;;
  kind ← uint_at bytes 4 6;
  flags ← uint_at bytes 6 8;
  observed_sequence ← uint_at bytes 8 12;
  recipient ← uint_at bytes 12 16;
  refuse (negb (observed_sequence =? sequence) || negb (recipient =? recipient_port_id)
          || negb (N.land flags (cast 16 NLM_F_DUMP_INTR) =? 0))
    "sequence, recipient, or dump integrity mismatch" ;;
  refuse (MAX_MESSAGES <=? count) "message bound exceeded" ;;
  payload ← slice_at bytes HEADER_LENGTH length;
  Ok ({| nm_kind := kind; nm_flags := flags; nm_payload := payload |}, aligned).
Fixpoint parse_messages (fuel : nat) (bytes : list u8) (sequence port : N) (messages : list NetlinkMessage)
    : pureM (list NetlinkMessage) :=
  if bool_decide (bytes = []) then Ok messages
  else match fuel with
       | O => Err NetPanic
       | S fuel =>
           '(message, aligned) ← parse_message bytes sequence port (N.of_nat (length messages));
           parse_messages fuel (drop (N.to_nat aligned) bytes) sequence port (messages ++ [message])
       end.
Definition parse_datagram (packet : list u8) (sequence recipient_port_id : N) : pureM (list NetlinkMessage) :=
  messages ← parse_messages (length packet) packet sequence recipient_port_id [];
  refuse (bool_decide (messages = [])) "empty datagram" ;;
  Ok messages.

Definition header (length kind flags sequence : N) : pureM (list u8) :=
  length ← ok_or (nl_error "request length overflow") (try_from 32 length);
  Ok (ne_bytes 4 length ++ ne_bytes 2 kind ++ ne_bytes 2 flags ++ ne_bytes 4 sequence ++ ne_bytes 4 0).

Definition kernel_errno (code : Z) : string :=
  if (code ≟ i32_min) || (0 <=? code)%Z then "invalid kernel errno" else os_error_text (- code).
Definition netlink_error (payload : list u8) : pureM string :=
  if blen payload <? 4 then Ok "MCSEALED-PRIVATE-NETLINK: short kernel error"%string
  else code ← uint_at payload 0 4;
       Ok ("MCSEALED-PRIVATE-NETLINK: kernel error: " +:+ kernel_errno (as_i32 code))%string.

(** ** Attributes *)
Definition parse_attribute (record : list u8) (count : N) : pureM (N * list u8 * N) :=
  refuse (blen record <? 4) "short attribute header" ;;
  length ← uint_at record 0 2;
  raw ← uint_at record 2 4;
  let kind := N.land raw 0x3fff in
  aligned ← aligned_length length "attribute length overflow";
  refuse ((length <? 4) || (blen record <? aligned) || (64 <=? count)) "invalid attribute length or count" ;;
  value ← slice_at record 4 length;
  Ok (kind, value, aligned).
Fixpoint attributes_from (fuel : nat) (record : list u8) (parsed : list (N * list u8)) : pureM (list (N * list u8)) :=
  if bool_decide (record = []) then Ok parsed
  else match fuel with
       | O => Err NetPanic
       | S fuel =>
           '(kind, value, aligned) ← parse_attribute record (N.of_nat (length parsed));
           attributes_from fuel (drop (N.to_nat aligned) record) (parsed ++ [(kind, value)])
       end.
Definition attributes (bytes : list u8) : pureM (list (N * list u8)) := attributes_from (length bytes) bytes [].

(** ** What a fresh namespace must contain *)
Fixpoint find_loopback_name (found : list (N * list u8)) (name_found : bool) : pureM bool :=
  match found with
  | [] => Ok name_found
  | (kind, value) :: found =>
      if kind =? IFLA_IFNAME then
        refuse (name_found || (value ≠? ["l"; "o"; NUL]%char)) "loopback name mismatch" ;;
        find_loopback_name found true
      else find_loopback_name found name_found
  end.
Definition loopback_index (links : list (list u8)) (require_up : bool) : pureM Z :=
  refuse (negb (length links =? 1)%nat) "expected one loopback link" ;;
  bytes ← ok_or NetPanic (links !! 0%nat);
  refuse_m (lazy_or (blen bytes <? 16) (family ← byte_at bytes 0; Ok (negb (family =? cast 8 AF_UNSPEC))))
    "invalid link header" ;;
  kind ← uint_at bytes 2 4;
  raw_index ← uint_at bytes 4 8;
  flags ← uint_at bytes 8 12;
  let index := as_i32 raw_index in
  refuse (negb (kind =? ARPHRD_LOOPBACK) || (index <=? 0)%Z || (N.land flags (cast 32 IFF_LOOPBACK) =? 0))
    "non-loopback link" ;;
  refuse (require_up && (N.land flags (cast 32 IFF_UP) =? 0)) "loopback not up" ;;
  rest ← slice_at bytes 16 (blen bytes);
  found ← attributes rest;
  name_found ← find_loopback_name found false;
  refuse (negb name_found) "loopback name absent" ;;
  Ok index.

Definition LOCALHOST : list u8 := ascii_of_N <$> [127; 0; 0; 1].
Fixpoint address_attributes (found : list (N * list u8)) (address_seen local_seen : bool) : pureM (bool * bool) :=
  match found with
  | [] => Ok (address_seen, local_seen)
  | (kind, value) :: found =>
      if (kind =? IFA_ADDRESS) || (kind =? IFA_LOCAL) then
        refuse (value ≠? LOCALHOST) "unexpected loopback address" ;;
        if kind =? IFA_ADDRESS then
          refuse address_seen "duplicate address attribute" ;; address_attributes found true local_seen
        else
          refuse local_seen "duplicate address attribute" ;; address_attributes found address_seen true
      else address_attributes found address_seen local_seen
  end.
Definition verify_loopback_addresses (addresses : list (list u8)) (index : Z) : pureM bool :=
  refuse (1 <? length addresses)%nat "unexpected address count" ;;
  match addresses with
  | [] => Ok false
  | bytes :: _ =>
      refuse_m (lazy_or (blen bytes <? 8)
                  (family ← byte_at bytes 0;
                   prefix ← byte_at bytes 1;
                   scope ← byte_at bytes 3;
                   owner ← uint_at bytes 4 8;
                   Ok (negb (family =? cast 8 AF_INET) || negb (prefix =? 8) || negb (scope =? RT_SCOPE_HOST)
                       || negb (owner =? of_i32 index))))
        "nonlocal or IPv6 address" ;;
      rest ← slice_at bytes 8 (blen bytes);
      found ← attributes rest;
      '(address_seen, local_seen) ← address_attributes found false false;
      refuse (negb address_seen || negb local_seen) "incomplete loopback address" ;;
      Ok true
  end.

(** A route's attributes: the destination and the output interface. *)
Fixpoint route_attributes (table : N) (found : list (N * list u8)) (destination : option (list u8)) (output : option N)
    : pureM (option (list u8) * option N) :=
  match found with
  | [] => Ok (destination, output)
  | (kind, value) :: found =>
      if kind =? RTA_DST then
        refuse (is_some destination) "duplicate destination" ;; route_attributes table found (Some value) output
      else if kind =? RTA_OIF then
        refuse (negb (blen value =? 4) || is_some output) "invalid output interface" ;;
        route_attributes table found destination (Some (ne_uint value))
      else if kind =? RTA_PREFSRC then
        refuse (value ≠? LOCALHOST) "nonlocal preferred source" ;; route_attributes table found destination output
      else if kind =? RTA_TABLE then
        refuse (negb (blen value =? 4) || negb (ne_uint value =? table)) "route table mismatch" ;;
        route_attributes table found destination output
      else if (kind =? RTA_PRIORITY) || (kind =? RTA_CACHEINFO) then route_attributes table found destination output
      else Err (nl_error "unreviewed route attribute")
  end.
(** The prefix, the kind and the destination of a route. *)
Definition route_key : Type := N * N * list N.
Definition verify_route (bytes : list u8) (index : Z) : pureM route_key :=
  refuse_m (lazy_or (blen bytes <? 12) (family ← byte_at bytes 0; Ok (negb (family =? cast 8 AF_INET)))) "non-IPv4 route" ;;
  prefix ← byte_at bytes 1;
  source ← byte_at bytes 2;
  table ← byte_at bytes 4;
  protocol ← byte_at bytes 5;
  scope ← byte_at bytes 6;
  route_kind ← byte_at bytes 7;
  refuse (negb ((8 <=? prefix) && (prefix <=? 32)) || negb (source =? 0) || negb (table =? RT_TABLE_LOCAL)
          || negb (protocol =? RTPROT_KERNEL) || negb ((route_kind =? RTN_LOCAL) || (route_kind =? RTN_BROADCAST))
          || negb (scope =? if route_kind =? RTN_LOCAL then RT_SCOPE_HOST else RT_SCOPE_LINK))
    "route scope mismatch" ;;
  rest ← slice_at bytes 12 (blen bytes);
  found ← attributes rest;
  '(destination, output) ← route_attributes table found None None;
  destination ← ok_or (nl_error "route destination absent") destination;
  refuse_m (lazy_or (negb (blen destination =? 4))
              (first ← byte_at destination 0; Ok (negb (first =? 127) || (output ≠? Some (of_i32 index)))))
    "route escapes loopback" ;;
  Ok (prefix, route_kind, N_of_ascii <$> destination).
Fixpoint verify_routes (routes : list (list u8)) (index : Z) (observed : gset route_key) : pureM (gset route_key) :=
  match routes with
  | [] => Ok observed
  | bytes :: routes =>
      key ← verify_route bytes index;
      refuse (bool_decide (key ∈ observed)) "duplicate loopback route" ;;
      verify_routes routes index ({[key]} ∪ observed)
  end.
Definition automatic_routes : gset route_key :=
  {[(8, RTN_LOCAL, [127; 0; 0; 0]); (32, RTN_LOCAL, [127; 0; 0; 1]); (32, RTN_BROADCAST, [127; 255; 255; 255])]}.
Definition verify_loopback_routes (routes : list (list u8)) (index : Z) : pureM () :=
  refuse (bool_decide (routes = []) || (max_objects Routes <? N.of_nat (length routes))) "incomplete route inventory" ;;
  observed ← verify_routes routes index ∅;
  refuse (observed ≠? automatic_routes) "exact automatic loopback route inventory differs".
End Netlink.

(** ** Calls to the kernel *)

(** A call's return value and the text of [errno] after it. *)
Definition native_result : Type := Z * string.
Record BoundName : Type := { bn_result : Z; bn_length : N; bn_family : N; bn_pid : N; bn_groups : N }.
Record Reception : Type := {
  rc_result : native_result; rc_name_length : N; rc_family : N; rc_pid : N; rc_groups : N; rc_flags : N;
  rc_buffer : list u8
}.
Inductive sysctl_failure : Type := OpenFailed (text : string) | IoFailed (text : string).

Inductive net_event : Type :=
| Ev_Namespace (reply : result string NamespaceIdentity)
| Ev_Write (path : string) (value : list u8) (reply : result sysctl_failure ())
| Ev_Read (path : string) (reply : result sysctl_failure (list u8))
| Ev_Socket (reply : native_result)
| Ev_Bind (reply : native_result)
| Ev_Name (reply : BoundName)
| Ev_Timeout (seconds : N) (reply : native_result)
| Ev_Send (packet : list u8) (reply : native_result)
| Ev_Receive (reply : Reception).
Abbreviation history := (list net_event).

(** What the kernel answers, given every call before.  [file.take(n)] has read
    at most [n] bytes; [rc_buffer] is the buffer of [MAX_PACKET] bytes after recvmsg. *)
Class NetHost : Type := {
  answer_namespace : history → result string NamespaceIdentity;
  answer_write : history → string → list u8 → result sysctl_failure ();
  answer_read : history → string → N → result sysctl_failure (list u8);
  answer_socket : history → native_result;
  answer_bind : history → native_result;
  answer_name : history → BoundName;
  answer_timeout : history → native_result;
  answer_send : history → list u8 → native_result;
  answer_receive : history → Reception
}.
Abbreviation netM := (stM history net_failure).

Section Setup.
Context `{RouteLibc} `{NetHost}.

Definition call {R} (answer : history → R) (event : R → net_event) : netM R :=
  λ h, let reply := answer h in (h ++ [event reply], Ok reply).
Definition native_error {A} (operation text : string) : pureM A := Err (nl_error (operation +:+ ": " +:+ text)).
Definition check_native (reply : native_result) (operation : string) : pureM () :=
  if (reply.1 <? 0)%Z then native_error operation reply.2 else Ok ().

Record RouteNetlink : Type := { rn_port_id : N; rn_sequence : N }.
Definition open_route : netM RouteNetlink :=
  fd ← call answer_socket Ev_Socket;
  st_lift (check_native fd "NETLINK_ROUTE socket") ≫= λ _,
  bound ← call answer_bind Ev_Bind;
  st_lift (check_native bound "NETLINK_ROUTE bind") ≫= λ _,
  name ← call answer_name Ev_Name;
  st_lift (refuse ((bn_result name <? 0)%Z || negb (bn_length name =? SOCKADDR_NL_BYTES)
                   || negb (bn_family name =? cast 16 AF_NETLINK) || (bn_pid name =? 0) || negb (bn_groups name =? 0))
             "local port identity absent") ≫= λ _,
  timeout ← call answer_timeout (Ev_Timeout 5);
  st_lift (check_native timeout "NETLINK_ROUTE receive timeout") ≫= λ _,
  mret {| rn_port_id := bn_pid name; rn_sequence := 0 |}.

Definition send (packet : list u8) : netM () :=
  sent ← call (λ h, answer_send h packet) (Ev_Send packet);
  st_lift (if sent.1 ≠? Z.of_N (blen packet) then native_error "NETLINK_ROUTE send" sent.2 else Ok ()).
Definition receive : netM (list u8) :=
  message ← call answer_receive Ev_Receive;
  st_lift (if (fst (rc_result message) <=? 0)%Z then native_error "NETLINK_ROUTE receive" (snd (rc_result message)) else Ok ()) ≫= λ _,
  st_lift (refuse (negb (rc_name_length message =? SOCKADDR_NL_BYTES) || negb (rc_family message =? cast 16 AF_NETLINK)
                   || negb (rc_pid message =? 0) || negb (rc_groups message =? 0)
                   || negb (N.land (rc_flags message) (N.lor MSG_TRUNC MSG_CTRUNC) =? 0))
             "sender or packet truncation mismatch") ≫= λ _,
  let received := Z.to_N (fst (rc_result message)) in
  st_lift (slice_at (rc_buffer message) 0 received).

(** [next_sequence]: the socket with the next number. *)
Definition next_sequence (self : RouteNetlink) : pureM RouteNetlink :=
  sequence ← ok_or (nl_error "sequence exhausted") (checked_add 32 (rn_sequence self) 1);
  Ok {| rn_port_id := rn_port_id self; rn_sequence := sequence |}.

(** The objects of one datagram, and whether the dump is complete. *)
Fixpoint dump_messages (kind : DumpKind) (messages : list NetlinkMessage) (result : list (list u8))
    : pureM (bool * list (list u8)) :=
  match messages with
  | [] => Ok (false, result)
  | message :: rest =>
      if nm_kind message =? cast 16 NLMSG_DONE then
        refuse (negb (bool_decide (rest = []))) "data after dump completion" ;;
        refuse_m (lazy_or (blen (nm_payload message) <? 4)
                    (status ← uint_at (nm_payload message) 0 4; Ok (negb (as_i32 status =? 0)%Z)))
          "dump terminated with error" ;;
        Ok (true, result)
      else if nm_kind message =? cast 16 NLMSG_ERROR then
        text ← netlink_error (nm_payload message); Err (NetError text)
      else if nm_kind message =? response_type kind then
        refuse (N.land (nm_flags message) (cast 16 NLM_F_MULTI) =? 0) "non-multipart dump object" ;;
        refuse (max_objects kind <=? N.of_nat (length result)) "topology bound exceeded" ;;
        dump_messages kind rest (result ++ [nm_payload message])
      else Err (nl_error "unexpected dump object")
  end.
Fixpoint dump_datagrams (count : nat) (kind : DumpKind) (self : RouteNetlink) (result : list (list u8))
    : netM (list (list u8)) :=
  match count with
  | O => st_lift (Err (nl_error "incomplete dump"))
  | S count =>
      packet ← receive;
      messages ← st_lift (parse_datagram packet (rn_sequence self) (rn_port_id self));
      '(complete, result) ← st_lift (dump_messages kind messages result);
      if (complete : bool) then mret result else dump_datagrams count kind self result
  end.
Definition dump_request (kind : DumpKind) (sequence : N) : pureM (list u8) :=
  request ← header (HEADER_LENGTH + request_body_length kind) (request_type kind)
              (cast 16 (N.lor NLM_F_REQUEST NLM_F_DUMP)) sequence;
  Ok (resize (N.to_nat (HEADER_LENGTH + request_body_length kind)) NUL request).
Definition dump (kind : DumpKind) (self : RouteNetlink) : netM (RouteNetlink * list (list u8)) :=
  self ← st_lift (next_sequence self);
  request ← st_lift (dump_request kind (rn_sequence self));
  send request ≫= λ _,
  result ← dump_datagrams MAX_DATAGRAMS kind self [];
  mret (self, result).

Definition send_ack (request : list u8) (self : RouteNetlink) : netM () :=
  send request ≫= λ _,
  packet ← receive;
  messages ← st_lift (parse_datagram packet (rn_sequence self) (rn_port_id self));
  st_lift (refuse (match messages with [message] => negb (nm_kind message =? cast 16 NLMSG_ERROR) | _ => true end)
             "missing exact mutation acknowledgment") ≫= λ _,
  message ← st_lift (ok_or NetPanic (head messages));
  st_lift (refuse (blen (nm_payload message) <? 4) "short mutation acknowledgment") ≫= λ _,
  code ← st_lift (uint_at (nm_payload message) 0 4);
  st_lift (if (as_i32 code =? 0)%Z then Ok () else Err (nl_error ("mutation: " +:+ kernel_errno (as_i32 code)))).
Definition set_loopback_up (interface_index : Z) (self : RouteNetlink) : netM RouteNetlink :=
  st_lift (refuse (interface_index <=? 0)%Z "invalid loopback interface index") ≫= λ _,
  self ← st_lift (next_sequence self);
  request ← st_lift (header (HEADER_LENGTH + 16) RTM_NEWLINK (cast 16 (N.lor NLM_F_REQUEST NLM_F_ACK)) (rn_sequence self));
  send_ack (request ++ [ascii_of_N (cast 8 AF_UNSPEC); NUL] ++ ne_bytes 2 ARPHRD_LOOPBACK
            ++ ne_bytes 4 (of_i32 interface_index) ++ ne_bytes 4 (cast 32 IFF_UP) ++ ne_bytes 4 (cast 32 IFF_UP)) self ≫= λ _,
  mret self.
Definition add_loopback_address (interface_index : Z) (self : RouteNetlink) : netM RouteNetlink :=
  st_lift (refuse (interface_index <? 0)%Z "invalid loopback interface index") ≫= λ _,
  let index := Z.to_N interface_index in
  st_lift (refuse (index =? 0) "invalid loopback interface index") ≫= λ _,
  self ← st_lift (next_sequence self);
  request ← st_lift (header (HEADER_LENGTH + 8 + 16) RTM_NEWADDR
                       (cast 16 (N.lor (N.lor (N.lor NLM_F_REQUEST NLM_F_ACK) NLM_F_CREATE) NLM_F_EXCL)) (rn_sequence self));
  let attribute kind := ne_bytes 2 8 ++ ne_bytes 2 kind ++ LOCALHOST in
  send_ack (request ++ (ascii_of_N <$> [cast 8 AF_INET; 8; 0; RT_SCOPE_HOST]) ++ ne_bytes 4 index
            ++ attribute IFA_ADDRESS ++ attribute IFA_LOCAL) self ≫= λ _,
  mret self.

(** ** network_profile.rs *)
Definition UNPRIVILEGED_PORT_START : string := "/proc/sys/net/ipv4/ip_unprivileged_port_start".
Definition LOCAL_PORT_RANGE : string := "/proc/sys/net/ipv4/ip_local_port_range".
Definition LOCAL_RESERVED_PORTS : string := "/proc/sys/net/ipv4/ip_local_reserved_ports".
Definition IPV6_ALL_DISABLED : string := "/proc/sys/net/ipv6/conf/all/disable_ipv6".
Definition IPV6_DEFAULT_DISABLED : string := "/proc/sys/net/ipv6/conf/default/disable_ipv6".
Definition IPV6_LOOPBACK_DISABLED : string := "/proc/sys/net/ipv6/conf/lo/disable_ipv6".
Definition IPV6_PATHS : list string := [IPV6_ALL_DISABLED; IPV6_DEFAULT_DISABLED; IPV6_LOOPBACK_DISABLED].
Definition MAX_SYSCTL_READ : N := 64.
Definition NEWLINE : u8 := ascii_of_N 10.

Record PrivatePortPolicy : Type := {
  pp_unprivileged_port_start : N; pp_local_port_range : N * N; pp_reserved_ports_empty : bool
}.
#[global] Instance PrivatePortPolicy_eq_dec : EqDecision PrivatePortPolicy.
Proof. solve_decision. Defined.
Definition REQUIRED : PrivatePortPolicy :=
  {| pp_unprivileged_port_start := 0; pp_local_port_range := (32768, 60999); pp_reserved_ports_empty := true |}.
Record PrivateNetworkSetup : Type := {
  pn_port_policy : PrivatePortPolicy; pn_loopback_index : Z; pn_address_count : nat; pn_route_count : nat
}.

Definition network_failure (message : string) : net_failure := NetError ("MCSEALED-PRIVATE-NETWORK: " +:+ message).
Definition refuse_network (c : bool) (message : string) : pureM () := guard_err c (network_failure message).

(** [str::trim]: the encodings of the White_Space characters, at either end. *)
Definition white_space : list (list u8) :=
  map (map ascii_of_N)
    ([[9]; [10]; [11]; [12]; [13]; [32]; [0xC2; 0x85]; [0xC2; 0xA0]; [0xE1; 0x9A; 0x80]]
     ++ map (λ k, [0xE2; 0x80; 0x80 + N.of_nat k]) (seq 0 11)
     ++ [[0xE2; 0x80; 0xA8]; [0xE2; 0x80; 0xA9]; [0xE2; 0x80; 0xAF]; [0xE2; 0x81; 0x9F]; [0xE3; 0x80; 0x80]]).
Fixpoint strip_first (spaces : list (list u8)) (l : list u8) : option (list u8) :=
  match spaces with
  | [] => None
  | space :: spaces => match strip_prefix space l with Some rest => Some rest | None => strip_first spaces l end
  end.
Fixpoint trim_front (fuel : nat) (spaces : list (list u8)) (l : list u8) : list u8 :=
  match fuel with
  | O => l
  | S fuel => match strip_first spaces l with Some rest => trim_front fuel spaces rest | None => l end
  end.
Definition trim (l : list u8) : list u8 :=
  let l := trim_front (length l) white_space l in rev (trim_front (length l) (map (@rev u8) white_space) (rev l)).

(** [split_ascii_whitespace] *)
Definition is_ascii_whitespace (b : u8) : bool := existsb (N.eqb (N_of_ascii b)) [9; 10; 12; 13; 32].
Fixpoint ascii_words (current l : list u8) : list (list u8) :=
  match l with
  | [] => if bool_decide (current = []) then [] else [current]
  | b :: l =>
      if is_ascii_whitespace b then (if bool_decide (current = []) then [] else [current]) ++ ascii_words [] l
      else ascii_words (current ++ [b]) l
  end.
Definition split_ascii_whitespace (l : list u8) : list (list u8) := ascii_words [] l.
Definition parse_u16 (l : list u8) : option N := parse_uint 16 (String.string_of_list_ascii l).

Definition parse_private_port_policy (unprivileged range reserved : list u8) : pureM PrivatePortPolicy :=
  unprivileged_port_start ← ok_or (network_failure "invalid unprivileged port start") (parse_u16 (trim unprivileged));
  let tokens := split_ascii_whitespace range in
  low ← ok_or (network_failure "missing local port range start") (tokens !! 0%nat);
  low ← ok_or (network_failure "invalid local port range start") (parse_u16 low);
  high ← ok_or (network_failure "missing local port range end") (tokens !! 1%nat);
  high ← ok_or (network_failure "invalid local port range end") (parse_u16 high);
  refuse_network (is_some (tokens !! 2%nat) || (low =? 0) || (high <? low)) "malformed local port range" ;;
  Ok {| pp_unprivileged_port_start := unprivileged_port_start; pp_local_port_range := (low, high);
        pp_reserved_ports_empty := bool_decide (trim reserved = []) |}.

Definition current_network_namespace : netM NamespaceIdentity :=
  reply ← call answer_namespace Ev_Namespace;
  st_lift (map_err (λ error, network_failure ("netns identity: " +:+ error)) reply).
Definition sysctl_error (path verb : string) (failure : sysctl_failure) : net_failure :=
  match failure with
  | OpenFailed error => network_failure ("sysctl open " +:+ path +:+ ": " +:+ error)
  | IoFailed error => network_failure ("sysctl " +:+ verb +:+ " " +:+ path +:+ ": " +:+ error)
  end.
Definition read_sysctl (path : string) : netM (list u8) :=
  reply ← call (λ h, answer_read h path (MAX_SYSCTL_READ + 1)) (Ev_Read path);
  bytes ← st_lift (map_err (sysctl_error path "read") reply);
  st_lift (refuse_network (MAX_SYSCTL_READ <? blen bytes) ("sysctl overlong " +:+ path)) ≫= λ _,
  st_lift (refuse_network (negb (is_utf8 bytes)) ("sysctl not UTF-8 " +:+ path)) ≫= λ _,
  mret bytes.
Definition write_sysctl (path : string) (value : list u8) : netM () :=
  reply ← call (λ h, answer_write h path value) (Ev_Write path value);
  st_lift (map_err (sysctl_error path "write") reply).

Definition require_fresh_network_namespace (caller_namespace provider_namespace : NamespaceIdentity) : netM NamespaceIdentity :=
  target_namespace ← current_network_namespace;
  st_lift (refuse_network ((target_namespace ≟ caller_namespace) || (target_namespace ≟ provider_namespace))
             "target did not enter a fresh network namespace") ≫= λ _,
  mret target_namespace.
Definition read_private_port_policy : netM PrivatePortPolicy :=
  unprivileged ← read_sysctl UNPRIVILEGED_PORT_START;
  range ← read_sysctl LOCAL_PORT_RANGE;
  reserved ← read_sysctl LOCAL_RESERVED_PORTS;
  st_lift (parse_private_port_policy unprivileged range reserved).
Definition configure_private_port_policy (caller_namespace provider_namespace : NamespaceIdentity) : netM PrivatePortPolicy :=
  target_namespace ← require_fresh_network_namespace caller_namespace provider_namespace;
  write_sysctl UNPRIVILEGED_PORT_START (bytes "0" ++ [NEWLINE]) ≫= λ _,
  write_sysctl LOCAL_PORT_RANGE (bytes "32768 60999" ++ [NEWLINE]) ≫= λ _,
  write_sysctl LOCAL_RESERVED_PORTS [NEWLINE] ≫= λ _,
  policy ← read_private_port_policy;
  st_lift (refuse_network (policy ≠? REQUIRED) "namespace-local port policy readback mismatch") ≫= λ _,
  current ← current_network_namespace;
  st_lift (refuse_network (current ≠? target_namespace) "network namespace changed during setup") ≫= λ _,
  mret policy.

Definition ONE : list u8 := bytes "1".
Definition disable_ipv6 (path : string) : netM () :=
  write_sysctl path (ONE ++ [NEWLINE]) ≫= λ _,
  value ← read_sysctl path;
  st_lift (refuse_network (trim value ≠? ONE) ("IPv6 disable readback mismatch " +:+ path)).
Definition check_ipv6 (path : string) : netM () :=
  value ← read_sysctl path;
  st_lift (refuse_network (trim value ≠? ONE) ("IPv6 changed after setup " +:+ path)).

Definition prepare_loopback : netM (Z * list (list u8) * list (list u8)) :=
  route ← open_route;
  '(route, links) ← dump Links route;
  index ← st_lift (loopback_index links false);
  route ← set_loopback_up index route;
  '(route, links) ← dump Links route;
  again ← st_lift (loopback_index links true);
  st_lift (refuse_network (again ≠? index) "loopback identity changed") ≫= λ _,
  '(route, addresses) ← dump Addresses route;
  present ← st_lift (verify_loopback_addresses addresses index);
  route ← (if (present : bool) then mret route else add_loopback_address index route);
  '(route, addresses) ← dump Addresses route;
  present ← st_lift (verify_loopback_addresses addresses index);
  st_lift (refuse_network (negb present) "loopback address absent") ≫= λ _,
  '(_, routes) ← dump Routes route;
  st_lift (verify_loopback_routes routes index) ≫= λ _,
  mret (index, addresses, routes).
Definition prepare_private_ipv4_network (caller_namespace provider_namespace : NamespaceIdentity) : netM PrivateNetworkSetup :=
  target_namespace ← require_fresh_network_namespace caller_namespace provider_namespace;
  st_for disable_ipv6 IPV6_PATHS ≫= λ _,
  '(index, addresses, routes) ← prepare_loopback;
  port_policy ← configure_private_port_policy caller_namespace provider_namespace;
  st_for check_ipv6 IPV6_PATHS ≫= λ _,
  current ← current_network_namespace;
  st_lift (refuse_network (current ≠? target_namespace) "network namespace changed after setup") ≫= λ _,
  mret {| pn_port_policy := port_policy; pn_loopback_index := index; pn_address_count := length addresses;
          pn_route_count := length routes |}.
End Setup.

(** ** Slices and integers *)
Section Reading.
Context `{RouteLibc}.

Lemma length_ne_bytes k n : length (ne_bytes k n) = k.
Proof. unfold ne_bytes. destruct big_endian; [apply length_be_bytes|apply length_le_bytes]. Qed.
Lemma ne_uint_bytes k n : n < 256 ^ N.of_nat k → ne_uint (ne_bytes k n) = n.
Proof. unfold ne_uint, ne_bytes. destruct big_endian; [apply from_be_bytes_encode|apply from_le_bytes_encode]. Qed.
Lemma ne_bytes_uint l : ne_bytes (length l) (ne_uint l) = l.
Proof. unfold ne_uint, ne_bytes. destruct big_endian; [apply be_bytes_decode|apply le_bytes_decode]. Qed.
Lemma ne_uint_bound l : ne_uint l < 256 ^ N.of_nat (length l).
Proof. unfold ne_uint. destruct big_endian; [apply from_be_bytes_bound|apply from_le_bytes_bound]. Qed.

Lemma blen_app a b : blen (a ++ b) = blen a + blen b.
Proof. unfold blen. rewrite length_app. lia. Qed.
(** Inside its bounds a slice is read, at its place. *)
Lemma slice_at_ok l from to : from <= to → to <= blen l →
  slice_at l from to = Ok (take (N.to_nat (to - from)) (drop (N.to_nat from) l)).
Proof. intros Hf Ht. unfold slice_at, get_range. by rewrite (proj2 (N.leb_le _ _) Hf), (proj2 (N.leb_le _ _) Ht). Qed.
Lemma slice_at_split a b c : slice_at (a ++ b ++ c) (blen a) (blen a + blen b) = Ok b.
Proof.
  rewrite slice_at_ok; [|lia|rewrite !blen_app; lia]. unfold blen. rewrite Nat2N.id, drop_app_length.
  replace (N.to_nat _) with (length b) by lia. by rewrite take_app_length.
Qed.
Lemma byte_at_ok l i : i < blen l → ∃ b, l !! N.to_nat i = Some b ∧ byte_at l i = Ok (N_of_ascii b).
Proof.
  unfold blen, byte_at. intros Hi. destruct (lookup_lt_is_Some_2 l (N.to_nat i)) as [b E]; [lia|]. exists b. split; [exact E|].
  transitivity (ok_or (E := net_failure) NetPanic (N_of_ascii <$> Some b)); [|done]. do 2 f_equal. exact E.
Qed.

(** The rounding of a length to the next multiple of four. *)
Definition padding (length : N) : N := (4 - length mod 4) mod 4.
Lemma align_pad n : N.ldiff (n + 3) 3 = n + padding n.
Proof.
  change 3 with (N.ones 2) at 2. rewrite N.ldiff_ones_r, N.shiftr_div_pow2, N.shiftl_mul_pow2. unfold padding.
  change (2 ^ 2) with 4. pose proof (N.div_mod' n 4). pose proof (N.mod_lt n 4 ltac:(lia)).
  destruct (decide (n mod 4 = 0)) as [E|E].
  - rewrite E. change ((4 - 0) mod 4) with 0. replace ((n + 3) / 4) with (n / 4); [lia|].
    apply (N.div_unique _ _ _ 3); lia.
  - rewrite (N.mod_small (4 - n mod 4)) by lia. replace ((n + 3) / 4) with (n / 4 + 1); [lia|].
    apply (N.div_unique _ _ _ (n mod 4 - 1)); lia.
Qed.
Lemma padding_small n : padding n < 4.
Proof. unfold padding. apply N.mod_lt. lia. Qed.
Lemma aligned_length_ok n message : n < 2 ^ 32 → aligned_length n message = Ok (n + padding n).
Proof.
  intros Hn. unfold aligned_length. rewrite (proj2 (checked_add_Some 64 n 3 (n + 3))) by lia. cbn [ok_or mbind result_bind].
  by rewrite align_pad.
Qed.
End Reading.

(** ** The layout of a datagram *)
Section Layout.
Context `{RouteLibc}.

Lemma uint_at_ok l from to : from <= to → to <= blen l →
  uint_at l from to = Ok (ne_uint (take (N.to_nat (to - from)) (drop (N.to_nat from) l))).
Proof. intros Hf Ht. unfold uint_at. by rewrite slice_at_ok. Qed.
(** A piece of known place and length. *)
Lemma uint_at_piece l pre k n post from to : l = pre ++ ne_bytes k n ++ post →
  blen pre = from → from + N.of_nat k = to → n < 256 ^ N.of_nat k → uint_at l from to = Ok n.
Proof.
  intros -> <- <- Hn. unfold uint_at. replace (N.of_nat k) with (blen (ne_bytes k n)) by (unfold blen; by rewrite length_ne_bytes).
  rewrite slice_at_split. cbn. f_equal. by apply ne_uint_bytes.
Qed.
(** A piece that was read. *)
Lemma take_piece k l : (k <= length l)%nat → l = ne_bytes k (ne_uint (take k l)) ++ drop k l.
Proof.
  intros Hk. rewrite <- (take_drop k l) at 1. f_equal. rewrite <- (ne_bytes_uint (take k l)) at 1. by rewrite length_take_le.
Qed.

(** What the kernel puts on the wire for one message. *)
Definition message_bytes (sequence port : N) (m : NetlinkMessage) (pad : list u8) : list u8 :=
  ne_bytes 4 (16 + blen (nm_payload m)) ++ ne_bytes 2 (nm_kind m) ++ ne_bytes 2 (nm_flags m) ++ ne_bytes 4 sequence
  ++ ne_bytes 4 port ++ nm_payload m ++ pad.
Record message_ok (m : NetlinkMessage) (pad : list u8) : Prop := {
  mo_length : 16 + blen (nm_payload m) < 2 ^ 32;
  mo_kind : nm_kind m < 2 ^ 16;
  mo_flags : nm_flags m < 2 ^ 16;
  mo_intact : N.land (nm_flags m) (cast 16 NLM_F_DUMP_INTR) = 0;
  mo_pad : blen pad = padding (16 + blen (nm_payload m))
}.
Lemma blen_message sequence port m pad : message_ok m pad →
  blen (message_bytes sequence port m pad) = 16 + blen (nm_payload m) + padding (16 + blen (nm_payload m)).
Proof.
  intros Hm. unfold message_bytes. rewrite !blen_app, (mo_pad _ _ Hm). unfold blen. rewrite !length_ne_bytes. lia.
Qed.

Ltac at_piece input pre :=
  eapply (uint_at_piece _ pre);
  [unfold input, message_bytes; rewrite <- ?(assoc_L (++)); cbn [app]; reflexivity
  |unfold blen; rewrite ?length_app, ?length_ne_bytes; reflexivity|reflexivity|assumption].
Lemma parse_message_written sequence port m pad rest count : sequence < 2 ^ 32 → port < 2 ^ 32 → message_ok m pad → count < 64 →
  parse_message (message_bytes sequence port m pad ++ rest) sequence port count =
  Ok (m, blen (message_bytes sequence port m pad)).
Proof.
  intros Hs Hp Hm Hc. pose proof (blen_message sequence port m pad Hm) as Hl. unfold parse_message.
  destruct Hm as [G1 G2 G3 G4 G5]. set (len := 16 + blen (nm_payload m)) in *.
  set (input := message_bytes sequence port m pad ++ rest).
  assert (blen input = len + padding len + blen rest) as El by (unfold input; rewrite blen_app, Hl; reflexivity).
  assert (uint_at input 0 4 = Ok len) as -> by at_piece input (@nil u8).
  assert (uint_at input 4 6 = Ok (nm_kind m)) as -> by at_piece input (ne_bytes 4 len).
  assert (uint_at input 6 8 = Ok (nm_flags m)) as -> by at_piece input (ne_bytes 4 len ++ ne_bytes 2 (nm_kind m)).
  assert (uint_at input 8 12 = Ok sequence) as ->
    by at_piece input (ne_bytes 4 len ++ ne_bytes 2 (nm_kind m) ++ ne_bytes 2 (nm_flags m)).
  assert (uint_at input 12 16 = Ok port) as ->
    by at_piece input (ne_bytes 4 len ++ ne_bytes 2 (nm_kind m) ++ ne_bytes 2 (nm_flags m) ++ ne_bytes 4 sequence).
  assert (slice_at input 16 len = Ok (nm_payload m)) as Es.
  { pose proof (slice_at_split (ne_bytes 4 len ++ ne_bytes 2 (nm_kind m) ++ ne_bytes 2 (nm_flags m) ++ ne_bytes 4 sequence
      ++ ne_bytes 4 port) (nm_payload m) (pad ++ rest)) as E. rewrite !blen_app in E.
    change (blen (ne_bytes 4 len)) with (blen (ne_bytes 4 len)) in E. unfold blen in E at 1 2 3 4 5 6 7 8 9 10.
    rewrite !length_ne_bytes in E. unfold input, message_bytes. rewrite <- !(assoc_L (++)) in *. exact E. }
  unfold refuse, HEADER_LENGTH, MAX_MESSAGES. cbn [mbind result_bind]. rewrite aligned_length_ok by done. cbn [mbind result_bind].
  rewrite El.
  rewrite (proj2 (N.ltb_ge (_ + _ + _) 16)), (proj2 (N.ltb_ge len 16)), (proj2 (N.ltb_ge (_ + _ + _) len)),
    (proj2 (N.ltb_ge (_ + _ + _) (len + _))), (proj2 (N.leb_gt 64 count))
    by (unfold len; lia).
  cbn [orb negb guard_err mbind result_bind]. rewrite !N.eqb_refl, G4. cbn [negb orb N.eqb guard_err mbind result_bind].
  rewrite Es, Hl. by destruct m.
Qed.

Lemma take_field from k l : (from + k <= length l)%nat →
  drop from l = ne_bytes k (ne_uint (take k (drop from l))) ++ drop (from + k) l.
Proof. intros Hk. rewrite (take_piece k (drop from l)) at 1 by (rewrite length_drop; lia). by rewrite drop_drop. Qed.
Lemma field_bound k l : ne_uint (take k l) < 256 ^ N.of_nat k.
Proof.
  pose proof (ne_uint_bound (take k l)) as Hb. rewrite length_take in Hb.
  eapply N.lt_le_trans; [exact Hb|]. apply N.pow_le_mono_r; lia.
Qed.
Lemma header_split input : (16 <= length input)%nat →
  input = ne_bytes 4 (ne_uint (take 4 input)) ++ ne_bytes 2 (ne_uint (take 2 (drop 4 input)))
    ++ ne_bytes 2 (ne_uint (take 2 (drop 6 input))) ++ ne_bytes 4 (ne_uint (take 4 (drop 8 input)))
    ++ ne_bytes 4 (ne_uint (take 4 (drop 12 input))) ++ drop 16 input.
Proof.
  intros Hl. rewrite <- (take_field 12 4), <- (take_field 8 4), <- (take_field 6 2), <- (take_field 4 2) by lia.
  apply (take_piece 4). lia.
Qed.
(** The payload and the padding of a message of [len] bytes. *)
Lemma tail_split input len : 16 <= len → len + padding len <= blen input →
  ∃ payload pad rest, slice_at input 16 len = Ok payload ∧ drop 16 input = payload ++ pad ++ rest ∧
    blen payload = len - 16 ∧ blen pad = padding len.
Proof.
  intros G1 G2. exists (take (N.to_nat (len - 16)) (drop 16 input)), (take (N.to_nat (padding len)) (drop (N.to_nat len) input)),
    (drop (N.to_nat (len + padding len)) input).
  unfold blen in *. split; [apply slice_at_ok; unfold blen; lia|]. split.
  - rewrite <- (take_drop (N.to_nat (len - 16)) (drop 16 input)) at 1. f_equal. rewrite drop_drop.
    replace (16 + N.to_nat (len - 16))%nat with (N.to_nat len) by lia.
    rewrite <- (take_drop (N.to_nat (padding len)) (drop (N.to_nat len) input)) at 1. f_equal. rewrite drop_drop. f_equal. lia.
  - rewrite !length_take, !length_drop. lia.
Qed.
Lemma parse_message_read input sequence port count m aligned :
  parse_message input sequence port count = Ok (m, aligned) →
  ∃ pad rest, input = message_bytes sequence port m pad ++ rest ∧ aligned = blen (message_bytes sequence port m pad) ∧
    message_ok m pad ∧ count < 64.
Proof.
  unfold parse_message, refuse, HEADER_LENGTH, MAX_MESSAGES. intros E.
  apply bind_Ok in E as (? & G1 & E). apply guard_err_Ok, N.ltb_ge in G1.
  rewrite !uint_at_ok in E by lia. cbn [mbind result_bind] in E.
  change (N.to_nat (4 - 0)) with 4%nat in E. change (N.to_nat 0) with 0%nat in E. rewrite drop_0 in E.
  set (len := ne_uint (take 4 input)) in E. assert (len < 2 ^ 32) as Hlen by apply (field_bound 4).
  rewrite aligned_length_ok in E by done. pose proof (header_split input) as Hi.
  change (N.to_nat (6 - 4)) with 2%nat in E. change (N.to_nat (8 - 6)) with 2%nat in E. change (N.to_nat 4) with 4%nat in E.
  change (N.to_nat 6) with 6%nat in E. change (N.to_nat (12 - 8)) with 4%nat in E. change (N.to_nat (16 - 12)) with 4%nat in E.
  change (N.to_nat 8) with 8%nat in E. change (N.to_nat 12) with 12%nat in E. fold len in Hi.
  assert (∀ a, ne_uint (take 2 (drop a input)) < 2 ^ 16) as Hf by (intros; apply (field_bound 2)).
  run_ok. bool_hyps. subst sequence port. destruct (tail_split input len) as (payload & pad & rest & Ep & Ed & Lp & Ln); [lia..|].
  match goal with Ex : slice_at input 16 len = Ok ?x |- _ => assert (payload = x) as <- by congruence end.
  assert (len = 16 + blen payload) as El by lia.
  exists pad, rest. set (m := {| nm_kind := _; nm_flags := _; nm_payload := _ |}).
  assert (message_ok m pad) as Hm by (split; cbn [m nm_payload nm_kind nm_flags]; rewrite <- ?El; [exact Hlen|apply Hf|apply Hf|done|exact Ln]).
  split; [|split; [rewrite (blen_message _ _ _ _ Hm); cbn [m nm_payload]; by rewrite <- El|done]].
  unfold message_bytes. cbn [nm_payload nm_kind nm_flags m]. rewrite <- El, <- !(assoc_L (++)), <- Ed. apply Hi. unfold blen in *. lia.
Qed.

(** A datagram is its messages one after the other. *)
Inductive datagram (sequence port : N) : list NetlinkMessage → list u8 → Prop :=
| datagram_end : datagram sequence port [] []
| datagram_message m pad messages rest : message_ok m pad → datagram sequence port messages rest →
    datagram sequence port (m :: messages) (message_bytes sequence port m pad ++ rest).

Lemma message_shortens sequence port m pad rest : (length rest < length (message_bytes sequence port m pad ++ rest))%nat.
Proof. unfold message_bytes. rewrite !length_app, length_ne_bytes. lia. Qed.
Lemma datagram_of_nothing sequence port messages : datagram sequence port messages [] ↔ messages = [].
Proof.
  split; [|intros ->; constructor]. inversion 1 as [|m pad new rest Hm Hd En Ei]; [done|].
  pose proof (message_shortens sequence port m pad rest) as Hl. rewrite Ei in Hl. cbn in Hl. lia.
Qed.
Lemma parse_messages_exact sequence port fuel input messages found : sequence < 2 ^ 32 → port < 2 ^ 32 →
  (length input <= fuel)%nat →
  parse_messages fuel input sequence port messages = Ok found ↔
  ∃ new, found = messages ++ new ∧ datagram sequence port new input ∧ (new = [] ∨ (length found <= 64)%nat).
Proof.
  intros Hs Hp. revert input messages. induction fuel as [|fuel IH]; intros input messages Hf; cbn [parse_messages];
    case_bool_decide as Hi; try (destruct input; [done|cbn in Hf; lia]).
  1,2: subst; setoid_rewrite datagram_of_nothing; split;
    [intros [= <-]; exists []; rewrite app_nil_r; by auto|intros (? & -> & -> & _); by rewrite app_nil_r].
  split.
  - intros E. apply bind_Ok in E as ([m aligned] & Em & E).
    destruct (parse_message_read _ _ _ _ _ _ Em) as (pad & rest & -> & -> & Hm & Hc).
    unfold blen in E at 1. rewrite Nat2N.id, drop_app_length in E. pose proof (message_shortens sequence port m pad rest).
    apply IH in E as (new & -> & Hd & Hn); [|lia].
    exists (m :: new). rewrite <- (assoc_L (++)) in *. split; [done|]. split; [by constructor|]. right.
    destruct Hn as [->|Hn]; [rewrite length_app; cbn; lia|done].
  - intros (new & -> & Hd & Hn). inversion Hd as [|m pad new' rest Hm Hd']; subst; [done|].
    destruct Hn as [|Hn]; [done|]. pose proof (message_shortens sequence port m pad rest).
    rewrite parse_message_written by (done || (rewrite length_app in Hn; cbn in Hn; lia)). cbn [mbind result_bind].
    unfold blen at 1. rewrite Nat2N.id, drop_app_length. apply IH; [lia|].
    exists new'. rewrite <- (assoc_L (++)). by auto.
Qed.

(** ** No panic *)
Definition no_panic {A} (r : pureM A) : Prop := r ≠ Err NetPanic.
Lemma no_panic_bind {A B} (r : pureM A) (f : A → pureM B) :
  no_panic r → (∀ a, r = Ok a → no_panic (f a)) → no_panic (r ≫= f).
Proof. unfold no_panic. destruct r as [a|e]; cbn; [auto|congruence]. Qed.
Lemma no_panic_ok {A} (a : A) : no_panic (Ok a).
Proof. done. Qed.
Lemma no_panic_refuse c message : no_panic (refuse c message).
Proof. by destruct c. Qed.
Lemma no_panic_slice l from to : from <= to → to <= blen l → no_panic (slice_at l from to).
Proof. intros. by rewrite slice_at_ok. Qed.
Lemma no_panic_uint l from to : from <= to → to <= blen l → no_panic (uint_at l from to).
Proof. intros. by rewrite uint_at_ok. Qed.
Lemma no_panic_byte l i : i < blen l → no_panic (byte_at l i).
Proof. intros Hi. by destruct (byte_at_ok l i Hi) as (b & _ & ->). Qed.
Lemma no_panic_aligned n message : no_panic (aligned_length n message).
Proof. unfold aligned_length. by destruct (checked_add 64 n 3). Qed.
Lemma no_panic_ok_or {A} message (o : option A) : no_panic (ok_or (nl_error message) o).
Proof. by destruct o. Qed.
End Layout.

Create HintDb netlink.
#[export] Hint Resolve no_panic_ok no_panic_refuse no_panic_slice no_panic_uint no_panic_byte no_panic_aligned no_panic_ok_or : netlink.
(** Walks a computation: every bind, with the tests before it in the context. *)
Ltac no_panic_step :=
  match goal with
  | |- no_panic (_ ≫= _) => apply no_panic_bind; [|intros ? ?]
  | Hr : refuse _ _ = Ok _ |- _ => apply guard_err_Ok in Hr
  | |- no_panic (let '(_, _) := ?x in _) => destruct x
  | |- no_panic (if ?b then _ else _) => destruct b eqn:?
  | |- no_panic (Err (nl_error _)) => discriminate
  end.
Ltac no_panic_run := repeat (no_panic_step; bool_hyps); try solve [eauto with netlink].

Section Safety.
Context `{RouteLibc}.
Lemma parse_message_safe input sequence port count : no_panic (parse_message input sequence port count).
Proof. unfold parse_message, HEADER_LENGTH. no_panic_run; eauto with netlink; try (apply no_panic_uint; lia). Qed.
Lemma parse_messages_safe sequence port fuel input messages : (length input <= fuel)%nat →
  no_panic (parse_messages fuel input sequence port messages).
Proof.
  revert input messages. induction fuel as [|fuel IH]; intros input messages Hf; cbn [parse_messages]; case_bool_decide as Hi;
    try done; [by destruct input; [|cbn in Hf; lia]|].
  apply no_panic_bind; [apply parse_message_safe|]. intros [m aligned] Em. apply IH.
  destruct (parse_message_read _ _ _ _ _ _ Em) as (pad & rest & -> & -> & _). unfold blen. rewrite Nat2N.id, drop_app_length.
  pose proof (message_shortens sequence port m pad rest). lia.
Qed.

Lemma aligned_length_Ok n message a : aligned_length n message = Ok a → a = n + padding n.
Proof. unfold aligned_length. intros E. run_ok. apply align_pad. Qed.
Lemma parse_attribute_safe record count : no_panic (parse_attribute record count).
Proof.
  unfold parse_attribute. no_panic_run; eauto with netlink; try (apply no_panic_uint; lia).
  match goal with Ha : aligned_length _ _ = Ok _ |- _ => apply aligned_length_Ok in Ha end. apply no_panic_slice; lia.
Qed.
Lemma parse_attribute_advances record count kind value aligned :
  parse_attribute record count = Ok (kind, value, aligned) → 4 <= aligned.
Proof.
  unfold parse_attribute, refuse. intros E. run_ok. bool_hyps.
  match goal with Ha : aligned_length _ _ = Ok _ |- _ => apply aligned_length_Ok in Ha end. lia.
Qed.
Lemma attributes_safe l : no_panic (attributes l).
Proof.
  unfold attributes. assert (length l <= length l)%nat as Hf by done. revert Hf.
  generalize (@nil (N * list u8)) as parsed, (length l) at 2 3 as fuel. intros parsed fuel. revert l parsed.
  induction fuel as [|fuel IH]; intros l parsed Hf; cbn [attributes_from]; case_bool_decide as Hl; try done;
    [by destruct l; [|cbn in Hf; lia]|].
  apply no_panic_bind; [apply parse_attribute_safe|]. intros [[kind value] aligned] Ea%parse_attribute_advances. apply IH.
  rewrite length_drop. destruct l; [done|cbn in *; lia].
Qed.

Lemma find_loopback_name_safe found name_found : no_panic (find_loopback_name found name_found).
Proof. revert name_found. induction found as [|[k v] found IH]; intros; cbn [find_loopback_name]; no_panic_run; auto with netlink. Qed.
Lemma address_attributes_safe found a b : no_panic (address_attributes found a b).
Proof. revert a b. induction found as [|[k v] found IH]; intros; cbn [address_attributes]; no_panic_run; auto with netlink. Qed.
Lemma route_attributes_safe table found a b : no_panic (route_attributes table found a b).
Proof. revert a b. induction found as [|[k v] found IH]; intros; cbn [route_attributes]; no_panic_run; auto with netlink. Qed.
Lemma refuse_m_safe c d message : (c = false → no_panic d) → no_panic (refuse_m (lazy_or c d) message).
Proof. intros Hd. unfold refuse_m, lazy_or. destruct c; no_panic_run; auto with netlink. Qed.
Lemma refuse_m_Ok c d message u : refuse_m (lazy_or c d) message = Ok u → c = false ∧ d = Ok false.
Proof. unfold refuse_m, lazy_or, refuse. intros E. run_ok. by destruct c; simplify_eq. Qed.
End Safety.

#[export] Hint Resolve parse_message_safe attributes_safe find_loopback_name_safe address_attributes_safe route_attributes_safe : netlink.
Ltac no_panic_lazy :=
  repeat first
    [ match goal with
      | |- no_panic (refuse_m (lazy_or _ _) _) => apply refuse_m_safe; intros ?
      | Hr : refuse_m (lazy_or _ _) _ = Ok _ |- _ => apply refuse_m_Ok in Hr as [? ?]
      end; bool_hyps
    | no_panic_step; bool_hyps ];
  try solve [eauto with netlink]; try (first [apply no_panic_uint|apply no_panic_slice|apply no_panic_byte]; lia).

Section Checks.
Context `{RouteLibc}.
Lemma loopback_index_safe links require_up : no_panic (loopback_index links require_up).
Proof.
  unfold loopback_index. destruct links as [|bytes [|? ?]]; [done| |done]. cbn [length Nat.eqb negb lookup list_lookup ok_or]. no_panic_lazy.
Qed.
Lemma verify_loopback_addresses_safe addresses index : no_panic (verify_loopback_addresses addresses index).
Proof. unfold verify_loopback_addresses. destruct addresses; no_panic_lazy. Qed.
Lemma verify_route_safe bytes index : no_panic (verify_route bytes index).
Proof. unfold verify_route. no_panic_lazy. Qed.
Lemma verify_loopback_routes_safe routes index : no_panic (verify_loopback_routes routes index).
Proof.
  unfold verify_loopback_routes. no_panic_lazy. clear. generalize (∅ : gset route_key).
  induction routes as [|r routes IH]; intros observed; cbn [verify_routes]; [done|].
  apply no_panic_bind; [apply verify_route_safe|]. intros key _. no_panic_lazy.
Qed.
Lemma netlink_error_safe payload : no_panic (netlink_error payload).
Proof. unfold netlink_error. no_panic_lazy. Qed.
Lemma parse_datagram_safe packet sequence port : no_panic (parse_datagram packet sequence port).
Proof. unfold parse_datagram. apply no_panic_bind; [by apply parse_messages_safe|]. intros. no_panic_lazy. Qed.
End Checks.

(** ** A complete dump *)
Section Dumps.
Context `{RouteLibc} `{NetHost}.

(** A datagram the socket accepts: from the kernel, whole, read into the buffer. *)
Definition accepted (message : Reception) (packet : list u8) : Prop :=
  rc_pid message = 0 ∧ rc_groups message = 0 ∧ rc_family message = cast 16 AF_NETLINK ∧
  N.land (rc_flags message) (N.lor MSG_TRUNC MSG_CTRUNC) = 0 ∧
  (0 < (rc_result message).1)%Z ∧ packet = take (Z.to_nat (rc_result message).1) (rc_buffer message).
(** An object of a dump, and the message that ends it. *)
Definition is_object (kind : DumpKind) (m : NetlinkMessage) : Prop :=
  nm_kind m = response_type kind ∧ N.land (nm_flags m) (cast 16 NLM_F_MULTI) ≠ 0.
Definition is_done (m : NetlinkMessage) : Prop :=
  nm_kind m = cast 16 NLMSG_DONE ∧ 4 <= blen (nm_payload m) ∧ ne_uint (take 4 (nm_payload m)) = 0.

(** The receptions of a dump: datagrams of the socket's sequence whose messages
    are the objects, in order, and one last message that ends the dump well. *)
Inductive dump_events (kind : DumpKind) (self : RouteNetlink) : list (list u8) → history → Prop :=
| dump_last message packet objects finish :
    accepted message packet → datagram (rn_sequence self) (rn_port_id self) (objects ++ [finish]) packet →
    Forall (is_object kind) objects → is_done finish →
    dump_events kind self (nm_payload <$> objects) [Ev_Receive message]
| dump_more message packet objects rest events :
    accepted message packet → datagram (rn_sequence self) (rn_port_id self) objects packet →
    Forall (is_object kind) objects → dump_events kind self rest events →
    dump_events kind self ((nm_payload <$> objects) ++ rest) (Ev_Receive message :: events).

Lemma as_i32_zero n : n < 2 ^ 32 → as_i32 n = 0%Z → n = 0.
Proof. unfold as_i32. destruct (Z.ltb_spec (Z.of_N n) (2 ^ 31)); lia. Qed.
Lemma dump_messages_sound kind messages result complete result' :
  dump_messages kind messages result = Ok (complete, result') →
  ∃ objects, Forall (is_object kind) objects ∧ result' = result ++ (nm_payload <$> objects) ∧
    (N.of_nat (length result) <= max_objects kind → N.of_nat (length result') <= max_objects kind) ∧
    if complete then ∃ finish, messages = objects ++ [finish] ∧ is_done finish else messages = objects.
Proof.
  revert result. induction messages as [|m messages IH]; intros result; cbn [dump_messages].
  { intros [= <- <-]. exists []. by rewrite app_nil_r. }
  destruct (N.eqb_spec (nm_kind m) (cast 16 NLMSG_DONE)) as [Ed|Ed].
  { intros E. apply bind_Ok in E as (? & G1 & E). apply guard_err_Ok in G1. apply bind_Ok in E as (? & G2 & E).
    apply refuse_m_Ok in G2 as [G2 G3]. bool_hyps. simplify_eq. rewrite uint_at_ok in G3 by lia. cbn in G3.
    exists []. rewrite app_nil_r. do 3 (split; [done|]). exists m. split; [done|]. split; [done|]. split; [done|].
    injection G3 as G3. apply negb_false_iff, Z.eqb_eq in G3. apply as_i32_zero; [apply (field_bound 4)|exact G3]. }
  destruct (nm_kind m =? cast 16 NLMSG_ERROR).
  { intros E. apply bind_Ok in E as (? & _ & [=]). }
  destruct (N.eqb_spec (nm_kind m) (response_type kind)) as [Er|Er]; [|done].
  intros E. unfold refuse in E. run_ok. bool_hyps.
  match goal with Hd : dump_messages _ _ _ = Ok _ |- _ => apply IH in Hd as (objects & Ho & -> & Hb & Hc) end.
  exists (m :: objects). split; [constructor; [by split|done]|]. cbn [fmap list_fmap].
  rewrite <- (assoc_L (++)). split; [done|]. split.
  - intros _. rewrite <- (assoc_L (++)) in Hb. apply Hb. rewrite length_app. cbn. lia.
  - destruct complete; [destruct Hc as (finish & -> & Hf); by exists finish|by rewrite Hc].
Qed.

Lemma receive_Ok h h' packet : receive h = (h', Ok packet) →
  ∃ message, h' = h ++ [Ev_Receive message] ∧ accepted message packet.
Proof.
  unfold receive, call. intros E. apply stM_bind_Ok in E as (h1 & message & [= <- <-] & E).
  repeat (apply stM_bind_Ok in E as (? & ? & [-> ?]%st_lift_Ok & E)). apply st_lift_Ok in E as [-> E].
  exists (answer_receive h). split; [done|]. unfold refuse in *. run_ok. bool_hyps.
  destruct (Z.leb_spec (rc_result (answer_receive h)).1 0); [done|]. unfold slice_at, get_range in E.
  repeat (split; [done|]). case_match; [|done]. cbn in E. injection E as <-. f_equal. lia.
Qed.
Lemma send_Ok packet h h' u : send packet h = (h', Ok u) →
  ∃ sent, h' = h ++ [Ev_Send packet sent] ∧ sent.1 = Z.of_N (blen packet).
Proof.
  unfold send, call. intros E. apply stM_bind_Ok in E as (h1 & sent & [= <- <-] & E). apply st_lift_Ok in E as [-> E].
  exists (answer_send h packet). split; [done|]. by case_bool_decide.
Qed.

Definition route_ok (self : RouteNetlink) : Prop := rn_sequence self < 2 ^ 32 ∧ rn_port_id self < 2 ^ 32.
Lemma parse_datagram_Ok packet sequence port messages : sequence < 2 ^ 32 → port < 2 ^ 32 →
  parse_datagram packet sequence port = Ok messages ↔
  datagram sequence port messages packet ∧ (1 <= length messages <= 64)%nat.
Proof.
  intros Hs Hp. unfold parse_datagram, refuse. split.
  - intros E. run_ok. bool_hyps. destruct (proj1 (parse_messages_exact _ _ _ _ _ _ Hs Hp (le_n _)) ltac:(eassumption)) as (new & -> & Hd & [->|Hl]);
      [done|]. split; [done|]. split; [|done]. destruct new; [done|cbn; lia].
  - intros [Hd Hl]. rewrite (proj2 (parse_messages_exact sequence port _ packet [] messages Hs Hp (le_n _))) by (by exists messages; auto with lia).
    cbn. destruct messages; [cbn in Hl; lia|done].
Qed.

Lemma dump_datagrams_sound count kind self result h h' found : route_ok self →
  dump_datagrams count kind self result h = (h', Ok found) → N.of_nat (length result) <= max_objects kind →
  ∃ objects events, h' = h ++ events ∧ found = result ++ objects ∧ dump_events kind self objects events ∧
    N.of_nat (length found) <= max_objects kind.
Proof.
  intros [Hs Hp]. revert result h. induction count as [|count IH]; intros result h; cbn [dump_datagrams]; [done|]. intros E Hr.
  apply stM_bind_Ok in E as (h1 & packet & (message & -> & Ha)%receive_Ok & E).
  apply stM_bind_Ok in E as (? & messages & [-> Em]%st_lift_Ok & E). apply (parse_datagram_Ok _ _ _ _ Hs Hp) in Em as [Em _].
  apply stM_bind_Ok in E as (? & [complete result'] & [-> Ed]%st_lift_Ok & E).
  apply dump_messages_sound in Ed as (objects & Ho & -> & Hb & Hc). specialize (Hb Hr). destruct complete.
  - destruct Hc as (finish & -> & Hf). injection E as <- <-. exists (nm_payload <$> objects), [Ev_Receive message].
    split; [done|]. split; [done|]. split; [by eapply dump_last|done].
  - subst messages. apply IH in E as (rest & events & -> & -> & He & Hl); [|done].
    exists ((nm_payload <$> objects) ++ rest), (Ev_Receive message :: events). rewrite <- !(assoc_L (++)).
    split; [done|]. split; [done|]. split; [by eapply dump_more|]. by rewrite <- (assoc_L (++)) in Hl.
Qed.

(** A whole dump: its request, then what answers it. *)
Definition dumped (kind : DumpKind) (found : list (list u8)) (events : history) : Prop :=
  ∃ self request sent receptions, dump_request kind (rn_sequence self) = Ok request ∧
    events = Ev_Send request sent :: receptions ∧ dump_events kind self found receptions.
Lemma next_sequence_Ok self self' : next_sequence self = Ok self' → route_ok self → route_ok self'.
Proof. unfold next_sequence. intros E [_ Hp]. run_ok. by split. Qed.
Lemma dump_Ok kind self h h' self' found : route_ok self → dump kind self h = (h', Ok (self', found)) →
  route_ok self' ∧ ∃ events, h' = h ++ events ∧ dumped kind found events.
Proof.
  intros Hr E. unfold dump in E. apply stM_bind_Ok in E as (? & self1 & [-> E1]%st_lift_Ok & E).
  pose proof (next_sequence_Ok _ _ E1 Hr) as Hr1.
  apply stM_bind_Ok in E as (? & request & [-> Eq]%st_lift_Ok & E).
  apply stM_bind_Ok in E as (? & u & (sent & -> & _)%send_Ok & E).
  apply stM_bind_Ok in E as (h2 & result & Ed & E). injection E as <- <- <-. split; [done|].
  apply dump_datagrams_sound in Ed as (objects & events & -> & -> & He & _); [|done|cbn; lia].
  exists (Ev_Send request sent :: events). rewrite <- (assoc_L (++)). split; [done|]. by exists self1, request, sent, events.
Qed.

(** Every operation only adds to the history. *)
Definition extends {A} (m : netM A) : Prop := ∀ h h' a, m h = (h', Ok a) → ∃ events, h' = h ++ events.
Lemma extends_bind {A B} (m : netM A) (f : A → netM B) : extends m → (∀ a, extends (f a)) → extends (m ≫= f).
Proof.
  intros Hm Hf h h' b E. apply stM_bind_Ok in E as (h1 & a & E1 & E2). destruct (Hm _ _ _ E1) as [e1 ->], (Hf _ _ _ _ E2) as [e2 ->].
  exists (e1 ++ e2). by rewrite (assoc_L (++)).
Qed.
Lemma extends_lift {A} (r : pureM A) : extends (st_lift r).
Proof. intros h h' a [-> _]%st_lift_Ok. exists []. by rewrite app_nil_r. Qed.
Lemma extends_ret {A} (a : A) : extends (mret a).
Proof. intros h h' b [= <- <-]. exists []. by rewrite app_nil_r. Qed.
Lemma extends_call {R} (answer : history → R) event : extends (call answer event).
Proof. intros h h' a [= <- <-]. by eexists. Qed.
End Dumps.
#[export] Hint Resolve extends_bind extends_lift extends_ret extends_call : netlink.
Ltac extends_run := repeat first [apply extends_lift | apply extends_ret | apply extends_call | apply extends_bind; [|intros ?]].

Section Prepared.
Context `{RouteLibc} `{NetHost}.
Lemma send_ack_extends request self : extends (send_ack request self).
Proof. unfold send_ack, send, receive. extends_run. Qed.
Lemma set_loopback_up_Ok index self h h' self' : route_ok self → set_loopback_up index self h = (h', Ok self') →
  route_ok self' ∧ ∃ events, h' = h ++ events.
Proof.
  intros Hr E. split; [|revert E; apply (extends_bind _ _ (extends_lift _)); intros ?; extends_run; apply send_ack_extends].
  unfold set_loopback_up in E. repeat (apply stM_bind_Ok in E as (? & ? & ? & E)). injection E as _ <-.
  match goal with Hn : st_lift (next_sequence _) _ = _ |- _ => apply st_lift_Ok in Hn as [_ Hn]; by eapply next_sequence_Ok end.
Qed.
Lemma add_loopback_address_Ok index self h h' self' : route_ok self → add_loopback_address index self h = (h', Ok self') →
  route_ok self' ∧ ∃ events, h' = h ++ events.
Proof.
  intros Hr E. split; [|revert E; apply (extends_bind _ _ (extends_lift _)); intros ?; extends_run; apply send_ack_extends].
  unfold add_loopback_address in E. repeat (apply stM_bind_Ok in E as (? & ? & ? & E)). injection E as _ <-.
  match goal with Hn : st_lift (next_sequence _) _ = _ |- _ => apply st_lift_Ok in Hn as [_ Hn]; by eapply next_sequence_Ok end.
Qed.

(** The kernel's side of the calls: a port is 32 bits, recvmsg fills a buffer of [MAX_PACKET] bytes. *)
Class HostLaws : Prop := {
  hl_port h : bn_pid (answer_name h) < 2 ^ 32;
  hl_buffer h : blen (rc_buffer (answer_receive h)) = MAX_PACKET;
  hl_count h : ((rc_result (answer_receive h)).1 <= Z.of_N MAX_PACKET)%Z
}.
Lemma open_route_Ok `{!HostLaws} h h' self : open_route h = (h', Ok self) → route_ok self ∧ ∃ events, h' = h ++ events.
Proof.
  intros E. split; [|revert E; unfold open_route; extends_run].
  unfold open_route, call in E. repeat (apply stM_bind_Ok in E as (? & ? & ? & E)). injection E as _ <-. simplify_eq/=.
  split; [done|]. cbn. apply hl_port.
Qed.
End Prepared.

(** ** What the checks establish *)
(** The attribute kinds that are told apart are different numbers. *)
Class RouteLawful `{RouteLibc} : Prop := { rl_address : IFA_ADDRESS ≠ IFA_LOCAL; rl_route : RTA_DST ≠ RTA_OIF }.

Section Facts.
Context `{RouteLibc}.
Definition byte_is (l : list u8) (i : nat) (n : N) : Prop := N_of_ascii <$> l !! i = Some n.
Definition uint_is (l : list u8) (from k : nat) (n : N) : Prop := ne_uint (take k (drop from l)) = n.
(** The attributes of one kind are exactly [values]. *)
Definition values_of (kind : N) (found : list (N * list u8)) : list (list u8) :=
  snd <$> filter (λ attribute : N * list u8, attribute.1 = kind) found.

Definition loopback_link (index : Z) (link : list u8) : Prop :=
  16 <= blen link ∧ byte_is link 0 (cast 8 AF_UNSPEC) ∧ uint_is link 2 2 ARPHRD_LOOPBACK ∧ (0 < index)%Z ∧
  as_i32 (ne_uint (take 4 (drop 4 link))) = index ∧
  N.land (ne_uint (take 4 (drop 8 link))) (cast 32 IFF_LOOPBACK) ≠ 0 ∧
  N.land (ne_uint (take 4 (drop 8 link))) (cast 32 IFF_UP) ≠ 0 ∧
  ∃ found, attributes (drop 16 link) = Ok found ∧ values_of IFLA_IFNAME found = [["l"; "o"; NUL]%char].
Definition loopback_address (index : Z) (address : list u8) : Prop :=
  8 <= blen address ∧ byte_is address 0 (cast 8 AF_INET) ∧ byte_is address 1 8 ∧ byte_is address 3 RT_SCOPE_HOST ∧
  uint_is address 4 4 (of_i32 index) ∧
  ∃ found, attributes (drop 8 address) = Ok found ∧
    values_of IFA_ADDRESS found = [LOCALHOST] ∧ values_of IFA_LOCAL found = [LOCALHOST].
Definition reviewed : list N := [RTA_DST; RTA_OIF; RTA_PREFSRC; RTA_TABLE; RTA_PRIORITY; RTA_CACHEINFO].
(** A kernel-made route of the local table for [key], out of the interface
    [index], with no attribute that was not reviewed, so with no gateway. *)
Definition loopback_route (index : Z) (key : route_key) (route : list u8) : Prop :=
  12 <= blen route ∧ byte_is route 0 (cast 8 AF_INET) ∧ byte_is route 1 key.1.1 ∧ byte_is route 2 0 ∧
  byte_is route 4 RT_TABLE_LOCAL ∧ byte_is route 5 RTPROT_KERNEL ∧ byte_is route 7 key.1.2 ∧
  byte_is route 6 (if key.1.2 =? RTN_LOCAL then RT_SCOPE_HOST else RT_SCOPE_LINK) ∧
  ∃ found, attributes (drop 12 route) = Ok found ∧ Forall (λ attribute : N * list u8, attribute.1 ∈ reviewed) found ∧
    (∃ destination output, values_of RTA_DST found = [destination] ∧ key.2 = N_of_ascii <$> destination ∧
       length destination = 4%nat ∧ values_of RTA_OIF found = [output] ∧ length output = 4%nat ∧ ne_uint output = of_i32 index).

Lemma byte_at_Ok l i n : byte_at l i = Ok n → byte_is l (N.to_nat i) n.
Proof. unfold byte_at, byte_is. intros E. by apply ok_or_Ok in E. Qed.
Lemma slice_tail l from rest : from <= blen l → slice_at l from (blen l) = Ok rest → rest = drop (N.to_nat from) l.
Proof. intros Hf. rewrite slice_at_ok by lia. intros [= <-]. apply take_ge. rewrite length_drop. unfold blen. lia. Qed.

Ltac read_facts :=
  repeat match goal with
  | Hb : byte_at _ _ = Ok _ |- _ => apply byte_at_Ok in Hb
  | Hu : uint_at _ _ _ = Ok _ |- _ => rewrite uint_at_ok in Hu by lia; injection Hu as Hu
  | Hs : slice_at ?l _ (blen ?l) = Ok _ |- _ => apply slice_tail in Hs; [|lia]
  end; subst.

Lemma values_of_cons kind attribute found :
  values_of kind (attribute :: found) = (if decide (attribute.1 = kind) then [attribute.2] else []) ++ values_of kind found.
Proof. unfold values_of. rewrite filter_cons. by destruct (decide _). Qed.
Lemma find_loopback_name_Ok found seen : find_loopback_name found seen = Ok true →
  values_of IFLA_IFNAME found = if seen then [] else [["l"; "o"; NUL]%char].
Proof.
  revert seen. induction found as [|[kind value] found IH]; intros seen; cbn [find_loopback_name]; [by intros [= ->]|].
  rewrite values_of_cons. cbn [fst snd]. destruct (N.eqb_spec kind IFLA_IFNAME) as [->|Hk].
  - intros E. unfold refuse in E. run_ok. bool_hyps. subst. rewrite decide_True by done.
    match goal with Hf : find_loopback_name _ true = Ok true |- _ => by rewrite (IH _ Hf) end.
  - intros E. rewrite decide_False by done. by apply IH.
Qed.
Lemma loopback_index_Ok links index : loopback_index links true = Ok index → ∃ link, links = [link] ∧ loopback_link index link.
Proof.
  unfold loopback_index. destruct links as [|link [|? ?]]; [done| |done].
  cbn [length Nat.eqb negb lookup list_lookup ok_or refuse guard_err mbind result_bind]. intros E.
  apply bind_Ok in E as (? & G1 & E). apply refuse_m_Ok in G1 as [G1 G2]. run_ok. unfold refuse in *. run_ok. bool_hyps.
  read_facts. exists link. split; [done|]. do 3 (split; [done|]). split; [lia|]. do 3 (split; [done|]).
  eexists. split; [eassumption|]. by eapply (find_loopback_name_Ok _ false).
Qed.

Lemma address_attributes_Ok found a b a' b' : address_attributes found a b = Ok (a', b') →
  (a = true → a' = true) ∧ (b = true → b' = true) ∧
  (a' = true → values_of IFA_ADDRESS found = if a then [] else [LOCALHOST]) ∧
  (IFA_ADDRESS ≠ IFA_LOCAL → b' = true → values_of IFA_LOCAL found = if b then [] else [LOCALHOST]).
Proof.
  revert a b. induction found as [|[kind value] found IH]; intros a b; cbn [address_attributes].
  { intros [= -> ->]. cbn. by destruct a', b'. }
  rewrite !values_of_cons. cbn [fst snd]. destruct (N.eqb_spec kind IFA_ADDRESS) as [->|Ha]; cbn [orb].
  - intros E. unfold refuse in E. run_ok. bool_hyps. subst.
    match goal with Hf : address_attributes _ true _ = Ok _ |- _ => apply IH in Hf as (G1 & G2 & G3 & G4) end.
    rewrite (decide_True (P := IFA_ADDRESS = IFA_ADDRESS)) by done. split; [done|]. split; [done|]. split.
    + intros Hx. by rewrite (G3 Hx).
    + intros Hd Hx. rewrite decide_False by done. by apply G4.
  - destruct (N.eqb_spec kind IFA_LOCAL) as [->|Hl].
    + intros E. unfold refuse in E. run_ok. bool_hyps. subst.
      match goal with Hf : address_attributes _ _ true = Ok _ |- _ => apply IH in Hf as (G1 & G2 & G3 & G4) end.
      rewrite (decide_False (P := IFA_LOCAL = IFA_ADDRESS)), (decide_True (P := IFA_LOCAL = IFA_LOCAL)) by done.
      split; [done|]. split; [done|]. split; [done|]. intros Hd Hx. by rewrite (G4 Hd Hx).
    + intros E. apply IH in E. by rewrite !decide_False by done.
Qed.
Lemma verify_loopback_addresses_Ok `{!RouteLawful} addresses index : verify_loopback_addresses addresses index = Ok true →
  ∃ address, addresses = [address] ∧ loopback_address index address.
Proof.
  unfold verify_loopback_addresses. destruct addresses as [|address [|? ?]]; [done| |done].
  cbn [length Nat.ltb Nat.leb refuse guard_err mbind result_bind]. intros E. apply bind_Ok in E as (? & G1 & E).
  apply refuse_m_Ok in G1 as [G1 G2]. run_ok. destruct (_ : bool * bool) as [a b] in *. unfold refuse in *. run_ok. bool_hyps.
  read_facts. exists address. split; [done|]. do 5 (split; [done|]). eexists. split; [eassumption|].
  match goal with Hf : address_attributes _ _ _ = Ok _ |- _ => apply address_attributes_Ok in Hf as (_ & _ & G3 & G4) end.
  split; [by apply G3|by apply (G4 rl_address)].
Qed.

Lemma route_attributes_Ok `{!RouteLawful} table found destination output destination' output' :
  route_attributes table found destination output = Ok (destination', output') →
  Forall (λ attribute : N * list u8, attribute.1 ∈ reviewed) found ∧
  match destination with Some d => destination' = Some d ∧ values_of RTA_DST found = []
  | None => values_of RTA_DST found = option_list destination' end ∧
  match output with Some o => output' = Some o ∧ values_of RTA_OIF found = []
  | None => match output' with None => True
            | Some o => ∃ value, values_of RTA_OIF found = [value] ∧ length value = 4%nat ∧ ne_uint value = o end end.
Proof.
  revert destination output. induction found as [|[kind value] found IH]; intros destination output; cbn [route_attributes].
  { intros [= -> ->]. split; [constructor|]. by destruct destination', output'. }
  rewrite !values_of_cons. cbn [fst snd]. unfold refuse. rewrite Forall_cons.
  destruct (N.eqb_spec kind RTA_DST) as [->|Nd]; [|destruct (N.eqb_spec kind RTA_OIF) as [->|No]].
  - intros E. run_ok. bool_hyps. subst.
    match goal with Hf : route_attributes _ _ _ _ = Ok _ |- _ => apply IH in Hf as (G1 & [-> G2] & G3) end.
    rewrite decide_True, (decide_False (P := RTA_DST = RTA_OIF)), G2 by (done || apply rl_route).
    split; [by split; [left|]|]. by split.
  - intros E. run_ok. bool_hyps. subst.
    match goal with Hf : route_attributes _ _ _ _ = Ok _ |- _ => apply IH in Hf as (G1 & G2 & [-> G3]) end.
    rewrite (decide_False (P := RTA_OIF = RTA_DST)), decide_True, G3 by done.
    split; [by split; [right; left|]|]. split; [done|]. exists value. split; [done|]. split; [|done]. unfold blen in *. lia.
  - intros E. rewrite !decide_False by done.
    assert (kind ∈ reviewed ∧ route_attributes table found destination output = Ok (destination', output')) as [Hk Hf];
      [|apply IH in Hf as (G1 & G2); by split; [split|]].
    unfold reviewed. rewrite !elem_of_cons.
    destruct (N.eqb_spec kind RTA_PREFSRC); [run_ok; by auto 10|]. destruct (N.eqb_spec kind RTA_TABLE); [run_ok; by auto 10|].
    destruct (N.eqb_spec kind RTA_PRIORITY); [by auto 10|]. destruct (N.eqb_spec kind RTA_CACHEINFO); [by auto 10|done].
Qed.
Lemma verify_route_Ok `{!RouteLawful} route index key : verify_route route index = Ok key → loopback_route index key route.
Proof.
  unfold verify_route. intros E. apply bind_Ok in E as (? & G1 & E). apply refuse_m_Ok in G1 as [G1 G2].
  run_ok. unfold refuse in *. run_ok. destruct (_ : option (list u8) * option N) as [dst out] in *. run_ok.
  match goal with Hr : refuse_m _ _ = Ok _ |- _ => apply refuse_m_Ok in Hr as [G3 G4] end. run_ok. bool_hyps.
  match goal with Hf : route_attributes _ _ _ _ = Ok _ |- _ => apply route_attributes_Ok in Hf as (G5 & G6 & G7) end.
  read_facts. destruct G7 as (output & Eo & Lo & Ho). do 8 (split; [done|]). eexists. split; [eassumption|]. split; [done|].
  exists x11, output. split; [done|]. split; [done|]. split; [unfold blen in *; lia|]. done.
Qed.

Definition automatic : list route_key :=
  [(8, RTN_LOCAL, [127; 0; 0; 0]); (32, RTN_LOCAL, [127; 0; 0; 1]); (32, RTN_BROADCAST, [127; 255; 255; 255])].
Lemma verify_routes_Ok `{!RouteLawful} routes index observed found : verify_routes routes index observed = Ok found →
  ∃ keys, Forall2 (loopback_route index) keys routes ∧ NoDup keys ∧ (∀ key, key ∈ keys → key ∉ observed) ∧
    found = list_to_set keys ∪ observed.
Proof.
  revert observed. induction routes as [|route routes IH]; intros observed; cbn [verify_routes].
  { intros [= <-]. exists []. split; [constructor|]. split; [constructor|]. split; [set_solver|]. cbn. set_solver. }
  intros E. unfold refuse in E. run_ok. bool_hyps. match goal with Hf : verify_routes _ _ _ = Ok _ |- _ => apply IH in Hf as (keys & G1 & G2 & G3 & ->) end.
  match goal with Hr : verify_route _ _ = Ok ?key |- _ => exists (key :: keys); apply verify_route_Ok in Hr end.
  split; [by constructor|]. split; [constructor; [set_solver|done]|]. split; [set_solver|]. cbn. set_solver.
Qed.
Lemma verify_loopback_routes_Ok `{!RouteLawful} routes index u : verify_loopback_routes routes index = Ok u →
  ∃ keys, Forall2 (loopback_route index) keys routes ∧ keys ≡ₚ automatic.
Proof.
  unfold verify_loopback_routes, refuse. intros E. run_ok. bool_hyps.
  match goal with Hf : verify_routes _ _ _ = Ok _ |- _ => apply verify_routes_Ok in Hf as (keys & G1 & G2 & _ & G3) end.
  exists keys. split; [done|]. apply NoDup_Permutation; [done|..].
  - unfold automatic. repeat constructor; rewrite ?elem_of_cons, ?elem_of_nil; naive_solver.
  - intros key. transitivity (key ∈ automatic_routes); [|unfold automatic_routes, automatic; set_solver].
    rewrite <- E, G3. set_solver.
Qed.
End Facts.

(** ** The preparation as a whole *)
Section Preparation.
Context `{RouteLibc} `{NetHost}.

Lemma read_sysctl_Ok path h h' value : read_sysctl path h = (h', Ok value) → h' = h ++ [Ev_Read path (Ok value)].
Proof.
  unfold read_sysctl, call. intros E. apply stM_bind_Ok in E as (? & reply & [= <- <-] & E).
  apply stM_bind_Ok in E as (? & v & [-> Hv]%st_lift_Ok & E). repeat (apply stM_bind_Ok in E as (? & ? & [-> _]%st_lift_Ok & E)).
  injection E as <- <-. apply map_err_Ok in Hv. by rewrite Hv.
Qed.
Lemma write_sysctl_Ok path value h h' u : write_sysctl path value h = (h', Ok u) → h' = h ++ [Ev_Write path value (Ok u)].
Proof.
  unfold write_sysctl, call. intros E. apply stM_bind_Ok in E as (? & reply & [= <- <-] & E).
  apply st_lift_Ok in E as [-> Hv]. apply map_err_Ok in Hv. by rewrite Hv.
Qed.
Lemma current_network_namespace_Ok h h' identity : current_network_namespace h = (h', Ok identity) →
  h' = h ++ [Ev_Namespace (Ok identity)].
Proof.
  unfold current_network_namespace, call. intros E. apply stM_bind_Ok in E as (? & reply & [= <- <-] & E).
  apply st_lift_Ok in E as [-> Hv]. apply map_err_Ok in Hv. by rewrite Hv.
Qed.
Lemma require_fresh_Ok caller provider h h' target : require_fresh_network_namespace caller provider h = (h', Ok target) →
  h' = h ++ [Ev_Namespace (Ok target)] ∧ target ≠ caller ∧ target ≠ provider.
Proof.
  unfold require_fresh_network_namespace. intros E. apply stM_bind_Ok in E as (? & t & ->%current_network_namespace_Ok & E).
  apply stM_bind_Ok in E as (? & ? & [-> G1%guard_err_Ok]%st_lift_Ok & E). injection E as <- <-. bool_hyps. by split.
Qed.

(** The port policy written, read back as required, in a fresh namespace. *)
Definition policy_events (target : NamespaceIdentity) (unprivileged range reserved : list u8) : history :=
  [Ev_Namespace (Ok target);
   Ev_Write UNPRIVILEGED_PORT_START (bytes "0" ++ [NEWLINE]) (Ok ());
   Ev_Write LOCAL_PORT_RANGE (bytes "32768 60999" ++ [NEWLINE]) (Ok ());
   Ev_Write LOCAL_RESERVED_PORTS [NEWLINE] (Ok ());
   Ev_Read UNPRIVILEGED_PORT_START (Ok unprivileged); Ev_Read LOCAL_PORT_RANGE (Ok range);
   Ev_Read LOCAL_RESERVED_PORTS (Ok reserved); Ev_Namespace (Ok target)].
Lemma configure_Ok caller provider h h' policy : configure_private_port_policy caller provider h = (h', Ok policy) →
  policy = REQUIRED ∧ ∃ target unprivileged range reserved,
    h' = h ++ policy_events target unprivileged range reserved ∧ target ≠ caller ∧ target ≠ provider ∧
    parse_private_port_policy unprivileged range reserved = Ok REQUIRED.
Proof.
  unfold configure_private_port_policy, read_private_port_policy. intros E.
  apply stM_bind_Ok in E as (? & target & [-> Hn]%require_fresh_Ok & E).
  apply stM_bind_Ok in E as (? & [] & ->%write_sysctl_Ok & E). apply stM_bind_Ok in E as (? & [] & ->%write_sysctl_Ok & E).
  apply stM_bind_Ok in E as (? & [] & ->%write_sysctl_Ok & E). apply stM_bind_Ok in E as (? & p & Ep & E).
  apply stM_bind_Ok in Ep as (? & a & ->%read_sysctl_Ok & Ep). apply stM_bind_Ok in Ep as (? & b & ->%read_sysctl_Ok & Ep).
  apply stM_bind_Ok in Ep as (? & c & ->%read_sysctl_Ok & Ep). apply st_lift_Ok in Ep as [-> Ep].
  apply stM_bind_Ok in E as (? & ? & [-> G1%guard_err_Ok]%st_lift_Ok & E).
  apply stM_bind_Ok in E as (? & t & ->%current_network_namespace_Ok & E).
  apply stM_bind_Ok in E as (? & ? & [-> G2%guard_err_Ok]%st_lift_Ok & E). injection E as <- <-. bool_hyps. subst p t.
  split; [done|]. exists target, a, b, c. rewrite <- !(assoc_L (++)). split; [done|]. split; [apply Hn|]. by split; [apply Hn|].
Qed.

Definition ipv6_events (values : list (list u8)) : history := zip_with (λ path value, Ev_Read path (Ok value)) IPV6_PATHS values.
Lemma check_ipv6_Ok h h' u : st_for check_ipv6 IPV6_PATHS h = (h', Ok u) →
  ∃ values, length values = 3%nat ∧ Forall (λ value, trim value = ONE) values ∧ h' = h ++ ipv6_events values.
Proof.
  assert (∀ path h h' u, check_ipv6 path h = (h', Ok u) → ∃ value, trim value = ONE ∧ h' = h ++ [Ev_Read path (Ok value)]) as Hc.
  { intros path k k' v. unfold check_ipv6. intros E. apply stM_bind_Ok in E as (? & value & ->%read_sysctl_Ok & E).
    apply st_lift_Ok in E as [-> G1%guard_err_Ok]. bool_hyps. by exists value. }
  cbn [st_for IPV6_PATHS]. intros E. apply stM_bind_Ok in E as (? & ? & (a & Ha & ->)%Hc & E).
  apply stM_bind_Ok in E as (? & ? & (b & Hb & ->)%Hc & E). apply stM_bind_Ok in E as (? & ? & (c & Hx & ->)%Hc & E).
  injection E as <- _. exists [a; b; c]. rewrite <- !(assoc_L (++)). split; [done|]. split; [by repeat constructor|done].
Qed.

(** The three dumps that verify the loopback interface, nothing being sent after
    the last of them. *)
Lemma prepare_loopback_Ok `{!HostLaws} `{!RouteLawful} h h' index addresses routes :
  prepare_loopback h = (h', Ok (index, addresses, routes)) →
  ∃ before links between address keys e1 e2 e3,
    h' = h ++ before ++ e1 ++ between ++ e2 ++ e3 ∧
    dumped Links [links] e1 ∧ loopback_link index links ∧
    addresses = [address] ∧ dumped Addresses [address] e2 ∧ loopback_address index address ∧
    dumped Routes routes e3 ∧ Forall2 (loopback_route index) keys routes ∧ keys ≡ₚ automatic.
Proof.
  unfold prepare_loopback. intros E. apply stM_bind_Ok in E as (? & r0 & [R0 [b0 ->]]%open_route_Ok & E).
  apply stM_bind_Ok in E as (? & [r1 l1] & D1 & E). apply (dump_Ok _ _ _ _ _ _ R0) in D1 as (R1 & b1 & -> & _).
  apply stM_bind_Ok in E as (? & i & [-> _]%st_lift_Ok & E).
  apply stM_bind_Ok in E as (? & r2 & U & E). apply (set_loopback_up_Ok _ _ _ _ _ R1) in U as (R2 & b2 & ->).
  apply stM_bind_Ok in E as (? & [r3 l2] & D2 & E). apply (dump_Ok _ _ _ _ _ _ R2) in D2 as (R3 & e1 & -> & D2).
  apply stM_bind_Ok in E as (? & again & [-> Hl]%st_lift_Ok & E).
  apply stM_bind_Ok in E as (? & ? & [-> Hi%guard_err_Ok]%st_lift_Ok & E). bool_hyps. subst again.
  apply loopback_index_Ok in Hl as (link & -> & Hl).
  apply stM_bind_Ok in E as (? & [r4 a1] & D3 & E). apply (dump_Ok _ _ _ _ _ _ R3) in D3 as (R4 & b3 & -> & _).
  apply stM_bind_Ok in E as (? & present & [-> _]%st_lift_Ok & E).
  apply stM_bind_Ok in E as (? & r5 & A & E).
  assert (route_ok r5 ∧ ∃ b4, x = (((((h ++ b0) ++ b1) ++ b2) ++ e1) ++ b3) ++ b4) as (R5 & b4 & ->).
  { destruct present; [injection A as <- <-; split; [done|]; exists []; by rewrite app_nil_r|].
    by apply (add_loopback_address_Ok _ _ _ _ _ R4) in A. }
  apply stM_bind_Ok in E as (? & [r6 a2] & D4 & E). apply (dump_Ok _ _ _ _ _ _ R5) in D4 as (R6 & e2 & -> & D4).
  apply stM_bind_Ok in E as (? & p2 & [-> Ha]%st_lift_Ok & E).
  apply stM_bind_Ok in E as (? & ? & [-> Hp%guard_err_Ok]%st_lift_Ok & E). bool_hyps. subst p2.
  apply verify_loopback_addresses_Ok in Ha as (address & -> & Ha).
  apply stM_bind_Ok in E as (? & [r7 rs] & D5 & E). apply (dump_Ok _ _ _ _ _ _ R6) in D5 as (_ & e3 & -> & D5).
  apply stM_bind_Ok in E as (? & ? & [-> Hr]%st_lift_Ok & E). apply verify_loopback_routes_Ok in Hr as (keys & Hk & Hp).
  injection E as <- <- <- <-. exists (b0 ++ b1 ++ b2), link, (b3 ++ b4), address, keys, e1, e2, e3.
  rewrite <- !(assoc_L (++)). by split_and!.
Qed.
End Preparation.

(** ** No panic in the whole *)
Section Calm.
Context `{RouteLibc} `{NetHost}.
Definition calm {A} (m : netM A) : Prop := ∀ h, (m h).2 ≠ Err NetPanic.
Lemma calm_bind {A B} (m : netM A) (f : A → netM B) : calm m → (∀ a, calm (f a)) → calm (m ≫= f).
Proof. intros Hm Hf h. specialize (Hm h). unfold mbind, stM_bind. destruct (m h) as [h' [a|e]]; [apply Hf|cbn in *; congruence]. Qed.
Lemma calm_lift_bind {A B} (r : pureM A) (f : A → netM B) : no_panic r → (∀ a, r = Ok a → calm (f a)) → calm (st_lift r ≫= f).
Proof. intros Hr Hf h. unfold mbind, stM_bind, st_lift. destruct r as [a|e]; [by apply Hf|cbn; unfold no_panic in Hr; congruence]. Qed.
Lemma calm_lift {A} (r : pureM A) : no_panic r → calm (st_lift r).
Proof. intros Hr h. exact Hr. Qed.
Lemma calm_ret {A} (a : A) : calm (mret a).
Proof. intros h. discriminate. Qed.
Lemma calm_call {R} (answer : history → R) event : calm (call answer event).
Proof. intros h. discriminate. Qed.
Lemma calm_call_bind {R B} (answer : history → R) event (f : R → netM B) : (∀ h, calm (f (answer h))) → calm (call answer event ≫= f).
Proof. intros Hf h. apply Hf. Qed.
Lemma calm_for {A} (f : A → netM ()) l : (∀ a, calm (f a)) → calm (st_for f l).
Proof. intros Hf. induction l as [|a l IH]; [apply calm_ret|]. by apply calm_bind. Qed.

Lemma native_error_safe {A} operation text : no_panic (native_error (A := A) operation text).
Proof. discriminate. Qed.
Lemma check_native_safe reply operation : no_panic (check_native reply operation).
Proof. unfold check_native. by case_match. Qed.
Lemma refuse_network_safe c message : no_panic (refuse_network c message).
Proof. by destruct c. Qed.
Lemma ok_or_network_safe {A} message (o : option A) : no_panic (ok_or (network_failure message) o).
Proof. by destruct o. Qed.
Lemma map_err_safe {E A} (f : E → net_failure) (r : result E A) : (∀ e, f e ≠ NetPanic) → no_panic (map_err f r).
Proof. destruct r; [done|]. cbn. intros Hf [= Hx]. by eapply Hf. Qed.
Lemma parse_policy_safe a b c : no_panic (parse_private_port_policy a b c).
Proof. unfold parse_private_port_policy. no_panic_run; auto using ok_or_network_safe, refuse_network_safe. Qed.
End Calm.
#[export] Hint Resolve calm_ret calm_call native_error_safe check_native_safe refuse_network_safe ok_or_network_safe parse_policy_safe
  parse_datagram_safe loopback_index_safe verify_loopback_addresses_safe verify_loopback_routes_safe : netlink.
Ltac calm_run :=
  repeat match goal with
  | |- calm (st_lift _ ≫= _) => apply calm_lift_bind; [|intros ? ?]
  | |- calm (_ ≫= _) => apply calm_bind; [|intros ?]
  | |- calm (let '(_, _) := ?x in _) => destruct x
  | |- calm (if ?b then _ else _) => destruct b
  | |- calm (st_lift _) => apply calm_lift
  end; try solve [eauto with netlink].

Section Whole.
Context `{RouteLibc} `{NetHost} `{!HostLaws}.
Lemma header_safe length kind flags sequence : no_panic (header length kind flags sequence).
Proof. unfold header. no_panic_run. Qed.
Lemma next_sequence_safe self : no_panic (next_sequence self).
Proof. unfold next_sequence. no_panic_run. Qed.
Lemma send_calm packet : calm (send packet).
Proof. unfold send. calm_run. Qed.
Lemma receive_calm : calm receive.
Proof.
  unfold receive. apply calm_call_bind. intros h. apply calm_lift_bind; [by case_match|]. intros [] Hz. calm_run.
  apply no_panic_slice; [lia|]. rewrite hl_buffer. pose proof (hl_count h). lia.
Qed.
Lemma send_ack_calm request self : calm (send_ack request self).
Proof.
  unfold send_ack. apply calm_bind; [apply send_calm|]. intros []. apply calm_bind; [apply receive_calm|]. intros packet. calm_run.
  - destruct a as [|m ?]; [by match goal with Hr : refuse true _ = Ok _ |- _ => inversion Hr end|done].
  - match goal with Hr : refuse (_ <? 4) _ = Ok _ |- _ => apply guard_err_Ok in Hr; bool_hyps end. apply no_panic_uint; lia.
  - destruct (as_i32 _ =? 0)%Z; discriminate.
Qed.
Lemma dump_messages_safe kind messages result : no_panic (dump_messages kind messages result).
Proof.
  revert result. induction messages as [|m messages IH]; intros result; cbn [dump_messages]; [done|]. no_panic_lazy.
  - apply netlink_error_safe.
  - match goal with Hx : netlink_error _ = Ok ?t |- _ => discriminate end.
Qed.
Lemma dump_calm kind self : calm (dump kind self).
Proof.
  unfold dump. apply calm_lift_bind; [apply next_sequence_safe|]. intros s1 _.
  apply calm_lift_bind; [unfold dump_request; apply no_panic_bind; [apply header_safe|done]|]. intros request _.
  apply calm_bind; [apply send_calm|]. intros []. apply calm_bind; [|intros; apply calm_ret].
  generalize (@nil (list u8)). induction MAX_DATAGRAMS as [|n IH]; intros result; cbn [dump_datagrams]; [by apply calm_lift|].
  apply calm_bind; [apply receive_calm|]. intros packet. calm_run. apply dump_messages_safe.
Qed.
Lemma set_loopback_up_calm index self : calm (set_loopback_up index self).
Proof. unfold set_loopback_up. calm_run; auto using next_sequence_safe, header_safe, send_ack_calm. Qed.
Lemma add_loopback_address_calm index self : calm (add_loopback_address index self).
Proof. unfold add_loopback_address. calm_run; auto using next_sequence_safe, header_safe, send_ack_calm. Qed.
Lemma open_route_calm : calm open_route.
Proof. unfold open_route. calm_run. Qed.
Lemma prepare_loopback_calm : calm prepare_loopback.
Proof.
  unfold prepare_loopback. calm_run; auto using open_route_calm, dump_calm, set_loopback_up_calm, add_loopback_address_calm.
Qed.
Lemma read_sysctl_calm path : calm (read_sysctl path).
Proof. unfold read_sysctl. calm_run. apply map_err_safe. by intros []. Qed.
Lemma write_sysctl_calm path value : calm (write_sysctl path value).
Proof. unfold write_sysctl. calm_run. apply map_err_safe. by intros []. Qed.
Lemma namespace_calm : calm current_network_namespace.
Proof. unfold current_network_namespace. calm_run. by apply map_err_safe. Qed.
Lemma fresh_calm caller provider : calm (require_fresh_network_namespace caller provider).
Proof. unfold require_fresh_network_namespace. calm_run. apply namespace_calm. Qed.
Lemma prepare_calm caller provider : calm (prepare_private_ipv4_network caller provider).
Proof.
  unfold prepare_private_ipv4_network, configure_private_port_policy, read_private_port_policy.
  calm_run; auto using fresh_calm, namespace_calm, read_sysctl_calm, write_sysctl_calm, prepare_loopback_calm;
    apply calm_for; intros path; unfold disable_ipv6, check_ipv6; calm_run; auto using read_sysctl_calm, write_sysctl_calm.
Qed.
End Whole.

(** ** The contract of the preparation *)
Section Contract.
Context `{RouteLibc} `{NetHost}.

Lemma disable_extends : extends (st_for disable_ipv6 IPV6_PATHS).
Proof. cbn [st_for IPV6_PATHS]. unfold disable_ipv6, read_sysctl, write_sysctl. extends_run. Qed.

(** C14: whatever the kernel answers, no answer makes the preparation of a
    private namespace panic; and when it succeeds, the calls it made show a
    namespace that is fresh, whose last complete dumps (the kernel's own,
    uninterrupted, ended by a successful NLMSG_DONE) are exactly one interface,
    the loopback, up; exactly one address, 127.0.0.1/8 of host scope on it; and
    exactly the three automatic loopback routes, out of that interface, without
    a gateway.  After the routes were read nothing is sent on the socket: the
    port policy is written and read back as required, IPv6 reads as disabled
    three times, and the namespace is still the one it started in. *)
Theorem private_network_prepared caller provider h h' r : HostLaws → RouteLawful →
  prepare_private_ipv4_network caller provider h = (h', r) →
  r ≠ Err NetPanic ∧
  ∀ setup, r = Ok setup →
    ∃ target again before link between address routes keys e1 e2 e3 u p v values,
      h' = h ++ [Ev_Namespace (Ok target)] ++ before ++ e1 ++ between ++ e2 ++ e3
             ++ policy_events again u p v ++ ipv6_events values ++ [Ev_Namespace (Ok target)] ∧
      target ≠ caller ∧ target ≠ provider ∧ again ≠ caller ∧ again ≠ provider ∧
      dumped Links [link] e1 ∧ loopback_link (pn_loopback_index setup) link ∧
      dumped Addresses [address] e2 ∧ loopback_address (pn_loopback_index setup) address ∧
      dumped Routes routes e3 ∧ Forall2 (loopback_route (pn_loopback_index setup)) keys routes ∧ keys ≡ₚ automatic ∧
      parse_private_port_policy u p v = Ok REQUIRED ∧ pn_port_policy setup = REQUIRED ∧
      length values = 3%nat ∧ Forall (λ value, trim value = ONE) values ∧
      pn_address_count setup = 1%nat ∧ pn_route_count setup = 3%nat.
Proof.
  intros HL RL E. split; [intros ->; by apply (prepare_calm caller provider h); rewrite E|]. intros setup ->.
  unfold prepare_private_ipv4_network in E. apply stM_bind_Ok in E as (? & target & (-> & T1 & T2)%require_fresh_Ok & E).
  apply stM_bind_Ok in E as (? & ? & [b ->]%disable_extends & E).
  apply stM_bind_Ok in E as (? & [[index addresses] routes] & L & E).
  apply prepare_loopback_Ok in L as (before & link & between & address & keys & e1 & e2 & e3 & -> & G1 & G2 & -> & G3 & G4 & G5 & G6 & G7).
  apply stM_bind_Ok in E as (? & policy & (-> & again & u & p & v & -> & A1 & A2 & A3)%configure_Ok & E).
  apply stM_bind_Ok in E as (? & u1 & (values & V1 & V2 & ->)%check_ipv6_Ok & E).
  apply stM_bind_Ok in E as (? & current & ->%current_network_namespace_Ok & E).
  apply stM_bind_Ok in E as (? & ? & [-> N%guard_err_Ok]%st_lift_Ok & E). bool_hyps. subst current. injection E as <- <-.
  exists target, again, (b ++ before), link, between, address, routes, keys, e1, e2, e3, u, p, v, values.
  cbn [pn_loopback_index pn_port_policy pn_address_count pn_route_count]. rewrite <- !(assoc_L (++)).
  assert (length routes = 3%nat) as Lr by (apply Forall2_length in G6; apply Permutation_length in G7; rewrite <- G6; exact G7).
  do 16 (split; [done|]). done.
Qed.
End Contract.

(** ** A kernel that answers *)
Module NetlinkExamples.
#[export] Instance linux_numbers : RouteLibc := {|
  RTM_NEWLINK := 16; RTM_GETLINK := 18; RTM_NEWADDR := 20; RTM_GETADDR := 22; RTM_NEWROUTE := 24; RTM_GETROUTE := 26;
  NLMSG_ERROR := 2; NLMSG_DONE := 3; NLM_F_REQUEST := 1; NLM_F_MULTI := 2; NLM_F_ACK := 4; NLM_F_DUMP_INTR := 16;
  NLM_F_EXCL := 0x200; NLM_F_CREATE := 0x400; NLM_F_DUMP := 0x300;
  AF_NETLINK := 16; AF_UNSPEC := 0; AF_INET := 2; ARPHRD_LOOPBACK := 772; IFF_UP := 1; IFF_LOOPBACK := 8;
  IFLA_IFNAME := 3; IFA_ADDRESS := 1; IFA_LOCAL := 2; RT_SCOPE_HOST := 254; RT_SCOPE_LINK := 253; RT_TABLE_LOCAL := 255;
  RTPROT_KERNEL := 2; RTN_LOCAL := 2; RTN_BROADCAST := 3;
  RTA_DST := 1; RTA_OIF := 4; RTA_PREFSRC := 7; RTA_TABLE := 15; RTA_PRIORITY := 6; RTA_CACHEINFO := 12;
  MSG_TRUNC := 0x20; MSG_CTRUNC := 8; SOCKADDR_NL_BYTES := 12;
  big_endian := false; os_error_text := λ _, "error"%string |}.
#[export] Instance linux_lawful : RouteLawful.
Proof. by split. Qed.

Definition octets (l : list N) : list u8 := ascii_of_N <$> l.
Definition message (sequence kind flags : N) (payload : list u8) : list u8 :=
  message_bytes sequence 77 {| nm_kind := kind; nm_flags := flags; nm_payload := payload |}
    (replicate (N.to_nat (padding (16 + blen payload))) NUL).
Definition attribute (kind : N) (value : list u8) : list u8 :=
  ne_bytes 2 (4 + blen value) ++ ne_bytes 2 kind ++ value ++ replicate (N.to_nat (padding (4 + blen value))) NUL.
Definition finished (sequence : N) : list u8 := message sequence NLMSG_DONE 2 (octets [0; 0; 0; 0]).
Definition lo_link : list u8 :=
  octets [0; 0] ++ ne_bytes 2 772 ++ ne_bytes 4 1 ++ ne_bytes 4 9 ++ ne_bytes 4 0 ++ attribute 3 (octets [108; 111; 0]).
Definition lo_address : list u8 := octets [2; 8; 0; 254] ++ ne_bytes 4 1 ++ attribute 1 LOCALHOST ++ attribute 2 LOCALHOST.
Definition lo_route (prefix kind scope : N) (destination : list N) : list u8 :=
  octets [2; prefix; 0; 0; 255; 2; scope; kind; 0; 0; 0; 0] ++ attribute 15 (ne_bytes 4 255) ++ attribute 1 (octets destination)
  ++ attribute 7 LOCALHOST ++ attribute 4 (ne_bytes 4 1).

Fixpoint last_sent (h : history) (packet : list u8) : list u8 :=
  match h with [] => packet | Ev_Send sent _ :: h => last_sent h sent | _ :: h => last_sent h packet end.
Definition sent_kind (packet : list u8) : N := ne_uint (take 2 (drop 4 packet)).
Definition address_added (h : history) : bool :=
  existsb (λ e, match e with Ev_Send packet _ => sent_kind packet =? RTM_NEWADDR | _ => false end) h.
(** Answers the last request; the address appears once it was added. *)
Definition reply_to (h : history) : list u8 :=
  let packet := last_sent h [] in
  let sequence := ne_uint (take 4 (drop 8 packet)) in
  if sent_kind packet =? RTM_GETLINK then message sequence RTM_NEWLINK 2 lo_link ++ finished sequence
  else if sent_kind packet =? RTM_GETADDR then
    (if address_added h then message sequence RTM_NEWADDR 2 lo_address else []) ++ finished sequence
  else if sent_kind packet =? RTM_GETROUTE then
    message sequence RTM_NEWROUTE 2 (lo_route 8 2 254 [127; 0; 0; 0]) ++ message sequence RTM_NEWROUTE 2 (lo_route 32 2 254 [127; 0; 0; 1])
    ++ message sequence RTM_NEWROUTE 2 (lo_route 32 3 253 [127; 255; 255; 255]) ++ finished sequence
  else message sequence NLMSG_ERROR 0 (octets [0; 0; 0; 0]).
Definition sysctl_value (path : string) : list u8 :=
  if path ≟ UNPRIVILEGED_PORT_START then bytes "0" ++ [NEWLINE]
  else if path ≟ LOCAL_PORT_RANGE then bytes "32768" ++ [ascii_of_N 9] ++ bytes "60999" ++ [NEWLINE]
  else if path ≟ LOCAL_RESERVED_PORTS then [NEWLINE] else ONE ++ [NEWLINE].
Definition place (inode : N) : NamespaceIdentity := {| nid_device := 4; nid_inode := inode |}.
#[export] Instance kernel : NetHost := {|
  answer_namespace := λ _, Ok (place 3);
  answer_write := λ _ _ _, Ok ();
  answer_read := λ _ path _, Ok (sysctl_value path);
  answer_socket := λ _, (5%Z, ""%string); answer_bind := λ _, (0%Z, ""%string);
  answer_name := λ _, {| bn_result := 0; bn_length := 12; bn_family := 16; bn_pid := 77; bn_groups := 0 |};
  answer_timeout := λ _, (0%Z, ""%string);
  answer_send := λ _ packet, (Z.of_N (blen packet), ""%string);
  answer_receive := λ h,
    {| rc_result := (Z.of_nat (Nat.min (length (reply_to h)) (N.to_nat MAX_PACKET)), ""%string); rc_name_length := 12;
       rc_family := 16; rc_pid := 0; rc_groups := 0; rc_flags := 0;
       rc_buffer := take (N.to_nat MAX_PACKET) (reply_to h ++ replicate (N.to_nat MAX_PACKET) NUL) |} |}.
#[export] Instance kernel_lawful : HostLaws.
Proof.
  split; intros h.
  - done.
  - cbn [answer_receive kernel rc_buffer]. unfold blen. rewrite length_take, length_app, length_replicate. lia.
  - cbn [answer_receive kernel rc_result fst]. lia.
Qed.

Definition prepared : PrivateNetworkSetup :=
  {| pn_port_policy := REQUIRED; pn_loopback_index := 1; pn_address_count := 1; pn_route_count := 3 |}.
(** A namespace of its own is prepared; the address had to be added. *)
Lemma private_network_prepared_witness :
  ∃ h' setup routes keys e3, prepare_private_ipv4_network (place 1) (place 2) [] = (h', Ok setup) ∧
    pn_route_count setup = 3%nat ∧ dumped Routes routes e3 ∧
    Forall2 (loopback_route (pn_loopback_index setup)) keys routes ∧ keys ≡ₚ automatic.
Proof.
  destruct (prepare_private_ipv4_network (place 1) (place 2) []) as [h' r] eqn:E.
  assert (r = Ok prepared) as ->.
  { apply (f_equal snd) in E. cbn [snd] in E. rewrite <- E. vm_compute. reflexivity. }
  destruct (private_network_prepared _ _ _ _ _ kernel_lawful linux_lawful E) as [_ Hs].
  destruct (Hs _ eq_refl) as (? & ? & ? & ? & ? & ? & routes & keys & ? & ? & e3 & ? & ? & ? & ? & _ & _ & _ & _ & _ & _ & _ & _ & _ &
    G1 & G2 & G3 & _ & _ & _ & _ & _ & G4).
  exists h', prepared, routes, keys, e3. split; [reflexivity|]. split; [exact G4|]. split; [exact G1|]. split; [exact G2|exact G3].
Defined.
End NetlinkExamples.
