(* ===== verification/WindowsPe.v ===== *)
(** * The Windows PE reader

    windows_pe.rs of memcordon-core: the import and export tables of a PE32+
    image, read from the file or from a mapped view, and the rules on what the
    provider's helpers may import.  Bytes come from files the provider does not
    control.  [usize] has 64 bits; an addition the source leaves unchecked is
    [uadd], which panics when it leaves the range.  Messages are kept except the
    number of an unsupported machine. *)

From S2P Require Import Prelude Decimal Bounded Codec WorkloadCodec NativeText.
From Stdlib Require Import Ascii Sorted.

Definition WINDOWS_PE_MACHINE_AMD64 : N := 0x8664.
Definition WINDOWS_PE_MACHINE_ARM64 : N := 0xaa64.
Definition MAX_IMPORT_DESCRIPTORS : N := 1024.
Definition MAX_IMPORT_THUNKS : N := 16384.
Definition MAX_EXPORTS : N := 65536.
Definition MAX_PE_STRING_BYTES : N := 4096.

Record WindowsPeImports : Type := { wi_machine : N; wi_normal : list string; wi_delayed : list string }.
Inductive WindowsPeImportSymbol : Type := ImportName (hint : N) (name : string) | ImportOrdinal (ordinal : N).
Record WindowsPeImportDescriptor : Type := {
  im_ordinal : N; im_dll : string; im_symbols : list WindowsPeImportSymbol; im_lookup_table_rva : N;
  im_iat_rva : N; im_bound_timestamp : N
}.
Inductive WindowsPeExportTarget : Type := DirectRva (rva : N) | Forwarder (name : string).
Record WindowsPeExport : Type := { ex_ordinal : N; ex_name : option string; ex_target : WindowsPeExportTarget }.
Record WindowsPeLoaderContract : Type := {
  lc_machine : N; lc_normal : list WindowsPeImportDescriptor; lc_delayed : list WindowsPeImportDescriptor;
  lc_exports : list WindowsPeExport
}.
Inductive PeLayout : Type := Layout_File | Layout_MappedImage.

(** An error, or a panic. *)
Inductive pe_failure : Type := PeError (message : string) | PePanic.
Abbreviation peM := (result pe_failure).
Definition or_error {A} (message : string) (o : option A) : peM A := ok_or (PeError message) o.
Definition refuse_if (c : bool) (message : string) : peM () := guard_err c (PeError message).
(** [a + b] on [usize] *)
Definition uadd (a b : N) : peM N := ok_or PePanic (checked_add 64 a b).

(** [bytes.get(from..)] *)
Definition get_from (l : list u8) (from : N) : option (list u8) :=
  if from <=? blen l then Some (drop (N.to_nat from) l) else None.

(** [word], [dword] and [qword]: [k] bytes, little-endian. *)
Definition field (k : N) (bytes : list u8) (offset : N) : peM N :=
  finish ← or_error "PE offset overflow" (checked_add 64 offset k);
  value ← or_error "PE field is truncated" (get_range bytes offset finish);
  Ok (from_le_bytes value).
Definition word : list u8 → N → peM N := field 2.
Definition dword : list u8 → N → peM N := field 4.
Definition qword : list u8 → N → peM N := field 8.
(** [dword(bytes, base + delta)?] *)
Definition dword_at (bytes : list u8) (base delta : N) : peM N := offset ← uadd base delta; dword bytes offset.
Definition word_at (bytes : list u8) (base delta : N) : peM N := offset ← uadd base delta; word bytes offset.

Record Section_ : Type := {
  sc_virtual_address : N; sc_virtual_size : N; sc_raw_offset : N; sc_raw_size : N
}.

Fixpoint section_offset (bytes : list u8) (rva : N) (sections : list Section_) : peM N :=
  match sections with
  | [] => Err (PeError "PE RVA is not mapped by a section")
  | s :: sections =>
      finish ← or_error "PE section RVA overflows"
                 (checked_add 32 (sc_virtual_address s) (N.max (sc_virtual_size s) (sc_raw_size s)));
      if (sc_virtual_address s <=? rva) && (rva <? finish) then
        let within := rva - sc_virtual_address s in
        refuse_if (sc_raw_size s <=? within) "PE RVA points outside section file data" ;;
        offset ← or_error "PE section file offset overflows" (checked_add 32 (sc_raw_offset s) within);
        _ ← or_error "PE section file offset is outside the image" (get_from bytes offset);
        Ok offset
      else section_offset bytes rva sections
  end.
Definition rva_offset (bytes : list u8) (rva size_of_headers : N) (sections : list Section_) : peM N :=
  if rva <? size_of_headers then
    _ ← or_error "PE header RVA is outside the image" (get_from bytes rva);
    Ok rva
  else section_offset bytes rva sections.
Definition layout_rva_offset (bytes : list u8) (rva size_of_headers : N) (sections : list Section_) (layout : PeLayout)
    : peM N :=
  match layout with
  | Layout_File => rva_offset bytes rva size_of_headers sections
  | Layout_MappedImage => _ ← or_error "PE mapped-image RVA is outside the view" (get_from bytes rva); Ok rva
  end.

(** [iter().position(|byte| *byte == 0)] *)
Definition position_nul (l : list u8) : option nat := fst <$> list_find (λ b, N_of_ascii b = 0) l.
Definition is_ascii_text (l : list u8) : bool := forallb (byte_in 0 127) l.
Definition to_ascii_uppercase (b : u8) : u8 := if is_ascii_lowercase b then ascii_of_N (N_of_ascii b - 32) else b.

Definition ascii_bytes (bytes : list u8) (offset : N) (class : string) : peM (list u8) :=
  tail ← or_error ("PE " +:+ class +:+ " string offset is outside the image") (get_from bytes offset);
  let bounded := take (N.to_nat (N.min (blen tail) (MAX_PE_STRING_BYTES + 1))) tail in
  length' ← or_error ("PE " +:+ class +:+ " string is unterminated or exceeds its bound") (position_nul bounded);
  let value := take length' bounded in
  refuse_if (negb (is_utf8 value)) ("PE " +:+ class +:+ " string is not UTF-8") ;;
  refuse_if ((blen value =? 0) || negb (is_ascii_text value)) ("PE " +:+ class +:+ " string is not canonical ASCII") ;;
  Ok value.
Definition ascii_string (bytes : list u8) (offset : N) (class : string) : peM string :=
  value ← ascii_bytes bytes offset class; Ok (String.string_of_list_ascii value).
Definition dll_name (bytes : list u8) (offset : N) : peM string :=
  name ← ascii_bytes bytes offset "import name";
  refuse_if ((blen name =? 0) || negb (is_ascii_text name)
             || existsb (λ b, (b ≟ "/"%char) || (b ≟ "\"%char)) name)
    "PE import name is not a canonical DLL basename" ;;
  Ok (String.string_of_list_ascii (to_ascii_uppercase <$> name)).

(** ** Headers *)
Record PeHeaders : Type := {
  ph_machine : N; ph_image_base : N; ph_size_of_headers : N; ph_sections : list Section_; ph_export_rva : N;
  ph_export_size : N; ph_normal_rva : N; ph_normal_size : N; ph_delay_rva : N; ph_delay_size : N
}.

(** [for index in 0..count], collecting. *)
Fixpoint for_indices {A} (body : N → peM A) (count : nat) (index : N) : peM (list A) :=
  match count with
  | O => Ok []
  | S count => x ← body index; rest ← for_indices body count (index + 1); Ok (x :: rest)
  end.

Definition read_section (bytes : list u8) (optional_end index : N) : peM Section_ :=
  scaled ← or_error "PE section index overflow" (checked_mul 64 index 40);
  offset ← or_error "PE section offset overflow" (checked_add 64 optional_end scaled);
  finish ← or_error "PE section header overflow" (checked_add 64 offset 40);
  _ ← or_error "PE section header is truncated" (get_range bytes offset finish);
  virtual_size ← dword_at bytes offset 8;
  virtual_address ← dword_at bytes offset 12;
  raw_size ← dword_at bytes offset 16;
  raw_offset ← dword_at bytes offset 20;
  Ok {| sc_virtual_address := virtual_address; sc_virtual_size := virtual_size; sc_raw_offset := raw_offset;
        sc_raw_size := raw_size |}.

Definition pe_headers (bytes' : list u8) : peM PeHeaders :=
  refuse_if (get_range bytes' 0 2 ≠? Some (bytes "MZ")) "Windows helper lacks the DOS header" ;;
  pe ← dword bytes' 0x3c;
  signature_end ← or_error "PE header offset overflow" (checked_add 64 pe 4);
  refuse_if (get_range bytes' pe signature_end ≠? Some (bytes "PE" ++ [NUL; NUL]))
    "Windows helper lacks the PE signature" ;;
  machine ← word_at bytes' pe 4;
  refuse_if (negb (machine =? WINDOWS_PE_MACHINE_AMD64) && negb (machine =? WINDOWS_PE_MACHINE_ARM64))
    "Windows helper has unsupported PE machine" ;;
  section_count ← word_at bytes' pe 6;
  optional_size ← word_at bytes' pe 20;
  optional ← or_error "PE optional-header offset overflow" (checked_add 64 pe 24);
  magic ← word bytes' optional;
  refuse_if (negb (magic =? 0x20b) || (optional_size <? 224)) "Windows helper is not a complete PE32+ image" ;;
  optional_end ← or_error "PE optional-header size overflow" (checked_add 64 optional optional_size);
  _ ← or_error "PE optional header is truncated" (get_range bytes' optional optional_end);
  image_base ← (offset ← uadd optional 24; qword bytes' offset);
  size_of_headers ← dword_at bytes' optional 60;
  directories ← dword_at bytes' optional 108;
  refuse_if (directories <=? 13) "Windows helper lacks required PE data directories" ;;
  sections ← for_indices (read_section bytes' optional_end) (N.to_nat section_count) 0;
  export_rva ← dword_at bytes' optional 112;
  export_size ← dword_at bytes' optional 116;
  normal_rva ← dword_at bytes' optional 120;
  normal_size ← dword_at bytes' optional 124;
  delay_rva ← dword_at bytes' optional 216;
  delay_size ← dword_at bytes' optional 220;
  Ok {| ph_machine := machine; ph_image_base := image_base; ph_size_of_headers := size_of_headers;
        ph_sections := sections; ph_export_rva := export_rva; ph_export_size := export_size;
        ph_normal_rva := normal_rva; ph_normal_size := normal_size; ph_delay_rva := delay_rva;
        ph_delay_size := delay_size |}.

(** ** Imports *)
Definition va_or_rva (value image_base : N) (rva_based : bool) (name : string) : peM N :=
  if rva_based || (value =? 0) then Ok value
  else
    relative ← or_error ("PE delay import " +:+ name +:+ " precedes image base") (checked_sub value image_base);
    or_error ("PE delay import " +:+ name +:+ " RVA is too large") (try_from 32 relative).

Definition at_rva (bytes : list u8) (rva : N) (headers : PeHeaders) (layout : PeLayout) : peM N :=
  layout_rva_offset bytes rva (ph_size_of_headers headers) (ph_sections headers) layout.

Definition ORDINAL_FLAG : N := 2 ^ 63.
(** One entry of a lookup table; [None] is the terminator. *)
Definition import_symbol (bytes : list u8) (start : N) (headers : PeHeaders) (layout : PeLayout) (index : N)
    : peM (option WindowsPeImportSymbol) :=
  scaled ← or_error "PE thunk index overflow" (checked_mul 64 index 8);
  offset ← or_error "PE thunk offset overflow" (checked_add 64 start scaled);
  thunk ← qword bytes offset;
  if thunk =? 0 then Ok None
  else if negb (N.land thunk ORDINAL_FLAG =? 0) then
    refuse_if (negb (N.land thunk (2 ^ 64 - 1 - N.lor ORDINAL_FLAG 0xffff) =? 0))
      "PE ordinal thunk has reserved bits" ;;
    Ok (Some (ImportOrdinal (thunk mod 2 ^ 16)))
  else
    name_rva ← or_error "PE name thunk RVA is too large" (try_from 32 thunk);
    name_offset ← at_rva bytes name_rva headers layout;
    hint ← word bytes name_offset;
    text_offset ← uadd name_offset 2;
    name ← ascii_string bytes text_offset "import symbol";
    Ok (Some (ImportName hint name)).

(** [for index in 0..maximum], until an entry that ends the table; without one
    the table is refused. *)
Fixpoint until_end {A} (entry : N → peM (option A)) (message : string) (fuel : nat) (index : N) : peM (list A) :=
  match fuel with
  | O => Err (PeError message)
  | S fuel =>
      x ← entry index;
      match x with
      | None => Ok []
      | Some x => rest ← until_end entry message fuel (index + 1); Ok (x :: rest)
      end
  end.

Definition import_symbols (bytes : list u8) (lookup_rva : N) (headers : PeHeaders) (layout : PeLayout)
    : peM (list WindowsPeImportSymbol) :=
  refuse_if (lookup_rva =? 0) "PE import descriptor has no lookup or IAT table" ;;
  start ← at_rva bytes lookup_rva headers layout;
  until_end (import_symbol bytes start headers layout)
    "PE import thunk table exceeds its bound or is unterminated" (N.to_nat MAX_IMPORT_THUNKS) 0.

(** Where an entry of a directory is, unless it is the terminator. *)
Definition descriptor_offset (bytes : list u8) (start descriptor_size index : N) : peM (option N) :=
  scaled ← or_error "PE import index overflow" (checked_mul 64 index descriptor_size);
  offset ← or_error "PE import descriptor offset overflow" (checked_add 64 start scaled);
  finish ← or_error "PE import descriptor overflow" (checked_add 64 offset descriptor_size);
  descriptor ← or_error "PE import descriptor is truncated" (get_range bytes offset finish);
  Ok (if forallb (λ b, N_of_ascii b =? 0) descriptor then None else Some offset).

(** [!delay || dword(bytes, offset)? & 1 != 0] *)
Definition is_rva_based (bytes : list u8) (delay : bool) (offset : N) : peM bool :=
  if delay then attributes ← dword bytes offset; Ok (negb (N.land attributes 1 =? 0)) else Ok true.

Definition lookup_table (image_base : N) (rva_based : bool) (raw_lookup iat_rva : N) : peM N :=
  va_or_rva (if raw_lookup =? 0 then iat_rva else raw_lookup) image_base rva_based "lookup table".

Definition import_descriptor (bytes : list u8) (start : N) (delay : bool) (headers : PeHeaders) (layout : PeLayout)
    (index : N) : peM (option WindowsPeImportDescriptor) :=
  found ← descriptor_offset bytes start (if delay then 32 else 20) index;
  match found with
  | None => Ok None
  | Some offset =>
      rva_based ← is_rva_based bytes delay offset;
      raw_name ← dword_at bytes offset (if delay then 4 else 12);
      name_rva ← va_or_rva raw_name (ph_image_base headers) rva_based "name";
      refuse_if (name_rva =? 0) "PE import descriptor has no DLL name" ;;
      raw_iat ← dword_at bytes offset (if delay then 12 else 16);
      iat_rva ← va_or_rva raw_iat (ph_image_base headers) rva_based "IAT";
      raw_lookup ← dword_at bytes offset (if delay then 16 else 0);
      lookup_table_rva ← lookup_table (ph_image_base headers) rva_based raw_lookup iat_rva;
      name_offset ← at_rva bytes name_rva headers layout;
      dll ← dll_name bytes name_offset;
      symbols ← import_symbols bytes lookup_table_rva headers layout;
      bound_timestamp ← dword_at bytes offset (if delay then 28 else 4);
      Ok (Some {| im_ordinal := index; im_dll := dll; im_symbols := symbols;
                  im_lookup_table_rva := lookup_table_rva; im_iat_rva := iat_rva;
                  im_bound_timestamp := bound_timestamp |})
  end.

Definition import_descriptors (bytes : list u8) (directory_rva directory_size : N) (delay : bool)
    (headers : PeHeaders) (layout : PeLayout) : peM (list WindowsPeImportDescriptor) :=
  if (directory_rva =? 0) && (directory_size =? 0) then Ok []
  else
    refuse_if ((directory_rva =? 0) || (directory_size =? 0)) "PE import directory is partially absent" ;;
    start ← at_rva bytes directory_rva headers layout;
    let maximum := N.min (directory_size / (if delay then 32 else 20)) MAX_IMPORT_DESCRIPTORS in
    refuse_if (maximum =? 0) "PE import directory cannot hold a descriptor" ;;
    until_end (import_descriptor bytes start delay headers layout)
      "PE import directory has no terminating descriptor within its bound" (N.to_nat maximum) 0.

(** ** Exports *)

(** The names, by the index of the function they name. *)
Fixpoint export_names_loop (bytes : list u8) (names ordinals function_count : N) (headers : PeHeaders)
    (layout : PeLayout) (count : nat) (index : N) (export_names : list (option string))
    : peM (list (option string)) :=
  match count with
  | O => Ok export_names
  | S count =>
      name_rva ← dword_at bytes names (index * 4);
      function_index ← word_at bytes ordinals (index * 2);
      refuse_if ((function_count <=? function_index)
                 || match export_names !! N.to_nat function_index with Some (Some _) => true | _ => false end)
        "PE export name ordinal is invalid or duplicated" ;;
      name_offset ← at_rva bytes name_rva headers layout;
      name ← ascii_string bytes name_offset "export name";
      export_names_loop bytes names ordinals function_count headers layout count (index + 1)
        (<[N.to_nat function_index := Some name]> export_names)
  end.

Definition export_entry (bytes : list u8) (functions ordinal_base forwarder_end : N) (headers : PeHeaders)
    (layout : PeLayout) (index : N) (name : option string) : peM (option WindowsPeExport) :=
  target_rva ← dword_at bytes functions (index * 4);
  if target_rva =? 0 then Ok None
  else
    target ← (if (ph_export_rva headers <=? target_rva) && (target_rva <? forwarder_end) then
                offset ← at_rva bytes target_rva headers layout;
                Forwarder <$> ascii_string bytes offset "export forwarder"
              else Ok (DirectRva target_rva));
    ordinal ← or_error "PE export ordinal overflows" (checked_add 32 ordinal_base index);
    Ok (Some {| ex_ordinal := ordinal; ex_name := name; ex_target := target |}).

Fixpoint export_entries (entry : N → option string → peM (option WindowsPeExport)) (index : N)
    (names : list (option string)) : peM (list WindowsPeExport) :=
  match names with
  | [] => Ok []
  | name :: names =>
      x ← entry index name;
      rest ← export_entries entry (index + 1) names;
      Ok (match x with Some x => x :: rest | None => rest end)
  end.

Definition exports (bytes : list u8) (headers : PeHeaders) (layout : PeLayout) : peM (list WindowsPeExport) :=
  if (ph_export_rva headers =? 0) && (ph_export_size headers =? 0) then Ok []
  else
    refuse_if ((ph_export_rva headers =? 0) || (ph_export_size headers <? 40))
      "PE export directory is partially absent or truncated" ;;
    directory ← at_rva bytes (ph_export_rva headers) headers layout;
    ordinal_base ← dword_at bytes directory 16;
    function_count ← dword_at bytes directory 20;
    name_count ← dword_at bytes directory 24;
    refuse_if ((MAX_EXPORTS <? function_count) || (function_count <? name_count) || (MAX_EXPORTS <? name_count))
      "PE export inventory exceeds its bound" ;;
    functions_rva ← dword_at bytes directory 28;
    functions ← at_rva bytes functions_rva headers layout;
    names_rva ← dword_at bytes directory 32;
    names ← at_rva bytes names_rva headers layout;
    ordinals_rva ← dword_at bytes directory 36;
    ordinals ← at_rva bytes ordinals_rva headers layout;
    export_names ← export_names_loop bytes names ordinals function_count headers layout (N.to_nat name_count) 0
                     (replicate (N.to_nat function_count) None);
    forwarder_end ← or_error "PE export directory RVA overflows"
                      (checked_add 32 (ph_export_rva headers) (ph_export_size headers));
    export_entries (export_entry bytes functions ordinal_base forwarder_end headers layout) 0 export_names.

Definition parse_windows_pe_loader_contract_with_layout (bytes : list u8) (layout : PeLayout)
    : peM WindowsPeLoaderContract :=
  headers ← pe_headers bytes;
  normal ← import_descriptors bytes (ph_normal_rva headers) (ph_normal_size headers) false headers layout;
  delayed ← import_descriptors bytes (ph_delay_rva headers) (ph_delay_size headers) true headers layout;
  exports ← exports bytes headers layout;
  Ok {| lc_machine := ph_machine headers; lc_normal := normal; lc_delayed := delayed; lc_exports := exports |}.
Definition parse_windows_pe_loader_contract (bytes : list u8) : peM WindowsPeLoaderContract :=
  parse_windows_pe_loader_contract_with_layout bytes Layout_File.
Definition parse_windows_pe_mapped_loader_contract (bytes : list u8) : peM WindowsPeLoaderContract :=
  parse_windows_pe_loader_contract_with_layout bytes Layout_MappedImage.

(** ** The names of the imported libraries *)

Definition import_name (bytes : list u8) (start descriptor_size name_field : N) (delay : bool)
    (image_base size_of_headers : N) (sections : list Section_) (index : N) : peM (option string) :=
  found ← descriptor_offset bytes start descriptor_size index;
  match found with
  | None => Ok None
  | Some offset =>
      raw_name ← dword_at bytes offset name_field;
      refuse_if (raw_name =? 0) "PE import descriptor has no DLL name" ;;
      rva_based ← is_rva_based bytes delay offset;
      name_rva ← (if rva_based : bool then Ok raw_name
                  else
                    relative ← or_error "PE delay import name precedes image base" (checked_sub raw_name image_base);
                    or_error "PE delay import name RVA is too large" (try_from 32 relative));
      name_offset ← rva_offset bytes name_rva size_of_headers sections;
      dll ← dll_name bytes name_offset;
      Ok (Some dll)
  end.

Definition import_names (bytes : list u8) (directory_rva directory_size descriptor_size name_field : N) (delay : bool)
    (image_base size_of_headers : N) (sections : list Section_) : peM (list string) :=
  if (directory_rva =? 0) && (directory_size =? 0) then Ok []
  else
    refuse_if ((directory_rva =? 0) || (directory_size =? 0)) "PE import directory is partially absent" ;;
    start ← rva_offset bytes directory_rva size_of_headers sections;
    let maximum := directory_size / descriptor_size in
    refuse_if (maximum =? 0) "PE import directory cannot hold a descriptor" ;;
    names ← until_end
      (import_name bytes start descriptor_size name_field delay image_base size_of_headers sections)
      "PE import directory has no terminating descriptor" (N.to_nat maximum) 0;
    Ok (foldl (λ imports name, btree_insert name imports) [] names).

Definition parse_windows_pe_imports (bytes : list u8) : peM WindowsPeImports :=
  headers ← pe_headers bytes;
  normal ← import_names bytes (ph_normal_rva headers) (ph_normal_size headers) 20 12 false (ph_image_base headers)
             (ph_size_of_headers headers) (ph_sections headers);
  delayed ← import_names bytes (ph_delay_rva headers) (ph_delay_size headers) 32 4 true (ph_image_base headers)
              (ph_size_of_headers headers) (ph_sections headers);
  Ok {| wi_machine := ph_machine headers; wi_normal := normal; wi_delayed := delayed |}.

(** ** What the helpers may import *)
Definition DESKTOP_DENIED : list string :=
  ["USER32.DLL"; "GDI32.DLL"; "GDI32FULL.DLL"; "COMCTL32.DLL"; "COMDLG32.DLL"; "OLE32.DLL"; "OLEAUT32.DLL";
   "SHELL32.DLL"; "SHLWAPI.DLL"]%string.
Definition BROKER_DENIED : list string :=
  DESKTOP_DENIED ++ ["URLMON.DLL"; "WINHTTP.DLL"; "WININET.DLL"; "WS2_32.DLL"]%string.
Definition desktop_denied (name : string) : bool :=
  bool_decide (name ∈ DESKTOP_DENIED) || (name ≟ "MSVCRT.DLL"%string) || String.prefix "VCRUNTIME" name
  || String.prefix "MSVCP" name.
Definition broker_denied (name : string) : bool := bool_decide (name ∈ BROKER_DENIED).

Definition verify_target_desktop_bootstrap_imports (imports : WindowsPeImports) : peM () :=
  match List.find desktop_denied (wi_normal imports ++ wi_delayed imports) with
  | Some name =>
      Err (PeError ("target desktop bootstrap PE imports forbidden redistributable or UI loader dependency " +:+ name))
  | None => Ok ()
  end.
Definition verify_target_desktop_bootstrap_pe (bytes : list u8) : peM WindowsPeImports :=
  imports ← parse_windows_pe_imports bytes;
  verify_target_desktop_bootstrap_imports imports ≫= λ _,
  Ok imports.
Definition verify_session_broker_pe (bytes : list u8) : peM WindowsPeImports :=
  imports ← parse_windows_pe_imports bytes;
  match List.find broker_denied (wi_normal imports ++ wi_delayed imports) with
  | Some name => Err (PeError ("session broker PE imports forbidden general-purpose dependency " +:+ name))
  | None => Ok imports
  end.

(** ** No input makes the reader panic *)

(** A computation that does not panic, and whose value satisfies [Q]. *)
Definition safe {A} (m : peM A) (Q : A → Prop) : Prop :=
  match m with Ok a => Q a | Err (PeError _) => True | Err PePanic => False end.

Lemma safe_bind {A B} (m : peM A) (k : A → peM B) P Q :
  safe m P → (∀ a, P a → safe (k a) Q) → safe (m ≫= k) Q.
Proof. destruct m as [a|[]]; cbn; auto. Qed.
Lemma safe_mono {A} (m : peM A) (P Q : A → Prop) : safe m P → (∀ a, P a → Q a) → safe m Q.
Proof. destruct m as [a|[]]; cbn; auto. Qed.
Lemma safe_Ok {A} (a : A) (Q : A → Prop) : Q a → safe (Ok a) Q.
Proof. done. Qed.
Lemma safe_or_error {A} message (o : option A) (Q : A → Prop) : (∀ a, o = Some a → Q a) → safe (or_error message o) Q.
Proof. destruct o; cbn; auto. Qed.
Lemma safe_refuse c message : safe (refuse_if c message) (λ _, c = false).
Proof. by destruct c. Qed.
Lemma safe_uadd a b (Q : N → Prop) : a + b < 2 ^ 64 → Q (a + b) → safe (uadd a b) Q.
Proof. intros Hab HQ. unfold uadd, checked_add, fits. by replace (_ <? 2 ^ 64) with true by lia. Qed.
Lemma safe_if {A} (c : bool) (m n : peM A) Q : (c = true → safe m Q) → (c = false → safe n Q) → safe (if c then m else n) Q.
Proof. destruct c; auto. Qed.
Lemma safe_no_panic {A} (m : peM A) Q : safe m Q → m ≠ Err PePanic.
Proof. by destruct m as [a|[]]. Qed.
Lemma safe_value {A} (m : peM A) Q a : safe m Q → m = Ok a → Q a.
Proof. by intros Hs ->. Qed.

Create HintDb pe discriminated.
#[local] Hint Resolve safe_refuse : pe.

(** Walks through a computation with the specifications of its parts. *)
Ltac safe_steps :=
  repeat first
    [ apply safe_Ok
    | eapply safe_bind; [solve [eauto with pe]|]; intros ? ?
    | eapply safe_bind; [apply safe_or_error; intros ? ?; eassumption|]; cbn beta; intros ? ?
    | apply safe_if; intros ? ].

Section NoPanic.
Context (input : list u8) (input_bound : blen input < 2 ^ 63).

Lemma get_from_Some l from tail : get_from l from = Some tail → from <= blen l ∧ tail = drop (N.to_nat from) l.
Proof. unfold get_from. case_match eqn:E; [|done]. intros [= <-]. by apply N.leb_le in E. Qed.
Lemma get_range_Some l from to piece : get_range l from to = Some piece →
  from <= to ∧ to <= blen l ∧ blen piece = to - from.
Proof.
  unfold get_range. case_match eqn:E; [|done]. intros [= <-]. bool_hyps. split_and!; [done|done|].
  unfold blen in *. rewrite length_take, length_drop. lia.
Qed.

Lemma safe_field k offset : k <= 8 → safe (field k input offset) (λ v, v < 256 ^ k ∧ offset + k <= blen input).
Proof.
  intros Hk. unfold field. eapply (safe_bind _ _ (λ finish, finish = offset + k)).
  { apply safe_or_error. intros f Hf. by apply checked_add_Some in Hf as [-> _]. }
  intros finish ->. eapply (safe_bind _ _ (λ v, blen v = k ∧ offset + k <= blen input)).
  { apply safe_or_error. intros v (_ & ? & ?)%get_range_Some. split; [lia|done]. }
  intros v [Hv Hl]. apply safe_Ok. split; [|done]. pose proof (from_le_bytes_bound v) as Hb.
  unfold blen in Hv. by rewrite Hv in Hb.
Qed.
Lemma safe_dword offset : safe (dword input offset) (λ v, v < 2 ^ 32 ∧ offset + 4 <= blen input).
Proof. by apply (safe_field 4). Qed.
Lemma safe_word offset : safe (word input offset) (λ v, v < 2 ^ 16 ∧ offset + 2 <= blen input).
Proof. by apply (safe_field 2). Qed.
Lemma safe_qword offset : safe (qword input offset) (λ v, v < 2 ^ 64 ∧ offset + 8 <= blen input).
Proof. by apply (safe_field 8). Qed.
Lemma safe_dword_at base delta : base + delta < 2 ^ 64 →
  safe (dword_at input base delta) (λ v, v < 2 ^ 32 ∧ base + delta + 4 <= blen input).
Proof. intros Hb. eapply safe_bind; [by apply (safe_uadd _ _ (λ o, o = base + delta))|]. intros ? ->. apply safe_dword. Qed.
Lemma safe_word_at base delta : base + delta < 2 ^ 64 →
  safe (word_at input base delta) (λ v, v < 2 ^ 16 ∧ base + delta + 2 <= blen input).
Proof. intros Hb. eapply safe_bind; [by apply (safe_uadd _ _ (λ o, o = base + delta))|]. intros ? ->. apply safe_word. Qed.

(** Every offset the reader computes from an address lies within the input. *)
Lemma safe_section_offset rva sections : safe (section_offset input rva sections) (λ o, o <= blen input).
Proof.
  induction sections as [|s sections IH]; cbn [section_offset]; [done|].
  eapply (safe_bind _ _ (λ _, True)); [by apply safe_or_error|]. intros finish _. apply safe_if; [intros _|done].
  eapply safe_bind; [apply safe_refuse|]. intros [] _.
  eapply (safe_bind _ _ (λ _, True)); [by apply safe_or_error|]. intros offset _.
  eapply (safe_bind _ _ (λ _, offset <= blen input)); [|by intros ? ?; apply safe_Ok].
  apply safe_or_error. by intros ? [? _]%get_from_Some.
Qed.
Lemma safe_rva_offset rva headers sections : safe (rva_offset input rva headers sections) (λ o, o <= blen input).
Proof.
  unfold rva_offset. apply safe_if; intros _; [|apply safe_section_offset].
  eapply (safe_bind _ _ (λ _, rva <= blen input)); [|by intros ? ?; apply safe_Ok].
  apply safe_or_error. by intros ? [? _]%get_from_Some.
Qed.
Lemma safe_at_rva rva headers layout : safe (at_rva input rva headers layout) (λ o, o <= blen input).
Proof.
  unfold at_rva, layout_rva_offset. destruct layout; [apply safe_rva_offset|].
  eapply (safe_bind _ _ (λ _, rva <= blen input)); [|by intros ? ?; apply safe_Ok].
  apply safe_or_error. by intros ? [? _]%get_from_Some.
Qed.

(** Canonical text: non-empty ASCII within the bound, without a NUL. *)
Definition canonical (value : list u8) : Prop :=
  0 < blen value ∧ blen value <= MAX_PE_STRING_BYTES ∧ Forall (λ b, 0 < N_of_ascii b ∧ N_of_ascii b <= 127) value.
Lemma position_nul_Some l n : position_nul l = Some n →
  (n < length l)%nat ∧ Forall (λ b, N_of_ascii b ≠ 0) (take n l).
Proof.
  unfold position_nul. intros E. apply fmap_Some in E as ([i b] & E & ->). cbn [fst].
  apply list_find_Some in E as (Hl & _ & Hn). split; [by eapply lookup_lt_Some|].
  apply Forall_lookup. intros j x [Hx Hj]%lookup_take_Some. by eapply Hn.
Qed.
Lemma safe_ascii_bytes offset class : safe (ascii_bytes input offset class) canonical.
Proof.
  unfold ascii_bytes. eapply (safe_bind _ _ (λ _, True)); [by apply safe_or_error|]. intros tail _. cbv zeta.
  set (bounded := take _ tail).
  eapply (safe_bind _ _ (λ n, position_nul bounded = Some n)); [by apply safe_or_error|]. intros n Hn.
  apply position_nul_Some in Hn as [Hn Hz].
  eapply safe_bind; [apply safe_refuse|]. intros [] _. eapply safe_bind; [apply safe_refuse|]. intros [] Hc.
  apply orb_false_iff in Hc as [He%N.eqb_neq Ha%negb_false_iff]. apply safe_Ok. split_and!; [lia|..].
  - unfold bounded, blen, MAX_PE_STRING_BYTES in *. rewrite !length_take in *. lia.
  - apply forallb_Forall in Ha. apply Forall_and. split.
    + eapply Forall_impl; [exact Hz|]. cbn. intros b ?. lia.
    + eapply Forall_impl; [exact Ha|]. unfold byte_in. intros b ?. bool_hyps. done.
Qed.
Definition canonical_text (s : string) : Prop := canonical (bytes s).
Lemma safe_ascii_string offset class : safe (ascii_string input offset class) canonical_text.
Proof.
  eapply safe_bind; [apply safe_ascii_bytes|]. intros v Hv. apply safe_Ok. unfold canonical_text.
  by rewrite bytes_string.
Qed.

Lemma safe_for_indices {A} (body : N → peM A) count index (Q : A → Prop) :
  (∀ i, i < index + N.of_nat count → safe (body i) Q) →
  safe (for_indices body count index) (λ l, length l = count ∧ Forall Q l).
Proof.
  revert index. induction count as [|count IH]; intros index Hb; cbn [for_indices].
  { apply safe_Ok. by split; [|constructor]. }
  eapply safe_bind; [apply Hb; lia|]. intros x Hx. eapply safe_bind.
  { apply IH. intros i Hi. apply Hb. lia. }
  intros l [Hl Hf]. apply safe_Ok. split; [cbn; by rewrite Hl|by constructor].
Qed.
Lemma safe_until_end {A} (entry : N → peM (option A)) message fuel index (Q : N → A → Prop) :
  (∀ i, i < index + N.of_nat fuel → safe (entry i) (λ x, ∀ a, x = Some a → Q i a)) →
  safe (until_end entry message fuel index)
    (λ l, (length l < fuel)%nat ∧ ∀ j a, l !! j = Some a → Q (index + N.of_nat j) a).
Proof.
  revert index. induction fuel as [|fuel IH]; intros index He; cbn [until_end]; [done|].
  eapply safe_bind; [apply He; lia|]. intros [x|] Hx; [|apply safe_Ok; split; [cbn; lia|done]].
  eapply safe_bind.
  { apply IH. intros i Hi. apply He. lia. }
  intros l [Hl Hf]. apply safe_Ok. split; [cbn; lia|]. intros [|j] a Hj; cbn in Hj.
  - injection Hj as <-. rewrite N.add_0_r. auto.
  - replace (index + N.of_nat (S j)) with (index + 1 + N.of_nat j) by lia. auto.
Qed.

Lemma safe_read_section optional_end index : safe (read_section input optional_end index) (λ _, True).
Proof.
  unfold read_section. eapply (safe_bind _ _ (λ _, True)); [by apply safe_or_error|]. intros scaled _.
  eapply (safe_bind _ _ (λ _, True)); [by apply safe_or_error|]. intros offset _.
  eapply (safe_bind _ _ (λ f, f = offset + 40)).
  { apply safe_or_error. by intros ? [-> _]%checked_add_Some. }
  intros ? ->. eapply (safe_bind _ _ (λ _, offset + 40 <= blen input)).
  { apply safe_or_error. by intros ? (_ & ? & _)%get_range_Some. }
  intros _ Ho. repeat (eapply safe_bind; [apply safe_dword_at; lia|]; intros ? _). by apply safe_Ok.
Qed.

Definition supported_machine (machine : N) : Prop :=
  machine = WINDOWS_PE_MACHINE_AMD64 ∨ machine = WINDOWS_PE_MACHINE_ARM64.
Lemma safe_pe_headers : safe (pe_headers input) (λ h, supported_machine (ph_machine h)).
Proof.
  unfold pe_headers. eapply safe_bind; [apply safe_refuse|]. intros [] _.
  eapply safe_bind; [apply safe_dword|]. intros pe [Hpe _].
  eapply (safe_bind _ _ (λ _, True)); [by apply safe_or_error|]. intros sig _.
  eapply safe_bind; [apply safe_refuse|]. intros [] _.
  eapply safe_bind; [apply safe_word_at; lia|]. intros machine _.
  eapply safe_bind; [apply safe_refuse|]. intros [] Hm.
  eapply safe_bind; [apply safe_word_at; lia|]. intros count _.
  eapply safe_bind; [apply safe_word_at; lia|]. intros size [Hs _].
  eapply (safe_bind _ _ (λ o, o = pe + 24)).
  { apply safe_or_error. by intros ? [-> _]%checked_add_Some. }
  intros ? ->. eapply safe_bind; [apply safe_word|]. intros magic _.
  eapply safe_bind; [apply safe_refuse|]. intros [] _.
  eapply (safe_bind _ _ (λ _, True)); [by apply safe_or_error|]. intros oend _.
  eapply (safe_bind _ _ (λ _, True)); [by apply safe_or_error|]. intros _ _.
  eapply (safe_bind _ _ (λ _, True)).
  { eapply (safe_bind _ _ (λ _, True)); [apply safe_uadd; [lia|done]|]. intros o _.
    eapply safe_mono; [apply safe_qword|done]. }
  intros base _. do 2 (eapply safe_bind; [apply safe_dword_at; lia|]; intros ? _).
  eapply safe_bind; [apply safe_refuse|]. intros [] _.
  eapply safe_bind; [apply (safe_for_indices _ _ _ (λ _, True)); intros; apply safe_read_section|]. intros sections _.
  repeat (eapply safe_bind; [apply safe_dword_at; lia|]; intros ? _). apply safe_Ok. cbn.
  unfold supported_machine. apply andb_false_iff in Hm as [Hm|Hm]; apply negb_false_iff, N.eqb_eq in Hm; auto.
Qed.

(** *** Imports *)
Definition symbol_ok (s : WindowsPeImportSymbol) : Prop :=
  match s with
  | ImportName hint name => hint < 2 ^ 16 ∧ canonical_text name
  | ImportOrdinal ordinal => ordinal < 2 ^ 16
  end.
(** A DLL basename in upper case. *)
Definition dll_ok (name : string) : Prop :=
  canonical_text name ∧ Forall (λ b, is_ascii_lowercase b = false ∧ b ≠ "/"%char ∧ b ≠ "\"%char) (bytes name).
Definition descriptor_ok (index : N) (d : WindowsPeImportDescriptor) : Prop :=
  im_ordinal d = index ∧ dll_ok (im_dll d) ∧ N.of_nat (length (im_symbols d)) < MAX_IMPORT_THUNKS
  ∧ Forall symbol_ok (im_symbols d).

Lemma to_ascii_uppercase_ok b :
  0 < N_of_ascii b ∧ N_of_ascii b <= 127 → b ≠ "/"%char → b ≠ "\"%char →
  (0 < N_of_ascii (to_ascii_uppercase b) ∧ N_of_ascii (to_ascii_uppercase b) <= 127)
  ∧ is_ascii_lowercase (to_ascii_uppercase b) = false ∧ to_ascii_uppercase b ≠ "/"%char
  ∧ to_ascii_uppercase b ≠ "\"%char.
Proof.
  destruct b as [[] [] [] [] [] [] [] []]; vm_compute; intros [? ?] ? ?; split_and!; congruence.
Qed.
Lemma safe_dll_name offset : safe (dll_name input offset) dll_ok.
Proof.
  unfold dll_name. eapply safe_bind; [apply safe_ascii_bytes|]. intros name (Hn & Hl & Hc).
  eapply safe_bind; [apply safe_refuse|]. intros [] Hx. apply safe_Ok.
  apply orb_false_iff in Hx as [_ Hx].
  assert (Forall (λ b, b ≠ "/"%char ∧ b ≠ "\"%char) name) as Hs.
  { apply Forall_forall. intros b Hb. apply existsb_false_elem with (x := b) in Hx; [|done].
    by bool_hyps. }
  unfold dll_ok, canonical_text. rewrite bytes_string. split; [split_and!|].
  - unfold blen in *. by rewrite length_fmap.
  - unfold blen in *. by rewrite length_fmap.
  - apply Forall_fmap. eapply Forall_impl; [exact (proj2 (Forall_and _ name) (conj Hc Hs))|].
    intros b [H1 [H2 H3]]. by apply to_ascii_uppercase_ok.
  - apply Forall_fmap. eapply Forall_impl; [exact (proj2 (Forall_and _ name) (conj Hc Hs))|].
    intros b [H1 [H2 H3]]. by apply to_ascii_uppercase_ok.
Qed.

Lemma safe_import_symbol start headers layout index :
  safe (import_symbol input start headers layout index) (λ x, ∀ a, x = Some a → symbol_ok a).
Proof.
  unfold import_symbol. do 2 (eapply (safe_bind _ _ (λ _, True)); [by apply safe_or_error|]; intros ? _).
  eapply safe_bind; [apply safe_qword|]. intros thunk _. apply safe_if; intros _; [by apply safe_Ok|].
  apply safe_if; intros _.
  - eapply safe_bind; [apply safe_refuse|]. intros [] _. apply safe_Ok. intros ? [= <-]. cbn.
    apply N.mod_lt. done.
  - eapply (safe_bind _ _ (λ _, True)); [by apply safe_or_error|]. intros name_rva _.
    eapply safe_bind; [apply safe_at_rva|]. intros name_offset _.
    eapply safe_bind; [apply safe_word|]. intros hint [Hh Ho].
    eapply (safe_bind _ _ (λ _, True)); [apply safe_uadd; [lia|done]|]. intros text _.
    eapply safe_bind; [apply safe_ascii_string|]. intros name Hn. apply safe_Ok. by intros ? [= <-].
Qed.
Lemma safe_import_symbols rva headers layout :
  safe (import_symbols input rva headers layout)
    (λ l, N.of_nat (length l) < MAX_IMPORT_THUNKS ∧ Forall symbol_ok l).
Proof.
  unfold import_symbols. eapply safe_bind; [apply safe_refuse|]. intros [] _.
  eapply safe_bind; [apply safe_at_rva|]. intros start _.
  eapply safe_mono; [apply (safe_until_end _ _ _ _ (λ _, symbol_ok)); intros; apply safe_import_symbol|].
  intros l [Hl Hq]. split; [lia|]. apply Forall_lookup. intros i x. apply Hq.
Qed.

Lemma safe_descriptor_offset start size index :
  safe (descriptor_offset input start size index) (λ o, ∀ offset, o = Some offset → offset + size <= blen input).
Proof.
  unfold descriptor_offset. do 2 (eapply (safe_bind _ _ (λ _, True)); [by apply safe_or_error|]; intros ? _).
  eapply (safe_bind _ _ (λ f, f = a0 + size)).
  { apply safe_or_error. by intros ? [-> _]%checked_add_Some. }
  intros ? ->. eapply (safe_bind _ _ (λ _, a0 + size <= blen input)).
  { apply safe_or_error. by intros ? (_ & ? & _)%get_range_Some. }
  intros descriptor Hd. apply safe_Ok. destruct (forallb _ _); [done|]. by intros ? [= <-].
Qed.
Lemma safe_is_rva_based delay offset : safe (is_rva_based input delay offset) (λ _, True).
Proof. destruct delay; [|done]. eapply safe_bind; [apply safe_dword|]. by intros. Qed.
Lemma safe_va_or_rva value base rva_based name : safe (va_or_rva value base rva_based name) (λ _, True).
Proof.
  unfold va_or_rva. apply safe_if; intros _; [done|].
  eapply (safe_bind _ _ (λ _, True)); [by apply safe_or_error|]. intros relative _. by apply safe_or_error.
Qed.
Lemma safe_import_descriptor start delay headers layout index :
  safe (import_descriptor input start delay headers layout index) (λ x, ∀ d, x = Some d → descriptor_ok index d).
Proof.
  unfold import_descriptor. eapply safe_bind; [apply safe_descriptor_offset|]. intros [offset|] Ho; [|by apply safe_Ok].
  specialize (Ho _ eq_refl).
  assert (offset + 32 < 2 ^ 64) as Hb by lia. clear Ho.
  eapply safe_bind; [apply safe_is_rva_based|]. intros rva_based _.
  eapply safe_bind; [apply safe_dword_at; destruct delay; lia|]. intros raw_name _.
  eapply safe_bind; [apply safe_va_or_rva|]. intros name_rva _.
  eapply safe_bind; [apply safe_refuse|]. intros [] _.
  eapply safe_bind; [apply safe_dword_at; destruct delay; lia|]. intros raw_iat _.
  eapply safe_bind; [apply safe_va_or_rva|]. intros iat_rva _.
  eapply safe_bind; [apply safe_dword_at; destruct delay; lia|]. intros raw_lookup _.
  eapply safe_bind; [apply safe_va_or_rva|]. intros lookup _.
  eapply safe_bind; [apply safe_at_rva|]. intros name_offset _.
  eapply safe_bind; [apply safe_dll_name|]. intros dll Hdll.
  eapply safe_bind; [apply safe_import_symbols|]. intros symbols [Hs1 Hs2].
  eapply safe_bind; [apply safe_dword_at; destruct delay; lia|]. intros timestamp _.
  apply safe_Ok. by intros ? [= <-].
Qed.
Definition descriptors_ok (l : list WindowsPeImportDescriptor) : Prop :=
  N.of_nat (length l) < MAX_IMPORT_DESCRIPTORS ∧ ∀ i d, l !! i = Some d → descriptor_ok (N.of_nat i) d.
Lemma safe_import_descriptors rva size delay headers layout :
  safe (import_descriptors input rva size delay headers layout) descriptors_ok.
Proof.
  unfold import_descriptors. apply safe_if; intros _; [by apply safe_Ok|].
  eapply safe_bind; [apply safe_refuse|]. intros [] _. eapply safe_bind; [apply safe_at_rva|]. intros start _.
  cbv zeta. eapply safe_bind; [apply safe_refuse|]. intros [] _.
  eapply safe_mono; [apply (safe_until_end _ _ _ _ descriptor_ok); intros; apply safe_import_descriptor|].
  intros l [Hl Hq]. split; [lia|]. intros i d Hi. apply (Hq i d) in Hi. by rewrite N.add_0_l in Hi.
Qed.

(** *** Exports *)
Definition export_ok (e : WindowsPeExport) : Prop :=
  ex_ordinal e < 2 ^ 32 ∧ (∀ name, ex_name e = Some name → canonical_text name)
  ∧ match ex_target e with DirectRva rva => 0 < rva ∧ rva < 2 ^ 32 | Forwarder name => canonical_text name end.
Definition names_ok (names : list (option string)) : Prop := Forall (λ o, ∀ n, o = Some n → canonical_text n) names.

Lemma safe_export_names names ordinals function_count headers layout count index acc :
  names <= blen input → ordinals <= blen input → index + N.of_nat count <= MAX_EXPORTS → names_ok acc →
  safe (export_names_loop input names ordinals function_count headers layout count index acc)
    (λ l, length l = length acc ∧ names_ok l).
Proof.
  intros Hn Ho. revert index acc. unfold MAX_EXPORTS.
  induction count as [|count IH]; intros index acc Hi Hacc; cbn [export_names_loop]; [by apply safe_Ok|].
  eapply safe_bind; [apply safe_dword_at; lia|]. intros rva _.
  eapply safe_bind; [apply safe_word_at; lia|]. intros findex _.
  eapply safe_bind; [apply safe_refuse|]. intros [] _.
  eapply safe_bind; [apply safe_at_rva|]. intros offset _.
  eapply safe_bind; [apply safe_ascii_string|]. intros name Hname.
  eapply safe_mono; [apply IH; [lia|]|].
  - apply Forall_insert; [done|]. by intros ? [= <-].
  - intros l [Hl Hq]. by rewrite length_insert in Hl.
Qed.

Lemma safe_export_entry functions base fend headers layout index name :
  functions <= blen input → index < MAX_EXPORTS → (∀ n, name = Some n → canonical_text n) →
  safe (export_entry input functions base fend headers layout index name)
    (λ x, ∀ e, x = Some e → export_ok e ∧ ex_ordinal e = base + index).
Proof.
  unfold MAX_EXPORTS. intros Hf Hi Hn. unfold export_entry.
  eapply safe_bind; [apply safe_dword_at; lia|]. intros rva [Hr _].
  apply safe_if; [by intros _; apply safe_Ok|]. intros Hz%N.eqb_neq.
  eapply (safe_bind _ _ (λ t, match t with DirectRva rva => 0 < rva ∧ rva < 2 ^ 32 | Forwarder n => canonical_text n end)).
  { apply safe_if; intros _; [|by apply safe_Ok; lia].
    eapply safe_bind; [apply safe_at_rva|]. intros offset _.
    pose proof (safe_ascii_string offset "export forwarder") as Hs. by destruct (ascii_string _ _ _) as [|[]]. }
  intros target Ht. eapply (safe_bind _ _ (λ o, o = base + index ∧ base + index < 2 ^ 32)).
  { apply safe_or_error. by intros ? [-> ?]%checked_add_Some. }
  intros ? [-> Hlt]. apply safe_Ok. intros e [= <-]. done.
Qed.

Lemma safe_export_entries entry base index names :
  index + N.of_nat (length names) <= MAX_EXPORTS →
  (∀ i name, i < MAX_EXPORTS → name ∈ names →
     safe (entry i name) (λ x, ∀ e, x = Some e → export_ok e ∧ ex_ordinal e = base + i)) →
  safe (export_entries entry index names)
    (λ l, (length l <= length names)%nat ∧ Forall (λ e, export_ok e ∧ base + index <= ex_ordinal e) l
          ∧ StronglySorted N.lt (ex_ordinal <$> l)).
Proof.
  revert index. induction names as [|name names IH]; intros index Hi He; cbn [export_entries].
  { apply safe_Ok. split_and!; [done|constructor|constructor]. }
  cbn [length] in Hi. eapply safe_bind; [apply He; [lia|left]|]. intros x Hx. eapply safe_bind.
  { apply IH; [lia|]. intros i n Hil Hn. apply He; [done|by right]. }
  intros rest (Hl & Hf & Hs). apply safe_Ok.
  assert (Forall (λ e, export_ok e ∧ base + index <= ex_ordinal e) rest).
  { eapply Forall_impl; [exact Hf|]. cbn. intros e [? ?]. split; [done|lia]. }
  destruct x as [e|]; [|split_and!; [cbn; lia|done|done]].
  destruct (Hx e eq_refl) as [Hok Ho]. split_and!; [cbn; lia|constructor; [split; [done|lia]|done]|].
  rewrite fmap_cons. constructor; [done|]. apply Forall_fmap. eapply Forall_impl; [exact Hf|].
  cbn. intros e' [_ ?]. lia.
Qed.

Definition exports_ok (l : list WindowsPeExport) : Prop :=
  N.of_nat (length l) <= MAX_EXPORTS ∧ Forall export_ok l ∧ StronglySorted N.lt (ex_ordinal <$> l).
Lemma safe_exports headers layout : safe (exports input headers layout) exports_ok.
Proof.
  unfold exports. apply safe_if; intros _; [apply safe_Ok; split_and!; [done|constructor|constructor]|].
  eapply safe_bind; [apply safe_refuse|]. intros [] _. eapply safe_bind; [apply safe_at_rva|]. intros dir Hd. cbv beta in Hd.
  eapply safe_bind; [apply safe_dword_at; lia|]. intros base _.
  eapply safe_bind; [apply safe_dword_at; lia|]. intros fcount _.
  eapply safe_bind; [apply safe_dword_at; lia|]. intros ncount _.
  eapply safe_bind; [apply safe_refuse|]. intros [] Hc. bool_hyps.
  eapply safe_bind; [apply safe_dword_at; lia|]. intros frva _.
  eapply safe_bind; [apply safe_at_rva|]. intros functions Hfun. cbv beta in Hfun.
  eapply safe_bind; [apply safe_dword_at; lia|]. intros nrva _.
  eapply safe_bind; [apply safe_at_rva|]. intros names Hnames. cbv beta in Hnames.
  eapply safe_bind; [apply safe_dword_at; lia|]. intros orva _.
  eapply safe_bind; [apply safe_at_rva|]. intros ordinals Hord. cbv beta in Hord.
  eapply safe_bind; [apply safe_export_names; [done|done|lia|]|].
  { apply Forall_replicate. by intros. }
  rewrite length_replicate. intros enames [Hlen Hok].
  eapply (safe_bind _ _ (λ _, True)); [by apply safe_or_error|]. intros fend _.
  eapply safe_mono; [apply (safe_export_entries _ base); [lia|]|].
  - intros i name Hi Hin. apply safe_export_entry; [done|done|]. by eapply Forall_forall in Hok.
  - intros l (Hl & Hf & Hs). split_and!; [lia| |done]. eapply Forall_impl; [exact Hf|]. by intros ? [? _].
Qed.

Definition contract_ok (c : WindowsPeLoaderContract) : Prop :=
  supported_machine (lc_machine c) ∧ descriptors_ok (lc_normal c) ∧ descriptors_ok (lc_delayed c)
  ∧ exports_ok (lc_exports c).
Lemma safe_contract layout : safe (parse_windows_pe_loader_contract_with_layout input layout) contract_ok.
Proof.
  unfold parse_windows_pe_loader_contract_with_layout.
  eapply safe_bind; [apply safe_pe_headers|]. intros headers Hh.
  eapply safe_bind; [apply safe_import_descriptors|]. intros normal Hn.
  eapply safe_bind; [apply safe_import_descriptors|]. intros delayed Hd.
  eapply safe_bind; [apply safe_exports|]. intros exps He. by apply safe_Ok.
Qed.

(** *** The names *)
Lemma safe_import_name start size field' delay base headers sections index :
  field' <= size →
  safe (import_name input start size field' delay base headers sections index) (λ x, ∀ n, x = Some n → dll_ok n).
Proof.
  intros Hf. unfold import_name. eapply safe_bind; [apply safe_descriptor_offset|].
  intros [offset|] Ho; [|by apply safe_Ok]. specialize (Ho _ eq_refl).
  eapply safe_bind; [apply safe_dword_at; lia|]. intros raw _. eapply safe_bind; [apply safe_refuse|]. intros [] _.
  eapply safe_bind; [apply safe_is_rva_based|]. intros rva_based _.
  eapply (safe_bind _ _ (λ _, True)).
  { apply safe_if; intros _; [done|].
    eapply (safe_bind _ _ (λ _, True)); [by apply safe_or_error|]. intros r _. by apply safe_or_error. }
  intros rva _. eapply safe_bind; [apply safe_rva_offset|]. intros o _.
  eapply safe_bind; [apply safe_dll_name|]. intros dll Hdll. apply safe_Ok. by intros ? [= <-].
Qed.

Lemma safe_import_names rva size dsize field' delay base headers sections :
  field' <= dsize →
  safe (import_names input rva size dsize field' delay base headers sections) (Forall dll_ok).
Proof.
  intros Hf. unfold import_names. apply safe_if; intros _; [apply safe_Ok; constructor|].
  eapply safe_bind; [apply safe_refuse|]. intros [] _. eapply safe_bind; [apply safe_rva_offset|]. intros start _.
  cbv zeta. eapply safe_bind; [apply safe_refuse|]. intros [] _. eapply safe_bind.
  { apply (safe_until_end _ _ _ _ (λ _, dll_ok)). intros. by apply safe_import_name. }
  intros names [_ Hq]. apply safe_Ok. apply Forall_forall. intros x. rewrite btree_foldl_elem.
  intros [[i Hi]%list_elem_of_lookup|Hx]; [by eapply Hq|set_solver].
Qed.
Definition imports_ok (i : WindowsPeImports) : Prop :=
  supported_machine (wi_machine i) ∧ Forall dll_ok (wi_normal i) ∧ Forall dll_ok (wi_delayed i).
Lemma safe_imports : safe (parse_windows_pe_imports input) imports_ok.
Proof.
  unfold parse_windows_pe_imports. eapply safe_bind; [by apply safe_pe_headers|]. intros headers Hh.
  eapply safe_bind; [by apply safe_import_names|]. intros normal Hn.
  eapply safe_bind; [by apply safe_import_names|]. intros delayed Hd. by apply safe_Ok.
Qed.
Lemma safe_verify_desktop : safe (verify_target_desktop_bootstrap_pe input) imports_ok.
Proof.
  eapply safe_bind; [by apply safe_imports|]. intros i Hi.
  unfold verify_target_desktop_bootstrap_imports. by destruct (List.find _ _).
Qed.
Lemma safe_verify_broker : safe (verify_session_broker_pe input) imports_ok.
Proof. eapply safe_bind; [by apply safe_imports|]. intros i Hi. by destruct (List.find _ _). Qed.

End NoPanic.

(** ** The two readers agree *)
Lemma bind_Ok_inv {A B} (m : peM A) (k : A → peM B) b : m ≫= k = Ok b → ∃ a, m = Ok a ∧ k a = Ok b.
Proof. destruct m; [eauto|done]. Qed.
Lemma refuse_Ok c message u : refuse_if c message = Ok u → c = false.
Proof. by destruct c. Qed.

Lemma until_end_map {A B} (f : A → B) e1 e2 m1 m2 n1 n2 index l :
  (∀ i x, e1 i = Ok x → e2 i = Ok (f <$> x)) → (n1 <= n2)%nat →
  until_end e1 m1 n1 index = Ok l → until_end e2 m2 n2 index = Ok (f <$> l).
Proof.
  intros He. revert n2 index l. induction n1 as [|n1 IH]; intros n2 index l Hn; [done|].
  destruct n2 as [|n2]; [lia|]. cbn [until_end]. intros (x & Hx & Hl)%bind_Ok_inv. rewrite (He _ _ Hx).
  destruct x as [x|]; cbn in Hl |- *; [|by injection Hl as <-].
  apply bind_Ok_inv in Hl as (rest & Hr & Hl). injection Hl as <-.
  rewrite (IH n2 (index + 1) rest); [done|lia|done].
Qed.

(** The DLL name of a descriptor the loader reader accepts is the one the
    name reader finds. *)
Lemma import_descriptor_name input start (delay : bool) headers index x :
  import_descriptor input start delay headers Layout_File index = Ok x →
  import_name input start (if delay then 32 else 20) (if delay then 4 else 12) delay (ph_image_base headers)
    (ph_size_of_headers headers) (ph_sections headers) index = Ok (im_dll <$> x).
Proof.
  unfold import_descriptor, import_name. intros (found & -> & H)%bind_Ok_inv. cbn [mbind result_bind].
  destruct found as [offset|]; [|by injection H as <-].
  apply bind_Ok_inv in H as (rva_based & Hb & H). apply bind_Ok_inv in H as (raw & -> & H).
  apply bind_Ok_inv in H as (rva & Hv & H). apply bind_Ok_inv in H as (u & Hz%refuse_Ok & H).
  do 3 (apply bind_Ok_inv in H as (? & _ & H)). apply bind_Ok_inv in H as (? & _ & H).
  apply bind_Ok_inv in H as (o & Ho & H). apply bind_Ok_inv in H as (dll & Hd & H).
  do 2 (apply bind_Ok_inv in H as (? & _ & H)). injection H as <-.
  assert ((raw =? 0) = false) as Hraw.
  { destruct (raw =? 0) eqn:E; [|done]. unfold va_or_rva in Hv. rewrite E, orb_true_r in Hv.
    injection Hv as <-. congruence. }
  cbn [mbind result_bind]. rewrite Hraw. cbn [refuse_if guard_err mbind result_bind]. rewrite Hb.
  unfold va_or_rva in Hv. rewrite Hraw, orb_false_r in Hv. cbn [mbind result_bind].
  replace (if rva_based then _ else _) with (Ok (E := pe_failure) rva) by (symmetry; exact Hv).
  cbn [mbind result_bind]. unfold at_rva, layout_rva_offset in Ho. rewrite Ho. cbn [mbind result_bind].
  by rewrite Hd.
Qed.

Definition same_libraries (names : list string) (descriptors : list WindowsPeImportDescriptor) : Prop :=
  ∀ dll, dll ∈ names ↔ dll ∈ im_dll <$> descriptors.
Lemma import_descriptors_names input rva size (delay : bool) headers l :
  import_descriptors input rva size delay headers Layout_File = Ok l →
  ∃ names, import_names input rva size (if delay then 32 else 20) (if delay then 4 else 12) delay
             (ph_image_base headers) (ph_size_of_headers headers) (ph_sections headers) = Ok names
           ∧ same_libraries names l.
Proof.
  unfold import_descriptors, import_names. destruct ((rva =? 0) && (size =? 0)).
  { intros [= <-]. exists []. split; [done|]. intros dll. set_solver. }
  intros (u & Hp%refuse_Ok & H)%bind_Ok_inv. rewrite Hp. cbn [refuse_if guard_err mbind result_bind].
  apply bind_Ok_inv in H as (start & Hs & H). unfold at_rva, layout_rva_offset in Hs. rewrite Hs.
  cbn [mbind result_bind]. cbv zeta in H |- *. apply bind_Ok_inv in H as (u' & Hm%refuse_Ok & H).
  set (dsize := if delay then 32 else 20) in *.
  replace (size / dsize =? 0) with false by lia. cbn [refuse_if guard_err mbind result_bind].
  assert (N.to_nat (N.min (size / dsize) MAX_IMPORT_DESCRIPTORS) <= N.to_nat (size / dsize))%nat as Hle by lia.
  erewrite (until_end_map im_dll); [| |exact Hle|exact H]; [|intros i x Hx; by apply import_descriptor_name].
  eexists. split; [done|]. intros dll. rewrite btree_foldl_elem. set_solver.
Qed.

Lemma contract_imports input c : parse_windows_pe_loader_contract input = Ok c →
  ∃ i, parse_windows_pe_imports input = Ok i ∧ wi_machine i = lc_machine c
       ∧ same_libraries (wi_normal i) (lc_normal c) ∧ same_libraries (wi_delayed i) (lc_delayed c).
Proof.
  unfold parse_windows_pe_loader_contract, parse_windows_pe_loader_contract_with_layout, parse_windows_pe_imports.
  intros (headers & -> & H)%bind_Ok_inv. apply bind_Ok_inv in H as (normal & Hn & H).
  apply bind_Ok_inv in H as (delayed & Hd & H). apply bind_Ok_inv in H as (exps & _ & H). injection H as <-.
  apply import_descriptors_names in Hn as (names & Hn & Hsn).
  apply import_descriptors_names in Hd as (dnames & Hd & Hsd). cbn [mbind result_bind].
  rewrite Hn. cbn [mbind result_bind]. rewrite Hd. cbn [mbind result_bind]. by eexists.
Qed.

Lemma find_none_iff (p : string → bool) names l : same_libraries names l →
  (Forall (λ n, p n = false) names ↔ Forall (λ d, p (im_dll d) = false) l).
Proof.
  intros Hs. rewrite <- (Forall_fmap im_dll (λ n, p n = false)), !Forall_forall. unfold same_libraries in Hs.
  by setoid_rewrite Hs.
Qed.
(** No library of the loader contract satisfies [p]. *)
Definition contract_avoids (p : string → bool) (c : WindowsPeLoaderContract) : Prop :=
  Forall (λ d, p (im_dll d) = false) (lc_normal c ++ lc_delayed c).
Lemma gate_decides (p : string → bool) c i message :
  same_libraries (wi_normal i) (lc_normal c) → same_libraries (wi_delayed i) (lc_delayed c) →
  (match List.find p (wi_normal i ++ wi_delayed i) with
   | Some name => Err (PeError (message name)) | None => Ok i end = Ok i) ↔ contract_avoids p c.
Proof.
  intros Hn Hd. unfold contract_avoids. rewrite Forall_app, <- (find_none_iff p _ _ Hn), <- (find_none_iff p _ _ Hd).
  rewrite <- Forall_app. destruct (List.find _ _) as [x|] eqn:E.
  - apply find_some in E as [Hx Hp]. split; [done|]. rewrite Forall_forall. intros H.
    rewrite (H x) in Hp; [done|]. by apply list_elem_of_In.
  - split; [|done]. intros _. apply Forall_forall. intros x Hx. apply (find_none _ _ E). by apply list_elem_of_In.
Qed.

(** C37: bounds on hostile images.  No byte string a vector can hold makes the reader panic, whichever layout it reads:
    every unchecked addition stays in range.  What it returns is bounded and canonical: a supported machine, fewer than
    1,024 descriptors per table numbered in order, fewer than 16,384 symbols each, at most 65,536 exports with strictly
    increasing ordinals, every name non-empty ASCII without NUL of at most 4,096 bytes, every library an upper-case
    basename. *)
Theorem pe_reader_bounded (input : list u8) (layout : PeLayout) :
  blen input < 2 ^ 63 →
  safe (parse_windows_pe_loader_contract_with_layout input layout) contract_ok
  ∧ safe (parse_windows_pe_imports input) imports_ok
  ∧ safe (verify_target_desktop_bootstrap_pe input) imports_ok
  ∧ safe (verify_session_broker_pe input) imports_ok.
Proof.
  intros Hb. split_and!; [by apply safe_contract|by apply safe_imports|by apply safe_verify_desktop|by apply safe_verify_broker].
Qed.

(** C38: the import gates cover what the loader would load.  Of an image whose loader contract is read, the name reader,
    which has its own loop, accepts the directories too, and each gate passes exactly when no library of the contract's
    normal or delayed descriptors is on its list. *)
Theorem import_gates_cover_loader (input : list u8) (c : WindowsPeLoaderContract) :
  parse_windows_pe_loader_contract input = Ok c →
  ∃ i, parse_windows_pe_imports input = Ok i
       ∧ (verify_session_broker_pe input = Ok i ↔ contract_avoids broker_denied c)
       ∧ (verify_target_desktop_bootstrap_pe input = Ok i ↔ contract_avoids desktop_denied c).
Proof.
  intros (i & Hi & _ & Hn & Hd)%contract_imports. exists i. split; [done|].
  unfold verify_session_broker_pe, verify_target_desktop_bootstrap_pe, verify_target_desktop_bootstrap_imports.
  rewrite Hi. cbn [mbind result_bind]. split; [by apply gate_decides|].
  rewrite <- (gate_decides desktop_denied c i (λ name, "target desktop bootstrap PE imports forbidden redistributable or UI loader dependency " +:+ name)%string Hn Hd).
  by destruct (List.find _ _).
Qed.

(** A delayed descriptor whose addresses are absolute and whose lookup table is
    absent falls back to its address table, which is already relative and is
    made relative a second time: the fallback is never that table. *)
Lemma va_delay_fallback_misses (image_base iat_rva : N) :
  0 < image_base → 0 < iat_rva → lookup_table image_base false 0 iat_rva ≠ Ok iat_rva.
Proof.
  intros Hb Hi. unfold lookup_table, va_or_rva. cbn [N.eqb orb]. replace (iat_rva =? 0) with false by lia.
  cbn. unfold checked_sub. case_match; cbn; [|done]. unfold try_from. case_match; cbn; [|done].
  intros [= ?]. bool_hyps. lia.
Qed.

Module PeExamples.
Definition le (k : nat) (value : N) : list u8 := le_bytes k value.
(** [bytes[offset..offset + len].copy_from_slice(value)] *)
Definition put (offset : N) (value image : list u8) : list u8 :=
  take (N.to_nat offset) image ++ value ++ drop (N.to_nat offset + length value) image.
Definition asciz (s : string) : list u8 := bytes s ++ [NUL].

(** An image with one section at address 0x1000, one library imported by name
    and by ordinal, and an export directory of three functions: one at an
    address, one absent, one forwarded. *)
Definition header : list u8 → list u8 :=
  put 0 (bytes "MZ") ∘ put 0x3c (le 4 0x80) ∘ put 0x80 (bytes "PE" ++ [NUL; NUL]) ∘ put 0x84 (le 2 WINDOWS_PE_MACHINE_AMD64)
  ∘ put 0x86 (le 2 1) ∘ put 0x94 (le 2 0xf0) ∘ put 0x98 (le 2 0x20b) ∘ put 0xb0 (le 8 0x140000000)
  ∘ put 0xd4 (le 4 0x200) ∘ put 0x104 (le 4 16)
  ∘ put 0x190 (le 4 0x400) ∘ put 0x194 (le 4 0x1000) ∘ put 0x198 (le 4 0x400) ∘ put 0x19c (le 4 0x200).
Definition normal_import (dll : string) : list u8 → list u8 :=
  put 0x110 (le 4 0x1000) ∘ put 0x114 (le 4 40) ∘ put 0x200 (le 4 0x10c0) ∘ put 0x20c (le 4 0x1080)
  ∘ put 0x210 (le 4 0x10c0) ∘ put 0x280 (asciz dll)
  ∘ put 0x2c0 (le 8 0x1100) ∘ put 0x2c8 (le 8 (2 ^ 63 + 7)) ∘ put 0x300 (le 2 3 ++ asciz "Imported0").
Definition export_table : list u8 → list u8 :=
  put 0x108 (le 4 0x1140) ∘ put 0x10c (le 4 0x80)
  ∘ put 0x350 (le 4 5 ++ le 4 3 ++ le 4 1 ++ le 4 0x1168 ++ le 4 0x1174 ++ le 4 0x1178)
  ∘ put 0x368 (le 4 0x1040 ++ le 4 0 ++ le 4 0x1190) ∘ put 0x374 (le 4 0x1180) ∘ put 0x378 (le 2 0)
  ∘ put 0x380 (asciz "Run") ∘ put 0x390 (asciz "NTDLL.Go").
Definition image (dll : string) : list u8 := header (normal_import dll (export_table (replicate 0x600 NUL))).

Example image_contract : parse_windows_pe_loader_contract (image "Kernel32.dll") = Ok {|
  lc_machine := WINDOWS_PE_MACHINE_AMD64;
  lc_normal := [{| im_ordinal := 0; im_dll := "KERNEL32.DLL"; im_symbols := [ImportName 3 "Imported0"; ImportOrdinal 7];
                   im_lookup_table_rva := 0x10c0; im_iat_rva := 0x10c0; im_bound_timestamp := 0 |}];
  lc_delayed := [];
  lc_exports := [{| ex_ordinal := 5; ex_name := Some "Run"%string; ex_target := DirectRva 0x1040 |};
                 {| ex_ordinal := 7; ex_name := None; ex_target := Forwarder "NTDLL.Go" |}] |}.
Proof. vm_compute. reflexivity. Qed.
Example image_gates :
  is_ok (verify_session_broker_pe (image "Advapi32.dll")) = true
  ∧ verify_session_broker_pe (image "ws2_32.dll")
    = Err (PeError "session broker PE imports forbidden general-purpose dependency WS2_32.DLL")
  ∧ is_ok (verify_target_desktop_bootstrap_pe (image "ws2_32.dll")) = true
  ∧ is_ok (verify_target_desktop_bootstrap_pe (image "vcruntime140.dll")) = false.
Proof. vm_compute. split_and!; reflexivity. Qed.

Lemma pe_reader_bounded_witness :
  blen (image "Kernel32.dll") = 0x600
  ∧ safe (parse_windows_pe_loader_contract_with_layout (image "Kernel32.dll") Layout_File) contract_ok.
Proof.
  assert (blen (image "Kernel32.dll") = 0x600) as Hb by (vm_compute; reflexivity).
  assert (blen (image "Kernel32.dll") < 2 ^ 63) as Hlt by (rewrite Hb; reflexivity).
  split; [exact Hb|]. exact (proj1 (pe_reader_bounded _ Layout_File Hlt)).
Defined.
Lemma import_gates_cover_loader_witness :
  ∃ c i, parse_windows_pe_loader_contract (image "Kernel32.dll") = Ok c
         ∧ (verify_session_broker_pe (image "Kernel32.dll") = Ok i ↔ contract_avoids broker_denied c).
Proof.
  destruct (import_gates_cover_loader _ _ image_contract) as (i & _ & Hb & _).
  do 2 eexists. split; [exact image_contract|exact Hb].
Defined.
End PeExamples.
