(* ===== verification/PrivateRuntime.v ===== *)
(** * Private runtime records

    memcordon-core/src/private_runtime.rs and workload_admission_v2.rs: what the
    private launch path records about a request, its rejection and the end of
    an attempt, and the checks a reader makes before trusting any of it.
    SHA-256 is the ambient hash of the section. *)

From S2P Require Import Prelude.
From S2P Require Import Decimal.
From S2P Require Import Bounded.
From S2P Require Import Codec.
From S2P Require Import Diagnostics.
From S2P Require Import WorkloadContract.
From S2P Require Import WorkloadCodec.
From S2P Require Import Registry.
From S2P Require Import Policy.
From S2P Require Import Outcome.
From Stdlib Require Import Ascii.

Definition CONTRACT_ENVELOPE_BYTES : N := 128 * 1024.

Inductive LaunchStateV1 : Type :=
| NotCreated | GatedUnreleased | LaunchReleaseIssued | ExecObserved | ExecFailed | LaunchUnknown.
Inductive OutcomeKindV1 : Type :=
| Outcome_Completed | Outcome_Deadline | Outcome_ConfirmedMemoryLimit | Outcome_Interrupted
| Outcome_LaunchFailure | Outcome_ProviderFailure | Outcome_Unknown.
Inductive CleanupStateV1 : Type := CleanupComplete | CleanupIncomplete | CleanupUnknown.
#[global] Instance LaunchStateV1_eq_dec : EqDecision LaunchStateV1.
Proof. solve_decision. Defined.
#[global] Instance OutcomeKindV1_eq_dec : EqDecision OutcomeKindV1.
Proof. solve_decision. Defined.
#[global] Instance CleanupStateV1_eq_dec : EqDecision CleanupStateV1.
Proof. solve_decision. Defined.

Record RuntimePrivateAdmissionSnapshot : Type := {
  as_format : string;
  as_revision : N;
  as_request : WorkloadContractV2;
  as_request_sha256 : DiagnosticSha256;
  as_invocation_sha256 : DiagnosticSha256;
  as_caller : CallerSelector;
  as_registry_digest : DiagnosticSha256;
  as_epoch : PolicyEpoch;
  as_admission_nonce : Nonce128;
  as_profile_id : ProfileRef
}.

Record PrivateNetworkNamespaceIdentity : Type := { ns_device : N; ns_inode : N }.

Record PrivateRuntimeTerminal : Type := {
  pt_format : string;
  pt_revision : N;
  pt_provider : PublicProviderBindingV1;
  pt_native_abi : string;
  pt_attempt_id : list u8;
  pt_request_sha256 : DiagnosticSha256;
  pt_admission_metadata : RuntimePrivateAdmissionSnapshot;
  pt_launch : LaunchStateV1;
  pt_authorization_offset_millis : option N;
  pt_authorization_monotonic_millis : option N;
  pt_target_pid : option N;
  pt_network_namespace : option PrivateNetworkNamespaceIdentity;
  pt_exec_observed : bool;
  pt_post_exec_descriptor_count : option N;
  pt_outcome : OutcomeKindV1;
  pt_native_termination : option ChildTermination;
  pt_cleanup : CleanupStateV1;
  pt_account_reservation_retired : bool;
  pt_namespace_references_closed : bool;
  pt_error : option (BoundedText 4096)
}.

Record PrivateRuntimeExecution : Type := {
  pe_terminal : PrivateRuntimeTerminal;
  pe_frontend_relay_drained : bool;
  pe_frontend_interruption : option Z
}.

Definition cleanup_record (operation message : string) : CleanupErrorRecord :=
  {| cleanup_operation := operation; cleanup_message := message |}.

Definition cleanup_summary (self : PrivateRuntimeExecution) (relay_error : option string)
    : CleanupSummary :=
  let complete := pt_cleanup (pe_terminal self) ≟ CleanupComplete in
  let errors :=
    match complete, pt_error (pe_terminal self) with
    | false, Some error => [cleanup_record "private-native-retirement" (text error)]
    | _, _ => []
    end
    ++ match relay_error with
       | Some error => [cleanup_record "private-frontend-relay" error]
       | None => []
       end
    ++ (if negb (pe_frontend_relay_drained self)
        then [cleanup_record "private-frontend-relay-drain" "frontend byte relay output was not drained"]
        else []) in
  {| graceful_attempted := graceful_attempted CleanupSummary_default;
     force_attempted := force_attempted CleanupSummary_default;
     direct_child_reaped := complete;
     workload_empty := if complete then Some true else None;
     cleanup_errors := errors |}.

Definition cleanup_state (self : PrivateRuntimeExecution) : CleanupStateV1 :=
  if (pt_cleanup (pe_terminal self) ≟ CleanupComplete) && negb (pe_frontend_relay_drained self)
  then CleanupIncomplete
  else pt_cleanup (pe_terminal self).

Definition all_zero (n : nat) : list u8 := replicate n NUL.

Section PrivateRuntime.
  Context (sha256_hash : list u8 → list u8).

Definition snapshot_validate (self : RuntimePrivateAdmissionSnapshot) : result string () :=
  validate_v2 (as_request self) ;;
  digest ← (if negb (as_format self ≟ "memcordon.private-admission-metadata"%string)
               || negb (as_revision self =? 1)
            then Err "private admission metadata correlation differs"%string
            else contract_digest_v2 sha256_hash (as_request self));
  guard_err
    ((digest ≠? as_request_sha256 self)
     || (as_epoch self ≠? v2_expected_epoch (as_request self))
     || (as_profile_id self ≠? v2_authorized_profile (as_request self))
     || match as_caller self with Caller_Linux _ => false | Caller_Windows _ => true end)
    "private admission metadata correlation differs"%string.

Definition qualified_abi (abi : string) : bool :=
  bool_decide (abi ∈ ["x86_64-unknown-linux-gnu"; "aarch64-unknown-linux-gnu"]%string).

(** The facts that contradict each other, in the order the source lists them. *)
Definition terminal_facts_conflict (self : PrivateRuntimeTerminal) : bool :=
  (pt_exec_observed self ≠? (pt_launch self ≟ ExecObserved))
  || (is_some (pt_authorization_offset_millis self) ≠? is_some (pt_authorization_monotonic_millis self))
  || (is_some (pt_authorization_offset_millis self)
      ≠? match pt_launch self with
         | LaunchReleaseIssued | ExecObserved | ExecFailed => true
         | _ => false
         end)
  || (pt_post_exec_descriptor_count self ≠? (if pt_exec_observed self then Some 3 else None))
  || (pt_exec_observed self && is_none (pt_network_namespace self))
  || is_some_and (λ namespace, ns_inode namespace =? 0) (pt_network_namespace self)
  || (is_none (pt_target_pid self)
      && negb match pt_launch self with NotCreated | LaunchUnknown => true | _ => false end)
  || ((pt_cleanup self ≟ CleanupComplete)
      && (negb (pt_account_reservation_retired self) || negb (pt_namespace_references_closed self)))
  || ((pt_outcome self ≟ Outcome_Completed)
      && (negb (pt_exec_observed self) || (pt_cleanup self ≠? CleanupComplete)
          || is_none (pt_native_termination self))).

Definition terminal_validate (self : PrivateRuntimeTerminal) : result string () :=
  guard_err
    (negb (pt_format self ≟ "memcordon.private-runtime-terminal"%string)
     || negb (pt_revision self =? 1)
     || bool_decide (pt_attempt_id self = all_zero 16 :> list u8)
     || negb (binding_is_consistent (pt_provider self))
     || negb (qualified_abi (pt_native_abi self)))
    "private terminal namespace/provider/attempt differs"%string ;;
  snapshot_validate (pt_admission_metadata self) ;;
  guard_err (terminal_facts_conflict self)
    "private terminal actual launch/exec/retirement facts conflict"%string.

Definition execution_validate (self : PrivateRuntimeExecution) : result string () :=
  guard_err (is_some_and (λ signal, (signal <=? 0)%Z || (128 <=? signal)%Z) (pe_frontend_interruption self))
    "private frontend interruption is not a native signal"%string ;;
  terminal_validate (pe_terminal self).
End PrivateRuntime.

(** ** What an accepted terminal certifies *)

Definition launch_released (l : LaunchStateV1) : Prop :=
  l = LaunchReleaseIssued ∨ l = ExecObserved ∨ l = ExecFailed.

Record terminal_certified (t : PrivateRuntimeTerminal) : Prop := {
  tc_exec : pt_exec_observed t = true ↔ pt_launch t = ExecObserved;
  tc_release : is_Some (pt_authorization_offset_millis t) ↔ launch_released (pt_launch t);
  tc_clock : is_Some (pt_authorization_offset_millis t) ↔ is_Some (pt_authorization_monotonic_millis t);
  tc_descriptors : pt_post_exec_descriptor_count t = if pt_exec_observed t then Some 3 else None;
  tc_namespace : pt_exec_observed t = true → is_Some (pt_network_namespace t);
  tc_inode : ∀ n, pt_network_namespace t = Some n → ns_inode n ≠ 0;
  tc_pid : pt_target_pid t = None → pt_launch t = NotCreated ∨ pt_launch t = LaunchUnknown;
  tc_cleanup : pt_cleanup t = CleanupComplete →
    pt_account_reservation_retired t = true ∧ pt_namespace_references_closed t = true;
  tc_completed : pt_outcome t = Outcome_Completed →
    pt_exec_observed t = true ∧ pt_cleanup t = CleanupComplete ∧ is_Some (pt_native_termination t)
}.

Lemma is_some_eq {A B} (x : option A) (y : option B) :
  is_some x = is_some y ↔ (is_Some x ↔ is_Some y).
Proof. rewrite Bool.eq_iff_eq_true, !is_some_true. done. Qed.

Lemma implication_false (a b : bool) : a && b = false ↔ (a = true → b = false).
Proof. destruct a, b; naive_solver. Qed.

Lemma terminal_facts_spec t : terminal_facts_conflict t = false ↔ terminal_certified t.
Proof.
  unfold terminal_facts_conflict.
  rewrite !orb_false_iff, !negb_false_iff, !bool_decide_eq_true, !implication_false, !orb_false_iff,
    !negb_false_iff, !bool_decide_eq_true, !is_none_false, is_none_true, is_some_eq.
  assert (is_some_and (λ n, ns_inode n =? 0) (pt_network_namespace t) = false ↔
          ∀ n, pt_network_namespace t = Some n → ns_inode n ≠ 0) as ->.
  { destruct (pt_network_namespace t); simpl; [rewrite N.eqb_neq|]; naive_solver. }
  assert (pt_exec_observed t = (pt_launch t ≟ ExecObserved) ↔
          (pt_exec_observed t = true ↔ pt_launch t = ExecObserved)) as ->.
  { rewrite Bool.eq_iff_eq_true, bool_decide_eq_true. done. }
  assert (is_some (pt_authorization_offset_millis t) =
            match pt_launch t with LaunchReleaseIssued | ExecObserved | ExecFailed => true | _ => false end
          ↔ (is_Some (pt_authorization_offset_millis t) ↔ launch_released (pt_launch t))) as ->.
  { rewrite Bool.eq_iff_eq_true, is_some_true. unfold launch_released.
    destruct (pt_launch t); naive_solver. }
  assert ((match pt_launch t with NotCreated | LaunchUnknown => true | _ => false end = true)
          ↔ (pt_launch t = NotCreated ∨ pt_launch t = LaunchUnknown)) as ->
    by (destruct (pt_launch t); naive_solver).
  split; [intros H; destruct_and! H; constructor; tauto | intros []; tauto].
Qed.

(** An execution that validates: its facts agree, and when it completed the
    target ran, was cleaned up and its termination is known.  The cleanup a
    frontend reports for it is complete exactly when the provider's is and the
    relay drained. *)
Theorem private_execution_certified sha256_hash e :
  execution_validate sha256_hash e = Ok () →
  terminal_certified (pe_terminal e) ∧ snapshot_validate sha256_hash (pt_admission_metadata (pe_terminal e)) = Ok () ∧
  (cleanup_state e = CleanupComplete ↔
     direct_child_reaped (cleanup_summary e None) = true ∧ cleanup_errors (cleanup_summary e None) = []).
Proof.
  unfold execution_validate, terminal_validate. rewrite !bind_unit_Ok, !guard_err_Ok.
  intros (_ & _ & Hs & Hf). split; [by apply terminal_facts_spec|]. split; [done|].
  unfold cleanup_state, cleanup_summary. cbn [direct_child_reaped cleanup_errors].
  destruct (pt_cleanup (pe_terminal e)), (pe_frontend_relay_drained e), (pt_error (pe_terminal e));
    simpl; naive_solver.
Qed.
