(* ===== verification/PrivateEvidence.v ===== *)
(** * Private documents and evidence

    memcordon-core/src/private_runtime.rs (request, rejection, plan and terminal
    documents), workload_admission_v2.rs (digests of an admission and of an
    attempt) and workload_evidence_v2.rs (the checkpoint and retirement claims of
    the private-TCP path).  A document is read under a byte limit and without
    duplicate keys, validated, and compared with what the caller authenticated
    itself. *)

From S2P Require Import Prelude Decimal Bounded Codec Diagnostics RecordLimits WorkloadContract WorkloadCodec EncoderLaws Registry RegistryV2 JsonDocuments WorkloadEvidence Policy Outcome PrivateRuntime.
From Stdlib Require Import Ascii.
#[local] Open Scope N_scope.

#[global] Instance WorkloadContractV2_eq_dec : EqDecision WorkloadContractV2.
Proof. solve_decision. Defined.
#[global] Instance PrivateNetworkNamespaceIdentity_eq_dec : EqDecision PrivateNetworkNamespaceIdentity.
Proof. solve_decision. Defined.
#[global] Instance RuntimePrivateAdmissionSnapshot_eq_dec : EqDecision RuntimePrivateAdmissionSnapshot.
Proof. solve_decision. Defined.

(** ** Documents *)

Record PrivateRuntimeRequest : Type := {
  pq_format : string;
  pq_revision : N;
  pq_contract : WorkloadContractV2;
  pq_native_launch : list u8;
  pq_attempt_deadline_millis : option N
}.

Record PrivateRuntimeRejection : Type := {
  px_format : string;
  px_revision : N;
  px_provider : PublicProviderBindingV1;
  px_attempt_id : list u8;
  px_request_sha256 : DiagnosticSha256;
  px_invocation_sha256 : DiagnosticSha256;
  px_contract : WorkloadContractV2;
  px_boundary_allocated : bool;
  px_reservation_may_remain : bool;
  px_detail : BoundedText 4096
}.

Record PrivateRuntimePlan : Type := {
  pn_format : string;
  pn_revision : N;
  pn_provider : PublicProviderBindingV1;
  pn_request_sha256 : DiagnosticSha256;
  pn_request : WorkloadContractV2;
  pn_available_for_preparation : bool;
  pn_conflicts : option AdmissionRejectionV2;
  pn_pending : list string;
  pn_authorizes_launch : bool
}.

Section documents.
  Context (sha256_hash : list u8 → list u8).
  Context `{SerdeJson} `{Serialize WorkloadContractV2} `{Serialize PrivateRuntimeRequest}
    `{Deserialize PrivateRuntimeRequest} `{Deserialize PrivateRuntimeRejection}
    `{Deserialize PrivateRuntimePlan} `{Deserialize PrivateRuntimeTerminal}
    `{Deserialize RuntimePrivateAdmissionSnapshot}.

Definition request_validate (self : PrivateRuntimeRequest) : result string () :=
  guard_err ((pq_format self ≠? "memcordon.private-runtime-request"%string) || negb (pq_revision self =? 1))
    "private runtime request format or revision unsupported"%string ;;
  validate_v2 (pq_contract self) ≫= λ _,
  contract ← to_vec (pq_contract self);
  guard_err (over CONTRACT_BYTES contract
             || bool_decide (pq_native_launch self = [])
             || over CONTRACT_ENVELOPE_BYTES (pq_native_launch self))
    "private runtime request exceeds finite input bounds"%string.

Definition request_parse : list u8 → result string PrivateRuntimeRequest :=
  read_document CONTRACT_ENVELOPE_BYTES "private runtime envelope exceeds 128 KiB" request_validate.

Definition request_encode (self : PrivateRuntimeRequest) : result string (list u8) :=
  request_validate self ≫= λ _,
  bytes ← to_vec self;
  guard_err (over CONTRACT_ENVELOPE_BYTES bytes) "private runtime envelope exceeds 128 KiB"%string ;;
  Ok bytes.

Definition private_rejection_validate (self : PrivateRuntimeRejection) : result string () :=
  validate_v2 (px_contract self) ≫= λ _,
  guard_err ((px_format self ≠? "memcordon.private-runtime-rejection"%string)
             || negb (px_revision self =? 1)
             || negb (binding_is_consistent (px_provider self))
             || bool_decide (px_attempt_id self = all_zero 16 :> list u8)
             || px_boundary_allocated self)
    "private preallocation rejection facts conflict"%string.

Definition rejection_parse_bound (bytes : list u8) (provider : PublicProviderBindingV1)
    (attempt : list u8) (request : DiagnosticSha256) (contract : WorkloadContractV2)
    (invocation : DiagnosticSha256) : result string PrivateRuntimeRejection :=
  value ← read_document CONTRACT_ENVELOPE_BYTES "private rejection exceeds bound"
            private_rejection_validate bytes;
  guard_err ((px_provider value ≠? provider)
             || negb (bool_decide (px_attempt_id value = attempt :> list u8))
             || (px_request_sha256 value ≠? request)
             || (px_contract value ≠? contract)
             || (px_invocation_sha256 value ≠? invocation))
    "private rejection differs from independently authenticated invocation"%string ;;
  Ok value.

Definition plan_validate (self : PrivateRuntimePlan) : result string () :=
  (if (pn_format self ≠? "memcordon.private-runtime-plan"%string)
      || negb (pn_revision self =? 1)
      || negb (binding_is_consistent (pn_provider self))
      || pn_authorizes_launch self
      || (16 <? length (pn_pending self))%nat
      || Bool.eqb (pn_available_for_preparation self) (is_some (pn_conflicts self))
   then Err "private advisory plan format/request/availability differs"%string
   else digest ← contract_digest_v2 sha256_hash (pn_request self);
        guard_err (pn_request_sha256 self ≠? digest)
          "private advisory plan format/request/availability differs"%string) ≫= λ _,
  validate_v2 (pn_request self).

Definition plan_parse_bound (bytes : list u8) (provider : PublicProviderBindingV1)
    (request : WorkloadContractV2) : result string PrivateRuntimePlan :=
  value ← read_document CONTRACT_ENVELOPE_BYTES "private advisory plan exceeds bound" plan_validate bytes;
  guard_err ((pn_provider value ≠? provider) || (pn_request value ≠? request))
    "private advisory plan differs from authenticated provider/request"%string ;;
  Ok value.

Definition terminal_parse_bound (bytes : list u8) (provider : PublicProviderBindingV1)
    (attempt : list u8) (request_sha256 : DiagnosticSha256) (contract : WorkloadContractV2)
    (invocation_sha256 : DiagnosticSha256) : result string PrivateRuntimeTerminal :=
  value ← read_document CONTRACT_ENVELOPE_BYTES "private terminal exceeds bound"
            (terminal_validate sha256_hash) bytes;
  guard_err ((pt_provider value ≠? provider)
             || negb (bool_decide (pt_attempt_id value = attempt :> list u8))
             || (pt_request_sha256 value ≠? request_sha256)
             || (as_request (pt_admission_metadata value) ≠? contract)
             || (as_invocation_sha256 (pt_admission_metadata value) ≠? invocation_sha256))
    "private terminal differs from independently authenticated invocation"%string ;;
  Ok value.

Definition snapshot_parse : list u8 → result string RuntimePrivateAdmissionSnapshot :=
  read_document CONTRACT_ENVELOPE_BYTES "private admission metadata exceeds byte bound"
    (snapshot_validate sha256_hash).
End documents.

(** A frontend believes a terminal document of the private path only about
    the invocation it authenticated itself.  An accepted document fits the
    envelope, repeats no key, names the same provider, attempt, request, contract
    and invocation, carries an admission whose digest is that contract's, and its
    launch, execution, descriptor, namespace and retirement facts agree with each
    other. *)
Theorem private_terminal_bound sha256_hash `{SerdeJson} `{Deserialize PrivateRuntimeTerminal}
    bytes provider attempt request_sha256 contract invocation value :
  terminal_parse_bound sha256_hash bytes provider attempt request_sha256 contract invocation = Ok value →
  N.of_nat (length bytes) <= CONTRACT_ENVELOPE_BYTES ∧
  (∃ j, json_of bytes = Ok j ∧ keys_unique j) ∧ from_slice bytes = Ok value ∧
  pt_provider value = provider ∧ pt_attempt_id value = attempt ∧ attempt ≠ all_zero 16 ∧
  pt_request_sha256 value = request_sha256 ∧
  as_request (pt_admission_metadata value) = contract ∧
  as_invocation_sha256 (pt_admission_metadata value) = invocation ∧
  contract_digest_v2 sha256_hash contract = Ok (as_request_sha256 (pt_admission_metadata value)) ∧
  (∃ uid, as_caller (pt_admission_metadata value) = Caller_Linux uid) ∧
  terminal_certified value.
Proof.
  unfold terminal_parse_bound. intros (v & Hr & Hb)%bind_Ok.
  apply bind_ignore_Ok in Hb as [Hg [= <-]].
  apply (read_document_Ok _ _ _ (λ v, terminal_validate sha256_hash v = Ok ())) in Hr as [Hs Hk Hf Hv]; [|done].
  apply guard_err_Ok in Hg. unfold terminal_validate in Hv.
  rewrite !bind_unit_Ok, !guard_err_Ok in Hv. destruct Hv as (Ha & Hsn & Hc).
  apply terminal_facts_spec in Hc. unfold snapshot_validate in Hsn. rewrite bind_unit_Ok in Hsn.
  destruct Hsn as [_ (d & Hd & Hsg)%bind_Ok]. apply guard_err_Ok in Hsg. bool_hyps.
  destruct (as_caller (pt_admission_metadata v)) as [uid|]; [|done].
  split_and!; try done; try congruence; [|by exists uid].
  destruct (negb _ || negb _); [done|]. congruence.
Qed.

(** ** Digests of an admission and an attempt *)

Definition put_snapshot (self : RuntimePrivateAdmissionSnapshot) : stM Encoder string () :=
  put_digest (as_request_sha256 self) ≫= λ _,
  put_digest (as_invocation_sha256 self) ≫= λ _,
  put_digest (as_registry_digest self) ≫= λ _,
  raw (be_bytes 4 (caller_uid (as_caller self))) ≫= λ _,
  raw (nonce_bytes (service_instance (as_epoch self))) ≫= λ _,
  put_u64 (revision (as_epoch self)) ≫= λ _,
  raw (nonce_bytes (as_admission_nonce self)) ≫= λ _,
  put_id (profile_id (as_profile_id self)) ≫= λ _,
  put_digest (profile_semantic_digest (as_profile_id self)).

Record AttemptBindingV2 : Type := {
  b2_attempt_id : BoundedText 64;
  b2_admission_digest : DiagnosticSha256;
  b2_caller_envelope_digest : DiagnosticSha256;
  b2_native_invocation_digest : DiagnosticSha256
}.

Definition put_attempt_v2 (self : AttemptBindingV2) : stM Encoder string () :=
  (put_count (str_len (text (b2_attempt_id self))) ≫= λ _, raw (bytes (text (b2_attempt_id self)))) ≫= λ _,
  put_digest (b2_admission_digest self) ≫= λ _,
  put_digest (b2_caller_envelope_digest self) ≫= λ _,
  put_digest (b2_native_invocation_digest self).

(** ** Claims of the private-TCP path *)

(** [VerifiedTrue(bool)]: the field is private and [observed] the only maker, so
    a value stands for an observed [true]. *)
Inductive VerifiedTrue : Type := Verified.
Definition verified_observed (value : bool) : result string VerifiedTrue :=
  if value then Ok Verified else Err "required native fact was not observed"%string.

Inductive QualifiedNativeAbiV2 : Type := X86_64LinuxGnu | Aarch64LinuxGnu.
Definition abi_tag (self : QualifiedNativeAbiV2) : N :=
  match self with X86_64LinuxGnu => 1 | Aarch64LinuxGnu => 2 end.

Inductive TargetIdentityKindV2 : Type :=
| Kind_PreserveCaller
| Kind_AdministratorProfile (reference : ExecutionIdentityRefV2).

Record TargetIdentityObservationV2 : Type := {
  ti_kind : TargetIdentityKindV2;
  ti_entrypoint_digest : DiagnosticSha256;
  ti_exact_credentials_verified : VerifiedTrue;
  ti_no_new_privileges_verified : VerifiedTrue;
  ti_capability_sets_empty : VerifiedTrue;
  ti_bounding_set_empty : VerifiedTrue
}.

Record NamespaceObservationV2 : Type := {
  no_caller_network_inode : N;
  no_target_network_inode : N;
  no_loopback_only : VerifiedTrue;
  no_ipv6_disabled : VerifiedTrue
}.

Definition namespace_try_from (value : NamespaceObservationV2) : result string NamespaceObservationV2 :=
  guard_err (no_caller_network_inode value =? no_target_network_inode value)
    "private target network namespace equals caller namespace"%string ;;
  Ok value.

Definition namespace_observed (caller_network_inode target_network_inode : N)
    (loopback_only ipv6_disabled : bool) : result string NamespaceObservationV2 :=
  loopback_only ← verified_observed loopback_only;
  ipv6_disabled ← verified_observed ipv6_disabled;
  namespace_try_from
    {| no_caller_network_inode := caller_network_inode; no_target_network_inode := target_network_inode;
       no_loopback_only := loopback_only; no_ipv6_disabled := ipv6_disabled |}.

Record PrivatePortPolicyV1 : Type := {
  pp_unprivileged_port_start : N;
  pp_ephemeral_first : N;
  pp_ephemeral_last : N;
  pp_reserved_ports_empty : VerifiedTrue
}.

Definition port_policy_differs (value : PrivatePortPolicyV1) : bool :=
  bool_decide ((pp_unprivileged_port_start value, pp_ephemeral_first value, pp_ephemeral_last value)
               ≠ (0, 32768, 60999)).

Definition port_policy_try_from (value : PrivatePortPolicyV1) : result string PrivatePortPolicyV1 :=
  guard_err (port_policy_differs value) "private TCP port policy differs from immutable profile"%string ;;
  Ok value.

Definition port_policy_observed (unprivileged_port_start ephemeral_first ephemeral_last : N)
    (reserved_ports_empty : bool) : result string PrivatePortPolicyV1 :=
  reserved_ports_empty ← verified_observed reserved_ports_empty;
  port_policy_try_from
    {| pp_unprivileged_port_start := unprivileged_port_start; pp_ephemeral_first := ephemeral_first;
       pp_ephemeral_last := ephemeral_last; pp_reserved_ports_empty := reserved_ports_empty |}.

Record EntryResourceObservationV2 : Type := {
  ro_gated_descriptor_count : N;
  ro_post_exec_descriptor_count : N;
  ro_anonymous_pipe_stdio : VerifiedTrue;
  ro_control_and_elf_cloexec : VerifiedTrue;
  ro_no_candidate_socket : VerifiedTrue;
  ro_no_imported_descriptor : VerifiedTrue;
  ro_no_other_descriptor : VerifiedTrue
}.

Definition resources_differ (value : EntryResourceObservationV2) : bool :=
  bool_decide ((ro_gated_descriptor_count value, ro_post_exec_descriptor_count value) ≠ (5, 3)).

Definition resources_try_from (value : EntryResourceObservationV2) : result string EntryResourceObservationV2 :=
  guard_err (resources_differ value) "private TCP entry descriptor inventory differs"%string ;;
  Ok value.

Definition resources_observed (gated_descriptor_count post_exec_descriptor_count : N)
    (anonymous_pipe_stdio control_and_elf_cloexec no_candidate_socket no_imported_descriptor
     no_other_descriptor : bool) : result string EntryResourceObservationV2 :=
  anonymous_pipe_stdio ← verified_observed anonymous_pipe_stdio;
  control_and_elf_cloexec ← verified_observed control_and_elf_cloexec;
  no_candidate_socket ← verified_observed no_candidate_socket;
  no_imported_descriptor ← verified_observed no_imported_descriptor;
  no_other_descriptor ← verified_observed no_other_descriptor;
  resources_try_from
    {| ro_gated_descriptor_count := gated_descriptor_count;
       ro_post_exec_descriptor_count := post_exec_descriptor_count;
       ro_anonymous_pipe_stdio := anonymous_pipe_stdio;
       ro_control_and_elf_cloexec := control_and_elf_cloexec;
       ro_no_candidate_socket := no_candidate_socket;
       ro_no_imported_descriptor := no_imported_descriptor;
       ro_no_other_descriptor := no_other_descriptor |}.

Record PrivateTcpCheckpointV2 : Type := {
  ck_attempt_binding : DiagnosticSha256;
  ck_profile : ProfileRef;
  ck_identity : TargetIdentityObservationV2;
  ck_caller_envelope_reference : Nonce128;
  ck_target_network_namespace : NamespaceObservationV2;
  ck_topology_digest : DiagnosticSha256;
  ck_filter_digest : DiagnosticSha256;
  ck_native_abi : QualifiedNativeAbiV2;
  ck_port_policy : PrivatePortPolicyV1;
  ck_resources : EntryResourceObservationV2;
  ck_guardian_verified : VerifiedTrue;
  ck_epoch_revalidated : VerifiedTrue;
  ck_checkpoint_durable : VerifiedTrue
}.

Definition tcp_checkpoint_validate (self : PrivateTcpCheckpointV2) : result string () :=
  guard_err (id_str (profile_id (ck_profile self)) ≠? "linux-tcp4-private-v1"%string)
    "checkpoint names a non-private profile"%string ;;
  guard_err (no_caller_network_inode (ck_target_network_namespace self)
             =? no_target_network_inode (ck_target_network_namespace self))
    "private target network namespace equals caller namespace"%string ;;
  guard_err (port_policy_differs (ck_port_policy self) || resources_differ (ck_resources self))
    "private TCP immutable entry semantics differ"%string.

Definition put_kind (kind : TargetIdentityKindV2) : stM Encoder string () :=
  match kind with
  | Kind_PreserveCaller => put_byte 1
  | Kind_AdministratorProfile reference =>
      put_byte 2 ≫= λ _, put_id (identity_id reference) ≫= λ _,
      put_digest (identity_semantic_digest reference)
  end.

Definition ones (n : nat) : list u8 := replicate n (byte 1).

Definition put_tcp_checkpoint (self : PrivateTcpCheckpointV2) : stM Encoder string () :=
  put_digest (ck_attempt_binding self) ≫= λ _,
  put_id (profile_id (ck_profile self)) ≫= λ _,
  put_digest (profile_semantic_digest (ck_profile self)) ≫= λ _,
  put_kind (ti_kind (ck_identity self)) ≫= λ _,
  put_digest (ti_entrypoint_digest (ck_identity self)) ≫= λ _,
  raw (ones 4) ≫= λ _,
  raw (nonce_bytes (ck_caller_envelope_reference self)) ≫= λ _,
  put_u64 (no_caller_network_inode (ck_target_network_namespace self)) ≫= λ _,
  put_u64 (no_target_network_inode (ck_target_network_namespace self)) ≫= λ _,
  raw (ones 2) ≫= λ _,
  put_digest (ck_topology_digest self) ≫= λ _,
  put_digest (ck_filter_digest self) ≫= λ _,
  put_byte (abi_tag (ck_native_abi self)) ≫= λ _,
  put_u16 (pp_unprivileged_port_start (ck_port_policy self)) ≫= λ _,
  put_u16 (pp_ephemeral_first (ck_port_policy self)) ≫= λ _,
  put_u16 (pp_ephemeral_last (ck_port_policy self)) ≫= λ _,
  put_byte 1 ≫= λ _,
  put_byte (ro_gated_descriptor_count (ck_resources self)) ≫= λ _,
  put_byte (ro_post_exec_descriptor_count (ck_resources self)) ≫= λ _,
  raw (ones 5) ≫= λ _,
  raw (ones 3).

Definition tcp_checkpoint_preimage (self : PrivateTcpCheckpointV2) : result string (list u8) :=
  tcp_checkpoint_validate self ≫= λ _,
  encode_limited PUBLIC_OBJECT_BYTES (domain "private-tcp-checkpoint-v2") (put_tcp_checkpoint self).

Record PrivateTcpRetiredV2 : Type := {
  rt_attempt_binding : DiagnosticSha256;
  rt_checkpoint_digest : DiagnosticSha256;
  rt_workload_empty : VerifiedTrue;
  rt_required_helpers_reaped : VerifiedTrue;
  rt_cgroup_retired : VerifiedTrue;
  rt_provider_network_references_closed : VerifiedTrue;
  rt_stdio_and_setup_resources_closed : VerifiedTrue;
  rt_policy_snapshot_released : VerifiedTrue
}.

Definition put_retired (self : PrivateTcpRetiredV2) : stM Encoder string () :=
  put_digest (rt_attempt_binding self) ≫= λ _,
  put_digest (rt_checkpoint_digest self) ≫= λ _,
  raw (ones 6).

Definition retired_preimage (self : PrivateTcpRetiredV2) : result string (list u8) :=
  encode_limited PUBLIC_OBJECT_BYTES (domain "private-tcp-terminal-v2") (put_retired self).

Section digests.
  Context (sha256_hash : list u8 → list u8).

Definition snapshot_digest (self : RuntimePrivateAdmissionSnapshot) : result string DiagnosticSha256 :=
  snapshot_validate sha256_hash self ≫= λ _,
  hash_bytes sha256_hash <$>
    encode_limited PUBLIC_OBJECT_BYTES (domain "memcordon.private-admission-metadata/revision1")
      (put_snapshot self).
Definition attempt_digest_v2 (self : AttemptBindingV2) : result string DiagnosticSha256 :=
  hash_bytes sha256_hash <$>
    encode_limited CONTRACT_BYTES (domain "private-attempt-binding-v2") (put_attempt_v2 self).
Definition tcp_checkpoint_digest (self : PrivateTcpCheckpointV2) : result string DiagnosticSha256 :=
  hash_bytes sha256_hash <$> tcp_checkpoint_preimage self.
Definition retired_digest (self : PrivateTcpRetiredV2) : result string DiagnosticSha256 :=
  hash_bytes sha256_hash <$> retired_preimage self.

Definition retired_observed (checkpoint : PrivateTcpCheckpointV2)
    (workload_empty required_helpers_reaped cgroup_retired provider_network_references_closed
     stdio_and_setup_resources_closed policy_snapshot_released : bool)
    : result string PrivateTcpRetiredV2 :=
  tcp_checkpoint_validate checkpoint ≫= λ _,
  digest ← tcp_checkpoint_digest checkpoint;
  workload_empty ← verified_observed workload_empty;
  required_helpers_reaped ← verified_observed required_helpers_reaped;
  cgroup_retired ← verified_observed cgroup_retired;
  provider_network_references_closed ← verified_observed provider_network_references_closed;
  stdio_and_setup_resources_closed ← verified_observed stdio_and_setup_resources_closed;
  policy_snapshot_released ← verified_observed policy_snapshot_released;
  Ok {| rt_attempt_binding := ck_attempt_binding checkpoint; rt_checkpoint_digest := digest;
        rt_workload_empty := workload_empty; rt_required_helpers_reaped := required_helpers_reaped;
        rt_cgroup_retired := cgroup_retired;
        rt_provider_network_references_closed := provider_network_references_closed;
        rt_stdio_and_setup_resources_closed := stdio_and_setup_resources_closed;
        rt_policy_snapshot_released := policy_snapshot_released |}.

Definition retired_terminal_success (self : PrivateTcpRetiredV2) (checkpoint : PrivateTcpCheckpointV2)
    : bool :=
  is_ok (tcp_checkpoint_validate checkpoint)
  && (rt_attempt_binding self ≟ ck_attempt_binding checkpoint)
  && is_ok_and (λ digest, digest ≟ rt_checkpoint_digest self) (tcp_checkpoint_digest checkpoint).
End digests.

(** ** What a retirement claim binds *)

Definition identity_ref_wf (r : ExecutionIdentityRefV2) : Prop :=
  id_wf (identity_id r) ∧ sha_wf (identity_semantic_digest r).
Definition kind_wf (k : TargetIdentityKindV2) : Prop :=
  match k with Kind_PreserveCaller => True | Kind_AdministratorProfile r => identity_ref_wf r end.

(** The machine types of a checkpoint. *)
Record tcp_checkpoint_wf (c : PrivateTcpCheckpointV2) : Prop := {
  tw_attempt : sha_wf (ck_attempt_binding c);
  tw_profile : reference_wf (ck_profile c);
  tw_kind : kind_wf (ti_kind (ck_identity c));
  tw_entrypoint : sha_wf (ti_entrypoint_digest (ck_identity c));
  tw_reference : length (nonce_bytes (ck_caller_envelope_reference c)) = 16%nat;
  tw_caller_inode : no_caller_network_inode (ck_target_network_namespace c) < 2 ^ 64;
  tw_target_inode : no_target_network_inode (ck_target_network_namespace c) < 2 ^ 64;
  tw_topology : sha_wf (ck_topology_digest c);
  tw_filter : sha_wf (ck_filter_digest c);
  tw_port_start : pp_unprivileged_port_start (ck_port_policy c) < 2 ^ 16;
  tw_port_first : pp_ephemeral_first (ck_port_policy c) < 2 ^ 16;
  tw_port_last : pp_ephemeral_last (ck_port_policy c) < 2 ^ 16;
  tw_gated : ro_gated_descriptor_count (ck_resources c) < 256;
  tw_post_exec : ro_post_exec_descriptor_count (ck_resources c) < 256
}.

Definition kind_code (k : TargetIdentityKindV2) : list u8 :=
  match k with
  | Kind_PreserveCaller => [byte 1]
  | Kind_AdministratorProfile r =>
      [byte 2] ++ (be_bytes 2 (str_len (id_str (identity_id r))) ++ bytes (id_str (identity_id r)))
      ++ sha_bytes (identity_semantic_digest r)
  end.

Lemma writes_id i : id_wf i → writes (put_id i) (be_bytes 2 (str_len (id_str i)) ++ bytes (id_str i)).
Proof.
  intros Hi. unfold put_id. apply writes_bind; [|apply writes_raw].
  pose proof (proj1 (id_wf_spec i Hi)). unfold put_count, try_from, fits.
  replace (_ <? _) with true by lia. apply writes_raw.
Qed.

Lemma codes_kind : codes kind_wf put_kind.
Proof.
  exists kind_code. split_and!; [| |by intros ? ? _ _ [= ->]].
  - intros [|r] Hk; [apply writes_raw|]. destruct Hk. unfold put_kind, kind_code.
    apply writes_bind; [apply writes_raw|]. apply writes_bind; [by apply writes_id|apply writes_raw].
  - intros [|[[i1] [d1]]] [|[[i2] [d2]]] r s Hx Hy E; unfold kind_code in E;
      cbn [identity_id identity_semantic_digest id_str sha_bytes] in E; [by simplify_eq|discriminate|discriminate|].
    rewrite <- !(assoc_L (++)) in E. apply app_inv_head in E. destruct Hx as [X1 X2], Hy as [Y1 Y2].
    apply id_wf_spec in X1 as [X1 _], Y1 as [Y1 _]. cbn in X1, Y1.
    apply be_bytes_prefix_free in E as [El E]; [|change (256 ^ N.of_nat 2) with 65536; lia..].
    apply app_inj_1 in E as [Ei E]; [|rewrite !str_len_bytes in El; unfold u8 in *; lia].
    apply app_inj_1 in E as [-> ->]; [|unfold sha_wf in *; cbn in *; congruence].
    apply bytes_inj in Ei. by subst.
Qed.

Lemma codes_tcp_checkpoint : codes tcp_checkpoint_wf put_tcp_checkpoint.
Proof.
  unfold put_tcp_checkpoint. eapply determines_ext.
  - repeat (apply determines_bind;
      [first [ apply determines_const | apply (determines_tag _ abi_tag)
             | eapply (determines_comp _ _ _ _ _ codes_kind) | eapply (determines_comp _ _ _ _ _ codes_u16)
             | eapply (determines_comp _ _ _ _ _ codes_byte) | coded_field ]|]); [..|apply determines_const].
    11: by intros [].
    11: by intros [] [].
    all: intros c H; destruct H as [? [? ?] ? ? ? ? ? ? ? ? ? ? ? ?]; assumption.
  - intros b c _ _. split; [|by intros [= ->]]. cbn. intros E. simplify_eq.
    destruct b as [? [] [? ? [] [] [] []] [] [? ? [] []] ? ? ? [? ? ? []] [? ? [] [] [] [] []] [] [] []].
    destruct c as [? [] [? ? [] [] [] []] [] [? ? [] []] ? ? ? [? ? ? []] [? ? [] [] [] [] []] [] [] []].
    simpl in *. congruence.
Qed.

Lemma tcp_checkpoint_encodes c :
  tcp_checkpoint_wf c → tcp_checkpoint_validate c = Ok () → ∃ bs, tcp_checkpoint_preimage c = Ok bs.
Proof.
  intros Hw Hv. unfold tcp_checkpoint_preimage. rewrite Hv. cbn [mbind result_bind].
  apply (within_encode 500); [|vm_compute; discriminate].
  destruct Hw as [? [? ?] Hk ? ? ? ? ? ? ? ? ? ? ?]. unfold put_tcp_checkpoint.
  assert (within 99 (put_kind (ti_kind (ck_identity c)))) as Hkind.
  { destruct (ti_kind (ck_identity c)) as [|r]; [eapply within_le; [apply within_byte|lia]|].
    destruct Hk. unfold put_kind. apply (within_bind 1 98); [apply within_byte|].
    apply (within_bind 66 32); [by apply within_id|by apply within_digest]. }
  eapply within_le.
  - repeat (apply within_bind; [first
      [ by apply within_digest | by apply within_id | exact Hkind | apply within_u64 | apply within_byte
      | apply (within_raw 2), Nat.eq_le_incl, length_be_bytes | apply (within_raw 16); lia
      | apply (within_raw 5); cbn; lia ]|]).
    apply (within_raw 5). cbn. lia.
  - cbn. lia.
Qed.

Lemma verified_observed_Ok b v : verified_observed b = Ok v ↔ b = true ∧ v = Verified.
Proof. destruct b, v; cbn; naive_solver. Qed.

(** A private attempt is reported as retired only with every retirement fact,
    and the report is about one checkpoint.  For a valid checkpoint the report is
    made exactly when all six facts were observed; it then succeeds for that
    checkpoint; and any other checkpoint it succeeds for has the same canonical
    bytes under SHA-256, so it is the same checkpoint or a collision is
    exhibited. *)
Theorem private_retirement_binds sha256_hash c :
  tcp_checkpoint_wf c → tcp_checkpoint_validate c = Ok () →
  (∀ f1 f2 f3 f4 f5 f6,
     is_ok (retired_observed sha256_hash c f1 f2 f3 f4 f5 f6) = f1 && f2 && f3 && f4 && f5 && f6) ∧
  ∃ r, retired_observed sha256_hash c true true true true true true = Ok r ∧
    retired_terminal_success sha256_hash r c = true ∧
    (∀ c', tcp_checkpoint_wf c' → retired_terminal_success sha256_hash r c' = true →
       c' = c ∨ ∃ x y, tcp_checkpoint_preimage c' = Ok x ∧ tcp_checkpoint_preimage c = Ok y ∧
         collision sha256_hash x y).
Proof.
  intros Hw Hv. destruct (tcp_checkpoint_encodes c Hw Hv) as [bs Hb].
  assert (tcp_checkpoint_digest sha256_hash c = Ok (hash_bytes sha256_hash bs)) as Hd
    by (unfold tcp_checkpoint_digest; by rewrite Hb).
  split; [intros; unfold retired_observed; rewrite Hv, Hd; cbn [mbind result_bind];
          by destruct f1, f2, f3, f4, f5, f6|].
  eexists. split; [unfold retired_observed; rewrite Hv, Hd; reflexivity|].
  split; [unfold retired_terminal_success; rewrite Hv, Hd; cbn; by rewrite !bool_decide_eq_true_2|].
  intros c' Hw' H. unfold retired_terminal_success in H. cbn in H. bool_hyps.
  match goal with H : is_ok_and _ _ = true |- _ => apply is_ok_and_true in H as (d & Ed & E) end.
  apply bool_decide_eq_true in E. subst d. unfold tcp_checkpoint_digest in Ed.
  destruct (tcp_checkpoint_preimage c') as [x|] eqn:Hx; [|done]. cbn in Ed. injection Ed as Ed.
  destruct (decide (x = bs :> list u8)) as [->|Hne]; [left|right; by exists x, bs].
  unfold tcp_checkpoint_preimage in Hx, Hb. apply bind_Ok in Hx as ([] & _ & Hx), Hb as ([] & _ & Hb).
  exact (determines_encode _ _ _ _ _ _ _ _ codes_tcp_checkpoint Hw' Hw Hx Hb).
Qed.

(** ** A private attempt *)

Module PrivateExamples.
Import RegistryExamples RegistryV2Examples EvidenceExamples.

Definition request_digest : DiagnosticSha256 :=
  match contract_digest_v2 hash delegated_request with Ok d => d | Err _ => plan end.
Definition metadata : RuntimePrivateAdmissionSnapshot :=
  {| as_format := "memcordon.private-admission-metadata"; as_revision := 1;
     as_request := delegated_request; as_request_sha256 := request_digest;
     as_invocation_sha256 := plan; as_caller := bob; as_registry_digest := plan; as_epoch := epoch;
     as_admission_nonce := nonce; as_profile_id := private |}.
Definition attempt : list u8 := replicate 16 "a"%char.
Definition terminal : PrivateRuntimeTerminal :=
  {| pt_format := "memcordon.private-runtime-terminal"; pt_revision := 1; pt_provider := provider;
     pt_native_abi := "x86_64-unknown-linux-gnu"; pt_attempt_id := attempt;
     pt_request_sha256 := request_digest; pt_admission_metadata := metadata; pt_launch := ExecObserved;
     pt_authorization_offset_millis := Some 5; pt_authorization_monotonic_millis := Some 1005;
     pt_target_pid := Some 77; pt_network_namespace := Some {| ns_device := 4; ns_inode := 40 |};
     pt_exec_observed := true; pt_post_exec_descriptor_count := Some 3; pt_outcome := Outcome_Completed;
     pt_native_termination := Some (ExitCode 0); pt_cleanup := CleanupComplete;
     pt_account_reservation_retired := true; pt_namespace_references_closed := true;
     pt_error := None |}.

(** A library that reads one document. *)
#[local] Instance one_document : SerdeJson := {| json_of := λ _, Ok (JObject [("format"%string, JNull)]) |}.
#[local] Instance reads_terminal : Deserialize PrivateRuntimeTerminal :=
  {| from_slice := λ _, Ok terminal |}.

Definition checkpoint (inode : N) : PrivateTcpCheckpointV2 :=
  {| ck_attempt_binding := plan; ck_profile := private;
     ck_identity := {| ti_kind := Kind_AdministratorProfile (xi_reference service);
                       ti_entrypoint_digest := plan; ti_exact_credentials_verified := Verified;
                       ti_no_new_privileges_verified := Verified; ti_capability_sets_empty := Verified;
                       ti_bounding_set_empty := Verified |};
     ck_caller_envelope_reference := nonce;
     ck_target_network_namespace :=
       {| no_caller_network_inode := 39; no_target_network_inode := inode; no_loopback_only := Verified;
          no_ipv6_disabled := Verified |};
     ck_topology_digest := plan; ck_filter_digest := plan; ck_native_abi := X86_64LinuxGnu;
     ck_port_policy := {| pp_unprivileged_port_start := 0; pp_ephemeral_first := 32768;
                          pp_ephemeral_last := 60999; pp_reserved_ports_empty := Verified |};
     ck_resources := {| ro_gated_descriptor_count := 5; ro_post_exec_descriptor_count := 3;
                        ro_anonymous_pipe_stdio := Verified; ro_control_and_elf_cloexec := Verified;
                        ro_no_candidate_socket := Verified; ro_no_imported_descriptor := Verified;
                        ro_no_other_descriptor := Verified |};
     ck_guardian_verified := Verified; ck_epoch_revalidated := Verified; ck_checkpoint_durable := Verified |}.

Lemma checkpoint_sample : tcp_checkpoint_wf (checkpoint 40).
Proof. constructor; try done. Qed.
Example shared_namespace_rejected : is_ok (tcp_checkpoint_validate (checkpoint 39)) = false.
Proof. reflexivity. Qed.
End PrivateExamples.

Lemma private_terminal_bound_witness :
  terminal_certified PrivateExamples.terminal.
Proof.
  refine (proj2 (proj2 (proj2 (proj2 (proj2 (proj2 (proj2 (proj2 (proj2 (proj2 (proj2
    (@private_terminal_bound RegistryExamples.hash PrivateExamples.one_document
       PrivateExamples.reads_terminal [] EvidenceExamples.provider PrivateExamples.attempt
       PrivateExamples.request_digest RegistryV2Examples.delegated_request RegistryExamples.plan
       PrivateExamples.terminal _)))))))))))).
  vm_compute. reflexivity.
Defined.

Lemma private_retirement_binds_witness :
  is_ok (retired_observed RegistryExamples.hash (PrivateExamples.checkpoint 40)
           true true false true true true) = false ∧
  ∃ r, retired_observed RegistryExamples.hash (PrivateExamples.checkpoint 40)
         true true true true true true = Ok r ∧
    retired_terminal_success RegistryExamples.hash r (PrivateExamples.checkpoint 40) = true.
Proof.
  destruct (private_retirement_binds RegistryExamples.hash (PrivateExamples.checkpoint 40)
    PrivateExamples.checkpoint_sample ltac:(vm_compute; reflexivity)) as (H & r & E & S & _).
  split; [exact (H true true false true true true)|exists r; split; [exact E|exact S]].
Defined.
