(* ===== verification/PrivateJournal.v ===== *)
(** * The private attempt's journal

    linux/private_attempt.rs of the sealed agent: the durable record of one
    private attempt, its checks, its text form, the operations that advance it
    and the files they go through.  [ProcessIdentityV4::observe], which reads
    /proc, is not modelled: identities are values.

    The file system is the interface [FileSystem], one operation per call of
    the source, and [CrashLaws] says what POSIX and fsync(2) promise about the
    names that survive a power loss.  Names are relative to the state root. *)

From S2P Require Import Prelude Decimal Bounded Codec Diagnostics RecordLimits WorkloadContract WorkloadCodec Registry RegistryV2 JsonDocuments WorkloadEvidence NativeText PrivateRuntime PrivateEvidence.
From Stdlib Require Import Ascii.

(** ** Text *)
Definition LF : u8 := ascii_of_N 10.
Definition CR : u8 := ascii_of_N 13.

(** [str::rsplit_once] with a non-empty pattern. *)
Fixpoint rsplit_once (pattern l : list u8) : option (list u8 * list u8) :=
  match l with
  | [] => None
  | b :: rest =>
      match rsplit_once pattern rest with
      | Some (before, after) => Some (b :: before, after)
      | None => (λ after, ([], after)) <$> strip_prefix pattern l
      end
  end.

(** [line.strip_suffix('\r').unwrap_or(line)] *)
Definition strip_cr (line : list u8) : list u8 :=
  match last line with Some b => if b ≟ CR then take (length line - 1) line else line | None => line end.
(** [str::lines] *)
Fixpoint lines_from (current l : list u8) : list (list u8) :=
  match l with
  | [] => if current ≟ [] then [] else [current]
  | b :: rest => if b ≟ LF then strip_cr current :: lines_from [] rest else lines_from (current ++ [b]) rest
  end.
Definition lines (l : list u8) : list (list u8) := lines_from [] l.

(** ** The record *)
Inductive PrivateAttemptPhase : Type :=
| Phase_Allocated | Phase_BoundaryCreated | Phase_GuardianReady | Phase_TargetGated
| Phase_CheckpointCommitted | Phase_ReleaseIntent | Phase_ExecutionObserved | Phase_Retiring
| Phase_Retired | Phase_CleanupIncomplete.
Inductive ReleaseKnowledge : Type :=
| Knowledge_NotReleased | Knowledge_PossiblyReleased | Knowledge_ExecObserved.
#[global] Instance PrivateAttemptPhase_eq_dec : EqDecision PrivateAttemptPhase.
Proof. solve_decision. Defined.
#[global] Instance ReleaseKnowledge_eq_dec : EqDecision ReleaseKnowledge.
Proof. solve_decision. Defined.

Record ProcessIdentityV4 : Type := { pi_pid : N; pi_start_time : N }.
#[global] Instance ProcessIdentityV4_eq_dec : EqDecision ProcessIdentityV4.
Proof. solve_decision. Defined.

Definition identity_validate (self : ProcessIdentityV4) : result string () :=
  guard_err ((pi_pid self =? 0) || (pi_start_time self =? 0)) "V4 process identity is incomplete"%string.

Record OperationalGatedFacts : Type := {
  gf_format : string; gf_revision : N; gf_attempt_binding : DiagnosticSha256;
  gf_target : ProcessIdentityV4; gf_init : ProcessIdentityV4; gf_network_namespace_inode : N;
  gf_entrypoint_sha256 : DiagnosticSha256; gf_filter_sha256 : DiagnosticSha256;
  gf_topology_sha256 : DiagnosticSha256; gf_gated_descriptor_count : N
}.
#[global] Instance OperationalGatedFacts_eq_dec : EqDecision OperationalGatedFacts.
Proof. solve_decision. Defined.

Definition gated_facts_validate (self : OperationalGatedFacts) : result string () :=
  guard_err ((gf_format self ≠? "memcordon.private-gated-observation"%string) || negb (gf_revision self =? 1)
             || negb (gf_gated_descriptor_count self =? 5) || (gf_network_namespace_inode self =? 0))
    "private gated observation format or inventory differs"%string ;;
  identity_validate (gf_target self) ;;
  identity_validate (gf_init self).

#[global] Instance AttemptBindingV2_eq_dec : EqDecision AttemptBindingV2.
Proof. solve_decision. Defined.
#[global] Instance VerifiedTrue_eq_dec : EqDecision VerifiedTrue.
Proof. solve_decision. Defined.
#[global] Instance TargetIdentityKindV2_eq_dec : EqDecision TargetIdentityKindV2.
Proof. solve_decision. Defined.
#[global] Instance TargetIdentityObservationV2_eq_dec : EqDecision TargetIdentityObservationV2.
Proof. solve_decision. Defined.
#[global] Instance NamespaceObservationV2_eq_dec : EqDecision NamespaceObservationV2.
Proof. solve_decision. Defined.
#[global] Instance QualifiedNativeAbiV2_eq_dec : EqDecision QualifiedNativeAbiV2.
Proof. solve_decision. Defined.
#[global] Instance PrivatePortPolicyV1_eq_dec : EqDecision PrivatePortPolicyV1.
Proof. solve_decision. Defined.
#[global] Instance EntryResourceObservationV2_eq_dec : EqDecision EntryResourceObservationV2.
Proof. solve_decision. Defined.
#[global] Instance PrivateTcpCheckpointV2_eq_dec : EqDecision PrivateTcpCheckpointV2.
Proof. solve_decision. Defined.

Record PrivateAttemptRecordV4 : Type := {
  pa_attempt_id : BoundedText 64;
  pa_boot_identity : BoundedText 128;
  pa_frontend : ProcessIdentityV4;
  pa_caller_envelope_digest : DiagnosticSha256;
  pa_admission_metadata : option RuntimePrivateAdmissionSnapshot;
  pa_phase : PrivateAttemptPhase;
  pa_release_knowledge : ReleaseKnowledge;
  pa_binding : option AttemptBindingV2;
  pa_guardian : option ProcessIdentityV4;
  pa_namespace_init : option ProcessIdentityV4;
  pa_target : option ProcessIdentityV4;
  pa_network_namespace_inode : option N;
  pa_checkpoint : option PrivateTcpCheckpointV2;
  pa_checkpoint_digest : option DiagnosticSha256;
  pa_gated_facts : option OperationalGatedFacts;
  pa_cleanup_error : option (BoundedText 4096)
}.
#[global] Instance PrivateAttemptRecordV4_eq_dec : EqDecision PrivateAttemptRecordV4.
Proof. solve_decision. Defined.

Definition MAX_PRIVATE_RECORD_BYTES : N := REGISTRY_BYTES + PUBLIC_OBJECT_BYTES * 2.

(** linux/cgroup.rs *)
Definition valid_attempt_identity (identity : string) : bool :=
  (str_len identity =? 32)
  && forallb (λ b, byte_in 48 57 b || byte_in 97 102 b) (bytes identity).

(** An optional identity, checked when present. *)
Definition present_validate (process : option ProcessIdentityV4) : result string () :=
  match process with Some p => identity_validate p | None => Ok () end.

Section Records.
Context (sha256_hash : list u8 → list u8).

Definition no_target (r : PrivateAttemptRecordV4) : bool :=
  is_none (pa_namespace_init r) && is_none (pa_target r) && is_none (pa_network_namespace_inode r)
  && is_none (pa_checkpoint r).

Definition phase_resources_validate (r : PrivateAttemptRecordV4) : result string () :=
  match pa_phase r with
  | Phase_Allocated =>
      guard_err (negb (is_none (pa_guardian r) && no_target r)) "V4 preboundary phase contains native resources"%string
  | Phase_BoundaryCreated =>
      guard_err (negb (is_none (pa_guardian r) && no_target r)) "V4 boundary phase contains later resources"%string
  | Phase_GuardianReady =>
      guard_err (negb (is_some (pa_guardian r) && no_target r)) "V4 guardian phase resource inventory differs"%string
  | Phase_TargetGated =>
      guard_err (is_some (pa_checkpoint r)) "V4 gated phase contains uncommitted checkpoint"%string
  | _ => Ok ()
  end.

Definition gated (phase : PrivateAttemptPhase) : bool :=
  bool_decide (phase ∈ [Phase_TargetGated; Phase_CheckpointCommitted; Phase_ReleaseIntent; Phase_ExecutionObserved]).
Definition committed (phase : PrivateAttemptPhase) : bool :=
  bool_decide (phase ∈ [Phase_CheckpointCommitted; Phase_ReleaseIntent; Phase_ExecutionObserved]).

Definition metadata_validate (r : PrivateAttemptRecordV4) : result string () :=
  match pa_admission_metadata r with
  | None => Ok ()
  | Some metadata =>
      snapshot_validate sha256_hash metadata ;;
      match pa_binding r with
      | None => Ok ()
      | Some binding =>
          digest ← snapshot_digest sha256_hash metadata;
          guard_err ((b2_admission_digest binding ≠? digest)
                     || (b2_native_invocation_digest binding ≠? as_invocation_sha256 metadata))
            "private journal local admission association differs"%string
      end
  end.

Definition binding_validate (r : PrivateAttemptRecordV4) : result string () :=
  match pa_binding r with
  | None => Ok ()
  | Some binding =>
      guard_err ((b2_attempt_id binding ≠? pa_attempt_id r)
                 || (b2_caller_envelope_digest binding ≠? pa_caller_envelope_digest r))
        "native journal attempt correlation differs"%string
  end.

(** [self.binding.as_ref().map(canonical_digest).transpose()?] *)
Definition binding_digest (r : PrivateAttemptRecordV4) : result string (option DiagnosticSha256) :=
  match pa_binding r with
  | None => Ok None
  | Some binding => Some <$> attempt_digest_v2 sha256_hash binding
  end.

Definition facts_validate (r : PrivateAttemptRecordV4) : result string () :=
  match pa_gated_facts r with
  | None => Ok ()
  | Some facts =>
      gated_facts_validate facts ;;
      digest ← binding_digest r;
      guard_err ((digest ≠? Some (gf_attempt_binding facts))
                 || (pa_target r ≠? Some (gf_target facts))
                 || (pa_namespace_init r ≠? Some (gf_init facts))
                 || (pa_network_namespace_inode r ≠? Some (gf_network_namespace_inode facts)))
        "private gated observations differ from native journal"%string
  end.

Definition checkpoint_validate (r : PrivateAttemptRecordV4) : result string () :=
  match pa_checkpoint r with
  | Some checkpoint =>
      tcp_checkpoint_validate checkpoint ;;
      binding ← ok_or "V4 checkpoint lacks binding"%string (pa_binding r);
      digest ← attempt_digest_v2 sha256_hash binding;
      (if ck_attempt_binding checkpoint ≠? digest
       then Err "V4 checkpoint digest or attempt binding differs"%string
       else own ← tcp_checkpoint_digest sha256_hash checkpoint;
            guard_err (pa_checkpoint_digest r ≠? Some own) "V4 checkpoint digest or attempt binding differs"%string)
  | None => guard_err (is_some (pa_checkpoint_digest r)) "V4 checkpoint digest lacks payload"%string
  end.

Definition knowledge_validate (r : PrivateAttemptRecordV4) : result string () :=
  match pa_phase r with
  | Phase_Allocated | Phase_BoundaryCreated | Phase_GuardianReady | Phase_TargetGated | Phase_CheckpointCommitted =>
      guard_err (pa_release_knowledge r ≠? Knowledge_NotReleased) "V4 release knowledge precedes release intent"%string
  | Phase_ReleaseIntent =>
      guard_err (pa_release_knowledge r ≠? Knowledge_PossiblyReleased) "V4 release intent lacks uncertainty"%string
  | Phase_ExecutionObserved =>
      guard_err (pa_release_knowledge r ≠? Knowledge_ExecObserved) "V4 exec phase lacks observation"%string
  | _ => Ok ()
  end.

Definition record_validate (r : PrivateAttemptRecordV4) : result string () :=
  guard_err (negb (valid_attempt_identity (text (pa_attempt_id r))) || (str_len (text (pa_boot_identity r)) =? 0))
    "V4 attempt or boot identity invalid"%string ;;
  identity_validate (pa_frontend r) ;;
  metadata_validate r ;;
  present_validate (pa_guardian r) ;;
  present_validate (pa_namespace_init r) ;;
  present_validate (pa_target r) ;;
  guard_err (pa_network_namespace_inode r ≟ Some 0) "V4 network namespace inode is zero"%string ;;
  binding_validate r ;;
  phase_resources_validate r ;;
  guard_err (gated (pa_phase r)
             && (is_none (pa_guardian r) || is_none (pa_namespace_init r) || is_none (pa_target r)
                 || is_none (pa_network_namespace_inode r)))
    "V4 gated target lacks native resource identities"%string ;;
  guard_err (committed (pa_phase r) && is_none (pa_gated_facts r))
    "private committed phase lacks actual gated observations"%string ;;
  facts_validate r ;;
  checkpoint_validate r ;;
  guard_err ((pa_release_knowledge r ≠? Knowledge_NotReleased) && is_none (pa_gated_facts r))
    "private release knowledge lacks native gated observations"%string ;;
  knowledge_validate r ;;
  guard_err ((pa_phase r ≟ Phase_CleanupIncomplete) && is_none (pa_cleanup_error r))
    "V4 incomplete cleanup lacks an error"%string ;;
  guard_err (is_some (pa_cleanup_error r) && (pa_phase r ≠? Phase_CleanupIncomplete))
    "V4 cleanup error appears outside incomplete phase"%string.

Definition allocated (attempt_id : BoundedText 64) (boot_identity : BoundedText 128)
    (frontend : ProcessIdentityV4) (caller_envelope_digest : DiagnosticSha256)
    : result string PrivateAttemptRecordV4 :=
  let record :=
    {| pa_attempt_id := attempt_id; pa_boot_identity := boot_identity; pa_frontend := frontend;
       pa_caller_envelope_digest := caller_envelope_digest; pa_admission_metadata := None;
       pa_phase := Phase_Allocated; pa_release_knowledge := Knowledge_NotReleased; pa_binding := None;
       pa_guardian := None; pa_namespace_init := None; pa_target := None;
       pa_network_namespace_inode := None; pa_checkpoint := None; pa_checkpoint_digest := None;
       pa_gated_facts := None; pa_cleanup_error := None |} in
  record_validate record ≫= λ _, Ok record.

(** ** The text form *)
Context `{SerdeJson} `{Serialize PrivateAttemptRecordV4} `{Deserialize PrivateAttemptRecordV4}.

Definition hex_digest (body : list u8) : list u8 := bytes (sha256_into_string (hash_bytes sha256_hash body)).

Definition record_body (identity : string) (payload : list u8) : list u8 :=
  bytes "format=memcordon.private-native-journal" ++ [LF] ++ bytes "revision=1" ++ [LF]
  ++ bytes "cgroup=" ++ bytes identity ++ [LF] ++ bytes "payload=" ++ payload ++ [LF].

Definition record_encode (self : PrivateAttemptRecordV4) : result string (list u8) :=
  record_validate self ≫= λ _,
  payload ← to_vec self;
  let body := record_body (text (pa_attempt_id self)) payload in
  let bytes := body ++ bytes "digest=" ++ hex_digest body ++ [LF] in
  guard_err (over MAX_PRIVATE_RECORD_BYTES bytes) "V4 record exceeds bound"%string ;;
  Ok bytes.

Definition field (prefix : string) (line : option (list u8)) : option (list u8) :=
  line ≫= strip_prefix (bytes prefix).

Definition record_parse (input : list u8) : result string PrivateAttemptRecordV4 :=
  guard_err (over MAX_PRIVATE_RECORD_BYTES input) "V4 record exceeds bound"%string ;;
  guard_err (negb (is_utf8 input)) "invalid utf-8"%string ;;
  parts ← ok_or "V4 record checksum absent"%string (rsplit_once (bytes "digest=") input);
  let '(body, digest) := parts in
  guard_err (negb (bool_decide (digest = hex_digest body ++ [LF]))) "V4 record checksum differs"%string ;;
  let found := lines body in
  guard_err (negb (bool_decide (found !! 0%nat = Some (bytes "format=memcordon.private-native-journal")))
             || negb (bool_decide (found !! 1%nat = Some (bytes "revision=1"))))
    "V4 record version differs"%string ;;
  identity ← ok_or "V4 cgroup binding absent"%string (field "cgroup=" (found !! 2%nat));
  payload ← ok_or "V4 payload absent"%string (field "payload=" (found !! 3%nat));
  guard_err (is_some (found !! 4%nat)) "V4 record has extra fields"%string ;;
  reject_duplicate_json_keys payload ≫= λ _,
  record ← from_slice payload;
  record_validate record ≫= λ _,
  guard_err (negb (bool_decide (bytes (text (pa_attempt_id record)) = identity)))
    "V4 cgroup and payload identity differ"%string ;;
  Ok record.
End Records.

(** ** Files *)
Record FileMetadata : Type := { md_is_file : bool; md_uid : N; md_mode : N; md_nlink : N }.

Class FileSystem (World : Type) : Type := {
  secure_state_root : stM World string ();
  (** /proc/sys/kernel/random/boot_id, trimmed *)
  boot_identity : stM World string string;
  (** opens the root without following links; its kind and its mode *)
  open_directory : stM World string (bool * N);
  directory_uid : stM World string N;
  create_new : string → stM World string ();
  write_all : string → list u8 → stM World string ();
  sync_all : string → stM World string ();
  sync_directory : stM World string ();
  rename : string → string → stM World string ();
  remove_file : string → stM World string ();
  open_metadata : string → stM World string FileMetadata;
  (** at most the given number of bytes *)
  read_to_end : string → N → stM World string (list u8)
}.

(** What survives a power loss.  [contents] is what a reader sees now, [stable]
    the data of a file when all of it has reached the device, and [survives] the
    contents a name may have afterwards. *)
Class CrashLaws (World : Type) `{FileSystem World} : Type := {
  contents : World → string → option (list u8);
  stable : World → string → option (list u8);
  survives : World → string → option (list u8) → Prop;
  (** nothing about a name changes *)
  kept (p : string) (w w' : World) : Prop :=
    contents w' p = contents w p ∧ stable w' p = stable w p ∧ ∀ c, survives w' p c → survives w p c;
  create_other : ∀ q w w' r, create_new q w = (w', r) → ∀ p, p ≠ q → kept p w w';
  create_empty : ∀ q w w', create_new q w = (w', Ok ()) → contents w' q = Some [];
  write_other : ∀ q l w w' r, write_all q l w = (w', r) → ∀ p, p ≠ q → kept p w w';
  write_appends : ∀ q l old w w', write_all q l w = (w', Ok ()) → contents w q = Some old →
    contents w' q = Some (old ++ l);
  sync_other : ∀ q w w' r, sync_all q w = (w', r) → ∀ p, p ≠ q → kept p w w';
  sync_stable : ∀ q w w', sync_all q w = (w', Ok ()) →
    contents w' q = contents w q ∧ stable w' q = contents w q;
  rename_moves : ∀ q p w w', q ≠ p → rename q p w = (w', Ok ()) →
    contents w' p = contents w q ∧ stable w' p = stable w q;
  rename_fails : ∀ q p w w' e, rename q p w = (w', Err e) →
    contents w' p = contents w p ∧ stable w' p = stable w p;
  rename_atomic : ∀ q p l w w' r, q ≠ p → stable w q = Some l → rename q p w = (w', r) →
    ∀ c, survives w' p c → survives w p c ∨ c = Some l;
  directory_keeps : ∀ w w' r, sync_directory w = (w', r) → ∀ p, kept p w w';
  directory_settles : ∀ w w', sync_directory w = (w', Ok ()) → ∀ p c, survives w' p c →
    (contents w p = None → c = None) ∧ ∀ l, contents w p = Some l → stable w p = Some l → c = Some l;
  remove_other : ∀ q w w' r, remove_file q w = (w', r) → ∀ p, p ≠ q → kept p w w';
  remove_file_gone : ∀ p w w', remove_file p w = (w', Ok ()) → contents w' p = None;
  remove_file_crash : ∀ p w w' r, remove_file p w = (w', r) → ∀ c, survives w' p c → survives w p c ∨ c = None;
  reads_keep : ∀ p w,
    (∀ w' r, open_metadata p w = (w', r) → ∀ q, kept q w w')
    ∧ (∀ n w' r, read_to_end p n w = (w', r) → ∀ q, kept q w w')
    ∧ (∀ w' r, directory_uid w = (w', r) → ∀ q, kept q w w')
}.

Section Journal.
Context (sha256_hash : list u8 → list u8).
Context `{SerdeJson} `{Serialize PrivateAttemptRecordV4} `{Deserialize PrivateAttemptRecordV4}.
Context {World : Type} `{FileSystem World}.

Record DurablePrivateAttempt : Type := { dp_path : string; dp_record : PrivateAttemptRecordV4 }.

(** [path.with_extension("new")]; an attempt identity has no dot. *)
Definition temporary (path : string) : string := (path +:+ ".new")%string.

(** The calls of [replace] and of the creation, in order; the first failure
    ends the sequence. *)
Fixpoint sequence (calls : list (stM World string ())) : stM World string () :=
  match calls with
  | [] => mret ()
  | call :: calls => call ≫= λ _, sequence calls
  end.

Definition replace_calls (path : string) (bytes : list u8) : list (stM World string ()) :=
  [create_new (temporary path); write_all (temporary path) bytes; sync_all (temporary path);
   rename (temporary path) path; sync_directory].

(** A method on [&mut self] over the files. *)
Definition journalM (A : Type) : Type := DurablePrivateAttempt → World → World * DurablePrivateAttempt * result string A.

Definition replace (next : PrivateAttemptRecordV4) : journalM () := λ self w,
  match record_encode sha256_hash next with
  | Err e => (w, self, Err e)
  | Ok bytes =>
      match sequence (replace_calls (dp_path self) bytes) w with
      | (w, Ok _) => (w, {| dp_path := dp_path self; dp_record := next |}, Ok ())
      | (w, Err e) => (w, self, Err e)
      end
  end.

(** A method that computes the next record from the current one and replaces it. *)
Definition advance_record (next : PrivateAttemptRecordV4 → result string PrivateAttemptRecordV4) : journalM () :=
  λ self w,
  match next (dp_record self) with
  | Err e => (w, self, Err e)
  | Ok next => replace next self w
  end.

Definition create_in (record : PrivateAttemptRecordV4) : stM World string DurablePrivateAttempt :=
  st_lift (guard_err (pa_phase record ≠? Phase_Allocated) "V4 record creation requires allocated phase"%string) ≫= λ _,
  directory ← open_directory;
  st_lift (guard_err (negb directory.1 || negb (N.land directory.2 63 =? 0))
             "V4 state directory permissions differ"%string) ≫= λ _,
  let path := text (pa_attempt_id record) in
  create_new path ≫= λ _,
  bytes ← st_lift (record_encode sha256_hash record);
  sequence [write_all path bytes; sync_all path; sync_directory] ≫= λ _,
  mret {| dp_path := path; dp_record := record |}.

Definition create (record : PrivateAttemptRecordV4) : stM World string DurablePrivateAttempt :=
  secure_state_root ≫= λ _,
  boot ← boot_identity;
  st_lift (guard_err (text (pa_boot_identity record) ≠? boot) "V4 record boot identity differs from host"%string) ≫= λ _,
  create_in record.

Definition set_phase (phase : PrivateAttemptPhase) (r : PrivateAttemptRecordV4) : PrivateAttemptRecordV4 :=
  {| pa_attempt_id := pa_attempt_id r; pa_boot_identity := pa_boot_identity r; pa_frontend := pa_frontend r;
     pa_caller_envelope_digest := pa_caller_envelope_digest r; pa_admission_metadata := pa_admission_metadata r;
     pa_phase := phase; pa_release_knowledge := pa_release_knowledge r; pa_binding := pa_binding r;
     pa_guardian := pa_guardian r; pa_namespace_init := pa_namespace_init r; pa_target := pa_target r;
     pa_network_namespace_inode := pa_network_namespace_inode r; pa_checkpoint := pa_checkpoint r;
     pa_checkpoint_digest := pa_checkpoint_digest r; pa_gated_facts := pa_gated_facts r;
     pa_cleanup_error := pa_cleanup_error r |}.
Definition set_knowledge (knowledge : ReleaseKnowledge) (r : PrivateAttemptRecordV4) : PrivateAttemptRecordV4 :=
  {| pa_attempt_id := pa_attempt_id r; pa_boot_identity := pa_boot_identity r; pa_frontend := pa_frontend r;
     pa_caller_envelope_digest := pa_caller_envelope_digest r; pa_admission_metadata := pa_admission_metadata r;
     pa_phase := pa_phase r; pa_release_knowledge := knowledge; pa_binding := pa_binding r;
     pa_guardian := pa_guardian r; pa_namespace_init := pa_namespace_init r; pa_target := pa_target r;
     pa_network_namespace_inode := pa_network_namespace_inode r; pa_checkpoint := pa_checkpoint r;
     pa_checkpoint_digest := pa_checkpoint_digest r; pa_gated_facts := pa_gated_facts r;
     pa_cleanup_error := pa_cleanup_error r |}.
Definition set_admission (metadata : RuntimePrivateAdmissionSnapshot) (binding : AttemptBindingV2)
    (r : PrivateAttemptRecordV4) : PrivateAttemptRecordV4 :=
  {| pa_attempt_id := pa_attempt_id r; pa_boot_identity := pa_boot_identity r; pa_frontend := pa_frontend r;
     pa_caller_envelope_digest := pa_caller_envelope_digest r; pa_admission_metadata := Some metadata;
     pa_phase := pa_phase r; pa_release_knowledge := pa_release_knowledge r; pa_binding := Some binding;
     pa_guardian := pa_guardian r; pa_namespace_init := pa_namespace_init r; pa_target := pa_target r;
     pa_network_namespace_inode := pa_network_namespace_inode r; pa_checkpoint := pa_checkpoint r;
     pa_checkpoint_digest := pa_checkpoint_digest r; pa_gated_facts := pa_gated_facts r;
     pa_cleanup_error := pa_cleanup_error r |}.
Definition set_native (guardian namespace_init target : option ProcessIdentityV4) (inode : option N)
    (facts : option OperationalGatedFacts) (error : option (BoundedText 4096))
    (r : PrivateAttemptRecordV4) : PrivateAttemptRecordV4 :=
  {| pa_attempt_id := pa_attempt_id r; pa_boot_identity := pa_boot_identity r; pa_frontend := pa_frontend r;
     pa_caller_envelope_digest := pa_caller_envelope_digest r; pa_admission_metadata := pa_admission_metadata r;
     pa_phase := pa_phase r; pa_release_knowledge := pa_release_knowledge r; pa_binding := pa_binding r;
     pa_guardian := guardian; pa_namespace_init := namespace_init; pa_target := target;
     pa_network_namespace_inode := inode; pa_checkpoint := pa_checkpoint r;
     pa_checkpoint_digest := pa_checkpoint_digest r; pa_gated_facts := facts; pa_cleanup_error := error |}.

Definition attach_next (metadata : RuntimePrivateAdmissionSnapshot) (r : PrivateAttemptRecordV4)
    : result string PrivateAttemptRecordV4 :=
  guard_err ((pa_phase r ≠? Phase_Allocated) || is_some (pa_admission_metadata r))
    "private admission metadata must precede native allocation"%string ;;
  snapshot_validate sha256_hash metadata ≫= λ _,
  digest ← snapshot_digest sha256_hash metadata;
  Ok (set_admission metadata
        {| b2_attempt_id := pa_attempt_id r; b2_admission_digest := digest;
           b2_caller_envelope_digest := pa_caller_envelope_digest r;
           b2_native_invocation_digest := as_invocation_sha256 metadata |} r).
Definition attach_admission_metadata (metadata : RuntimePrivateAdmissionSnapshot) : journalM () :=
  advance_record (attach_next metadata).

Definition boundary_next (r : PrivateAttemptRecordV4) : result string PrivateAttemptRecordV4 :=
  guard_err (pa_phase r ≠? Phase_Allocated) "native boundary requires an allocated journal"%string ;;
  Ok (set_phase Phase_BoundaryCreated r).
Definition boundary_created : journalM () := advance_record boundary_next.

Definition read_back : journalM PrivateAttemptRecordV4 := λ self w,
  match (metadata ← open_metadata (dp_path self);
         owner ← (if md_is_file metadata then directory_uid else mret 0);
         st_lift (guard_err (negb (md_is_file metadata) || negb (md_uid metadata =? owner)
                             || negb (N.land (md_mode metadata) 511 =? 384) || negb (md_nlink metadata =? 1))
                    "V4 record ownership or mode differs"%string) ≫= λ _,
         input ← read_to_end (dp_path self) (MAX_PRIVATE_RECORD_BYTES + 1);
         record ← st_lift (record_parse sha256_hash input);
         st_lift (guard_err (record ≠? dp_record self) "V4 durable record differs from owned state"%string) ≫= λ _,
         mret record) w with
  | (w, r) => (w, self, r)
  end.

Definition commit_next (facts : OperationalGatedFacts) (r : PrivateAttemptRecordV4)
    : result string PrivateAttemptRecordV4 :=
  guard_err ((pa_phase r ≠? Phase_TargetGated) || is_none (pa_admission_metadata r))
    "private commit requires actual gated target and descriptive local metadata"%string ;;
  Ok (set_phase Phase_CheckpointCommitted
        (set_native (pa_guardian r) (pa_namespace_init r) (pa_target r) (pa_network_namespace_inode r)
           (Some facts) (pa_cleanup_error r) r)).
Definition commit_gated_facts (facts : OperationalGatedFacts) : journalM () := λ self w,
  match advance_record (commit_next facts) self w with
  | (w, self, Err e) => (w, self, Err e)
  | (w, self, Ok _) =>
      match read_back self w with
      | (w, self, Err e) => (w, self, Err e)
      | (w, self, Ok record) =>
          (w, self, guard_err (record ≠? dp_record self) "private gated journal durable readback differs"%string)
      end
  end.

Definition release_next (r : PrivateAttemptRecordV4) : result string PrivateAttemptRecordV4 :=
  guard_err (pa_phase r ≠? Phase_CheckpointCommitted) "private release requires durable gated observations"%string ;;
  Ok (set_knowledge Knowledge_PossiblyReleased (set_phase Phase_ReleaseIntent r)).
Definition release_intent : journalM () := advance_record release_next.

Definition guardian_next (guardian : ProcessIdentityV4) (r : PrivateAttemptRecordV4)
    : result string PrivateAttemptRecordV4 :=
  guard_err (pa_phase r ≠? Phase_BoundaryCreated) "V4 guardian requires dedicated boundary"%string ;;
  Ok (set_phase Phase_GuardianReady
        (set_native (Some guardian) (pa_namespace_init r) (pa_target r) (pa_network_namespace_inode r)
           (pa_gated_facts r) (pa_cleanup_error r) r)).
Definition guardian_ready (guardian : ProcessIdentityV4) : journalM () := advance_record (guardian_next guardian).

Definition gated_next (namespace_init target : ProcessIdentityV4) (inode : N) (r : PrivateAttemptRecordV4)
    : result string PrivateAttemptRecordV4 :=
  guard_err (pa_phase r ≠? Phase_GuardianReady) "V4 target requires live guardian"%string ;;
  Ok (set_phase Phase_TargetGated
        (set_native (pa_guardian r) (Some namespace_init) (Some target) (Some inode)
           (pa_gated_facts r) (pa_cleanup_error r) r)).
Definition target_gated (namespace_init target : ProcessIdentityV4) (inode : N) : journalM () :=
  advance_record (gated_next namespace_init target inode).

Definition retiring_next (r : PrivateAttemptRecordV4) : result string PrivateAttemptRecordV4 :=
  guard_err ((pa_phase r ≟ Phase_Retired) || (pa_phase r ≟ Phase_CleanupIncomplete))
    "V4 record is already terminal"%string ;;
  Ok (set_phase Phase_Retiring r).
Definition retiring : journalM () := advance_record retiring_next.

Definition observed_next (r : PrivateAttemptRecordV4) : result string PrivateAttemptRecordV4 :=
  guard_err (pa_phase r ≠? Phase_ReleaseIntent) "V4 exec observation requires release intent"%string ;;
  Ok (set_knowledge Knowledge_ExecObserved (set_phase Phase_ExecutionObserved r)).
Definition execution_observed : journalM () := advance_record observed_next.

Definition incomplete_next (detail : string) (r : PrivateAttemptRecordV4) : result string PrivateAttemptRecordV4 :=
  guard_err (pa_phase r ≟ Phase_Retired) "V4 retired record cannot become incomplete"%string ;;
  error ← BoundedText_new 4096 detail;
  Ok (set_phase Phase_CleanupIncomplete
        (set_native (pa_guardian r) (pa_namespace_init r) (pa_target r) (pa_network_namespace_inode r)
           (pa_gated_facts r) (Some error) r)).
Definition cleanup_incomplete (detail : string) : journalM () := advance_record (incomplete_next detail).

Definition retired_next (r : PrivateAttemptRecordV4) : result string PrivateAttemptRecordV4 :=
  guard_err (pa_phase r ≠? Phase_Retiring) "V4 record removal requires retiring phase"%string ;;
  Ok (set_phase Phase_Retired r).
Definition remove_retired : journalM () := λ self w,
  match advance_record retired_next self w with
  | (w, self, Err e) => (w, self, Err e)
  | (w, self, Ok _) =>
      match sequence [remove_file (dp_path self); sync_directory] w with (w, r) => (w, self, r) end
  end.

Definition retire_unallocated : journalM () := λ self w,
  if pa_phase (dp_record self) ≠? Phase_Allocated
  then (w, self, Err "V4 direct retirement requires a pre-boundary record"%string)
  else match retiring self w with
       | (w, self, Err e) => (w, self, Err e)
       | (w, self, Ok _) => remove_retired self w
       end.

(** linux/private_lifecycle.rs: the permit of the native owner. *)
Record VerifiedPrivateRetirement : Type := {
  vr_attempt_id : string; vr_checkpoint_digest : option DiagnosticSha256
}.
Definition permit_observed (record : PrivateAttemptRecordV4) : VerifiedPrivateRetirement :=
  {| vr_attempt_id := text (pa_attempt_id record); vr_checkpoint_digest := pa_checkpoint_digest record |}.
Definition permit_matches (self : VerifiedPrivateRetirement) (record : PrivateAttemptRecordV4) : bool :=
  (vr_attempt_id self ≟ text (pa_attempt_id record)) && (vr_checkpoint_digest self ≟ pa_checkpoint_digest record).

Definition retire_after_native_cleanup (permit : VerifiedPrivateRetirement) : journalM () := λ self w,
  if negb (permit_matches permit (dp_record self))
  then (w, self, Err "V4 retirement permit differs from durable attempt"%string)
  else remove_retired self w.
End Journal.

(** ** The text form is exact *)
Lemma strip_prefix_Some prefix l rest : strip_prefix prefix l = Some rest ↔ l = prefix ++ rest.
Proof.
  revert l. induction prefix as [|p prefix IH]; intros l; cbn.
  { split; [by intros [= ->]|by intros ->]. }
  destruct l as [|b l]; [done|]. case_bool_decide as E.
  - subst. rewrite IH. split; [by intros ->|by intros [= ->]].
  - split; [done|]. by intros [= -> _].
Qed.

Lemma rsplit_once_Some pattern l before after :
  rsplit_once pattern l = Some (before, after) → l = before ++ pattern ++ after.
Proof.
  revert before. induction l as [|b l IH]; intros before; cbn; [done|].
  destruct (rsplit_once pattern l) as [[x y]|].
  - intros [= <- ->]. cbn. f_equal. by apply IH.
  - destruct (strip_prefix pattern (b :: l)) as [rest|] eqn:E; [|done].
    intros [= <- ->]. by apply strip_prefix_Some in E.
Qed.

(** The last occurrence is found when the pattern does not occur later. *)
Lemma rsplit_once_last p pattern before after :
  rsplit_once (p :: pattern) (pattern ++ after) = None →
  rsplit_once (p :: pattern) (before ++ (p :: pattern) ++ after) = Some (before, after).
Proof.
  intros Hn. induction before as [|b before IH]; cbn [app rsplit_once].
  - cbn [app] in *. rewrite Hn. by rewrite (proj2 (strip_prefix_Some (p :: pattern) _ after)).
  - cbn [app] in IH. by rewrite IH.
Qed.

Lemma rsplit_once_absent c pattern l : c ∈ pattern → c ∉ l → rsplit_once pattern l = None.
Proof.
  intros Hc. induction l as [|b l IH]; intros Hl; cbn; [done|].
  apply not_elem_of_cons in Hl as [Hb Hl]. rewrite IH by done.
  destruct (strip_prefix pattern (b :: l)) as [rest|] eqn:E; [|done].
  apply strip_prefix_Some in E. exfalso. assert (c ∈ b :: l) as Hin by (rewrite E; set_solver).
  apply elem_of_cons in Hin as [?|?]; done.
Qed.

(** Skipping bytes that do not start the pattern. *)
Lemma rsplit_once_skip p pattern l k : p ∉ l →
  rsplit_once (p :: pattern) (l ++ k) = (λ '(x, y), (l ++ x, y)) <$> rsplit_once (p :: pattern) k.
Proof.
  induction l as [|b l IH]; intros Hl; cbn [app].
  { by destruct (rsplit_once _ k) as [[]|]. }
  apply not_elem_of_cons in Hl as [Hb Hl]. cbn [rsplit_once]. rewrite IH by done.
  destruct (rsplit_once (p :: pattern) k) as [[]|]; cbn; [done|].
  by rewrite bool_decide_false.
Qed.

Lemma lines_line line current rest : LF ∉ line →
  lines_from current (line ++ LF :: rest) = strip_cr (current ++ line) :: lines_from [] rest.
Proof.
  revert current. induction line as [|b line IH]; intros current Hl; cbn.
  { by rewrite app_nil_r. }
  apply not_elem_of_cons in Hl as [Hb Hl]. rewrite bool_decide_false by done.
  rewrite IH by done. by rewrite <- app_assoc.
Qed.

Lemma strip_cr_none line : last line ≠ Some CR → strip_cr line = line.
Proof.
  intros Hl. unfold strip_cr. destruct (last line) as [b|]; [|done]. rewrite bool_decide_false; [done|].
  by intros ->.
Qed.

Lemma lines_cons line rest : LF ∉ line → last line ≠ Some CR → lines (line ++ LF :: rest) = line :: lines rest.
Proof. intros H1 H2. unfold lines. by rewrite lines_line, strip_cr_none. Qed.

(** *** Hexadecimal and ASCII text *)
Definition hex_char (b : u8) : bool := byte_in 48 57 b || byte_in 97 102 b.

Lemma hex_digit_char n : n < 16 → hex_char (hex_digit n) = true.
Proof.
  intros Hn. unfold hex_char, hex_digit, byte_in. destruct (n <? 10) eqn:E.
  - apply N.ltb_lt in E. rewrite N_ascii_embedding by lia. lia.
  - apply N.ltb_ge in E. rewrite N_ascii_embedding by lia. lia.
Qed.
Lemma hex_text_chars d : Forall (λ b, hex_char b = true) (bytes (sha256_into_string d)).
Proof.
  unfold sha256_into_string. rewrite bytes_string. induction (sha_bytes d) as [|b bs IH]; [constructor|].
  rewrite fmap_cons. cbn [concat]. apply Forall_app. split; [|done]. pose proof (N_ascii_bounded b).
  repeat (constructor; [apply hex_digit_char|]); [apply N.Div0.div_lt_upper_bound; lia|apply N.mod_lt; lia|constructor].
Qed.
Lemma hex_not_in (c : u8) l : hex_char c = false → Forall (λ b, hex_char b = true) l → c ∉ l.
Proof. intros Hc Hl Hin. rewrite Forall_forall in Hl. apply Hl in Hin. congruence. Qed.

Lemma ascii_is_utf8 l : Forall (λ b, byte_in 0 127 b = true) l → is_utf8 l = true.
Proof.
  induction 1 as [|b l Hb _ IH]; [done|]. rewrite is_utf8_step by done.
  cbn [utf8_step]. by rewrite Hb.
Qed.
Lemma hex_is_ascii l : Forall (λ b, hex_char b = true) l → Forall (λ b, byte_in 0 127 b = true) l.
Proof. intros Hl. eapply Forall_impl; [exact Hl|]. intros b. unfold hex_char, byte_in. lia. Qed.

Lemma valid_identity_hex identity : valid_attempt_identity identity = true →
  Forall (λ b, hex_char b = true) (bytes identity).
Proof. unfold valid_attempt_identity. rewrite andb_true_iff, forallb_Forall. by intros [_ ?]. Qed.

Section Text.
Context (sha256_hash : list u8 → list u8).
Context `{SerdeJson} `{Serialize PrivateAttemptRecordV4} `{Deserialize PrivateAttemptRecordV4}.

(** What serde_json documents about its compact writer: one line of UTF-8 that
    it reads back, without repeated keys. *)
Record serde_faithful : Prop := {
  sf_reads (r : PrivateAttemptRecordV4) p : to_vec r = Ok p → from_slice p = Ok r;
  sf_keys (r : PrivateAttemptRecordV4) p : to_vec r = Ok p → reject_duplicate_json_keys p = Ok ();
  sf_line (r : PrivateAttemptRecordV4) p : to_vec r = Ok p → (LF ∉ p) ∧ last p ≠ Some CR ∧ is_utf8 p = true
}.

Lemma validate_identity r : record_validate sha256_hash r = Ok () →
  valid_attempt_identity (text (pa_attempt_id r)) = true.
Proof.
  unfold record_validate. intros ([] & E%guard_err_Ok & _)%bind_Ok. bool_hyps. done.
Qed.

(** A frame with its checksum. *)
Definition sealed_body (body : list u8) : list u8 := body ++ bytes "digest=" ++ hex_digest sha256_hash body ++ [LF].

Lemma rsplit_sealed body :
  rsplit_once (bytes "digest=") (sealed_body body) = Some (body, hex_digest sha256_hash body ++ [LF]).
Proof.
  unfold sealed_body. apply rsplit_once_last.
  rewrite rsplit_once_skip by (by vm_compute; set_solver).
  rewrite (rsplit_once_absent "i"%char); [done|by vm_compute; set_solver|].
  rewrite elem_of_app. intros [Hin|Hin]; [|set_unfold in Hin; by destruct Hin].
  by apply (hex_not_in "i"%char) in Hin; [|done|apply hex_text_chars].
Qed.

Lemma body_lines identity payload : Forall (λ b, hex_char b = true) (bytes identity) →
  LF ∉ payload → last payload ≠ Some CR →
  lines (record_body identity payload) =
    [bytes "format=memcordon.private-native-journal"; bytes "revision=1";
     bytes "cgroup=" ++ bytes identity; bytes "payload=" ++ payload].
Proof.
  intros Hi Hp Hc. unfold record_body. cbn [app].
  assert (LF ∉ bytes identity) as Hn by (by apply hex_not_in).
  rewrite (lines_cons (bytes "format=memcordon.private-native-journal")) by first [by vm_compute; set_solver|by vm_compute].
  rewrite (lines_cons (bytes "revision=1")) by first [by vm_compute; set_solver|by vm_compute].
  rewrite (assoc_L (++) (bytes "cgroup=")), lines_cons; cycle 1.
  { rewrite not_elem_of_app. split; [by vm_compute; set_solver|done]. }
  { rewrite last_app. case_match eqn:E; [|vm_compute; discriminate].
    intros [= ->]. apply last_Some in E as [l E]. rewrite E in Hi. apply Forall_app in Hi as [_ Hi].
    by inversion Hi. }
  rewrite (assoc_L (++) (bytes "payload=")), lines_cons; [done|..].
  { rewrite not_elem_of_app. split; [by vm_compute; set_solver|done]. }
  { rewrite last_app. case_match eqn:E; [congruence|vm_compute; discriminate]. }
Qed.

Lemma body_utf8 identity payload : Forall (λ b, hex_char b = true) (bytes identity) →
  is_utf8 payload = true → is_utf8 (sealed_body (record_body identity payload)) = true.
Proof.
  intros Hi Hp. unfold sealed_body, record_body. rewrite <- !(assoc_L (++)).
  assert (∀ s, forallb (byte_in 0 127) (bytes s) = true → is_utf8 (bytes s) = true) as Hs.
  { intros s Hb. apply ascii_is_utf8. by apply forallb_Forall. }
  assert (is_utf8 [LF] = true) as Hlf by done.
  repeat first [rewrite (is_utf8_app [LF]) by done | rewrite (is_utf8_app payload) by done
    | rewrite (is_utf8_app (bytes identity)) by (by apply ascii_is_utf8, hex_is_ascii)
    | rewrite (is_utf8_app (hex_digest _ _)) by (apply ascii_is_utf8, hex_is_ascii, hex_text_chars)
    | rewrite is_utf8_app by (by apply Hs)].
  done.
Qed.

Lemma journal_encode_read : serde_faithful → ∀ r input, record_encode sha256_hash r = Ok input →
  record_parse sha256_hash input = Ok r.
Proof.
  intros Hserde.
  intros r input E. unfold record_encode in E.
  apply bind_Ok in E as ([] & Hv & E). apply bind_Ok in E as (payload & Hp & E).
  apply guard_bind_Ok in E as [Ho E]. apply (inj Ok) in E.
  destruct (sf_line Hserde _ _ Hp) as (Hl & Hc & Hu).
  pose proof (valid_identity_hex _ (validate_identity _ Hv)) as Hi.
  change (sealed_body (record_body (text (pa_attempt_id r)) payload) = input) in E.
  unfold record_parse. rewrite <- E.
  change (over MAX_PRIVATE_RECORD_BYTES (sealed_body (record_body (text (pa_attempt_id r)) payload)) = false) in Ho.
  rewrite Ho, body_utf8, rsplit_sealed by done. cbn [guard_err negb mbind result_bind ok_or].
  rewrite bool_decide_true by done. cbn [negb guard_err mbind result_bind].
  rewrite body_lines by done. cbn [lookup list_lookup].
  rewrite !bool_decide_true by done. cbn [negb orb guard_err mbind result_bind].
  unfold field. cbn [mbind option_bind].
  rewrite (proj2 (strip_prefix_Some (bytes "cgroup=") _ (bytes (text (pa_attempt_id r))))) by done.
  rewrite (proj2 (strip_prefix_Some (bytes "payload=") _ payload)) by done.
  cbn [ok_or mbind result_bind is_some guard_err].
  rewrite (sf_keys Hserde _ _ Hp), (sf_reads Hserde _ _ Hp). cbn [mbind result_bind].
  rewrite Hv. cbn [mbind result_bind]. by rewrite bool_decide_true.
Qed.

Lemma journal_parse_accepts r input : record_parse sha256_hash input = Ok r →
  record_validate sha256_hash r = Ok () ∧ N.of_nat (length input) <= MAX_PRIVATE_RECORD_BYTES
  ∧ ∃ body payload, input = sealed_body body ∧ from_slice payload = Ok r
    ∧ lines body = [bytes "format=memcordon.private-native-journal"; bytes "revision=1";
                    bytes "cgroup=" ++ bytes (text (pa_attempt_id r)); bytes "payload=" ++ payload].
Proof.
  intros E. unfold record_parse in E.
  apply guard_bind_Ok in E as [Ho E]. apply guard_bind_Ok in E as [_ E].
  apply bind_Ok in E as ([body digest] & Hb%ok_or_Ok & E).
  apply guard_bind_Ok in E as [Hd E]. apply guard_bind_Ok in E as [Hv E].
  apply bind_Ok in E as (identity & Hi%ok_or_Ok & E). apply bind_Ok in E as (payload & Hp%ok_or_Ok & E).
  apply guard_bind_Ok in E as [Hx E]. apply bind_Ok in E as ([] & _ & E).
  apply bind_Ok in E as (r' & Hr & E). apply bind_Ok in E as ([] & Hval & E).
  apply guard_bind_Ok in E as [Hid E]. apply (inj Ok) in E. subst r'.
  split_and!; [done|unfold over in Ho; by apply N.ltb_ge in Ho|]. bool_hyps.
  exists body, payload. apply rsplit_once_Some in Hb. subst digest. split_and!; [done|done|].
  destruct (lines body) as [|l0 [|l1 [|l2 [|l3 [|]]]]]; try discriminate.
  change (strip_prefix (bytes "cgroup=") l2 = Some identity) in Hi.
  change (strip_prefix (bytes "payload=") l3 = Some payload) in Hp.
  apply strip_prefix_Some in Hi, Hp. cbn [lookup list_lookup] in *. subst identity l2 l3.
  by repeat match goal with E : Some _ = Some (bytes _) |- _ => injection E as -> end.
Qed.

(** C20: the journal's text form is exact.  Every encoded record is read back as
    it was, and a text is accepted only when it is within the bound, carries
    the checksum of its body, has exactly the four lines of the format, names
    the record's own attempt, and holds a record that passes validation. *)
Theorem journal_text_exact : serde_faithful →
  (∀ r input, record_encode sha256_hash r = Ok input → record_parse sha256_hash input = Ok r)
  ∧ (∀ r input, record_parse sha256_hash input = Ok r →
      record_validate sha256_hash r = Ok () ∧ N.of_nat (length input) <= MAX_PRIVATE_RECORD_BYTES
      ∧ ∃ body payload, input = sealed_body body ∧ from_slice payload = Ok r
        ∧ lines body = [bytes "format=memcordon.private-native-journal"; bytes "revision=1";
                        bytes "cgroup=" ++ bytes (text (pa_attempt_id r)); bytes "payload=" ++ payload]).
Proof. intros Hserde. split; [by apply journal_encode_read|by apply journal_parse_accepts]. Qed.
End Text.

(** ** Crashes *)

(** Every operation that advances a record. *)
Inductive journal_change : Type :=
| Attach (metadata : RuntimePrivateAdmissionSnapshot) | Boundary | Guardian (guardian : ProcessIdentityV4)
| Gate (namespace_init target : ProcessIdentityV4) (inode : N) | Commit (facts : OperationalGatedFacts)
| Release | Observe | Retire | Incomplete (detail : string) | Finish.

Definition transition_next (sha256_hash : list u8 → list u8) (t : journal_change)
    : PrivateAttemptRecordV4 → result string PrivateAttemptRecordV4 :=
  match t with
  | Attach metadata => attach_next sha256_hash metadata
  | Boundary => boundary_next
  | Guardian guardian => guardian_next guardian
  | Gate namespace_init target inode => gated_next namespace_init target inode
  | Commit facts => commit_next facts
  | Release => release_next
  | Observe => observed_next
  | Retire => retiring_next
  | Incomplete detail => incomplete_next detail
  | Finish => retired_next
  end.

Definition may_be_released (r : PrivateAttemptRecordV4) : bool := pa_release_knowledge r ≠? Knowledge_NotReleased.

(** Knowledge of a release is never taken back. *)
Lemma transition_knowledge sha256_hash t r r' : transition_next sha256_hash t r = Ok r' →
  may_be_released r = true → may_be_released r' = true.
Proof.
  unfold may_be_released. destruct t; cbn [transition_next];
    unfold attach_next, boundary_next, guardian_next, gated_next, commit_next, release_next, observed_next,
      retiring_next, incomplete_next, retired_next;
    intros E; repeat (apply bind_Ok in E as (? & _ & E)); apply (inj Ok) in E; subst r'; done.
Qed.
Lemma transition_attempt sha256_hash t r r' : transition_next sha256_hash t r = Ok r' →
  pa_attempt_id r' = pa_attempt_id r.
Proof.
  destruct t; cbn [transition_next];
    unfold attach_next, boundary_next, guardian_next, gated_next, commit_next, release_next, observed_next,
      retiring_next, incomplete_next, retired_next;
    intros E; repeat (apply bind_Ok in E as (? & _ & E)); apply (inj Ok) in E; subst r'; done.
Qed.

(** A sequence of calls with a condition that holds whenever it is cut off:
    [crash] holds of every world a call leaves, and a successful call leads
    from one stage to the next. *)
Section Crashes.
Context {World : Type}.

Inductive staged (crash : World → Prop) : (World → Prop) → list (stM World string ()) → (World → Prop) → Prop :=
| staged_nil stage : staged crash stage [] stage
| staged_cons stage call stage' calls last :
    (∀ w w' r, stage w → call w = (w', r) → crash w' ∧ (r = Ok () → stage' w')) →
    staged crash stage' calls last → staged crash stage (call :: calls) last.

Lemma staged_prefix crash stage calls last k w w' r : staged crash stage calls last → stage w → crash w →
  sequence (take k calls) w = (w', r) → crash w'.
Proof.
  intros Hs. revert k w. induction Hs as [stage|stage call stage' calls last Hc _ IH]; intros k w Hw Hcr.
  { rewrite take_nil. cbn. by intros [= <- <-]. }
  destruct k as [|k]; cbn; [by intros [= <- <-]|]. unfold mbind, stM_bind.
  destruct (call w) as [w1 [[]|e]] eqn:E.
  - destruct (Hc _ _ _ Hw E) as [Hcr1 Hst1]. by apply IH; auto.
  - intros [= <- <-]. by destruct (Hc _ _ _ Hw E).
Qed.
Lemma staged_last crash stage calls last w w' : staged crash stage calls last → stage w →
  sequence calls w = (w', Ok ()) → last w'.
Proof.
  intros Hs. revert w. induction Hs as [stage|stage call stage' calls last Hc _ IH]; intros w Hw; cbn.
  { by intros [= <-]. }
  unfold mbind, stM_bind. destruct (call w) as [w1 [[]|e]] eqn:E; [|done].
  apply IH. by destruct (Hc _ _ _ Hw E) as [_ ?]; auto.
Qed.
End Crashes.

Section Durability.
Context (sha256_hash : list u8 → list u8).
Context `{SerdeJson} `{Serialize PrivateAttemptRecordV4} `{Deserialize PrivateAttemptRecordV4}.
Context {World : Type} `{CrashLaws World}.

Lemma temporary_ne path : temporary path ≠ path.
Proof. intros E. apply (f_equal (length ∘ bytes)) in E. cbn in E. unfold temporary in E. rewrite bytes_app, length_app in E. cbn in E. lia. Qed.

(** What can be found under the name when a replacement is cut off. *)
Definition found (path : string) (before : World) (next : list u8) (w : World) : Prop :=
  ∀ c, survives w path c → survives before path c ∨ c = Some next.

Lemma kept_refl p (w : World) : kept p w w.
Proof. by split_and!. Qed.
Lemma kept_trans p (w1 w2 w3 : World) : kept p w1 w2 → kept p w2 w3 → kept p w1 w3.
Proof. intros (A1 & A2 & A3) (B1 & B2 & B3). split_and!; [congruence|congruence|auto]. Qed.
Lemma kept_found path w0 next w : kept path w0 w → found path w0 next w.
Proof. intros (_ & _ & Hs) c Hc. auto. Qed.

(** Once the temporary exists and is empty. *)
Lemma commit_staged path next w0 :
  staged (found path w0 next) (λ w, kept path w0 w ∧ contents w (temporary path) = Some [])
    [write_all (temporary path) next; sync_all (temporary path); rename (temporary path) path; sync_directory]
    (λ w, contents w path = Some next ∧ stable w path = Some next ∧ ∀ c, survives w path c → c = Some next).
Proof.
  pose proof (temporary_ne path) as Hne. pose proof (kept_found path w0 next) as Hk.
  pose proof (kept_trans path w0) as Ht.
  apply (staged_cons _ _ _ (λ w, kept path w0 w ∧ contents w (temporary path) = Some next)).
  { intros w w' r [Hw Hc] E. assert (kept path w0 w') by (eapply Ht; [done|by eapply write_other]).
    split; [auto|]. intros ->. split; [done|]. eapply write_appends in E; [|done]. done. }
  apply (staged_cons _ _ _ (λ w, kept path w0 w ∧ contents w (temporary path) = Some next
                                 ∧ stable w (temporary path) = Some next)).
  { intros w w' r [Hw Hc] E. assert (kept path w0 w') by (eapply Ht; [done|by eapply sync_other]).
    split; [auto|]. intros ->. split; [done|]. apply sync_stable in E as [-> ->]. done. }
  apply (staged_cons _ _ _ (λ w, contents w path = Some next ∧ stable w path = Some next ∧ found path w0 next w)).
  { intros w w' r (Hw & Hc & Hs) E. assert (found path w0 next w') as Hf.
    { intros c Hsv. eapply rename_atomic in Hsv; [|exact Hne|exact Hs|exact E].
      destruct Hsv as [?|?]; [left; by apply Hw|by right]. }
    split; [done|]. intros ->. apply rename_moves in E as [-> ->]; done. }
  apply (staged_cons _ _ _ (λ w, contents w path = Some next ∧ stable w path = Some next
                                 ∧ ∀ c, survives w path c → c = Some next)); [|constructor].
  intros w w' r (Hc & Hs & Hf) E. pose proof (directory_keeps _ _ _ E path) as (K1 & K2 & K3).
  split; [intros c Hsv; by apply Hf, K3|]. intros ->. split_and!; [congruence|congruence|].
  intros c Hsv. eapply directory_settles in Hsv as [_ Hl]; [|exact E]. by apply Hl.
Qed.

Lemma replace_staged path next w0 :
  staged (found path w0 next) (kept path w0) (replace_calls path next)
    (λ w, contents w path = Some next ∧ stable w path = Some next ∧ ∀ c, survives w path c → c = Some next).
Proof.
  unfold replace_calls. eapply staged_cons; [|apply commit_staged].
  intros w w' r Hw E. assert (kept path w0 w') by (eapply kept_trans; [done|eapply create_other; [done|apply not_eq_sym, temporary_ne]]).
  split; [by apply kept_found|]. intros ->. split; [done|by eapply create_empty].
Qed.

(** linux/private_lifecycle.rs, [release_operational]: the release byte is sent
    only while the journal is at the release intent. *)
Definition release_permitted (self : DurablePrivateAttempt) : bool := pa_phase (dp_record self) ≟ Phase_ReleaseIntent.

(** A journal in use.  Operations may fail, the world may change around the
    name, and the flag says whether the release byte was sent. *)
Inductive journal_run : bool → DurablePrivateAttempt → World → Prop :=
| run_create record w w' self :
    create_in sha256_hash record w = (w', Ok self) → journal_run false self w'
| run_advance released self w t w' self' r :
    journal_run released self w → advance_record sha256_hash (transition_next sha256_hash t) self w = (w', self', r) →
    journal_run released self' w'
| run_release released self w :
    journal_run released self w → release_permitted self = true → journal_run true self w
| run_world released self w w' :
    journal_run released self w → kept (dp_path self) w w' → journal_run released self w'.

(** The device knows at least as much as the owner. *)
Definition recoverable (self : DurablePrivateAttempt) (c : option (list u8)) : Prop :=
  ∃ b r, c = Some b ∧ record_encode sha256_hash r = Ok b ∧ pa_attempt_id r = pa_attempt_id (dp_record self)
    ∧ (may_be_released (dp_record self) = true → may_be_released r = true).

Record run_ok (released : bool) (self : DurablePrivateAttempt) (w : World) : Prop := {
  ro_found : ∀ c, survives w (dp_path self) c → recoverable self c;
  ro_valid : record_validate sha256_hash (dp_record self) = Ok ();
  ro_released : released = true → may_be_released (dp_record self) = true
}.

Lemma encode_validates r b : record_encode sha256_hash r = Ok b → record_validate sha256_hash r = Ok ().
Proof. unfold record_encode. by intros ([] & ? & _)%bind_Ok. Qed.

Lemma release_intent_knowledge r : record_validate sha256_hash r = Ok () →
  pa_phase r = Phase_ReleaseIntent → may_be_released r = true.
Proof.
  unfold record_validate. intros E Hp. repeat (apply bind_Ok in E as ([] & ? & E)).
  match goal with E : knowledge_validate r = Ok () |- _ => unfold knowledge_validate in E; rewrite Hp in E;
    apply guard_err_Ok, negb_false_iff, bool_decide_eq_true in E as Ek end.
  unfold may_be_released. by rewrite Ek.
Qed.

(** A replacement, successful, failed or cut off after [k] calls. *)
Lemma replace_found self w t next b k w' r :
  (∀ c, survives w (dp_path self) c → recoverable self c) →
  transition_next sha256_hash t (dp_record self) = Ok next → record_encode sha256_hash next = Ok b →
  sequence (take k (replace_calls (dp_path self) b)) w = (w', r) →
  ∀ c, survives w' (dp_path self) c → recoverable self c.
Proof.
  intros Hf Hn Hb Hs c Hc.
  assert (found (dp_path self) w b w') as Hfound.
  { eapply staged_prefix; [apply replace_staged|..|exact Hs]; [done|intros ? ?; by left]. }
  destruct (Hfound c Hc) as [? | ->]; [auto|]. exists b, next. split_and!; [done|done|by eapply transition_attempt|].
  by eapply transition_knowledge.
Qed.

Lemma create_in_Ok record w w' self : create_in sha256_hash record w = (w', Ok self) →
  ∃ b, record_encode sha256_hash record = Ok b ∧ pa_phase record = Phase_Allocated ∧ dp_record self = record
    ∧ ∀ c, survives w' (dp_path self) c → c = Some b.
Proof.
  unfold create_in. intros (w1 & [] & [-> Hp%guard_err_Ok]%st_lift_Ok & E)%stM_bind_Ok.
  apply stM_bind_Ok in E as (w2 & d & _ & E). apply stM_bind_Ok in E as (w3 & [] & _ & E).
  apply stM_bind_Ok in E as (w4 & [] & Hc%create_empty & E).
  apply stM_bind_Ok in E as (w5 & b & [-> Hb]%st_lift_Ok & E).
  apply stM_bind_Ok in E as (w6 & [] & Hs & E). injection E as <- <-. cbn [dp_path dp_record].
  exists b. split_and!; [done|by bool_hyps|done|]. cbn [sequence] in Hs.
  apply stM_bind_Ok in Hs as (wa & [] & Hwr & Hs). apply stM_bind_Ok in Hs as (wb & [] & Hsy & Hs).
  apply stM_bind_Ok in Hs as (wc & [] & Hd & Hs). injection Hs as <-.
  eapply write_appends in Hwr; [|done]. apply sync_stable in Hsy as [Hcb Hsb]. rewrite Hwr in Hcb, Hsb.
  intros c Hsv. eapply directory_settles in Hsv as [_ Hl]; [|exact Hd]. by apply Hl.
Qed.

Lemma run_invariant released self w : journal_run released self w → run_ok released self w.
Proof.
  induction 1 as [record w w' self E|released self w t w' self' r _ [Hf Hv Hr] E
                 |released self w _ [Hf Hv Hr] Hp|released self w w' _ [Hf Hv Hr] (_ & _ & Hk)].
  - apply create_in_Ok in E as (b & Hb & Hp & Hrec & Hf). subst record. split; [|by eapply encode_validates|done].
    intros c ->%Hf. by exists b, (dp_record self).
  - unfold advance_record in E.
    destruct (transition_next sha256_hash t (dp_record self)) as [next|e] eqn:Hn; [|by injection E as <- <- <-].
    unfold replace in E. destruct (record_encode sha256_hash next) as [b|e] eqn:Hb; [|by injection E as <- <- <-].
    destruct (sequence _ w) as [w1 [[]|e]] eqn:Hs; injection E as <- <- <-.
    + split; cbn [dp_path dp_record].
      * intros c Hc. pose proof (staged_last _ _ _ _ _ _ (replace_staged (dp_path self) b w) ltac:(done) Hs) as (_ & _ & Hl).
        apply Hl in Hc as ->. by exists b, next.
      * by eapply encode_validates.
      * intros Hrel. eapply transition_knowledge; eauto.
    + split; [|done|done]. eapply (replace_found self w t next b 5); done.
  - split; [done|done|]. intros _. unfold release_permitted in Hp. apply bool_decide_eq_true in Hp.
    by apply release_intent_knowledge.
  - split; [|done|done]. auto.
Qed.

(** Where a power loss can hit: between operations, or after any number of the
    calls of an operation. *)
Inductive cut_off (self : DurablePrivateAttempt) (w : World) : World → Prop :=
| cut_idle : cut_off self w w
| cut_replace t next b k w' r :
    transition_next sha256_hash t (dp_record self) = Ok next → record_encode sha256_hash next = Ok b →
    sequence (take k (replace_calls (dp_path self) b)) w = (w', r) → cut_off self w w'.

(** C10: the journal is write-ahead and never torn.  Wherever a power loss hits a
    journal in use, also after operations that failed, the name holds a text
    that is read back as a valid record of this attempt; and if the release
    byte was ever sent, that record says that the target may have been
    released.  The name disappears only once removal has begun. *)
Theorem journal_write_ahead released self w :
  serde_faithful → journal_run released self w →
  (∀ w' c, cut_off self w w' → survives w' (dp_path self) c →
    ∃ b r, c = Some b ∧ record_parse sha256_hash b = Ok r ∧ pa_attempt_id r = pa_attempt_id (dp_record self)
      ∧ record_validate sha256_hash r = Ok () ∧ (released = true → may_be_released r = true))
  ∧ (∀ k w' x c, sequence (take k [remove_file (dp_path self); sync_directory]) w = (w', x) →
      survives w' (dp_path self) c → c = None ∨ recoverable self c).
Proof.
  intros Hserde [Hf Hv Hr]%run_invariant. split.
  - intros w' c Hcut Hc. assert (recoverable self c) as (b & r & -> & Hb & Hid & Hk).
    { destruct Hcut as [|t next b k w' r Hn Hb Hs]; [auto|by eapply replace_found]. }
    exists b, r. split_and!; [done|by apply (journal_encode_read sha256_hash Hserde)|done|by eapply encode_validates|auto].
  - intros k w' x c Hs Hc.
    assert (survives w (dp_path self) c ∨ c = None) as [?|?]; [|right; auto|by left].
    eapply (staged_prefix (λ w', ∀ c, survives w' (dp_path self) c → survives w (dp_path self) c ∨ c = None)
      (λ w', w' = w) _ (λ _, True)); [|done|by left|exact Hs|exact Hc].
    eapply (staged_cons _ _ _ (λ w', ∀ c, survives w' (dp_path self) c → survives w (dp_path self) c ∨ c = None)).
    { intros w1 w2 r -> E. split; [|intros _]; intros c' Hc'; by eapply remove_file_crash. }
    eapply (staged_cons _ _ _ (λ _, True)); [|constructor].
    intros w1 w2 r Hw1 E. split; [|done]. intros c' Hc'. apply Hw1. by eapply directory_keeps.
Qed.

Lemma read_back_keeps self w w' self' r : read_back sha256_hash self w = (w', self', r) →
  self' = self ∧ ∀ p, kept p w w'.
Proof.
  pose proof kept_trans as Ht.
  unfold read_back, mbind, stM_bind.
  destruct (open_metadata (dp_path self) w) as [w1 [md|e]] eqn:E1.
  2: { intros [= <- <- <-]. split; [done|]. exact (proj1 (reads_keep (dp_path self) w) _ _ E1). }
  pose proof (proj1 (reads_keep (dp_path self) w) _ _ E1) as K1.
  destruct ((if md_is_file md then directory_uid else mret 0) w1) as [w2 owner] eqn:E2.
  assert (∀ p, kept p w w2) as K2.
  { intros p. eapply Ht; [apply K1|]. destruct (md_is_file md); [|by injection E2 as <- _].
    exact (proj2 (proj2 (reads_keep (dp_path self) w1)) _ _ E2 p). }
  destruct owner as [owner|e]; [|by intros [= <- <- <-]]. unfold st_lift.
  destruct (guard_err _ _) as [[]|e]; [|by intros [= <- <- <-]].
  destruct (read_to_end (dp_path self) _ w2) as [w3 [input|e]] eqn:E3;
    pose proof (proj1 (proj2 (reads_keep (dp_path self) w2)) _ _ _ E3) as K3.
  2: { intros [= <- <- <-]. split; [done|]. intros p. exact (Ht _ _ _ _ (K2 p) (K3 p)). }
  destruct (record_parse sha256_hash input) as [record|e]; [destruct (guard_err _ _) as [[]|e]|];
    intros [= <- <- <-]; (split; [done|]); intros p; exact (Ht _ _ _ _ (K2 p) (K3 p)).
Qed.

(** The commit with its readback is a step of a journal in use. *)
Lemma run_commit released self w facts w' self' r : journal_run released self w →
  commit_gated_facts sha256_hash facts self w = (w', self', r) → journal_run released self' w'.
Proof.
  intros Hrun. unfold commit_gated_facts. destruct (advance_record _ _ self w) as [[w1 self1] [[]|e]] eqn:E1.
  - assert (journal_run released self1 w1) as Hrun1 by (eapply (run_advance _ _ _ (Commit facts)); done).
    destruct (read_back sha256_hash self1 w1) as [[w2 self2] r2] eqn:E2.
    apply read_back_keeps in E2 as [-> Hk].
    destruct r2; intros [= <- <- <-]; by eapply run_world.
  - intros [= <- <- <-]. by eapply (run_advance _ _ _ (Commit facts)).
Qed.
End Durability.

(** ** The life of a record *)
Section Lifecycle.
Context (sha256_hash : list u8 → list u8).

Inductive lifecycle : PrivateAttemptRecordV4 → Prop :=
| life_allocated attempt boot frontend envelope r :
    allocated sha256_hash attempt boot frontend envelope = Ok r → lifecycle r
| life_transition t r r' :
    lifecycle r → transition_next sha256_hash t r = Ok r' → record_validate sha256_hash r' = Ok () → lifecycle r'.

Definition phase_rank (p : PrivateAttemptPhase) : N :=
  match p with
  | Phase_Allocated => 0 | Phase_BoundaryCreated => 1 | Phase_GuardianReady => 2 | Phase_TargetGated => 3
  | Phase_CheckpointCommitted => 4 | Phase_ReleaseIntent => 5 | Phase_ExecutionObserved => 6
  | Phase_Retiring => 7 | Phase_Retired => 8 | Phase_CleanupIncomplete => 8
  end.

(** Steps that may repeat without moving the phase forward. *)
Definition stationary (t : journal_change) : bool :=
  match t with Attach _ | Retire | Incomplete _ => true | _ => false end.

Lemma transition_rank t r r' : transition_next sha256_hash t r = Ok r' →
  phase_rank (pa_phase r) <= phase_rank (pa_phase r')
  ∧ (stationary t = false → phase_rank (pa_phase r) < phase_rank (pa_phase r')).
Proof.
  destruct t; cbn [transition_next stationary];
    unfold attach_next, boundary_next, guardian_next, gated_next, commit_next, release_next, observed_next,
      retiring_next, incomplete_next, retired_next;
    intros E; apply bind_Ok in E as ([] & Hg%guard_err_Ok & E); repeat (apply bind_Ok in E as (? & _ & E));
    apply (inj Ok) in E; subst r'; bool_hyps; cbn [pa_phase set_phase set_knowledge set_native set_admission];
    try match goal with H : pa_phase r = _ |- _ => rewrite H end; cbn; try (split; [lia|intros; lia]); try done.
  all: destruct (pa_phase r); cbn; split; try done; lia.
Qed.

(** What is known of the target once it may have been released. *)
Record release_evidence (r : PrivateAttemptRecordV4) : Prop := {
  re_admission : ∃ metadata binding, pa_admission_metadata r = Some metadata ∧ pa_binding r = Some binding
    ∧ snapshot_validate sha256_hash metadata = Ok ()
    ∧ snapshot_digest sha256_hash metadata = Ok (b2_admission_digest binding)
    ∧ b2_attempt_id binding = pa_attempt_id r
    ∧ b2_native_invocation_digest binding = as_invocation_sha256 metadata;
  re_facts : ∃ facts binding guardian, pa_gated_facts r = Some facts ∧ pa_binding r = Some binding
    ∧ attempt_digest_v2 sha256_hash binding = Ok (gf_attempt_binding facts)
    ∧ pa_guardian r = Some guardian ∧ pa_namespace_init r = Some (gf_init facts)
    ∧ pa_target r = Some (gf_target facts)
    ∧ pa_network_namespace_inode r = Some (gf_network_namespace_inode facts)
    ∧ gf_gated_descriptor_count facts = 5
}.

(** The checks of a valid record. *)
Record valid_parts (r : PrivateAttemptRecordV4) : Prop := {
  vp_metadata : metadata_validate sha256_hash r = Ok ();
  vp_binding : binding_validate r = Ok ();
  vp_gated : gated (pa_phase r) = true → is_Some (pa_guardian r);
  vp_facts : facts_validate sha256_hash r = Ok ();
  vp_released : may_be_released r = true → is_Some (pa_gated_facts r)
}.
Lemma validate_parts r : record_validate sha256_hash r = Ok () → valid_parts r.
Proof.
  unfold record_validate. intros E. repeat (apply bind_Ok in E as ([] & ? & E)).
  repeat match goal with H : guard_err _ _ = Ok _ |- _ => apply guard_err_Ok in H end.
  split; try done.
  - intros Hg. rewrite Hg in *. cbn [andb] in *. bool_hyps. done.
  - unfold may_be_released. intros Hm. rewrite Hm in *. cbn [andb] in *. bool_hyps. done.
Qed.

Record life_ok (r : PrivateAttemptRecordV4) : Prop := {
  lo_valid : record_validate sha256_hash r = Ok ();
  lo_facts : is_Some (pa_gated_facts r) → is_Some (pa_admission_metadata r) ∧ is_Some (pa_guardian r)
}.

Lemma lifecycle_ok r : lifecycle r → life_ok r.
Proof.
  induction 1 as [attempt boot frontend envelope r E|t r r' _ [Hv Hf] E Hv'].
  - unfold allocated in E. apply bind_Ok in E as ([] & Hv & E). apply (inj Ok) in E. subst r.
    split; [done|]. by intros [? ?].
  - split; [done|]. destruct t; cbn [transition_next] in E;
      unfold attach_next, boundary_next, guardian_next, gated_next, commit_next, release_next, observed_next,
        retiring_next, incomplete_next, retired_next in E;
      apply bind_Ok in E as ([] & Hg%guard_err_Ok & E); repeat (apply bind_Ok in E as (? & _ & E));
      apply (inj Ok) in E; subst r';
      cbn [pa_gated_facts pa_admission_metadata pa_guardian set_phase set_knowledge set_native set_admission];
      try done; try (intros Hs; destruct (Hf Hs); split; done || by eauto).
    intros _. bool_hyps. split; [done|].
    apply (vp_gated _ (validate_parts _ Hv)). by match goal with H : pa_phase r = _ |- _ => rewrite H end.
Qed.

Lemma released_evidence r : life_ok r → may_be_released r = true → release_evidence r.
Proof.
  intros [Hv Hf] Hm. destruct (validate_parts _ Hv) as [Vm Vb _ Vf Vr].
  destruct (Vr Hm) as [facts Efacts]. destruct (Hf (Vr Hm)) as [[metadata Emeta] [guardian Eg]].
  unfold facts_validate in Vf. rewrite Efacts in Vf.
  apply bind_Ok in Vf as ([] & Vgf & Vf). apply bind_Ok in Vf as (digest & Ed & Vf%guard_err_Ok).
  unfold gated_facts_validate in Vgf. apply bind_Ok in Vgf as ([] & Vg%guard_err_Ok & _). bool_hyps.
  unfold binding_digest in Ed. destruct (pa_binding r) as [binding|] eqn:Eb; [|by simplify_eq].
  destruct (attempt_digest_v2 sha256_hash binding) as [d|e] eqn:Ead; [|done]. apply (inj Ok) in Ed. subst digest.
  unfold metadata_validate in Vm. rewrite Emeta, Eb in Vm.
  apply bind_Ok in Vm as ([] & Vs & Vm). apply bind_Ok in Vm as (sd & Esd & Vm%guard_err_Ok).
  unfold binding_validate in Vb. rewrite Eb in Vb. apply guard_err_Ok in Vb. bool_hyps. simplify_eq. split.
  - exists metadata, binding. split_and!; try done; congruence.
  - exists facts, binding, guardian. by split_and!.
Qed.

(** C19: a private attempt's record only moves forward, and says that the target
    may have been released only with the evidence for it.  Every record of a
    life that starts with an allocation is valid; once it admits a release it
    holds a valid admission bound to this attempt and invocation, and gated
    observations of the very guardian-held target, init and namespace it
    names; no step takes the phase back, and only attaching the admission,
    retiring again and another incomplete clean-up leave it. *)
Theorem journal_lifecycle r : lifecycle r →
  record_validate sha256_hash r = Ok ()
  ∧ (may_be_released r = true → release_evidence r)
  ∧ (∀ t r', transition_next sha256_hash t r = Ok r' →
      (may_be_released r = true → may_be_released r' = true)
      ∧ phase_rank (pa_phase r) <= phase_rank (pa_phase r')
      ∧ (stationary t = false → phase_rank (pa_phase r) < phase_rank (pa_phase r'))).
Proof.
  intros Hl%lifecycle_ok. split_and!; [by apply lo_valid|by apply released_evidence|].
  intros t r' E. destruct (transition_rank _ _ _ E). split_and!; [by eapply transition_knowledge|done|done].
Qed.
End Lifecycle.

(** ** Examples *)
Module JournalExamples.
Import RegistryExamples RegistryV2Examples EvidenceExamples PrivateExamples.

Definition process (pid : N) : ProcessIdentityV4 := {| pi_pid := pid; pi_start_time := 100 + pid |}.
Definition identity : BoundedText 64 := BoundedText_of "0123456789abcdef0123456789abcdef".
Definition allocated_record : PrivateAttemptRecordV4 :=
  {| pa_attempt_id := identity; pa_boot_identity := BoundedText_of "boot"; pa_frontend := process 1;
     pa_caller_envelope_digest := plan; pa_admission_metadata := None; pa_phase := Phase_Allocated;
     pa_release_knowledge := Knowledge_NotReleased; pa_binding := None; pa_guardian := None;
     pa_namespace_init := None; pa_target := None; pa_network_namespace_inode := None;
     pa_checkpoint := None; pa_checkpoint_digest := None; pa_gated_facts := None; pa_cleanup_error := None |}.
Definition apply (t : journal_change) (r : PrivateAttemptRecordV4) : PrivateAttemptRecordV4 :=
  match transition_next hash t r with Ok r' => r' | Err _ => r end.
Definition attempt_binding (r : PrivateAttemptRecordV4) : DiagnosticSha256 :=
  match binding_digest hash r with Ok (Some d) => d | _ => plan end.
Definition facts : OperationalGatedFacts :=
  {| gf_format := "memcordon.private-gated-observation"; gf_revision := 1;
     gf_attempt_binding := attempt_binding (apply (Attach metadata) allocated_record);
     gf_target := process 4; gf_init := process 3; gf_network_namespace_inode := 40;
     gf_entrypoint_sha256 := plan; gf_filter_sha256 := plan; gf_topology_sha256 := plan;
     gf_gated_descriptor_count := 5 |}.
Definition script : list journal_change :=
  [Attach metadata; Boundary; Guardian (process 2); Gate (process 3) (process 4) 40; Commit facts; Release].
(** The records of the script, the first one included. *)
Fixpoint history (r : PrivateAttemptRecordV4) (ts : list journal_change) : list PrivateAttemptRecordV4 :=
  r :: match ts with [] => [] | t :: ts => history (apply t r) ts end.
Definition script_records : list PrivateAttemptRecordV4 := history allocated_record script.
Definition released_record : PrivateAttemptRecordV4 := foldl (λ r t, apply t r) allocated_record script.

Example script_valid : forallb (λ r, is_ok (record_validate hash r)) script_records = true.
Proof. vm_compute. reflexivity. Qed.
Example script_released : may_be_released released_record = true.
Proof. vm_compute. reflexivity. Qed.

(** A library that writes the records of the script as one digit. *)
#[local] Instance any_json : SerdeJson := {| json_of := λ _, Ok JNull |}.
#[local] Instance writes_record : Serialize PrivateAttemptRecordV4 :=
  {| to_chunks := λ r, match list_find (r =.) (take 8 script_records) with
                       | Some (i, _) => Ok [[ascii_of_N (48 + N.of_nat i)]]
                       | None => Err "not a record of the script"%string
                       end |}.
#[local] Instance reads_record : Deserialize PrivateAttemptRecordV4 :=
  {| from_slice := λ p, match p with
                        | [c] => ok_or "no such record"%string (take 8 script_records !! N.to_nat (N_of_ascii c - 48))
                        | _ => Err "not one digit"%string
                        end |}.

Lemma script_faithful : serde_faithful.
Proof.
  assert (∀ r p, to_vec r = Ok p → ∃ i, take 8 script_records !! i = Some r ∧ (i < 8)%nat
            ∧ p = [ascii_of_N (48 + N.of_nat i)]) as Hw.
  { intros r p. unfold to_vec. cbn [to_chunks writes_record].
    destruct (list_find (r =.) (take 8 script_records)) as [[i r']|] eqn:E; [|done]. intros Ep. apply (inj Ok) in Ep.
    apply list_find_Some in E as (Hl & <- & _). exists i. split_and!; [done| |by rewrite <- Ep].
    apply lookup_lt_Some in Hl. rewrite length_take in Hl. lia. }
  split.
  - intros r p (i & Hl & Hi & ->)%Hw. cbn [from_slice reads_record]. rewrite N_ascii_embedding by lia.
    replace (N.to_nat (48 + N.of_nat i - 48)) with i by lia. by rewrite Hl.
  - done.
  - intros r p (i & _ & Hi & ->)%Hw. do 8 (destruct i as [|i]; [by vm_compute; set_solver|]). lia.
Qed.

Lemma journal_text_exact_witness : ∃ input, record_encode hash released_record = Ok input
  ∧ record_parse hash input = Ok released_record.
Proof.
  assert (∃ input, record_encode hash released_record = Ok input) as [input E]
    by (eexists; vm_compute; reflexivity).
  exists input. split; [exact E|]. exact (proj1 (journal_text_exact hash script_faithful) _ _ E).
Defined.

(** Files that are durable at once. *)
Definition disk : Type := list (string * list u8).
Definition get (w : disk) (p : string) : option (list u8) := snd <$> List.find (λ e, e.1 ≟ p) w.
Definition put (p : string) (l : list u8) (w : disk) : disk := (p, l) :: w.
Definition erase (p : string) (w : disk) : disk := List.filter (λ e, e.1 ≠? p) w.

#[local] Instance disk_files : FileSystem disk := {|
  secure_state_root w := (w, Ok ());
  boot_identity w := (w, Ok "boot"%string);
  open_directory w := (w, Ok (true, 448));
  directory_uid w := (w, Ok 0);
  create_new p w := if is_some (get w p) then (w, Err "File exists"%string) else (put p [] w, Ok ());
  write_all p l w := (put p (default [] (get w p) ++ l) w, Ok ());
  sync_all _ w := (w, Ok ());
  sync_directory w := (w, Ok ());
  rename q p w := match get w q with
                  | Some l => (put p l (erase q w), Ok ())
                  | None => (w, Err "No such file"%string)
                  end;
  remove_file p w := (erase p w, Ok ());
  open_metadata p w := (w, Ok {| md_is_file := true; md_uid := 0; md_mode := 384; md_nlink := 1 |});
  read_to_end p n w := (w, Ok (take (N.to_nat n) (default [] (get w p))))
|}.

Lemma get_put p q l w : get (put q l w) p = if q ≟ p then Some l else get w p.
Proof. unfold get, put. cbn. by case_bool_decide. Qed.
Lemma get_erase p q w : get (erase q w) p = if q ≟ p then None else get w p.
Proof.
  unfold get, erase. induction w as [|[k l] w IH]; cbn; [by case_bool_decide|].
  repeat case_bool_decide; subst; cbn; try done; repeat case_bool_decide; subst; try done.
Qed.

#[local] Instance disk_crash : CrashLaws disk.
Proof.
  refine {| contents := get; stable := get; survives := λ w p c, c = get w p |}.
  all: cbn; intros; try case_match; simplify_eq; rewrite ?get_put, ?get_erase;
    repeat case_bool_decide; subst; try done; try naive_solver.
  by match goal with E : get _ _ = Some _ |- _ => rewrite E end.
Defined.

(** The script, run against the files. *)
Definition started : disk * result string DurablePrivateAttempt := create_in hash allocated_record [].
Definition owner : DurablePrivateAttempt :=
  match started.2 with Ok self => self | Err _ => {| dp_path := ""; dp_record := allocated_record |} end.
Lemma started_Ok : create_in hash allocated_record [] = (started.1, Ok owner).
Proof. vm_compute. reflexivity. Qed.
Definition played : disk * DurablePrivateAttempt :=
  foldl (λ '(w, self) t, (advance_record hash (transition_next hash t) self w).1) (started.1, owner) script.

Lemma played_run : journal_run hash false played.2 played.1.
Proof.
  assert (∀ ts w self, journal_run hash false self w →
    journal_run hash false (foldl (λ '(w, self) t, (advance_record hash (transition_next hash t) self w).1) (w, self) ts).2
      (foldl (λ '(w, self) t, (advance_record hash (transition_next hash t) self w).1) (w, self) ts).1) as Hrun.
  { induction ts as [|t ts IH]; intros w self Hr; [done|]. cbn [foldl].
    destruct (advance_record hash (transition_next hash t) self w) as [[w' self'] r] eqn:E. cbn [fst].
    apply IH. by eapply run_advance. }
  apply Hrun. exact (run_create _ _ _ _ _ started_Ok).
Qed.
Lemma played_permitted : release_permitted played.2 = true.
Proof. vm_compute. reflexivity. Qed.

(** After the release byte, whatever the disk holds says so. *)
Lemma journal_write_ahead_witness :
  ∃ b r, get played.1 (dp_path played.2) = Some b ∧ record_parse hash b = Ok r ∧ may_be_released r = true.
Proof.
  destruct (proj1 (journal_write_ahead hash true played.2 played.1 script_faithful
    (run_release _ _ _ _ played_run played_permitted)) played.1 _ (cut_idle _ _ _) eq_refl)
    as (b & r & E & Ep & _ & _ & Hm).
  exists b, r. split; [exact E|split; [exact Ep|exact (Hm eq_refl)]].
Defined.

Lemma released_life : lifecycle hash released_record.
Proof.
  assert (∀ ts r, lifecycle hash r → forallb (λ r, is_ok (record_validate hash r)) (history r ts) = true →
    lifecycle hash (foldl (λ r t, apply t r) r ts)) as Hl.
  { induction ts as [|t ts IH]; intros r Hr Hv; [done|]. cbn [foldl].
    cbn [history forallb] in Hv. apply andb_true_iff in Hv as [_ Hv]. apply IH; [|done].
    unfold apply in *. destruct (transition_next hash t r) as [r'|e] eqn:E; [|done].
    eapply life_transition; [done|exact E|]. destruct ts; cbn [history forallb] in Hv;
      apply andb_true_iff in Hv as [Hv _]; by destruct (record_validate hash r') as [[]|]. }
  apply Hl; [|vm_compute; reflexivity].
  apply (life_allocated hash identity (BoundedText_of "boot") (process 1) plan). vm_compute. reflexivity.
Qed.
Lemma journal_lifecycle_witness : release_evidence hash released_record.
Proof. apply (proj1 (proj2 (journal_lifecycle hash released_record released_life))). exact script_released. Defined.
End JournalExamples.
