(* ===== verification/AttemptRecord.v ===== *)
(** * The durable attempt record

    linux/attempt.rs of the sealed agent: the record a sealed attempt keeps in
    the state root from its allocation to its retirement, its text form, the
    reader that recovery trusts, and the transitions that replace it.  Files go
    through the interfaces of the private journal ([FileSystem], [CrashLaws]),
    extended with the identity of a file that the cleanup of an abandoned
    temporary compares.  Also linux/state.rs, the order of an attempt's states.
    The test faults of a transition are not modelled. *)

From S2P Require Import Prelude Decimal Bounded Codec Diagnostics RecordLimits WorkloadContract WorkloadCodec Registry RegistryV2 JsonDocuments WorkloadEvidence NativeText PrivateRuntime PrivateEvidence PrivateJournal.
From Stdlib Require Import Ascii.

(** ** Signed integers as text *)
Definition print_i32 (z : Z) : string :=
  (if z <? 0 then "-" +:+ print_uint (Z.abs_N z) else print_uint (Z.to_N z))%Z%string.
(** [str::parse::<i32>] *)
Definition parse_i32 (s : string) : option Z :=
  let '(negative, digits) :=
    match s with String "-" d => (true, d) | String "+" d => (false, d) | _ => (false, s) end in
  if all_digits digits then
    let value := Z.of_N (digits_value (bytes digits)) in
    let value := (if negative : bool then - value else value)%Z in
    if (- 2 ^ 31 <=? value)%Z && (value <? 2 ^ 31)%Z then Some value else None
  else None.

(** ** Lines of fields *)
Definition EQUALS : u8 := ascii_of_N 61.
(** [str::split_once] with a character *)
Fixpoint split_once (c : u8) (l : list u8) : option (list u8 * list u8) :=
  match l with
  | [] => None
  | b :: rest =>
      if b ≟ c then Some ([], rest)
      else (λ '(before, after), (b :: before, after)) <$> split_once c rest
  end.
(** [strip_suffix('\n')] *)
Definition strip_lf (l : list u8) : option (list u8) :=
  match last l with Some b => if b ≟ LF then Some (take (length l - 1) l) else None | None => None end.

(** A [BTreeMap<&str, &str>]; keys are distinct, and only lookups, removals and
    emptiness are observed. *)
Definition fields_map : Type := list (string * list u8).
Definition field_of (key : string) (fields : fields_map) : option (list u8) :=
  snd <$> List.find (λ e, String.eqb e.1 key) fields.
Definition without (key : string) (fields : fields_map) : fields_map :=
  List.filter (λ e, negb (String.eqb e.1 key)) fields.

Fixpoint collect_fields (found : list (list u8)) (fields : fields_map) : result string fields_map :=
  match found with
  | [] => Ok fields
  | line :: found =>
      pair ← ok_or "malformed durable record field"%string (split_once EQUALS line);
      let key := String.string_of_list_ascii pair.1 in
      guard_err (is_some (field_of key fields)) "duplicate durable record field"%string ;;
      collect_fields found (fields ++ [(key, pair.2)])
  end.

(** ** The record *)
Record AttemptRecord : Type := {
  at_policy_binding : option (list u8);
  at_private_invocation : option (N * DiagnosticSha256);
  at_policy_checkpoint : option (list u8);
  at_identity : string;
  at_path : string;
  at_caller_envelope_digest : option string
}.

Definition validate_identity (identity : string) (caller_envelope_digest : option string) : result string () :=
  guard_err (negb (str_len identity =? 32) || negb (forallb (λ b, is_ascii_digit b || byte_in 97 102 b) (bytes identity)))
    "attempt identity must be 128-bit lowercase hexadecimal"%string ;;
  guard_err (is_some_and (λ digest, negb (str_len digest =? 64)
                                    || negb (forallb (λ b, is_ascii_digit b || byte_in 97 102 b) (bytes digest)))
               caller_envelope_digest)
    "caller envelope digest must be SHA-256 lowercase hexadecimal"%string.

(** [format!] of a sequence of fields, one per line. *)
Definition field_line (f : string * list u8) : list u8 := bytes f.1 ++ EQUALS :: f.2 ++ [LF].
Definition fields_text (fields : fields_map) : list u8 := concat (field_line <$> fields).
Definition text_field (key value : string) : string * list u8 := (key, bytes value).
Definition optional_field (key : string) (value : option (list u8)) : fields_map :=
  match value with Some v => [(key, v)] | None => [] end.

Definition allocated_fields (identity : string) (frontend_pid : Z) (envelope : option string) : fields_map :=
  [text_field "version" (if is_some envelope then "2" else "1"); text_field "cgroup" identity;
   text_field "frontend-pid" (print_i32 frontend_pid)]
  ++ optional_field "caller-envelope-digest" (bytes <$> envelope) ++ [text_field "state" "allocated"].

Definition header_fields (r : AttemptRecord) : fields_map :=
  if is_some (at_policy_binding r) then
    [text_field "format" "memcordon.linux-workload-journal"; text_field "revision" "1"]
  else if is_some (at_caller_envelope_digest r) then [text_field "version" "2"] else [text_field "version" "1"].
Definition invocation_fields (r : AttemptRecord) : fields_map :=
  match at_private_invocation r with
  | Some (uid, digest) =>
      [text_field "authenticated-uid" (print_uint uid);
       text_field "private-invocation-digest" (sha256_into_string digest)]
  | None => []
  end.
Definition transition_fields (r : AttemptRecord) (state : string) : fields_map :=
  header_fields r ++ [text_field "cgroup" (at_identity r)]
  ++ optional_field "caller-envelope-digest" (bytes <$> at_caller_envelope_digest r)
  ++ invocation_fields r ++ optional_field "policy-binding" (at_policy_binding r)
  ++ optional_field "policy-checkpoint" (at_policy_checkpoint r) ++ [text_field "state" state].

Section Text.
Context (sha256_hash : list u8 → list u8).
Context `{SerdeJson} `{Deserialize RuntimeAdmissionSnapshot}
  `{Deserialize (RuntimeAttemptBinding * VerifiedCheckpointV1)}.

Definition record_text (body : list u8) : list u8 :=
  body ++ bytes "digest=" ++ concat (hex_byte <$> sha256_hash body) ++ [LF].

(** The version, which stands for the format of the local policy too. *)
Definition read_version (fields : fields_map) : result string (list u8 * fields_map) :=
  match field_of "format" fields with
  | Some format =>
      let fields := without "format" fields in
      if (format ≟ bytes "memcordon.linux-workload-journal") && (field_of "revision" fields ≟ Some (bytes "1"))
      then Ok (bytes "local-policy", without "revision" fields)
      else Err "unsupported durable record format or revision"%string
  | None =>
      version ← ok_or "durable version absent"%string (field_of "version" fields);
      Ok (version, without "version" fields)
  end.

Definition read_sha256 (value : list u8) : result string DiagnosticSha256 :=
  value ← BoundedText_new 64 (String.string_of_list_ascii value);
  sha256_try_from value.

Definition frontend_agrees (pid : option (list u8)) (state : list u8) : bool :=
  match pid with
  | Some pid =>
      (state ≟ bytes "allocated")
      && is_some_and (λ pid, (0 <? pid)%Z) (parse_i32 (String.string_of_list_ascii pid))
  | None => state ≠? bytes "allocated"
  end.

Definition read_checkpoint (identity state : list u8) (snapshot : RuntimeAdmissionSnapshot)
    (checkpoint : option (list u8)) : result string () :=
  match checkpoint with
  | Some input =>
      guard_err (over CONTRACT_BYTES input) "durable checkpoint exceeds bound"%string ;;
      reject_duplicate_json_keys input ≫= λ _,
      pair ← from_slice (A := RuntimeAttemptBinding * VerifiedCheckpointV1) input;
      guard_err ((bytes (text (ab_attempt_id pair.1)) ≠? identity)
                 || negb (attempt_matches_snapshot sha256_hash pair.1 snapshot)
                 || negb (checkpoint_matches_binding sha256_hash pair.2 pair.1))
        "durable policy checkpoint binding differs"%string
  | None =>
      guard_err ((state ≟ bytes "authorized") || (state ≟ bytes "policy-verified-before-authorization"))
        "durable authorization checkpoint absent"%string
  end.

Definition read_admission (identity state : list u8) (fields : fields_map)
    : result string (RuntimeAdmissionSnapshot * fields_map) :=
  input ← ok_or "durable policy admission absent"%string (field_of "policy-binding" fields);
  let fields := without "policy-binding" fields in
  guard_err (over PUBLIC_OBJECT_BYTES input) "durable policy admission exceeds bound"%string ;;
  reject_duplicate_json_keys input ≫= λ _,
  snapshot ← from_slice (A := RuntimeAdmissionSnapshot) input;
  admission_snapshot_validate sha256_hash snapshot ≫= λ _,
  uid ← ok_or "durable authenticated UID absent"%string (field_of "authenticated-uid" fields);
  let fields := without "authenticated-uid" fields in
  uid ← ok_or "invalid durable authenticated UID"%string (parse_uint 32 (String.string_of_list_ascii uid));
  invocation ← ok_or "durable native invocation absent"%string (field_of "private-invocation-digest" fields);
  let fields := without "private-invocation-digest" fields in
  invocation ← read_sha256 invocation;
  guard_err ((sn_caller snapshot ≠? Caller_Linux uid) || (sn_private_invocation_digest snapshot ≠? invocation))
    "durable caller or native invocation binding differs"%string ;;
  read_checkpoint identity state snapshot (field_of "policy-checkpoint" fields) ≫= λ _,
  Ok (snapshot, without "policy-checkpoint" fields).

(** The fields of a record, taken one after the other. *)
Definition interpret_fields (fields : fields_map) : result string (option RuntimeAdmissionSnapshot) :=
  versioned ← read_version fields;
  let '(version, fields) := versioned in
  identity ← ok_or "durable attempt identity absent"%string (field_of "cgroup" fields);
  let fields := without "cgroup" fields in
  validate_identity (String.string_of_list_ascii identity) None ≫= λ _,
  state ← ok_or "durable state absent"%string (field_of "state" fields);
  let fields := without "state" fields in
  guard_err (state ≟ []) "durable state empty"%string ;;
  guard_err (negb (frontend_agrees (field_of "frontend-pid" fields) state))
    "durable frontend identity differs from allocated state"%string ;;
  let fields := without "frontend-pid" fields in
  fields ← (if (version ≟ bytes "2") || (version ≟ bytes "local-policy") then
              digest ← ok_or "durable caller envelope absent"%string (field_of "caller-envelope-digest" fields);
              _ ← read_sha256 digest;
              Ok (without "caller-envelope-digest" fields)
            else Ok fields);
  admitted ← (if (version ≟ bytes "1") || (version ≟ bytes "2") then Ok (None, fields)
              else if version ≟ bytes "local-policy" then
                admitted ← read_admission identity state fields; Ok (Some admitted.1, admitted.2)
              else Err "unsupported durable record version"%string);
  guard_err (negb (bool_decide (admitted.2 = []))) "unknown durable record fields"%string ;;
  Ok admitted.1.

Definition parse_durable_policy (record : list u8) : result string (option RuntimeAdmissionSnapshot) :=
  guard_err (last record ≠? Some LF) "durable record lacks newline"%string ;;
  parts ← ok_or "durable record digest absent"%string (rsplit_once (bytes "digest=") record);
  let '(body, digest) := parts in
  guard_err (strip_lf digest ≠? Some (hex_digest sha256_hash body)) "durable record digest differs"%string ;;
  fields ← collect_fields (lines body) [];
  interpret_fields fields.
End Text.

(** ** Files *)
Class AttemptFiles (World : Type) : Type := {
  (** device and inode of the file just created *)
  file_identity : string → stM World string (N * N);
  (** kind, device and inode of what the name denotes, without following a link *)
  path_identity : string → stM World string (bool * (N * N));
  file_length : string → stM World string N
}.

Section Operations.
Context (sha256_hash : list u8 → list u8).
Context `{Serialize RuntimeAdmissionSnapshot} `{Deserialize RuntimeAdmissionSnapshot}
  `{Serialize (RuntimeAttemptBinding * VerifiedCheckpointV1)}.
Context {World : Type} `{FileSystem World} `{AttemptFiles World}.

(** [TransitionTemporary::create] *)
Definition create_temporary (path : string) : stM World string (N * N) :=
  create_new path ≫= λ _, file_identity path.
(** [TransitionTemporary::drop] when it was not committed: a temporary that is
    still this owner's file is removed; failures are ignored. *)
Definition drop_temporary (path : string) (identity : N * N) (w : World) : World :=
  match path_identity path w with
  | (w, Ok (is_file, current)) =>
      if is_file && (current ≟ identity) then
        match remove_file path w with
        | (w, Ok _) => (sync_directory w).1
        | (w, Err _) => w
        end
      else w
  | (w, Err _) => w
  end.

Definition write_calls (path : string) (input : list u8) : list (stM World string ()) :=
  [write_all (temporary path) input; sync_all (temporary path); rename (temporary path) path].
Definition replace_record (path : string) (input : list u8) : stM World string () := λ w,
  match create_temporary (temporary path) w with
  | (w, Err e) => (w, Err e)
  | (w, Ok identity) =>
      match sequence (write_calls path input) w with
      | (w, Ok _) => sync_directory w
      | (w, Err e) => (drop_temporary (temporary path) identity w, Err e)
      end
  end.

Definition transition (state : string) (self : AttemptRecord) : stM World string () :=
  replace_record (at_path self) (record_text sha256_hash (fields_text (transition_fields self state))).

(** Writes the first text; a failure takes the name away again. *)
Definition persist_or_remove (path : string) (input : list u8) : stM World string () := λ w,
  match sequence [write_all path input; sync_all path; sync_directory] w with
  | (w, Ok _) => (w, Ok ())
  | (w, Err error) =>
      match sequence [remove_file path; sync_directory] w with
      | (w, Ok _) => (w, Err error)
      | (w, Err cleanup_error) => (w, Err (error +:+ "; MCSEALED-RECORD-CLEANUP: " +:+ cleanup_error)%string)
      end
  end.
Definition create_in (identity : string) (frontend_pid : Z) (envelope : option string)
    : stM World string AttemptRecord :=
  st_lift (validate_identity identity envelope) ≫= λ _,
  create_new identity ≫= λ _,
  persist_or_remove identity
    (record_text sha256_hash (fields_text (allocated_fields identity frontend_pid envelope))) ≫= λ _,
  mret {| at_policy_binding := None; at_private_invocation := None; at_policy_checkpoint := None;
          at_identity := identity; at_path := identity; at_caller_envelope_digest := envelope |}.
Definition create (identity : string) (frontend_pid : Z) : stM World string AttemptRecord :=
  secure_state_root ≫= λ _, create_in identity frontend_pid None.
Definition create_v2 (identity : string) (frontend_pid : Z) (envelope : string) : stM World string AttemptRecord :=
  secure_state_root ≫= λ _, create_in identity frontend_pid (Some envelope).

Definition ADOPT_LIMIT : N := 16 * 1024.
Definition adopt_v2 (identity : string) (frontend_pid : Z) (envelope : string) : stM World string AttemptRecord :=
  secure_state_root ≫= λ _,
  st_lift (validate_identity identity (Some envelope)) ≫= λ _,
  metadata ← open_metadata identity;
  length' ← file_length identity;
  st_lift (guard_err (negb (md_is_file metadata) || negb (md_uid metadata =? 0)
                      || negb (N.land (md_mode metadata) 511 =? 384))
             "attempt record identity or permissions are unsafe"%string) ≫= λ _,
  st_lift (guard_err (ADOPT_LIMIT <? length') "allocated attempt record exceeds bound"%string) ≫= λ _,
  observed ← read_to_end identity (ADOPT_LIMIT + 1);
  st_lift (guard_err (negb (is_utf8 observed)) "stream did not contain valid UTF-8"%string) ≫= λ _,
  st_lift (guard_err (over ADOPT_LIMIT observed) "allocated attempt record exceeds bound"%string) ≫= λ _,
  st_lift (guard_err (observed ≠? record_text sha256_hash
                                    (fields_text (allocated_fields identity frontend_pid (Some envelope))))
             "attempt record does not match authenticated broker identity"%string) ≫= λ _,
  mret {| at_policy_binding := None; at_private_invocation := None; at_policy_checkpoint := None;
          at_identity := identity; at_path := identity; at_caller_envelope_digest := Some envelope |}.

Definition set_policy (binding : list u8) (uid : N) (digest : DiagnosticSha256) (self : AttemptRecord) : AttemptRecord :=
  {| at_policy_binding := Some binding; at_private_invocation := Some (uid, digest);
     at_policy_checkpoint := at_policy_checkpoint self; at_identity := at_identity self; at_path := at_path self;
     at_caller_envelope_digest := at_caller_envelope_digest self |}.
Definition set_checkpoint (checkpoint : list u8) (self : AttemptRecord) : AttemptRecord :=
  {| at_policy_binding := at_policy_binding self; at_private_invocation := at_private_invocation self;
     at_policy_checkpoint := Some checkpoint; at_identity := at_identity self; at_path := at_path self;
     at_caller_envelope_digest := at_caller_envelope_digest self |}.

(** What [bind_policy] would make of the record. *)
Definition policy_next (admission : RuntimeAdmissionSnapshot) (authenticated_uid : N)
    (native_invocation_digest : DiagnosticSha256) (self : AttemptRecord) : result string AttemptRecord :=
  admission_snapshot_validate sha256_hash admission ≫= λ _,
  guard_err ((sn_caller admission ≠? Caller_Linux authenticated_uid)
             || (sn_private_invocation_digest admission ≠? native_invocation_digest)
             || is_some (at_policy_binding self))
    "frozen admission differs from authenticated caller or exact native invocation"%string ;;
  input ← to_vec admission;
  guard_err (over PUBLIC_OBJECT_BYTES input) "policy binding exceeds durable limit"%string ;;
  Ok (set_policy input authenticated_uid native_invocation_digest self).
Definition bind_policy (admission : RuntimeAdmissionSnapshot) (authenticated_uid : N)
    (native_invocation_digest : DiagnosticSha256) (self : AttemptRecord) : stM World string AttemptRecord :=
  next ← st_lift (policy_next admission authenticated_uid native_invocation_digest self);
  transition "policy-planned" next ≫= λ _,
  mret next.

(** What [bind_policy_checkpoint] makes of the record, which it keeps even when
    the transition fails. *)
Definition checkpoint_next (binding : RuntimeAttemptBinding) (checkpoint : VerifiedCheckpointV1)
    (self : AttemptRecord) : result string AttemptRecord :=
  policy ← ok_or "policy checkpoint lacks frozen admission"%string (at_policy_binding self);
  snapshot ← from_slice (A := RuntimeAdmissionSnapshot) policy;
  guard_err (negb (attempt_matches_snapshot sha256_hash binding snapshot)
             || (text (ab_attempt_id binding) ≠? at_identity self)
             || negb (checkpoint_matches_binding sha256_hash checkpoint binding))
    "policy checkpoint differs from exact durable admission"%string ;;
  input ← to_vec (binding, checkpoint);
  guard_err (over CONTRACT_BYTES input) "policy checkpoint exceeds durable limit"%string ;;
  guard_err (is_some_and (λ previous, previous ≠? input) (at_policy_checkpoint self))
    "policy checkpoint cannot change"%string ;;
  Ok (set_checkpoint input self).
Definition bind_policy_checkpoint (binding : RuntimeAttemptBinding) (checkpoint : VerifiedCheckpointV1)
    (self : AttemptRecord) (w : World) : World * AttemptRecord * result string () :=
  match checkpoint_next binding checkpoint self with
  | Err e => (w, self, Err e)
  | Ok next => let '(w, r) := transition "policy-verified-before-authorization" next w in (w, next, r)
  end.

Definition retire (self : AttemptRecord) : stM World string () :=
  remove_file (at_path self) ≫= λ _, sync_directory.
End Operations.

(** ** States of an attempt: state.rs *)
Inductive AttemptState : Type :=
| State_Allocated | State_BoundaryCreated | State_GuardianReady | State_TargetCreatedGated | State_AssignmentVerified
| State_ResourceInheritanceVerified | State_Authorized | State_Running | State_Terminating | State_Empty | State_Retired.
#[global] Instance AttemptState_eq_dec : EqDecision AttemptState.
Proof. solve_decision. Defined.
Record InvalidTransition : Type := { it_from : AttemptState; it_to : AttemptState }.
Definition valid_transition (state next : AttemptState) : bool :=
  match state, next with
  | State_Allocated, State_BoundaryCreated
  | State_BoundaryCreated, State_GuardianReady
  | State_GuardianReady, State_TargetCreatedGated
  | State_TargetCreatedGated, State_AssignmentVerified
  | State_AssignmentVerified, State_ResourceInheritanceVerified
  | State_ResourceInheritanceVerified, State_Authorized
  | State_Authorized, State_Running
  | State_Running, State_Terminating
  | (State_BoundaryCreated | State_GuardianReady | State_TargetCreatedGated | State_AssignmentVerified
     | State_ResourceInheritanceVerified | State_Authorized), State_Terminating
  | State_Terminating, State_Empty
  | State_Empty, State_Retired => true
  | _, _ => false
  end.
Definition machine_transition (state next : AttemptState) : result InvalidTransition AttemptState :=
  if valid_transition state next then Ok next else Err {| it_from := state; it_to := next |}.

(** ** The text form *)
Definition value_ok (v : list u8) : Prop := (LF ∉ v) ∧ last v ≠ Some CR.
Definition field_ok (f : string * list u8) : Prop := (EQUALS ∉ bytes f.1) ∧ (LF ∉ bytes f.1) ∧ value_ok f.2.

Lemma split_once_first c k v : c ∉ k → split_once c (k ++ c :: v) = Some (k, v).
Proof.
  induction k as [|b k IH]; intros Hk; cbn; [by rewrite bool_decide_true|].
  apply not_elem_of_cons in Hk as [Hb Hk]. rewrite bool_decide_false by done. by rewrite IH.
Qed.
Lemma lines_fields fs : Forall field_ok fs →
  lines (fields_text fs) = (λ f, bytes f.1 ++ EQUALS :: f.2) <$> fs.
Proof.
  induction 1 as [|f fs (Hk & Hl & Hv & Hc) _ IH]; [done|].
  unfold fields_text in *. rewrite fmap_cons. cbn [concat]. unfold field_line at 1.
  replace ((bytes f.1 ++ EQUALS :: f.2 ++ [LF]) ++ concat (field_line <$> fs))
    with ((bytes f.1 ++ EQUALS :: f.2) ++ LF :: concat (field_line <$> fs)) by (by rewrite <- !app_assoc; cbn; rewrite <- app_assoc).
  rewrite lines_cons; [by rewrite IH| |].
  - rewrite not_elem_of_app, not_elem_of_cons. by split_and!.
  - rewrite last_app, last_cons. by destruct (last f.2).
Qed.
Lemma field_of_None key fields : key ∉ fields.*1 → field_of key fields = None.
Proof.
  unfold field_of. induction fields as [|[k v] fields IH]; cbn; [done|]. intros [Hk Hf]%not_elem_of_cons.
  destruct (String.eqb_spec k key); [congruence|auto].
Qed.
Lemma field_of_app key fs gs v : field_of key fs = Some v → field_of key (fs ++ gs) = Some v.
Proof.
  unfold field_of. induction fs as [|[k x] fs IH]; [done|]. cbn. by destruct (String.eqb k key); [|apply IH].
Qed.
Lemma collect_fields_all fs acc : Forall field_ok fs → NoDup (acc ++ fs).*1 →
  collect_fields ((λ f, bytes f.1 ++ EQUALS :: f.2) <$> fs) acc = Ok (acc ++ fs).
Proof.
  intros Hf. revert acc. induction Hf as [|f fs (Hk & _) _ IH]; intros acc Hn; [by rewrite app_nil_r|].
  rewrite fmap_cons. cbn [collect_fields]. rewrite split_once_first by done. cbn [ok_or mbind result_bind fst snd].
  unfold bytes. rewrite String.string_of_list_ascii_of_string. rewrite field_of_None; cycle 1.
  { rewrite fmap_app, fmap_cons in Hn. apply NoDup_app in Hn as (_ & Hd & _). intros Hin. apply (Hd _ Hin). left. }
  cbn [is_some guard_err mbind result_bind].
  assert (acc ++ f :: fs = (acc ++ [f]) ++ fs) as E by (by rewrite <- app_assoc).
  rewrite E in Hn |- *. destruct f as [k v]. exact (IH _ Hn).
Qed.

(** Decides comparisons of literal texts. *)
Ltac eval_texts :=
  repeat match goal with
  | |- context [bool_decide (bytes ?a = bytes ?b)] =>
      let v := eval vm_compute in (bool_decide (bytes a = bytes b)) in
      change (bool_decide (bytes a = bytes b)) with v
  end.

Section TextForm.
Context (sha256_hash : list u8 → list u8).
Context `{SerdeJson} `{Serialize RuntimeAdmissionSnapshot} `{Deserialize RuntimeAdmissionSnapshot}
  `{Serialize (RuntimeAttemptBinding * VerifiedCheckpointV1)}
  `{Deserialize (RuntimeAttemptBinding * VerifiedCheckpointV1)}.

Lemma record_text_sealed body : record_text sha256_hash body = sealed_body sha256_hash body.
Proof.
  unfold record_text, sealed_body, hex_digest, hash_bytes, sha256_into_string. by rewrite bytes_string.
Qed.
Lemma strip_lf_snoc l : strip_lf (l ++ [LF]) = Some l.
Proof.
  unfold strip_lf. rewrite last_snoc, bool_decide_true by done. f_equal.
  rewrite length_app. cbn [length]. rewrite Nat.add_sub. by rewrite take_app_length.
Qed.
Lemma parse_record_text fs : Forall field_ok fs → NoDup fs.*1 →
  parse_durable_policy sha256_hash (record_text sha256_hash (fields_text fs)) = interpret_fields sha256_hash fs.
Proof.
  intros Hf Hn. unfold parse_durable_policy. rewrite record_text_sealed.
  assert (last (sealed_body sha256_hash (fields_text fs)) = Some LF) as ->.
  { unfold sealed_body. by rewrite !(assoc_L (++)), last_snoc. }
  rewrite bool_decide_true by done. cbn [negb guard_err mbind result_bind].
  rewrite rsplit_sealed. cbn [ok_or mbind result_bind]. rewrite strip_lf_snoc.
  rewrite bool_decide_true by done. cbn [negb guard_err mbind result_bind].
  rewrite lines_fields, (collect_fields_all fs []) by done. done.
Qed.

(** What serde_json documents about its compact writer, for both types a record
    holds. *)
Definition writes_lines (A : Type) `{Serialize A} `{Deserialize A} : Prop :=
  ∀ (x : A) p, to_vec x = Ok p →
    from_slice p = Ok x ∧ reject_duplicate_json_keys p = Ok () ∧ (LF ∉ p) ∧ last p ≠ Some CR ∧ is_utf8 p = true.
Record attempt_serde : Prop := {
  as_snapshot : writes_lines RuntimeAdmissionSnapshot;
  as_checkpoint : writes_lines (RuntimeAttemptBinding * VerifiedCheckpointV1)
}.

(** The admission a record holds, with the caller and the invocation that were
    authenticated for it. *)
Record policy_ok (r : AttemptRecord) (snapshot : RuntimeAdmissionSnapshot) : Prop := {
  po_json : ∃ p, at_policy_binding r = Some p ∧ to_vec snapshot = Ok p ∧ over PUBLIC_OBJECT_BYTES p = false;
  po_valid : admission_snapshot_validate sha256_hash snapshot = Ok ();
  po_caller : ∃ uid digest, at_private_invocation r = Some (uid, digest) ∧ uid < 2 ^ 32 ∧ sha_wf digest
                ∧ sn_caller snapshot = Caller_Linux uid ∧ sn_private_invocation_digest snapshot = digest;
  po_envelope : at_caller_envelope_digest r ≠ None
}.
Definition checkpoint_ok (r : AttemptRecord) (snapshot : RuntimeAdmissionSnapshot) (p : list u8) : Prop :=
  ∃ binding checkpoint, to_vec (binding, checkpoint) = Ok p ∧ over CONTRACT_BYTES p = false
    ∧ text (ab_attempt_id binding) = at_identity r ∧ attempt_matches_snapshot sha256_hash binding snapshot = true
    ∧ checkpoint_matches_binding sha256_hash checkpoint binding = true.
(** The admission, if any, that a record's text must yield. *)
Record attempt_ok (r : AttemptRecord) (admission : option RuntimeAdmissionSnapshot) : Prop := {
  ao_identity : validate_identity (at_identity r) (at_caller_envelope_digest r) = Ok ();
  ao_path : at_path r = at_identity r;
  ao_policy : match admission with
              | Some snapshot => policy_ok r snapshot ∧ ∀ p, at_policy_checkpoint r = Some p → checkpoint_ok r snapshot p
              | None => at_policy_binding r = None ∧ at_private_invocation r = None ∧ at_policy_checkpoint r = None
              end
}.
(** A state a transition may record. *)
Definition state_ok (r : AttemptRecord) (state : string) : Prop :=
  state ≠ ""%string ∧ state ≠ "allocated"%string ∧ value_ok (bytes state)
  ∧ (state = "authorized"%string ∨ state = "policy-verified-before-authorization"%string →
     at_policy_binding r ≠ None → at_policy_checkpoint r ≠ None).

Lemma nibble_hex_char c : is_ascii_digit c || byte_in 97 102 c = true → ∃ n, nibble c = Ok n.
Proof.
  unfold nibble, byte_in, byte_between, byte_le. destruct (is_ascii_digit c); [eauto|]. cbn [orb].
  change (N_of_ascii "a") with 97. change (N_of_ascii "f") with 102. intros ->. eauto.
Qed.
Lemma decode_pairs_hex k cs : length cs = (2 * k)%nat → Forall (λ c, is_ascii_digit c || byte_in 97 102 c = true) cs →
  ∃ out, decode_pairs cs = Ok out.
Proof.
  revert cs. induction k as [|k IH]; intros cs Hl Hf; [destruct cs; [by eexists|done]|].
  destruct cs as [|hi [|lo cs]]; try (cbn in Hl; lia).
  apply Forall_cons in Hf as [[h Hh]%nibble_hex_char Hf]. apply Forall_cons in Hf as [[l' Hlo]%nibble_hex_char Hf].
  destruct (IH cs) as [out Ho]; [cbn in Hl; lia|done|]. cbn [decode_pairs]. rewrite Hh. cbn [mbind result_bind].
  rewrite Hlo. cbn [mbind result_bind]. rewrite Ho. by eexists.
Qed.
Lemma envelope_reads identity s : validate_identity identity (Some s) = Ok () → ∃ d, read_sha256 (bytes s) = Ok d.
Proof.
  unfold validate_identity. intros [_ E]%guard_bind_Ok. apply guard_err_Ok in E. cbn [is_some_and] in E.
  apply orb_false_iff in E as [El%negb_false_iff%N.eqb_eq Eh%negb_false_iff].
  unfold read_sha256, BoundedText_new, bytes in *. rewrite String.string_of_list_ascii_of_string, El.
  replace (str_contains NUL s) with false; cycle 1.
  { symmetry. unfold str_contains. apply existsb_false_elem. intros c Hc. apply bool_decide_eq_false. intros ->.
    apply forallb_Forall in Eh. rewrite Forall_forall in Eh. by apply Eh in Hc. }
  cbn [orb N.ltb N.compare]. cbn. unfold sha256_try_from. cbn [text]. rewrite El. cbn [N.eqb negb].
  apply forallb_Forall in Eh. destruct (decode_pairs_hex 32 (bytes s)) as [out Ho]; [|exact Eh|].
  { rewrite str_len_bytes in El. lia. }
  rewrite Ho. cbn. by eexists.
Qed.

(** *** Values fit on a line *)
Lemma hex_value v : Forall (λ b, hex_char b = true) v → value_ok v.
Proof.
  intros Hv. split; [by apply hex_not_in|]. intros Hl. apply last_Some in Hl as [l ->].
  apply Forall_app in Hv as [_ Hv]. by inversion Hv.
Qed.
Lemma identity_value identity e : validate_identity identity e = Ok () → Forall (λ b, hex_char b = true) (bytes identity).
Proof.
  unfold validate_identity. intros [E _]%guard_bind_Ok. apply orb_false_iff in E as [_ E%negb_false_iff].
  apply forallb_Forall in E. eapply Forall_impl; [exact E|]. done.
Qed.
Lemma envelope_value identity s : validate_identity identity (Some s) = Ok () → Forall (λ b, hex_char b = true) (bytes s).
Proof.
  unfold validate_identity. intros [_ E]%guard_bind_Ok. apply guard_err_Ok in E. cbn [is_some_and] in E.
  apply orb_false_iff in E as [_ E%negb_false_iff]. apply forallb_Forall in E. eapply Forall_impl; [exact E|]. done.
Qed.
Lemma digits_hex s : all_digits s = true → Forall (λ b, hex_char b = true) (bytes s).
Proof.
  unfold all_digits, str_all. intros [_ Hs]%andb_true_iff. apply forallb_Forall in Hs.
  eapply Forall_impl; [exact Hs|]. intros b Hb. unfold hex_char. apply orb_true_iff. by left.
Qed.
Lemma text_field_ok key value : forallb (λ b, negb (b ≟ EQUALS) && negb (b ≟ LF)) (bytes key) = true →
  value_ok value → field_ok (key, value).
Proof.
  intros Hk Hv. apply forallb_Forall in Hk. rewrite Forall_forall in Hk.
  split_and!; [| |done]; cbn [fst]; intros Hin; apply Hk in Hin;
    by bool_hyps.
Qed.

Lemma header_fields_ok r : Forall field_ok (header_fields r).
Proof.
  assert (∀ s, forallb hex_char (bytes s) = true → value_ok (bytes s)) as Hh.
  { intros s Hs. apply hex_value. by apply forallb_Forall. }
  unfold header_fields. repeat case_match; repeat (constructor; [apply text_field_ok; [done|]|]); try constructor;
    try (by apply Hh).
  all: vm_compute; set_solver.
Qed.
Lemma transition_fields_ok r admission state :
  attempt_serde → attempt_ok r admission → value_ok (bytes state) → Forall field_ok (transition_fields r state).
Proof.
  intros Hs [Hid _ Hp] Hst. unfold transition_fields.
  rewrite !Forall_app. split_and!.
  - apply header_fields_ok.
  - constructor; [|constructor]. apply text_field_ok; [done|]. by eapply hex_value, identity_value.
  - destruct (at_caller_envelope_digest r) as [d|]; [|constructor]. constructor; [|constructor].
    apply text_field_ok; [done|]. by eapply hex_value, envelope_value.
  - unfold invocation_fields. destruct (at_private_invocation r) as [[uid digest]|]; [|constructor].
    repeat (constructor; [apply text_field_ok; [done|]|]); [| |constructor].
    + apply hex_value, digits_hex, print_uint_all_digits.
    + apply hex_value, hex_text_chars.
  - destruct (at_policy_binding r) as [p|] eqn:Ep; [|constructor]. constructor; [|constructor].
    apply text_field_ok; [done|]. destruct admission as [snapshot|]; [|naive_solver].
    destruct Hp as [[(p' & E & Hv & _) _ _ _] _]. rewrite Ep in E. injection E as <-.
    apply (as_snapshot Hs) in Hv as (_ & _ & ? & ? & _). done.
  - destruct (at_policy_checkpoint r) as [p|] eqn:Ep; [|constructor]. constructor; [|constructor].
    apply text_field_ok; [done|]. destruct admission as [snapshot|]; [|naive_solver].
    destruct Hp as [_ Hc]. destruct (Hc p eq_refl) as (binding & checkpoint & Hv & _).
    apply (as_checkpoint Hs) in Hv as (_ & _ & ? & ? & _). done.
  - constructor; [|constructor]. by apply text_field_ok.
Qed.

Lemma transition_keys r state : NoDup (transition_fields r state).*1.
Proof.
  unfold transition_fields, header_fields, invocation_fields.
  destruct (at_policy_binding r), (at_caller_envelope_digest r), (at_private_invocation r) as [[]|],
    (at_policy_checkpoint r); apply (bool_decide_unpack _); vm_compute; reflexivity.
Qed.

Lemma string_of_bytes s : String.string_of_list_ascii (bytes s) = s.
Proof. apply String.string_of_list_ascii_of_string. Qed.
Lemma identity_alone identity e : validate_identity identity e = Ok () → validate_identity identity None = Ok ().
Proof. unfold validate_identity. intros [-> _]%guard_bind_Ok. done. Qed.
Lemma state_bytes_ne a b : a ≠ b → bytes a ≠ bytes b.
Proof. intros Hab E. apply Hab. rewrite <- (string_of_bytes a), <- (string_of_bytes b). by rewrite E. Qed.

Lemma checkpoint_reads r snapshot state :
  attempt_serde → (∀ p, at_policy_checkpoint r = Some p → checkpoint_ok r snapshot p) →
  (state = "authorized"%string ∨ state = "policy-verified-before-authorization"%string → at_policy_checkpoint r ≠ None) →
  read_checkpoint sha256_hash (bytes (at_identity r)) (bytes state) snapshot (at_policy_checkpoint r) = Ok ().
Proof.
  intros Hs Hc Ha. unfold read_checkpoint. destruct (at_policy_checkpoint r) as [p|].
  - destruct (Hc p eq_refl) as (binding & checkpoint & Hv & Hover & Hid & Hm & Hb).
    destruct (as_checkpoint Hs _ _ Hv) as (Hfrom & Hkeys & _). rewrite Hover, Hkeys. cbn [guard_err mbind result_bind].
    rewrite Hfrom. cbn [mbind result_bind fst snd]. by rewrite Hid, Hm, Hb, bool_decide_true.
  - rewrite !bool_decide_false; [done|..]; apply state_bytes_ne; intros ->; apply Ha; auto.
Qed.

Lemma transition_interpreted r admission state :
  attempt_serde → attempt_ok r admission → state_ok r state →
  interpret_fields sha256_hash (transition_fields r state) = Ok admission.
Proof.
  intros Hs [Hid _ Hp] (Hne & Hna & _ & Hauth). unfold interpret_fields, transition_fields, header_fields, invocation_fields.
  assert (bytes state ≠ [] ∧ bytes state ≠ bytes "allocated") as [Hse Hsa].
  { split; [change (bytes state ≠ bytes "")|]; by apply state_bytes_ne. }
  destruct admission as [snapshot|].
  - destruct Hp as [[(p & Ep & Hjson & Hover) Hval (uid & digest & Einv & Huid & Hwf & Hcaller & Hdig) Henv] Hcp].
    rewrite Ep, Einv. destruct (at_caller_envelope_digest r) as [env|] eqn:Eenv; [|done].
    destruct (envelope_reads _ _ Hid) as [d Hd]. apply identity_alone in Hid.
    assert (parse_uint 32 (print_uint uid) = Some uid) as Hprint by (by apply parse_print_uint).
    assert (read_sha256 (bytes (sha256_into_string digest)) = Ok digest) as Hread.
    { unfold read_sha256. rewrite string_of_bytes. by apply sha256_text_print. }
    generalize dependent (print_uint uid). generalize dependent (sha256_into_string digest). intros D HD U HU.
    destruct (as_snapshot Hs _ _ Hjson) as (Hfrom & Hkeys & _).
    assert (read_checkpoint sha256_hash (bytes (at_identity r)) (bytes state) snapshot (at_policy_checkpoint r) = Ok ()) as Hck.
    { apply checkpoint_reads; [done|done|]. intros Hx. apply Hauth; [done|by rewrite Ep]. }
    destruct (at_policy_checkpoint r) as [c|];
      (cbn -[validate_identity read_sha256 bytes read_admission];
       rewrite !bool_decide_true by done; cbn -[validate_identity read_sha256 bytes read_admission];
       rewrite string_of_bytes, Hid; cbn -[read_sha256 bytes read_admission];
       rewrite (bool_decide_false _ Hse); cbn -[read_sha256 bytes read_admission];
       rewrite (bool_decide_false _ Hsa); cbn -[read_sha256 bytes read_admission];
       rewrite Hd; cbn -[read_sha256 bytes read_admission]; eval_texts; cbn -[read_sha256 bytes read_admission];
       unfold read_admission; cbn -[read_sha256 bytes read_checkpoint reject_duplicate_json_keys parse_uint];
       rewrite Hover, Hkeys; cbn -[read_sha256 bytes read_checkpoint parse_uint];
       rewrite Hfrom; cbn -[read_sha256 bytes read_checkpoint parse_uint];
       rewrite Hval; cbn -[read_sha256 bytes read_checkpoint parse_uint];
       rewrite string_of_bytes, HU; cbn -[read_sha256 bytes read_checkpoint];
       rewrite HD; cbn -[bytes read_checkpoint];
       rewrite Hcaller, Hdig, !bool_decide_true by done; cbn -[bytes read_checkpoint];
       rewrite Hck; reflexivity).
  - destruct Hp as (-> & -> & ->). destruct (at_caller_envelope_digest r) as [env|].
    + destruct (envelope_reads _ _ Hid) as [d Hd]. apply identity_alone in Hid.
      cbn -[validate_identity read_sha256 bytes]. rewrite string_of_bytes, Hid. cbn -[read_sha256 bytes].
      rewrite (bool_decide_false _ Hse). cbn -[read_sha256 bytes].
      rewrite (bool_decide_false _ Hsa). cbn -[read_sha256 bytes]. eval_texts. cbn -[read_sha256 bytes].
      by rewrite Hd.
    + cbn -[validate_identity read_sha256 bytes]. rewrite string_of_bytes, Hid. cbn -[read_sha256 bytes].
      rewrite (bool_decide_false _ Hse). cbn -[read_sha256 bytes].
      rewrite (bool_decide_false _ Hsa). cbn -[read_sha256 bytes]. eval_texts. reflexivity.
Qed.

(** *** The allocated record *)
Lemma all_digits_no_sign s : all_digits s = true →
  match s with String "-" d => (true, d) | String "+" d => (false, d) | _ => (false, s) end = (false, s).
Proof.
  destruct s as [|c s]; [done|]. unfold all_digits. cbn. intros [Hc _]%andb_true_iff.
  destruct c as [[] [] [] [] [] [] [] []]; try done; vm_compute in Hc; discriminate.
Qed.
Lemma parse_print_i32 pid : (0 < pid < 2 ^ 31)%Z → parse_i32 (print_i32 pid) = Some pid.
Proof.
  intros Hp. unfold parse_i32, print_i32. replace (pid <? 0)%Z with false by lia.
  pose proof (print_uint_all_digits (Z.to_N pid)) as Hd. rewrite all_digits_no_sign by done.
  rewrite Hd, digits_value_print, Z2N.id by lia. by replace ((_ <=? _)%Z && (_ <? _)%Z) with true by lia.
Qed.
Lemma print_i32_positive pid : (0 < pid)%Z → print_i32 pid = print_uint (Z.to_N pid).
Proof. intros Hp. unfold print_i32. by replace (pid <? 0)%Z with false by lia. Qed.

Lemma allocated_fields_ok identity pid envelope :
  validate_identity identity envelope = Ok () → (0 < pid)%Z → Forall field_ok (allocated_fields identity pid envelope).
Proof.
  intros Hid Hp. unfold allocated_fields. rewrite print_i32_positive by done. rewrite Forall_app. split.
  - repeat (constructor; [apply text_field_ok; [done|]|]); [..|constructor].
    + destruct envelope; apply hex_value; by apply forallb_Forall.
    + by eapply hex_value, identity_value.
    + apply hex_value, digits_hex, print_uint_all_digits.
  - rewrite Forall_app. split; [|by constructor; [apply text_field_ok; [done|by vm_compute; set_solver]|constructor]].
    destruct envelope as [d|]; [|constructor]. constructor; [|constructor].
    apply text_field_ok; [done|]. by eapply hex_value, envelope_value.
Qed.
Lemma allocated_reads identity pid envelope :
  validate_identity identity envelope = Ok () → (0 < pid < 2 ^ 31)%Z →
  parse_durable_policy sha256_hash (record_text sha256_hash (fields_text (allocated_fields identity pid envelope))) = Ok None.
Proof.
  intros Hid Hp. rewrite parse_record_text; cycle 1.
  { apply allocated_fields_ok; [done|lia]. }
  { destruct envelope; apply (bool_decide_unpack _); vm_compute; reflexivity. }
  unfold interpret_fields, allocated_fields. pose proof (parse_print_i32 pid Hp) as Hpid.
  generalize dependent (print_i32 pid). intros P HP.
  destruct envelope as [env|]; [destruct (envelope_reads _ _ Hid) as [d Hd]; apply identity_alone in Hid|];
    (cbn -[validate_identity read_sha256 bytes parse_i32]; rewrite !string_of_bytes, Hid; cbn -[read_sha256 bytes parse_i32];
     rewrite (bool_decide_false (bytes "allocated" = [])) by done; cbn -[read_sha256 bytes parse_i32];
     eval_texts; rewrite HP; cbn -[read_sha256 bytes]; replace (0 <? pid)%Z with true by lia;
     cbn -[read_sha256 bytes]; try (rewrite Hd; cbn -[bytes]); reflexivity).
Qed.
Lemma transition_reads r admission state :
  attempt_serde → attempt_ok r admission → state_ok r state →
  parse_durable_policy sha256_hash (record_text sha256_hash (fields_text (transition_fields r state))) = Ok admission.
Proof.
  intros Hs Hr Hst. rewrite parse_record_text; [by apply transition_interpreted| |apply transition_keys].
  destruct Hst as (_ & _ & ? & _). by eapply transition_fields_ok.
Qed.

(** *** What the operations keep *)
Lemma policy_next_ok admission uid digest r r' :
  attempt_ok r None → at_caller_envelope_digest r ≠ None → uid < 2 ^ 32 → sha_wf digest →
  policy_next sha256_hash admission uid digest r = Ok r' → attempt_ok r' (Some admission).
Proof.
  intros [Hid Hpath (Hp & Hi & Hc)] Henv Huid Hwf. unfold policy_next. intros ([] & Hv & E)%bind_Ok.
  apply guard_bind_Ok in E as [Hg E]. apply bind_Ok in E as (input & Hj & E). apply guard_bind_Ok in E as [Ho E].
  apply (inj Ok) in E. subst r'. bool_hyps. split; [done|done|]. split; [split; cbn|].
  - eauto.
  - done.
  - exists uid, digest. by split_and!.
  - done.
  - cbn. by rewrite Hc.
Qed.
Lemma checkpoint_next_ok binding checkpoint r r' snapshot :
  attempt_serde → attempt_ok r (Some snapshot) →
  checkpoint_next sha256_hash binding checkpoint r = Ok r' → attempt_ok r' (Some snapshot).
Proof.
  intros Hs [Hid Hpath [[(p & Ep & Hj & Ho) Hv Hc Henv] Hck]]. unfold checkpoint_next. rewrite Ep. cbn [ok_or mbind result_bind].
  rewrite (proj1 (as_snapshot Hs _ _ Hj)). cbn [mbind result_bind].
  intros E. apply guard_bind_Ok in E as [Hg E]. apply bind_Ok in E as (input & Hin & E).
  apply guard_bind_Ok in E as [Hover E]. apply guard_bind_Ok in E as [_ E]. apply (inj Ok) in E. subst r'. bool_hyps.
  split; [done|done|]. split; [by split; [exists p| | |]|]. cbn. intros ? [= <-]. by exists binding, checkpoint.
Qed.

(** The digest line is a field like the others. *)
Lemma record_text_fields fs : record_text sha256_hash (fields_text fs)
  = fields_text (fs ++ [("digest"%string, hex_digest sha256_hash (fields_text fs))]).
Proof.
  unfold fields_text at 2. rewrite fmap_app, concat_app. unfold record_text, hex_digest, hash_bytes, sha256_into_string.
  rewrite bytes_string. cbn. by rewrite app_nil_r.
Qed.
End TextForm.

(** [record.lines().find_map(|line| line.strip_prefix(..))] *)
Fixpoint first_field (prefix : string) (found : list (list u8)) : option (list u8) :=
  match found with
  | [] => None
  | line :: found => match strip_prefix (bytes prefix) line with Some v => Some v | None => first_field prefix found end
  end.
Definition find_line (prefix : string) (record : list u8) : option (list u8) := first_field prefix (lines record).

Lemma strip_key key k v : EQUALS ∉ key → EQUALS ∉ k →
  strip_prefix (key ++ [EQUALS]) (k ++ EQUALS :: v) = if k ≟ key then Some v else None.
Proof.
  revert k. induction key as [|a key IH]; intros [|b k] Hkey Hk; cbn [app strip_prefix]; [done|..].
  - apply not_elem_of_cons in Hk as [Hb _]. by rewrite !bool_decide_false by congruence.
  - apply not_elem_of_cons in Hkey as [Ha _]. by rewrite !bool_decide_false by congruence.
  - apply not_elem_of_cons in Hk as [_ Hk], Hkey as [_ Hkey]. case_bool_decide as E.
    + subst. rewrite IH by done. by repeat case_bool_decide; simplify_eq.
    + by rewrite bool_decide_false by congruence.
Qed.
Lemma find_line_field key fs : Forall field_ok fs → EQUALS ∉ bytes key →
  find_line (key +:+ "=") (fields_text fs) = field_of key fs.
Proof.
  intros Hf Hk. unfold find_line. rewrite lines_fields by done. unfold field_of.
  induction Hf as [|[k v] fs (Hf & _) _ IH]; [done|]. rewrite fmap_cons. cbn [first_field find fst snd] in *.
  rewrite bytes_app. change (bytes "=") with [EQUALS]. rewrite strip_key by done.
  destruct (String.eqb_spec k key) as [->|Hne]; [by rewrite bool_decide_true|].
  rewrite bool_decide_false by (by apply state_bytes_ne). exact IH.
Qed.

Lemma text_line sha256_hash key value fs : EQUALS ∉ bytes key → Forall field_ok fs → field_of key fs = Some value →
  find_line (key +:+ "=") (record_text sha256_hash (fields_text fs)) = Some value.
Proof.
  intros Hk Hf Hc. rewrite record_text_fields.
  rewrite find_line_field; [|apply Forall_app; split; [done|]|done].
  - by apply field_of_app.
  - constructor; [|constructor]. apply text_field_ok; [done|]. apply hex_value, hex_text_chars.
Qed.
(** A record that was just allocated names its frontend. *)
Lemma allocated_frontend sha256_hash identity pid envelope : validate_identity identity envelope = Ok () → (0 < pid < 2 ^ 31)%Z →
  (find_line "frontend-pid=" (record_text sha256_hash (fields_text (allocated_fields identity pid envelope)))
     ≫= λ v, parse_i32 (String.string_of_list_ascii v)) = Some pid.
Proof.
  intros Hid Hp. change "frontend-pid="%string with ("frontend-pid" +:+ "=")%string.
  rewrite (text_line sha256_hash "frontend-pid" (bytes (print_i32 pid))); [|vm_compute; set_solver|apply allocated_fields_ok; [done|lia]|done].
  cbn [mbind option_bind]. rewrite string_of_bytes. by apply parse_print_i32.
Qed.

(** ** Crashes *)
Class AttemptFileLaws (World : Type) `{CrashLaws World} `{AttemptFiles World} : Prop := {
  file_identity_keeps : ∀ q w w' r, file_identity q w = (w', r) → ∀ p, kept p w w';
  path_identity_keeps : ∀ q w w' r, path_identity q w = (w', r) → ∀ p, kept p w w'
}.

Section Durable.
Context (sha256_hash : list u8 → list u8).
Context `{SerdeJson} `{Serialize RuntimeAdmissionSnapshot} `{Deserialize RuntimeAdmissionSnapshot}
  `{Serialize (RuntimeAttemptBinding * VerifiedCheckpointV1)}
  `{Deserialize (RuntimeAttemptBinding * VerifiedCheckpointV1)}.
Context {World : Type} `{AttemptFileLaws World}.

(** The worlds a replacement passes through: it can be cut off after any of its
    calls, those of the cleanup of its temporary included. *)
Inductive replace_cut (path : string) (input : list u8) (w : World) : World → Prop :=
| cut_start : replace_cut path input w w
| cut_create w1 r : create_new (temporary path) w = (w1, r) → replace_cut path input w w1
| cut_identity w1 w2 r :
    create_new (temporary path) w = (w1, Ok ()) → file_identity (temporary path) w1 = (w2, r) →
    replace_cut path input w w2
| cut_commit w1 identity k w2 r :
    create_temporary (temporary path) w = (w1, Ok identity) →
    sequence (take k (write_calls path input ++ [sync_directory])) w1 = (w2, r) → replace_cut path input w w2
| cut_probe w1 w2 r :
    replace_cut path input w w1 → path_identity (temporary path) w1 = (w2, r) → replace_cut path input w w2
| cut_unlink w1 w2 r :
    replace_cut path input w w1 → remove_file (temporary path) w1 = (w2, r) → replace_cut path input w w2
| cut_settle w1 w2 r :
    replace_cut path input w w1 → sync_directory w1 = (w2, r) → replace_cut path input w w2.

Lemma found_kept path w0 next w w' : found path w0 next w → kept path w w' → found path w0 next w'.
Proof. intros Hf (_ & _ & Hk) c Hc. auto. Qed.
Lemma create_temporary_stage path w w' identity : create_temporary (temporary path) w = (w', Ok identity) →
  kept path w w' ∧ contents w' (temporary path) = Some [].
Proof.
  pose proof (temporary_ne path). intros (w1 & [] & Hc & Hi)%stM_bind_Ok.
  pose proof (file_identity_keeps _ _ _ _ Hi) as Hk. split.
  - eapply kept_trans; [by eapply create_other|apply Hk].
  - apply create_empty in Hc. destruct (Hk (temporary path)) as (-> & _). done.
Qed.
Lemma replace_cut_found path input w w' : replace_cut path input w w' → found path w input w'.
Proof.
  pose proof (temporary_ne path).
  induction 1 as [|w1 r Hc|w1 w2 r Hc Hi|w1 identity k w2 r Hc Hs|w1 w2 r _ IH Hp|w1 w2 r _ IH Hp|w1 w2 r _ IH Hp].
  - by left.
  - apply kept_found. by eapply create_other.
  - apply kept_found. eapply kept_trans; [by eapply create_other|by eapply file_identity_keeps].
  - apply create_temporary_stage in Hc as [Hk He].
    eapply staged_prefix; [apply commit_staged|done|by apply kept_found|exact Hs].
  - eapply found_kept; [done|by eapply path_identity_keeps].
  - eapply found_kept; [done|by eapply remove_other].
  - eapply found_kept; [done|by eapply directory_keeps].
Qed.
Lemma sequence_app (l k : list (stM World string ())) w :
  sequence (l ++ k) w = match sequence l w with (w', Ok _) => sequence k w' | (w', Err e) => (w', Err e) end.
Proof.
  revert w. induction l as [|c l IH]; intros w; [done|]. cbn. unfold mbind, stM_bind.
  destruct (c w) as [w1 [[]|e]]; [apply IH|done].
Qed.
Lemma sequence_one (c : stM World string ()) w : sequence [c] w = c w.
Proof. cbn. unfold mbind, stM_bind. by destruct (c w) as [w1 [[]|e]]. Qed.
(** A finished replacement is one of them; a successful one leaves only its text. *)
Lemma replace_record_cut path input w w' r : replace_record path input w = (w', r) → replace_cut path input w w'.
Proof.
  unfold replace_record. destruct (create_temporary _ w) as [w1 [identity|e]] eqn:Ec.
  - destruct (sequence (write_calls path input) w1) as [w2 [[]|e]] eqn:Es.
    + intros Ed. eapply (cut_commit _ _ _ w1 identity 4); [done|].
      change (take 4 (write_calls path input ++ [sync_directory])) with (write_calls path input ++ [sync_directory]).
      by rewrite sequence_app, Es, sequence_one.
    + intros [= <- <-]. unfold drop_temporary.
      assert (replace_cut path input w w2) as Hw2 by (by eapply (cut_commit _ _ _ w1 identity 3)).
      destruct (path_identity _ w2) as [w3 [[is_file current]|?]] eqn:Ep; [|by eapply cut_probe].
      assert (replace_cut path input w w3) as Hw3 by (by eapply cut_probe).
      case_match; [|done]. destruct (remove_file _ w3) as [w4 [[]|?]] eqn:Er; [|by eapply cut_unlink].
      destruct (sync_directory w4) as [w5 r5] eqn:Ey. cbn. eapply cut_settle; [|done]. by eapply cut_unlink.
  - intros [= <- <-]. unfold create_temporary, mbind, stM_bind in Ec.
    destruct (create_new _ w) as [w2 [[]|e2]] eqn:En; [by eapply cut_identity|].
    injection Ec as <- <-. by eapply cut_create.
Qed.
Lemma replace_record_Ok path input w w' : replace_record path input w = (w', Ok ()) →
  ∀ c, survives w' path c → c = Some input.
Proof.
  unfold replace_record. destruct (create_temporary _ w) as [w1 [identity|e]] eqn:Ec; [|done].
  destruct (sequence (write_calls path input) w1) as [w2 [[]|e]] eqn:Es; [|done]. intros Ed.
  apply create_temporary_stage in Ec as Hst.
  assert (sequence (write_calls path input ++ [sync_directory]) w1 = (w', Ok ())) as Hseq.
  { by rewrite sequence_app, Es, sequence_one. }
  by apply (staged_last _ _ _ _ _ _ (commit_staged path input w) Hst) in Hseq as (_ & _ & ?).
Qed.

(** A text that recovery accepts under the attempt's name. *)
Definition authentic (identity : string) (admission : option RuntimeAdmissionSnapshot) (b : list u8) : Prop :=
  parse_durable_policy sha256_hash b = Ok admission ∧ find_line "cgroup=" b = Some (bytes identity).

Lemma text_names fs identity : Forall field_ok fs → field_of "cgroup" fs = Some (bytes identity) →
  find_line "cgroup=" (record_text sha256_hash (fields_text fs)) = Some (bytes identity).
Proof. apply (text_line sha256_hash "cgroup"). vm_compute. set_solver. Qed.
Lemma allocated_authentic identity pid envelope : validate_identity identity envelope = Ok () → (0 < pid < 2 ^ 31)%Z →
  authentic identity None (record_text sha256_hash (fields_text (allocated_fields identity pid envelope))).
Proof.
  intros Hid Hp. split; [by apply allocated_reads|]. apply text_names; [apply allocated_fields_ok; [done|lia]|done].
Qed.
Lemma transition_authentic r admission state : attempt_serde → attempt_ok sha256_hash r admission → state_ok r state →
  authentic (at_identity r) admission (record_text sha256_hash (fields_text (transition_fields r state))).
Proof.
  intros Hs Hr Hst. split; [by eapply transition_reads|]. destruct Hst as (_ & _ & ? & _).
  apply text_names; [by eapply transition_fields_ok|]. unfold transition_fields, header_fields.
  by destruct (is_some (at_policy_binding r)), (is_some (at_caller_envelope_digest r)).
Qed.

(** A record in use: operations may fail and the world may change around its
    name.  [admission] is what the record carries in memory. *)
Inductive attempt_run : AttemptRecord → option RuntimeAdmissionSnapshot → World → Prop :=
| attempt_create identity pid envelope w w' r :
    (0 < pid < 2 ^ 31)%Z → create_in sha256_hash identity pid envelope w = (w', Ok r) → attempt_run r None w'
| attempt_transition r admission state w w' x :
    attempt_run r admission w → state_ok r state → transition sha256_hash state r w = (w', x) →
    attempt_run r admission w'
| attempt_bind r admission uid digest w w' r' :
    attempt_run r None w → at_caller_envelope_digest r ≠ None → uid < 2 ^ 32 → sha_wf digest →
    bind_policy sha256_hash admission uid digest r w = (w', Ok r') → attempt_run r' (Some admission) w'
| attempt_bind_failed r admission uid digest w w' e :
    attempt_run r None w → at_caller_envelope_digest r ≠ None → uid < 2 ^ 32 → sha_wf digest →
    bind_policy sha256_hash admission uid digest r w = (w', Err e) → attempt_run r None w'
| attempt_checkpoint r snapshot binding checkpoint w w' r' x :
    attempt_run r (Some snapshot) w → bind_policy_checkpoint sha256_hash binding checkpoint r w = (w', r', x) →
    attempt_run r' (Some snapshot) w'
| attempt_world r admission w w' :
    attempt_run r admission w → kept (at_path r) w w' → attempt_run r admission w'.

(** What the name may hold. *)
Definition durable (identity : string) (w : World) : Prop :=
  ∀ c, survives w identity c → ∃ b admission, c = Some b ∧ authentic identity admission b.
Lemma durable_cut identity input admission w w' :
  durable identity w → authentic identity admission input → replace_cut identity input w w' → durable identity w'.
Proof. intros Hd Ha Hc c Hs. apply (replace_cut_found _ _ _ _ Hc) in Hs as [Hs| ->]; [by apply Hd|eauto]. Qed.

Lemma policy_planned_ok r : state_ok r "policy-planned".
Proof. repeat split; try done; [by vm_compute; set_solver|]. by intros [?|?]. Qed.
Lemma create_in_durable identity pid envelope w w' r :
  (0 < pid < 2 ^ 31)%Z → create_in sha256_hash identity pid envelope w = (w', Ok r) →
  attempt_ok sha256_hash r None ∧ at_identity r = identity ∧ durable identity w'.
Proof.
  intros Hp. unfold create_in. intros (w1 & [] & [-> Hid]%st_lift_Ok & E)%stM_bind_Ok.
  apply stM_bind_Ok in E as (w2 & [] & Hc%create_empty & E). apply stM_bind_Ok in E as (w3 & [] & Hs & E).
  injection E as <- <-. split; [by split|]. split; [done|].
  unfold persist_or_remove in Hs. destruct (sequence _ w2) as [w4 [[]|e]] eqn:Eq; [|by repeat case_match].
  injection Hs as <-. cbn [sequence] in Eq.
  apply stM_bind_Ok in Eq as (wa & [] & Hwr & Eq). apply stM_bind_Ok in Eq as (wb & [] & Hsy & Eq).
  apply stM_bind_Ok in Eq as (wc & [] & Hd & Eq). injection Eq as <-.
  eapply write_appends in Hwr; [|done]. apply sync_stable in Hsy as [Hcb Hsb]. rewrite Hwr in Hcb, Hsb.
  intros c Hsv. eapply directory_settles in Hsv as [_ Hl]; [|exact Hd].
  do 2 eexists. split; [by apply Hl|]. by apply allocated_authentic.
Qed.

Lemma transition_durable r admission state w w' x :
  attempt_serde → attempt_ok sha256_hash r admission → state_ok r state → durable (at_identity r) w →
  transition sha256_hash state r w = (w', x) → durable (at_identity r) w'.
Proof.
  intros Hs Hr Hst Hd Ht. unfold transition in Ht. apply replace_record_cut in Ht. rewrite (ao_path _ _ _ Hr) in Ht.
  eapply durable_cut; [done|by eapply transition_authentic|done].
Qed.
Lemma checkpoint_state_ok binding checkpoint r r' :
  checkpoint_next sha256_hash binding checkpoint r = Ok r' → state_ok r' "policy-verified-before-authorization".
Proof.
  unfold checkpoint_next. intros (policy & _ & E)%bind_Ok. apply bind_Ok in E as (snapshot & _ & E).
  apply guard_bind_Ok in E as [_ E]. apply bind_Ok in E as (input & _ & E). apply guard_bind_Ok in E as [_ E].
  apply guard_bind_Ok in E as [_ E]. apply (inj Ok) in E. subst r'.
  repeat split; try done. by vm_compute; set_solver.
Qed.

Lemma attempt_run_ok r admission w : attempt_serde → attempt_run r admission w →
  attempt_ok sha256_hash r admission ∧ durable (at_identity r) w.
Proof.
  intros Hs. induction 1 as [identity pid envelope w w' r Hp Hc|r admission state w w' x _ [Hr Hd] Hst Ht
    |r admission uid digest w w' r' _ [Hr Hd] He Hu Hw Hb|r admission uid digest w w' e _ [Hr Hd] He Hu Hw Hb
    |r snapshot binding checkpoint w w' r' x _ [Hr Hd] Hb|r admission w w' _ [Hr Hd] (_ & _ & Hk)].
  - apply create_in_durable in Hc as (? & <- & ?); done.
  - split; [done|]. by eapply transition_durable.
  - apply stM_bind_Ok in Hb as (w1 & next & [-> Hn]%st_lift_Ok & E). apply stM_bind_Ok in E as (w2 & [] & Ht & E).
    injection E as <- <-. assert (attempt_ok sha256_hash next (Some admission)) as Hok by (by eapply policy_next_ok).
    assert (at_identity next = at_identity r) as Hi.
    { unfold policy_next in Hn. repeat (apply bind_Ok in Hn as (? & _ & Hn)). apply (inj Ok) in Hn. by subst. }
    split; [done|]. rewrite <- Hi in Hd. eapply transition_durable; [done|exact Hok|apply policy_planned_ok|done|exact Ht].
  - split; [done|]. unfold bind_policy, mbind, stM_bind, st_lift in Hb.
    destruct (policy_next _ _ _ _ r) as [next|e'] eqn:Hn; [|by injection Hb as <- _].
    assert (attempt_ok sha256_hash next (Some admission)) as Hok by (by eapply policy_next_ok).
    assert (at_identity next = at_identity r) as Hi.
    { unfold policy_next in Hn. repeat (apply bind_Ok in Hn as (? & _ & Hn)). apply (inj Ok) in Hn. by subst. }
    destruct (transition sha256_hash "policy-planned" next w) as [w1 [[]|e1]] eqn:Ht; [done|]. injection Hb as <- _.
    rewrite <- Hi in Hd |- *. eapply transition_durable; [done|exact Hok|apply policy_planned_ok|done|exact Ht].
  - unfold bind_policy_checkpoint in Hb. destruct (checkpoint_next _ _ _ r) as [next|e] eqn:Hn; [|by injection Hb as <- <- _].
    destruct (transition _ _ next w) as [w1 x1] eqn:Ht. injection Hb as <- <- _.
    assert (attempt_ok sha256_hash next (Some snapshot)) as Hok by (by eapply checkpoint_next_ok).
    assert (at_identity next = at_identity r) as Hi.
    { pose proof Hn as E. unfold checkpoint_next in E. repeat (apply bind_Ok in E as (? & _ & E)).
      apply (inj Ok) in E. by subst. }
    split; [done|]. rewrite <- Hi in Hd. eapply transition_durable; [done|exact Hok|by eapply checkpoint_state_ok|done|exact Ht].
  - split; [done|]. rewrite (ao_path _ _ _ Hr) in Hk. intros c Hc. by apply Hd, Hk.
Qed.

(** C15: the attempt record is never torn.  Wherever a power loss hits a record in use, while it is idle, between any two
    calls of a transition or of the cleanup of its temporary, and also after operations that failed, its name holds a
    text that the reader of the recovery accepts and that names the attempt; after a successful transition that text
    carries exactly the admission the record was bound to; and once retirement has succeeded the name is gone. *)
Theorem attempt_record_durable r admission w :
  attempt_serde → attempt_run r admission w →
  (∀ state w' c, state_ok r state →
     replace_cut (at_path r) (record_text sha256_hash (fields_text (transition_fields r state))) w w' →
     survives w' (at_path r) c →
     ∃ b admission', c = Some b ∧ parse_durable_policy sha256_hash b = Ok admission'
                     ∧ find_line "cgroup=" b = Some (bytes (at_identity r)))
  ∧ (∀ state w' c, state_ok r state → transition sha256_hash state r w = (w', Ok ()) → survives w' (at_path r) c →
     ∃ b, c = Some b ∧ parse_durable_policy sha256_hash b = Ok admission)
  ∧ (∀ w' c, retire r w = (w', Ok ()) → survives w' (at_path r) c → c = None).
Proof.
  intros Hs [Hr Hd]%attempt_run_ok; [|done]. split_and!.
  - intros state w' c Hst Hcut Hc. rewrite (ao_path _ _ _ Hr) in *.
    apply (durable_cut _ _ _ _ _ Hd (transition_authentic _ _ _ Hs Hr Hst) Hcut) in Hc as (b & a & -> & Hp & Hn). eauto.
  - intros state w' c Hst Ht Hc. eapply replace_record_Ok in Hc; [|exact Ht]. subst c.
    eexists. split; [done|]. by eapply transition_reads.
  - intros w' c (w1 & [] & Hrm%remove_file_gone & Hsy)%stM_bind_Ok Hc.
    eapply directory_settles in Hc as [Hn _]; [|exact Hsy]. auto.
Qed.
End Durable.

(** *** The order of the states *)
Definition state_rank (s : AttemptState) : nat :=
  match s with
  | State_Allocated => 0 | State_BoundaryCreated => 1 | State_GuardianReady => 2 | State_TargetCreatedGated => 3
  | State_AssignmentVerified => 4 | State_ResourceInheritanceVerified => 5 | State_Authorized => 6 | State_Running => 7
  | State_Terminating => 8 | State_Empty => 9 | State_Retired => 10
  end.
(** Every transition takes the next state or starts the termination of an
    attempt that has a boundary: no gate is skipped and no state is left twice. *)
Lemma machine_progress state next s : machine_transition state next = Ok s →
  s = next ∧ (state_rank next = S (state_rank state) ∨ next = State_Terminating ∧ 1 <= state_rank state < 8)%nat.
Proof.
  unfold machine_transition. destruct (valid_transition state next) eqn:E; [|done]. intros [= <-]. split; [done|].
  destruct state, next; try discriminate E; cbn; auto; right; (split; [done|lia]).
Qed.

Module AttemptExamples.
Import RegistryExamples EvidenceExamples JournalExamples.
#[local] Existing Instances disk_files disk_crash.

(** A library that writes the sample admission as two bytes, and no checkpoint. *)
Definition braces : list u8 := bytes "{}".
#[local] Instance contract_eq_dec : EqDecision WorkloadContractV1.
Proof. solve_decision. Defined.
#[local] Instance snapshot_eq_dec : EqDecision RuntimeAdmissionSnapshot.
Proof. solve_decision. Defined.
#[local] Instance any_json : SerdeJson := {| json_of := λ _, Ok JNull |}.
#[local] Instance writes_snapshot : Serialize RuntimeAdmissionSnapshot :=
  {| to_chunks := λ x, if x ≟ snapshot then Ok [braces] else Err "not the sample"%string |}.
#[local] Instance reads_snapshot : Deserialize RuntimeAdmissionSnapshot := {| from_slice := λ _, Ok snapshot |}.
#[local] Instance writes_checkpoint : Serialize (RuntimeAttemptBinding * VerifiedCheckpointV1) :=
  {| to_chunks := λ _, Err "no checkpoints"%string |}.
#[local] Instance reads_checkpoint : Deserialize (RuntimeAttemptBinding * VerifiedCheckpointV1) :=
  {| from_slice := λ _, Err "no checkpoints"%string |}.
Lemma sample_serde : attempt_serde.
Proof.
  split; [|done]. intros x p. unfold to_vec. cbn [to_chunks writes_snapshot]. case_bool_decide; [|done]. subst.
  intros E. injection E as <-. by vm_compute; set_solver.
Qed.

#[local] Instance disk_identities : AttemptFiles disk := {|
  file_identity _ w := (w, Ok (1, 2));
  path_identity _ w := (w, Ok (true, (1, 2)));
  file_length p w := (w, Ok (N.of_nat (length (default [] (get w p)))))
|}.
#[local] Instance disk_identity_laws : AttemptFileLaws disk.
Proof. split; intros ? ? ? ? E p; cbn in E; injection E as <- <-; apply kept_refl. Qed.

Definition name : string := "0123456789abcdef0123456789abcdef".
Definition envelope : string := "00112233445566778899aabbccddeeff00112233445566778899aabbccddeeff".
Definition allocated : disk * result string AttemptRecord := create_in hash name 41 (Some envelope) [].
Definition first_record : AttemptRecord :=
  {| at_policy_binding := None; at_private_invocation := None; at_policy_checkpoint := None; at_identity := name;
     at_path := name; at_caller_envelope_digest := Some envelope |}.
Lemma allocated_Ok : create_in hash name 41 (Some envelope) [] = (allocated.1, Ok first_record).
Proof. vm_compute. reflexivity. Qed.
Definition planned : disk * result string AttemptRecord := bind_policy hash snapshot 1000 plan first_record allocated.1.
Definition planned_record : AttemptRecord := set_policy braces 1000 plan first_record.
Lemma planned_Ok : bind_policy hash snapshot 1000 plan first_record allocated.1 = (planned.1, Ok planned_record).
Proof. vm_compute. reflexivity. Qed.
Lemma planned_run : attempt_run hash planned_record (Some snapshot) planned.1.
Proof.
  refine (attempt_bind _ first_record snapshot 1000 plan _ _ _ _ _ _ _ planned_Ok); [|discriminate|reflexivity|reflexivity].
  eapply attempt_create; [|exact allocated_Ok]. lia.
Qed.
(** The record of the bound attempt holds its admission. *)
Example planned_reads : parse_durable_policy hash (default [] (get planned.1 name)) = Ok (Some snapshot).
Proof. vm_compute. reflexivity. Qed.

(** A transition cut off before its rename. *)
Lemma attempt_record_durable_witness :
  ∃ b admission, get planned.1 name = Some b ∧ parse_durable_policy hash b = Ok admission
                 ∧ find_line "cgroup=" b = Some (bytes name).
Proof.
  destruct (proj1 (attempt_record_durable hash planned_record (Some snapshot) planned.1 sample_serde planned_run)
    "boundary-created"%string planned.1 (get planned.1 name)) as (b & a & Eb & Hp & Hn).
  - repeat split; try discriminate; [by vm_compute; set_solver|]. intros [?|?]; discriminate.
  - apply cut_start.
  - reflexivity.
  - exists b, a. split; [exact Eb|split; [exact Hp|exact Hn]].
Defined.
End AttemptExamples.
