(* ===== verification/Recovery.v ===== *)
(** * Recovery of sealed attempts

    linux/recovery.rs of the sealed agent and the boundary of an attempt of
    linux/cgroup.rs: what a starting provider does with the records, the
    interrupted transitions, the account reservations and the control groups
    that an earlier provider left behind.

    The host is the interface [RecoveryHost], one operation per system call of
    the source; names are the bytes of directory entries.  Reading a process's
    start time from /proc, in linux/envelope.rs, is one of its operations. *)

From S2P Require Import Prelude Decimal Bounded Codec Diagnostics RecordLimits WorkloadContract WorkloadCodec Registry RegistryV2 JsonDocuments WorkloadEvidence NativeText PrivateRuntime PrivateEvidence PrivateJournal AttemptRecord.
From Stdlib Require Import Ascii.

(** ** The host *)
Record io_error : Type := { io_not_found : bool; io_message : string }.
Inductive file_kind : Type := Kind_File | Kind_Dir | Kind_Other.
#[global] Instance file_kind_eq_dec : EqDecision file_kind.
Proof. solve_decision. Defined.
Record Metadata : Type := {
  me_kind : file_kind; me_uid : N; me_nlink : N; me_mode : N; me_len : N; me_dev : N; me_ino : N;
  me_mtime : Z; me_mtime_nsec : Z
}.
Record DirEntry : Type := { de_name : string; de_type : result string file_kind }.

Class RecoveryHost (World : Type) : Type := {
  (** symlink_metadata of the two roots *)
  state_root_kind : stM World io_error file_kind;
  cgroup_root_kind : stM World io_error file_kind;
  read_state_root : stM World string (list DirEntry);
  read_cgroup_root : stM World string (list DirEntry);
  (** symlink_metadata of a name in a root *)
  state_metadata : string → stM World io_error Metadata;
  cgroup_metadata : string → stM World io_error Metadata;
  (** the state root opened as a directory without following a link *)
  open_state_root : stM World string Metadata;
  sync_state_root : stM World string ();
  (** a name in the state root opened without following a link *)
  open_state_file : string → stM World string ();
  opened_metadata : string → stM World string Metadata;
  (** at most the given number of bytes *)
  read_state_file : string → N → stM World string (list u8);
  remove_state_file : string → stM World string ();
  (** kill with signal zero: delivered, or not permitted *)
  signal_zero : Z → World → World * bool;
  boot_id : stM World string string;
  process_start_time : Z → stM World string N;
  proc_entry_exists : Z → World → World * bool;
  (** files of a control group *)
  cgroup_inode : string → stM World string N;
  write_kill : string → stM World string ();
  read_events : string → stM World string (list u8);
  read_procs : string → stM World string (list u8);
  remove_cgroup : string → stM World io_error ();
  monotonic_nanos : stM World string N;
  instant_now : World → World * N;
  sleep_millis : N → World → World * ()
}.

(** [match call() { Ok(..) => .., Err(..) => .. }] *)
Definition st_try {S E F A} (m : stM S E A) : stM S F (result E A) := λ s, let '(s', r) := m s in (s', Ok r).
Definition st_total {S E A} (m : S → S * A) : stM S E A := λ s, let '(s', a) := m s in (s', Ok a).
Definition st_map_err {S E F A} (f : E → F) (m : stM S E A) : stM S F A := λ s, let '(s', r) := m s in (s', map_err f r).

(** [name.to_str()] and [name.to_string_lossy()] *)
Definition to_str (name : string) : option string := if is_utf8 (bytes name) then Some name else None.
Definition to_string_lossy (name : string) : string := String.string_of_list_ascii (from_utf8_lossy (bytes name)).
Definition strip_suffix (suffix s : list u8) : option (list u8) :=
  (λ rest, rev rest) <$> strip_prefix (rev suffix) (rev s).
Definition begins (prefix : list u8) (l : list u8) : bool := is_some (strip_prefix prefix l).

Definition recovery_error (message : string) : string := ("MCSEALED-RECOVERY: " +:+ message)%string.

(** ** The boundary of an attempt *)
Section Cgroup.
Context {World : Type} `{RecoveryHost World}.

Definition populated (name : string) : stM World string bool :=
  value ← read_events name;
  st_lift (ok_or "cgroup.events omitted populated state"%string
             ((λ v, v ≟ bytes "1") <$> find_line "populated " value)).

Fixpoint parse_pids (found : list (list u8)) : result string (list Z) :=
  match found with
  | [] => Ok []
  | line :: found =>
      pid ← ok_or "invalid cgroup member pid"%string (parse_i32 (String.string_of_list_ascii line));
      rest ← parse_pids found;
      Ok (pid :: rest)
  end.
Definition member_pids (name : string) : stM World string (list Z) :=
  value ← read_procs name; st_lift (parse_pids (lines value)).

Record CgroupRetirementRawV1 : Type := {
  cr_schema_version : N; cr_cgroup_path : string; cr_cgroup_inode : N; cr_last_members : list Z;
  cr_empty_monotonic_ns : N; cr_removed_monotonic_ns : N
}.

(** Once the group is not populated. *)
Definition retire_empty (name : string) (inode : N) : stM World string CgroupRetirementRawV1 :=
  last_members ← member_pids name;
  st_lift (guard_err (negb (bool_decide (last_members = []))) "retiring cgroup populated/member snapshot differs"%string) ≫= λ _,
  empty_ns ← monotonic_nanos;
  st_map_err (λ e, ("MCSEALED-BOUNDARY-NOT-RETIRED: " +:+ io_message e)%string) (remove_cgroup name) ≫= λ _,
  removed_ns ← monotonic_nanos;
  after ← st_try (cgroup_metadata name);
  st_lift (guard_err (match after with Err e => negb (io_not_found e) | Ok _ => true end)
             "retired cgroup path remained present"%string) ≫= λ _,
  mret {| cr_schema_version := 1; cr_cgroup_path := name; cr_cgroup_inode := inode; cr_last_members := last_members;
          cr_empty_monotonic_ns := empty_ns; cr_removed_monotonic_ns := removed_ns |}.

(** The wait, one poll per 10 ms; [None] when the fuel is spent. *)
Fixpoint retire_loop (fuel : nat) (name : string) (inode deadline : N)
    : stM World string (option CgroupRetirementRawV1) :=
  match fuel with
  | O => mret None
  | S fuel =>
      now ← st_total instant_now;
      if now <? deadline then
        busy ← populated name;
        if negb busy then (raw ← retire_empty name inode; mret (Some raw))
        else st_total (sleep_millis 10) ≫= λ _, retire_loop fuel name inode deadline
      else st_lift (Err "MCSEALED-CGROUP-NOT-EMPTY: cleanup deadline expired"%string)
  end.

(** Ten seconds, polled every ten milliseconds. *)
Definition POLLS : nat := 1001.
Definition kill_and_retire_observed (name : string) (deadline : N) : stM World string CgroupRetirementRawV1 :=
  inode ← cgroup_inode name;
  st_lift (guard_err (inode =? 0) "retiring cgroup inode is zero"%string) ≫= λ _,
  write_kill name ≫= λ _,
  raw ← retire_loop POLLS name inode deadline;
  st_lift (ok_or "retirement outlasts its polls"%string raw).
Definition kill_and_retire (name : string) (deadline : N) : stM World string () :=
  kill_and_retire_observed name deadline ≫= λ _, mret ().
(** [kill_and_retire(Instant::now() + Duration::from_secs(10))] *)
Definition kill_and_retire_now (name : string) : stM World string () :=
  now ← st_total instant_now; kill_and_retire name (now + 10 * 10 ^ 9).

(** [classify_attempt_root_entry] *)
Inductive AttemptRootEntry : Type :=
| Root_KernelControl | Root_Attempt (name : string) | Root_InvalidDirectory (name : string) | Root_Unsafe (name : string).
Definition classify_attempt_root_entry (entry : DirEntry) : result string AttemptRootEntry :=
  kind ← de_type entry;
  Ok (match kind with
      | Kind_File => Root_KernelControl
      | Kind_Dir =>
          if is_some_and valid_attempt_identity (to_str (de_name entry)) then Root_Attempt (de_name entry)
          else Root_InvalidDirectory (de_name entry)
      | Kind_Other => Root_Unsafe (de_name entry)
      end).
End Cgroup.

(** ** Records *)
Definition MAX_RECORD_BYTES : N := 16 * 1024 + PUBLIC_OBJECT_BYTES + CONTRACT_BYTES + MAX_PRIVATE_RECORD_BYTES.

(** [#[derive(Deserialize)] struct Reservation] *)
Record Reservation : Type := {
  rv_format : string; rv_revision : N; rv_user_namespace_device : N; rv_user_namespace_inode : N; rv_uid : N;
  rv_attempt : list u8; rv_owner_pid : Z; rv_owner_birth : N; rv_boot_identity : string
}.

Definition BOOT_SHAPE : string := "00000000-0000-0000-0000-000000000000".
Definition canonical_boot_identity (value : string) : bool :=
  (str_len value =? str_len BOOT_SHAPE)
  && forallb (λ '(actual, expected), if expected ≟ "-"%char then actual ≟ "-"%char
                                     else is_ascii_digit actual || byte_in 97 102 actual)
       (combine (bytes value) (bytes BOOT_SHAPE))
  && existsb (λ b, byte_in 49 57 b || byte_in 97 102 b) (bytes value).

Definition reservation_name (r : Reservation) : string :=
  ("account-" +:+ print_uint (rv_user_namespace_device r) +:+ "-" +:+ print_uint (rv_user_namespace_inode r)
   +:+ "-" +:+ print_uint (rv_uid r) +:+ ".reservation")%string.
Definition reservation_ok (r : Reservation) (name : string) : bool :=
  negb ((rv_format r ≠? "memcordon.account-reservation"%string) || negb (rv_revision r =? 1)
        || (rv_user_namespace_device r =? 0) || (rv_user_namespace_inode r =? 0) || (rv_uid r =? 0)
        || negb (canonical_boot_identity (rv_boot_identity r)) || (rv_owner_pid r <=? 0)%Z
        || (rv_owner_birth r =? 0) || (rv_attempt r ≟ replicate 16 NUL) || (name ≠? reservation_name r)).
Definition attempt_name (r : Reservation) : string :=
  String.string_of_list_ascii (concat (hex_byte <$> rv_attempt r)).
Definition same_file (a b : Metadata) : bool :=
  (me_dev a =? me_dev b) && (me_ino a =? me_ino b) && (me_len a =? me_len b) && (me_mtime a =? me_mtime b)%Z
  && (me_mtime_nsec a =? me_mtime_nsec b)%Z.

Definition is_reservation (name : string) : bool :=
  is_some_and (λ s, begins (bytes "account-") (bytes s) && is_some (strip_suffix (bytes ".reservation") (bytes s)))
    (to_str name).
(** The attempt whose interrupted transition a name is. *)
Definition temporary_of (name : string) : option string :=
  s ← to_str name;
  identity ← strip_suffix (bytes ".new") (bytes s);
  let identity := String.string_of_list_ascii identity in
  if valid_attempt_identity identity then Some identity else None.
Definition record_of (name : string) : option string :=
  s ← to_str name; if valid_attempt_identity s then Some s else None.

Section Recover.
Context (sha256_hash : list u8 → list u8).
Context `{SerdeJson} `{Deserialize PrivateAttemptRecordV4} `{Deserialize RuntimeAdmissionSnapshot}
  `{Deserialize (RuntimeAttemptBinding * VerifiedCheckpointV1)} `{Deserialize Reservation}.
Context {World : Type} `{RecoveryHost World}.

Definition PRIVATE_HEADER : list u8 :=
  bytes "format=memcordon.private-native-journal" ++ [LF] ++ bytes "revision=1" ++ [LF].
Definition integrity_valid (record : list u8) : bool :=
  if begins PRIVATE_HEADER record then is_ok (record_parse sha256_hash record)
  else is_ok (parse_durable_policy sha256_hash record).

Definition read_record_no_follow (name : string) : stM World string (list u8) :=
  st_map_err recovery_error (open_state_file name) ≫= λ _,
  metadata ← st_map_err recovery_error (opened_metadata name);
  st_lift (guard_err (me_kind metadata ≠? Kind_File) (recovery_error "attempt record is not a regular file")) ≫= λ _,
  record ← st_map_err recovery_error (read_state_file name (MAX_RECORD_BYTES + 1));
  st_lift (guard_err (negb (is_utf8 record)) (recovery_error "stream did not contain valid UTF-8")) ≫= λ _,
  st_lift (guard_err (over MAX_RECORD_BYTES record) (recovery_error "attempt record exceeds size limit")) ≫= λ _,
  mret record.

Definition process_is_live (pid : Z) : stM World string bool :=
  if (pid <=? 0)%Z then mret false else st_total (signal_zero pid).
(** Whether the frontend a record names is alive; only an allocated record
    names one. *)
Definition frontend_is_live (record : list u8) : stM World string bool :=
  match find_line "frontend-pid=" record ≫= λ v, parse_i32 (String.string_of_list_ascii v) with
  | Some pid => process_is_live pid
  | None => mret false
  end.
Definition names_attempt (identity : string) (record : list u8) : bool :=
  find_line "cgroup=" record ≟ Some (bytes identity).

(** *** Interrupted transitions *)
Definition older_private (record : list u8) : bool :=
  begins (bytes "version=4" ++ [LF]) record
  || begins (bytes "format=memcordon.private-native-journal" ++ [LF]) record.

(** Kills and retires the boundary, if there is one; [false] if the name is
    something else. *)
Definition retire_boundary (identity : string) : stM World string bool :=
  found ← st_try (cgroup_metadata identity);
  match found with
  | Ok metadata =>
      if me_kind metadata ≟ Kind_Dir then kill_and_retire_now identity ≫= λ _, mret true else mret false
  | Err e => if io_not_found e then mret true else st_lift (Err (recovery_error (io_message e)))
  end.

(** What is checked before the boundary is touched. *)
Definition interrupted_checks (identity : string) (entry : DirEntry) : stM World string bool :=
  canonical_metadata ← st_try (state_metadata identity);
  match canonical_metadata with
  | Err _ => mret false
  | Ok canonical_metadata =>
      if negb (me_kind canonical_metadata ≟ Kind_File) then mret false
      else
        temporary_metadata ← st_map_err (λ e, recovery_error (io_message e)) (state_metadata (de_name entry));
        kind ← st_lift (de_type entry);
        if negb (kind ≟ Kind_File) || negb (me_uid temporary_metadata =? me_uid canonical_metadata)
           || negb (N.land (me_mode temporary_metadata) 511 =? 384) || negb (me_nlink temporary_metadata =? 1)
           || (MAX_RECORD_BYTES <? me_len temporary_metadata)
        then mret false
        else
          canonical ← st_try (read_record_no_follow identity);
          match canonical with
          | Err _ => mret false
          | Ok canonical =>
              if negb (integrity_valid canonical) || negb (names_attempt identity canonical) then mret false
              else if older_private canonical then mret false
              else
                live ← frontend_is_live canonical;
                if live : bool then mret false
                else
                  interrupted ← st_try (read_record_no_follow (de_name entry));
                  mret (match interrupted with
                        | Err _ => false
                        | Ok interrupted =>
                            negb (older_private interrupted)
                            && negb (is_some_and (λ bound, bound ≠? bytes identity) (find_line "cgroup=" interrupted))
                        end)
          end
  end.
Definition interrupted_transition_is_recoverable (identity : string) (entry : DirEntry) : stM World string bool :=
  passed ← interrupted_checks identity entry;
  if passed : bool then retire_boundary identity else mret false.

(** *** Account reservations *)

(** The owner of the reservation cannot come back: another boot, a later process
    under its number, or none. *)
Definition owner_lost (reservation : Reservation) : stM World string bool :=
  boot ← boot_id;
  if negb (rv_boot_identity reservation ≟ boot) then mret true
  else
    birth ← st_try (process_start_time (rv_owner_pid reservation));
    match birth with
    | Ok birth => mret (rv_owner_birth reservation <? birth)
    | Err _ => exists' ← st_total (proc_entry_exists (rv_owner_pid reservation)); mret (negb exists')
    end.

(** [symlink_metadata] says the name does not exist *)
Definition absent (lookup : stM World io_error Metadata) : stM World string bool :=
  found ← st_try lookup; mret (match found with Err e => io_not_found e | Ok _ => false end).

Definition allocation_only (record : PrivateAttemptRecordV4) (identity : string) (reservation : Reservation) : bool :=
  negb ((text (pa_attempt_id record) ≠? identity) || (text (pa_boot_identity record) ≠? rv_boot_identity reservation)
        || (pa_phase record ≠? Phase_Allocated) || is_some (pa_target record) || is_some (pa_namespace_init record)
        || is_some (pa_guardian record) || is_some (pa_network_namespace_inode record)
        || is_some (pa_gated_facts record)).

(** The journal of the reserved attempt, if it exists, is allocation-only state
    and is removed. *)
Definition reclaim_journal (identity : string) (reservation : Reservation) : stM World string bool :=
  found ← st_try (state_metadata identity);
  match found with
  | Err e => mret (io_not_found e)
  | Ok metadata =>
      if negb ((me_kind metadata ≟ Kind_File) && (me_uid metadata =? 0) && (me_nlink metadata =? 1)
               && (N.land (me_mode metadata) 4095 =? 384))
      then mret false
      else
        input ← read_record_no_follow identity;
        match record_parse sha256_hash input with
        | Err _ => mret false
        | Ok record =>
            if negb (allocation_only record identity reservation) then mret false
            else
              current ← st_map_err io_message (state_metadata identity);
              if negb (same_file metadata current) then mret false
              else
                remove_state_file identity ≫= λ _,
                sync_state_root ≫= λ _,
                mret true
        end
  end.

Definition RESERVATION_BYTES : N := 4096.
(** The reservation, from a file that only the provider can have written. *)
Definition read_reservation (name : string) : stM World string (option (Metadata * Reservation)) :=
  directory ← open_state_root;
  if negb (me_uid directory =? 0) || negb (N.land (me_mode directory) 18 =? 0) then mret None
  else
    opened ← st_try (open_state_file name);
    match opened with
    | Err _ => mret None
    | Ok _ =>
        held ← opened_metadata name;
        if negb (me_kind held ≟ Kind_File) || negb (me_uid held =? 0) || negb (me_nlink held =? 1)
           || negb (N.land (me_mode held) 4095 =? 384) || (RESERVATION_BYTES <? me_len held)
        then mret None
        else
          input ← read_state_file name (RESERVATION_BYTES + 1);
          if over RESERVATION_BYTES input || negb (is_ok (reject_duplicate_json_keys input)) then mret None
          else mret (match from_slice (A := Reservation) input with Ok r => Some (held, r) | Err _ => None end)
    end.

Definition recover_account_reservation (name : string) : stM World string bool :=
  found ← read_reservation name;
  match found with
  | None => mret false
  | Some (held, reservation) =>
      if negb (reservation_ok reservation name) then mret false
      else
        lost ← owner_lost reservation;
        if negb lost then mret false
        else
          let identity := attempt_name reservation in
          free ← absent (state_metadata (identity +:+ ".new")%string);
          if negb free then mret false
          else
            unbound ← absent (cgroup_metadata identity);
            if negb unbound then mret false
            else
              journal ← reclaim_journal identity reservation;
              if negb journal then mret false
              else
                current ← st_map_err io_message (state_metadata name);
                if negb (same_file current held) then mret false
                else
                  remove_state_file name ≫= λ _,
                  sync_state_root ≫= λ _,
                  mret true
  end.

(** *** The passes over the state root *)
Fixpoint reservations_pass (entries : list DirEntry) (ambiguous : list string) : stM World string (list string) :=
  match entries with
  | [] => mret ambiguous
  | entry :: entries =>
      if is_reservation (de_name entry) then
        reclaimed ← recover_account_reservation (de_name entry);
        reservations_pass entries (if reclaimed : bool then ambiguous else ambiguous ++ [to_string_lossy (de_name entry)])
      else reservations_pass entries ambiguous
  end.

Fixpoint temporaries_pass (entries : list DirEntry) (ambiguous blocked : list string)
    : stM World string (list string * list string) :=
  match entries with
  | [] => mret (ambiguous, blocked)
  | entry :: entries =>
      match temporary_of (de_name entry) with
      | None => temporaries_pass entries ambiguous blocked
      | Some attempt =>
          recoverable ← interrupted_transition_is_recoverable attempt entry;
          if recoverable : bool then
            st_map_err (λ e, recovery_error ("interrupted transition rollback failed: " +:+ e)%string)
              (remove_state_file (de_name entry)) ≫= λ _,
            st_map_err recovery_error sync_state_root ≫= λ _,
            temporaries_pass entries ambiguous blocked
          else temporaries_pass entries (ambiguous ++ [de_name entry]) (blocked ++ [attempt])
      end
  end.

(** The end of an authenticated record: its boundary goes before it does. *)
Definition retire_record (identity : string) : stM World string () :=
  found ← st_try (cgroup_metadata identity);
  match found with
  | Ok metadata =>
      if me_kind metadata ≟ Kind_Dir then kill_and_retire_now identity
      else st_lift (Err (recovery_error ("authenticated boundary " +:+ identity +:+ " is not a directory")%string))
  | Err e => if io_not_found e then mret () else st_lift (Err (recovery_error (io_message e)))
  end ≫= λ _,
  remove_state_file identity.

(** What a record calls for. *)
Inductive record_fate : Type := Fate_Unknown | Fate_Private (authentic : bool) | Fate_Live | Fate_Dead.
Definition record_checks (identity : string) (blocked : list string) (entry : DirEntry) : stM World string record_fate :=
  if bool_decide (identity ∈ blocked) then mret Fate_Unknown
  else
    kind ← st_lift (de_type entry);
    if negb (kind ≟ Kind_File) then mret Fate_Unknown
    else
      record ← read_record_no_follow identity;
      if negb (integrity_valid record) || negb (names_attempt identity record) then mret Fate_Unknown
      else if begins PRIVATE_HEADER record then
        mret (Fate_Private (match record_parse sha256_hash record with
                            | Ok parsed => text (pa_attempt_id parsed) ≟ identity
                            | Err _ => false
                            end))
      else live ← frontend_is_live record; mret (if live : bool then Fate_Live else Fate_Dead).
(** Is its name authenticated, and is it left over. *)
Definition recover_record (identity : string) (blocked : list string) (entry : DirEntry) : stM World string (bool * bool) :=
  fate ← record_checks identity blocked entry;
  match fate with
  | Fate_Unknown => mret (false, true)
  | Fate_Private authentic => mret (authentic, true)
  | Fate_Live => mret (true, true)
  | Fate_Dead => retire_record identity ≫= λ _, mret (true, false)
  end.

Fixpoint records_pass (entries : list DirEntry) (blocked authenticated ambiguous : list string)
    : stM World string (list string * list string) :=
  match entries with
  | [] => mret (authenticated, ambiguous)
  | entry :: entries =>
      if is_reservation (de_name entry) || is_some (temporary_of (de_name entry)) then
        records_pass entries blocked authenticated ambiguous
      else
        match record_of (de_name entry) with
        | None => records_pass entries blocked authenticated (ambiguous ++ [to_string_lossy (de_name entry)])
        | Some attempt =>
            outcome ← recover_record attempt blocked entry;
            records_pass entries blocked
              (if outcome.1 : bool then authenticated ++ [de_name entry] else authenticated)
              (if outcome.2 : bool then ambiguous ++ [attempt] else ambiguous)
        end
  end.

Definition recover_records (authenticated ambiguous : list string) : stM World string (list string * list string) :=
  reservations ← read_state_root;
  ambiguous ← reservations_pass reservations ambiguous;
  entries ← read_state_root;
  passed ← temporaries_pass entries ambiguous [];
  records_pass entries passed.2 authenticated passed.1.

(** *** The cgroup root *)
Fixpoint inspect_entries (entries : list DirEntry) (authenticated ambiguous : list string) : result string (list string) :=
  match entries with
  | [] => Ok ambiguous
  | entry :: entries =>
      class ← map_err recovery_error (classify_attempt_root_entry entry);
      match class with
      | Root_KernelControl => inspect_entries entries authenticated ambiguous
      | Root_Attempt name =>
          inspect_entries entries authenticated
            (if bool_decide (name ∈ authenticated) then ambiguous else ambiguous ++ [to_string_lossy name])
      | Root_InvalidDirectory name =>
          Err (recovery_error ("invalid attempt directory " +:+ to_string_lossy name)%string)
      | Root_Unsafe name => Err (recovery_error ("unsafe cgroup entry " +:+ to_string_lossy name)%string)
      end
  end.
Definition inspect_cgroup_root (authenticated ambiguous : list string) : stM World string (list string) :=
  kind ← st_try cgroup_root_kind;
  match kind with
  | Ok kind =>
      if kind ≟ Kind_Dir then
        entries ← read_cgroup_root;
        st_lift (inspect_entries entries authenticated ambiguous)
      else st_lift (Err (recovery_error "cgroup root is not a no-follow directory"))
  | Err e => if io_not_found e then mret ambiguous else st_lift (Err (recovery_error (io_message e)))
  end.

(** [sort] and [dedup] *)
Definition sorted_names (l : list string) : list string := foldl (λ acc name, btree_insert name acc) [] l.
Definition recover_roots : stM World string (list string) :=
  kind ← st_try state_root_kind;
  found ← (match kind with
           | Ok kind =>
               if kind ≟ Kind_Dir then recover_records [] []
               else st_lift (Err (recovery_error "state root is not a no-follow directory"))
           | Err e => if io_not_found e then mret ([], []) else st_lift (Err (recovery_error (io_message e)))
           end);
  ambiguous ← inspect_cgroup_root found.1 found.2;
  mret (sorted_names ambiguous).
End Recover.

(** ** A host that nothing else changes *)

(** What the host was asked about the processes of attempts, in order: whether a
    process answers, and to kill the processes of a control group. *)
Inductive host_event : Type := Answered (pid : Z) (live : bool) | Killed (group : string).

(** [present] and [boundary]: the names in the state root and the directories in
    the cgroup root; [content]: what a regular name holds; [history]: the events
    so far. *)
Class QuietHost (World : Type) `{RecoveryHost World} : Type := {
  present : World → string → bool;
  boundary : World → string → bool;
  content : World → string → option (list u8);
  history : World → list host_event;
  moved_by (asked : list host_event) (w w' : World) : Prop :=
    (∀ n, present w' n = present w n) ∧ (∀ n, boundary w' n = boundary w n) ∧ (∀ n, content w' n = content w n)
    ∧ history w' = history w ++ asked;
  silent {E A} (m : stM World E A) : Prop := ∀ w w' r, m w = (w', r) → moved_by [] w w';
  reads_silent : silent state_root_kind ∧ silent cgroup_root_kind ∧ silent read_state_root ∧ silent read_cgroup_root
    ∧ (∀ n, silent (state_metadata n)) ∧ (∀ n, silent (cgroup_metadata n)) ∧ silent open_state_root ∧ silent sync_state_root
    ∧ (∀ n, silent (open_state_file n)) ∧ (∀ n, silent (opened_metadata n)) ∧ (∀ n k, silent (read_state_file n k));
  processes_silent : silent boot_id ∧ (∀ p, silent (process_start_time p))
    ∧ (∀ p, silent (E := string) (st_total (proc_entry_exists p)));
  groups_silent : (∀ n, silent (cgroup_inode n)) ∧ (∀ n, silent (read_events n))
    ∧ (∀ n, silent (read_procs n)) ∧ silent monotonic_nanos ∧ silent (E := string) (st_total instant_now)
    ∧ (∀ k, silent (E := string) (st_total (sleep_millis k)));
  signal_answers : ∀ p w w' live, signal_zero p w = (w', live) → moved_by [Answered p live] w w';
  kill_kills : ∀ n w w' r, write_kill n w = (w', r) → moved_by [Killed n] w w';
  state_listed : ∀ w w' es n, read_state_root w = (w', Ok es) → present w n = true → n ∈ de_name <$> es;
  groups_listed : ∀ w w' es n, read_cgroup_root w = (w', Ok es) → boundary w n = true →
    ∃ e, e ∈ es ∧ de_name e = n ∧ ∀ k, de_type e = Ok k → k = Kind_Dir;
  no_state_root : ∀ w w' e, state_root_kind w = (w', Err e) → io_not_found e = true → ∀ n, present w n = false;
  no_cgroup_root : ∀ w w' e, cgroup_root_kind w = (w', Err e) → io_not_found e = true → ∀ n, boundary w n = false;
  no_boundary : ∀ n w w' e, cgroup_metadata n w = (w', Err e) → io_not_found e = true → boundary w n = false;
  file_read : ∀ n k w w' b, read_state_file n k w = (w', Ok b) → ∃ l, content w n = Some l ∧ b = take (N.to_nat k) l;
  state_removed : ∀ n w w' r, remove_state_file n w = (w', r) →
    (∀ m, boundary w' m = boundary w m) ∧ (∀ m, m ≠ n → present w' m = present w m ∧ content w' m = content w m)
    ∧ (present w' n = true → present w n = true) ∧ (∀ l, content w' n = Some l → content w n = Some l)
    ∧ (r = Ok () → present w' n = false) ∧ history w' = history w;
  group_removed : ∀ n w w' r, remove_cgroup n w = (w', r) →
    (∀ m, present w' m = present w m ∧ content w' m = content w m) ∧ (∀ m, m ≠ n → boundary w' m = boundary w m)
    ∧ (boundary w' n = true → boundary w n = true) ∧ history w' = history w
}.

Section Laws.
Context (sha256_hash : list u8 → list u8).
Context `{SerdeJson} `{Deserialize PrivateAttemptRecordV4} `{Deserialize RuntimeAdmissionSnapshot}
  `{Deserialize (RuntimeAttemptBinding * VerifiedCheckpointV1)} `{Deserialize Reservation}.
Context {World : Type} `{QuietHost World}.

(** Nothing changed and nothing was killed; processes may have been asked for. *)
Definition idle (w w' : World) : Prop := ∃ asked, moved_by asked w w' ∧ ∀ n, Killed n ∉ asked.
Definition quiet {E A} (m : stM World E A) : Prop := ∀ w w' r, m w = (w', r) → idle w w'.
Lemma idle_same w w' : idle w w' →
  (∀ n, present w' n = present w n) ∧ (∀ n, boundary w' n = boundary w n) ∧ (∀ n, content w' n = content w n).
Proof. by intros (asked & (? & ? & ? & _) & _). Qed.
Lemma idle_present w w' n : idle w w' → present w' n = present w n.
Proof. intros Hi. apply (idle_same w w' Hi). Qed.
Lemma idle_boundary w w' n : idle w w' → boundary w' n = boundary w n.
Proof. intros Hi. apply (idle_same w w' Hi). Qed.
Lemma idle_content w w' n : idle w w' → content w' n = content w n.
Proof. intros Hi. apply (idle_same w w' Hi). Qed.
Lemma idle_refl (w : World) : idle w w.
Proof. exists []. split; [by unfold moved_by; rewrite app_nil_r|]. intros n ?%not_elem_of_nil. done. Qed.
Lemma idle_trans (w1 w2 w3 : World) : idle w1 w2 → idle w2 w3 → idle w1 w3.
Proof.
  intros (a & (A1 & A2 & A3 & A4) & NA) (b & (B1 & B2 & B3 & B4) & NB). exists (a ++ b). split.
  - split_and!; [intros n; congruence..|]. by rewrite B4, A4, (assoc_L (++)).
  - intros n [?|?]%elem_of_app; [by eapply NA|by eapply NB].
Qed.
Lemma silent_quiet {E A} (m : stM World E A) : silent m → quiet m.
Proof. intros Hm w w' r E0. exists []. split; [by eapply Hm|]. intros n ?%not_elem_of_nil. done. Qed.
Lemma reads_quiet : quiet state_root_kind ∧ quiet cgroup_root_kind ∧ quiet read_state_root ∧ quiet read_cgroup_root
  ∧ (∀ n, quiet (state_metadata n)) ∧ (∀ n, quiet (cgroup_metadata n)) ∧ quiet open_state_root ∧ quiet sync_state_root
  ∧ (∀ n, quiet (open_state_file n)) ∧ (∀ n, quiet (opened_metadata n)) ∧ (∀ n k, quiet (read_state_file n k)).
Proof. split_and!; intros; apply silent_quiet, reads_silent. Qed.
Lemma processes_quiet : (∀ p, quiet (E := string) (st_total (signal_zero p))) ∧ quiet boot_id ∧ (∀ p, quiet (process_start_time p))
  ∧ (∀ p, quiet (E := string) (st_total (proc_entry_exists p))).
Proof.
  split_and!; intros; try apply silent_quiet, processes_silent. intros w w' r. unfold st_total.
  destruct (signal_zero p w) as [w1 live] eqn:E0. intros [= <- <-]. exists [Answered p live].
  split; [by apply signal_answers|]. by intros n ?%list_elem_of_singleton.
Qed.
Lemma groups_quiet : (∀ n, quiet (cgroup_inode n)) ∧ (∀ n, quiet (read_events n))
  ∧ (∀ n, quiet (read_procs n)) ∧ quiet monotonic_nanos ∧ quiet (E := string) (st_total instant_now)
  ∧ (∀ k, quiet (E := string) (st_total (sleep_millis k))).
Proof. split_and!; intros; apply silent_quiet, groups_silent. Qed.

(** *** Computations that only look *)
Lemma quiet_ret {E A} (a : A) : quiet (E := E) (mret a).
Proof. intros w w' r [= <- <-]. apply idle_refl. Qed.
Lemma quiet_lift {E A} (x : result E A) : quiet (st_lift x).
Proof. intros w w' r [= <- <-]. apply idle_refl. Qed.
Lemma quiet_bind {E A B} (m : stM World E A) (k : A → stM World E B) : quiet m → (∀ a, quiet (k a)) → quiet (m ≫= k).
Proof.
  intros Hm Hk w w' r. unfold mbind, stM_bind. destruct (m w) as [w1 [a|e]] eqn:E1.
  - intros E2. eapply idle_trans; [by eapply Hm|by eapply Hk].
  - intros [= <- <-]. by eapply Hm.
Qed.
Lemma quiet_try {E F A} (m : stM World E A) : quiet m → quiet (st_try (F := F) m).
Proof. intros Hm w w' r. unfold st_try. destruct (m w) as [w1 x] eqn:E1. intros [= <- <-]. by eapply Hm. Qed.
Lemma quiet_map_err {E F A} (f : E → F) (m : stM World E A) : quiet m → quiet (st_map_err f m).
Proof. intros Hm w w' r. unfold st_map_err. destruct (m w) as [w1 x] eqn:E1. intros [= <- <-]. by eapply Hm. Qed.
Ltac quiet_steps :=
  repeat match goal with
  | |- ∀ _, _ => intros ?
  | |- quiet (mret _) => apply quiet_ret
  | |- quiet (st_lift _) => apply quiet_lift
  | |- quiet (st_try _) => apply quiet_try
  | |- quiet (st_map_err _ _) => apply quiet_map_err
  | |- quiet (_ ≫= _) => apply quiet_bind
  | |- quiet _ => first [apply reads_quiet | apply processes_quiet | apply groups_quiet]
  | |- quiet _ => case_match
  end.

Lemma quiet_open n : quiet (open_state_file n).
Proof. apply reads_quiet. Qed.
Lemma quiet_opened n : quiet (opened_metadata n).
Proof. apply reads_quiet. Qed.
Lemma quiet_metadata n : quiet (state_metadata n).
Proof. apply reads_quiet. Qed.
Lemma read_record_quiet n : quiet (read_record_no_follow n).
Proof. unfold read_record_no_follow. quiet_steps. Qed.
Lemma frontend_quiet record : quiet (frontend_is_live record).
Proof. unfold frontend_is_live, process_is_live. quiet_steps. Qed.
Lemma interrupted_checks_quiet n entry : quiet (interrupted_checks sha256_hash n entry).
Proof.
  unfold interrupted_checks. repeat first [apply read_record_quiet | apply frontend_quiet | progress quiet_steps].
Qed.
Lemma record_checks_quiet n blocked entry : quiet (record_checks sha256_hash n blocked entry).
Proof.
  unfold record_checks. repeat first [apply read_record_quiet | apply frontend_quiet | progress quiet_steps].
Qed.
Lemma owner_lost_quiet r : quiet (owner_lost r).
Proof. unfold owner_lost. quiet_steps. Qed.
Lemma read_reservation_quiet n : quiet (read_reservation n).
Proof. unfold read_reservation. quiet_steps. Qed.
Lemma absent_quiet lookup : quiet lookup → quiet (absent lookup).
Proof. intros Hl. unfold absent. by quiet_steps. Qed.
Lemma populated_quiet n : quiet (populated n).
Proof. unfold populated. quiet_steps. Qed.
Lemma members_quiet n : quiet (member_pids n).
Proof. unfold member_pids. quiet_steps. Qed.

(** *** What recovery may do *)

(** No process answered for the frontend the record names; [asked] is what the
    host was asked.  A record names its frontend until its first transition. *)
Definition dead (asked : list host_event) (b : list u8) : Prop := ∀ pid,
  (find_line "frontend-pid=" b ≫= λ v, parse_i32 (String.string_of_list_ascii v)) = Some pid →
  (pid <= 0)%Z ∨ Answered pid false ∈ asked.
(** The state root holds an authentic record of the attempt, which is not a
    private one and whose frontend was found dead. *)
Definition condemned (asked : list host_event) (w : World) (n : string) : Prop := ∃ b,
  content w n = Some b ∧ integrity_valid sha256_hash b = true ∧ names_attempt n b = true
  ∧ begins PRIVATE_HEADER b = false ∧ dead asked b.

Record progress (w w' : World) : Prop := {
  pg_present : ∀ n, present w' n = true → present w n = true;
  pg_boundary : ∀ n, boundary w' n = true → boundary w n = true;
  pg_content : ∀ n l, content w' n = Some l → content w n = Some l;
  pg_history : ∃ asked, history w' = history w ++ asked ∧
    ∀ before n after, asked = before ++ Killed n :: after → condemned (history w ++ before) w n;
  pg_killed : ∀ n, boundary w n = true → boundary w' n = false → Killed n ∈ history w';
  pg_removed : ∀ n, valid_attempt_identity n = true → present w n = true → present w' n = false → boundary w' n = false
}.
Lemma dead_later asked more b : dead asked b → dead (asked ++ more) b.
Proof. intros Hd pid Hp. destruct (Hd pid Hp) as [?|?]; [by left|right; by apply elem_of_app; left]. Qed.
Lemma condemned_before asked w w' n : (∀ n l, content w' n = Some l → content w n = Some l) →
  condemned asked w' n → condemned asked w n.
Proof. intros Hc (b & Hb & ?). exists b. auto. Qed.
Lemma progress_idle w w' : idle w w' → progress w w'.
Proof.
  intros (asked & (Hp & Hb & Hc & Hh) & Hk). split; try (intros n; rewrite ?Hp, ?Hb, ?Hc; intros; congruence).
  exists asked. split; [done|]. intros before n after ->. destruct (Hk n). apply elem_of_app. right. left.
Qed.
Lemma progress_refl w : progress w w.
Proof. apply progress_idle, idle_refl. Qed.
Lemma progress_trans w1 w2 w3 : progress w1 w2 → progress w2 w3 → progress w1 w3.
Proof.
  intros [A1 A2 A3 (a & Ha & A4) A5 A6] [B1 B2 B3 (b & Hb & B4) B5 B6]. split; [auto|auto|auto|..].
  - exists (a ++ b). split; [by rewrite Hb, Ha, (assoc_L (++))|]. rewrite Ha in B4.
    assert (∀ before n after, b = before ++ Killed n :: after → condemned (history w1 ++ a ++ before) w1 n) as B.
    { intros before n after E. rewrite (assoc_L (++)). eapply condemned_before; [exact A3|by eapply B4]. }
    intros before n after E. apply app_eq_app in E as [l [[-> E]|[-> E]]].
    + destruct l as [|x l]; cbn in E; [|by injection E as <- _; eapply A4].
      rewrite app_nil_r in B. specialize (B [] n after (eq_sym E)). by rewrite app_nil_r in B.
    + by eapply B.
  - intros n G1 G3. destruct (boundary w2 n) eqn:E; [auto|]. rewrite Hb. apply elem_of_app. left. auto.
  - intros n Hv G1 G3. destruct (present w2 n) eqn:E; [auto|].
    destruct (boundary w3 n) eqn:E3; [|done]. apply B2 in E3. rewrite (A6 n Hv G1 E) in E3. done.
Qed.

(** A computation that progresses from a world where [pre] holds, with what its
    value tells of the world it leaves. *)
Definition spec {E A} (pre : World → Prop) (m : stM World E A) (post : A → World → Prop) : Prop :=
  ∀ w w' r, pre w → m w = (w', r) → progress w w' ∧ ∀ a, r = Ok a → post a w'.

Lemma spec_bind {E A B} pre mid post (m : stM World E A) (k : A → stM World E B) :
  spec pre m mid → (∀ a, spec (mid a) (k a) post) → spec pre (m ≫= k) post.
Proof.
  intros Hm Hk w w' r Hw. unfold mbind, stM_bind. destruct (m w) as [w1 [a|e]] eqn:E1.
  - intros E2. destruct (Hm _ _ _ Hw E1) as [P1 Q1]. destruct (Hk a _ _ _ (Q1 a eq_refl) E2) as [P2 Q2].
    split; [by eapply progress_trans|done].
  - intros [= <- <-]. destruct (Hm _ _ _ Hw E1) as [P1 _]. by split.
Qed.
Lemma spec_quiet {E A} (pre : World → Prop) (m : stM World E A) :
  quiet m → (∀ w w', idle w w' → pre w → pre w') → spec pre m (λ _, pre).
Proof. intros Hq Hp w w' r Hw Hm%Hq. split; [by apply progress_idle|]. intros. by eapply Hp. Qed.
Lemma spec_ret {E A} pre (a : A) (post : A → World → Prop) : (∀ w, pre w → post a w) → spec (E := E) pre (mret a) post.
Proof. intros Hp w w' r Hw [= <- <-]. split; [apply progress_refl|]. intros ? [= <-]. auto. Qed.
Lemma spec_lift {E A} pre (x : result E A) (post : A → World → Prop) :
  (∀ a w, x = Ok a → pre w → post a w) → spec pre (st_lift x) post.
Proof. intros Hp w w' r Hw [= <- <-]. split; [apply progress_refl|]. intros a E0. auto. Qed.
Lemma spec_conseq {E A} (pre pre' : World → Prop) (m : stM World E A) (post post' : A → World → Prop) :
  spec pre m post → (∀ w, pre' w → pre w) → (∀ a w, post a w → post' a w) → spec pre' m post'.
Proof. intros Hm G1 G2 w w' r Hw E0. destruct (Hm w w' r (G1 w Hw) E0) as [? Hq]. eauto. Qed.

Lemma condemned_idle n w w' : idle w w' → condemned (history w) w n → condemned (history w') w' n.
Proof.
  intros (asked & (_ & _ & Hc & Hh) & _) (b & Hb & ? & ? & ? & Hd). exists b. rewrite Hc, Hh. split_and!; [done..|by apply dead_later].
Qed.
Lemma killed_idle n w w' : idle w w' → Killed n ∈ history w → Killed n ∈ history w'.
Proof. intros (asked & (_ & _ & _ & ->) & _) Hk. apply elem_of_app. by left. Qed.

Lemma unasked w w' n : history w' = history w → ∃ asked, history w' = history w ++ asked ∧
  ∀ before m after, asked = before ++ Killed m :: after → condemned (history w ++ before) n m.
Proof. intros Hh. exists []. split; [by rewrite app_nil_r|]. intros [|] ? ? ?; done. Qed.
Lemma spec_write_kill n : spec (λ w, condemned (history w) w n) (write_kill n) (λ _ w, Killed n ∈ history w).
Proof.
  intros w w' r Hj (Hp & Hb & Hc & Hh)%kill_kills. split; [|intros; rewrite Hh; apply elem_of_app; right; left].
  split; try (intros m; rewrite ?Hp, ?Hb, ?Hc; intros; congruence).
  exists [Killed n]. split; [done|]. intros before m after E. symmetry in E. apply app_eq_unit in E as [[-> E]|[-> E]]; [|done].
  injection E as <- _. by rewrite app_nil_r.
Qed.
Lemma spec_remove_cgroup n : spec (λ w, Killed n ∈ history w) (remove_cgroup n) (λ _ _, True).
Proof.
  intros w w' r Hj (Hs & Hb & Hn & Hh)%group_removed. split; [|done]. split.
  - intros m. by destruct (Hs m) as [-> _].
  - intros m. destruct (decide (m = n)) as [->|Hne]; [done|]. by rewrite Hb.
  - intros m l. by destruct (Hs m) as [_ ->].
  - by apply unasked.
  - intros m G1 G2. destruct (decide (m = n)) as [->|Hne]; [by rewrite Hh|]. rewrite Hb in G2 by done. congruence.
  - intros m _ G1 G2. destruct (Hs m) as [E _]. congruence.
Qed.
Lemma spec_remove_state n : spec (λ w, valid_attempt_identity n = true → boundary w n = false)
  (remove_state_file n) (λ _ w, present w n = false ∧ (valid_attempt_identity n = true → boundary w n = false)).
Proof.
  intros w w' r Hv (Hb & Hs & Hp & Hc & Hr & Hh)%state_removed. split.
  - split.
    + intros m. destruct (decide (m = n)) as [->|Hne]; [done|]. by destruct (Hs m Hne) as [-> _].
    + intros m. by rewrite Hb.
    + intros m l. destruct (decide (m = n)) as [->|Hne]; [auto|]. by destruct (Hs m Hne) as [_ ->].
    + by apply unasked.
    + intros m G1 G2. rewrite Hb in G2. congruence.
    + intros m Hvm G1 G2. rewrite Hb. destruct (decide (m = n)) as [->|Hne]; [auto|].
      destruct (Hs m Hne) as [E _]. congruence.
  - intros [] ->. split; [auto|]. rewrite Hb. done.
Qed.

Lemma spec_map_err {E F A} (f : E → F) pre (m : stM World E A) post : spec pre m post → spec pre (st_map_err f m) post.
Proof.
  intros Hm w w' r Hw. unfold st_map_err. destruct (m w) as [w1 x] eqn:E1. intros [= <- <-].
  destruct (Hm _ _ _ Hw E1) as [? Hq]. split; [done|]. intros a Ha. apply Hq. by apply map_err_Ok in Ha.
Qed.
(** A name that is looked up and not found has no boundary. *)
Lemma spec_lookup_boundary {F} n (pre : World → Prop) : (∀ w w', idle w w' → pre w → pre w') →
  spec pre (st_try (F := F) (cgroup_metadata n))
    (λ x w, pre w ∧ ∀ e, x = Err e → io_not_found e = true → boundary w n = false).
Proof.
  intros Hp w w' r Hw. unfold st_try. destruct (cgroup_metadata n w) as [w1 x] eqn:E1. intros [= <- <-].
  assert (quiet (cgroup_metadata n)) as Hq by apply reads_quiet. apply Hq in E1 as Hi.
  split; [by apply progress_idle|]. intros ? [= <-]. split; [by eapply Hp|].
  intros e -> He. rewrite (idle_boundary _ _ n Hi). by eapply no_boundary.
Qed.

Lemma spec_retire_empty n inode :
  spec (λ w, Killed n ∈ history w) (retire_empty n inode) (λ _ w, boundary w n = false).
Proof.
  pose proof (killed_idle n) as Hi. unfold retire_empty.
  eapply spec_bind; [apply spec_quiet; [apply members_quiet|exact Hi]|]. intros members.
  eapply spec_bind; [apply spec_quiet; [apply quiet_lift|exact Hi]|]. intros ?.
  eapply spec_bind; [apply spec_quiet; [apply groups_quiet|exact Hi]|]. intros empty_ns.
  eapply spec_bind; [apply spec_map_err, spec_remove_cgroup|]. intros ?.
  eapply spec_bind; [apply spec_quiet; [apply groups_quiet|done]|]. intros removed_ns.
  eapply spec_bind; [by apply (spec_lookup_boundary n (λ _, True))|]. intros after.
  eapply (spec_bind _ (λ _ w, boundary w n = false)); [apply spec_lift|intros ?; by apply spec_ret].
  intros [] w Hg%guard_err_Ok [_ Hb]. destruct after as [|e]; [done|]. apply (Hb e); [done|]. by destruct (io_not_found e).
Qed.
Lemma spec_retire_loop fuel n inode deadline : spec (λ w, Killed n ∈ history w) (retire_loop fuel n inode deadline)
  (λ x w, x ≠ None → boundary w n = false).
Proof.
  pose proof (killed_idle n) as Hi. induction fuel as [|fuel IH]; cbn [retire_loop]; [by apply spec_ret|].
  eapply spec_bind; [apply spec_quiet; [apply groups_quiet|exact Hi]|]. intros now. destruct (now <? deadline).
  - eapply spec_bind; [apply spec_quiet; [apply populated_quiet|exact Hi]|]. intros busy. destruct (negb busy).
    + eapply spec_bind; [apply spec_retire_empty|]. intros raw. by apply spec_ret.
    + eapply spec_bind; [apply spec_quiet; [apply groups_quiet|exact Hi]|]. intros ?. exact IH.
  - by apply spec_lift.
Qed.
Lemma spec_kill n : spec (λ w, condemned (history w) w n) (kill_and_retire_now n) (λ _ w, boundary w n = false).
Proof.
  pose proof (condemned_idle n) as Hi. unfold kill_and_retire_now, kill_and_retire, kill_and_retire_observed.
  eapply spec_bind; [apply spec_quiet; [apply groups_quiet|exact Hi]|]. intros now.
  eapply (spec_bind _ (λ _ w, boundary w n = false)); [|intros ?; by apply spec_ret].
  eapply spec_bind; [apply spec_quiet; [apply groups_quiet|exact Hi]|]. intros inode.
  eapply spec_bind; [apply spec_quiet; [apply quiet_lift|exact Hi]|]. intros ?.
  eapply spec_bind; [apply spec_write_kill|]. intros ?.
  eapply spec_bind; [apply spec_retire_loop|]. intros raw. apply spec_lift. intros x w ->%ok_or_Ok Hb. by apply Hb.
Qed.

Lemma spec_retire_boundary n : spec (λ w, condemned (history w) w n) (retire_boundary n) (λ _ _, True).
Proof.
  unfold retire_boundary. eapply spec_bind; [apply (spec_lookup_boundary n), condemned_idle|]. intros [metadata|e].
  - destruct (me_kind metadata ≟ Kind_Dir); [|by apply spec_ret].
    eapply spec_bind; [eapply spec_conseq; [apply spec_kill|by intros w [? _]|by intros]|]. intros ?. by apply spec_ret.
  - destruct (io_not_found e); [by apply spec_ret|by apply spec_lift].
Qed.
Lemma spec_retire_record n : spec (λ w, condemned (history w) w n) (retire_record n)
  (λ _ w, present w n = false ∧ (valid_attempt_identity n = true → boundary w n = false)).
Proof.
  unfold retire_record. eapply spec_bind; [apply (spec_lookup_boundary n), condemned_idle|]. intros found.
  eapply (spec_bind _ (λ _ w, boundary w n = false)).
  - destruct found as [metadata|e].
    + destruct (me_kind metadata ≟ Kind_Dir); [|by apply spec_lift].
      eapply spec_conseq; [apply spec_kill|by intros w [? _]|done].
    + destruct (io_not_found e) eqn:Ee; [|by apply spec_lift]. apply spec_ret. intros w [_ Hb]. by apply (Hb e).
  - intros ?. eapply spec_conseq; [apply spec_remove_state|by intros w Hb _|done].
Qed.

(** *** The checks condemn *)
Lemma take_whole (k : N) (b : list u8) : over k b = false → N.to_nat (k + 1) = S (N.to_nat k) ∧ (length b <= N.to_nat k)%nat.
Proof. unfold over. intros Hb%N.ltb_ge. lia. Qed.
Lemma read_record_content n w w' b : read_record_no_follow n w = (w', Ok b) → content w n = Some b ∧ idle w w'.
Proof.
  intros E0. split; [|by eapply read_record_quiet]. unfold read_record_no_follow in E0.
  apply stM_bind_Ok in E0 as (w1 & [] & G1 & E0). apply stM_bind_Ok in E0 as (w2 & md & G2 & E0).
  apply stM_bind_Ok in E0 as (w3 & [] & [-> _]%st_lift_Ok & E0). apply stM_bind_Ok in E0 as (w4 & b' & G3 & E0).
  apply stM_bind_Ok in E0 as (w5 & [] & [-> _]%st_lift_Ok & E0).
  apply stM_bind_Ok in E0 as (w6 & [] & [-> Ho%guard_err_Ok]%st_lift_Ok & E0). injection E0 as <- <-.
  assert (idle w w2) as Hc%(λ Hi, idle_content w w2 n Hi).
  { eapply idle_trans; [exact (quiet_map_err _ _ (quiet_open n) _ _ _ G1)|exact (quiet_map_err _ _ (quiet_opened n) _ _ _ G2)]. }
  unfold st_map_err in G3. destruct (read_state_file n _ w2) as [w7 x] eqn:Er. injection G3 as <- Hx.
  apply map_err_Ok in Hx. subst x. apply file_read in Er as (l & Hl & ->). rewrite <- Hc, Hl. f_equal.
  apply take_whole in Ho as [E1 Ho]. rewrite length_take in Ho. symmetry. apply take_ge. lia.
Qed.
Lemma frontend_dead b w w' : frontend_is_live b w = (w', Ok false) → dead (history w') b.
Proof.
  unfold frontend_is_live, dead. intros E0 pid Hp. rewrite Hp in E0. unfold process_is_live in E0.
  destruct (pid <=? 0)%Z eqn:El; [left; lia|right]. unfold st_total in E0.
  destruct (signal_zero pid w) as [w1 x] eqn:Es. injection E0 as <- <-.
  apply signal_answers in Es as (_ & _ & _ & ->). apply elem_of_app. right. left.
Qed.
Lemma begins_app p q l : begins (p ++ q) l = true → begins p l = true.
Proof.
  unfold begins. destruct (strip_prefix (p ++ q) l) as [r|] eqn:E0; [|done]. intros _.
  apply strip_prefix_Some in E0. rewrite <- app_assoc in E0. apply strip_prefix_Some in E0. by rewrite E0.
Qed.
Lemma older_private_false b : older_private b = false → begins PRIVATE_HEADER b = false.
Proof.
  unfold older_private. intros [_ Hb]%orb_false_iff. destruct (begins PRIVATE_HEADER b) eqn:E0; [|done].
  unfold PRIVATE_HEADER in E0. rewrite (assoc_L (++)) in E0. apply begins_app in E0. congruence.
Qed.

Lemma interrupted_condemns n entry w w' :
  interrupted_checks sha256_hash n entry w = (w', Ok true) → condemned (history w') w' n.
Proof.
  intros E0. pose proof (interrupted_checks_quiet n entry _ _ _ E0) as Hi. unfold interrupted_checks in E0.
  apply stM_bind_Ok in E0 as (w1 & cm & G1 & E0). destruct cm as [cm|]; [|done]. case_match; [done|].
  apply stM_bind_Ok in E0 as (w2 & tm & G2 & E0). apply stM_bind_Ok in E0 as (w3 & kind & [-> _]%st_lift_Ok & E0).
  case_match; [done|]. apply stM_bind_Ok in E0 as (w4 & canonical & G3 & E0). destruct canonical as [b|]; [|done].
  destruct (negb (integrity_valid sha256_hash b) || negb (names_attempt n b)) eqn:Eb; [done|].
  destruct (older_private b) eqn:Eo; [done|]. apply stM_bind_Ok in E0 as (w5 & live & G4 & E0). destruct live; [done|].
  unfold st_try in G3. destruct (read_record_no_follow n w2) as [w6 x] eqn:Er. injection G3 as <- ->.
  apply read_record_content in Er as [Hc _].
  assert (idle w w2) as Hw2.
  { eapply idle_trans; [exact (quiet_try _ (quiet_metadata n) _ _ _ G1)|exact (quiet_map_err _ _ (quiet_metadata _) _ _ _ G2)]. }
  assert (idle w5 w') as (asked & (_ & _ & _ & Hh) & _).
  { apply stM_bind_Ok in E0 as (w7 & interrupted & G5 & E0). injection E0 as <- _.
    exact (quiet_try _ (read_record_quiet _) _ _ _ G5). }
  exists b. bool_hyps. split_and!; [|done|done|by apply older_private_false|].
  - by rewrite (idle_content _ _ n Hi), <- (idle_content _ _ n Hw2).
  - rewrite Hh. apply dead_later. by eapply frontend_dead.
Qed.
Lemma record_condemns n blocked entry w w' :
  record_checks sha256_hash n blocked entry w = (w', Ok Fate_Dead) → condemned (history w') w' n.
Proof.
  intros E0. pose proof (record_checks_quiet n blocked entry _ _ _ E0) as Hi. unfold record_checks in E0.
  case_match; [done|]. apply stM_bind_Ok in E0 as (w1 & kind & [-> _]%st_lift_Ok & E0). case_match; [done|].
  apply stM_bind_Ok in E0 as (w2 & b & Er & E0).
  destruct (negb (integrity_valid sha256_hash b) || negb (names_attempt n b)) eqn:Eb; [done|].
  destruct (begins PRIVATE_HEADER b) eqn:Ep; [done|]. apply stM_bind_Ok in E0 as (w3 & live & G4 & E0).
  destruct live; [done|]. injection E0 as ->. apply read_record_content in Er as [Hc _].
  exists b. bool_hyps. split_and!; [by rewrite (idle_content _ _ n Hi)|done|done|done|by eapply frontend_dead].
Qed.

(** *** Names *)
Lemma valid_chars n : valid_attempt_identity n = true → str_len n = 32 ∧ Forall (λ b, hex_char b = true) (bytes n).
Proof. unfold valid_attempt_identity. intros [Hl%N.eqb_eq Hc]%andb_true_iff. split; [done|by apply forallb_Forall]. Qed.
Lemma valid_utf8 n : valid_attempt_identity n = true → to_str n = Some n ∧ to_string_lossy n = n.
Proof.
  intros [_ Hc]%valid_chars. assert (is_utf8 (bytes n) = true) as Hu by (by apply ascii_is_utf8, hex_is_ascii).
  unfold to_str, to_string_lossy. rewrite Hu, from_utf8_lossy_valid by done. split; [done|apply string_of_bytes].
Qed.
Lemma lossy_of_str n s : to_str n = Some s → s = n ∧ to_string_lossy n = n.
Proof.
  unfold to_str. destruct (is_utf8 (bytes n)) eqn:E0; [|done]. intros [= <-]. split; [done|].
  unfold to_string_lossy. rewrite from_utf8_lossy_valid by done. apply string_of_bytes.
Qed.
Lemma reservation_invalid n : is_reservation n = true → valid_attempt_identity n = false.
Proof.
  unfold is_reservation. destruct (to_str n) as [s|] eqn:E0; [|done]. apply lossy_of_str in E0 as [-> _]. cbn [is_some_and].
  intros [Hb _]%andb_true_iff. destruct (valid_attempt_identity n) eqn:Hv; [|done]. exfalso.
  apply valid_chars in Hv as [_ Hc]. unfold begins in Hb. destruct (strip_prefix _ _) as [rest|] eqn:E1; [|done].
  apply strip_prefix_Some in E1. rewrite E1 in Hc. apply Forall_app in Hc as [Hc _]. apply forallb_Forall in Hc.
  vm_compute in Hc. discriminate.
Qed.
Lemma temporary_invalid n attempt : temporary_of n = Some attempt → valid_attempt_identity n = false ∧ to_string_lossy n = n.
Proof.
  unfold temporary_of. intros (s & E0 & E1)%bind_Some. apply lossy_of_str in E0 as [-> Hl]. split; [|done].
  apply bind_Some in E1 as (rest & E1 & _). destruct (valid_attempt_identity n) eqn:Hv; [|done]. exfalso.
  apply valid_chars in Hv as [_ Hc]. unfold strip_suffix in E1. apply fmap_Some in E1 as (r & E1 & _).
  apply strip_prefix_Some in E1. apply (f_equal (@rev u8)) in E1. rewrite rev_involutive, rev_app_distr, rev_involutive in E1.
  rewrite E1 in Hc. apply Forall_app in Hc as [_ Hc]. apply forallb_Forall in Hc. vm_compute in Hc. discriminate.
Qed.
Lemma record_of_Some n attempt : record_of n = Some attempt → attempt = n ∧ valid_attempt_identity n = true.
Proof.
  unfold record_of. intros (s & E0 & E1)%bind_Some. apply lossy_of_str in E0 as [-> _].
  destruct (valid_attempt_identity n) eqn:E2; [by injection E1 as <-|done].
Qed.

(** *** Reservations *)
Lemma spec_quiet_true {E A} (m : stM World E A) : quiet m → spec (λ _, True) m (λ _ _, True).
Proof. intros Hq. by apply (spec_quiet (λ _, True)). Qed.
Lemma spec_absent n : spec (λ _, True) (absent (cgroup_metadata n)) (λ x w, x = true → boundary w n = false).
Proof.
  unfold absent. eapply spec_bind; [by apply (spec_lookup_boundary n (λ _, True))|]. intros found. apply spec_ret.
  intros w [_ Hb] Hx. destruct found as [|e]; [done|]. by apply (Hb e).
Qed.
Lemma spec_reclaim n r : spec (λ w, boundary w n = false) (reclaim_journal sha256_hash n r) (λ _ _, True).
Proof.
  assert (∀ w w' : World, idle w w' → boundary w n = false → boundary w' n = false) as Hi
    by (intros w w' Hi; by rewrite (idle_boundary _ _ n Hi)).
  unfold reclaim_journal. eapply spec_bind; [apply spec_quiet; [apply quiet_try, quiet_metadata|exact Hi]|].
  intros [metadata|e]; [|by apply spec_ret]. case_match; [by apply spec_ret|].
  eapply spec_bind; [apply spec_quiet; [apply read_record_quiet|exact Hi]|]. intros input.
  destruct (record_parse sha256_hash input) as [record|]; [|by apply spec_ret]. case_match; [by apply spec_ret|].
  eapply spec_bind; [apply spec_quiet; [apply quiet_map_err, quiet_metadata|exact Hi]|]. intros current.
  case_match; [by apply spec_ret|].
  eapply spec_bind; [eapply spec_conseq; [apply spec_remove_state|by intros w Hb _|by intros]|]. intros ?.
  eapply (spec_bind _ (λ _ _, True)); [|intros ?; by apply spec_ret].
  eapply spec_conseq; [apply spec_quiet_true, reads_quiet|done|done].
Qed.
Lemma spec_reservation n : is_reservation n = true →
  spec (λ _, True) (recover_account_reservation sha256_hash n) (λ x w, x = true → present w n = false).
Proof.
  intros Hr%reservation_invalid. unfold recover_account_reservation.
  eapply spec_bind; [apply spec_quiet_true, read_reservation_quiet|]. intros [[held r]|]; [|by apply spec_ret].
  case_match; [by apply spec_ret|]. eapply spec_bind; [apply spec_quiet_true, owner_lost_quiet|]. intros lost.
  case_match; [by apply spec_ret|]. cbv zeta.
  eapply spec_bind; [apply spec_quiet_true, absent_quiet, quiet_metadata|]. intros free. case_match; [by apply spec_ret|].
  eapply spec_bind; [eapply spec_conseq; [apply spec_absent|done|intros x w Hx; exact Hx]|]. intros unbound.
  destruct unbound; [|by apply spec_ret]. cbn [negb].
  eapply spec_bind; [eapply spec_conseq; [apply spec_reclaim|intros w Hb; by apply Hb|by intros]|]. intros journal.
  case_match; [by apply spec_ret|]. eapply spec_bind; [apply spec_quiet_true, quiet_map_err, quiet_metadata|]. intros current.
  case_match; [by apply spec_ret|].
  eapply spec_bind; [eapply spec_conseq; [apply spec_remove_state|by intros w _; rewrite Hr|intros x w [Hp _]; exact Hp]|].
  intros ?. eapply (spec_bind _ (λ _ w, present w n = false)); [|intros ?; by apply spec_ret].
  apply (spec_quiet (λ w, present w n = false)); [apply reads_quiet|]. intros w w' Hi. by rewrite (idle_present _ _ n Hi).
Qed.

(** *** The passes *)

(** One step and then the rest, with what the step says of the world between. *)
Lemma step_then {E A B} pre mid (m : stM World E A) (k : A → stM World E B) w w' r (Q : A → World → B → Prop) :
  spec pre m mid → pre w → (m ≫= k) w = (w', r) →
  (∀ a w1, mid a w1 → progress w w1 → k a w1 = (w', r) → progress w1 w' ∧ ∀ b, r = Ok b → Q a w1 b) →
  progress w w' ∧ ∀ b, r = Ok b → ∃ a w1, mid a w1 ∧ progress w1 w' ∧ Q a w1 b.
Proof.
  intros Hm Hw E0 Hk. unfold mbind, stM_bind in E0. destruct (m w) as [w1 [a|e]] eqn:E1.
  - destruct (Hm _ _ _ Hw E1) as [P1 M1]. destruct (Hk a w1 (M1 a eq_refl) P1 E0) as [P2 Q2].
    split; [by eapply progress_trans|]. intros b Hb. exists a, w1. auto.
  - injection E0 as <- <-. destruct (Hm _ _ _ Hw E1) as [P1 _]. by split.
Qed.

Definition listed (P : string → Prop) (es : list DirEntry) (w : World) (out : list string) : Prop :=
  ∀ e, e ∈ es → P (de_name e) → present w (de_name e) = true → to_string_lossy (de_name e) ∈ out.
Lemma reservations_pass_ok es ambiguous w w' r : reservations_pass sha256_hash es ambiguous w = (w', r) →
  progress w w' ∧ ∀ out, r = Ok out →
    ambiguous ⊆ out ∧ listed (λ n, is_reservation n = true) es w' out.
Proof.
  revert ambiguous w. induction es as [|e es IH]; intros ambiguous w; cbn [reservations_pass].
  { intros [= <- <-]. split; [apply progress_refl|]. intros out [= <-]. split; [done|]. intros ? ?%not_elem_of_nil. done. }
  destruct (is_reservation (de_name e)) eqn:Er.
  - intros E0. eapply step_then in E0 as [Hp Hq]; [split; [exact Hp|]|by apply spec_reservation|done|intros ? ? _ _; apply IH].
    intros out Hout. destruct (Hq out Hout) as (reclaimed & w1 & Hr & Hp1 & Hs & Hl).
    split; [destruct reclaimed; [done|]; etrans; [|exact Hs]; set_solver|].
    intros e' [->|He]%elem_of_cons He' Hpr; [|by apply Hl]. destruct reclaimed; [|apply Hs; set_solver].
    apply (pg_present _ _ Hp1) in Hpr. rewrite Hr in Hpr by done. done.
  - intros [Hp Hq]%IH. split; [done|]. intros out [Hs Hl]%Hq. split; [done|].
    intros e' [->|He]%elem_of_cons He' Hpr; [congruence|by apply Hl].
Qed.

Lemma spec_interrupted n entry : spec (λ _, True) (interrupted_transition_is_recoverable sha256_hash n entry) (λ _ _, True).
Proof.
  unfold interrupted_transition_is_recoverable.
  eapply (spec_bind _ (λ x w, x = true → condemned (history w) w n)).
  - intros w w' r _ E0. split; [by apply progress_idle; eapply interrupted_checks_quiet|].
    intros x -> ->. by eapply interrupted_condemns.
  - intros [|]; [|by apply spec_ret]. eapply spec_conseq; [apply spec_retire_boundary|intros w Hc; by apply Hc|done].
Qed.
Lemma spec_rollback n : valid_attempt_identity n = false →
  spec (λ _, True) (st_map_err (λ e, recovery_error ("interrupted transition rollback failed: " +:+ e)%string)
    (remove_state_file n)) (λ _ w, present w n = false).
Proof.
  intros Hv. apply spec_map_err.
  eapply spec_conseq; [apply spec_remove_state|by intros w0 _; rewrite Hv|by intros ? ? [? _]].
Qed.
Lemma spec_settle : spec (λ _, True) (st_map_err recovery_error sync_state_root) (λ _ _, True).
Proof. apply spec_quiet_true, quiet_map_err, reads_quiet. Qed.
Lemma temporaries_pass_ok es ambiguous blocked w w' r :
  temporaries_pass sha256_hash es ambiguous blocked w = (w', r) →
  progress w w' ∧ ∀ out, r = Ok out →
    ambiguous ⊆ out.1 ∧ listed (λ n, temporary_of n ≠ None) es w' out.1.
Proof.
  revert ambiguous blocked w. induction es as [|e es IH]; intros ambiguous blocked w; cbn [temporaries_pass].
  { intros [= <- <-]. split; [apply progress_refl|]. intros out [= <-]. split; [done|]. intros ? ?%not_elem_of_nil. done. }
  destruct (temporary_of (de_name e)) as [attempt|] eqn:Et.
  - apply temporary_invalid in Et as [Hv Hlossy]. intros E0.
    set (covered := λ b : list string * list string, ambiguous ⊆ b.1 ∧ listed (λ n, temporary_of n ≠ None) es w' b.1
                ∧ (present w' (de_name e) = true → de_name e ∈ b.1)).
    edestruct (step_then _ _ _ _ _ _ _ (λ _ _, covered) (spec_interrupted attempt e) I E0) as [Hp Hq]; [|split; [exact Hp|]]; cycle 1.
    + intros out Hout. destruct (Hq out Hout) as (rec & w1 & _ & Hp1 & Hs & Hl & Hgone). split; [exact Hs|].
      intros e' [->|He]%elem_of_cons He' Hpr; [|by apply Hl]. rewrite Hlossy. by apply Hgone.
    + intros recoverable w1 _ _ E1. clear E0. destruct recoverable.
      * edestruct (step_then _ _ _ _ _ _ _ (λ _ _ b, ambiguous ⊆ b.1 ∧ listed (λ n, temporary_of n ≠ None) es w' b.1)
          (spec_rollback _ Hv) I E1) as [Hp Hq]; [|split; [exact Hp|]]; cycle 1.
        { intros b Hb. destruct (Hq b Hb) as (? & w2 & Hgone & Hp2 & Hs & Hl). split_and!; [exact Hs|exact Hl|].
          intros Hpr. apply (pg_present _ _ Hp2) in Hpr. congruence. }
        intros ? w2 _ _ E2.
        edestruct (step_then _ _ _ _ _ _ _ (λ _ _ b, ambiguous ⊆ b.1 ∧ listed (λ n, temporary_of n ≠ None) es w' b.1)
          spec_settle I E2) as [Hp2 Hq2]; [intros ? ? _ _; apply IH|split; [exact Hp2|]].
        intros b Hb. destruct (Hq2 b Hb) as (? & w3 & _ & _ & Hs & Hl). by split.
      * apply IH in E1 as [Hp Hq]. split; [done|]. intros b Hb. destruct (Hq b Hb) as [Hs Hl].
        split_and!; [etrans; [|exact Hs]; set_solver|exact Hl|]. intros _. apply Hs. set_solver.
  - intros [Hp Hq]%IH. split; [done|]. intros out [Hs Hl]%Hq. split; [done|].
    intros e' [->|He]%elem_of_cons He' Hpr; [congruence|by apply Hl].
Qed.

Lemma spec_record n blocked entry : valid_attempt_identity n = true →
  spec (λ _, True) (recover_record sha256_hash n blocked entry)
    (λ o w, o.2 = false → present w n = false ∧ boundary w n = false).
Proof.
  intros Hv. unfold recover_record. eapply (spec_bind _ (λ x w, x = Fate_Dead → condemned (history w) w n)).
  - intros w w' r _ E0. split; [by apply progress_idle; eapply record_checks_quiet|].
    intros x -> ->. by eapply record_condemns.
  - intros [|authentic| |]; [by apply spec_ret..|].
    eapply spec_bind; [eapply spec_conseq; [apply spec_retire_record|intros w Hc; by apply Hc|intros a w Hx; exact Hx]|].
    intros ?. apply spec_ret. intros w [Hp Hb] _. auto.
Qed.

Definition plain (n : string) : Prop := is_reservation n = false ∧ temporary_of n = None.
Lemma records_pass_ok es blocked authenticated ambiguous w w' r :
  records_pass sha256_hash es blocked authenticated ambiguous w = (w', r) →
  progress w w' ∧ ∀ out, r = Ok out →
    ambiguous ⊆ out.2 ∧ listed plain es w' out.2
    ∧ ∀ n, n ∈ out.1 → n ∈ authenticated ∨ (boundary w' n = true → to_string_lossy n ∈ out.2).
Proof.
  revert authenticated ambiguous w. induction es as [|e es IH]; intros authenticated ambiguous w; cbn [records_pass].
  { intros [= <- <-]. split; [apply progress_refl|]. intros out [= <-]. split_and!; [done| |by left].
    intros ? ?%not_elem_of_nil. done. }
  destruct (is_reservation (de_name e) || is_some (temporary_of (de_name e))) eqn:Ex.
  { intros [Hp Hq]%IH. split; [done|]. intros out Hout. destruct (Hq out Hout) as (Hs & Hl & Ha). split_and!; [done| |done].
    intros e' [->|He]%elem_of_cons [Hr Ht] Hpr; [|by apply Hl]. by rewrite Hr, Ht in Ex. }
  destruct (record_of (de_name e)) as [attempt|] eqn:Er.
  - apply record_of_Some in Er as [-> Hv]. destruct (valid_utf8 _ Hv) as [_ Hlossy]. intros E0.
    edestruct (step_then _ _ _ _ _ _ _ (λ (o : bool * bool) (_ : World) (out : list string * list string),
      (if o.2 then ambiguous ++ [de_name e] else ambiguous) ⊆ out.2 ∧ listed plain es w' out.2
      ∧ ∀ n, n ∈ out.1 → n ∈ (if o.1 then authenticated ++ [de_name e] else authenticated)
             ∨ (boundary w' n = true → to_string_lossy n ∈ out.2)) (spec_record _ blocked e Hv) I E0) as [Hp Hq];
      [intros ? ? _ _; apply IH|]. split; [exact Hp|].
    intros out Hout. destruct (Hq out Hout) as ([a l] & w1 & Hgone & Hp1 & Hs & Hl & Ha). cbn [fst snd] in *.
    assert (l = true → de_name e ∈ out.2) as Hleft by (intros ->; apply Hs; set_solver).
    assert (boundary w' (de_name e) = true → de_name e ∈ out.2) as Hb.
    { destruct l; [auto|]. intros Hb%(pg_boundary _ _ Hp1). destruct (Hgone eq_refl). congruence. }
    split_and!; [destruct l; [etrans; [|exact Hs]; set_solver|done]| |].
    + intros e' [->|He]%elem_of_cons Hx Hpr; [|by apply Hl]. rewrite Hlossy. destruct l; [auto|].
      apply (pg_present _ _ Hp1) in Hpr. destruct (Hgone eq_refl). congruence.
    + intros n [Hn|Hn]%Ha; [|by right]. destruct a; [|by left]. apply elem_of_app in Hn as [Hn| ->%list_elem_of_singleton]; [by left|].
      right. by rewrite Hlossy.
  - intros [Hp Hq]%IH. split; [done|]. intros out Hout. destruct (Hq out Hout) as (Hs & Hl & Ha).
    split_and!; [etrans; [|exact Hs]; set_solver| |done].
    intros e' [->|He]%elem_of_cons Hx Hpr; [|by apply Hl]. apply Hs. set_solver.
Qed.

(** Everything still in the state root is reported, and so is every boundary of
    an authenticated name. *)
Lemma recover_records_ok w w' r : recover_records sha256_hash [] [] w = (w', r) →
  progress w w' ∧ ∀ out, r = Ok out →
    (∀ n, present w' n = true → to_string_lossy n ∈ out.2)
    ∧ ∀ n, n ∈ out.1 → boundary w' n = true → to_string_lossy n ∈ out.2.
Proof.
  assert (quiet read_state_root) as Hq by apply reads_quiet. unfold recover_records, mbind, stM_bind.
  destruct (read_state_root w) as [w1 [es1|e]] eqn:E1; [|intros [= <- <-]; split; [by apply progress_idle, (Hq _ _ _ E1)|done]].
  pose proof (progress_idle _ _ (Hq _ _ _ E1)) as P1.
  destruct (reservations_pass _ es1 [] w1) as [w2 [amb|e]] eqn:E2; pose proof (reservations_pass_ok _ _ _ _ _ E2) as [P2 R2];
    [|intros [= <- <-]; split; [by eapply progress_trans|done]].
  destruct (read_state_root w2) as [w3 [es|e]] eqn:E3; pose proof (progress_idle _ _ (Hq _ _ _ E3)) as P3;
    [|intros [= <- <-]; split; [by do 2 (eapply progress_trans; [eassumption|])|done]].
  destruct (temporaries_pass _ es amb [] w3) as [w4 [passed|e]] eqn:E4; pose proof (temporaries_pass_ok _ _ _ _ _ _ E4) as [P4 R4];
    [|intros [= <- <-]; split; [by do 3 (eapply progress_trans; [eassumption|])|done]].
  intros E5. pose proof (records_pass_ok _ _ _ _ _ _ _ E5) as [P5 R5].
  split; [by do 4 (eapply progress_trans; [eassumption|])|]. intros out Hout.
  destruct (R2 amb eq_refl) as [_ L2]. destruct (R4 passed eq_refl) as [S4 L4]. destruct (R5 out Hout) as (S5 & L5 & A5).
  split; [|intros n Hn; destruct (A5 n Hn) as [Hx|Hx]; [by apply not_elem_of_nil in Hx|done]].
  intros n Hpr. pose proof (pg_present _ _ P5 _ Hpr) as Hp4. pose proof (pg_present _ _ P4 _ Hp4) as Hp3.
  pose proof (pg_present _ _ P3 _ Hp3) as Hp2. pose proof (pg_present _ _ P2 _ Hp2) as Hp1. pose proof (pg_present _ _ P1 _ Hp1) as Hp0.
  apply (state_listed _ _ _ _ E1) in Hp0 as (e1 & -> & He1)%list_elem_of_fmap.
  destruct (is_reservation (de_name e1)) eqn:Er; [by apply S5, S4, (L2 e1)|].
  apply (state_listed _ _ _ _ E3) in Hp2 as (e3 & Hn & He3)%list_elem_of_fmap. rewrite Hn in *.
  destruct (temporary_of (de_name e3)) eqn:Et; [apply S5, (L4 e3); [done|congruence|done]|]. by apply (L5 e3).
Qed.

Lemma inspect_entries_ok es authenticated ambiguous out : inspect_entries es authenticated ambiguous = Ok out →
  ambiguous ⊆ out ∧ ∀ e, e ∈ es → (∀ k, de_type e = Ok k → k = Kind_Dir) → de_name e ∉ authenticated →
                        to_string_lossy (de_name e) ∈ out.
Proof.
  revert ambiguous. induction es as [|e es IH]; intros ambiguous; cbn [inspect_entries].
  { intros [= <-]. split; [done|]. intros ? ?%not_elem_of_nil. done. }
  intros (class & Hc%map_err_Ok & E0)%bind_Ok. unfold classify_attempt_root_entry in Hc.
  apply bind_Ok in Hc as (kind & Hk & Hc). apply (inj Ok) in Hc. subst class.
  destruct kind; [| |done].
  - apply IH in E0 as [Hs Hl]. split; [done|]. intros e' [->|He]%elem_of_cons Hd Hn; [|by apply Hl].
    by apply Hd in Hk.
  - destruct (is_some_and _ _); [|done]. apply IH in E0 as [Hs Hl].
    split; [case_bool_decide; [done|]; etrans; [|exact Hs]; set_solver|].
    intros e' [->|He]%elem_of_cons Hd Hn; [|by apply Hl]. rewrite bool_decide_false in Hs by done. apply Hs. set_solver.
Qed.
Lemma inspect_root_ok authenticated ambiguous w w' r : inspect_cgroup_root authenticated ambiguous w = (w', r) →
  idle w w' ∧ ∀ out, r = Ok out →
    ambiguous ⊆ out ∧ ∀ n, boundary w' n = true → n ∉ authenticated → to_string_lossy n ∈ out.
Proof.
  intros E0. assert (idle w w') as Hi.
  { revert E0. generalize dependent r. enough (quiet (inspect_cgroup_root authenticated ambiguous)) as Hq by (intros; by eapply Hq).
    unfold inspect_cgroup_root. quiet_steps. }
  split; [done|]. intros out ->. unfold inspect_cgroup_root in E0. apply stM_bind_Ok in E0 as (w1 & kind & G1 & E0).
  unfold st_try in G1. destruct (cgroup_root_kind w) as [w2 x] eqn:Ek. injection G1 as <- <-.
  assert (idle w w2) as Hi2 by (assert (quiet cgroup_root_kind) as Hq by apply reads_quiet; by eapply Hq).
  pose proof (λ n, idle_boundary _ _ n Hi) as Hb. destruct x as [kind|e].
  - destruct (kind ≟ Kind_Dir); [|done]. apply stM_bind_Ok in E0 as (w3 & es & G2 & [-> E0]%st_lift_Ok).
    apply inspect_entries_ok in E0 as [Hs Hl]. split; [done|]. intros n Hn Ha. rewrite Hb in Hn.
    rewrite <- (idle_boundary _ _ n Hi2) in Hn.
    destruct (groups_listed _ _ _ _ G2 Hn) as (e & He & <- & Hd). by apply Hl.
  - destruct (io_not_found e) eqn:En; [|done]. injection E0 as <- <-. split; [done|]. intros n Hn. rewrite Hb in Hn.
    by rewrite (no_cgroup_root _ _ _ Ek En) in Hn.
Qed.

Lemma recover_roots_ok w w' r : recover_roots sha256_hash w = (w', r) →
  progress w w' ∧ ∀ left, r = Ok left →
    ∀ n, present w' n = true ∨ boundary w' n = true → to_string_lossy n ∈ left.
Proof.
  unfold recover_roots, mbind, stM_bind, st_try. destruct (state_root_kind w) as [w1 kind] eqn:E1.
  assert (idle w w1) as Hi1 by (assert (quiet state_root_kind) as Hq by apply reads_quiet; by eapply Hq).
  pose proof (progress_idle _ _ Hi1) as P1.
  set (scan := match kind with Ok _ => _ | Err _ => _ end).
  destruct (scan w1) as [w2 found] eqn:E2.
  assert (progress w1 w2 ∧ ∀ out, found = Ok out → (∀ n, present w2 n = true → to_string_lossy n ∈ out.2)
            ∧ ∀ n, n ∈ out.1 → boundary w2 n = true → to_string_lossy n ∈ out.2) as [P2 R2].
  { unfold scan in E2. destruct kind as [kind|e].
    - destruct (kind ≟ Kind_Dir); [by apply recover_records_ok|]. injection E2 as <- <-. split; [apply progress_refl|done].
    - destruct (io_not_found e) eqn:En; injection E2 as <- <-; (split; [apply progress_refl|]); [|done].
      intros out [= <-]. split; [|by intros n ?%not_elem_of_nil]. intros n Hn.
      rewrite (idle_present _ _ n Hi1), (no_state_root _ _ _ E1 En) in Hn. done. }
  destruct found as [[authenticated ambiguous]|e]; [|intros [= <- <-]; split; [by eapply progress_trans|done]].
  destruct (R2 _ eq_refl) as [Lp Lb]. cbn [fst snd] in *.
  destruct (inspect_cgroup_root authenticated ambiguous w2) as [w3 [out|e]] eqn:E3;
    apply inspect_root_ok in E3 as [Hi3 R3]; intros [= <- <-];
    (split; [eapply progress_trans; [exact P1|]; eapply progress_trans; [exact P2|by apply progress_idle]|]); [|done].
  intros left [= <-] n Hn. unfold sorted_names. rewrite btree_foldl_elem. left.
  destruct (R3 out eq_refl) as [Hs Hl]. destruct Hn as [Hn|Hn].
  - rewrite (idle_present _ _ n Hi3) in Hn. by apply Hs, Lp.
  - destruct (decide (n ∈ authenticated)) as [Ha|Ha]; [|by apply Hl]. rewrite (idle_boundary _ _ n Hi3) in Hn. by apply Hs, (Lb n).
Qed.
End Laws.

(** *** The wait for an empty boundary ends *)
Class HostClock (World : Type) `{RecoveryHost World} : Type := {
  clock : World → N;
  now_reads : ∀ w w' t, instant_now w = (w', t) → clock w <= t ∧ t <= clock w';
  events_take_time : ∀ n w w' r, read_events n w = (w', r) → clock w <= clock w';
  sleep_lasts : ∀ k w w' u, sleep_millis k w = (w', u) → clock w + k * 10 ^ 6 <= clock w'
}.

Section Recovered.
Context (sha256_hash : list u8 → list u8).
Context `{SerdeJson} `{Deserialize PrivateAttemptRecordV4} `{Deserialize RuntimeAdmissionSnapshot}
  `{Deserialize (RuntimeAttemptBinding * VerifiedCheckpointV1)} `{Deserialize Reservation}.
Context {World : Type} `{QuietHost World}.

(** With a clock that advances while the provider sleeps, ten seconds are over
    within [POLLS] polls: the loop answers or refuses. *)
Lemma retire_loop_ends `{!HostClock World} fuel n inode deadline w w' r :
  deadline <= clock w + N.of_nat fuel * 10 ^ 7 →
  retire_loop (S fuel) n inode deadline w = (w', r) → r ≠ Ok None.
Proof.
  revert w. induction fuel as [|fuel IH]; intros w Hd; cbn [retire_loop]; unfold mbind, stM_bind, st_total;
    destruct (instant_now w) as [w1 now] eqn:En; pose proof (now_reads _ _ _ En) as [Hn1 Hn2].
  - replace (now <? deadline) with false by lia. by intros [= <- <-].
  - destruct (now <? deadline); [|by intros [= <- <-]].
    destruct (populated n w1) as [w2 [busy|e]] eqn:Ep; [|by intros [= <- <-]].
    assert (clock w1 <= clock w2) as Hc.
    { unfold populated, mbind, stM_bind in Ep. destruct (read_events n w1) as [w3 [v|e]] eqn:Er;
        apply events_take_time in Er; by injection Ep as <- _. }
    destruct (negb busy).
    + destruct (retire_empty n inode w2) as [w3 [raw|e]]; by intros [= <- <-].
    + destruct (sleep_millis 10 w2) as [w3 u] eqn:Es. apply sleep_lasts in Es. apply IH. lia.
Qed.

(** C17: recovery reports whatever is left.  When recovery succeeds, every name that is still in the state root, whether
    a record, an interrupted transition, an account reservation or a stranger, and every boundary that still exists is
    in its answer; an empty answer means that nothing of an earlier provider is left. *)
Theorem recovery_reports_leftovers w w' left :
  recover_roots sha256_hash w = (w', Ok left) →
  (∀ n, present w' n = true ∨ boundary w' n = true → to_string_lossy n ∈ left)
  ∧ (left = [] → ∀ n, present w' n = false ∧ boundary w' n = false).
Proof.
  intros E0. pose proof (proj2 (recover_roots_ok sha256_hash w w' _ E0) left eq_refl) as Hl. split; [done|]. intros -> n.
  destruct (present w' n) eqn:Ep, (boundary w' n) eqn:Eb; try done; exfalso;
    by apply (not_elem_of_nil (to_string_lossy n)), Hl; auto.
Qed.

(** C16: recovery kills only what it is entitled to, also when it fails half-way
    ([history] counts from its start).  Whenever it writes to the kill file of a boundary, the state root held, when
    recovery began, an authentic record of the public kind under that name, and
    if the record names a frontend, that process had been asked for before the
    write and did not answer.  A record names its frontend as long as it is the
    one its attempt was allocated with: such an attempt is killed only after
    exactly that process was found dead.  (A record past allocation names none,
    and its boundary is killed on the record alone.)  A boundary is gone only if
    it was killed; an attempt's record is gone only when its boundary is; and
    recovery creates neither names nor boundaries. *)
Theorem recovery_spares_the_living w w' r :
  history w = [] → recover_roots sha256_hash w = (w', r) →
  (∀ before n after, history w' = before ++ Killed n :: after → condemned sha256_hash before w n)
  ∧ (∀ before n after pid envelope, history w' = before ++ Killed n :: after →
       validate_identity n envelope = Ok () → (0 < pid < 2 ^ 31)%Z →
       content w n = Some (record_text sha256_hash (fields_text (allocated_fields n pid envelope))) →
       Answered pid false ∈ before)
  ∧ (∀ n, boundary w n = true → boundary w' n = false → Killed n ∈ history w')
  ∧ (∀ n, valid_attempt_identity n = true → present w n = true → present w' n = false → boundary w' n = false)
  ∧ (∀ n, present w' n = true → present w n = true) ∧ (∀ n, boundary w' n = true → boundary w n = true).
Proof.
  intros Hw E0. destruct (recover_roots_ok sha256_hash w w' r E0) as [[Hp Hb _ (asked & Hh & Hk) Hg Hr] _].
  rewrite Hw in Hh, Hk. cbn [app] in Hh, Hk. rewrite Hh in *. split_and!; try done.
  intros before n after pid envelope Ha Hid Hpid Hc. destruct (Hk _ _ _ Ha) as (b & Hb' & _ & _ & _ & Hd).
  rewrite Hb' in Hc. injection Hc as ->. destruct (Hd pid) as [?|?]; [by eapply allocated_frontend|lia|done].
Qed.
End Recovered.

Module RecoveryExamples.
Import RegistryExamples.
#[local] Instance any_json : SerdeJson := {| json_of := λ _, Ok JNull |}.
#[local] Instance no_private : Deserialize PrivateAttemptRecordV4 := {| from_slice := λ _, Err "unused"%string |}.
#[local] Instance no_snapshot : Deserialize RuntimeAdmissionSnapshot := {| from_slice := λ _, Err "unused"%string |}.
#[local] Instance no_checkpoint : Deserialize (RuntimeAttemptBinding * VerifiedCheckpointV1) :=
  {| from_slice := λ _, Err "unused"%string |}.
#[local] Instance no_reservation : Deserialize Reservation := {| from_slice := λ _, Err "unused"%string |}.

(** Files, boundaries and a clock; process 7 is alive. *)
Record room : Type := {
  rm_files : list (string * list u8); rm_groups : list string; rm_time : N; rm_history : list host_event
}.
Definition file (w : room) (n : string) : option (list u8) := snd <$> List.find (λ e, String.eqb e.1 n) (rm_files w).
Definition without_file (n : string) (w : room) : room :=
  {| rm_files := List.filter (λ e, negb (String.eqb e.1 n)) (rm_files w); rm_groups := rm_groups w; rm_time := rm_time w; rm_history := rm_history w |}.
Definition without_group (n : string) (w : room) : room :=
  {| rm_files := rm_files w; rm_groups := List.filter (λ g, negb (String.eqb g n)) (rm_groups w); rm_time := rm_time w; rm_history := rm_history w |}.
Definition noted (e : host_event) (w : room) : room :=
  {| rm_files := rm_files w; rm_groups := rm_groups w; rm_time := rm_time w; rm_history := rm_history w ++ [e] |}.
Definition later (k : N) (w : room) : room :=
  {| rm_files := rm_files w; rm_groups := rm_groups w; rm_time := rm_time w + k; rm_history := rm_history w |}.
Definition plain_file (l : list u8) : Metadata :=
  {| me_kind := Kind_File; me_uid := 0; me_nlink := 1; me_mode := 384; me_len := N.of_nat (length l); me_dev := 1;
     me_ino := 1; me_mtime := 0; me_mtime_nsec := 0 |}.
Definition directory : Metadata :=
  {| me_kind := Kind_Dir; me_uid := 0; me_nlink := 1; me_mode := 448; me_len := 0; me_dev := 1; me_ino := 1;
     me_mtime := 0; me_mtime_nsec := 0 |}.
Definition missing : io_error := {| io_not_found := true; io_message := "No such file" |}.

#[local] Instance room_host : RecoveryHost room := {|
  state_root_kind w := (w, Ok Kind_Dir);
  cgroup_root_kind w := (w, Ok Kind_Dir);
  read_state_root w := (w, Ok ((λ e, {| de_name := e.1; de_type := Ok Kind_File |}) <$> rm_files w));
  read_cgroup_root w := (w, Ok ((λ g, {| de_name := g; de_type := Ok Kind_Dir |}) <$> rm_groups w));
  state_metadata n w := (w, ok_or missing (plain_file <$> file w n));
  cgroup_metadata n w := (w, if bool_decide (n ∈ rm_groups w) then Ok directory else Err missing);
  open_state_root w := (w, Ok directory);
  sync_state_root w := (w, Ok ());
  open_state_file n w := (w, Ok ());
  opened_metadata n w := (w, ok_or "gone"%string (plain_file <$> file w n));
  read_state_file n k w := (w, ok_or "gone"%string (take (N.to_nat k) <$> file w n));
  remove_state_file n w := (without_file n w, Ok ());
  signal_zero pid w := (noted (Answered pid (pid =? 7)%Z) w, (pid =? 7)%Z);
  boot_id w := (w, Ok "boot"%string);
  process_start_time _ w := (w, Ok 1);
  proc_entry_exists _ w := (w, false);
  cgroup_inode _ w := (w, Ok 5);
  write_kill n w := (noted (Killed n) w, Ok ());
  read_events _ w := (w, Ok (bytes "populated 0" ++ [LF]));
  read_procs _ w := (w, Ok []);
  remove_cgroup n w := (without_group n w, Ok ());
  monotonic_nanos w := (w, Ok (rm_time w));
  instant_now w := (w, rm_time w);
  sleep_millis k w := (later (k * 10 ^ 6) w, ())
|}.

Lemma file_without n m w : file (without_file n w) m = if String.eqb m n then None else file w m.
Proof.
  unfold file, without_file. cbn [rm_files]. induction (rm_files w) as [|[k l] fs IH]; cbn; [by destruct (m =? n)%string|].
  destruct (String.eqb_spec k n) as [->|Hk]; cbn.
  - rewrite IH. destruct (String.eqb_spec m n) as [->|Hm]; [done|]. by destruct (String.eqb_spec n m).
  - destruct (String.eqb_spec k m) as [->|Hkm]; [|done]. by destruct (String.eqb_spec m n).
Qed.
Lemma group_without n m w : m ∈ rm_groups (without_group n w) ↔ m ≠ n ∧ m ∈ rm_groups w.
Proof.
  unfold without_group. cbn [rm_groups]. rewrite !list_elem_of_In, filter_In.
  destruct (String.eqb_spec m n); cbn; naive_solver.
Qed.
Lemma file_listed n w : is_some (file w n) = true → n ∈ (rm_files w).*1.
Proof.
  unfold file. induction (rm_files w) as [|[k l] fs IH]; cbn; [done|]. destruct (String.eqb_spec k n); [subst; left|by right; apply IH].
Qed.

#[local] Instance room_quiet : QuietHost room.
Proof.
  refine {| present := λ w n, is_some (file w n); boundary := λ w n, bool_decide (n ∈ rm_groups w); content := file;
            history := rm_history |}.
  all: cbn.
  1-3: split_and!; intros; match goal with E0 : _ = (_, _) |- _ => injection E0 as <- <- end;
    split_and!; cbn; by rewrite ?app_nil_r.
  1-2: intros; match goal with E0 : _ = (_, _) |- _ => injection E0 as <- <- end; by split_and!.
  - intros w w' es n E0 Hn. injection E0 as <- <-. apply file_listed in Hn.
    apply list_elem_of_fmap in Hn as (f & -> & Hf). apply list_elem_of_fmap. eexists. split; [|by apply list_elem_of_fmap; exists f].
    done.
  - intros w w' es n E0 Hn. injection E0 as <- <-. bool_hyps. eexists. split; [by apply list_elem_of_fmap; exists n|].
    split; [done|]. by intros k [= <-].
  - done.
  - done.
  - intros n w w' e E0 He. injection E0 as <- E1. by case_bool_decide.
  - intros n k w w' b E0. injection E0 as <- E1. destruct (file w n) as [l|]; [|done]. injection E1 as <-. eauto.
  - intros n w w' r E0. injection E0 as <- <-. split_and!; [done|..]; intros; rewrite ?file_without in *.
    + by destruct (String.eqb_spec m n).
    + by rewrite String.eqb_refl in *.
    + by rewrite String.eqb_refl in *.
    + by rewrite String.eqb_refl.
    + done.
  - intros n w w' r E0. injection E0 as <- <-. split_and!; [done|..|done].
    + intros m Hm. apply bool_decide_ext. rewrite group_without. naive_solver.
    + intros Hb. bool_hyps. apply group_without in Hb as [? _]. done.
Defined.
#[local] Instance room_clock : HostClock room.
Proof.
  refine {| clock := rm_time |}; cbn; intros.
  - match goal with E0 : _ = (_, _) |- _ => injection E0 as <- <- end. lia.
  - match goal with E0 : _ = (_, _) |- _ => injection E0 as <- <- end. lia.
  - match goal with E0 : _ = (_, _) |- _ => injection E0 as <- <- end. cbn. lia.
Defined.

(** Three attempts: one whose provider died during a transition, one whose
    frontend lives, and a boundary without a record. *)
Definition gone : string := "00000000000000000000000000000001".
Definition running : string := "00000000000000000000000000000002".
Definition stray : string := "00000000000000000000000000000003".
Definition allocated_text (n : string) (pid : Z) : list u8 := record_text hash (fields_text (allocated_fields n pid None)).
Definition left_behind : room := {|
  rm_files := [(gone, allocated_text gone 41); ((gone +:+ ".new")%string, bytes "version=1");
               (running, allocated_text running 7)];
  rm_groups := [gone; running; stray]; rm_time := 0; rm_history := [] |}.
Definition recovered : room :=
  {| rm_files := [(running, allocated_text running 7)]; rm_groups := [running; stray]; rm_time := 0;
     rm_history := [Answered 41 false; Killed gone; Answered 41 false; Answered 7 true] |}.
Example recovery_runs : recover_roots hash left_behind = (recovered, Ok [running; stray]).
Proof. vm_compute. reflexivity. Qed.

Lemma recovery_reports_leftovers_witness : to_string_lossy stray ∈ [running; stray].
Proof.
  apply (proj1 (recovery_reports_leftovers hash left_behind recovered [running; stray] recovery_runs) stray).
  right. reflexivity.
Defined.
Lemma recovery_spares_the_living_witness :
  condemned hash [Answered 41 false] left_behind gone ∧ Answered 41 false ∈ [Answered 41 false].
Proof.
  destruct (recovery_spares_the_living hash left_behind recovered (Ok [running; stray])) as (Hc & Ha & _);
    [reflexivity|exact recovery_runs|].
  split; [apply (Hc _ _ [Answered 41 false; Answered 7 true]); reflexivity|].
  apply (Ha [Answered 41 false] gone [Answered 41 false; Answered 7 true] 41%Z None);
    [reflexivity|vm_compute; reflexivity|lia|reflexivity].
Defined.
End RecoveryExamples.
