(* ===== verification/PolicyActivation.v ===== *)
(** * Policy activation

    policy_registry.rs of the sealed agent: the registry that is in force, the
    admissions it revokes, the snapshots that live attempts still refer to, and
    how a new registry replaces it under the registry's lock.

    The policy directory is the interface [PolicyHost], one operation per system
    call, next to [RecoveryHost] for the records of the attempts; a file opened
    under the lock is named by its directory entry.  serde_json is a parameter.
    What [inspect] and [apply] print is left out. *)

From stdpp Require Import relations.
From S2P Require Import Prelude Decimal Bounded Codec Diagnostics RecordLimits WorkloadContract WorkloadCodec Registry RegistryV2 JsonDocuments WorkloadEvidence NativeText PrivateRuntime PrivateEvidence PrivateJournal AttemptRecord Recovery.
From Stdlib Require Import Ascii.

#[global] Instance GrantChangeDisposition_eq_dec : EqDecision GrantChangeDisposition.
Proof. solve_decision. Defined.

Definition LIVE_BINDINGS : N := 256.
Definition SNAPSHOTS : N := 16.
Definition ACTIVATION_BYTES : N := REGISTRY_BYTES + PUBLIC_OBJECT_BYTES.

(** ** Activations *)
Record Activation : Type := {
  ac_format : string; ac_revision : N; ac_registry : RuntimePolicyRegistry; ac_registry_digest : DiagnosticSha256;
  ac_epoch : PolicyEpoch; ac_revoked_admissions : BoundedVec Nonce128 256
}.
Record ActivationV2 : Type := {
  bc_format : string; bc_revision : N; bc_registry : RuntimePrivatePolicyRegistry; bc_registry_digest : DiagnosticSha256;
  bc_epoch : PolicyEpoch; bc_revoked_admissions : BoundedVec Nonce128 256
}.
Inductive VersionedActivation : Type := Active_V1 (value : Activation) | Active_V2 (value : ActivationV2).
Inductive VersionedLiveBinding : Type :=
| Binding_V1 (value : RuntimeAdmissionSnapshot)
| Binding_Private (value : RuntimePrivateAdmissionSnapshot).
Inductive RegistryConfiguration : Type :=
| Configuration_V1 (registry : RuntimePolicyRegistry)
| Configuration_V2 (registry : RuntimePrivatePolicyRegistry).
(** [InstalledPolicyObservationV1::Active] *)
Record InstalledPolicy : Type := {
  ip_epoch : PolicyEpoch; ip_registry_digest : DiagnosticSha256; ip_enabled_profiles : BoundedVec ProfileRef PROFILES
}.

Definition binding_registry_digest (self : VersionedLiveBinding) : DiagnosticSha256 :=
  match self with Binding_V1 value => sn_registry_digest value | Binding_Private value => as_registry_digest value end.
Definition binding_admission_nonce (self : VersionedLiveBinding) : Nonce128 :=
  match self with Binding_V1 value => sn_admission_nonce value | Binding_Private value => as_admission_nonce value end.
Definition active_digest (active : VersionedActivation) : DiagnosticSha256 :=
  match active with Active_V1 value => ac_registry_digest value | Active_V2 value => bc_registry_digest value end.

(** The loop of [next_revocations] and of [next_revocations_versioned]. *)
Fixpoint revoke_live (previous : option Activation) (disposition : GrantChangeDisposition) (live : list Nonce128)
    (revoked : BoundedVec Nonce128 256) : result string (BoundedVec Nonce128 256) :=
  match live with
  | [] => Ok revoked
  | nonce :: live =>
      if ((disposition ≟ RevokeActive)
          || is_some_and (λ value, bool_decide (nonce ∈ as_slice (ac_revoked_admissions value))) previous)
         && negb (bool_decide (nonce ∈ as_slice revoked))
      then match try_push nonce revoked with
           | (revoked, Ok _) => revoke_live previous disposition live revoked
           | (_, Err _) => Err "revocation reference bound exceeded"%string
           end
      else revoke_live previous disposition live revoked
  end.
Definition next_revocations (previous : option Activation) (disposition : GrantChangeDisposition)
    (live : list (string * RuntimeAdmissionSnapshot)) : result string (BoundedVec Nonce128 256) :=
  revoke_live previous disposition ((λ entry, sn_admission_nonce entry.2) <$> live) [].
Definition next_revocations_versioned (previous : option Activation) (disposition : GrantChangeDisposition)
    (live : list (string * VersionedLiveBinding)) : result string (BoundedVec Nonce128 256) :=
  revoke_live previous disposition ((λ entry, binding_admission_nonce entry.2) <$> live) [].

(** What serde_json's [Value] says of a document's [revision] and [format]. *)
Record DocumentKind : Type := { dk_revision : option N; dk_format : option string }.

Section Documents.
Context (sha256_hash : list u8 → list u8).
Context `{SerdeJson} `{Deserialize DocumentKind} `{Deserialize RuntimePolicyRegistry} `{Deserialize RuntimePrivatePolicyRegistry}
  `{Deserialize Activation} `{Deserialize ActivationV2}.

(** [Activation::inspection] *)
Definition inspection (self : Activation) : result string InstalledPolicy :=
  digest ← registry_digest sha256_hash (ac_registry self);
  guard_err (digest ≠? ac_registry_digest self) "installed registry digest mismatch"%string ;;
  enabled_profiles ← project pd_enabled pd_reference "installed profile limit exceeded" [] (as_slice (pr_profiles (ac_registry self)));
  Ok {| ip_epoch := ac_epoch self; ip_registry_digest := ac_registry_digest self; ip_enabled_profiles := enabled_profiles |}.

(** [Activation::validate] and [ActivationV2::validate] *)
Definition activation_validate (self : Activation) : result string () :=
  guard_err ((ac_format self ≠? "memcordon.local-activation"%string) || negb (ac_revision self =? 1))
    "local activation format differs"%string ;;
  digest ← registry_digest sha256_hash (ac_registry self);
  guard_err (digest ≠? ac_registry_digest self) "policy activation digest differs"%string.
Fixpoint revoked_once (before revoked : list Nonce128) : result string () :=
  match revoked with
  | [] => Ok ()
  | nonce :: revoked =>
      guard_err (bool_decide (nonce ∈ before)) "duplicate V2 revoked admission"%string ;;
      revoked_once (before ++ [nonce]) revoked
  end.
Definition activation_validate_v2 (self : ActivationV2) : result string () :=
  guard_err ((bc_format self ≠? "memcordon.local-private-activation"%string) || negb (bc_revision self =? 1))
    "local private activation format differs"%string ;;
  digest ← registry_digest_v2 sha256_hash (bc_registry self);
  guard_err (digest ≠? bc_registry_digest self) "V2 policy activation digest differs"%string ;;
  revoked_once [] (as_slice (bc_revoked_admissions self)) ;;
  _ ← baseline_v1_projection sha256_hash (bc_registry self);
  Ok ().
Definition baseline_projection (self : ActivationV2) : result string Activation :=
  registry ← baseline_v1_projection sha256_hash (bc_registry self);
  digest ← registry_digest sha256_hash registry;
  Ok {| ac_format := "memcordon.local-activation"; ac_revision := 1; ac_registry := registry; ac_registry_digest := digest;
        ac_epoch := bc_epoch self; ac_revoked_admissions := bc_revoked_admissions self |}.

Definition document_kind (bytes : list u8) (baseline private : string) : result string N :=
  guard_err (over ACTIVATION_BYTES bytes) "local policy document exceeds bound"%string ;;
  value ← from_slice (A := DocumentKind) bytes;
  guard_err (dk_revision value ≠? Some 1) "unsupported local policy revision"%string ;;
  match dk_format value with
  | Some format =>
      if format ≟ baseline then Ok 1 else if format ≟ private then Ok 2 else Err "unsupported local policy format"%string
  | None => Err "unsupported local policy format"%string
  end.
Definition activation_parse (bytes : list u8) : result string VersionedActivation :=
  guard_err (over ACTIVATION_BYTES bytes) "policy activation exceeds bound"%string ;;
  reject_duplicate_json_keys bytes ≫= λ _,
  version ← document_kind bytes "memcordon.local-activation" "memcordon.local-private-activation";
  if version =? 1 then
    value ← from_slice (A := Activation) bytes; activation_validate value ≫= λ _, Ok (Active_V1 value)
  else if version =? 2 then
    value ← from_slice (A := ActivationV2) bytes; activation_validate_v2 value ≫= λ _, Ok (Active_V2 value)
  else Err "unsupported policy activation schema version"%string.
Definition configuration_parse (bytes : list u8) : result string RegistryConfiguration :=
  reject_duplicate_json_keys bytes ≫= λ _,
  version ← document_kind bytes "memcordon.local-policy" "memcordon.local-private-policy";
  if version =? 1 then Configuration_V1 <$> registry_parse sha256_hash bytes
  else if version =? 2 then Configuration_V2 <$> registry_parse_v2 sha256_hash bytes
  else Err "unsupported policy registry schema version"%string.
End Documents.

(** ** The policy directory *)
Inductive open_mode : Type := Open_Read | Open_Write_Create | Open_Write_Create_New | Open_Read_Write_Create.
Inductive open_failure : Type := Open_NotFound (text : string) | Open_Exists (text : string) | Open_Other (text : string).
Definition open_text (failure : open_failure) : string :=
  match failure with Open_NotFound text | Open_Exists text | Open_Other text => text end.

Class PolicyHost (World : Type) : Type := {
  effective_uid : World → World * N;
  (** mkdir of the root with mode 0700: whether it exists already, or an error *)
  create_policy_root : stM World open_failure ();
  ancestor_metadata : string → stM World string Metadata;
  open_policy_root : stM World string ();
  (** openat with O_NOFOLLOW and O_CLOEXEC, mode 0600, and fstat of what it opened *)
  openat : string → open_mode → stM World open_failure ();
  fstat : string → stM World string Metadata;
  (** a non-blocking exclusive flock: whether it would block, and the error *)
  try_flock : World → World * option (bool * string);
  unlock : World → World * ();
  (** at most the given number of bytes *)
  read_at : string → N → stM World string (list u8);
  truncate_at : string → stM World string ();
  write_at : string → list u8 → stM World string ();
  sync_at : string → stM World string ();
  unlinkat : string → stM World string ();
  renameat : string → string → stM World string ();
  sync_policy_root : stM World string ();
  (** directory entries, each of which can fail as it is read *)
  policy_entries : stM World string (list (result string string));
  state_entries : stM World string (list (result string string));
  state_entry_exists : string → World → World * bool;
  getrandom : N → stM World string (list u8);
  shared_package_lease : stM World string ();
  (** the configuration file opened, whether it is regular, and its bytes *)
  open_configuration : string → stM World string bool;
  read_configuration : string → N → stM World string (list u8)
}.

Definition POLICY_ANCESTORS : list string :=
  ["/"; "/var"; "/var/lib"; "/var/lib/memcordon"; "/var/lib/memcordon/policy"]%string.
Definition POLICY_ROOT : string := "/var/lib/memcordon/policy".
Definition ACTIVATION_FILE : string := "policy-activation.json".
Definition PENDING_FILE : string := "policy-activation.pending".
Definition LOCK_FILE : string := "policy.lock".
Definition SNAPSHOT_SUFFIX : string := ".snapshot".
(** [PathBuf::from(digest).with_extension("snapshot")]; hexadecimal text has no dot. *)
Definition snapshot_name (digest : DiagnosticSha256) : string := (sha256_into_string digest +:+ SNAPSHOT_SUFFIX)%string.

Section Native.
Context (sha256_hash : list u8 → list u8).
Context `{SerdeJson} `{Deserialize DocumentKind} `{Deserialize RuntimePolicyRegistry} `{Deserialize RuntimePrivatePolicyRegistry}
  `{Deserialize Activation} `{Deserialize ActivationV2}
  `{Serialize RuntimePolicyRegistry} `{Serialize RuntimePrivatePolicyRegistry} `{Serialize Activation} `{Serialize ActivationV2}
  `{Deserialize PrivateAttemptRecordV4} `{Deserialize RuntimeAdmissionSnapshot}
  `{Deserialize (RuntimeAttemptBinding * VerifiedCheckpointV1)}.
Context {World : Type} `{RecoveryHost World} `{PolicyHost World}.

Definition open_at (name : string) (mode : open_mode) : stM World open_failure () :=
  openat name mode ≫= λ _,
  metadata ← st_map_err Open_Other (fstat name);
  st_lift (guard_err ((me_kind metadata ≠? Kind_File) || negb (me_uid metadata =? 0)
                      || negb (N.land (me_mode metadata) 511 =? 384) || negb (me_nlink metadata =? 1))
             (Open_Other "policy file ownership, mode or link count differs")).

Definition read_any : stM World string (option VersionedActivation) :=
  opened ← st_try (open_at ACTIVATION_FILE Open_Read);
  match opened with
  | Err (Open_NotFound _) => mret None
  | Err failure => st_lift (Err (open_text failure))
  | Ok _ =>
      bytes ← read_at ACTIVATION_FILE (ACTIVATION_BYTES + 1);
      st_lift (guard_err (over ACTIVATION_BYTES bytes) "policy activation exceeds bound"%string) ≫= λ _,
      value ← st_lift (activation_parse sha256_hash bytes);
      mret (Some value)
  end.
(** [Lease::read] and [Lease::read_v2] *)
Definition read_active : stM World string (option Activation) :=
  active ← read_any;
  match active with
  | None => mret None
  | Some (Active_V1 value) => mret (Some value)
  | Some (Active_V2 value) => value ← st_lift (baseline_projection sha256_hash value); mret (Some value)
  end.
Definition read_v2 : stM World string (option ActivationV2) :=
  active ← read_any;
  mret (match active with Some (Active_V2 value) => Some value | _ => None end).

(** The binding a record holds, if it holds one. *)
Definition record_binding (identity : string) (record : list u8) : result string (option VersionedLiveBinding) :=
  if begins (bytes "format=memcordon.private-native-journal" ++ [LF]) record then
    record ← record_parse sha256_hash record;
    guard_err (text (pa_attempt_id record) ≠? identity) "native journal live reference filename differs"%string ;;
    Ok (option_map Binding_Private (pa_admission_metadata record))
  else if begins (bytes "version=4" ++ [LF]) record then
    Err "retired qualification journal requires administrative recovery"%string
  else
    admission ← parse_durable_policy sha256_hash record; Ok (option_map Binding_V1 admission).
(** The loop over the state root; [bind] says which binding a record holds. *)
Fixpoint collect_bindings {B} (bind : string → list u8 → result string (option B)) (entries : list (result string string))
    (references : list (string * B)) : stM World string (list (string * B)) :=
  match entries with
  | [] => mret references
  | Err error :: _ => st_lift (Err error)
  | Ok name :: entries =>
      if negb (is_utf8 (bytes name) && valid_attempt_identity name) then collect_bindings bind entries references
      else
        record ← st_try (read_record_no_follow name);
        match record with
        | Err error =>
            exists_ ← st_total (state_entry_exists name);
            if (exists_ : bool) then st_lift (Err error) else collect_bindings bind entries references
        | Ok record =>
            binding ← st_lift (bind name record);
            match binding with
            | None => collect_bindings bind entries references
            | Some binding =>
                st_lift (guard_err (N.of_nat (length references) =? LIVE_BINDINGS) "policy live reference capacity exceeded"%string) ≫= λ _,
                collect_bindings bind entries (references ++ [(name, binding)])
            end
        end
  end.
Definition live_bindings : stM World string (list (string * RuntimeAdmissionSnapshot)) :=
  entries ← state_entries; collect_bindings (λ _ record, parse_durable_policy sha256_hash record) entries [].
Definition versioned_live_bindings : stM World string (list (string * VersionedLiveBinding)) :=
  entries ← state_entries; collect_bindings record_binding entries [].

(** The registries that are referred to: the candidate, those of live attempts, the active one. *)
Definition referred (candidate : DiagnosticSha256) : stM World string (list DiagnosticSha256) :=
  live ← versioned_live_bindings;
  active ← read_any;
  mret (candidate :: ((λ entry, binding_registry_digest entry.2) <$> live) ++ option_list (active_digest <$> active)).
Definition check_capacity (candidate : DiagnosticSha256) : stM World string () :=
  snapshots ← referred candidate;
  st_lift (guard_err (SNAPSHOTS <? N.of_nat (length (remove_dups snapshots))) "policy snapshot capacity exhausted"%string).

Fixpoint prune (retained : list string) (entries : list (result string string)) : stM World string () :=
  match entries with
  | [] => mret ()
  | Err error :: _ => st_lift (Err error)
  | Ok name :: entries =>
      if negb (is_utf8 (bytes name)) then st_lift (Err "nontext policy directory entry"%string)
      else match strip_suffix (bytes SNAPSHOT_SUFFIX) (bytes name) with
           | Some digest =>
               if bool_decide (String.string_of_list_ascii digest ∈ retained) then prune retained entries
               else unlinkat name ≫= λ _, prune retained entries
           | None => prune retained entries
           end
  end.
(** What an existing snapshot must still say. *)
Definition snapshot_digest (version : N) (existing : list u8) : result string DiagnosticSha256 :=
  if version =? 1 then registry ← registry_parse sha256_hash existing; registry_digest sha256_hash registry
  else if version =? 2 then registry ← registry_parse_v2 sha256_hash existing; registry_digest_v2 sha256_hash registry
  else Err "unsupported policy snapshot version"%string.
(** Storing or checking the snapshot of a registry. *)
Definition store_snapshot (digest : DiagnosticSha256) (encoded : list u8) (version : N) : stM World string () :=
  let name := snapshot_name digest in
  opened ← st_try (open_at name Open_Write_Create_New);
  match opened with
  | Ok _ => write_at name encoded ≫= λ _, sync_at name
  | Err (Open_Exists _) =>
      st_map_err open_text (open_at name Open_Read) ≫= λ _,
      existing ← read_at name (REGISTRY_BYTES + 1);
      existing_digest ← st_lift (snapshot_digest version existing);
      st_lift (guard_err (existing_digest ≠? digest) "immutable policy snapshot differs"%string)
  | Err failure => st_lift (Err (open_text failure))
  end.
Definition retain_snapshot_encoded (digest : DiagnosticSha256) (encoded : list u8) (version : N) : stM World string () :=
  check_capacity digest ≫= λ _,
  retained ← referred digest;
  entries ← policy_entries;
  prune (sha256_into_string <$> retained) entries ≫= λ _,
  st_lift (guard_err (over REGISTRY_BYTES encoded) "encoded registry exceeds limit"%string) ≫= λ _,
  store_snapshot digest encoded version ≫= λ _,
  sync_policy_root.
Definition retain_snapshot (registry : RuntimePolicyRegistry) : stM World string () :=
  digest ← st_lift (registry_digest sha256_hash registry);
  encoded ← st_lift (to_vec registry);
  retain_snapshot_encoded digest encoded 1.
Definition retain_snapshot_v2 (registry : RuntimePrivatePolicyRegistry) : stM World string () :=
  digest ← st_lift (registry_digest_v2 sha256_hash registry);
  encoded ← st_lift (to_vec registry);
  retain_snapshot_encoded digest encoded 2.

Definition write_activation {T} `{Serialize T} (value : T) : stM World string () :=
  encoded ← st_lift (to_vec value);
  st_lift (guard_err (over ACTIVATION_BYTES encoded) "encoded activation exceeds limit"%string) ≫= λ _,
  st_map_err open_text (open_at PENDING_FILE Open_Write_Create) ≫= λ _,
  truncate_at PENDING_FILE ≫= λ _,
  write_at PENDING_FILE (encoded ++ [LF]) ≫= λ _,
  sync_at PENDING_FILE ≫= λ _,
  renameat PENDING_FILE ACTIVATION_FILE ≫= λ _,
  sync_policy_root.

(** Sixteen bytes, as many calls as they take. *)
Fixpoint fill_random (fuel : nat) (filled : list u8) : stM World string (list u8) :=
  if 16 <=? blen filled then mret filled
  else match fuel with
       | O => st_lift (Err "random source made no progress"%string)
       | S fuel =>
           read ← getrandom (16 - blen filled);
           st_lift (guard_err (bool_decide (read = [])) "random source made no progress"%string) ≫= λ _,
           fill_random fuel (filled ++ read)
       end.
Definition random_nonce : stM World string Nonce128 := filled ← fill_random 16 []; mret (nonce128 filled).

Definition next_epoch (instance : option Nonce128) (previous : option Activation) : stM World string PolicyEpoch :=
  match instance, previous with
  | Some service_instance, _ => mret {| service_instance := service_instance; revision := 1 |}
  | None, Some previous =>
      revision ← st_lift (ok_or "policy revision exhausted"%string (checked_add 64 (revision (ac_epoch previous)) 1));
      st_lift (guard_err (revision =? 0) "zero policy revision"%string) ≫= λ _,
      mret {| service_instance := service_instance (ac_epoch previous); revision := revision |}
  | None, None => nonce ← random_nonce; mret {| service_instance := nonce; revision := 1 |}
  end.
Definition activate (registry : RuntimePolicyRegistry) (instance : option Nonce128) : stM World string Activation :=
  st_lift (registry_validate sha256_hash registry) ≫= λ _,
  digest ← st_lift (registry_digest sha256_hash registry);
  check_capacity digest ≫= λ _,
  retain_snapshot registry ≫= λ _,
  previous ← read_active;
  live ← versioned_live_bindings;
  revoked_admissions ← st_lift (next_revocations_versioned previous (pr_active_attempt_disposition registry) live);
  epoch ← next_epoch instance previous;
  digest ← st_lift (registry_digest sha256_hash registry);
  let value := {| ac_format := "memcordon.local-activation"; ac_revision := 1; ac_registry := registry;
                  ac_registry_digest := digest; ac_epoch := epoch; ac_revoked_admissions := revoked_admissions |} in
  write_activation value ≫= λ _,
  mret value.
Definition activate_v2 (registry : RuntimePrivatePolicyRegistry) (instance : option Nonce128) : stM World string ActivationV2 :=
  st_lift (registry_validate_v2 sha256_hash registry) ≫= λ _,
  digest ← st_lift (registry_digest_v2 sha256_hash registry);
  check_capacity digest ≫= λ _,
  retain_snapshot_v2 registry ≫= λ _,
  previous ← read_active;
  live ← versioned_live_bindings;
  revoked_admissions ← st_lift (next_revocations_versioned previous (qr_active_attempt_disposition registry) live);
  epoch ← next_epoch instance previous;
  digest ← st_lift (registry_digest_v2 sha256_hash registry);
  let value := {| bc_format := "memcordon.local-private-activation"; bc_revision := 1; bc_registry := registry;
                  bc_registry_digest := digest; bc_epoch := epoch; bc_revoked_admissions := revoked_admissions |} in
  st_lift (activation_validate_v2 sha256_hash value) ≫= λ _,
  write_activation value ≫= λ _,
  mret value.

(** ** The lock *)
(** Thirty seconds, polled every ten milliseconds. *)
Definition LOCK_POLLS : nat := 3001.
Fixpoint lock_loop (fuel : nat) (deadline : N) : stM World string () :=
  match fuel with
  | O => st_lift (Err "the lock outlasts its polls"%string)
  | S fuel =>
      held ← st_total try_flock;
      match held with
      | None => mret ()
      | Some (would_block, error) =>
          if negb would_block then st_lift (Err error)
          else
            now ← st_total instant_now;
            if deadline <=? now then st_lift (Err error)
            else st_total (sleep_millis 10) ≫= λ _, lock_loop fuel deadline
      end
  end.
Definition check_ancestor (path : string) : stM World string () :=
  (if path ≟ POLICY_ROOT then
     created ← st_try create_policy_root;
     match created with
     | Ok _ | Err (Open_Exists _) => mret ()
     | Err failure => st_lift (Err (open_text failure))
     end
   else mret ()) ≫= λ _,
  metadata ← ancestor_metadata path;
  st_lift (guard_err ((me_kind metadata ≠? Kind_Dir) || negb (me_uid metadata =? 0)
                      || negb (N.land (me_mode metadata) 18 =? 0))
             "policy state ancestor ownership or mode differs"%string).
Definition acquire_lease : stM World string () :=
  uid ← st_total effective_uid;
  st_lift (guard_err (negb (uid =? 0)) "policy registry requires authenticated root administration"%string) ≫= λ _,
  st_for check_ancestor POLICY_ANCESTORS ≫= λ _,
  open_policy_root ≫= λ _,
  st_map_err open_text (open_at LOCK_FILE Open_Read_Write_Create) ≫= λ _,
  now ← st_total instant_now;
  lock_loop LOCK_POLLS (now + 30 * 10 ^ 9).
(** A lease is held while [body] runs and released when it is dropped, on an error too. *)
Definition unlocked_after {A} (body : stM World string A) : stM World string A :=
  λ w, let '(w, r) := body w in let '(w, _) := unlock w in (w, r).
Definition with_lease {A} (body : stM World string A) : stM World string A :=
  acquire_lease ≫= λ _, unlocked_after body.

Definition empty_registry : RuntimePolicyRegistry :=
  {| pr_format := "memcordon.local-policy"; pr_revision := 1; pr_profiles := []; pr_grants := [];
     pr_active_attempt_disposition := DrainExisting |}.
Definition start_service_instance : stM World string () :=
  with_lease (
    instance ← random_nonce;
    active ← read_any;
    match active with
    | Some (Active_V2 previous) => activate_v2 (bc_registry previous) (Some instance) ≫= λ _, mret ()
    | Some (Active_V1 previous) => activate (ac_registry previous) (Some instance) ≫= λ _, mret ()
    | None => activate empty_registry (Some instance) ≫= λ _, mret ()
    end).

Definition read_configuration_any (path : string) : stM World string RegistryConfiguration :=
  regular ← open_configuration path;
  st_lift (guard_err (negb regular) "policy configuration is not regular"%string) ≫= λ _,
  bytes ← read_configuration path (REGISTRY_BYTES + 1);
  st_lift (configuration_parse sha256_hash bytes).
Definition configuration_revokes (registry : RegistryConfiguration) : bool :=
  match registry with
  | Configuration_V1 registry => pr_active_attempt_disposition registry
  | Configuration_V2 registry => qr_active_attempt_disposition registry
  end ≟ RevokeActive.
(** Sixty seconds, polled every twenty milliseconds. *)
Definition RETIREMENT_POLLS : nat := 3001.
Fixpoint await_retirement (fuel : nat) (active : list (string * VersionedLiveBinding)) (deadline : N) : stM World string () :=
  match fuel with
  | O => st_lift (Err "retirement outlasts its polls"%string)
  | S fuel =>
      remaining ← with_lease versioned_live_bindings;
      if forallb (λ entry : string * VersionedLiveBinding, negb (existsb (λ other : string * VersionedLiveBinding, other.1 ≟ entry.1) remaining)) active
      then mret ()
      else
        now ← st_total instant_now;
        if deadline <=? now then
          st_lift (Err "policy revocation activated but retirement was not observed before deadline"%string)
        else st_total (sleep_millis 20) ≫= λ _, await_retirement fuel active deadline
  end.
Definition apply_policy (path : string) : stM World string VersionedActivation :=
  shared_package_lease ≫= λ _,
  registry ← read_configuration_any path;
  activated ← with_lease (
    active ← versioned_live_bindings;
    activation ← match registry with
                 | Configuration_V1 registry => value ← activate registry None; mret (Active_V1 value)
                 | Configuration_V2 registry => value ← activate_v2 registry None; mret (Active_V2 value)
                 end;
    mret (active, activation));
  (if configuration_revokes registry then
     now ← st_total instant_now; await_retirement RETIREMENT_POLLS activated.1 (now + 60 * 10 ^ 9)
   else mret ()) ≫= λ _,
  mret activated.2.

(** *** The polls are enough *)
(** With a clock that advances while the process sleeps and does not run back in
    the calls, the deadline has passed before the polls are spent: more of them
    change nothing. *)
Section Polls.
Context `{!HostClock World}.
Context (flock_takes_time : ∀ w w' r, try_flock w = (w', r) → clock w <= clock w').
Context (reading_takes_time : ∀ w w' r, with_lease versioned_live_bindings w = (w', r) → clock w <= clock w').

Lemma lock_loop_ends fuel more deadline w :
  deadline <= clock w + N.of_nat fuel * 10 ^ 7 →
  lock_loop (S fuel + more) deadline w = lock_loop (S fuel) deadline w.
Proof.
  revert w. induction fuel as [|fuel IH]; intros w Hd; cbn [lock_loop Nat.add]; unfold mbind, stM_bind, st_total;
    destruct (try_flock w) as [w1 [[[] e]|]] eqn:Ef; try done; apply flock_takes_time in Ef; cbn [negb];
    destruct (instant_now w1) as [w2 now] eqn:En; apply now_reads in En as [En1 En2]; cbn.
  - by replace (deadline <=? now) with true by lia.
  - destruct (deadline <=? now); [done|]. destruct (sleep_millis 10 w2) as [w3 u] eqn:Es. apply sleep_lasts in Es.
    apply IH. lia.
Qed.

Lemma await_retirement_ends fuel more active deadline w :
  deadline <= clock w + N.of_nat fuel * (2 * 10 ^ 7) →
  await_retirement (S fuel + more) active deadline w = await_retirement (S fuel) active deadline w.
Proof.
  revert w. induction fuel as [|fuel IH]; intros w Hd; cbn [await_retirement Nat.add]; unfold mbind, stM_bind, st_total;
    destruct (with_lease versioned_live_bindings w) as [w1 [remaining|e]] eqn:Er; try done; apply reading_takes_time in Er;
    destruct (forallb _ active); try done;
    destruct (instant_now w1) as [w2 now] eqn:En; apply now_reads in En as [En1 En2]; cbn.
  - by replace (deadline <=? now) with true by lia.
  - destruct (deadline <=? now); [done|]. destruct (sleep_millis 20 w2) as [w3 u] eqn:Es. apply sleep_lasts in Es.
    apply IH. lia.
Qed.
End Polls.
End Native.

(** ** Revocations *)
Definition revoked_before (previous : option Activation) (nonce : Nonce128) : Prop :=
  match previous with Some value => nonce ∈ ac_revoked_admissions value | None => False end.
Lemma revoke_live_spec previous disposition live revoked result :
  NoDup revoked → revoke_live previous disposition live revoked = Ok result →
  NoDup result ∧ ∀ nonce, nonce ∈ result ↔
    nonce ∈ revoked ∨ (nonce ∈ live ∧ (disposition = RevokeActive ∨ revoked_before previous nonce)).
Proof.
  revert revoked. induction live as [|n live IH]; intros revoked Hd; cbn [revoke_live].
  { intros [= <-]. split; [done|]. set_solver. }
  assert (∀ m, (disposition ≟ RevokeActive) || is_some_and (λ value, bool_decide (m ∈ as_slice (ac_revoked_admissions value))) previous = true ↔
    (disposition = RevokeActive ∨ revoked_before previous m)) as Hb.
  { intros m. rewrite orb_true_iff, bool_decide_eq_true. unfold revoked_before, as_slice.
    destruct previous; cbn; [by rewrite bool_decide_eq_true|naive_solver]. }
  destruct (_ && _) eqn:E.
  - apply andb_true_iff in E as [E1%Hb E2]. bool_hyps. unfold try_push. destruct (bool_decide (length _ = _)); [discriminate|]. intros Er.
    assert (NoDup (revoked ++ [n])) as Hd'.
    { apply NoDup_app. split; [exact Hd|]. split; [|apply NoDup_singleton]. intros m Hm ->%list_elem_of_singleton. done. }
    destruct (IH _ Hd' Er) as [Hn Hi]. split; [done|]. intros m. rewrite Hi. set_solver.
  - intros Er. apply IH in Er as [Hn Hi]; [|done]. split; [done|]. intros m. rewrite Hi.
    apply andb_false_iff in E as [E|E].
    + assert (¬ (disposition = RevokeActive ∨ revoked_before previous n)) as Hx by (intros Hx%Hb; unfold as_slice in *; congruence).
      rewrite elem_of_cons. naive_solver.
    + bool_hyps. unfold as_slice in E. rewrite elem_of_cons. naive_solver.
Qed.
(** As many admissions as can be live fit. *)
Lemma revoke_live_fits previous disposition live revoked : (length revoked + length live <= 256)%nat →
  ∃ result, revoke_live previous disposition live revoked = Ok result.
Proof.
  revert revoked. induction live as [|n live IH]; intros revoked Hl; cbn [revoke_live length] in *; [by eexists|].
  destruct (_ && _); [|apply IH; lia]. unfold try_push. rewrite bool_decide_false by lia. apply IH. rewrite length_app. cbn. lia.
Qed.

(** ** What the calls do to the files *)
(** A computation after which [R] holds of the worlds before and after it,
    whatever it returns. *)
Definition keeps {World E A} (R : World → World → Prop) (m : stM World E A) : Prop := ∀ w w' r, m w = (w', r) → R w w'.

(** [policy_file]: the files of the policy directory, which nothing but these
    calls changes while the lock is held.  [attempt_file]: the records in the
    state root; attempts may end while the policy is changed, so that a record
    can disappear during any call, but none appears or is rewritten. *)
Class PolicyLaws (World : Type) `{RecoveryHost World} `{PolicyHost World} : Type := {
  policy_file : World → string → option (list u8);
  attempt_file : World → string → option (list u8);
  fading (w w' : World) : Prop := ∀ n l, attempt_file w' n = Some l → attempt_file w n = Some l;
  calls_fade : (∀ n mode, keeps fading (openat n mode)) ∧ (∀ n, keeps fading (fstat n)) ∧ (∀ n k, keeps fading (read_at n k))
    ∧ keeps fading policy_entries ∧ keeps fading state_entries
    ∧ (∀ n, keeps fading (st_total (E := string) (state_entry_exists n))) ∧ (∀ k, keeps fading (getrandom k))
    ∧ keeps fading sync_policy_root ∧ (∀ n, keeps fading (sync_at n)) ∧ (∀ n, keeps fading (truncate_at n))
    ∧ (∀ n l, keeps fading (write_at n l)) ∧ (∀ n, keeps fading (unlinkat n)) ∧ (∀ m n, keeps fading (renameat m n))
    ∧ (∀ n, keeps fading (open_state_file n)) ∧ (∀ n, keeps fading (opened_metadata n))
    ∧ (∀ n k, keeps fading (read_state_file n k));
  attempts_listed : ∀ w w' es, state_entries w = (w', Ok es) → ∀ n, is_Some (attempt_file w' n) → Ok n ∈ es;
  attempt_read : ∀ n k w w' b, read_state_file n k w = (w', Ok b) → ∃ l, attempt_file w n = Some l ∧ b = take (N.to_nat k) l;
  attempt_gone : ∀ n w w', state_entry_exists n w = (w', false) → attempt_file w' n = None;
  untouched (w w' : World) : Prop := ∀ n, policy_file w' n = policy_file w n;
  untouched_but (p : string) (w w' : World) : Prop := ∀ n, n ≠ p → policy_file w' n = policy_file w n;
  open_reads : ∀ n w w' r, openat n Open_Read w = (w', r) →
    untouched w w' ∧ (r = Ok () → is_Some (policy_file w n)) ∧ (∀ t, r = Err (Open_NotFound t) → policy_file w n = None);
  open_creates : ∀ n w w' r, openat n Open_Write_Create w = (w', r) →
    untouched_but n w w' ∧ (r = Ok () → is_Some (policy_file w' n));
  open_creates_new : ∀ n w w' r, openat n Open_Write_Create_New w = (w', r) →
    untouched_but n w w' ∧ (∀ c, policy_file w n = Some c → policy_file w' n = Some c) ∧
    (r = Ok () → policy_file w n = None ∧ policy_file w' n = Some []);
  looks : ∀ w, (∀ n w' r, fstat n w = (w', r) → untouched w w') ∧ (∀ n k w' r, read_at n k w = (w', r) → untouched w w')
    ∧ (∀ w' r, policy_entries w = (w', r) → untouched w w') ∧ (∀ w' r, state_entries w = (w', r) → untouched w w')
    ∧ (∀ n w' r, state_entry_exists n w = (w', r) → untouched w w') ∧ (∀ k w' r, getrandom k w = (w', r) → untouched w w')
    ∧ (∀ w' r, sync_policy_root w = (w', r) → untouched w w') ∧ (∀ n w' r, sync_at n w = (w', r) → untouched w w');
  records_apart : ∀ w, (∀ n w' r, open_state_file n w = (w', r) → untouched w w')
    ∧ (∀ n w' r, opened_metadata n w = (w', r) → untouched w w') ∧ (∀ n k w' r, read_state_file n k w = (w', r) → untouched w w');
  read_at_contents : ∀ n k w w' l, read_at n k w = (w', Ok l) →
    ∀ c, policy_file w n = Some c → l = take (N.to_nat k) c;
  truncates : ∀ n w w' r, truncate_at n w = (w', r) →
    untouched_but n w w' ∧ (r = Ok () → is_Some (policy_file w n) → policy_file w' n = Some []);
  writes : ∀ n l w w' r, write_at n l w = (w', r) →
    untouched_but n w w' ∧ (r = Ok () → ∀ c, policy_file w n = Some c → policy_file w' n = Some (c ++ l));
  unlinks : ∀ n w w' r, unlinkat n w = (w', r) → untouched_but n w w';
  renames : ∀ a b w w' r, a ≠ b → renameat a b w = (w', r) →
    (∀ n, n ≠ a → n ≠ b → policy_file w' n = policy_file w n) ∧
    match r with Ok _ => policy_file w' b = policy_file w a | Err _ => policy_file w' b = policy_file w b end
}.

(** Computations built from calls that keep a preorder keep it. *)
Section Keeps.
Context {World : Type} (R : World → World → Prop) `{!PreOrder R}.
Lemma keeps_ret {E A} (a : A) : keeps R (E := E) (mret a).
Proof. by intros w w' r [= <- <-]. Qed.
Lemma keeps_lift {E A} (x : result E A) : keeps R (st_lift x).
Proof. by intros w w' r [= <- <-]. Qed.
Lemma keeps_bind {E A B} (m : stM World E A) (k : A → stM World E B) :
  keeps R m → (∀ a, keeps R (k a)) → keeps R (m ≫= k).
Proof.
  intros Hm Hk w w' r. unfold mbind, stM_bind. destruct (m w) as [w1 [a|e]] eqn:E1.
  - intros E2. etrans; [by eapply Hm|by eapply Hk].
  - intros [= <- <-]. by eapply Hm.
Qed.
Lemma keeps_try {E F A} (m : stM World E A) : keeps R m → keeps R (st_try (F := F) m).
Proof. intros Hm w w' r. unfold st_try. destruct (m w) as [w1 x] eqn:E1. intros [= <- <-]. by eapply Hm. Qed.
Lemma keeps_map_err {E F A} (f : E → F) (m : stM World E A) : keeps R m → keeps R (st_map_err f m).
Proof. intros Hm w w' r. unfold st_map_err. destruct (m w) as [w1 x] eqn:E1. intros [= <- <-]. by eapply Hm. Qed.
Lemma keeps_total {E A} (m : World → World * A) : (∀ w w' a, m w = (w', a) → R w w') → keeps R (st_total (E := E) m).
Proof. intros Hm w w' r. unfold st_total. destruct (m w) as [w1 x] eqn:E1. intros [= <- <-]. by eapply Hm. Qed.
(** A bind whose first part is run. *)
Lemma keeps_then {E A B} (m : stM World E A) (k : A → stM World E B) w w' r : keeps R m → (m ≫= k) w = (w', r) →
  ∃ w1 x, m w = (w1, x) ∧ R w w1 ∧
    match x with Ok a => k a w1 = (w', r) | Err e => w' = w1 ∧ r = Err e end.
Proof.
  intros Hm. unfold mbind, stM_bind. destruct (m w) as [w1 x] eqn:E1. intros Hk. exists w1, x. split; [done|].
  split; [by eapply Hm|]. destruct x; [done|]. by injection Hk as <- <-.
Qed.
End Keeps.

(** Computations that leave every policy file as it is, and computations under
    which attempts do not come back. *)
Abbreviation still := (keeps untouched).
Abbreviation fades := (keeps fading).
Section Still.
Context {World : Type} `{PolicyLaws World}.

#[global] Instance untouched_preorder : PreOrder (untouched (World := World)).
Proof. split; [by intros w n|]. intros w1 w2 w3 E1 E2 n. by rewrite E2. Qed.
#[global] Instance fading_preorder : PreOrder (fading (World := World)).
Proof. split; [by intros w n|]. intros w1 w2 w3 E1 E2 n l. auto. Qed.
Lemma untouched_then (w1 w2 w3 : World) : untouched w1 w2 → untouched w2 w3 → untouched w1 w3.
Proof. apply transitivity. Qed.
Lemma still_fstat n : still (fstat n).
Proof. intros w. apply looks. Qed.
Lemma still_read n k : still (read_at n k).
Proof. intros w. apply looks. Qed.
Lemma still_entries : still policy_entries.
Proof. intros w. apply looks. Qed.
Lemma still_state_entries : still state_entries.
Proof. intros w. apply looks. Qed.
Lemma still_exists {E} n : still (st_total (E := E) (state_entry_exists n)).
Proof. apply keeps_total. intros w. apply looks. Qed.
Lemma still_random k : still (getrandom k).
Proof. intros w. apply looks. Qed.
Lemma still_sync_root : still sync_policy_root.
Proof. intros w. apply looks. Qed.
Lemma still_sync n : still (sync_at n).
Proof. intros w. apply looks. Qed.
Lemma still_open_record n : still (open_state_file n).
Proof. intros w. apply records_apart. Qed.
Lemma still_record_metadata n : still (opened_metadata n).
Proof. intros w. apply records_apart. Qed.
Lemma still_read_record n k : still (read_state_file n k).
Proof. intros w. apply records_apart. Qed.
Lemma still_open_read n : still (openat n Open_Read).
Proof. intros w w' r E. exact (proj1 (open_reads _ _ _ _ E)). Qed.
Lemma still_then {E A B} (m : stM World E A) (k : A → stM World E B) w w' r : still m → (m ≫= k) w = (w', r) →
  ∃ w1 x, m w = (w1, x) ∧ untouched w w1 ∧
    match x with Ok a => k a w1 = (w', r) | Err e => w' = w1 ∧ r = Err e end.
Proof. apply keeps_then. Qed.
Lemma fades_then {E A B} (m : stM World E A) (k : A → stM World E B) w w' r : fades m → (m ≫= k) w = (w', r) →
  ∃ w1 x, m w = (w1, x) ∧ fading w w1 ∧
    match x with Ok a => k a w1 = (w', r) | Err e => w' = w1 ∧ r = Err e end.
Proof. apply keeps_then. Qed.
End Still.
Create HintDb policy.
#[export] Hint Resolve still_fstat still_read still_entries still_state_entries still_exists
  still_random still_sync_root still_sync still_open_record still_record_metadata still_read_record still_open_read : policy.
Ltac keeps_run leaf :=
  repeat match goal with
  | |- ∀ _, _ => intros ?
  | |- keeps _ (mret _) => apply keeps_ret; apply _
  | |- keeps _ (st_lift _) => apply keeps_lift; apply _
  | |- keeps _ (_ ≫= _) => apply keeps_bind; [apply _|..]
  | |- keeps _ (st_try _) => apply keeps_try
  | |- keeps _ (st_map_err _ _) => apply keeps_map_err
  | |- keeps _ _ => solve [leaf]
  | |- keeps _ _ => case_match
  end.
Ltac still_run := keeps_run ltac:(eauto with policy).
Ltac fades_run := keeps_run ltac:(first [apply calls_fade | eauto with policy]).

Section Looking.
Context (sha256_hash : list u8 → list u8).
Context `{SerdeJson} `{Deserialize DocumentKind} `{Deserialize RuntimePolicyRegistry} `{Deserialize RuntimePrivatePolicyRegistry}
  `{Deserialize Activation} `{Deserialize ActivationV2}
  `{Deserialize PrivateAttemptRecordV4} `{Deserialize RuntimeAdmissionSnapshot}
  `{Deserialize (RuntimeAttemptBinding * VerifiedCheckpointV1)}.
Context {World : Type} `{PolicyLaws World}.

Lemma open_at_still n : still (open_at n Open_Read).
Proof. unfold open_at. still_run. Qed.
Lemma open_at_fades n mode : fades (open_at n mode).
Proof. unfold open_at. fades_run. Qed.
Lemma read_any_still : still (read_any sha256_hash).
Proof. pose proof open_at_still. unfold read_any. still_run. Qed.
Lemma read_any_fades : fades (read_any sha256_hash).
Proof. pose proof open_at_fades. unfold read_any. fades_run. Qed.
Lemma read_active_still : still (read_active sha256_hash).
Proof. pose proof read_any_still. unfold read_active. still_run. Qed.
Lemma read_active_fades : fades (read_active sha256_hash).
Proof. pose proof read_any_fades. unfold read_active. fades_run. Qed.
Lemma read_record_fades n : fades (read_record_no_follow n).
Proof. unfold read_record_no_follow. fades_run. Qed.
Lemma collect_still {B} (bind : string → list u8 → result string (option B)) entries references :
  still (collect_bindings bind entries references).
Proof.
  revert references. induction entries as [|[name|error] entries IH]; intros references; cbn [collect_bindings];
    unfold read_record_no_follow; still_run.
Qed.
Lemma collect_fades {B} (bind : string → list u8 → result string (option B)) entries references :
  fades (collect_bindings bind entries references).
Proof.
  pose proof read_record_fades. revert references. induction entries as [|[name|error] entries IH]; intros references;
    cbn [collect_bindings]; fades_run.
Qed.
Lemma live_still : still (versioned_live_bindings sha256_hash).
Proof. pose proof @collect_still. unfold versioned_live_bindings. still_run. Qed.
Lemma live_fades : fades (versioned_live_bindings sha256_hash).
Proof. pose proof @collect_fades. unfold versioned_live_bindings. fades_run. Qed.
Lemma referred_still candidate : still (referred sha256_hash candidate).
Proof. pose proof live_still. pose proof read_any_still. unfold referred. still_run. Qed.
Lemma referred_fades candidate : fades (referred sha256_hash candidate).
Proof. pose proof live_fades. pose proof read_any_fades. unfold referred. fades_run. Qed.
Lemma check_capacity_still candidate : still (check_capacity sha256_hash candidate).
Proof. pose proof referred_still. unfold check_capacity. still_run. Qed.
Lemma check_capacity_fades candidate : fades (check_capacity sha256_hash candidate).
Proof. pose proof referred_fades. unfold check_capacity. fades_run. Qed.
Lemma random_still : still random_nonce.
Proof.
  unfold random_nonce. apply keeps_bind; [apply _| |still_run]. generalize (@nil u8) as filled, 16%nat as fuel. intros filled fuel.
  revert filled. induction fuel as [|fuel IH]; intros filled; cbn [fill_random]; still_run.
Qed.
Lemma random_fades : fades random_nonce.
Proof.
  unfold random_nonce. apply keeps_bind; [apply _| |fades_run]. generalize (@nil u8) as filled, 16%nat as fuel. intros filled fuel.
  revert filled. induction fuel as [|fuel IH]; intros filled; cbn [fill_random]; fades_run.
Qed.
Lemma next_epoch_still instance previous : still (next_epoch instance previous).
Proof. pose proof random_still. unfold next_epoch. destruct instance, previous; still_run. Qed.
Lemma next_epoch_fades instance previous : fades (next_epoch instance previous).
Proof. pose proof random_fades. unfold next_epoch. destruct instance, previous; fades_run. Qed.

(** ** Attempts and their admissions *)
(** The admission a record was made for. *)
Inductive holds (name : string) (record : list u8) : VersionedLiveBinding → Prop :=
| holds_private journal admission :
    begins (bytes "format=memcordon.private-native-journal" ++ [LF]) record = true →
    record_parse sha256_hash record = Ok journal → text (pa_attempt_id journal) = name →
    pa_admission_metadata journal = Some admission → holds name record (Binding_Private admission)
| holds_public admission :
    begins (bytes "format=memcordon.private-native-journal" ++ [LF]) record = false →
    begins (bytes "version=4" ++ [LF]) record = false →
    parse_durable_policy sha256_hash record = Ok (Some admission) → holds name record (Binding_V1 admission).
(** Some attempt with this admission has its record in the state root. *)
Definition bound (w : World) (b : VersionedLiveBinding) : Prop :=
  ∃ name record, valid_attempt_identity name = true ∧ attempt_file w name = Some record ∧ holds name record b.
Lemma holds_binding name record b : holds name record b ↔ record_binding sha256_hash name record = Ok (Some b).
Proof.
  unfold record_binding. split.
  - intros [journal admission -> -> Hn Ha|admission -> -> ->]; [|done]. cbn [mbind result_bind].
    by rewrite bool_decide_true, Ha by done.
  - destruct (begins _ record) eqn:E1.
    + destruct (record_parse sha256_hash record) as [journal|] eqn:Ej; cbn [mbind result_bind]; [|done].
      case_bool_decide as Hn; cbn [negb guard_err mbind result_bind]; [|done].
      destruct (pa_admission_metadata journal) eqn:Ea; cbn [option_map]; [|done]. intros [= <-]. by eapply holds_private.
    + destruct (begins (bytes "version=4" ++ [LF]) record) eqn:E2; [done|].
      destruct (parse_durable_policy sha256_hash record) as [[admission|]|] eqn:Ep; cbn; [|done|done].
      intros [= <-]. by apply holds_public.
Qed.
Lemma bound_before w w' b : fading w w' → bound w' b → bound w b.
Proof. intros Hf (n & l & Hn & Hl & Hb). exists n, l. auto. Qed.

Lemma read_attempt n w w' b : read_record_no_follow n w = (w', Ok b) → attempt_file w n = Some b.
Proof.
  unfold read_record_no_follow. intros E.
  apply fades_then in E as (w1 & x1 & _ & F1 & E); [|fades_run]. destruct x1 as [[]|]; [|by destruct E].
  apply fades_then in E as (w2 & x2 & _ & F2 & E); [|fades_run]. destruct x2 as [md|]; [|by destruct E].
  apply stM_bind_Ok in E as (w3 & [] & [-> _]%st_lift_Ok & E). apply stM_bind_Ok in E as (w4 & l & Er & E).
  apply stM_bind_Ok in E as (w5 & [] & [-> _]%st_lift_Ok & E).
  apply stM_bind_Ok in E as (w6 & [] & [-> Ho%guard_err_Ok]%st_lift_Ok & E). injection E as <- <-.
  unfold st_map_err in Er. destruct (read_state_file n _ w2) as [w7 x] eqn:Ex. injection Er as <- Hx.
  apply map_err_Ok in Hx. subst x. apply attempt_read in Ex as (c & Hc & ->). apply F1, F2. rewrite Hc. f_equal.
  apply over_false in Ho. rewrite length_take in Ho. symmetry. apply take_ge. lia.
Qed.
(** The loop finds every record that is still there when it ends, and nothing
    that was not there when it began. *)
Lemma collect_reads {B} (bind : string → list u8 → result string (option B)) entries references w w' out :
  collect_bindings bind entries references w = (w', Ok out) →
  references ⊆ out ∧
  (∀ n l b, Ok n ∈ entries → valid_attempt_identity n = true → attempt_file w' n = Some l → bind n l = Ok (Some b) → (n, b) ∈ out) ∧
  (∀ n b, (n, b) ∈ out → (n, b) ∈ references ∨
     ∃ l, valid_attempt_identity n = true ∧ attempt_file w n = Some l ∧ bind n l = Ok (Some b)).
Proof.
  revert references w. induction entries as [|[name|error] entries IH]; intros references w; cbn [collect_bindings]; [| |done].
  { intros [= <- <-]. split_and!; [done|by intros ? ? ? ?%not_elem_of_nil|by left]. }
  destruct (is_utf8 (bytes name) && valid_attempt_identity name) eqn:Ev; cbn [negb]; cycle 1.
  { intros (Hs & Hc & Hd)%IH. split_and!; [done| |done]. intros n l b [[= ->]|Hn]%elem_of_cons Hv; [|by apply Hc].
    destruct (valid_utf8 _ Hv) as [Hu _]. unfold to_str in Hu. destruct (is_utf8 (bytes name)); [|done]. cbn in Ev. congruence. }
  apply andb_true_iff in Ev as [_ Ev]. intros E.
  apply fades_then in E as (w1 & x1 & E1 & F1 & E); [|apply keeps_try, read_record_fades].
  unfold st_try in E1. destruct (read_record_no_follow name w) as [w2 x2] eqn:E2. injection E1 as <- <-.
  destruct x2 as [record|error].
  - apply read_attempt in E2. apply stM_bind_Ok in E as (w3 & found & [-> Hb]%st_lift_Ok & E). destruct found as [b0|].
    + apply stM_bind_Ok in E as (w4 & [] & [-> _]%st_lift_Ok & E). pose proof (collect_fades _ _ _ _ _ _ E) as F2.
      apply IH in E as (Hs & Hc & Hd). split_and!.
      * set_solver.
      * intros n l b [[= ->]|Hn]%elem_of_cons Hv Hl Hx; [|by eapply Hc]. apply F2, F1 in Hl. rewrite E2 in Hl. injection Hl as ->.
        rewrite Hb in Hx. injection Hx as ->. apply Hs. set_solver.
      * intros n b [[?|[= -> ->]%list_elem_of_singleton]%elem_of_app|(l & ? & Hl & ?)]%Hd; [by left|right; by exists record|right].
        exists l. auto.
    + pose proof (collect_fades _ _ _ _ _ _ E) as F2. apply IH in E as (Hs & Hc & Hd). split_and!; [done| |].
      * intros n l b [[= ->]|Hn]%elem_of_cons Hv Hl Hx; [|by eapply Hc]. apply F2, F1 in Hl. congruence.
      * intros n b [?|(l & ? & Hl & ?)]%Hd; [by left|right]. exists l. auto.
  - apply fades_then in E as (w3 & x3 & E3 & F3 & E); [|fades_run].
    unfold st_total in E3. destruct (state_entry_exists name w2) as [w4 there] eqn:Ex. injection E3 as <- <-. destruct there; [done|].
    apply attempt_gone in Ex. pose proof (collect_fades _ _ _ _ _ _ E) as F2. apply IH in E as (Hs & Hc & Hd). split_and!; [done| |].
    + intros n l b [[= ->]|Hn]%elem_of_cons Hv Hl Hx; [|by eapply Hc]. apply F2 in Hl. congruence.
    + intros n b [?|(l & ? & Hl & ?)]%Hd; [by left|right]. exists l. auto.
Qed.
Lemma live_reads w w' live : versioned_live_bindings sha256_hash w = (w', Ok live) →
  (∀ b, bound w' b → b ∈ live.*2) ∧ (∀ b, b ∈ live.*2 → bound w b).
Proof.
  unfold versioned_live_bindings. intros E. apply fades_then in E as (w1 & x & E1 & F1 & E); [|fades_run].
  destruct x as [entries|]; [|by destruct E]. pose proof (collect_fades _ _ _ _ _ _ E) as F2.
  apply collect_reads in E as (_ & Hc & Hd). split.
  - intros b (n & l & Hv & Hl & Hb%holds_binding). apply list_elem_of_fmap. exists (n, b). split; [done|]. eapply Hc; [|done..].
    eapply attempts_listed; [exact E1|]. exists l. by apply F2.
  - intros b ((n & b') & -> & [?%not_elem_of_nil|(l & Hv & Hl & Hb%holds_binding)]%Hd)%list_elem_of_fmap; [done|].
    exists n, l. auto.
Qed.
(** The activation the file holds. *)
Definition in_force (w : World) (v : VersionedActivation) : Prop :=
  ∃ c, policy_file w ACTIVATION_FILE = Some c ∧ activation_parse sha256_hash c = Ok v.
Lemma in_force_same w w' v : policy_file w' ACTIVATION_FILE = policy_file w ACTIVATION_FILE → in_force w v → in_force w' v.
Proof. intros E (c & Hc & Hp). exists c. by rewrite E. Qed.
(** The registry of a live attempt, or of the activation in force. *)
Definition needed (w w' : World) (digest : DiagnosticSha256) : Prop :=
  (∃ b, bound w' b ∧ binding_registry_digest b = digest) ∨ (∃ u, in_force w u ∧ active_digest u = digest).
Definition snapshots_kept (w w' : World) (P : DiagnosticSha256 → Prop) : Prop :=
  ∀ d c, P d → policy_file w (snapshot_name d) = Some c → policy_file w' (snapshot_name d) = Some c.
End Looking.

(** ** Snapshots and the activation file *)
(** A snapshot that no digest of [retained] names. *)
Definition prunable (retained : list string) (name : string) : Prop :=
  ∃ digest, strip_suffix (bytes SNAPSHOT_SUFFIX) (bytes name) = Some digest ∧ String.string_of_list_ascii digest ∉ retained.
Lemma strip_suffix_app suffix l : strip_suffix suffix (l ++ suffix) = Some l.
Proof.
  unfold strip_suffix. rewrite rev_app_distr, (proj2 (strip_prefix_Some _ _ (rev l)) eq_refl). cbn. by rewrite rev_involutive.
Qed.
Lemma snapshot_stripped digest :
  strip_suffix (bytes SNAPSHOT_SUFFIX) (bytes (snapshot_name digest)) = Some (bytes (sha256_into_string digest)).
Proof. unfold snapshot_name. rewrite bytes_app. apply strip_suffix_app. Qed.
Lemma retained_not_prunable retained digest : sha256_into_string digest ∈ retained → ¬ prunable retained (snapshot_name digest).
Proof. intros Hr (d & E & Hd). rewrite snapshot_stripped in E. injection E as <-. by rewrite string_of_bytes in Hd. Qed.
Lemma activation_not_snapshot digest : snapshot_name digest ≠ ACTIVATION_FILE.
Proof. intros E. pose proof (snapshot_stripped digest) as Hs. rewrite E in Hs. vm_compute in Hs. discriminate. Qed.
Lemma activation_not_prunable retained : ¬ prunable retained ACTIVATION_FILE.
Proof. intros (d & E & _). vm_compute in E. discriminate. Qed.
Lemma pending_not_snapshot digest : snapshot_name digest ≠ PENDING_FILE.
Proof. intros E. pose proof (snapshot_stripped digest) as Hs. rewrite E in Hs. vm_compute in Hs. discriminate. Qed.

Section Effects.
Context (sha256_hash : list u8 → list u8).
Context `{SerdeJson} `{Deserialize DocumentKind} `{Deserialize RuntimePolicyRegistry} `{Deserialize RuntimePrivatePolicyRegistry}
  `{Deserialize Activation} `{Deserialize ActivationV2}
  `{Deserialize PrivateAttemptRecordV4} `{Deserialize RuntimeAdmissionSnapshot}
  `{Deserialize (RuntimeAttemptBinding * VerifiedCheckpointV1)}.
Context {World : Type} `{PolicyLaws World}.

Lemma prune_keeps retained entries w w' r : prune retained entries w = (w', r) →
  ∀ n, ¬ prunable retained n → policy_file w' n = policy_file w n.
Proof.
  revert w. induction entries as [|[name|error] entries IH]; intros w; cbn [prune]; [by intros [= <- <-]| |by intros [= <- <-]].
  destruct (negb (is_utf8 (bytes name))); [by intros [= <- <-]|].
  destruct (strip_suffix (bytes SNAPSHOT_SUFFIX) (bytes name)) as [digest|] eqn:Es; [|apply IH].
  case_bool_decide as Hm; [apply IH|]. unfold mbind, stM_bind. destruct (unlinkat name w) as [w1 [u|e]] eqn:Eu; apply unlinks in Eu.
  - intros E n Hn. rewrite (IH _ E n Hn). apply Eu. intros ->. apply Hn. by exists digest.
  - intros [= <- <-] n Hn. apply Eu. intros ->. apply Hn. by exists digest.
Qed.

Definition snapshot_stored (digest : DiagnosticSha256) (encoded : list u8) (version : N) (w : World) : Prop :=
  ∃ c, policy_file w (snapshot_name digest) = Some c ∧
    (c = encoded ∨ snapshot_digest sha256_hash version (take (N.to_nat (REGISTRY_BYTES + 1)) c) = Ok digest).
Lemma open_at_split name mode w w' r : open_at name mode w = (w', r) →
  ∃ w1 x, openat name mode w = (w1, x) ∧ untouched w1 w' ∧ (r = Ok () → x = Ok ()) ∧
    (∀ e, r = Err e → x = Err e ∨ ∃ t, e = Open_Other t).
Proof.
  unfold open_at. unfold mbind at 1, stM_bind at 1. destruct (openat name mode w) as [w1 [[]|e]] eqn:E1.
  - intros E. exists w1, (Ok ()). split; [done|]. split.
    + refine ((_ : still _) _ _ _ E). still_run.
    + split; [done|]. intros e ->. right. apply still_then in E as (w2 & x & Ex & _ & E); [|apply keeps_map_err, still_fstat].
      unfold st_map_err in Ex. destruct (fstat name w1) as [w3 [y|y]]; simplify_eq/=; [|destruct E as [_ [= ->]]; by eexists].
      unfold st_lift, guard_err in E. case_match; simplify_eq; by eexists.
  - intros [= <- <-]. exists w1, (Err e). split; [done|]. split; [done|]. by naive_solver.
Qed.
Lemma store_spec digest encoded version w w' r : store_snapshot sha256_hash digest encoded version w = (w', r) →
  untouched_but (snapshot_name digest) w w' ∧
  (∀ c, policy_file w (snapshot_name digest) = Some c → policy_file w' (snapshot_name digest) = Some c) ∧
  (r = Ok () → snapshot_stored digest encoded version w').
Proof.
  unfold store_snapshot. set (name := snapshot_name digest). unfold st_try, mbind at 1, stM_bind at 1.
  destruct (open_at name Open_Write_Create_New w) as [w1 x] eqn:Eo.
  apply open_at_split in Eo as (w0 & y & Ey & U & Yo & _). apply open_creates_new in Ey as (B & K & N).
  assert (untouched_but name w w1 ∧ ∀ c, policy_file w name = Some c → policy_file w1 name = Some c) as [B1 K1].
  { split; [intros n Hn; rewrite U; by apply B|]. intros c Hc. rewrite U. by apply K. }
  destruct x as [[]|e].
  - specialize (Yo eq_refl). subst y. destruct (N eq_refl) as [N1 N2]. unfold mbind, stM_bind.
    destruct (write_at name encoded w1) as [w2 [[]|e]] eqn:Ew; apply writes in Ew as [W1 W2].
    + intros E. pose proof (still_sync name _ _ _ E) as Us. split; [intros n Hn; rewrite Us, W1 by done; by apply B1|].
      split; [by intros c Hc; rewrite N1 in Hc|]. intros _. exists encoded. split; [|by left]. rewrite Us. fold name.
      rewrite (W2 eq_refl []); [done|]. by rewrite U.
    + intros [= <- <-]. split; [intros n Hn; rewrite W1 by done; by apply B1|]. split; [by intros c Hc; rewrite N1 in Hc|done].
  - destruct e as [t|t|t]; [by intros [= <- <-]| |by intros [= <- <-]]. intros E.
    assert (untouched w1 w') as Ut.
    { pose proof open_at_still. refine ((_ : still _) _ _ _ E). still_run. }
    split; [intros n Hn; rewrite Ut; by apply B1|]. split; [intros c Hc; rewrite Ut; by apply K1|]. intros ->.
    apply still_then in E as (w2 & x2 & E2 & U2 & E); [|apply keeps_map_err, open_at_still].
    destruct x2 as [[]|]; [|by destruct E]. unfold st_map_err in E2. destruct (open_at name Open_Read w1) as [w3 x3] eqn:E3.
    injection E2 as -> E2. destruct x3 as [[]|]; [|done]. apply open_at_split in E3 as (w4 & y4 & Ey & U4 & Yo4 & _).
    specialize (Yo4 eq_refl). subst y4. destruct (open_reads _ _ _ _ Ey) as (_ & Hs & _). destruct (Hs eq_refl) as [c Hc].
    apply still_then in E as (w5 & x5 & E5 & U5 & E); [|apply still_read]. destruct x5 as [l|]; [|by destruct E].
    rewrite (read_at_contents _ _ _ _ _ E5 c) in E by (by rewrite U2).
    apply stM_bind_Ok in E as (w6 & d & [-> Ed]%st_lift_Ok & [-> G1%guard_err_Ok]%st_lift_Ok). bool_hyps. subst d.
    exists c. split; [|by right]. rewrite U5, U2. exact Hc.
Qed.

(** What is read is what is in force. *)
Lemma read_any_in_force w w' active : read_any sha256_hash w = (w', Ok active) →
  ∀ v, in_force sha256_hash w v → active = Some v.
Proof.
  unfold read_any. intros E v (c & Hc & Hp). unfold mbind at 1, stM_bind at 1, st_try in E.
  destruct (open_at ACTIVATION_FILE Open_Read w) as [w1 x] eqn:Eo. pose proof (open_at_still _ _ _ _ Eo) as U1.
  apply open_at_split in Eo as (w0 & y & Ey & _ & _ & Ye). destruct (open_reads _ _ _ _ Ey) as (_ & _ & Hn).
  destruct x as [[]|[t|t|t]]; [| |done|done].
  - apply stM_bind_Ok in E as (w2 & l & Er & E). apply stM_bind_Ok in E as (? & ? & [-> G1%guard_err_Ok%over_false]%st_lift_Ok & E).
    assert (l = take (N.to_nat (ACTIVATION_BYTES + 1)) c) as -> by (eapply read_at_contents; [exact Er|by rewrite U1]).
    rewrite length_take in G1. rewrite take_ge in E by lia.
    apply stM_bind_Ok in E as (? & x & [-> Ex]%st_lift_Ok & E). injection E as <- <-. congruence.
  - destruct (Ye _ eq_refl) as [->|(t' & [=])]. by rewrite (Hn _ eq_refl) in Hc.
Qed.
Lemma referred_needed candidate w w' found d : referred sha256_hash candidate w = (w', Ok found) →
  d = candidate ∨ needed sha256_hash w w' d → d ∈ found.
Proof.
  unfold referred. intros E Hd. apply still_then in E as (w1 & x1 & E1 & U1 & E); [|apply live_still].
  destruct x1 as [live|]; [|by destruct E]. apply fades_then in E as (w2 & x2 & E2 & F2 & E); [|apply read_any_fades].
  destruct x2 as [active|]; [|by destruct E]. injection E as <- <-. rewrite elem_of_cons, elem_of_app.
  destruct Hd as [->|[(b & Hb & <-)|(u & Hu & <-)]]; [by left|right; left|right; right].
  - destruct (live_reads _ _ _ _ E1) as [Hr _]. apply (bound_before _ _ _ _ F2), Hr in Hb. apply list_elem_of_fmap in Hb as (e & -> & He).
    apply list_elem_of_fmap. by exists e.
  - rewrite (read_any_in_force _ _ _ E2 u); [left|]. eapply in_force_same; [apply U1|done].
Qed.
(** What retaining a snapshot does, whether it succeeds or not: the snapshots
    that are needed, and the activation in force, stay; on success the
    registry's own is there. *)
Definition retains (digest : DiagnosticSha256) (encoded : list u8) (version : N) (w w' : World) (r : result string ()) : Prop :=
  policy_file w' ACTIVATION_FILE = policy_file w ACTIVATION_FILE ∧
  (∀ v, fading w' v → snapshots_kept w w' (λ d, d = digest ∨ needed sha256_hash w v d)) ∧
  (r = Ok () → snapshot_stored digest encoded version w' ∧ over REGISTRY_BYTES encoded = false).
Lemma retain_early digest encoded version w w' e : untouched w w' → retains digest encoded version w w' (Err e).
Proof. intros U. split; [apply U|]. split; [|done]. intros v _ d c _. by rewrite U. Qed.
Lemma store_fades digest encoded version : fades (store_snapshot sha256_hash digest encoded version).
Proof. pose proof open_at_fades. unfold store_snapshot. fades_run. Qed.
Lemma prune_fades retained entries : fades (prune retained entries).
Proof. induction entries as [|[name|error] entries IH]; cbn [prune]; fades_run. Qed.
Lemma retain_fades digest encoded version : fades (retain_snapshot_encoded sha256_hash digest encoded version).
Proof.
  pose proof check_capacity_fades. pose proof referred_fades. pose proof prune_fades. pose proof store_fades.
  unfold retain_snapshot_encoded. fades_run.
Qed.
Lemma needed_same w w1 v v1 d : untouched w w1 → fading v1 v → needed sha256_hash w v d → needed sha256_hash w1 v1 d.
Proof.
  intros U F [(b & Hb & Hd)|(u & Hu & Hd)]; [left; exists b; split; [by eapply bound_before|done]|].
  right. exists u. split; [|done]. eapply in_force_same; [apply U|done].
Qed.
Lemma prune_retains retained entries w w' r : prune (sha256_into_string <$> retained) entries w = (w', r) →
  policy_file w' ACTIVATION_FILE = policy_file w ACTIVATION_FILE ∧ ∀ d, d ∈ retained → policy_file w' (snapshot_name d) = policy_file w (snapshot_name d).
Proof.
  intros E. pose proof (prune_keeps _ _ _ _ _ E) as K. split; [apply K, activation_not_prunable|]. intros d Hd. apply K.
  by apply retained_not_prunable, list_elem_of_fmap_2.
Qed.
Lemma retain_spec digest encoded version w w' r : retain_snapshot_encoded sha256_hash digest encoded version w = (w', r) →
  retains digest encoded version w w' r.
Proof.
  unfold retain_snapshot_encoded. intros E. apply still_then in E as (w1 & x1 & _ & U1 & E); [|apply check_capacity_still].
  destruct x1 as [u1|e1]; [|destruct E as [-> ->]; by apply retain_early].
  apply still_then in E as (w2 & x2 & E2 & U2 & E); [|apply referred_still].
  destruct x2 as [retained|e2]; [|destruct E as [-> ->]; apply retain_early; by etrans].
  assert (fading w2 w') as F2.
  { pose proof prune_fades. pose proof store_fades. refine ((_ : fades _) _ _ _ E). fades_run. }
  apply still_then in E as (w3 & x3 & _ & U3 & E); [|apply still_entries].
  destruct x3 as [entries|e3]; [|destruct E as [-> ->]; apply retain_early; etrans; [|done]; by etrans].
  assert (∀ n, policy_file w3 n = policy_file w n) as U by (intros n; by rewrite U3, U2, U1).
  assert (∀ v d, fading w' v → d = digest ∨ needed sha256_hash w v d → d ∈ retained) as Hn.
  { intros v d F Hd. eapply referred_needed; [exact E2|]. destruct Hd as [?|Hd]; [by left|right].
    eapply needed_same; [exact U1|etrans; [exact F2|exact F]|done]. }
  unfold mbind at 1, stM_bind at 1 in E. destruct (prune _ entries w3) as [w4 x4] eqn:E4.
  destruct (prune_retains _ _ _ _ _ E4) as [A4 K4].
  assert (∀ v, fading w' v → ∀ d c, d = digest ∨ needed sha256_hash w v d → policy_file w (snapshot_name d) = Some c →
            policy_file w4 (snapshot_name d) = Some c) as K.
  { intros v F d c Hd Hc. by rewrite K4, U by (by eapply Hn). }
  destruct x4 as [[]|e4]; [|injection E as <- <-; split; [by rewrite A4, U|split; [exact K|done]]].
  apply still_then in E as (w5 & x5 & E5 & U5 & E); [|apply keeps_lift; apply _].
  destruct x5 as [[]|e5]; [|destruct E as [-> ->]; split; [by rewrite U5, A4, U|split; [|done]]];
    [|intros v F d c Hd Hc; rewrite U5; by apply (K v)].
  apply st_lift_Ok in E5 as [-> G5%guard_err_Ok].
  unfold mbind, stM_bind in E. destruct (store_snapshot _ _ _ _ w4) as [w6 x6] eqn:E6. apply store_spec in E6 as (B6 & K6 & S6).
  assert (∀ d c, policy_file w4 (snapshot_name d) = Some c → policy_file w6 (snapshot_name d) = Some c) as K'.
  { intros d c Hc. destruct (decide (snapshot_name d = snapshot_name digest)) as [Ex|Ex]; [rewrite Ex in *; by apply K6|by rewrite B6]. }
  assert (policy_file w6 ACTIVATION_FILE = policy_file w ACTIVATION_FILE) as A6.
  { rewrite B6, A4, U; [done|]. intros Ex. by apply (activation_not_snapshot digest). }
  destruct x6 as [[]|e6]; [|injection E as <- <-; split; [done|split; [|done]]; intros v F d c Hd Hc; by eapply K', (K v)].
  pose proof (still_sync_root _ _ _ E) as U7. split; [by rewrite U7|]. split.
  - intros v F d c Hd Hc. rewrite U7. by eapply K', (K v).
  - intros ->. destruct (S6 eq_refl) as (c & Hc & Hx). split; [|done]. exists c. by rewrite U7.
Qed.

(** The activation file is replaced as a whole or not at all. *)
Lemma staging_spec bytes w w' r :
  (st_map_err open_text (open_at PENDING_FILE Open_Write_Create) ≫= λ _,
   truncate_at PENDING_FILE ≫= λ _, write_at PENDING_FILE bytes ≫= λ _, sync_at PENDING_FILE) w = (w', r) →
  untouched_but PENDING_FILE w w' ∧ (r = Ok () → policy_file w' PENDING_FILE = Some bytes).
Proof.
  intros E. unfold mbind at 1, stM_bind at 1, st_map_err in E. destruct (open_at PENDING_FILE Open_Write_Create w) as [w1 x1] eqn:E1.
  apply open_at_split in E1 as (w0 & x0 & E0 & U1 & Y1 & _). apply open_creates in E0 as [B0 S0].
  assert (untouched_but PENDING_FILE w w1) as B1 by (intros n Hn; rewrite U1; by apply B0).
  destruct x1 as [[]|e1]; [|by injection E as <- <-]. specialize (Y1 eq_refl). subst x0. destruct (S0 eq_refl) as [c0 Hc0].
  cbn [map_err] in E. unfold mbind at 1, stM_bind at 1 in E. destruct (truncate_at PENDING_FILE w1) as [w2 x2] eqn:E2.
  apply truncates in E2 as [B2 S2]. assert (untouched_but PENDING_FILE w w2) as B by (intros n Hn; rewrite B2 by done; by apply B1).
  destruct x2 as [[]|e2]; [|by injection E as <- <-]. assert (policy_file w2 PENDING_FILE = Some []) as P2.
  { apply S2; [done|]. rewrite U1. by exists c0. }
  unfold mbind, stM_bind in E. destruct (write_at PENDING_FILE bytes w2) as [w3 x3] eqn:E3. apply writes in E3 as [B3 S3].
  assert (untouched_but PENDING_FILE w w3) as B' by (intros n Hn; rewrite B3 by done; by apply B).
  destruct x3 as [[]|e3]; [|by injection E as <- <-]. pose proof (still_sync _ _ _ _ E) as U4.
  split; [intros n Hn; rewrite U4; by apply B'|]. intros ->. rewrite U4. exact (S3 eq_refl [] P2).
Qed.
Lemma write_activation_spec {T} `{Serialize T} (value : T) w w' r : write_activation value w = (w', r) →
  (∀ n, n ≠ PENDING_FILE → n ≠ ACTIVATION_FILE → policy_file w' n = policy_file w n) ∧
  ((policy_file w' ACTIVATION_FILE = policy_file w ACTIVATION_FILE ∧ r ≠ Ok ()) ∨
   ∃ p, to_vec value = Ok p ∧ over ACTIVATION_BYTES p = false ∧ policy_file w' ACTIVATION_FILE = Some (p ++ [LF])).
Proof.
  unfold write_activation. intros E. destruct (to_vec value) as [p|e] eqn:Ev; cbn in E; [|injection E as <- <-; split; [done|by left]].
  unfold mbind at 1, stM_bind at 1, st_lift in E. destruct (over ACTIVATION_BYTES p) eqn:Eo; cbn in E; [injection E as <- <-; split; [done|by left]|].
  assert (∃ w1 x1, (st_map_err open_text (open_at PENDING_FILE Open_Write_Create) ≫= λ _,
     truncate_at PENDING_FILE ≫= λ _, write_at PENDING_FILE (p ++ [LF]) ≫= λ _, sync_at PENDING_FILE) w = (w1, x1) ∧
     match x1 with Ok _ => (renameat PENDING_FILE ACTIVATION_FILE ≫= λ _, sync_policy_root) w1 = (w', r) | Err e => w' = w1 ∧ r = Err e end)
    as (w1 & x1 & E1 & E2).
  { unfold mbind, stM_bind in *. destruct (st_map_err _ _ w) as [v [[]|e]]; [|by injection E as <- <-; eexists _, _].
    destruct (truncate_at _ v) as [v1 [[]|e]]; [|by injection E as <- <-; eexists _, _].
    destruct (write_at _ _ v1) as [v2 [[]|e]]; [|by injection E as <- <-; eexists _, _].
    destruct (sync_at _ v2) as [v3 [[]|e]]; [|by injection E as <- <-; eexists _, _]. by eexists _, _. }
  apply staging_spec in E1 as [B1 P1].
  assert (ACTIVATION_FILE ≠ PENDING_FILE) as Ha by (intros Ex; vm_compute in Ex; discriminate).
  destruct x1 as [[]|e1]; [|destruct E2 as [-> ->]; split; [by intros n Hn _; apply B1|left; split; [by apply B1|done]]].
  specialize (P1 eq_refl). unfold mbind, stM_bind in E2. destruct (renameat _ _ w1) as [w2 x2] eqn:E3.
  apply renames in E3 as [B3 S3]; [|done]. destruct x2 as [[]|e2].
  - pose proof (still_sync_root _ _ _ E2) as U. split; [intros n Hn Hm; rewrite U, B3 by done; by apply B1|].
    right. exists p. by rewrite U, S3.
  - injection E2 as <- <-. split; [intros n Hn Hm; rewrite B3 by done; by apply B1|]. left. split; [|done]. rewrite S3. by apply B1.
Qed.

Lemma write_activation_fades {T} `{Serialize T} (value : T) : fades (write_activation value).
Proof. pose proof open_at_fades. unfold write_activation. fades_run. Qed.

(** ** One activation *)
Definition epoch_follows (instance : option Nonce128) (previous : option Activation) (epoch : PolicyEpoch) : Prop :=
  match instance, previous with
  | Some service, _ => epoch = {| service_instance := service; revision := 1 |}
  | None, Some value =>
      service_instance epoch = service_instance (ac_epoch value) ∧ revision epoch = revision (ac_epoch value) + 1 ∧ revision epoch < 2 ^ 64
  | None, None => revision epoch = 1
  end.
(** What the activation is computed from: the activation in force before it, and
    attempts that were live before it, among them all that still are after it. *)
Definition computed (w w' : World) (disposition : GrantChangeDisposition) (instance : option Nonce128) (epoch : PolicyEpoch)
    (revoked : list Nonce128) : Prop :=
  ∃ w1 w2 previous (live : list VersionedLiveBinding),
    policy_file w1 ACTIVATION_FILE = policy_file w ACTIVATION_FILE ∧ read_active sha256_hash w1 = (w2, Ok previous) ∧
    (∀ b, bound sha256_hash w' b → b ∈ live) ∧ (∀ b, b ∈ live → bound sha256_hash w b) ∧ NoDup revoked ∧
    (∀ n, n ∈ revoked ↔ n ∈ binding_admission_nonce <$> live ∧ (disposition = RevokeActive ∨ revoked_before previous n)) ∧
    epoch_follows instance previous epoch.

Lemma next_epoch_follows instance previous w w' epoch : next_epoch instance previous w = (w', Ok epoch) →
  epoch_follows instance previous epoch.
Proof.
  unfold next_epoch, epoch_follows. destruct instance as [i|], previous as [v|].
  - by intros [= _ <-].
  - by intros [= _ <-].
  - intros E. apply stM_bind_Ok in E as (? & rev & [-> Ha]%st_lift_Ok & E). apply stM_bind_Ok in E as (? & ? & _ & E).
    injection E as _ <-. run_ok. by split_and!.
  - intros E. apply stM_bind_Ok in E as (? & n & _ & E). by injection E as _ <-.
Qed.
(** The part that both versions share. *)
Definition activate_from {T} `{Serialize T} (digest : DiagnosticSha256) (encoded : list u8) (version : N)
    (disposition : GrantChangeDisposition) (instance : option Nonce128)
    (build : PolicyEpoch → list Nonce128 → T) (check : T → result string ()) : stM World string T :=
  check_capacity sha256_hash digest ≫= λ _,
  retain_snapshot_encoded sha256_hash digest encoded version ≫= λ _,
  previous ← read_active sha256_hash;
  live ← versioned_live_bindings sha256_hash;
  revoked ← st_lift (next_revocations_versioned previous disposition live);
  epoch ← next_epoch instance previous;
  st_lift (check (build epoch revoked)) ≫= λ _,
  write_activation (build epoch revoked) ≫= λ _,
  mret (build epoch revoked).
(** The activation file is as it was, or it is the new activation's. *)
Definition replaced {T} `{Serialize T} (digest : DiagnosticSha256) (encoded : list u8) (version : N)
    (disposition : GrantChangeDisposition) (instance : option Nonce128)
    (build : PolicyEpoch → list Nonce128 → T) (check : T → result string ()) (w w' : World) (r : result string T) : Prop :=
  (policy_file w' ACTIVATION_FILE = policy_file w ACTIVATION_FILE ∧ ∀ v, r ≠ Ok v) ∨
  ∃ epoch revoked p, computed w w' disposition instance epoch revoked ∧ check (build epoch revoked) = Ok () ∧
    to_vec (build epoch revoked) = Ok p ∧ over REGISTRY_BYTES encoded = false ∧
    policy_file w' ACTIVATION_FILE = Some (p ++ [LF]) ∧ (∀ v, r = Ok v → v = build epoch revoked) ∧
    snapshot_stored digest encoded version w'.
Lemma activate_from_fades {T} `{Serialize T} digest encoded version disposition instance
    (build : PolicyEpoch → list Nonce128 → T) check :
  fades (activate_from digest encoded version disposition instance build check).
Proof.
  pose proof check_capacity_fades. pose proof retain_fades. pose proof read_active_fades. pose proof live_fades.
  pose proof next_epoch_fades. pose proof @write_activation_fades. unfold activate_from. fades_run.
Qed.
(** The parts of an activation after its snapshot is there leave the snapshots. *)
Lemma written_snapshots {T} `{Serialize T} (value : T) w w' r d : write_activation value w = (w', r) →
  policy_file w' (snapshot_name d) = policy_file w (snapshot_name d).
Proof. intros [K _]%write_activation_spec. apply K; [apply pending_not_snapshot|apply activation_not_snapshot]. Qed.
Lemma activate_from_keeps {T} `{Serialize T} digest encoded version disposition instance
    (build : PolicyEpoch → list Nonce128 → T) check w w' r :
  activate_from digest encoded version disposition instance build check w = (w', r) →
  snapshots_kept w w' (needed sha256_hash w w').
Proof.
  unfold activate_from. intros E. apply still_then in E as (w1 & x1 & _ & U1 & E); [|apply check_capacity_still].
  destruct x1 as [[]|e1]; [|destruct E as [-> ->]; intros d c _; by rewrite U1].
  apply fades_then in E as (w2 & x2 & E2 & _ & E); [|apply retain_fades]. apply retain_spec in E2 as (_ & K & _).
  assert (fading w2 w' ∧ ∀ d, policy_file w' (snapshot_name d) = policy_file w2 (snapshot_name d)) as [F U].
  { destruct x2 as [[]|e2]; [|by destruct E as [-> ->]]. split.
    - pose proof read_active_fades. pose proof live_fades. pose proof next_epoch_fades. pose proof @write_activation_fades.
      refine ((_ : fades _) _ _ _ E). fades_run.
    - intros d. revert E. generalize w2. clear. intros w2 E.
      apply still_then in E as (w3 & x3 & _ & U3 & E); [|apply read_active_still].
      destruct x3 as [previous|e3]; [|by destruct E as [-> ->]].
      apply still_then in E as (w4 & x4 & _ & U4 & E); [|apply live_still].
      destruct x4 as [live|e4]; [|destruct E as [-> ->]; by rewrite U4, U3].
      apply still_then in E as (w5 & x5 & _ & U5 & E); [|apply keeps_lift; apply _].
      destruct x5 as [revoked|e5]; [|destruct E as [-> ->]; by rewrite U5, U4, U3].
      apply still_then in E as (w6 & x6 & _ & U6 & E); [|apply next_epoch_still].
      destruct x6 as [epoch|e6]; [|destruct E as [-> ->]; by rewrite U6, U5, U4, U3].
      apply still_then in E as (w7 & x7 & _ & U7 & E); [|apply keeps_lift; apply _].
      destruct x7 as [[]|e7]; [|destruct E as [-> ->]; by rewrite U7, U6, U5, U4, U3].
      unfold mbind, stM_bind in E. destruct (write_activation _ w7) as [w8 x8] eqn:E8.
      assert (w' = w8) as -> by (destruct x8; by injection E). by rewrite (written_snapshots _ _ _ _ d E8), U7, U6, U5, U4, U3. }
  intros d c Hd Hc. rewrite U. apply (K w' F d c); [|by rewrite U1]. right. by eapply needed_same; [exact U1|reflexivity|].
Qed.
Lemma activate_from_spec {T} `{Serialize T} digest encoded version disposition instance
    (build : PolicyEpoch → list Nonce128 → T) check w w' r :
  activate_from digest encoded version disposition instance build check w = (w', r) →
  replaced digest encoded version disposition instance build check w w' r.
Proof.
  unfold activate_from. intros E. apply still_then in E as (w1 & x1 & E1 & U1 & E); [|apply check_capacity_still].
  pose proof (check_capacity_fades _ _ _ _ _ E1) as F1.
  destruct x1 as [[]|e1]; [|destruct E as [-> ->]; left; by rewrite U1].
  apply fades_then in E as (w2 & x2 & E2 & F2 & E); [|apply retain_fades]. apply retain_spec in E2 as (A2 & _ & S2). rewrite U1 in A2.
  destruct x2 as [[]|e2]; [|destruct E as [-> ->]; by left]. destruct (S2 eq_refl) as [Ss Lo].
  apply still_then in E as (w3 & x3 & E3 & U3 & E); [|apply read_active_still]. pose proof (read_active_fades _ _ _ _ E3) as F3.
  destruct x3 as [previous|e3]; [|destruct E as [-> ->]; left; by rewrite U3].
  apply still_then in E as (w4 & x4 & E4 & U4 & E); [|apply live_still].
  destruct x4 as [live|e4]; [|destruct E as [-> ->]; left; by rewrite U4, U3].
  assert (fading w4 w') as F4.
  { pose proof next_epoch_fades. pose proof @write_activation_fades. refine ((_ : fades _) _ _ _ E). fades_run. }
  apply still_then in E as (w5 & x5 & E5 & U5 & E); [|apply keeps_lift; apply _]. injection E5 as <- E5.
  destruct x5 as [revoked|e5]; [|destruct E as [-> ->]; left; by rewrite U4, U3].
  apply still_then in E as (w6 & x6 & E6 & U6 & E); [|apply next_epoch_still].
  destruct x6 as [epoch|e6]; [|destruct E as [-> ->]; left; by rewrite U6, U4, U3].
  apply still_then in E as (w7 & x7 & E7 & U7 & E); [|apply keeps_lift; apply _]. injection E7 as <- E7.
  destruct x7 as [[]|e7]; [|destruct E as [-> ->]; left; by rewrite U6, U4, U3].
  unfold mbind, stM_bind in E. destruct (write_activation _ w6) as [w8 x8] eqn:E8.
  pose proof (λ d, written_snapshots _ _ _ _ d E8) as K8.
  apply write_activation_spec in E8 as [_ [[A8 N8]|(p & Ep & _ & A8)]].
  - destruct x8 as [[]|e8]; [by destruct N8|]. injection E as <- <-. left. split; [|done]. by rewrite A8, U6, U4, U3.
  - right. exists epoch, revoked, p.
    assert (w' = w8 ∧ ∀ v, r = Ok v → v = build epoch revoked) as [-> Hr]
      by (destruct x8 as [[]|e8]; injection E as <- <-; split; [done|congruence|done|congruence]).
    apply revoke_live_spec in E5 as [Nd Hi]; [|constructor]. destruct (live_reads _ _ _ _ E4) as [Hl1 Hl2].
    split; [|split; [done|split; [done|split; [done|split; [done|split; [done|]]]]]].
    + exists w2, w3, previous, live.*2. split; [done|]. split; [done|].
      split; [intros b Hb; apply Hl1; by eapply bound_before|].
      split; [intros b Hb%Hl2; do 3 (eapply bound_before; [eassumption|]); done|]. split; [done|].
      split; [|by eapply next_epoch_follows]. intros n. rewrite Hi, <- list_fmap_compose. set_solver.
    + destruct Ss as (c & Hc & Hs). exists c. by rewrite K8, U6, U4, U3.
Qed.
End Effects.

(** ** Both versions *)
Section Versions.
Context (sha256_hash : list u8 → list u8).
Context `{SerdeJson} `{Deserialize DocumentKind} `{Deserialize RuntimePolicyRegistry} `{Deserialize RuntimePrivatePolicyRegistry}
  `{Deserialize Activation} `{Deserialize ActivationV2}
  `{Serialize RuntimePolicyRegistry} `{Serialize RuntimePrivatePolicyRegistry} `{Serialize Activation} `{Serialize ActivationV2}
  `{Deserialize PrivateAttemptRecordV4} `{Deserialize RuntimeAdmissionSnapshot}
  `{Deserialize (RuntimeAttemptBinding * VerifiedCheckpointV1)}.
Context {World : Type} `{PolicyLaws World}.

Definition build_v1 (registry : RuntimePolicyRegistry) (digest : DiagnosticSha256) (epoch : PolicyEpoch) (revoked : list Nonce128) : Activation :=
  {| ac_format := "memcordon.local-activation"; ac_revision := 1; ac_registry := registry; ac_registry_digest := digest;
     ac_epoch := epoch; ac_revoked_admissions := revoked |}.
Definition build_v2 (registry : RuntimePrivatePolicyRegistry) (digest : DiagnosticSha256) (epoch : PolicyEpoch) (revoked : list Nonce128)
    : ActivationV2 :=
  {| bc_format := "memcordon.local-private-activation"; bc_revision := 1; bc_registry := registry; bc_registry_digest := digest;
     bc_epoch := epoch; bc_revoked_admissions := revoked |}.

Lemma bind_lift {E A B} (x : result E A) (k : A → stM World E B) (w : World) :
  (st_lift x ≫= k) w = match x with Ok a => k a w | Err e => (w, Err e) end.
Proof. by destruct x. Qed.
(** Two continuations that agree make binds that agree. *)
Lemma bind_same {E A B} (m : stM World E A) (k l : A → stM World E B) (w : World) :
  (∀ a w, k a w = l a w) → (m ≫= k) w = (m ≫= l) w.
Proof. intros Hk. unfold mbind, stM_bind. destruct (m w) as [v [a|e]]; [apply Hk|done]. Qed.

Lemma activate_shared registry instance digest encoded w :
  registry_validate sha256_hash registry = Ok () → registry_digest sha256_hash registry = Ok digest → to_vec registry = Ok encoded →
  activate sha256_hash registry instance w =
  activate_from sha256_hash digest encoded 1 (pr_active_attempt_disposition registry) instance (build_v1 registry digest) (λ _, Ok ()) w.
Proof.
  intros Hv Hd He. unfold activate, retain_snapshot, activate_from. rewrite bind_lift, Hv, bind_lift, Hd.
  apply bind_same. intros [] w1.
  transitivity ((retain_snapshot_encoded sha256_hash digest encoded 1 ≫= λ _, read_active sha256_hash ≫= λ previous,
    versioned_live_bindings sha256_hash ≫= λ live, st_lift (next_revocations_versioned previous (pr_active_attempt_disposition registry) live) ≫= λ revoked,
    next_epoch instance previous ≫= λ epoch, st_lift (registry_digest sha256_hash registry) ≫= λ digest,
    write_activation (build_v1 registry digest epoch revoked) ≫= λ _, mret (build_v1 registry digest epoch revoked)) w1).
  { unfold mbind at 1 9, stM_bind at 1 9. rewrite Hd. by rewrite He. }
  repeat (apply bind_same; intros ? ?). by rewrite !bind_lift, Hd.
Qed.
Lemma activate_shared_v2 registry instance digest encoded w :
  registry_validate_v2 sha256_hash registry = Ok () → registry_digest_v2 sha256_hash registry = Ok digest → to_vec registry = Ok encoded →
  activate_v2 sha256_hash registry instance w =
  activate_from sha256_hash digest encoded 2 (qr_active_attempt_disposition registry) instance (build_v2 registry digest)
    (activation_validate_v2 sha256_hash) w.
Proof.
  intros Hv Hd He. unfold activate_v2, retain_snapshot_v2, activate_from. rewrite bind_lift, Hv, bind_lift, Hd.
  apply bind_same. intros [] w1.
  transitivity ((retain_snapshot_encoded sha256_hash digest encoded 2 ≫= λ _, read_active sha256_hash ≫= λ previous,
    versioned_live_bindings sha256_hash ≫= λ live, st_lift (next_revocations_versioned previous (qr_active_attempt_disposition registry) live) ≫= λ revoked,
    next_epoch instance previous ≫= λ epoch, st_lift (registry_digest_v2 sha256_hash registry) ≫= λ digest,
    st_lift (activation_validate_v2 sha256_hash (build_v2 registry digest epoch revoked)) ≫= λ _,
    write_activation (build_v2 registry digest epoch revoked) ≫= λ _, mret (build_v2 registry digest epoch revoked)) w1).
  { unfold mbind at 1 10, stM_bind at 1 10. rewrite Hd. by rewrite He. }
  repeat (apply bind_same; intros ? ?). by rewrite bind_lift, Hd.
Qed.

Lemma activate_cases registry instance w w' r : activate sha256_hash registry instance w = (w', r) →
  snapshots_kept w w' (needed sha256_hash w w') ∧
  ((untouched w w' ∧ ∀ v, r ≠ Ok v) ∨
  ∃ digest encoded, registry_digest sha256_hash registry = Ok digest ∧ to_vec registry = Ok encoded ∧
    replaced sha256_hash digest encoded 1 (pr_active_attempt_disposition registry) instance (build_v1 registry digest) (λ _, Ok ()) w w' r).
Proof.
  intros E. enough ((untouched w w' ∧ ∀ v, r ≠ Ok v) ∨ ∃ digest encoded, registry_digest sha256_hash registry = Ok digest ∧
    to_vec registry = Ok encoded ∧ activate_from sha256_hash digest encoded 1 (pr_active_attempt_disposition registry) instance
      (build_v1 registry digest) (λ _, Ok ()) w = (w', r)) as [[U N]|(digest & encoded & Hd & He & Ea)].
  { split; [intros d c _; by rewrite U|by left]. }
  { split; [exact (activate_from_keeps _ _ _ _ _ _ _ _ _ _ _ Ea)|right]. exists digest, encoded. split; [done|]. split; [done|]. by apply activate_from_spec. }
  revert E.
  destruct (registry_validate sha256_hash registry) as [[]|e] eqn:Hv;
    [|intros E; left; unfold activate in E; rewrite bind_lift, Hv in E; by injection E as <- <-].
  destruct (registry_digest sha256_hash registry) as [digest|e] eqn:Hd;
    [|intros E; left; unfold activate in E; rewrite bind_lift, Hv, bind_lift, Hd in E; by injection E as <- <-].
  destruct (to_vec registry) as [encoded|e] eqn:He.
  - intros E. right. exists digest, encoded. split; [done|]. split; [done|].
    by rewrite (activate_shared _ _ _ _ _ Hv Hd He) in E.
  - intros E. left. unfold activate in E. rewrite bind_lift, Hv, bind_lift, Hd in E.
    apply still_then in E as (w1 & x1 & _ & U1 & E); [|apply check_capacity_still].
    destruct x1 as [[]|e1]; [|by destruct E as [-> ->]]. unfold retain_snapshot in E.
    unfold mbind at 1, stM_bind at 1 in E. rewrite bind_lift, Hd, bind_lift, He in E. by injection E as <- <-.
Qed.
Lemma activate_cases_v2 registry instance w w' r : activate_v2 sha256_hash registry instance w = (w', r) →
  snapshots_kept w w' (needed sha256_hash w w') ∧
  ((untouched w w' ∧ ∀ v, r ≠ Ok v) ∨
  ∃ digest encoded, registry_digest_v2 sha256_hash registry = Ok digest ∧ to_vec registry = Ok encoded ∧
    replaced sha256_hash digest encoded 2 (qr_active_attempt_disposition registry) instance (build_v2 registry digest)
      (activation_validate_v2 sha256_hash) w w' r).
Proof.
  intros E. enough ((untouched w w' ∧ ∀ v, r ≠ Ok v) ∨ ∃ digest encoded, registry_digest_v2 sha256_hash registry = Ok digest ∧
    to_vec registry = Ok encoded ∧ activate_from sha256_hash digest encoded 2 (qr_active_attempt_disposition registry) instance
      (build_v2 registry digest) (activation_validate_v2 sha256_hash) w = (w', r)) as [[U N]|(digest & encoded & Hd & He & Ea)].
  { split; [intros d c _; by rewrite U|by left]. }
  { split; [exact (activate_from_keeps _ _ _ _ _ _ _ _ _ _ _ Ea)|right]. exists digest, encoded. split; [done|]. split; [done|]. by apply activate_from_spec. }
  revert E.
  destruct (registry_validate_v2 sha256_hash registry) as [[]|e] eqn:Hv;
    [|intros E; left; unfold activate_v2 in E; rewrite bind_lift, Hv in E; by injection E as <- <-].
  destruct (registry_digest_v2 sha256_hash registry) as [digest|e] eqn:Hd;
    [|intros E; left; unfold activate_v2 in E; rewrite bind_lift, Hv, bind_lift, Hd in E; by injection E as <- <-].
  destruct (to_vec registry) as [encoded|e] eqn:He.
  - intros E. right. exists digest, encoded. split; [done|]. split; [done|].
    by rewrite (activate_shared_v2 _ _ _ _ _ Hv Hd He) in E.
  - intros E. left. unfold activate_v2 in E. rewrite bind_lift, Hv, bind_lift, Hd in E.
    apply still_then in E as (w1 & x1 & _ & U1 & E); [|apply check_capacity_still].
    destruct x1 as [[]|e1]; [|by destruct E as [-> ->]]. unfold retain_snapshot_v2 in E.
    unfold mbind at 1, stM_bind at 1 in E. rewrite bind_lift, Hd, bind_lift, He in E. by injection E as <- <-.
Qed.

(** ** Reading an activation back *)
(** What serde_json does to activations: the line reads back with its keys and
    its kind, and is at most 64 KiB longer than the registry's own text. *)
Class ActivationSerde : Prop := {
  as_line_v1 (v : Activation) p : to_vec v = Ok p →
    from_slice (p ++ [LF]) = Ok v ∧ reject_duplicate_json_keys (p ++ [LF]) = Ok () ∧
    from_slice (p ++ [LF]) = Ok {| dk_revision := Some (ac_revision v); dk_format := Some (ac_format v) |};
  as_line_v2 (v : ActivationV2) p : to_vec v = Ok p →
    from_slice (p ++ [LF]) = Ok v ∧ reject_duplicate_json_keys (p ++ [LF]) = Ok () ∧
    from_slice (p ++ [LF]) = Ok {| dk_revision := Some (bc_revision v); dk_format := Some (bc_format v) |};
  as_size_v1 (v : Activation) p q : to_vec v = Ok p → to_vec (ac_registry v) = Ok q → blen p <= blen q + 64 * 1024;
  as_size_v2 (v : ActivationV2) p q : to_vec v = Ok p → to_vec (bc_registry v) = Ok q → blen p <= blen q + 64 * 1024
}.
Lemma fits_file p q : blen p <= blen q + 64 * 1024 → over REGISTRY_BYTES q = false → over ACTIVATION_BYTES (p ++ [LF]) = false.
Proof.
  intros Hl Hq%over_false. apply over_false. rewrite length_app. unfold blen, ACTIVATION_BYTES, REGISTRY_BYTES, PUBLIC_OBJECT_BYTES in *. cbn. lia.
Qed.
Lemma parses_v1 `{!ActivationSerde} registry digest epoch revoked p q :
  registry_digest sha256_hash registry = Ok digest → to_vec registry = Ok q → over REGISTRY_BYTES q = false →
  to_vec (build_v1 registry digest epoch revoked) = Ok p →
  activation_parse sha256_hash (p ++ [LF]) = Ok (Active_V1 (build_v1 registry digest epoch revoked)).
Proof.
  intros Hd Hq Ho Hp. destruct (as_line_v1 _ _ Hp) as (E1 & E2 & E3). pose proof (fits_file _ _ (as_size_v1 _ _ _ Hp Hq) Ho) as Hf.
  unfold activation_parse, document_kind. rewrite Hf, E2. cbn [guard_err mbind result_bind]. rewrite E3. cbn [mbind result_bind].
  rewrite bool_decide_true by done. cbn [dk_format build_v1 ac_format negb guard_err mbind result_bind].
  rewrite bool_decide_true by done. cbn [N.eqb Pos.eqb mbind result_bind]. rewrite E1. cbn [mbind result_bind].
  unfold activation_validate. cbn [build_v1 ac_format ac_revision ac_registry ac_registry_digest]. rewrite bool_decide_true by done.
  cbn [negb orb N.eqb Pos.eqb guard_err mbind result_bind]. rewrite Hd. cbn [mbind result_bind]. by rewrite bool_decide_true by done.
Qed.
Lemma parses_v2 `{!ActivationSerde} registry digest epoch revoked p q :
  activation_validate_v2 sha256_hash (build_v2 registry digest epoch revoked) = Ok () → to_vec registry = Ok q →
  over REGISTRY_BYTES q = false → to_vec (build_v2 registry digest epoch revoked) = Ok p →
  activation_parse sha256_hash (p ++ [LF]) = Ok (Active_V2 (build_v2 registry digest epoch revoked)).
Proof.
  intros Hv Hq Ho Hp. destruct (as_line_v2 _ _ Hp) as (E1 & E2 & E3). pose proof (fits_file _ _ (as_size_v2 _ _ _ Hp Hq) Ho) as Hf.
  unfold activation_parse, document_kind. rewrite Hf, E2. cbn [guard_err mbind result_bind]. rewrite E3. cbn [mbind result_bind].
  rewrite bool_decide_true by done. cbn [dk_format build_v2 bc_format negb guard_err mbind result_bind].
  rewrite bool_decide_false by discriminate. rewrite bool_decide_true by done. cbn [N.eqb Pos.eqb mbind result_bind].
  rewrite E1. cbn [mbind result_bind]. by rewrite Hv.
Qed.

(** ** Any activation *)
Inductive operation : Type :=
| Install (registry : RuntimePolicyRegistry) (instance : option Nonce128)
| InstallPrivate (registry : RuntimePrivatePolicyRegistry) (instance : option Nonce128).
Definition perform (op : operation) : stM World string VersionedActivation :=
  match op with
  | Install registry instance => v ← activate sha256_hash registry instance; mret (Active_V1 v)
  | InstallPrivate registry instance => v ← activate_v2 sha256_hash registry instance; mret (Active_V2 v)
  end.
Definition disposition_of (op : operation) : GrantChangeDisposition :=
  match op with Install r _ => pr_active_attempt_disposition r | InstallPrivate r _ => qr_active_attempt_disposition r end.
Definition instance_of (op : operation) : option Nonce128 := match op with Install _ i | InstallPrivate _ i => i end.
Definition digest_of (op : operation) : result string DiagnosticSha256 :=
  match op with Install r _ => registry_digest sha256_hash r | InstallPrivate r _ => registry_digest_v2 sha256_hash r end.
Definition version_of (op : operation) : N := match op with Install _ _ => 1 | InstallPrivate _ _ => 2 end.
Definition text_of (op : operation) : result string (list u8) := match op with Install r _ => to_vec r | InstallPrivate r _ => to_vec r end.
Definition revoked_of (v : VersionedActivation) : list Nonce128 :=
  match v with Active_V1 v => ac_revoked_admissions v | Active_V2 v => bc_revoked_admissions v end.
Definition epoch_of (v : VersionedActivation) : PolicyEpoch := match v with Active_V1 v => ac_epoch v | Active_V2 v => bc_epoch v end.
Lemma perform_spec `{!ActivationSerde} op w w' r : perform op w = (w', r) →
  snapshots_kept w w' (needed sha256_hash w w') ∧
  ((policy_file w' ACTIVATION_FILE = policy_file w ACTIVATION_FILE ∧ ∀ v, r ≠ Ok v) ∨
  ∃ v digest text, in_force sha256_hash w' v ∧ (∀ x, r = Ok x → x = v) ∧ digest_of op = Ok digest ∧ active_digest v = digest ∧
    text_of op = Ok text ∧ computed sha256_hash w w' (disposition_of op) (instance_of op) (epoch_of v) (revoked_of v) ∧
    snapshot_stored sha256_hash digest text (version_of op) w').
Proof.
  destruct op as [registry instance|registry instance]; unfold perform, mbind, stM_bind.
  - destruct (activate sha256_hash registry instance w) as [w1 x] eqn:E1. intros E.
    assert (w' = w1 ∧ ∀ y, r = Ok y → ∃ v, x = Ok v ∧ y = Active_V1 v) as [-> Hx] by (destruct x; injection E as <- <-; naive_solver).
    apply activate_cases in E1 as [K [[U N]|(digest & q & Hd & Hq & [[A N]|(epoch & revoked & p & Hc & _ & Hp & Ho & A & Hr & Hs)])]];
      (split; [exact K|]);
      [left; split; [apply U|intros v (y & Hy & _)%Hx; by eapply N]|left; split; [done|intros v (y & Hy & _)%Hx; by eapply N]|].
    right. exists (Active_V1 (build_v1 registry digest epoch revoked)), digest, q.
    split; [eexists; split; [exact A|by eapply parses_v1]|]. split; [intros y (v & ->%Hr & ->)%Hx; done|by split_and!].
  - destruct (activate_v2 sha256_hash registry instance w) as [w1 x] eqn:E1. intros E.
    assert (w' = w1 ∧ ∀ y, r = Ok y → ∃ v, x = Ok v ∧ y = Active_V2 v) as [-> Hx] by (destruct x; injection E as <- <-; naive_solver).
    apply activate_cases_v2 in E1 as [K [[U N]|(digest & q & Hd & Hq & [[A N]|(epoch & revoked & p & Hc & Hv & Hp & Ho & A & Hr & Hs)])]];
      (split; [exact K|]);
      [left; split; [apply U|intros v (y & Hy & _)%Hx; by eapply N]|left; split; [done|intros v (y & Hy & _)%Hx; by eapply N]|].
    right. exists (Active_V2 (build_v2 registry digest epoch revoked)), digest, q.
    split; [eexists; split; [exact A|by eapply parses_v2]|]. split; [intros y (v & ->%Hr & ->)%Hx; done|by split_and!].
Qed.

Lemma read_active_in_force w w' previous v : read_active sha256_hash w = (w', Ok previous) → in_force sha256_hash w v →
  ∃ value, previous = Some value ∧ ac_revoked_admissions value = revoked_of v ∧ ac_epoch value = epoch_of v.
Proof.
  unfold read_active. intros E Hf. apply stM_bind_Ok in E as (w1 & active & Ea & E).
  rewrite (read_any_in_force _ _ _ _ Ea _ Hf) in E. destruct v as [v|v]; [injection E as _ <-; by exists v|].
  apply stM_bind_Ok in E as (? & b & [-> Eb]%st_lift_Ok & E). injection E as _ <-. unfold baseline_projection in Eb. run_ok.
  by eexists.
Qed.

(** An attempt with the admission has its record in the state root. *)
Definition held (w : World) (nonce : Nonce128) : Prop := ∃ b, bound sha256_hash w b ∧ binding_admission_nonce b = nonce.
(** What happens to the policy while an admission is held: activations, each of
    which may fail half-way, after which it is still held; and between them
    anything that leaves the policy files alone, such as attempts that begin,
    advance and end. *)
Inductive held_step (nonce : Nonce128) : World → World → Prop :=
| held_activation op w w' r : perform op w = (w', r) → held w' nonce → held_step nonce w w'
| held_attempts w w' : untouched w w' → held_step nonce w w'.

Lemma perform_keeps `{!ActivationSerde} op w w' r v nonce :
  perform op w = (w', r) → held w' nonce → in_force sha256_hash w v → nonce ∈ revoked_of v →
  ∃ v', in_force sha256_hash w' v' ∧ nonce ∈ revoked_of v'.
Proof.
  intros E (b & Hb & <-) Hf Hn. apply perform_spec in E as [_ [[A _]|(v' & digest & text & Hf' & _ & _ & _ & _ & Hc & _)]];
    [exists v; split; [by eapply in_force_same|done]|].
  destruct Hc as (w1 & w2 & previous & live & A & Er & Hl & _ & _ & Hi & _).
  destruct (read_active_in_force _ _ _ v Er) as (value & -> & Hr & _); [by eapply in_force_same|].
  exists v'. split; [done|]. apply Hi. split; [by apply list_elem_of_fmap_2, Hl|]. right. cbn. by rewrite Hr.
Qed.

(** C30: a revocation holds for as long as it matters.  Through any number of
    later activations, public or private, by an administrator or by a new service
    instance, successful or failed half-way, and whatever attempts do between
    them, the activation in force still revokes the admission, provided that
    after each activation some attempt with the admission has its record in the
    state root. *)
Theorem revocation_persists `{!ActivationSerde} nonce w w' v : rtc (held_step nonce) w w' →
  in_force sha256_hash w v → nonce ∈ revoked_of v → ∃ v', in_force sha256_hash w' v' ∧ nonce ∈ revoked_of v'.
Proof.
  intros Hs. revert v. induction Hs as [w|w w1 w2 Hs _ IH]; intros v Hf Hn; [by exists v|].
  destruct Hs as [op w w1 r E Hh|w w1 U].
  - destruct (perform_keeps _ _ _ _ _ _ E Hh Hf Hn) as (v1 & Hf1 & Hn1). by eapply IH.
  - eapply IH; [eapply in_force_same; [apply U|exact Hf]|done].
Qed.

End Versions.

(** ** An activation that revokes a live attempt *)
Module ActivationExamples.
Import RegistryExamples EvidenceExamples JournalExamples.
#[local] Existing Instances AttemptExamples.reads_snapshot AttemptExamples.reads_checkpoint.
#[local] Instance any_json : SerdeJson := {| json_of := λ _, Ok JNull |}.
#[local] Instance no_private : Deserialize PrivateAttemptRecordV4 := {| from_slice := λ _, Err "unused"%string |}.

(** The policy directory; the state root holds the record of one live attempt. *)
Definition directory : Type := string → option (list u8).
Definition put (n : string) (l : option (list u8)) (w : directory) : directory := λ m, if String.eqb m n then l else w m.
Definition live_record : list u8 := default [] (get AttemptExamples.planned.1 AttemptExamples.name).
Definition record_here (n : string) : option (list u8) := if String.eqb n AttemptExamples.name then Some live_record else None.
Definition plain (kind : file_kind) : Metadata :=
  {| me_kind := kind; me_uid := 0; me_nlink := 1; me_mode := 384; me_len := 0; me_dev := 1; me_ino := 1; me_mtime := 0; me_mtime_nsec := 0 |}.
#[local] Instance state_records : RecoveryHost directory := {|
  state_root_kind w := (w, Ok Kind_Dir); cgroup_root_kind w := (w, Ok Kind_Dir);
  read_state_root w := (w, Ok []); read_cgroup_root w := (w, Ok []);
  state_metadata _ w := (w, Ok (plain Kind_File)); cgroup_metadata _ w := (w, Ok (plain Kind_Dir));
  open_state_root w := (w, Ok (plain Kind_Dir)); sync_state_root w := (w, Ok ());
  open_state_file _ w := (w, Ok ()); opened_metadata _ w := (w, Ok (plain Kind_File));
  read_state_file n k w := (w, ok_or "No such file"%string (take (N.to_nat k) <$> record_here n)); remove_state_file _ w := (w, Ok ());
  signal_zero _ w := (w, true); boot_id w := (w, Ok "boot"%string); process_start_time _ w := (w, Ok 1);
  proc_entry_exists _ w := (w, true); cgroup_inode _ w := (w, Ok 5); write_kill _ w := (w, Ok ());
  read_events _ w := (w, Ok []); read_procs _ w := (w, Ok []); remove_cgroup _ w := (w, Ok ());
  monotonic_nanos w := (w, Ok 0); instant_now w := (w, 0); sleep_millis _ w := (w, ())
|}.
Definition STALE : string := "00.snapshot".
Definition openat_here (n : string) (mode : open_mode) (w : directory) : directory * result open_failure () :=
  match mode, w n with
  | Open_Read, None => (w, Err (Open_NotFound "No such file"))
  | Open_Write_Create_New, Some _ => (w, Err (Open_Exists "File exists"))
  | _, None => (put n (Some []) w, Ok ())
  | _, Some _ => (w, Ok ())
  end.
Definition change (n : string) (f : list u8 → list u8) (w : directory) : directory * result string () :=
  match w n with Some l => (put n (Some (f l)) w, Ok ()) | None => (w, Err "No such file"%string) end.
#[local] Instance policies : PolicyHost directory := {|
  effective_uid w := (w, 0); create_policy_root w := (w, Ok ()); ancestor_metadata _ w := (w, Ok (plain Kind_Dir));
  open_policy_root w := (w, Ok ()); openat := openat_here; fstat _ w := (w, Ok (plain Kind_File));
  try_flock w := (w, None); unlock w := (w, ());
  read_at n k w := (w, ok_or "No such file"%string (take (N.to_nat k) <$> w n));
  truncate_at n := change n (λ _, []);
  write_at n l := change n (λ old, old ++ l);
  sync_at _ w := (w, Ok ());
  unlinkat n w := (put n None w, Ok ());
  renameat a b w := (put a None (put b (w a) w), Ok ());
  sync_policy_root w := (w, Ok ());
  policy_entries w := (w, Ok (Ok <$> List.filter (λ n, is_some (w n)) [ACTIVATION_FILE; STALE]));
  state_entries w := (w, Ok [Ok AttemptExamples.name]);
  state_entry_exists _ w := (w, true);
  getrandom k w := (w, Ok (replicate (N.to_nat k) NUL));
  shared_package_lease w := (w, Ok ());
  open_configuration _ w := (w, Ok true); read_configuration _ _ w := (w, Ok [])
|}.
Lemma put_other n m l w : m ≠ n → put n l w m = w m.
Proof. intros Hn. unfold put. by destruct (String.eqb_spec m n). Qed.
Lemma put_same n l w : put n l w n = l.
Proof. unfold put. by rewrite String.eqb_refl. Qed.
Lemma change_laws n f w w' r : change n f w = (w', r) →
  (∀ m, m ≠ n → w' m = w m) ∧ (r = Ok () → ∀ c, w n = Some c → w' n = Some (f c)).
Proof.
  unfold change. destruct (w n) as [c|]; intros [= <- <-]; [|done]. split; [by intros m Hm; apply put_other|].
  intros _ ? [= <-]. apply put_same.
Qed.
#[local] Instance policy_laws : PolicyLaws directory.
Proof.
  refine {| policy_file := λ w n, w n; attempt_file := λ _, record_here |}; cbn.
  - split_and!; intros; by intros ? ? ? _ ? ?.
  - intros w w' es [= <- <-] n [l Hl]. unfold record_here in Hl. destruct (String.eqb_spec n AttemptExamples.name); [subst; left|done].
  - intros n k w w' b [= <- E]. destruct (record_here n) as [l|]; [|done]. injection E as <-. by exists l.
  - done.
  - intros n w w' r. unfold openat_here. destruct (w n) eqn:E; intros [= <- <-]; by split_and!.
  - intros n w w' r. unfold openat_here. destruct (w n) eqn:E; intros [= <- <-].
    + split; [done|]. intros _. by rewrite E.
    + split; [by intros m Hm; apply put_other|]. intros _. by rewrite put_same.
  - intros n w w' r. unfold openat_here. destruct (w n) eqn:E; intros [= <- <-]; [split; [done|]; split; [intros c [= <-]; exact E|done]|].
    split; [by intros m Hm; apply put_other|]. split; [intros c Hc; congruence|]. intros _. by rewrite put_same.
  - intros w. split_and!; intros; simplify_eq; done.
  - intros w. split_and!; intros; simplify_eq; done.
  - intros n k w w' l. destruct (w n) as [c|]; cbn; [|done]. intros [= <- <-] ? [= <-]. done.
  - intros n w w' r E. apply change_laws in E as [E1 E2]. split; [done|]. intros Hr [c Hc]. by apply (E2 Hr c).
  - intros n l w w' r E. by apply change_laws in E.
  - intros n w w' r [= <- <-] m Hm. by apply put_other.
  - intros a b w w' r Hab [= <- <-]. split; [by intros n Ha Hb; rewrite !put_other|]. rewrite put_other by done. apply put_same.
Defined.

(** A registry that revokes and one that drains, with the activations they give. *)
Definition revoking : RuntimePolicyRegistry :=
  {| pr_format := "memcordon.local-policy"; pr_revision := 1; pr_profiles := []; pr_grants := [];
     pr_active_attempt_disposition := RevokeActive |}.
Definition digest (r : RuntimePolicyRegistry) : DiagnosticSha256 :=
  match registry_digest hash r with Ok d => d | Err _ => sha256 [] end.
Definition service : Nonce128 := nonce128 (replicate 16 "s"%char).
Definition first : Activation := build_v1 revoking (digest revoking) {| service_instance := service; revision := 1 |} [sn_admission_nonce snapshot].
Definition second : Activation :=
  build_v1 empty_registry (digest empty_registry) {| service_instance := service; revision := 2 |} [sn_admission_nonce snapshot].
#[local] Instance registry_eq_dec : EqDecision RuntimePolicyRegistry.
Proof. solve_decision. Defined.
#[local] Instance activation_eq_dec : EqDecision Activation.
Proof. solve_decision. Defined.
#[local] Instance writes_registry : Serialize RuntimePolicyRegistry := {| to_chunks := λ _, Ok [bytes "R"] |}.
#[local] Instance reads_registry : Deserialize RuntimePolicyRegistry := {| from_slice := λ _, Err "unused"%string |}.
#[local] Instance writes_private : Serialize RuntimePrivatePolicyRegistry := {| to_chunks := λ _, Err "unused"%string |}.
#[local] Instance reads_private : Deserialize RuntimePrivatePolicyRegistry := {| from_slice := λ _, Err "unused"%string |}.
#[local] Instance writes_v2 : Serialize ActivationV2 := {| to_chunks := λ _, Err "unused"%string |}.
#[local] Instance reads_v2 : Deserialize ActivationV2 := {| from_slice := λ _, Err "unused"%string |}.
#[local] Instance writes_v1 : Serialize Activation :=
  {| to_chunks := λ v, if v ≟ first then Ok [bytes "1"] else if v ≟ second then Ok [bytes "2"] else Err "unknown"%string |}.
#[local] Instance reads_v1 : Deserialize Activation :=
  {| from_slice := λ l, if l ≟ bytes "1" ++ [LF] then Ok first else if l ≟ bytes "2" ++ [LF] then Ok second else Err "unknown"%string |}.
#[local] Instance reads_kind : Deserialize DocumentKind :=
  {| from_slice := λ _, Ok {| dk_revision := Some 1; dk_format := Some "memcordon.local-activation"%string |} |}.
#[local] Instance sample_serde : ActivationSerde.
Proof.
  split.
  - intros v p. unfold to_vec. cbn [to_chunks writes_v1].
    destruct (decide (v = first)) as [->|N1]; [rewrite bool_decide_true by done; intros [= <-]; by vm_compute|].
    rewrite bool_decide_false by done.
    destruct (decide (v = second)) as [->|N2]; [rewrite bool_decide_true by done; intros [= <-]; by vm_compute|].
    by rewrite bool_decide_false by done.
  - done.
  - intros v p q. unfold to_vec. cbn [to_chunks writes_v1 writes_registry]. case_bool_decide; [|case_bool_decide; [|done]];
      intros [= <-] [= <-]; vm_compute; discriminate.
  - done.
Qed.
Definition bare : directory := put STALE (Some []) (λ _, None).
Definition install : operation := Install revoking (Some service).
Definition drain : operation := Install empty_registry None.
Definition revoked : directory := (perform hash install bare).1.
Lemma held_here (w : directory) : held hash w (sn_admission_nonce snapshot).
Proof.
  exists (Binding_V1 snapshot). split; [|reflexivity]. exists AttemptExamples.name, live_record.
  split; [vm_compute; reflexivity|]. split; [reflexivity|]. apply holds_public; vm_compute; reflexivity.
Qed.

(** A registry that drains follows; the revocation stays. *)
Lemma revocation_persists_witness :
  ∃ v, in_force hash (perform hash drain revoked).1 v ∧ sn_admission_nonce snapshot ∈ revoked_of v.
Proof.
  apply (revocation_persists hash (sn_admission_nonce snapshot) revoked _ (Active_V1 first)).
  - apply rtc_once. eapply (held_activation hash _ drain); [apply surjective_pairing|apply held_here].
  - exists (bytes "1" ++ [LF]). split; vm_compute; reflexivity.
  - left.
Defined.
End ActivationExamples.
