(* ===== verification/Boundary.v ===== *)
(** * Boundary evidence

    The launch, retirement and mechanism facts of memcordon-core/src/supervision.rs
    and the validator that both live backends and report readers use: a sealed
    claim is accepted only together with the native facts that support it.
    SHA-256 and the JSON reader are parameters of the section. *)

From S2P Require Import Prelude.
From S2P Require Import Decimal.
From S2P Require Import Bounded.
From S2P Require Import Codec.
From S2P Require Import Diagnostics.
From S2P Require Import WorkloadContract.
From S2P Require Import WorkloadCodec.
From S2P Require Import Policy.
From S2P Require Import Outcome.
From S2P Require Import Safety.
From S2P Require Import Float64.
From S2P Require Import Restart.
From S2P Require Import PrivateRuntime.
From Stdlib Require Import Ascii.

(** ** Capabilities *)

Inductive BoundaryClass : Type := Class_Standard | Class_Sealed | Class_Unavailable.
#[global] Instance BoundaryClass_eq_dec : EqDecision BoundaryClass.
Proof. solve_decision. Defined.

Record CapabilityStatusReport : Type := {
  cs_supported : bool;
  cs_reason : option string
}.
#[global] Instance CapabilityStatusReport_eq_dec : EqDecision CapabilityStatusReport.
Proof. solve_decision. Defined.

Record MemoryCapabilityReport : Type := {
  mc_supported : bool;
  mc_class : string;
  mc_metric : string;
  mc_reason : option string
}.
#[global] Instance MemoryCapabilityReport_eq_dec : EqDecision MemoryCapabilityReport.
Proof. solve_decision. Defined.

Record BoundaryCapability : Type := {
  bc_class : BoundaryClass;
  bc_mechanism : string;
  bc_target_gated : bool;
  bc_boundary_verified_before_authorization : bool;
  bc_target_can_reconfigure_boundary : bool;
  bc_frontend_loss_cleanup_authority : bool;
  bc_workload_empty_proof : bool;
  bc_limitations : list string
}.
#[global] Instance BoundaryCapability_eq_dec : EqDecision BoundaryCapability.
Proof. solve_decision. Defined.

Definition capability_is_consistent (self : BoundaryCapability) : bool :=
  (bc_class self ≠? Class_Sealed)
  || (bc_target_gated self
      && bc_boundary_verified_before_authorization self
      && negb (bc_target_can_reconfigure_boundary self)
      && bc_frontend_loss_cleanup_authority self
      && bc_workload_empty_proof self).

Record BoundaryQualificationReport : Type := {
  bq_provider_identity : string;
  bq_receipt_digest : string;
  bq_mechanism : string
}.
#[global] Instance BoundaryQualificationReport_eq_dec : EqDecision BoundaryQualificationReport.
Proof. solve_decision. Defined.

Record SealedUnavailableReport : Type := {
  su_reason : string;
  su_prerequisites : list string
}.
#[global] Instance SealedUnavailableReport_eq_dec : EqDecision SealedUnavailableReport.
Proof. solve_decision. Defined.

Record BackendCapabilityReport : Type := {
  br_name : string;
  br_containment : CapabilityStatusReport;
  br_boundary : BoundaryCapability;
  br_memory : option MemoryCapabilityReport;
  br_deadline : CapabilityStatusReport;
  br_restart : CapabilityStatusReport;
  br_deadline_scopes : list DeadlineScope;
  br_deadline_origin : option string;
  br_restart_conditions : RestartConditions;
  br_persistent_restart_state : bool;
  br_startup_containment : string;
  br_restart_cleanup_condition : string;
  br_limitations : list string;
  br_boundary_qualification : option BoundaryQualificationReport;
  br_sealed_unavailable : option SealedUnavailableReport
}.
#[global] Instance BackendCapabilityReport_eq_dec : EqDecision BackendCapabilityReport.
Proof. solve_decision. Defined.

(** ** Launch and mechanism facts *)

Record LaunchEvidence : Type := {
  ln_mechanism : string;
  ln_target_released : bool;
  ln_containment_verified_before_authorization : bool;
  ln_guardian_started_before_authorization : bool;
  ln_target_spawn_error_reported : bool;
  ln_boundary_requested : BoundaryRequirement;
  ln_boundary_effective : BoundaryClass;
  ln_boundary_assignment_verified : bool;
  ln_boundary_reconfiguration_denied : bool;
  ln_inherited_resources_restricted : bool;
  ln_frontend_loss_cleanup_authority_verified : bool
}.
#[global] Instance LaunchEvidence_eq_dec : EqDecision LaunchEvidence.
Proof. solve_decision. Defined.

Inductive CredentialTransitionDisposition : Type := PreserveCallerEnvelope.
#[global] Instance CredentialTransitionDisposition_eq_dec : EqDecision CredentialTransitionDisposition.
Proof. solve_decision. Defined.

Record LinuxSealedEvidenceV2 : Type := {
  ls_schema_version : N;
  ls_provider_identity : string;
  ls_control_service_identity : string;
  ls_launcher_service_identity : string;
  ls_cgroup_identity_digest : string;
  ls_cgroup_created : bool;
  ls_cgroup_owned_by_provider : bool;
  ls_memory_configuration_verified : bool;
  ls_init_created_into_cgroup : bool;
  ls_pid_namespace_created : bool;
  ls_mount_namespace_created : bool;
  ls_cgroup_namespace_created : bool;
  ls_target_pidfd_verified : bool;
  ls_target_cgroup_membership_verified : bool;
  ls_target_pid_namespace_verified : bool;
  ls_target_initial_credentials_verified : bool;
  ls_initial_provider_capabilities_absent : bool;
  ls_caller_no_new_privs_reproduced : bool;
  ls_caller_capability_bounding_set_reproduced : bool;
  ls_caller_mount_context_reproduced : bool;
  ls_credential_transition_disposition : CredentialTransitionDisposition;
  ls_boundary_independent_of_credentials : bool;
  ls_inherited_descriptors_verified : bool;
  ls_writable_ancestor_cgroup_denied : bool;
  ls_parent_namespace_handles_denied : bool;
  ls_recursive_provider_request_denied : bool;
  ls_guardian_ready : bool;
  ls_target_released : bool;
  ls_cgroup_kill_invoked : bool;
  ls_cgroup_empty_verified : bool;
  ls_namespace_init_reaped : bool;
  ls_guardian_reaped : bool;
  ls_cgroup_removed : bool
}.

Inductive WindowsLoaderQualificationStageV2 : Type :=
| PlanValidation | DesktopPreflight | ProcessCreate | SuspendedAttestation | Resume
| LoaderReadyHandshake | ContainmentReadback | ExitDrain.
Inductive WindowsLoaderNativeStatusV1 : Type :=
| LoaderWin32 (code : N) | LoaderNtStatus (code : N) | LoaderTargetExit (code : N)
| LoaderStable (code : string).
Inductive WindowsLoaderCleanupStatusV1 : Type :=
| LoaderCleanupNotStarted | LoaderCleanupComplete | LoaderCleanupFailed.

Record WindowsLoaderCleanupOutcomeV1 : Type := {
  lc_status : WindowsLoaderCleanupStatusV1;
  lc_stable_code : option string
}.

Record WindowsLoaderReadyEvidenceV1 : Type := {
  lr_schema_version : N;
  lr_launch_plan_sha256 : string;
  lr_launch_plan_json : option string;
  lr_elapsed_millis : N
}.

Record WindowsLoaderQualificationFailureV2 : Type := {
  lf_schema_version : N;
  lf_stable_code : string;
  lf_stage : WindowsLoaderQualificationStageV2;
  lf_native_status : option WindowsLoaderNativeStatusV1;
  lf_elapsed_millis : N;
  lf_launch_plan_sha256 : option string;
  lf_launch_plan_json : option string;
  lf_qualification_id : string;
  lf_cleanup : WindowsLoaderCleanupOutcomeV1;
  lf_diagnostic_id : option string;
  lf_detail : string
}.

Inductive WindowsLoaderQualificationOutcomeV2 : Type :=
| LoaderReady (ready : WindowsLoaderReadyEvidenceV1)
| LoaderFailed (failure : WindowsLoaderQualificationFailureV2).

#[global] Instance WindowsLoaderQualificationStageV2_eq_dec : EqDecision WindowsLoaderQualificationStageV2.
Proof. solve_decision. Defined.
#[global] Instance WindowsLoaderNativeStatusV1_eq_dec : EqDecision WindowsLoaderNativeStatusV1.
Proof. solve_decision. Defined.
#[global] Instance WindowsLoaderCleanupStatusV1_eq_dec : EqDecision WindowsLoaderCleanupStatusV1.
Proof. solve_decision. Defined.
#[global] Instance WindowsLoaderCleanupOutcomeV1_eq_dec : EqDecision WindowsLoaderCleanupOutcomeV1.
Proof. solve_decision. Defined.
#[global] Instance WindowsLoaderReadyEvidenceV1_eq_dec : EqDecision WindowsLoaderReadyEvidenceV1.
Proof. solve_decision. Defined.
#[global] Instance WindowsLoaderQualificationFailureV2_eq_dec : EqDecision WindowsLoaderQualificationFailureV2.
Proof. solve_decision. Defined.
#[global] Instance WindowsLoaderQualificationOutcomeV2_eq_dec : EqDecision WindowsLoaderQualificationOutcomeV2.
Proof. solve_decision. Defined.

(** memcordon-core/src/report.rs *)
Record WindowsTerminalDeliveryEvidenceV1 : Type := {
  td_schema_version : N;
  td_attempt_id : string;
  td_nonce : string;
  td_request_sha256 : string;
  td_authority_sha256 : string;
  td_retired_sha256 : string;
  td_retired_confirmed : bool
}.

Record WindowsSealedEvidenceV2 : Type := {
  ws_schema_version : N;
  ws_service_identity : string;
  ws_caller_token_authenticated : bool;
  ws_initial_target_token_matches_caller : bool;
  ws_credential_transition_disposition : CredentialTransitionDisposition;
  ws_job_membership_independent_of_token : bool;
  ws_job_created : bool;
  ws_job_limits_verified : bool;
  ws_kill_on_close_verified : bool;
  ws_breakaway_denied : bool;
  ws_completion_port_associated : bool;
  ws_guardian_ready : bool;
  ws_target_created_suspended : bool;
  ws_job_list_applied_at_creation : bool;
  ws_handle_list_applied_at_creation : bool;
  ws_target_job_membership_verified : bool;
  ws_target_still_suspended_during_verification : bool;
  ws_inherited_handles_verified : bool;
  ws_target_released : bool;
  ws_terminate_job_invoked : bool;
  ws_active_processes_zero : bool;
  ws_direct_target_reaped : bool;
  ws_relays_retired : bool;
  ws_guardian_reaped : bool;
  ws_final_job_handles_closed : bool;
  ws_loader_qualification : option WindowsLoaderQualificationOutcomeV2;
  ws_frontend_delivery : option WindowsTerminalDeliveryEvidenceV1
}.

Record MacosSealedEvidence : Type := {
  ms_schema_version : N;
  ms_daemon_identity : string;
  ms_system_extension_identity : string;
  ms_endpoint_security_entitled : bool;
  ms_required_subscriptions_active : bool;
  ms_event_sequence_complete : bool;
  ms_target_correlated_before_authorization : bool;
  ms_target_credentials_verified : bool;
  ms_inherited_descriptors_verified : bool;
  ms_guardian_ready : bool;
  ms_target_released : bool;
  ms_observed_fork_count : N;
  ms_observed_exec_count : N;
  ms_observed_exit_count : N;
  ms_known_members_terminated : bool;
  ms_reconciliation_complete : bool;
  ms_stable_empty_passes : N;
  ms_direct_target_reaped : bool;
  ms_helpers_reaped : bool;
  ms_launch_job_retired : bool
}.

Inductive BoundaryMechanismEvidence : Type :=
| Mechanism_Standard (backend : string)
| Mechanism_SetupFailure (provider_mechanism : string) (requested : BoundaryRequirement)
| LinuxPidNamespaceCgroupV2 (native : LinuxSealedEvidenceV2)
| LinuxPrivateTcp4 (native : PrivateRuntimeExecution)
| WindowsJobObjectV2 (native : WindowsSealedEvidenceV2)
| MacosEndpointSecurityV1 (native : MacosSealedEvidence).

(** ** Loader qualification *)

Definition launch_plan_json (self : WindowsLoaderQualificationOutcomeV2) : option string :=
  match self with
  | LoaderReady ready => lr_launch_plan_json ready
  | LoaderFailed failure => lf_launch_plan_json failure
  end.

Definition set_plan_json (plan_json : option string) (self : WindowsLoaderQualificationOutcomeV2)
    : WindowsLoaderQualificationOutcomeV2 :=
  match self with
  | LoaderReady r => LoaderReady
      {| lr_schema_version := lr_schema_version r; lr_launch_plan_sha256 := lr_launch_plan_sha256 r;
         lr_launch_plan_json := plan_json; lr_elapsed_millis := lr_elapsed_millis r |}
  | LoaderFailed f => LoaderFailed
      {| lf_schema_version := lf_schema_version f; lf_stable_code := lf_stable_code f;
         lf_stage := lf_stage f; lf_native_status := lf_native_status f;
         lf_elapsed_millis := lf_elapsed_millis f; lf_launch_plan_sha256 := lf_launch_plan_sha256 f;
         lf_launch_plan_json := plan_json; lf_qualification_id := lf_qualification_id f;
         lf_cleanup := lf_cleanup f; lf_diagnostic_id := lf_diagnostic_id f; lf_detail := lf_detail f |}
  end.
Definition set_launch_plan_json (plan_json : string) : _ → WindowsLoaderQualificationOutcomeV2 :=
  set_plan_json (Some plan_json).
Definition clear_launch_plan_json : _ → WindowsLoaderQualificationOutcomeV2 := set_plan_json None.

Definition digest_is_valid (value : string) : bool :=
  (str_len value =? 32 * 2) && str_all is_lower_hex value.

Definition sealed_generic_evidence_is_consistent (launch : LaunchEvidence)
    (restart_safety : RestartSafetyProof) : bool :=
  (ln_boundary_requested launch ≟ Sealed)
  && (ln_boundary_effective launch ≟ Class_Sealed)
  && ln_target_released launch
  && ln_containment_verified_before_authorization launch
  && ln_guardian_started_before_authorization launch
  && ln_target_spawn_error_reported launch
  && ln_boundary_assignment_verified launch
  && ln_boundary_reconfiguration_denied launch
  && ln_inherited_resources_restricted launch
  && ln_frontend_loss_cleanup_authority_verified launch
  && is_safe_for restart_safety Sealed.

Section Boundary.
  Context (sha256_hash : list u8 → list u8).
  (** The string member [launch_plan_sha256] of a JSON object, as serde_json
      reads it. *)
  Context (json_plan_digest : string → option string).

Definition loader_plan_json_is_bound (json expected_digest : string) (maximum : N) : bool :=
  if str_is_empty json || (maximum <? str_len json) || str_contains NUL json then false
  else is_some_and (λ digest, digest ≟ expected_digest) (json_plan_digest json).

Definition loader_is_consistent (self : WindowsLoaderQualificationOutcomeV2) : bool :=
  match self with
  | LoaderReady ready =>
      (lr_schema_version ready =? 1)
      && digest_is_valid (lr_launch_plan_sha256 ready)
      && is_none_or (λ json, loader_plan_json_is_bound json (lr_launch_plan_sha256 ready) (64 * 1024))
           (lr_launch_plan_json ready)
  | LoaderFailed failure =>
      (lf_schema_version failure =? 2)
      && negb (str_is_empty (lf_stable_code failure))
      && (str_len (lf_stable_code failure) <=? 128)
      && negb (str_is_empty (lf_qualification_id failure))
      && (str_len (lf_qualification_id failure) <=? 128)
      && negb (str_is_empty (lf_detail failure))
      && (str_len (lf_detail failure) <=? 512)
      && is_none_or digest_is_valid (lf_launch_plan_sha256 failure)
      && match lf_launch_plan_sha256 failure, lf_launch_plan_json failure with
         | Some digest, Some json => loader_plan_json_is_bound json digest (64 * 1024)
         | None, Some _ => false
         | _, None => true
         end
      && (is_some (lf_launch_plan_sha256 failure)
          || match lf_stage failure with PlanValidation | DesktopPreflight => true | _ => false end)
      && is_none_or (λ value, negb (str_is_empty value) && (str_len value <=? 128)) (lf_diagnostic_id failure)
      && match lc_status (lf_cleanup failure) with
         | LoaderCleanupFailed =>
             is_some_and (λ value, negb (str_is_empty value) && (str_len value <=? 512))
               (lc_stable_code (lf_cleanup failure))
         | LoaderCleanupNotStarted | LoaderCleanupComplete => is_none (lc_stable_code (lf_cleanup failure))
         end
  end.

(** Dropping the plan from an outcome that checks leaves one that checks: the
    plan is carried next to its digest, not part of the verdict. *)
Lemma clear_launch_plan_json_consistent o :
  loader_is_consistent o = true → loader_is_consistent (clear_launch_plan_json o) = true.
Proof.
  destruct o as [r|f]; cbn; intros H; bool_hyps; bool_goal; try done.
  by destruct (lf_launch_plan_sha256 f).
Qed.

(** ** The validator *)

(** The facts a released sealed launch has verified before it was authorized. *)
Definition launch_verified (launch : LaunchEvidence) : bool :=
  (ln_boundary_effective launch ≟ Class_Sealed)
  && ln_containment_verified_before_authorization launch
  && ln_guardian_started_before_authorization launch
  && ln_boundary_assignment_verified launch
  && ln_boundary_reconfiguration_denied launch
  && ln_inherited_resources_restricted launch
  && ln_frontend_loss_cleanup_authority_verified launch.

Definition linux_is_consistent (launch : LaunchEvidence) (restart_safety : RestartSafetyProof)
    (native : LinuxSealedEvidenceV2) : bool :=
  sealed_generic_evidence_is_consistent launch restart_safety
  && (ln_mechanism launch ≟ "linux-pid-namespace-cgroup-v2"%string)
  && (ls_schema_version native =? 2)
  && (ls_provider_identity native ≟ "memcordon-sealed-agent-v2"%string)
  && (ls_control_service_identity native ≟ "memcordon-sealed-agent.service:v2"%string)
  && (ls_launcher_service_identity native ≟ "memcordon-sealed-launcher.service:v2"%string)
  && (str_len (ls_cgroup_identity_digest native) =? 64)
  && str_all is_ascii_hexdigit (ls_cgroup_identity_digest native)
  && ls_cgroup_created native
  && ls_cgroup_owned_by_provider native
  && ls_memory_configuration_verified native
  && ls_init_created_into_cgroup native
  && ls_pid_namespace_created native
  && ls_mount_namespace_created native
  && ls_cgroup_namespace_created native
  && ls_target_pidfd_verified native
  && ls_target_cgroup_membership_verified native
  && ls_target_pid_namespace_verified native
  && ls_target_initial_credentials_verified native
  && ls_initial_provider_capabilities_absent native
  && ls_caller_no_new_privs_reproduced native
  && ls_caller_capability_bounding_set_reproduced native
  && ls_caller_mount_context_reproduced native
  && (ls_credential_transition_disposition native ≟ PreserveCallerEnvelope)
  && ls_boundary_independent_of_credentials native
  && ls_inherited_descriptors_verified native
  && ls_writable_ancestor_cgroup_denied native
  && ls_parent_namespace_handles_denied native
  && ls_recursive_provider_request_denied native
  && ls_guardian_ready native
  && Bool.eqb (ls_target_released native) (ln_target_released launch)
  && ls_cgroup_kill_invoked native
  && ls_cgroup_empty_verified native
  && ls_namespace_init_reaped native
  && ls_guardian_reaped native
  && ls_cgroup_removed native.

Definition private_is_consistent (launch : LaunchEvidence) (restart_safety : RestartSafetyProof)
    (native : PrivateRuntimeExecution) : bool :=
  is_ok (execution_validate sha256_hash native)
  && (ln_mechanism launch ≟ "linux-tcp4-private-v1"%string)
  && (ln_boundary_requested launch ≟ Sealed)
  && Bool.eqb (ln_target_released launch) (is_some (pt_authorization_offset_millis (pe_terminal native)))
  && (if ln_target_released launch
      then (ln_boundary_effective launch ≟ Class_Sealed)
           && ln_containment_verified_before_authorization launch
           && ln_guardian_started_before_authorization launch
           && ln_boundary_assignment_verified launch
           && ln_inherited_resources_restricted launch
      else ln_boundary_effective launch ≟ Class_Unavailable)
  && Bool.eqb (rsp_sealed_boundary_retired restart_safety) (cleanup_state native ≟ CleanupComplete)
  && (negb (is_safe restart_safety) || (cleanup_state native ≟ CleanupComplete)).

Definition windows_is_consistent (launch : LaunchEvidence) (restart_safety : RestartSafetyProof)
    (native : WindowsSealedEvidenceV2) : bool :=
  sealed_generic_evidence_is_consistent launch restart_safety
  && (ln_mechanism launch ≟ "windows-job-object-v2"%string)
  && (ws_schema_version native =? 2)
  && (ws_service_identity native ≟ "MemCordonSealedControl+MemCordonSealedLauncher:v1"%string)
  && ws_caller_token_authenticated native
  && ws_initial_target_token_matches_caller native
  && (ws_credential_transition_disposition native ≟ PreserveCallerEnvelope)
  && ws_job_membership_independent_of_token native
  && ws_job_created native
  && ws_job_limits_verified native
  && ws_kill_on_close_verified native
  && ws_breakaway_denied native
  && ws_completion_port_associated native
  && ws_guardian_ready native
  && ws_target_created_suspended native
  && ws_job_list_applied_at_creation native
  && ws_handle_list_applied_at_creation native
  && ws_target_job_membership_verified native
  && ws_target_still_suspended_during_verification native
  && ws_inherited_handles_verified native
  && Bool.eqb (ws_target_released native) (ln_target_released launch)
  && ws_terminate_job_invoked native
  && ws_active_processes_zero native
  && ws_direct_target_reaped native
  && ws_relays_retired native
  && ws_guardian_reaped native
  && ws_final_job_handles_closed native
  && is_none_or loader_is_consistent (ws_loader_qualification native).

Definition macos_is_consistent (launch : LaunchEvidence) (restart_safety : RestartSafetyProof)
    (native : MacosSealedEvidence) : bool :=
  sealed_generic_evidence_is_consistent launch restart_safety
  && (ln_mechanism launch ≟ "macos-endpoint-security-v1"%string)
  && (ms_schema_version native =? 1)
  && negb (str_is_empty (ms_daemon_identity native))
  && negb (str_is_empty (ms_system_extension_identity native))
  && ms_endpoint_security_entitled native
  && ms_required_subscriptions_active native
  && ms_event_sequence_complete native
  && ms_target_correlated_before_authorization native
  && ms_target_credentials_verified native
  && ms_inherited_descriptors_verified native
  && ms_guardian_ready native
  && Bool.eqb (ms_target_released native) (ln_target_released launch)
  && ms_known_members_terminated native
  && ms_reconciliation_complete native
  && (2 <=? ms_stable_empty_passes native)
  && ms_direct_target_reaped native
  && ms_helpers_reaped native
  && ms_launch_job_retired native.

Definition boundary_evidence_is_consistent (launch : LaunchEvidence)
    (restart_safety : RestartSafetyProof) (detail : BoundaryMechanismEvidence) : bool :=
  match detail with
  | Mechanism_Standard backend =>
      negb (str_is_empty backend)
      && negb (str_is_empty (ln_mechanism launch))
      && (ln_boundary_requested launch ≟ Standard)
      && (ln_boundary_effective launch ≟ Class_Standard)
      && negb (rsp_sealed_boundary_retired restart_safety)
  | Mechanism_SetupFailure provider_mechanism requested =>
      let retirement_is_consistent :=
        negb (rsp_sealed_boundary_retired restart_safety) || is_safe_for restart_safety Sealed in
      negb (str_is_empty provider_mechanism)
      && (ln_mechanism launch ≟ provider_mechanism)
      && (ln_boundary_requested launch ≟ requested)
      && retirement_is_consistent
      && (if ln_target_released launch then launch_verified launch
          else ln_boundary_effective launch ≟ Class_Unavailable)
  | LinuxPidNamespaceCgroupV2 native => linux_is_consistent launch restart_safety native
  | LinuxPrivateTcp4 native => private_is_consistent launch restart_safety native
  | WindowsJobObjectV2 native => windows_is_consistent launch restart_safety native
  | MacosEndpointSecurityV1 native => macos_is_consistent launch restart_safety native
  end.
End Boundary.

(** ** What an accepted boundary claim certifies *)

(** The facts verified before a sealed target was released. *)
Record sealed_launch (launch : LaunchEvidence) : Prop := {
  sl_released : ln_target_released launch = true;
  sl_effective : ln_boundary_effective launch = Class_Sealed;
  sl_containment : ln_containment_verified_before_authorization launch = true;
  sl_guardian : ln_guardian_started_before_authorization launch = true;
  sl_assignment : ln_boundary_assignment_verified launch = true;
  sl_inherited : ln_inherited_resources_restricted launch = true
}.

(** Facts that every mechanism but the private network path also reports. *)
Definition boundary_locked (launch : LaunchEvidence) : Prop :=
  ln_boundary_reconfiguration_denied launch = true ∧
  ln_frontend_loss_cleanup_authority_verified launch = true.

Lemma sealed_generic_spec launch safety :
  sealed_generic_evidence_is_consistent launch safety = true →
  (sealed_launch launch ∧ boundary_locked launch) ∧
  ln_boundary_requested launch = Sealed ∧ is_safe_for safety Sealed = true.
Proof. unfold sealed_generic_evidence_is_consistent. intros H. bool_hyps. by repeat constructor. Qed.

(** The native validators each start with the generic facts. *)
Lemma native_sealed sha256_hash json_plan_digest launch safety detail :
  boundary_evidence_is_consistent sha256_hash json_plan_digest launch safety detail = true →
  match detail with
  | LinuxPidNamespaceCgroupV2 _ | WindowsJobObjectV2 _ | MacosEndpointSecurityV1 _ =>
      sealed_generic_evidence_is_consistent launch safety = true
  | _ => True
  end.
Proof.
  destruct detail; cbn [boundary_evidence_is_consistent]; try done;
    unfold linux_is_consistent, windows_is_consistent, macos_is_consistent;
    intros H; bool_hyps; assumption.
Qed.

(** C12: boundary evidence that passes the validator fails closed: a released
    target that asked for a sealed boundary got one whose containment, guardian,
    assignment and inherited resources were verified before it ran; a sealed
    boundary is never claimed effective without those facts, nor, outside the
    private network path, without denied reconfiguration and a verified cleanup
    authority; and a boundary is reported retired only with a complete
    retirement behind it. *)
Theorem boundary_claims_fail_closed sha256_hash json_plan_digest launch safety detail :
  boundary_evidence_is_consistent sha256_hash json_plan_digest launch safety detail = true →
  (ln_boundary_requested launch = Sealed → ln_target_released launch = true → sealed_launch launch) ∧
  (ln_boundary_effective launch = Class_Sealed → sealed_launch launch) ∧
  (ln_boundary_effective launch = Class_Sealed →
     boundary_locked launch ∨ ∃ native, detail = LinuxPrivateTcp4 native) ∧
  (rsp_sealed_boundary_retired safety = true →
     is_safe_for safety Sealed = true ∨
     ∃ native, detail = LinuxPrivateTcp4 native ∧ cleanup_state native = CleanupComplete).
Proof.
  intros H. pose proof (native_sealed _ _ _ _ _ H) as Hn.
  destruct detail as [backend|mechanism requested|native|native|native|native];
    try (apply sealed_generic_spec in Hn as ([Hl Hk] & _ & Hs); by auto 6); clear Hn;
    cbn [boundary_evidence_is_consistent] in H.
  - bool_hyps. split_and!; congruence.
  - unfold launch_verified in H. destruct (ln_target_released launch) eqn:Hr; bool_hyps.
    + assert (sealed_launch launch) by (by constructor). split_and!; [done|done|by left|].
      intros Hret. rewrite Hret in *. auto.
    + split_and!; [done|congruence|congruence|]. intros Hret. rewrite Hret in *. auto.
  - unfold private_is_consistent in H. bool_hyps.
    assert (rsp_sealed_boundary_retired safety = true →
      cleanup_state native = CleanupComplete) as Hc.
    { intros Hret. rewrite Hret in *.
      match goal with H : Bool.eqb true _ = true |- _ => apply Bool.eqb_prop in H; symmetry in H end.
      by bool_hyps. }
    destruct (ln_target_released launch) eqn:Hr; bool_hyps.
    + assert (sealed_launch launch) by (by constructor). eauto 10.
    + split_and!; [done|congruence|eauto|eauto 10].
Qed.

(** ** A verified sealed launch *)

Definition sample_launch : LaunchEvidence :=
  {| ln_mechanism := "macos-endpoint-security-v1"; ln_target_released := true;
     ln_containment_verified_before_authorization := true;
     ln_guardian_started_before_authorization := true; ln_target_spawn_error_reported := true;
     ln_boundary_requested := Sealed; ln_boundary_effective := Class_Sealed;
     ln_boundary_assignment_verified := true; ln_boundary_reconfiguration_denied := true;
     ln_inherited_resources_restricted := true; ln_frontend_loss_cleanup_authority_verified := true |}.
Definition sample_safety : RestartSafetyProof :=
  {| rsp_direct_child_reaped := true; rsp_workload_empty := Some true; rsp_helpers_reaped := true;
     rsp_containment_removed := true; rsp_containment_incapable_of_live_members := false;
     rsp_sealed_boundary_retired := true; rsp_errors := [] |}.
Definition sample_native : MacosSealedEvidence :=
  {| ms_schema_version := 1; ms_daemon_identity := "d"; ms_system_extension_identity := "s";
     ms_endpoint_security_entitled := true; ms_required_subscriptions_active := true;
     ms_event_sequence_complete := true; ms_target_correlated_before_authorization := true;
     ms_target_credentials_verified := true; ms_inherited_descriptors_verified := true;
     ms_guardian_ready := true; ms_target_released := true; ms_observed_fork_count := 1;
     ms_observed_exec_count := 1; ms_observed_exit_count := 1; ms_known_members_terminated := true;
     ms_reconciliation_complete := true; ms_stable_empty_passes := 2;
     ms_direct_target_reaped := true; ms_helpers_reaped := true; ms_launch_job_retired := true |}.

Lemma boundary_claims_fail_closed_witness : sealed_launch sample_launch.
Proof.
  apply (boundary_claims_fail_closed id (λ _, None) sample_launch sample_safety
           (MacosEndpointSecurityV1 sample_native)); reflexivity.
Defined.
