(* ===== verification/ErrorRecord.v ===== *)
(** * Supervision error records

    The error a supervision run can end with: SupervisionErrorRecord and
    BackendSelectionDriftEvidence of memcordon-core/src/supervision.rs,
    ProviderRejectionEvidence and InitialSpawnFailure of error.rs.  The class
    [EvidenceTypes] is the interface to the evidence types that other parts of
    the program define: what this component asks of them, and nothing else. *)

From S2P Require Import Prelude.
From S2P Require Import Decimal.
From S2P Require Import Bounded.
From S2P Require Import Codec.
From S2P Require Import Diagnostics.
From S2P Require Import WorkloadContract.
From S2P Require Import WorkloadCodec.
From S2P Require Import Policy.
From S2P Require Import Outcome.
From S2P Require Import Safety.
From S2P Require Import Float64.
From S2P Require Import Restart.
From S2P Require Import PrivateRuntime.
From S2P Require Import Boundary.
From Stdlib Require Import Ascii.

(** ** Phases *)

Inductive SupervisionPhase : Type :=
| InitialSetup | AttemptSetup | ActiveAttempt | LimitGrace | CleanupPhase | Backoff | Cooldown
| CompletedPhase.
#[global] Instance SupervisionPhase_eq_dec : EqDecision SupervisionPhase.
Proof. solve_decision. Defined.

Inductive BoundarySetupPhase : Type :=
| RequestValidation | ProviderConnection | ProviderIdentity | CallerEnvelopeCapture
| LauncherServiceAuthentication | CallerMountNamespaceAdoption | CallerCapabilityEnvelope
| CredentialTransitionPolicy | BoundaryCreation | GuardianStartup | TargetCreation
| AssignmentVerification | ResourceVerification | AuthorizationPhase | Monitoring | Retirement.
#[global] Instance BoundarySetupPhase_eq_dec : EqDecision BoundarySetupPhase.
Proof. solve_decision. Defined.

Definition boundary_setup_phase_name (value : BoundarySetupPhase) : string :=
  match value with
  | RequestValidation => "request-validation"
  | ProviderConnection => "provider-connection"
  | ProviderIdentity => "provider-identity"
  | CallerEnvelopeCapture => "caller-envelope-capture"
  | LauncherServiceAuthentication => "launcher-service-authentication"
  | CallerMountNamespaceAdoption => "caller-mount-namespace-adoption"
  | CallerCapabilityEnvelope => "caller-capability-envelope"
  | CredentialTransitionPolicy => "credential-transition-policy"
  | BoundaryCreation => "boundary-creation"
  | GuardianStartup => "guardian-startup"
  | TargetCreation => "target-creation"
  | AssignmentVerification => "assignment-verification"
  | ResourceVerification => "resource-verification"
  | AuthorizationPhase => "authorization"
  | Monitoring => "monitoring"
  | Retirement => "retirement"
  end.

Inductive InitialSpawnFailure : Type := SpawnNotFound | SpawnNotExecutable.
#[global] Instance InitialSpawnFailure_eq_dec : EqDecision InitialSpawnFailure.
Proof. solve_decision. Defined.
Definition spawn_exit_code (f : InitialSpawnFailure) : Z :=
  match f with SpawnNotFound => 127 | SpawnNotExecutable => 126 end.

(** ** Backend drift *)

Record BackendSelectionDriftEvidence : Type := {
  drift_selected : BackendCapabilityReport;
  drift_comparison_expected : BackendCapabilityReport;
  drift_observed : BackendCapabilityReport;
  drift_mismatched_fields : list string
}.
#[global] Instance BackendSelectionDriftEvidence_eq_dec : EqDecision BackendSelectionDriftEvidence.
Proof. solve_decision. Defined.

(** [if expected.f != observed.f { fields.push(name) }] *)
Definition mismatch {A} `{EqDecision A} (name : string) (expected observed : A) : list string :=
  if expected ≠? observed then [name] else [].

Definition backend_capability_mismatched_fields (expected observed : BackendCapabilityReport)
    : list string :=
  sort_by String.leb (
    mismatch "name" (br_name expected) (br_name observed)
    ++ mismatch "containment" (br_containment expected) (br_containment observed)
    ++ mismatch "boundary" (br_boundary expected) (br_boundary observed)
    ++ mismatch "memory" (br_memory expected) (br_memory observed)
    ++ mismatch "deadline" (br_deadline expected) (br_deadline observed)
    ++ mismatch "restart" (br_restart expected) (br_restart observed)
    ++ mismatch "deadline_scopes" (br_deadline_scopes expected) (br_deadline_scopes observed)
    ++ mismatch "deadline_origin" (br_deadline_origin expected) (br_deadline_origin observed)
    ++ mismatch "restart_conditions" (br_restart_conditions expected) (br_restart_conditions observed)
    ++ mismatch "persistent_restart_state" (br_persistent_restart_state expected)
         (br_persistent_restart_state observed)
    ++ mismatch "startup_containment" (br_startup_containment expected) (br_startup_containment observed)
    ++ mismatch "restart_cleanup_condition" (br_restart_cleanup_condition expected)
         (br_restart_cleanup_condition observed)
    ++ mismatch "limitations" (br_limitations expected) (br_limitations observed)
    ++ mismatch "boundary_qualification" (br_boundary_qualification expected)
         (br_boundary_qualification observed)
    ++ mismatch "sealed_unavailable" (br_sealed_unavailable expected) (br_sealed_unavailable observed)).

(** [denormalized]: the expected report with the selected memory metric; [None]
    where the source returns false because a report has no memory part. *)
Definition set_metric (metric : string) (m : MemoryCapabilityReport) : MemoryCapabilityReport :=
  {| mc_supported := mc_supported m; mc_class := mc_class m; mc_metric := metric;
     mc_reason := mc_reason m |}.
Definition set_memory (m : option MemoryCapabilityReport) (r : BackendCapabilityReport)
    : BackendCapabilityReport :=
  {| br_name := br_name r; br_containment := br_containment r; br_boundary := br_boundary r;
     br_memory := m; br_deadline := br_deadline r; br_restart := br_restart r;
     br_deadline_scopes := br_deadline_scopes r; br_deadline_origin := br_deadline_origin r;
     br_restart_conditions := br_restart_conditions r;
     br_persistent_restart_state := br_persistent_restart_state r;
     br_startup_containment := br_startup_containment r;
     br_restart_cleanup_condition := br_restart_cleanup_condition r;
     br_limitations := br_limitations r; br_boundary_qualification := br_boundary_qualification r;
     br_sealed_unavailable := br_sealed_unavailable r |}.
Definition denormalized (self : BackendSelectionDriftEvidence) : option BackendCapabilityReport :=
  match br_memory (drift_selected self), br_memory (drift_comparison_expected self) with
  | Some selected, Some expected =>
      Some (set_memory (Some (set_metric (mc_metric selected) expected)) (drift_comparison_expected self))
  | _, _ => None
  end.

Definition drift_is_consistent (self : BackendSelectionDriftEvidence) : bool :=
  (if drift_selected self ≟ drift_comparison_expected self then true
   else is_some_and (λ report, report ≟ drift_selected self) (denormalized self))
  && (drift_selected self ≠? drift_observed self)
  && (drift_mismatched_fields self
      ≟ backend_capability_mismatched_fields (drift_comparison_expected self) (drift_observed self)).

(** ** Interface to other evidence

    Promised by error.rs (native startup diagnostics, operational failures),
    workload_evidence.rs (policy enforcement, admission rejections) and
    windows_sealed.rs (terminal receipts). *)
Class EvidenceTypes : Type := {
  sha256_digest : list u8 → list u8;
  json_plan_digest : string → option string;
  NativeStartupDiagnosticV1 : Type;
  startup_eq_dec : EqDecision NativeStartupDiagnosticV1;
  matches_error_observations : NativeStartupDiagnosticV1 → bool → bool → option Z → bool;
  WorkloadAdmissionRejectionV1 : Type;
  admission_eq_dec : EqDecision WorkloadAdmissionRejectionV1;
  admission_request_plan : WorkloadAdmissionRejectionV1 → DiagnosticSha256;
  admission_approved_plan : WorkloadAdmissionRejectionV1 → DiagnosticSha256;
  WindowsTerminalReceiptV1 : Type;
  receipt_eq_dec : EqDecision WindowsTerminalReceiptV1;
  receipt_schema_version : WindowsTerminalReceiptV1 → N;
  receipt_boundary_detail : WindowsTerminalReceiptV1 → BoundaryMechanismEvidence;
  receipt_restart_safety : WindowsTerminalReceiptV1 → RestartSafetyProof;
  receipt_inventory_bounded : WindowsTerminalReceiptV1 → bool;
  OperationalAttemptFailure : Type;
  operational_validate : OperationalAttemptFailure → result string ();
  RuntimePolicyEnforcement : Type;
  policy_enforcement_is_consistent : RuntimePolicyEnforcement → bool
}.
#[global] Existing Instances startup_eq_dec admission_eq_dec receipt_eq_dec.

Definition PROVIDER_REJECTION_MAX_DETAIL_BYTES : N := 8 * 1024.

Section records.
  Context `{EvidenceTypes}.

Record ProviderRejectionEvidence : Type := {
  rj_workload_admission : option WorkloadAdmissionRejectionV1;
  rj_provider_failure : option ProviderFailureDiagnosticV1;
  rj_schema_version : N;
  rj_code : string;
  rj_phase : BoundarySetupPhase;
  rj_detail : string;
  rj_os_code : option Z;
  rj_loader_qualification : option WindowsLoaderQualificationOutcomeV2;
  rj_target_created : bool;
  rj_target_released : bool;
  rj_cleanup_attempted : bool;
  rj_restart_safety : RestartSafetyProof;
  rj_terminal_ack_required : bool;
  rj_terminal_receipt : option WindowsTerminalReceiptV1
}.

#[global] Instance ProviderRejectionEvidence_eq_dec : EqDecision ProviderRejectionEvidence.
Proof. solve_decision. Defined.

Definition receipt_is_consistent (self : ProviderRejectionEvidence) (terminal : WindowsTerminalReceiptV1)
    : bool :=
  let target_release_matches :=
    match receipt_boundary_detail terminal with
    | WindowsJobObjectV2 native => Bool.eqb (ws_target_released native) (rj_target_released self)
    | _ => false
    end in
  rj_terminal_ack_required self
  && rj_target_created self
  && target_release_matches
  && rj_cleanup_attempted self
  && (receipt_schema_version terminal =? 1)
  && (receipt_restart_safety terminal ≟ rj_restart_safety self)
  && receipt_inventory_bounded terminal.

Definition rejection_is_consistent (self : ProviderRejectionEvidence) : bool :=
  (rj_schema_version self =? 1)
  && is_none_or (λ admission,
       negb (rj_target_released self)
       && (admission_approved_plan admission ≟ admission_request_plan admission))
       (rj_workload_admission self)
  && is_none_or (λ projection,
       projection_is_consistent projection
       && (canonical_digest sha256_digest projection ≟ projection_sha256 projection))
       (rj_provider_failure self)
  && negb (str_is_empty (rj_code self))
  && (str_len (rj_code self) <=? 128)
  && str_all (λ byte, is_ascii_uppercase byte || is_ascii_digit byte || (byte ≟ "-"%char)) (rj_code self)
  && negb (str_is_empty (rj_detail self))
  && (str_len (rj_detail self) <=? PROVIDER_REJECTION_MAX_DETAIL_BYTES)
  && negb (str_contains NUL (rj_detail self))
  && is_none_or (loader_is_consistent json_plan_digest) (rj_loader_qualification self)
  && (negb (rj_target_released self) || rj_target_created self)
  && (length (rsp_errors (rj_restart_safety self)) <=? 16)%nat
  && forallb (λ error, (str_len error <=? 1024) && negb (str_contains NUL error))
       (rsp_errors (rj_restart_safety self))
  && (rj_cleanup_attempted self || (rj_restart_safety self ≟ RestartSafetyProof_default))
  && (negb (rsp_sealed_boundary_retired (rj_restart_safety self))
      || is_safe_for (rj_restart_safety self) Sealed)
  && (negb (rj_terminal_ack_required self)
      || (rj_cleanup_attempted self && is_safe_for (rj_restart_safety self) Sealed))
  && is_none_or (receipt_is_consistent self) (rj_terminal_receipt self).

Record SupervisionErrorRecord : Type := {
  er_native_startup : option NativeStartupDiagnosticV1;
  er_category : string;
  er_code : string;
  er_message : string;
  er_os_code : option Z;
  er_attempt_number : option N;
  er_supervision_phase : SupervisionPhase;
  er_launch_phase : option string;
  er_target_released : bool;
  er_workload_may_be_alive : bool;
  er_initial_spawn_failure : option InitialSpawnFailure;
  er_provider_rejection : option ProviderRejectionEvidence;
  er_backend_selection_drift : option BackendSelectionDriftEvidence
}.

#[global] Instance SupervisionErrorRecord_eq_dec : EqDecision SupervisionErrorRecord.
Proof. solve_decision. Defined.

Definition terminal_status (self : SupervisionErrorRecord) : Z :=
  match er_initial_spawn_failure self with
  | Some failure => spawn_exit_code failure
  | None => 125
  end.

Definition rejection_matches (self : SupervisionErrorRecord) (value : ProviderRejectionEvidence) : bool :=
  let wrapper_is_consistent :=
    (er_code self ≟ "MCSEALED-PROVIDER-REJECTION"%string)
    && (er_launch_phase self ≟ Some (boundary_setup_phase_name (rj_phase value))) in
  let spawn_is_consistent :=
    (er_category self ≟ "spawn"%string)
    && (er_supervision_phase self ≟ AttemptSetup)
    && is_some (er_attempt_number self)
    && (er_launch_phase self ≟ Some "target-spawn-failed"%string)
    && (rj_phase value ≟ TargetCreation)
    && ((rj_target_created value && rj_target_released value && rj_cleanup_attempted value)
        || (negb (rj_target_created value) && negb (rj_target_released value)))
    && ((((er_code self ≟ "MCSPAWN-NOT-FOUND"%string)
          && (er_initial_spawn_failure self ≟ Some SpawnNotFound))
         || ((er_code self ≟ "MCSPAWN-NOT-EXECUTABLE"%string)
             && (er_initial_spawn_failure self ≟ Some SpawnNotExecutable))
         || ((er_code self ≟ "MCSPAWN-FAILED"%string) && is_none (er_initial_spawn_failure self)))
        && (er_code self ≟ rj_code value)) in
  (wrapper_is_consistent || spawn_is_consistent)
  && Bool.eqb (er_target_released self) (rj_target_released value)
  && Bool.eqb (er_workload_may_be_alive self)
       (rj_target_created value && (rsp_workload_empty (rj_restart_safety value) ≠? Some true))
  && rejection_is_consistent value.

Definition provenance_is_consistent (self : SupervisionErrorRecord) : bool :=
  let initial_spawn_is_consistent :=
    is_none (er_initial_spawn_failure self)
    || ((er_category self ≟ "spawn"%string)
        && (er_supervision_phase self ≟ AttemptSetup)
        && (er_launch_phase self ≟ Some "target-spawn-failed"%string)
        && is_some (er_attempt_number self)) in
  let backend_drift_is_consistent :=
    match er_backend_selection_drift self with
    | Some value =>
        (er_category self ≟ "monitor"%string)
        && (er_code self ≟ "MCBACKEND-SELECTION-DRIFT"%string)
        && (er_supervision_phase self ≟ ActiveAttempt)
        && (er_launch_phase self ≟ Some "runtime-backend-evidence"%string)
        && is_some (er_attempt_number self)
        && is_none (er_initial_spawn_failure self)
        && is_none (er_provider_rejection self)
        && drift_is_consistent value
    | None => er_code self ≠? "MCBACKEND-SELECTION-DRIFT"%string
    end in
  initial_spawn_is_consistent
  && is_none_or (rejection_matches self) (er_provider_rejection self)
  && backend_drift_is_consistent
  && is_none_or (λ value,
       matches_error_observations value (er_target_released self) (er_workload_may_be_alive self)
         (er_os_code self)) (er_native_startup self).
End records.

(** ** Drift evidence names every difference *)

Lemma mismatch_nil {A} `{EqDecision A} name (x y : A) : mismatch name x y = [] ↔ x = y.
Proof. unfold mismatch. case_bool_decide; simpl; naive_solver. Qed.

Lemma sort_by_nil {A} (le : A → A → bool) l : sort_by le l = [] ↔ l = [].
Proof.
  split; [|by intros ->]. intros E. apply Permutation.Permutation_nil.
  rewrite <- E. apply sort_by_perm.
Qed.

Lemma app_nil_iff {A} (l1 l2 : list A) : l1 ++ l2 = [] ↔ l1 = [] ∧ l2 = [].
Proof. destruct l1, l2; naive_solver. Qed.

(** The list of mismatched fields is empty exactly when the two reports are the
    same, so drift evidence that lists nothing means the observed backend is the
    one that was expected. *)
Theorem mismatched_fields_complete expected observed :
  backend_capability_mismatched_fields expected observed = [] ↔ expected = observed.
Proof.
  unfold backend_capability_mismatched_fields.
  rewrite sort_by_nil, !app_nil_iff, !mismatch_nil. destruct expected, observed; simpl.
  split; [intros H; destruct_and! H; by subst|intros [=]; by split_and!].
Qed.
