(* ===== verification/WindowsAttempt.v ===== *)
(** * Windows attempts

    The protocol objects of windows_sealed.rs that drive one sealed attempt: the
    relay phases, the one-shot terminal recovery of a public frontend, the
    terminalization status, the certification phases and the durable attempt
    states. *)

From S2P Require Import Prelude Decimal Bounded Diagnostics.
From Stdlib Require Import Ascii.
#[local] Open Scope N_scope.

(** ** Relay phases *)

Inductive WindowsRelayPhaseV1 : Type :=
| AwaitStreams | AwaitRelaysReady | AwaitAuthorizationOrAbort | RelayAuthorized | AwaitRelayAck
| AwaitAbortRelayAck | AwaitTerminal | AwaitAbortRejection | RelayTerminal.
Inductive WindowsRelayEventV1 : Type :=
| StreamsPrepared | RelaysReadyEvent | TargetAuthorized | TargetRetired | RelaysAbort
| RelaysRetiredEvent | TerminalEvent | Reject | MutantHook | MutantTerminal.
#[global] Instance WindowsRelayPhaseV1_eq_dec : EqDecision WindowsRelayPhaseV1.
Proof. solve_decision. Defined.
#[global] Instance WindowsRelayEventV1_eq_dec : EqDecision WindowsRelayEventV1.
Proof. solve_decision. Defined.

Definition relay_error : string := "invalid Windows relay protocol transition".

(** A refused event leaves the phase as it was. *)
Definition advance (event : WindowsRelayEventV1) : stM WindowsRelayPhaseV1 string () := λ self,
  match self, event with
  | AwaitStreams, StreamsPrepared => (AwaitRelaysReady, Ok ())
  | AwaitRelaysReady, RelaysReadyEvent => (AwaitAuthorizationOrAbort, Ok ())
  | AwaitAuthorizationOrAbort, TargetAuthorized => (RelayAuthorized, Ok ())
  | AwaitAuthorizationOrAbort, RelaysAbort => (AwaitAbortRelayAck, Ok ())
  | AwaitAuthorizationOrAbort, MutantHook => (AwaitAuthorizationOrAbort, Ok ())
  | RelayAuthorized, TargetRetired => (AwaitRelayAck, Ok ())
  | AwaitRelayAck, RelaysRetiredEvent => (AwaitTerminal, Ok ())
  | AwaitAbortRelayAck, RelaysRetiredEvent => (AwaitAbortRejection, Ok ())
  | AwaitTerminal, TerminalEvent => (RelayTerminal, Ok ())
  | AwaitStreams, Reject | AwaitRelaysReady, Reject | AwaitAuthorizationOrAbort, Reject
  | RelayAuthorized, Reject | AwaitRelayAck, Reject | AwaitAbortRelayAck, Reject
  | AwaitTerminal, Reject | AwaitAbortRejection, Reject
  | AwaitStreams, MutantTerminal | AwaitRelaysReady, MutantTerminal
  | AwaitAuthorizationOrAbort, MutantTerminal | RelayAuthorized, MutantTerminal
  | AwaitRelayAck, MutantTerminal | AwaitTerminal, MutantTerminal => (RelayTerminal, Ok ())
  | _, _ => (self, Err relay_error)
  end.

(** The callers stop at the first refused event. *)
Definition advance_all (events : list WindowsRelayEventV1) : stM WindowsRelayPhaseV1 string () :=
  st_for advance events.

(** *** The language of the protocol *)

Definition opening (hooks : nat) : list WindowsRelayEventV1 :=
  [StreamsPrepared; RelaysReadyEvent] ++ replicate hooks MutantHook.

(** The traces that end in each phase before the last. *)
Definition relay_prefix (phase : WindowsRelayPhaseV1) (hooks : nat) : option (list WindowsRelayEventV1) :=
  match phase with
  | AwaitStreams => Some []
  | AwaitRelaysReady => Some [StreamsPrepared]
  | AwaitAuthorizationOrAbort => Some (opening hooks)
  | RelayAuthorized => Some (opening hooks ++ [TargetAuthorized])
  | AwaitRelayAck => Some (opening hooks ++ [TargetAuthorized; TargetRetired])
  | AwaitTerminal => Some (opening hooks ++ [TargetAuthorized; TargetRetired; RelaysRetiredEvent])
  | AwaitAbortRelayAck => Some (opening hooks ++ [RelaysAbort])
  | AwaitAbortRejection => Some (opening hooks ++ [RelaysAbort; RelaysRetiredEvent])
  | RelayTerminal => None
  end.

(** How a phase may end the exchange: the normal terminal only after both relays
    retired, a rejection always, a certification mutant's terminal except on the
    abort path. *)
Definition may_end (phase : WindowsRelayPhaseV1) (event : WindowsRelayEventV1) : bool :=
  match event with
  | TerminalEvent => phase ≟ AwaitTerminal
  | Reject => phase ≠? RelayTerminal
  | MutantTerminal =>
      (phase ≠? RelayTerminal) && (phase ≠? AwaitAbortRelayAck) && (phase ≠? AwaitAbortRejection)
  | _ => false
  end.

Definition relay_language (phase : WindowsRelayPhaseV1) (trace : list WindowsRelayEventV1) : Prop :=
  match phase with
  | RelayTerminal =>
      ∃ before hooks prior event, relay_prefix before hooks = Some prior ∧ may_end before event = true ∧
        trace = prior ++ [event]
  | _ => ∃ hooks, relay_prefix phase hooks = Some trace
  end.

Lemma st_for_app {S E A} (f : A → stM S E ()) l k s s' r :
  st_for f (l ++ k) s = (s', r) ↔
  (∃ s1, st_for f l s = (s1, Ok ()) ∧ st_for f k s1 = (s', r)) ∨
  (∃ e, st_for f l s = (s', Err e) ∧ r = Err e).
Proof.
  revert s. induction l as [|x l IH]; intros s; cbn.
  - split; [intros ?; left; by exists s|]. intros [(? & [= <-] & ?)|(? & [=] & _)]. done.
  - unfold mbind, stM_bind. destruct (f x s) as [s1 [[]|e]]; [apply IH|].
    split; [intros [= <- <-]; right; eauto|]. intros [(? & [=] & _)|(? & [= <- <-] & ->)]. done.
Qed.
Lemma st_for_snoc {S E A} (f : A → stM S E ()) l x s s' :
  st_for f (l ++ [x]) s = (s', Ok ()) ↔ ∃ s1, st_for f l s = (s1, Ok ()) ∧ f x s1 = (s', Ok ()).
Proof.
  rewrite st_for_app. cbn. unfold mbind, stM_bind. split.
  - intros [(s1 & ? & H)|(? & ? & [=])]. exists s1. split; [done|].
    destruct (f x s1) as [s2 [[]|]]; cbn in H; simplify_eq; done.
  - intros (s1 & ? & H). left. exists s1. rewrite H. done.
Qed.

Lemma advance_terminal event before :
  advance event before = (RelayTerminal, Ok ()) ↔ may_end before event = true.
Proof. by destruct before, event. Qed.
Lemma relay_language_prefix phase trace :
  phase ≠ RelayTerminal → relay_language phase trace ↔ ∃ hooks, relay_prefix phase hooks = Some trace.
Proof. by destruct phase. Qed.

(** One more event: from the traces of a phase to those of the next. *)
Lemma relay_language_snoc before trace event after :
  relay_language before trace → advance event before = (after, Ok ()) → relay_language after (trace ++ [event]).
Proof.
  intros Hl Ha. assert (before ≠ RelayTerminal) as Hb by (by intros ->; destruct event).
  apply relay_language_prefix in Hl as [hooks Hl]; [|done].
  destruct (decide (after = RelayTerminal)) as [->|Hn].
  { apply advance_terminal in Ha. by exists before, hooks, trace, event. }
  apply relay_language_prefix; [done|].
  destruct before, event; cbn in Ha; simplify_eq; cbn in Hl; simplify_eq.
  - by exists 0%nat.
  - by exists 0%nat.
  - by exists hooks.
  - by exists hooks.
  - exists (S hooks). cbn. by rewrite replicate_cons_app.
  - exists hooks. cbn. by rewrite <- (assoc_L (++)).
  - exists hooks. cbn. by rewrite <- (assoc_L (++)).
  - exists hooks. cbn. by rewrite <- (assoc_L (++)).
Qed.

Lemma advance_opening hooks :
  st_for advance (opening hooks) AwaitStreams = (AwaitAuthorizationOrAbort, Ok ()).
Proof. cbn. unfold mbind, stM_bind. cbn. by induction hooks. Qed.
Lemma relay_prefix_runs phase hooks trace :
  relay_prefix phase hooks = Some trace → st_for advance trace AwaitStreams = (phase, Ok ()).
Proof.
  intros H. destruct phase; cbn [relay_prefix] in H; simplify_eq; try done; [apply advance_opening|..].
  all: apply st_for_app; left; eexists; split; [apply advance_opening|done].
Qed.

(** C36: The relay protocol accepts exactly its declared language.  A sequence of
    events brings a fresh exchange to a phase exactly when it is one of that
    phase's traces: streams and relays are prepared in order, the target is
    authorized at most once and never after an abort, an authorized target is
    retired before its relays are, the terminal is accepted only after that, an
    abort can only end in a rejection, and nothing follows the end. *)
Theorem relay_protocol_language phase trace :
  advance_all trace AwaitStreams = (phase, Ok ()) ↔ relay_language phase trace.
Proof.
  unfold advance_all. split.
  - revert phase. induction trace as [|event trace IH] using rev_ind; intros phase.
    + intros [= <-]. by exists 0%nat.
    + intros (before & Hr & Ha)%st_for_snoc. eauto using relay_language_snoc.
  - intros H. destruct (decide (phase = RelayTerminal)) as [->|Hn].
    + destruct H as (before & hooks & prior & event & Hp & He & ->). apply st_for_snoc. exists before.
      split; [by eapply relay_prefix_runs|by apply advance_terminal].
    + apply relay_language_prefix in H as [hooks H]; [|done]. by eapply relay_prefix_runs.
Qed.

(** ** One-shot terminal recovery *)

Inductive WindowsPublicFramePhaseV1 : Type := Availability | FrameLength | Payload | Decode.
Inductive WindowsPublicFrameFailureV1 : Type :=
| PeerClosed (phase : WindowsPublicFramePhaseV1) | ProtocolFailure (phase : WindowsPublicFramePhaseV1).
Inductive WindowsTerminalReplayDecisionV1 : Type := ReplayOnce | FailClosed.
#[global] Instance WindowsTerminalReplayDecisionV1_eq_dec : EqDecision WindowsTerminalReplayDecisionV1.
Proof. solve_decision. Defined.

Record WindowsPublicTerminalRecoveryV1 : Type := {
  attempt_bound : bool;
  replay_consumed : bool;
  local_relays_retired : bool
}.
Definition recovery_default : WindowsPublicTerminalRecoveryV1 :=
  {| attempt_bound := false; replay_consumed := false; local_relays_retired := false |}.

Definition bind_attempt : stM WindowsPublicTerminalRecoveryV1 string () := λ self,
  if attempt_bound self
  then (self, Err "Windows public terminal recovery binding is already active"%string)
  else ({| attempt_bound := true; replay_consumed := replay_consumed self;
           local_relays_retired := local_relays_retired self |}, Ok ()).

Definition is_peer_closed (failure : WindowsPublicFrameFailureV1) : bool :=
  match failure with PeerClosed _ => true | ProtocolFailure _ => false end.

Definition consume_replay (eligible : bool) (self : WindowsPublicTerminalRecoveryV1)
    : WindowsPublicTerminalRecoveryV1 * WindowsTerminalReplayDecisionV1 :=
  if eligible && attempt_bound self && negb (replay_consumed self)
  then ({| attempt_bound := attempt_bound self; replay_consumed := true;
           local_relays_retired := local_relays_retired self |}, ReplayOnce)
  else (self, FailClosed).

Definition observe_failure (failure : WindowsPublicFrameFailureV1)
    : WindowsPublicTerminalRecoveryV1 → WindowsPublicTerminalRecoveryV1 * WindowsTerminalReplayDecisionV1 :=
  consume_replay (is_peer_closed failure).
Definition begin_replay_after_bound_pending
    : WindowsPublicTerminalRecoveryV1 → WindowsPublicTerminalRecoveryV1 * WindowsTerminalReplayDecisionV1 :=
  consume_replay true.

Definition retire_local_relays_once (self : WindowsPublicTerminalRecoveryV1)
    : WindowsPublicTerminalRecoveryV1 * bool :=
  if local_relays_retired self then (self, false)
  else ({| attempt_bound := attempt_bound self; replay_consumed := replay_consumed self;
           local_relays_retired := true |}, true).

(** What a frontend does with its recovery object, and what it is told. *)
Inductive recovery_call : Type :=
| CallBind | CallFailure (failure : WindowsPublicFrameFailureV1) | CallPending | CallRetire.
Inductive recovery_answer : Type :=
| Bound | AlreadyBound | Decided (decision : WindowsTerminalReplayDecisionV1) | Retire (own : bool).
#[global] Instance recovery_answer_eq_dec : EqDecision recovery_answer.
Proof. solve_decision. Defined.

Definition recovery_step (call : recovery_call) (self : WindowsPublicTerminalRecoveryV1)
    : WindowsPublicTerminalRecoveryV1 * recovery_answer :=
  match call with
  | CallBind => match bind_attempt self with (s, Ok _) => (s, Bound) | (s, Err _) => (s, AlreadyBound) end
  | CallFailure failure => let '(s, d) := observe_failure failure self in (s, Decided d)
  | CallPending => let '(s, d) := begin_replay_after_bound_pending self in (s, Decided d)
  | CallRetire => let '(s, own) := retire_local_relays_once self in (s, Retire own)
  end.
Fixpoint recovery_run (calls : list recovery_call) (self : WindowsPublicTerminalRecoveryV1)
    : list recovery_answer :=
  match calls with
  | [] => []
  | call :: calls => let '(s, a) := recovery_step call self in a :: recovery_run calls s
  end.

(** Calls that may start a replay, and the ones that follow the first binding. *)
Definition is_bind (call : recovery_call) : bool := match call with CallBind => true | _ => false end.
Definition is_retire (call : recovery_call) : bool := match call with CallRetire => true | _ => false end.
Definition requests_replay (call : recovery_call) : bool :=
  match call with CallFailure failure => is_peer_closed failure | CallPending => true | _ => false end.
Fixpoint bound_replay_requested (calls : list recovery_call) : bool :=
  match calls with
  | [] => false
  | call :: calls => if is_bind call then existsb requests_replay calls else bound_replay_requested calls
  end.

Definition occurrences (a : recovery_answer) (l : list recovery_answer) : nat :=
  length (filter (a =.) l).

Lemma occurrences_cons a x l : occurrences a (x :: l) = (Nat.b2n (a ≟ x) + occurrences a l)%nat.
Proof. unfold occurrences. rewrite filter_cons. by case_bool_decide; destruct (decide _). Qed.

(** The answers from any state: each one-shot permission is given at most once,
    and it is given when it is asked for and still there. *)
Lemma recovery_run_occurrences calls self :
  occurrences (Decided ReplayOnce) (recovery_run calls self) =
    Nat.b2n (negb (replay_consumed self) &&
             (if attempt_bound self then existsb requests_replay calls else bound_replay_requested calls)) ∧
  occurrences (Retire true) (recovery_run calls self) =
    Nat.b2n (negb (local_relays_retired self) && existsb is_retire calls) ∧
  occurrences Bound (recovery_run calls self) =
    Nat.b2n (negb (attempt_bound self) && existsb is_bind calls).
Proof.
  revert self. induction calls as [|call calls IH]; intros [bound consumed retired].
  - cbn. by destruct bound, consumed, retired.
  - destruct call as [|[]| |], bound, consumed, retired; cbn [recovery_run recovery_step]; cbn -[occurrences];
      rewrite !occurrences_cons; cbn -[occurrences];
      repeat match goal with |- context [recovery_run calls ?s] =>
        destruct (IH s) as (-> & -> & ->) end; cbn; by rewrite ?andb_false_r, ?orb_true_r.
Qed.

(** A public frontend replays a terminal at most once, exactly when after the
    first binding of an attempt some transport loss or pending outbox asks for it,
    never for a protocol failure alone and never before a binding; and of all the
    owners that try, exactly one is told to retire the local relays. *)
Theorem recovery_is_one_shot calls :
  occurrences (Decided ReplayOnce) (recovery_run calls recovery_default) =
    Nat.b2n (bound_replay_requested calls) ∧
  occurrences (Retire true) (recovery_run calls recovery_default) = Nat.b2n (existsb is_retire calls) ∧
  occurrences Bound (recovery_run calls recovery_default) = Nat.b2n (existsb is_bind calls).
Proof. apply (recovery_run_occurrences calls recovery_default). Qed.

(** ** Durable attempt states and certification phases *)

Inductive WindowsAttemptStateV1 : Type :=
| BoundaryCreated | GuardianReady | TargetCreatedSuspended | Authorized | Terminating | Empty.
#[global] Instance WindowsAttemptStateV1_eq_dec : EqDecision WindowsAttemptStateV1.
Proof. solve_decision. Defined.
Inductive WindowsAttemptTerminalDispositionV1 : Type := PreauthorizationAbort | Posttarget.
#[global] Instance WindowsAttemptTerminalDispositionV1_eq_dec : EqDecision WindowsAttemptTerminalDispositionV1.
Proof. solve_decision. Defined.

Definition windows_attempt_transition_allowed (from to : WindowsAttemptStateV1) : bool :=
  match from, to with
  | BoundaryCreated, GuardianReady | BoundaryCreated, Terminating
  | GuardianReady, TargetCreatedSuspended | GuardianReady, Terminating
  | TargetCreatedSuspended, Authorized | TargetCreatedSuspended, Terminating
  | Authorized, Terminating | Terminating, Empty => true
  | _, _ => false
  end.

Inductive WindowsCertificationPhaseV1 : Type :=
| CertConnected | CertCallerAuthenticated | CertLauncherAuthenticated | CertGuardianReady
| CertRelaysReady | CertTargetCreatedSuspended | CertAssignmentVerified | CertAuthorized | CertRunning
| CertTerminating | CertEmpty | CertRelaysRetired | CertGuardianReaped | CertHandlesClosed | CertRetired.
#[global] Instance WindowsCertificationPhaseV1_eq_dec : EqDecision WindowsCertificationPhaseV1.
Proof. solve_decision. Defined.

Definition windows_certification_transition_allowed (from to : WindowsCertificationPhaseV1) : bool :=
  match from, to with
  | CertConnected, CertCallerAuthenticated | CertConnected, CertTerminating
  | CertCallerAuthenticated, CertLauncherAuthenticated | CertCallerAuthenticated, CertTerminating
  | CertLauncherAuthenticated, CertGuardianReady | CertLauncherAuthenticated, CertTerminating
  | CertGuardianReady, CertRelaysReady | CertGuardianReady, CertTerminating
  | CertRelaysReady, CertTargetCreatedSuspended | CertRelaysReady, CertTerminating
  | CertTargetCreatedSuspended, CertAssignmentVerified | CertTargetCreatedSuspended, CertTerminating
  | CertAssignmentVerified, CertAuthorized | CertAssignmentVerified, CertTerminating
  | CertAuthorized, CertRunning | CertAuthorized, CertTerminating
  | CertRunning, CertTerminating | CertTerminating, CertEmpty | CertEmpty, CertRelaysRetired
  | CertRelaysRetired, CertGuardianReaped | CertGuardianReaped, CertHandlesClosed
  | CertHandlesClosed, CertRetired => true
  | _, _ => false
  end.

(** The states a run passes through from [start], first and last included. *)
Inductive transition_run {A} (allowed : A → A → bool) (start : A) : list A → A → Prop :=
| run_start : transition_run allowed start [start] start
| run_step passed from to :
    transition_run allowed start passed from → allowed from to = true → transition_run allowed start (passed ++ [to]) to.

(** Launch stages up to some point, then retirement stages up to some point. *)
Definition staged {A} (launch retirement passed : list A) : Prop :=
  ∃ launched retired, (1 <= launched <= length launch)%nat ∧ (retired <= length retirement)%nat ∧
    passed = take launched launch ++ take retired retirement.

Definition launch_order : list WindowsCertificationPhaseV1 :=
  [CertConnected; CertCallerAuthenticated; CertLauncherAuthenticated; CertGuardianReady; CertRelaysReady;
   CertTargetCreatedSuspended; CertAssignmentVerified; CertAuthorized; CertRunning].
Definition retirement_order : list WindowsCertificationPhaseV1 :=
  [CertTerminating; CertEmpty; CertRelaysRetired; CertGuardianReaped; CertHandlesClosed; CertRetired].
Definition durable_launch_order : list WindowsAttemptStateV1 :=
  [BoundaryCreated; GuardianReady; TargetCreatedSuspended; Authorized].
Definition durable_retirement_order : list WindowsAttemptStateV1 := [Terminating; Empty].

(** A table walked along a list. *)
Fixpoint follows {A} (allowed : A → A → bool) (from : A) (l : list A) : option A :=
  match l with
  | [] => Some from
  | to :: l => if allowed from to then follows allowed to l else None
  end.
Lemma follows_run {A} (allowed : A → A → bool) start passed from l to :
  transition_run allowed start passed from → follows allowed from l = Some to →
  transition_run allowed start (passed ++ l) to.
Proof.
  revert passed from. induction l as [|x l IH]; intros passed from Hr; cbn [follows].
  - intros [= <-]. by rewrite app_nil_r.
  - destruct (allowed from x) eqn:Ha; [|done]. intros Hf. change (x :: l) with ([x] ++ l). rewrite (assoc_L (++)).
    eapply IH; [by eapply run_step|done].
Qed.
Lemma walk_run {A} (allowed : A → A → bool) start passed to :
  head passed = Some start → follows allowed start (tail passed) = Some to → transition_run allowed start passed to.
Proof.
  destruct passed as [|x l]; [done|]. intros [= ->] Hf. apply (follows_run allowed start [start] start l); [constructor|done].
Qed.
(** Both tables are finite: the positions of a stage are checked one by one. *)
Ltac extend i j := first [exists (S i), j; split_and!; [cbn; lia|cbn; lia|cbn; lia|reflexivity]
                         | exists i, (S j); split_and!; [cbn; lia|cbn; lia|cbn; lia|reflexivity]].

Lemma certification_run_staged phases phase :
  transition_run windows_certification_transition_allowed CertConnected phases phase →
  last phases = Some phase ∧ staged launch_order retirement_order phases.
Proof.
  induction 1 as [|passed from to _ [Hl (i & j & Hi & Hj & ->)] Ha].
  - split; [done|]. exists 1%nat, 0%nat. split_and!; [cbn; lia..|done].
  - split; [by rewrite last_snoc|].
    destruct i as [|[|[|[|[|[|[|[|[|[|i]]]]]]]]]]; try (exfalso; cbn in *; lia);
    destruct j as [|[|[|[|[|[|[|j]]]]]]]; try (exfalso; cbn in *; lia);
    injection Hl as <-; destruct to; try discriminate Ha.
    all: lazymatch goal with |- staged _ _ ((take ?i _ ++ take ?j _) ++ _) => extend i j end.
Qed.
Lemma attempt_run_staged states state :
  transition_run windows_attempt_transition_allowed BoundaryCreated states state →
  last states = Some state ∧ staged durable_launch_order durable_retirement_order states.
Proof.
  induction 1 as [|passed from to _ [Hl (i & j & Hi & Hj & ->)] Ha].
  - split; [done|]. exists 1%nat, 0%nat. split_and!; [cbn; lia..|done].
  - split; [by rewrite last_snoc|].
    destruct i as [|[|[|[|[|i]]]]]; try (exfalso; cbn in *; lia);
    destruct j as [|[|[|j]]]; try (exfalso; cbn in *; lia);
    injection Hl as <-; destruct to; try discriminate Ha.
    all: lazymatch goal with |- staged _ _ ((take ?i _ ++ take ?j _) ++ _) => extend i j end.
Qed.

Lemma staged_certification_run phases phase :
  last phases = Some phase → staged launch_order retirement_order phases →
  transition_run windows_certification_transition_allowed CertConnected phases phase.
Proof.
  intros Hl (i & j & Hi & Hj & ->).
  destruct i as [|[|[|[|[|[|[|[|[|[|i]]]]]]]]]]; try (exfalso; cbn in *; lia);
  destruct j as [|[|[|[|[|[|[|j]]]]]]]; try (exfalso; cbn in *; lia);
  injection Hl as <-; by apply walk_run.
Qed.
Lemma staged_attempt_run states state :
  last states = Some state → staged durable_launch_order durable_retirement_order states →
  transition_run windows_attempt_transition_allowed BoundaryCreated states state.
Proof.
  intros Hl (i & j & Hi & Hj & ->).
  destruct i as [|[|[|[|[|i]]]]]; try (exfalso; cbn in *; lia);
  destruct j as [|[|[|j]]]; try (exfalso; cbn in *; lia);
  injection Hl as <-; by apply walk_run.
Qed.

(** C34: the two transition tables of a Windows attempt allow exactly the runs
    they are meant to.  The phases of a certification, finished or not, are the
    first stages of the launch order, at least one, then the first stages of the
    retirement order, possibly none or all; no other sequence of phases is
    allowed, and every such sequence is.  So no phase is repeated or skipped, a
    target runs only after everything before it was verified, and a retired
    attempt was emptied, had its relays retired, its guardian reaped and its
    handles closed, in that order.  The durable states of an attempt are the
    same kind of run, over their own launch and retirement orders. *)
Theorem certification_runs_retire phases phase states state :
  (transition_run windows_certification_transition_allowed CertConnected phases phase ↔
     last phases = Some phase ∧ staged launch_order retirement_order phases) ∧
  (transition_run windows_attempt_transition_allowed BoundaryCreated states state ↔
     last states = Some state ∧ staged durable_launch_order durable_retirement_order states).
Proof.
  split; split.
  - apply certification_run_staged.
  - intros [Hl Hs]. by apply staged_certification_run.
  - apply attempt_run_staged.
  - intros [Hl Hs]. by apply staged_attempt_run.
Qed.

(** An attempt that is retired before its caller is authenticated is a run, and
    one that skips the emptying of its boundary is not. *)
Lemma certification_runs_retire_witness :
  transition_run windows_certification_transition_allowed CertConnected (CertConnected :: retirement_order) CertRetired ∧
  ¬ transition_run windows_certification_transition_allowed CertConnected
      [CertConnected; CertTerminating; CertRelaysRetired] CertRelaysRetired.
Proof.
  split.
  - apply (certification_runs_retire _ _ [BoundaryCreated] BoundaryCreated). split; [reflexivity|].
    exists 1%nat, 6%nat. split_and!; [cbn; lia..|reflexivity].
  - intros Hr. apply (certification_runs_retire _ _ [BoundaryCreated] BoundaryCreated) in Hr as [_ (i & j & Hi & Hj & E)].
    destruct i as [|[|i]]; [lia| |discriminate E]. destruct j as [|[|[|j]]]; discriminate E.
Defined.

(** ** Terminalization status *)

Inductive WindowsTerminalizationOwnerV1 : Type :=
| LauncherWorker | ControlService | StartupRecovery | GuardianRecovery.
Inductive WindowsTerminalizationCheckpointV1 : Type :=
| Executing | CleanupRequested | CleanupProofReady | RejectionBuilding | OutboxStaging | OutboxStaged
| AckRetiring | RetainedFailure.
Inductive WindowsTerminalizationErrorStageV1 : Type :=
| LaunchRelay | CleanupFinalize | ReceiptBuild | RejectionBuild | ResponseValidate | ResponseSerialize
| RecordAuthenticate | AtomicStore | LiveDelivery | TerminalAck | OutboxRetirement.
#[global] Instance WindowsTerminalizationOwnerV1_eq_dec : EqDecision WindowsTerminalizationOwnerV1.
Proof. solve_decision. Defined.
#[global] Instance WindowsTerminalizationCheckpointV1_eq_dec : EqDecision WindowsTerminalizationCheckpointV1.
Proof. solve_decision. Defined.
#[global] Instance WindowsTerminalizationErrorStageV1_eq_dec : EqDecision WindowsTerminalizationErrorStageV1.
Proof. solve_decision. Defined.

Record WindowsTerminalizationErrorV1 : Type := {
  te_stage : WindowsTerminalizationErrorStageV1;
  te_error_code : string;
  te_detail : string;
  te_native_code : option Z;
  te_observed_unix_millis : option N
}.
#[global] Instance WindowsTerminalizationErrorV1_eq_dec : EqDecision WindowsTerminalizationErrorV1.
Proof. solve_decision. Defined.
Definition terminalization_error_is_consistent (self : WindowsTerminalizationErrorV1) : bool :=
  negb (str_is_empty (te_error_code self))
  && (str_len (te_error_code self) <=? 128)
  && str_all (λ byte, is_ascii_uppercase byte || is_ascii_digit byte || (byte ≟ "-"%char)) (te_error_code self)
  && negb (str_is_empty (te_detail self))
  && (str_len (te_detail self) <=? 2 * 1024)
  && negb (str_contains NUL (te_detail self)).

Record WindowsTerminalizationStatusV1 : Type := {
  ts_schema_version : N;
  ts_owner : WindowsTerminalizationOwnerV1;
  ts_sequence : N;
  ts_checkpoint : WindowsTerminalizationCheckpointV1;
  ts_last_error : option WindowsTerminalizationErrorV1;
  ts_secondary_errors : list WindowsTerminalizationErrorV1
}.
#[global] Instance WindowsTerminalizationStatusV1_eq_dec : EqDecision WindowsTerminalizationStatusV1.
Proof. solve_decision. Defined.
Definition deserialize_terminalization_errors (sequence : list WindowsTerminalizationErrorV1)
    : result string (list WindowsTerminalizationErrorV1) :=
  BoundedVec_deserialize (N.to_nat WINDOWS_MAX_TERMINALIZATION_SECONDARY_ERRORS) sequence.

Definition terminalization_is_consistent (self : WindowsTerminalizationStatusV1) : bool :=
  (ts_schema_version self =? 1)
  && negb (ts_sequence self =? 0)
  && is_none_or terminalization_error_is_consistent (ts_last_error self)
  && (N.of_nat (length (ts_secondary_errors self)) <=? WINDOWS_MAX_TERMINALIZATION_SECONDARY_ERRORS)
  && forallb terminalization_error_is_consistent (ts_secondary_errors self)
  && ((ts_checkpoint self ≠? RetainedFailure) || is_some (ts_last_error self)).
