(* ===== verification/WindowsReceipts.v ===== *)
(** * Windows terminal receipts and rejections

    The records a sealed Windows attempt ends with, from windows_sealed.rs: what
    cleanup created, the proof of retirement, the terminal receipts of both
    versions and their certification checks, the rejection of version two, and the
    documents about attempts that are retained, still replayable or retired. *)

From S2P Require Import Prelude Decimal Bounded Codec Diagnostics RecordLimits JsonDocuments WorkloadContract Policy Outcome Safety Registry PrivateRuntime Boundary WorkloadEvidence PrivateEvidence WindowsObservation WindowsRecovery ErrorRecord WindowsAttempt.
From Stdlib Require Import Ascii.
#[local] Open Scope N_scope.

#[global] Instance VerifiedCheckpointV1_eq_dec : EqDecision VerifiedCheckpointV1.
Proof. solve_decision. Defined.
#[global] Instance PolicyTerminalEvidenceV1_eq_dec : EqDecision PolicyTerminalEvidenceV1.
Proof. solve_decision. Defined.
#[global] Instance RuntimePolicyEnforcement_eq_dec : EqDecision WorkloadEvidence.RuntimePolicyEnforcement.
Proof. solve_decision. Defined.
#[global] Instance WindowsTerminalDeliveryEvidenceV1_eq_dec : EqDecision WindowsTerminalDeliveryEvidenceV1.
Proof. solve_decision. Defined.
#[global] Instance WindowsSealedEvidenceV2_eq_dec : EqDecision WindowsSealedEvidenceV2.
Proof. solve_decision. Defined.
#[global] Instance LinuxSealedEvidenceV2_eq_dec : EqDecision LinuxSealedEvidenceV2.
Proof. solve_decision. Defined.
#[global] Instance MacosSealedEvidence_eq_dec : EqDecision MacosSealedEvidence.
Proof. solve_decision. Defined.
#[global] Instance PrivateRuntimeTerminal_eq_dec : EqDecision PrivateRuntimeTerminal.
Proof. solve_decision. Defined.
#[global] Instance PrivateRuntimeExecution_eq_dec : EqDecision PrivateRuntimeExecution.
Proof. solve_decision. Defined.
#[global] Instance BoundaryMechanismEvidence_eq_dec : EqDecision BoundaryMechanismEvidence.
Proof. solve_decision. Defined.

Definition windows_sha256_text_is_valid (value : string) : bool :=
  (str_len value =? 64) && str_all (λ byte, is_ascii_digit byte || byte_between "a" "f" byte) value.

Definition delivery_is_consistent (self : WindowsTerminalDeliveryEvidenceV1) : bool :=
  (td_schema_version self =? 1)
  && digest (td_attempt_id self)
  && negb (str_is_empty (td_nonce self))
  && digest (td_request_sha256 self)
  && digest (td_authority_sha256 self)
  && digest (td_retired_sha256 self)
  && td_retired_confirmed self.

(** ** Cleanup and retirement evidence *)

Record WindowsCleanupProcessCreationEvidenceV1 : Type := {
  cc_schema_version : N;
  cc_attempt_binding : string;
  cc_attempted_after_terminating_transition : bool;
  cc_child_created : bool;
  cc_child_job_membership_verified : bool;
  cc_child_identity : WindowsProcessIdentityV1;
  cc_total_processes_before : N;
  cc_total_processes_after : N;
  cc_final_active_processes_zero : bool
}.
#[global] Instance WindowsCleanupProcessCreationEvidenceV1_eq_dec :
  EqDecision WindowsCleanupProcessCreationEvidenceV1.
Proof. solve_decision. Defined.

Definition creation_is_consistent (self : WindowsCleanupProcessCreationEvidenceV1) : bool :=
  (cc_schema_version self =? 1)
  && is_some_and windows_sha256_text_is_valid (str_strip_prefix "attempt-" (cc_attempt_binding self))
  && cc_attempted_after_terminating_transition self
  && cc_child_created self
  && cc_child_job_membership_verified self
  && negb (process_id (cc_child_identity self) =? 0)
  && negb (creation_time_100ns (cc_child_identity self) =? 0)
  && (cc_total_processes_before self <? cc_total_processes_after self)
  && cc_final_active_processes_zero self.

Inductive WindowsRetirementProofSourceV2 : Type := LiveNative | Proof_GuardianRecovery | PriorBoot.
#[global] Instance WindowsRetirementProofSourceV2_eq_dec : EqDecision WindowsRetirementProofSourceV2.
Proof. solve_decision. Defined.

Record WindowsRetirementProofV2 : Type := {
  rp_schema_version : N;
  rp_source : WindowsRetirementProofSourceV2;
  rp_attempt_id : string;
  rp_nonce : string;
  rp_request_sha256 : string;
  rp_provider_generation : string;
  rp_launch_incarnation : string;
  rp_original_boot_id : string;
  rp_job_identity : string;
  rp_owner_manifest_sha256 : string;
  rp_guardian_receipt_sha256 : option string;
  rp_current_boot_id : option string;
  rp_target_completion_observed : bool;
  rp_native_job_empty_observed : bool;
  rp_relay_closure_observed : bool;
  rp_guardian_completion_observed : bool;
  rp_owner_capabilities_closed : bool;
  rp_launch_gate_closed : bool;
  rp_policy_reference_bound : bool
}.
#[global] Instance WindowsRetirementProofV2_eq_dec : EqDecision WindowsRetirementProofV2.
Proof. solve_decision. Defined.

(** ** Terminal receipts *)

Definition WINDOWS_MAX_JOB_PROCESS_IDENTITIES : N := 256.

Record WindowsTerminalReceiptV1 : Type := {
  r1_policy_enforcement : WorkloadEvidence.RuntimePolicyEnforcement;
  r1_schema_version : N;
  r1_attempt_id : string;
  r1_nonce : string;
  r1_request_sha256 : string;
  r1_child_pid : N;
  r1_duration_millis : N;
  r1_authorization_offset_millis : N;
  r1_job_total_processes : N;
  r1_job_process_identities : list WindowsProcessIdentityV1;
  r1_cleanup_process_creation : option WindowsCleanupProcessCreationEvidenceV1;
  r1_outcome : RunOutcome;
  r1_restart_safety : RestartSafetyProof;
  r1_boundary_detail : BoundaryMechanismEvidence
}.
#[global] Instance WindowsTerminalReceiptV1_eq_dec : EqDecision WindowsTerminalReceiptV1.
Proof. solve_decision. Defined.

Inductive WindowsTerminalPayloadV2 : Type :=
| Payload_Execution (child_pid duration_millis authorization_offset_millis : N) (outcome : RunOutcome)
    (boundary_detail : BoundaryMechanismEvidence)
| Payload_RecoveredClosure (primary_failure : OriginalFailureV1)
    (target_creation_observed resume_attempted : bool).
#[global] Instance WindowsTerminalPayloadV2_eq_dec : EqDecision WindowsTerminalPayloadV2.
Proof. solve_decision. Defined.

Record WindowsTerminalReceiptV2 : Type := {
  r2_policy_enforcement : option WorkloadEvidence.RuntimePolicyEnforcement;
  r2_schema_version : N;
  r2_attempt_id : string;
  r2_nonce : string;
  r2_request_sha256 : string;
  r2_payload : WindowsTerminalPayloadV2;
  r2_process_observation : WindowsProcessObservationV2;
  r2_cleanup_process_creation : option WindowsCleanupProcessCreationEvidenceV1;
  r2_restart_safety : RestartSafetyProof;
  r2_retirement_proof : WindowsRetirementProofV2
}.
#[global] Instance WindowsTerminalReceiptV2_eq_dec : EqDecision WindowsTerminalReceiptV2.
Proof. solve_decision. Defined.

Definition receipt_execution (self : WindowsTerminalReceiptV2)
    : option (N * RunOutcome * BoundaryMechanismEvidence) :=
  match r2_payload self with
  | Payload_Execution child_pid _ _ outcome boundary_detail => Some (child_pid, outcome, boundary_detail)
  | Payload_RecoveredClosure _ _ _ => None
  end.

Definition retirement_proof_differs (self : WindowsTerminalReceiptV2) : bool :=
  let proof := r2_retirement_proof self in
  negb (rp_schema_version proof =? 2)
  || (rp_attempt_id proof ≠? r2_attempt_id self)
  || (rp_nonce proof ≠? r2_nonce self)
  || (rp_request_sha256 proof ≠? r2_request_sha256 self)
  || str_is_empty (rp_provider_generation proof)
  || str_is_empty (rp_launch_incarnation proof)
  || str_is_empty (rp_original_boot_id proof)
  || str_is_empty (rp_job_identity proof)
  || str_is_empty (rp_owner_manifest_sha256 proof)
  || negb (rp_owner_capabilities_closed proof)
  || negb (rp_launch_gate_closed proof)
  || negb (rp_policy_reference_bound proof).

Definition primary_failure_observed (primary_failure : OriginalFailureV1) : bool :=
  match primary_failure with
  | Observed event => negb (ev_sequence event =? 0)
  | Unavailable reason => reason ≠? Reason_NoEarlierErrorObserved
  end.

(** The match of a payload with the source of its proof. *)
Definition source_matches (self : WindowsTerminalReceiptV2) : bool :=
  let proof := r2_retirement_proof self in
  match r2_payload self, rp_source proof with
  | Payload_Execution child_pid _ _ _ _, LiveNative =>
      rp_target_completion_observed proof
      && rp_native_job_empty_observed proof
      && rp_relay_closure_observed proof
      && rp_guardian_completion_observed proof
      && is_none (rp_guardian_receipt_sha256 proof)
      && is_none (rp_current_boot_id proof)
      && negb (child_pid =? 0)
      && is_some_and (λ root, process_id root =? child_pid) (ob_root_identity (r2_process_observation self))
  | Payload_RecoveredClosure primary_failure _ _, Proof_GuardianRecovery =>
      primary_failure_observed primary_failure
      && rp_native_job_empty_observed proof
      && rp_guardian_completion_observed proof
      && is_some_and windows_sha256_text_is_valid (rp_guardian_receipt_sha256 proof)
      && is_none (rp_current_boot_id proof)
      && is_none (r2_cleanup_process_creation self)
  | Payload_RecoveredClosure primary_failure _ _, PriorBoot =>
      primary_failure_observed primary_failure
      && negb (rp_target_completion_observed proof)
      && negb (rp_native_job_empty_observed proof)
      && negb (rp_relay_closure_observed proof)
      && negb (rp_guardian_completion_observed proof)
      && is_none (rp_guardian_receipt_sha256 proof)
      && is_some_and (λ boot, negb (str_is_empty boot) && (boot ≠? rp_original_boot_id proof))
           (rp_current_boot_id proof)
      && is_none (r2_cleanup_process_creation self)
  | _, _ => false
  end.

Definition delivered_before_ack (self : WindowsTerminalReceiptV2) : bool :=
  match r2_payload self with
  | Payload_Execution _ _ _ _ (WindowsJobObjectV2 native) => is_some (ws_frontend_delivery native)
  | _ => false
  end.

Definition exited_zero (outcome : RunOutcome) : bool :=
  match outcome with Exited (ExitCode code) _ _ => (code =? 0)%Z | _ => false end.

Section Receipts.
Context `{Serialize WindowsProcessObservationV2}.

Definition validate_for_attempt (self : WindowsTerminalReceiptV2) : result string () :=
  guard_err (negb (r2_schema_version self =? 2)) "schema_version"%string ;;
  guard_err (str_is_empty (r2_attempt_id self) || str_is_empty (r2_nonce self)
             || str_is_empty (r2_request_sha256 self)) "attempt_binding"%string ;;
  observation_validate (r2_process_observation self) (r2_attempt_id self) (r2_nonce self)
    (r2_request_sha256 self) ;;
  guard_err (retirement_proof_differs self) "retirement_proof"%string ;;
  guard_err (negb (source_matches self)) "retirement_proof.source"%string ;;
  guard_err (delivered_before_ack self) "boundary_detail.frontend_delivery_before_ack"%string ;;
  guard_err (is_some (receipt_execution self) && negb (is_safe_for (r2_restart_safety self) Sealed))
    "restart_safety"%string ;;
  guard_err (is_some_and (λ cleanup, negb (creation_is_consistent cleanup)) (r2_cleanup_process_creation self))
    "cleanup_process_creation"%string.

(** The value returned is the native evidence the receipt certifies. *)
Definition validate_for_certification_v2 (self : WindowsTerminalReceiptV2)
    (expected_attempt_binding : string) (required_job_total_processes : N)
    : result string WindowsSealedEvidenceV2 :=
  validate_for_attempt self ;;
  execution ← ok_or "kind"%string (receipt_execution self);
  let '(_, outcome, boundary_detail) := execution in
  accounting ← ok_or "process_observation.final_accounting"%string
                 (ob_final_accounting (r2_process_observation self));
  guard_err ((ac_total_processes accounting <? required_job_total_processes)
             || negb (ac_observed_after_target_retirement accounting)
             || negb (ac_active_processes accounting =? 0))
    "process_observation.final_accounting"%string ;;
  cleanup ← ok_or "cleanup_process_creation"%string (r2_cleanup_process_creation self);
  guard_err (negb (creation_is_consistent cleanup)
             || (cc_attempt_binding cleanup ≠? expected_attempt_binding)
             || (ac_total_processes accounting <? cc_total_processes_after cleanup))
    "cleanup_process_creation"%string ;;
  guard_err (negb (exited_zero outcome)) "outcome.child"%string ;;
  match boundary_detail with
  | WindowsJobObjectV2 native =>
      guard_err (negb (ws_active_processes_zero native) || negb (ws_direct_target_reaped native)
                 || negb (ws_guardian_reaped native) || negb (ws_relays_retired native)
                 || negb (ws_final_job_handles_closed native)) "boundary_detail.retirement"%string ;;
      Ok native
  | _ => Err "boundary_detail.variant"%string
  end.
End Receipts.

(** *** Version one *)

(** [items.iter().enumerate().all(|(i, x)| !items[..i].contains(x))] *)
Fixpoint no_earlier {A} `{EqDecision A} (prior rest : list A) : bool :=
  match rest with
  | [] => true
  | x :: rest => negb (bool_decide (x ∈ prior)) && no_earlier (prior ++ [x]) rest
  end.
Definition inventory_shape_is_bounded (self : WindowsTerminalReceiptV1) : bool :=
  (N.of_nat (length (r1_job_process_identities self)) <=? WINDOWS_MAX_JOB_PROCESS_IDENTITIES)
  && forallb (λ identity, negb (process_id identity =? 0)) (r1_job_process_identities self)
  && no_earlier [] (r1_job_process_identities self).
Definition inventory_is_bounded (self : WindowsTerminalReceiptV1) : bool :=
  inventory_shape_is_bounded self && is_none_or creation_is_consistent (r1_cleanup_process_creation self).

(** [for (complete, field) in [..] { if !complete { return Err(field) } }] *)
Fixpoint first_incomplete (checks : list (bool * string)) : result string () :=
  match checks with
  | [] => Ok ()
  | (complete, field) :: checks => guard_err (negb complete) field ;; first_incomplete checks
  end.

Definition check (complete : bool) (field : string) : bool * string := (complete, field).
Definition cleanup_checks (self : WindowsTerminalReceiptV1) (required_job_total_processes : N)
    (cleanup : WindowsCleanupProcessCreationEvidenceV1) : list (bool * string) :=
  [check (cc_schema_version cleanup =? 1) "cleanup_process_creation.schema_version";
   check (cc_attempted_after_terminating_transition cleanup) "cleanup_process_creation.attempted_after_terminating_transition";
   check (cc_child_created cleanup) "cleanup_process_creation.child_created";
   check (cc_child_job_membership_verified cleanup) "cleanup_process_creation.child_job_membership_verified";
   check (negb (process_id (cc_child_identity cleanup) =? 0)) "cleanup_process_creation.child_identity.process_id";
   check (negb (creation_time_100ns (cc_child_identity cleanup) =? 0)) "cleanup_process_creation.child_identity.creation_time_100ns";
   check (cc_total_processes_before cleanup <? cc_total_processes_after cleanup) "cleanup_process_creation.total_processes_after";
   check (cc_final_active_processes_zero cleanup) "cleanup_process_creation.final_active_processes_zero";
   check (cc_total_processes_after cleanup <=? r1_job_total_processes self) "job_total_processes.cleanup_floor";
   check (required_job_total_processes <=? r1_job_total_processes self) "job_total_processes.qualification_minimum"].

Definition native_checks (native : WindowsSealedEvidenceV2) : list (bool * string) :=
  [check (ws_schema_version native =? 2) "boundary_detail.schema_version";
   check (ws_service_identity native ≟ "MemCordonSealedControl+MemCordonSealedLauncher:v1"%string) "boundary_detail.service_identity";
   check (ws_caller_token_authenticated native) "boundary_detail.caller_token_authenticated";
   check (ws_initial_target_token_matches_caller native) "boundary_detail.initial_target_token_matches_caller";
   check (ws_credential_transition_disposition native ≟ PreserveCallerEnvelope) "boundary_detail.credential_transition_disposition";
   check (ws_job_membership_independent_of_token native) "boundary_detail.job_membership_independent_of_token";
   check (ws_job_created native) "boundary_detail.job_created";
   check (ws_job_limits_verified native) "boundary_detail.job_limits_verified";
   check (ws_kill_on_close_verified native) "boundary_detail.kill_on_close_verified";
   check (ws_breakaway_denied native) "boundary_detail.breakaway_denied";
   check (ws_completion_port_associated native) "boundary_detail.completion_port_associated";
   check (ws_guardian_ready native) "boundary_detail.guardian_ready";
   check (ws_target_created_suspended native) "boundary_detail.target_created_suspended";
   check (ws_job_list_applied_at_creation native) "boundary_detail.job_list_applied_at_creation";
   check (ws_handle_list_applied_at_creation native) "boundary_detail.handle_list_applied_at_creation";
   check (ws_target_job_membership_verified native) "boundary_detail.target_job_membership_verified";
   check (ws_target_still_suspended_during_verification native) "boundary_detail.target_still_suspended_during_verification";
   check (ws_inherited_handles_verified native) "boundary_detail.inherited_handles_verified";
   check (ws_target_released native) "boundary_detail.target_released";
   check (ws_terminate_job_invoked native) "boundary_detail.terminate_job_invoked";
   check (ws_active_processes_zero native) "boundary_detail.active_processes_zero";
   check (ws_direct_target_reaped native) "boundary_detail.direct_target_reaped";
   check (ws_relays_retired native) "boundary_detail.relays_retired";
   check (ws_guardian_reaped native) "boundary_detail.guardian_reaped";
   check (ws_final_job_handles_closed native) "boundary_detail.final_job_handles_closed"].

Definition validate_for_certification_v1 (self : WindowsTerminalReceiptV1)
    (expected_attempt_binding : string) (required_job_total_processes : N)
    : result string WindowsSealedEvidenceV2 :=
  guard_err (negb (r1_schema_version self =? 1)) "schema_version"%string ;;
  guard_err (negb (inventory_shape_is_bounded self)) "job_process_identities"%string ;;
  guard_err (negb (is_safe_for (r1_restart_safety self) Sealed)) "restart_safety"%string ;;
  cleanup ← ok_or "cleanup_process_creation"%string (r1_cleanup_process_creation self);
  guard_err (cc_attempt_binding cleanup ≠? expected_attempt_binding)
    "cleanup_process_creation.attempt_binding"%string ;;
  first_incomplete (cleanup_checks self required_job_total_processes cleanup) ;;
  guard_err (negb (exited_zero (r1_outcome self))) "outcome.child"%string ;;
  match r1_boundary_detail self with
  | WindowsJobObjectV2 native => first_incomplete (native_checks native) ;; Ok native
  | _ => Err "boundary_detail.variant"%string
  end.

(** ** Attempts that are retained, replayable or retired *)

Inductive DiagnosticProjectionAvailabilityV1 : Type :=
| ProjectionAvailable | RecordUnavailable | ProviderBindingUnavailable | InvalidProjection
| RetentionExpired.
#[global] Instance DiagnosticProjectionAvailabilityV1_eq_dec : EqDecision DiagnosticProjectionAvailabilityV1.
Proof. solve_decision. Defined.
#[global] Instance WindowsCausalDiagnosticsV1_eq_dec : EqDecision WindowsCausalDiagnosticsV1.
Proof. solve_decision. Defined.

Record WindowsDurableCleanupStateV1 : Type := {
  cs_termination_requested : bool;
  cs_active_processes_zero : bool;
  cs_guardian_reaped : bool;
  cs_final_handles_closed : bool
}.
#[global] Instance WindowsDurableCleanupStateV1_eq_dec : EqDecision WindowsDurableCleanupStateV1.
Proof. solve_decision. Defined.

Inductive WindowsTerminalLifecycleV1 : Type :=
| Lifecycle_Executing | Retiring | ProofReady | Lifecycle_OutboxStaged | AckCommitted
| RetirementComplete | Retained | Quarantined.
#[global] Instance WindowsTerminalLifecycleV1_eq_dec : EqDecision WindowsTerminalLifecycleV1.
Proof. solve_decision. Defined.

Record WindowsAttemptRetainedV1 : Type := {
  t1_schema_version : N;
  t1_attempt_id : string;
  t1_nonce : string;
  t1_request_sha256 : string;
  t1_relay_phase : WindowsRelayPhaseV1;
  t1_durable_state : option WindowsAttemptStateV1;
  t1_terminal_disposition : option WindowsAttemptTerminalDispositionV1;
  t1_cleanup_complete : bool;
  t1_terminal_replay_available : bool;
  t1_authority_retained : bool;
  t1_primary_detail : string;
  t1_secondary_failures : list string;
  t1_causal_diagnostics : WindowsCausalDiagnosticsV1;
  t1_provider_failure : option ProviderFailureDiagnosticV1;
  t1_diagnostic_availability : DiagnosticProjectionAvailabilityV1
}.
#[global] Instance WindowsAttemptRetainedV1_eq_dec : EqDecision WindowsAttemptRetainedV1.
Proof. solve_decision. Defined.

Inductive WindowsReplayOutboxStageV1 : Type := NotAttempted | Attempting | Stage_Failed | Staged.

Record WindowsReplayPendingV1 : Type := {
  p1_schema_version : N;
  p1_attempt_id : string;
  p1_nonce : string;
  p1_request_sha256 : string;
  p1_relay_phase : WindowsRelayPhaseV1;
  p1_durable_state : WindowsAttemptStateV1;
  p1_terminal_disposition : option WindowsAttemptTerminalDispositionV1;
  p1_authorization_present : bool;
  p1_resume_attempted : bool;
  p1_target_released : bool;
  p1_cleanup_state : WindowsDurableCleanupStateV1;
  p1_cleanup_complete : bool;
  p1_outbox_stage : WindowsReplayOutboxStageV1;
  p1_terminalization : WindowsTerminalizationStatusV1;
  p1_detail : string;
  p1_causal_diagnostics : WindowsCausalDiagnosticsV1;
  p1_provider_failure : option ProviderFailureDiagnosticV1;
  p1_diagnostic_availability : DiagnosticProjectionAvailabilityV1
}.

Inductive WindowsMissingRetirementProofV1 : Type :=
| Missing_TerminalSeed | Missing_NativeJobEmpty | Missing_GuardianReceipt | Missing_RelayClosure
| Missing_OwnerCapabilityClosure | Missing_RecoveryAuthorization | Missing_OwnerManifest
| Missing_DurableOutbox | Missing_Ack | Missing_RetirementLedger.
#[global] Instance WindowsMissingRetirementProofV1_eq_dec : EqDecision WindowsMissingRetirementProofV1.
Proof. solve_decision. Defined.

Definition missing_proofs_valid (proofs : list WindowsMissingRetirementProofV1) : bool :=
  (length proofs <=? 10)%nat && no_earlier [] proofs.

Inductive WindowsRetainedRecordUnavailableReasonV1 : Type :=
| Preadmission | ReadFailure | ParseFailure | AuthenticationFailure.
Inductive WindowsRetainedRecordBindingV1 : Type :=
| Binding_Bound (provider_generation launch_incarnation boot_identity job_identity : string)
    (owner_manifest_sha256 : option string)
| Binding_Unavailable (reason : WindowsRetainedRecordUnavailableReasonV1).

Record WindowsAttemptRetainedV2 : Type := {
  t2_schema_version : N;
  t2_attempt_id : string;
  t2_nonce : string;
  t2_request_sha256 : string;
  t2_record_binding : WindowsRetainedRecordBindingV1;
  t2_relay_phase : WindowsRelayPhaseV1;
  t2_durable_state : option WindowsAttemptStateV1;
  t2_terminal_disposition : option WindowsAttemptTerminalDispositionV1;
  t2_checkpoint : WindowsTerminalLifecycleV1;
  t2_missing_proofs : list WindowsMissingRetirementProofV1;
  t2_cleanup_complete : bool;
  t2_terminal_replay_available : bool;
  t2_authority_retained : bool;
  t2_primary_detail : string;
  t2_secondary_failures : list string;
  t2_causal_diagnostics : WindowsCausalDiagnosticsV1;
  t2_provider_failure : option ProviderFailureDiagnosticV1;
  t2_diagnostic_availability : DiagnosticProjectionAvailabilityV1
}.

Record WindowsReplayPendingV2 : Type := {
  p2_schema_version : N;
  p2_attempt_id : string;
  p2_nonce : string;
  p2_request_sha256 : string;
  p2_provider_generation : string;
  p2_launch_incarnation : string;
  p2_boot_identity : string;
  p2_job_identity : string;
  p2_owner_manifest_sha256 : option string;
  p2_relay_phase : WindowsRelayPhaseV1;
  p2_durable_state : WindowsAttemptStateV1;
  p2_terminal_disposition : option WindowsAttemptTerminalDispositionV1;
  p2_checkpoint : WindowsTerminalLifecycleV1;
  p2_missing_proofs : list WindowsMissingRetirementProofV1;
  p2_authorization_present : bool;
  p2_resume_attempted : bool;
  p2_target_released : bool;
  p2_cleanup_state : WindowsDurableCleanupStateV1;
  p2_cleanup_complete : bool;
  p2_outbox_stage : WindowsReplayOutboxStageV1;
  p2_terminalization : WindowsTerminalizationStatusV1;
  p2_detail : string;
  p2_causal_diagnostics : WindowsCausalDiagnosticsV1;
  p2_provider_failure : option ProviderFailureDiagnosticV1;
  p2_diagnostic_availability : DiagnosticProjectionAvailabilityV1
}.

Definition cleanup_all (state : WindowsDurableCleanupStateV1) : bool :=
  cs_termination_requested state && cs_active_processes_zero state && cs_guardian_reaped state
  && cs_final_handles_closed state.

Record WindowsTerminalRetiredV1 : Type := {
  tr_schema_version : N;
  tr_attempt_id : string;
  tr_nonce : string;
  tr_request_sha256 : string;
  tr_terminal_response_sha256 : string;
  tr_disposition : WindowsAttemptTerminalDispositionV1
}.
Definition retired_v1_is_consistent_for (self : WindowsTerminalRetiredV1)
    (attempt_id nonce request_sha256 terminal_response_sha256 : string) : bool :=
  (tr_schema_version self =? 1)
  && (tr_attempt_id self ≟ attempt_id)
  && (tr_nonce self ≟ nonce)
  && (tr_request_sha256 self ≟ request_sha256)
  && (tr_terminal_response_sha256 self ≟ terminal_response_sha256)
  && windows_sha256_text_is_valid (tr_attempt_id self)
  && windows_sha256_text_is_valid (tr_request_sha256 self)
  && windows_sha256_text_is_valid (tr_terminal_response_sha256 self).

Inductive WindowsRetirementLedgerCompletionV1 : Type := Ledger_RetirementComplete.
#[global] Instance WindowsRetirementLedgerCompletionV1_eq_dec : EqDecision WindowsRetirementLedgerCompletionV1.
Proof. solve_decision. Defined.
Record WindowsTerminalRetiredV2 : Type := {
  t3_schema_version : N;
  t3_attempt_id : string;
  t3_nonce : string;
  t3_request_sha256 : string;
  t3_terminal_response_sha256 : string;
  t3_disposition : WindowsAttemptTerminalDispositionV1;
  t3_provider_generation : string;
  t3_original_boot_id : string;
  t3_launch_incarnation : string;
  t3_job_identity : string;
  t3_owner_manifest_sha256 : string;
  t3_retirement_proof_sha256 : string;
  t3_ledger_generation : string;
  t3_completion : WindowsRetirementLedgerCompletionV1
}.
Definition retired_v2_is_consistent_for (self : WindowsTerminalRetiredV2)
    (attempt_id nonce request_sha256 terminal_response_sha256 : string) : bool :=
  (t3_schema_version self =? 2)
  && (t3_attempt_id self ≟ attempt_id)
  && (t3_nonce self ≟ nonce)
  && (t3_request_sha256 self ≟ request_sha256)
  && (t3_terminal_response_sha256 self ≟ terminal_response_sha256)
  && windows_sha256_text_is_valid (t3_attempt_id self)
  && windows_sha256_text_is_valid (t3_request_sha256 self)
  && windows_sha256_text_is_valid (t3_terminal_response_sha256 self)
  && negb (str_is_empty (t3_provider_generation self))
  && negb (str_is_empty (t3_original_boot_id self))
  && negb (str_is_empty (t3_launch_incarnation self))
  && windows_sha256_text_is_valid (t3_job_identity self)
  && windows_sha256_text_is_valid (t3_owner_manifest_sha256 self)
  && windows_sha256_text_is_valid (t3_retirement_proof_sha256 self)
  && windows_sha256_text_is_valid (t3_ledger_generation self)
  && (t3_completion self ≟ Ledger_RetirementComplete).

Record WindowsRecoveryInventoryV1 : Type := {
  in_schema_version : N;
  in_challenge : string;
  in_provider_generation : string;
  in_current_boot_identity : string;
  in_executing : N;
  in_incomplete_proof : N;
  in_unacknowledged_outboxes : N;
  in_ack_retirement_in_progress : N;
  in_completed_tombstones : N;
  in_active_admissions : N;
  in_quarantined : N
}.
(** The seven [u32] counts are added as [u64]. *)
Definition inventory_is_consistent (self : WindowsRecoveryInventoryV1) : bool :=
  (in_schema_version self =? 1)
  && negb (str_is_empty (in_challenge self))
  && negb (str_is_empty (in_provider_generation self))
  && negb (str_is_empty (in_current_boot_identity self))
  && (in_executing self + in_incomplete_proof self + in_unacknowledged_outboxes self
      + in_ack_retirement_in_progress self + in_completed_tombstones self + in_active_admissions self
      + in_quarantined self <=? u32_max).
Definition authority_unsettled (self : WindowsRecoveryInventoryV1) : bool :=
  negb (in_executing self =? 0)
  || negb (in_incomplete_proof self =? 0)
  || negb (in_unacknowledged_outboxes self =? 0)
  || negb (in_ack_retirement_in_progress self =? 0)
  || negb (in_active_admissions self =? 0)
  || negb (in_quarantined self =? 0).

Inductive WindowsControlRequestStatusV1 : Type := Status_Ready | Status_Active | Status_Failed.
Record WindowsPackageCleanupOutcomeV1 : Type := {
  pc_status : WindowsControlRequestStatusV1;
  pc_attempts_empty : option bool;
  pc_terminal_outboxes : option N;
  pc_detail : string
}.
Definition cleanup_outcome_validate (self : WindowsPackageCleanupOutcomeV1) : result string () :=
  match pc_status self, pc_attempts_empty self, pc_terminal_outboxes self with
  | Status_Ready, Some true, Some 0 | Status_Active, Some false, Some _ => Ok ()
  | _, Some true, Some (Npos _) => Err "empty attempts contradict authenticated terminal outboxes"%string
  | Status_Failed, _, _ => Ok ()
  | _, _, _ =>
      Err "package cleanup requires consistent authenticated attempt and inventory evidence"%string
  end.

Inductive WindowsProviderReplacementQuiescenceV1 : Type :=
| ProviderJobsNotTerminated | ProviderJobStillActive | DurableRecoveryStillActive | ReadyForReplacement.
Definition windows_provider_replacement_quiescence
    (provider_jobs_terminated provider_jobs_observed_empty durable_recovery_empty : bool)
    : WindowsProviderReplacementQuiescenceV1 :=
  match provider_jobs_terminated, provider_jobs_observed_empty, durable_recovery_empty with
  | false, _, _ => ProviderJobsNotTerminated
  | true, false, _ => ProviderJobStillActive
  | true, true, false => DurableRecoveryStillActive
  | true, true, true => ReadyForReplacement
  end.

(** ** Rejections of version two *)

Inductive WindowsProviderRejectionDispositionV2 : Type :=
| Preauthorization (terminal_ack_required : bool)
| PostauthorizationFailure (receipt : WindowsTerminalReceiptV2)
| Disposition_Retained (evidence : WindowsAttemptRetainedV1).
#[global] Instance WindowsProviderRejectionDispositionV2_eq_dec :
  EqDecision WindowsProviderRejectionDispositionV2.
Proof. solve_decision. Defined.

Record WindowsProviderRejectionV2 : Type := {
  v2_schema_version : N;
  v2_workload_admission : option WorkloadEvidence.WorkloadAdmissionRejectionV1;
  v2_provider_failure : option ProviderFailureDiagnosticV1;
  v2_code : string;
  v2_phase : BoundarySetupPhase;
  v2_detail : string;
  v2_os_code : option Z;
  v2_loader_qualification : option WindowsLoaderQualificationOutcomeV2;
  v2_target_created : bool;
  v2_target_released : bool;
  v2_cleanup_attempted : bool;
  v2_restart_safety : RestartSafetyProof;
  v2_disposition : WindowsProviderRejectionDispositionV2
}.
#[global] Instance WindowsProviderRejectionV2_eq_dec : EqDecision WindowsProviderRejectionV2.
Proof. solve_decision. Defined.

Definition terminal_ack_required (self : WindowsProviderRejectionV2) : bool :=
  match v2_disposition self with
  | Preauthorization required => required
  | PostauthorizationFailure _ => true
  | Disposition_Retained _ => false
  end.
Definition terminal_receipt (self : WindowsProviderRejectionV2) : option WindowsTerminalReceiptV2 :=
  match v2_disposition self with PostauthorizationFailure receipt => Some receipt | _ => None end.

Definition matching_authority (self : WindowsProviderRejectionV2) (payload : WindowsTerminalPayloadV2) : bool :=
  match payload with
  | Payload_Execution _ _ _ _ (WindowsJobObjectV2 native) =>
      Bool.eqb (ws_target_released native) (v2_target_released self)
  | Payload_Execution _ _ _ _ _ => false
  | Payload_RecoveredClosure _ target_creation_observed resume_attempted =>
      Bool.eqb target_creation_observed (v2_target_created self)
      && (negb (v2_target_released self) || resume_attempted)
  end.
Definition matching_primary (self : WindowsProviderRejectionV2) (payload : WindowsTerminalPayloadV2) : bool :=
  match payload, v2_provider_failure self with
  | Payload_Execution _ _ _ (MonitorFailed _ _ _) _, Some failure =>
      match pf_original failure with Observed event => 0 <? ev_sequence event | Unavailable _ => false end
  | Payload_Execution _ _ _ (MonitorFailed _ _ _) _, None => true
  | Payload_RecoveredClosure primary_failure _ _, Some failure => pf_original failure ≟ primary_failure
  | Payload_RecoveredClosure _ _ _, None => true
  | _, _ => false
  end.

Section Rejections.
Context `{Serialize WindowsProcessObservationV2}.
Variable sha256_hash : list u8 → list u8.
Variable json_plan_digest : string → option string.

Definition projection_bound (failure : ProviderFailureDiagnosticV1) : bool :=
  projection_is_consistent failure && (projection_sha256 failure ≟ canonical_digest sha256_hash failure).

Definition rejection_v2_is_consistent (self : WindowsProviderRejectionV2) : bool :=
  if negb (v2_schema_version self =? 2)
     || str_is_empty (v2_code self)
     || (128 <? str_len (v2_code self))
     || negb (str_all (λ byte, is_ascii_uppercase byte || is_ascii_digit byte || (byte ≟ "-"%char))
                (v2_code self))
     || str_is_empty (v2_detail self)
     || (PROVIDER_REJECTION_MAX_DETAIL_BYTES <? str_len (v2_detail self))
     || str_contains NUL (v2_detail self)
     || (negb (v2_target_created self) && v2_target_released self)
     || is_some_and (λ item, negb (loader_is_consistent json_plan_digest item)) (v2_loader_qualification self)
     || is_some_and (λ failure, negb (projection_bound failure)) (v2_provider_failure self)
  then false
  else
    match v2_disposition self with
    | Preauthorization terminal_ack_required =>
        negb (v2_target_released self) && (negb terminal_ack_required || v2_cleanup_attempted self)
    | PostauthorizationFailure receipt =>
        v2_target_created self
        && v2_cleanup_attempted self
        && is_ok (validate_for_attempt receipt)
        && (r2_restart_safety receipt ≟ v2_restart_safety self)
        && matching_authority self (r2_payload receipt)
        && matching_primary self (r2_payload receipt)
    | Disposition_Retained evidence =>
        t1_authority_retained evidence && negb (rsp_sealed_boundary_retired (v2_restart_safety self))
    end.

(** The projection shared by the retained and pending documents. *)
Definition projection_matches (failure : option ProviderFailureDiagnosticV1)
    (availability : DiagnosticProjectionAvailabilityV1) (attempt request : string)
    (journal : WindowsCausalDiagnosticsV1) : bool :=
  Bool.eqb (is_some failure) (availability ≟ ProjectionAvailable)
  && diagnostics_is_consistent journal
  && is_none_or (λ failure, projection_bound failure && matches_journal failure attempt request journal)
       failure.

Definition retained_v1_is_consistent_for (self : WindowsAttemptRetainedV1)
    (attempt_id nonce request_sha256 : string) (relay_phase : WindowsRelayPhaseV1) : bool :=
  (t1_schema_version self =? 2)
  && projection_matches (t1_provider_failure self) (t1_diagnostic_availability self) (t1_attempt_id self)
       (t1_request_sha256 self) (t1_causal_diagnostics self)
  && (t1_attempt_id self ≟ attempt_id)
  && (t1_nonce self ≟ nonce)
  && negb (str_is_empty (t1_nonce self))
  && (t1_request_sha256 self ≟ request_sha256)
  && (t1_relay_phase self ≟ relay_phase)
  && windows_sha256_text_is_valid (t1_attempt_id self)
  && windows_sha256_text_is_valid (t1_request_sha256 self)
  && t1_authority_retained self
  && negb (str_is_empty (t1_primary_detail self))
  && forallb (λ failure, negb (str_is_empty failure)) (t1_secondary_failures self)
  && (negb (t1_cleanup_complete self) || (t1_durable_state self ≟ Some Empty))
  && (negb (t1_terminal_replay_available self)
      || (t1_cleanup_complete self && is_some (t1_terminal_disposition self))).

Definition pending_v1_is_consistent_for (self : WindowsReplayPendingV1)
    (attempt_id nonce request_sha256 : string) (relay_phase : WindowsRelayPhaseV1) : bool :=
  (p1_schema_version self =? 3)
  && projection_matches (p1_provider_failure self) (p1_diagnostic_availability self) (p1_attempt_id self)
       (p1_request_sha256 self) (p1_causal_diagnostics self)
  && (p1_attempt_id self ≟ attempt_id)
  && (p1_nonce self ≟ nonce)
  && (p1_request_sha256 self ≟ request_sha256)
  && (p1_relay_phase self ≟ relay_phase)
  && windows_sha256_text_is_valid (p1_attempt_id self)
  && windows_sha256_text_is_valid (p1_request_sha256 self)
  && negb (str_is_empty (p1_detail self))
  && terminalization_is_consistent (p1_terminalization self)
  && Bool.eqb (p1_cleanup_complete self) ((p1_durable_state self ≟ Empty) && cleanup_all (p1_cleanup_state self))
  && (negb (p1_cleanup_complete self) || (p1_durable_state self ≟ Empty)).

Definition record_binding_is_consistent (self : WindowsAttemptRetainedV2) : bool :=
  match t2_record_binding self with
  | Binding_Bound provider_generation launch_incarnation boot_identity job_identity owner_manifest_sha256 =>
      negb (str_is_empty provider_generation) && negb (str_is_empty launch_incarnation)
      && negb (str_is_empty boot_identity) && windows_sha256_text_is_valid job_identity
      && is_none_or windows_sha256_text_is_valid owner_manifest_sha256
  | Binding_Unavailable _ =>
      is_none (t2_durable_state self) && is_none (t2_terminal_disposition self)
      && negb (t2_cleanup_complete self) && negb (t2_terminal_replay_available self)
      && bool_decide (Missing_OwnerManifest ∈ t2_missing_proofs self)
  end.

Definition retained_v2_is_consistent_for (self : WindowsAttemptRetainedV2)
    (attempt_id nonce request_sha256 : string) (relay_phase : WindowsRelayPhaseV1) : bool :=
  (t2_schema_version self =? 3)
  && (t2_attempt_id self ≟ attempt_id)
  && (t2_nonce self ≟ nonce)
  && (t2_request_sha256 self ≟ request_sha256)
  && (t2_relay_phase self ≟ relay_phase)
  && windows_sha256_text_is_valid (t2_attempt_id self)
  && windows_sha256_text_is_valid (t2_request_sha256 self)
  && negb (str_is_empty (t2_nonce self))
  && record_binding_is_consistent self
  && missing_proofs_valid (t2_missing_proofs self)
  && (t2_checkpoint self ≠? RetirementComplete)
  && t2_authority_retained self
  && negb (str_is_empty (t2_primary_detail self))
  && forallb (λ failure, negb (str_is_empty failure)) (t2_secondary_failures self)
  && projection_matches (t2_provider_failure self) (t2_diagnostic_availability self) (t2_attempt_id self)
       (t2_request_sha256 self) (t2_causal_diagnostics self)
  && (negb (t2_cleanup_complete self) || (t2_durable_state self ≟ Some Empty))
  && (negb (t2_terminal_replay_available self)
      || (t2_cleanup_complete self && is_some (t2_terminal_disposition self))).

Definition pending_v2_is_consistent_for (self : WindowsReplayPendingV2)
    (attempt_id nonce request_sha256 : string) (relay_phase : WindowsRelayPhaseV1) : bool :=
  (p2_schema_version self =? 4)
  && (p2_attempt_id self ≟ attempt_id)
  && (p2_nonce self ≟ nonce)
  && (p2_request_sha256 self ≟ request_sha256)
  && (p2_relay_phase self ≟ relay_phase)
  && windows_sha256_text_is_valid (p2_attempt_id self)
  && windows_sha256_text_is_valid (p2_request_sha256 self)
  && negb (str_is_empty (p2_nonce self))
  && negb (str_is_empty (p2_provider_generation self))
  && negb (str_is_empty (p2_launch_incarnation self))
  && negb (str_is_empty (p2_boot_identity self))
  && windows_sha256_text_is_valid (p2_job_identity self)
  && is_none_or windows_sha256_text_is_valid (p2_owner_manifest_sha256 self)
  && missing_proofs_valid (p2_missing_proofs self)
  && (p2_checkpoint self ≠? RetirementComplete)
  && negb (str_is_empty (p2_detail self))
  && terminalization_is_consistent (p2_terminalization self)
  && projection_matches (p2_provider_failure self) (p2_diagnostic_availability self) (p2_attempt_id self)
       (p2_request_sha256 self) (p2_causal_diagnostics self)
  && Bool.eqb (p2_cleanup_complete self)
       ((p2_durable_state self ≟ Empty) && cleanup_all (p2_cleanup_state self)).
End Rejections.

(** ** What certification proves *)

Record retired_proof (self : WindowsTerminalReceiptV2) (proof : WindowsRetirementProofV2) : Prop := {
  rv_source : rp_source proof = LiveNative;
  rv_bound : rp_attempt_id proof = r2_attempt_id self ∧ rp_nonce proof = r2_nonce self ∧
             rp_request_sha256 proof = r2_request_sha256 self;
  rv_observed : rp_target_completion_observed proof = true ∧ rp_native_job_empty_observed proof = true ∧
                rp_relay_closure_observed proof = true ∧ rp_guardian_completion_observed proof = true;
  rv_closed : rp_owner_capabilities_closed proof = true ∧ rp_launch_gate_closed proof = true ∧
              rp_policy_reference_bound proof = true
}.
Definition native_retired (native : WindowsSealedEvidenceV2) : Prop :=
  ws_active_processes_zero native = true ∧ ws_direct_target_reaped native = true ∧
  ws_relays_retired native = true ∧ ws_guardian_reaped native = true ∧
  ws_final_job_handles_closed native = true.

Lemma no_earlier_NoDup {A} `{EqDecision A} (prior rest : list A) :
  no_earlier prior rest = true ↔ NoDup rest ∧ (∀ x, x ∈ rest → x ∉ prior).
Proof.
  revert prior. induction rest as [|x rest IH]; intros prior; cbn.
  - split; [|done]. intros _. split; [apply NoDup_nil_2|]. by intros y Hy%not_elem_of_nil.
  - rewrite andb_true_iff, negb_true_iff, bool_decide_eq_false, IH, NoDup_cons. split.
    + intros (Hx & Hd & Hp). split_and!; [|done|].
      * intros Hin. apply (Hp x Hin), elem_of_app. right. by apply list_elem_of_singleton.
      * intros y [->|Hy]%elem_of_cons; [done|]. intros Hin. apply (Hp y Hy), elem_of_app. by left.
    + intros ([Hn Hd] & Hp). split_and!; [by apply Hp; left|done|].
      intros y Hy [Hin|Hin%list_elem_of_singleton]%elem_of_app; [by apply (Hp y); [right|]|by subst].
Qed.

Lemma first_incomplete_Ok checks : first_incomplete checks = Ok () ↔ Forall (λ c, c.1 = true) checks.
Proof.
  induction checks as [|[complete field] checks IH]; cbn; [by split; constructor|].
  rewrite Forall_cons, <- IH. destruct complete; cbn; naive_solver.
Qed.

Section ReceiptFacts.
Context `{Serialize WindowsProcessObservationV2}.

Lemma validate_for_attempt_Ok r :
  validate_for_attempt r = Ok () →
  observation_validate (r2_process_observation r) (r2_attempt_id r) (r2_nonce r) (r2_request_sha256 r) = Ok () ∧
  retirement_proof_differs r = false ∧ source_matches r = true ∧ delivered_before_ack r = false ∧
  (is_some (receipt_execution r) = true → is_safe_for (r2_restart_safety r) Sealed = true) ∧
  is_none_or creation_is_consistent (r2_cleanup_process_creation r) = true.
Proof.
  unfold validate_for_attempt.
  intros ([] & _ & ([] & _ & ([] & Ho & ([] & Hp%guard_err_Ok & ([] & Hs%guard_err_Ok & ([] & Hd%guard_err_Ok &
    ([] & Hr%guard_err_Ok & Hc%guard_err_Ok)%bind_Ok)%bind_Ok)%bind_Ok)%bind_Ok)%bind_Ok)%bind_Ok)%bind_Ok.
  apply negb_false_iff in Hs. split_and!; try done.
  - intros E. rewrite E in Hr. by apply negb_false_iff in Hr.
  - destruct (r2_cleanup_process_creation r); cbn in *; [by apply negb_false_iff|done].
Qed.

Lemma live_proof r child duration offset outcome detail :
  retirement_proof_differs r = false → source_matches r = true →
  r2_payload r = Payload_Execution child duration offset outcome detail →
  retired_proof r (r2_retirement_proof r) ∧
  ∃ root, ob_root_identity (r2_process_observation r) = Some root ∧ process_id root = child ∧ child ≠ 0.
Proof.
  unfold retirement_proof_differs, source_matches. intros Hp Hs Hpay. rewrite Hpay in Hs.
  destruct (rp_source _) eqn:Esrc; try done. rewrite !orb_false_iff, !negb_false_iff, !bool_decide_eq_true in Hp.
  rewrite !andb_true_iff in Hs. destruct Hs as [[[[[[[S1 S2] S3] S4] _] _] S5] S6].
  apply is_some_and_true in S6 as (root & Hroot & Hpid). apply N.eqb_eq in Hpid.
  apply negb_true_iff, N.eqb_neq in S5. split; [|eauto]. constructor; naive_solver.
Qed.

(** C35: A certified version-two terminal proves a full retirement: the receipt is
    for an execution that exited with code zero under the observed root process,
    its proof is live, bound to the receipt's attempt, and observed the target,
    the job, the relays and the guardian closed; the job's last accounting had no
    active process and at least the required total; the process created during
    cleanup was contained; and the native evidence it returns shows the job empty
    and every handle closed. *)
Theorem certified_terminal_is_retired r binding required native :
  validate_for_certification_v2 r binding required = Ok native →
  ∃ child duration offset outcome accounting cleanup,
    r2_payload r = Payload_Execution child duration offset outcome (WindowsJobObjectV2 native) ∧
    exited_zero outcome = true ∧
    (∃ root, ob_root_identity (r2_process_observation r) = Some root ∧ process_id root = child ∧ child ≠ 0) ∧
    retired_proof r (r2_retirement_proof r) ∧ native_retired native ∧ ws_frontend_delivery native = None ∧
    is_safe_for (r2_restart_safety r) Sealed = true ∧
    ob_final_accounting (r2_process_observation r) = Some accounting ∧
    ac_active_processes accounting = 0 ∧ required <= ac_total_processes accounting ∧
    ac_observed_after_target_retirement accounting = true ∧
    r2_cleanup_process_creation r = Some cleanup ∧ creation_is_consistent cleanup = true ∧
    cc_attempt_binding cleanup = binding ∧ cc_total_processes_after cleanup <= ac_total_processes accounting.
Proof.
  unfold validate_for_certification_v2.
  intros ([] & Hv & ([[child' outcome] detail] & He%ok_or_Ok & (accounting & Ha%ok_or_Ok &
    ([] & Hg%guard_err_Ok & (cleanup & Hc%ok_or_Ok & ([] & Hg2%guard_err_Ok & ([] & Hz%guard_err_Ok & Hn)
    %bind_Ok)%bind_Ok)%bind_Ok)%bind_Ok)%bind_Ok)%bind_Ok)%bind_Ok.
  apply validate_for_attempt_Ok in Hv as (_ & Hp & Hs & Hd & Hsafe & _).
  unfold receipt_execution in He, Hsafe. destruct (r2_payload r) as [child duration offset o d|] eqn:Epay; [|done].
  injection He as <- <- <-. destruct d as [| | | |n|]; try done.
  apply bind_Ok in Hn as ([] & Hr%guard_err_Ok & [= <-]). destruct (live_proof r _ _ _ _ _ Hp Hs Epay) as [Hlive Hroot].
  rewrite !orb_false_iff, !negb_false_iff in Hr. rewrite !orb_false_iff, !negb_false_iff in Hg, Hg2. rewrite N.ltb_ge, N.eqb_eq in Hg.
  rewrite N.ltb_ge, bool_decide_eq_true in Hg2. apply negb_false_iff in Hz.
  unfold delivered_before_ack in Hd. rewrite Epay in Hd. apply is_some_false in Hd.
  destruct Hg as [[Hg1 Hg3] Hg4], Hg2 as [[Hc1 Hc2] Hc3], Hr as [[[[R1 R2] R3] R4] R5].
  exists child, duration, offset, o, accounting, cleanup. unfold native_retired. split_and!; auto.
Qed.

Section RejectionFacts.
Variable sha256_hash : list u8 → list u8.
Variable json_plan_digest : string → option string.

(** A consistent rejection does not claim a release without evidence for it:
    if its target was released then the target was created, and either authority
    over the attempt is retained and the boundary is not called retired, or a valid
    terminal receipt with the same cleanup facts shows the release or the attempt
    to resume; a rejection before authorization never released its target. *)
Theorem rejection_release_is_evidenced r :
  rejection_v2_is_consistent sha256_hash json_plan_digest r = true → v2_target_released r = true →
  v2_target_created r = true ∧
  ((∃ evidence, v2_disposition r = Disposition_Retained evidence ∧ t1_authority_retained evidence = true ∧
      rsp_sealed_boundary_retired (v2_restart_safety r) = false) ∨
   (∃ receipt, v2_disposition r = PostauthorizationFailure receipt ∧ validate_for_attempt receipt = Ok () ∧
      r2_restart_safety receipt = v2_restart_safety r ∧ v2_cleanup_attempted r = true ∧
      ((∃ child duration offset outcome native,
          r2_payload receipt = Payload_Execution child duration offset outcome (WindowsJobObjectV2 native) ∧
          ws_target_released native = true ∧ retired_proof receipt (r2_retirement_proof receipt)) ∨
       (∃ primary, r2_payload receipt = Payload_RecoveredClosure primary true true)))).
Proof.
  unfold rejection_v2_is_consistent. intros H0 Hrel. destruct (_ || _) eqn:Hbad in H0; [done|].
  rewrite !orb_false_iff in Hbad. destruct Hbad as [[[_ Hcr] _] _]. rewrite Hrel, andb_true_r in Hcr.
  apply negb_false_iff in Hcr. split; [done|].
  destruct (v2_disposition r) as [ack|receipt|evidence]; rewrite ?Hrel in H0; [done| |].
  - right. exists receipt. rewrite !andb_true_iff, bool_decide_eq_true in H0.
    destruct H0 as [[[[[_ Hca] Hv] Hsafe] Hma] _]. destruct (validate_for_attempt receipt) as [[]|] eqn:Ev; [|done].
    split_and!; try done. apply validate_for_attempt_Ok in Ev as (_ & Hp & Hs & _).
    unfold matching_authority in Hma. rewrite Hrel, Hcr in Hma.
    destruct (r2_payload receipt) as [child duration offset outcome detail|primary created resumed] eqn:Epay.
    + left. destruct detail; try done. apply eqb_prop in Hma.
      destruct (live_proof receipt _ _ _ _ _ Hp Hs Epay) as [? _]. naive_solver.
    + right. exists primary. destruct created, resumed; done.
  - left. exists evidence. rewrite andb_true_iff, negb_true_iff in H0. naive_solver.
Qed.
End RejectionFacts.
End ReceiptFacts.

(** ** Examples *)

Module ReceiptExamples.
#[local] Instance writer : Serialize WindowsProcessObservationV2 := {| to_chunks := λ _, Ok [bytes "{}"] |}.
Definition hex : string := "0123456789abcdef0123456789abcdef0123456789abcdef0123456789abcdef".
Definition root : WindowsProcessIdentityV1 := {| process_id := 7; creation_time_100ns := 9 |}.
Definition safe : RestartSafetyProof :=
  {| rsp_direct_child_reaped := true; rsp_workload_empty := Some true; rsp_helpers_reaped := true;
     rsp_containment_removed := true; rsp_containment_incapable_of_live_members := true;
     rsp_sealed_boundary_retired := true; rsp_errors := [] |}.
Definition native : WindowsSealedEvidenceV2 :=
  {| ws_schema_version := 2; ws_service_identity := "MemCordonSealedControl+MemCordonSealedLauncher:v1";
     ws_caller_token_authenticated := true; ws_initial_target_token_matches_caller := true;
     ws_credential_transition_disposition := PreserveCallerEnvelope;
     ws_job_membership_independent_of_token := true; ws_job_created := true; ws_job_limits_verified := true;
     ws_kill_on_close_verified := true; ws_breakaway_denied := true; ws_completion_port_associated := true;
     ws_guardian_ready := true; ws_target_created_suspended := true; ws_job_list_applied_at_creation := true;
     ws_handle_list_applied_at_creation := true; ws_target_job_membership_verified := true;
     ws_target_still_suspended_during_verification := true; ws_inherited_handles_verified := true;
     ws_target_released := true; ws_terminate_job_invoked := true; ws_active_processes_zero := true;
     ws_direct_target_reaped := true; ws_relays_retired := true; ws_guardian_reaped := true;
     ws_final_job_handles_closed := true; ws_loader_qualification := None; ws_frontend_delivery := None |}.
Definition proof : WindowsRetirementProofV2 :=
  {| rp_schema_version := 2; rp_source := LiveNative; rp_attempt_id := hex; rp_nonce := "n";
     rp_request_sha256 := hex; rp_provider_generation := "g"; rp_launch_incarnation := "i";
     rp_original_boot_id := "b"; rp_job_identity := hex; rp_owner_manifest_sha256 := hex;
     rp_guardian_receipt_sha256 := None; rp_current_boot_id := None; rp_target_completion_observed := true;
     rp_native_job_empty_observed := true; rp_relay_closure_observed := true;
     rp_guardian_completion_observed := true; rp_owner_capabilities_closed := true;
     rp_launch_gate_closed := true; rp_policy_reference_bound := true |}.
Definition receipt (outcome : RunOutcome) : WindowsTerminalReceiptV2 :=
  {| r2_policy_enforcement := None; r2_schema_version := 2; r2_attempt_id := hex; r2_nonce := "n";
     r2_request_sha256 := hex;
     r2_payload := Payload_Execution 7 10 1 outcome (WindowsJobObjectV2 native);
     r2_process_observation :=
       {| ob_schema_version := 2;
          ob_coverage := Sampled SERVICE counters_default omissions_default [];
          ob_root_identity := Some root;
          ob_final_accounting := Some {| ac_total_processes := 4; ac_active_processes := 0;
            ac_observed_after_target_retirement := true; ac_counter_regression_observed := false |};
          ob_required_witness := None |};
     r2_cleanup_process_creation := Some {| cc_schema_version := 1;
       cc_attempt_binding := "attempt-" +:+ hex; cc_attempted_after_terminating_transition := true;
       cc_child_created := true; cc_child_job_membership_verified := true;
       cc_child_identity := {| process_id := 8; creation_time_100ns := 10 |};
       cc_total_processes_before := 2; cc_total_processes_after := 3; cc_final_active_processes_zero := true |};
     r2_restart_safety := safe; r2_retirement_proof := proof |}.
Definition exited : RunOutcome := Exited (ExitCode 0) None CleanupSummary_default.

Lemma certified_terminal_witness : native_retired native ∧ exited_zero exited = true.
Proof.
  destruct (@certified_terminal_is_retired writer (receipt exited) ("attempt-" +:+ hex) 3 native
    ltac:(vm_compute; reflexivity)) as (c & d & o & out & a & cl & Hp & Hz & _ & _ & Hn & _).
  split; [exact Hn|vm_compute; reflexivity].
Defined.

Definition rejection : WindowsProviderRejectionV2 :=
  {| v2_schema_version := 2; v2_workload_admission := None; v2_provider_failure := None;
     v2_code := "MCSEALED-MONITOR"; v2_phase := Monitoring; v2_detail := "monitor lost"; v2_os_code := None;
     v2_loader_qualification := None; v2_target_created := true; v2_target_released := true;
     v2_cleanup_attempted := true; v2_restart_safety := safe;
     v2_disposition :=
       PostauthorizationFailure (receipt (MonitorFailed "monitor lost" None CleanupSummary_default)) |}.
Lemma rejection_release_witness : v2_target_created rejection = true.
Proof.
  apply (@rejection_release_is_evidenced writer (λ _, []) (λ _, None) rejection); vm_compute; reflexivity.
Defined.
End ReceiptExamples.
