(* ===== verification/Errors.v ===== *)
(** * Errors

    memcordon-core/src/error.rs: native startup diagnostics, the observations of a
    failed operational attempt, the [Error] a backend returns and the methods that
    build it.  With the evidence types of the other files it discharges the
    interface [EvidenceTypes] that the supervision records are proved against. *)

From S2P Require Import Prelude Decimal Bounded Codec Diagnostics RecordLimits JsonDocuments NativeText WorkloadContract Policy Outcome Safety Registry RuntimeEvidence PrivateRuntime Boundary WorkloadEvidence PrivateEvidence WindowsObservation ErrorRecord WindowsReceipts.
From Stdlib Require Import Ascii.
#[local] Open Scope N_scope.

(** ** Native startup diagnostics *)

Record NativeHelperIdentityV1 : Type := {
  hi_device : N;
  hi_inode : N;
  hi_size_bytes : N;
  hi_sha256 : option DiagnosticSha256
}.
#[global] Instance NativeHelperIdentityV1_eq_dec : EqDecision NativeHelperIdentityV1.
Proof. solve_decision. Defined.

Inductive NativeStartupPhaseV1 : Type :=
| HelperResolution | HelperValidation | GuardianSpawn | GuardianReadiness | LauncherSpawn
| LauncherReadiness | WorkloadBinding | TargetRelease | TargetExec | StartupCleanup.
Inductive NativeStartupOperationV1 : Type :=
| ResolveHelper | InspectHelper | InspectWorkingDirectory | SpawnGuardian | ReadGuardianReadiness
| SpawnLauncher | ReadLauncherReadiness | BindWorkload | ReleaseTarget | ConfirmTargetExec
| ProtocolValidation | TerminateLauncher | ReapLauncher | TerminateGuardian | ReapGuardian.
Inductive NativeStartupCleanupStateV1 : Type := Startup_Complete | Startup_Incomplete | Startup_Unknown.
#[global] Instance NativeStartupPhaseV1_eq_dec : EqDecision NativeStartupPhaseV1.
Proof. solve_decision. Defined.
#[global] Instance NativeStartupOperationV1_eq_dec : EqDecision NativeStartupOperationV1.
Proof. solve_decision. Defined.
#[global] Instance NativeStartupCleanupStateV1_eq_dec : EqDecision NativeStartupCleanupStateV1.
Proof. solve_decision. Defined.

Record NativeStartupCleanupErrorV1 : Type := {
  ce_operation : NativeStartupOperationV1;
  ce_native_errno : option Z;
  ce_detail : string
}.
#[global] Instance NativeStartupCleanupErrorV1_eq_dec : EqDecision NativeStartupCleanupErrorV1.
Proof. solve_decision. Defined.
Record NativeStartupCleanupV1 : Type := {
  sc_state : NativeStartupCleanupStateV1;
  sc_errors : list NativeStartupCleanupErrorV1
}.
#[global] Instance NativeStartupCleanupV1_eq_dec : EqDecision NativeStartupCleanupV1.
Proof. solve_decision. Defined.

(** The wire form has the same fields. *)
Record NativeStartupDiagnosticV1 : Type := {
  ns_schema_version : N;
  ns_requested_helper : NativeArgument;
  ns_canonical_helper : option NativeArgument;
  ns_helper_identity : option NativeHelperIdentityV1;
  ns_cwd : option NativeArgument;
  ns_phase : NativeStartupPhaseV1;
  ns_operation : NativeStartupOperationV1;
  ns_native_errno : option Z;
  ns_guardian_pid : option N;
  ns_guardian_ready : bool;
  ns_launcher_pid : option N;
  ns_release_sent : bool;
  ns_exec_confirmed : bool;
  ns_cleanup : NativeStartupCleanupV1
}.
#[global] Instance NativeStartupDiagnosticV1_eq_dec : EqDecision NativeStartupDiagnosticV1.
Proof. solve_decision. Defined.

Section Startup.
Context `{Base64}.

Definition startup_is_consistent (self : NativeStartupDiagnosticV1) : bool :=
  (ns_schema_version self =? 1)
  && native_startup_path_is_consistent (ns_requested_helper self)
  && is_none_or native_startup_path_is_consistent (ns_canonical_helper self)
  && is_none_or native_startup_path_is_consistent (ns_cwd self)
  && (is_none (ns_helper_identity self) || is_some (ns_canonical_helper self))
  && is_none_or (λ code, (0 <? code)%Z) (ns_native_errno self)
  && is_none_or (λ pid, negb (pid =? 0)) (ns_guardian_pid self)
  && is_none_or (λ pid, negb (pid =? 0)) (ns_launcher_pid self)
  && (negb (ns_guardian_ready self) || is_some (ns_guardian_pid self))
  && (is_none (ns_launcher_pid self) || ns_guardian_ready self)
  && (negb (ns_release_sent self) || (ns_guardian_ready self && is_some (ns_launcher_pid self)))
  && (negb (ns_exec_confirmed self) || ns_release_sent self)
  && (length (sc_errors (ns_cleanup self)) <=? 16)%nat
  && forallb (λ error, is_none_or (λ code, (0 <? code)%Z) (ce_native_errno error)
                       && negb (str_is_empty (ce_detail error))
                       && (str_len (ce_detail error) <=? 1024)
                       && negb (str_contains NUL (ce_detail error))) (sc_errors (ns_cleanup self)).

Definition startup_try_from (value : NativeStartupDiagnosticV1) : result string NativeStartupDiagnosticV1 :=
  guard_err (negb (startup_is_consistent value)) "native startup diagnostic is inconsistent"%string ;;
  Ok value.

Definition startup_matches_error_observations (self : NativeStartupDiagnosticV1)
    (target_released workload_may_be_alive : bool) (os_code : option Z) : bool :=
  startup_is_consistent self
  && Bool.eqb (ns_release_sent self) target_released
  && ((sc_state (ns_cleanup self) ≠? Startup_Complete) || negb workload_may_be_alive)
  && match ns_native_errno self, os_code with
     | Some observed, Some primary => (observed =? primary)%Z
     | _, _ => true
     end.
End Startup.

(** ** Operational failures *)

(** result_v1.rs *)
Record ProviderAttemptAssociationV1 : Type := {
  pa_provider : PublicProviderBindingV1;
  pa_attempt_id : DiagnosticSha256;
  pa_request_sha256 : DiagnosticSha256
}.
#[global] Instance ProviderAttemptAssociationV1_eq_dec : EqDecision ProviderAttemptAssociationV1.
Proof. solve_decision. Defined.
Definition RESULT_MAX_BYTES : N := 16 * 1024 * 1024.

Record OperationalAttemptFailure : Type := {
  of_format : string;
  of_revision : N;
  of_private_rejection : option PrivateRuntimeRejection;
  of_provider_failure : option ProviderFailureDiagnosticV1;
  of_provider_association : option ProviderAttemptAssociationV1;
  of_windows_rejection : option WindowsProviderRejectionV2;
  of_windows_terminal_delivery : option WindowsTerminalDeliveryEvidenceV1
}.

(** The packages the core crate calls: SHA-256, base64, and serde_json's writers
    and number reader. *)
Class Externals : Type := {
  sha256_hash : list u8 → list u8;
  plan_digest_of_json : string → option string;
  externals_base64 :: Base64;
  observation_writer :: Serialize WindowsProcessObservationV2;
  failure_writer :: Serialize OperationalAttemptFailure
}.

Section Failures.
Context `{Externals}.

Definition failure_differs (failure : ProviderFailureDiagnosticV1) (association : ProviderAttemptAssociationV1)
    : bool :=
  (provider_binding failure ≠? pa_provider association)
  || (attempt_id failure ≠? pa_attempt_id association)
  || (request_sha256 failure ≠? pa_request_sha256 association).
Definition receipt_differs (receipt : WindowsTerminalReceiptV2) (association : ProviderAttemptAssociationV1)
    : bool :=
  (r2_attempt_id receipt ≠? sha256_into_string (pa_attempt_id association))
  || (r2_request_sha256 receipt ≠? sha256_into_string (pa_request_sha256 association))
  || (rp_provider_generation (r2_retirement_proof receipt) ≠? text (generation (pa_provider association))).
Definition delivery_differs (delivery : WindowsTerminalDeliveryEvidenceV1)
    (association : ProviderAttemptAssociationV1) : bool :=
  (td_attempt_id delivery ≠? sha256_into_string (pa_attempt_id association))
  || (td_request_sha256 delivery ≠? sha256_into_string (pa_request_sha256 association)).
Definition delivery_receipt_differs (delivery : WindowsTerminalDeliveryEvidenceV1)
    (receipt : WindowsTerminalReceiptV2) : bool :=
  (td_attempt_id delivery ≠? r2_attempt_id receipt)
  || (td_request_sha256 delivery ≠? r2_request_sha256 receipt)
  || (td_nonce delivery ≠? r2_nonce receipt).

(** [if let (Some(a), Some(b)) = (..) { if differs { return Err(..) } }] *)
Definition both {A B} (differs : A → B → bool) (a : option A) (b : option B) (message : string)
    : result string () :=
  match a, b with Some a, Some b => guard_err (differs a b) message | _, _ => Ok () end.

Definition operational_failure_validate (self : OperationalAttemptFailure) : result string () :=
  guard_err ((of_format self ≠? "memcordon.operational-attempt-failure"%string)
             || negb (of_revision self =? 1)) "operational failure namespace differs"%string ;;
  guard_err (is_none (of_private_rejection self) && is_none (of_provider_failure self)
             && is_none (of_provider_association self) && is_none (of_windows_rejection self)
             && is_none (of_windows_terminal_delivery self))
    "operational failure has no actual observations"%string ;;
  match of_private_rejection self with
  | Some rejection =>
      private_rejection_validate rejection ;;
      guard_err (is_some (of_provider_failure self) || is_some (of_provider_association self)
                 || is_some (of_windows_rejection self) || is_some (of_windows_terminal_delivery self))
        "private rejection contains foreign Windows observations"%string
  | None => Ok ()
  end ;;
  guard_err (is_some_and (λ rejection,
               negb (rejection_v2_is_consistent sha256_hash plan_digest_of_json rejection))
               (of_windows_rejection self)
             || is_some_and (λ delivery, negb (delivery_is_consistent delivery))
                  (of_windows_terminal_delivery self)
             || is_some_and (λ failure, negb (projection_bound sha256_hash failure))
                  (of_provider_failure self)
             || is_some_and (λ association, negb (binding_is_consistent (pa_provider association)))
                  (of_provider_association self))
    "operational failure observations are inconsistent"%string ;;
  both failure_differs (of_provider_failure self) (of_provider_association self)
    "failure diagnostic differs from independently retained association" ;;
  match of_windows_rejection self with
  | Some rejection =>
      guard_err (v2_provider_failure rejection ≠? of_provider_failure self)
        "Windows rejection diagnostic differs from retained failure"%string ;;
      both receipt_differs (terminal_receipt rejection) (of_provider_association self)
        "Windows receipt differs from independently retained association"
  | None => Ok ()
  end ;;
  both delivery_differs (of_windows_terminal_delivery self) (of_provider_association self)
    "Windows delivery differs from independently retained association" ;;
  both delivery_receipt_differs (of_windows_terminal_delivery self)
    (of_windows_rejection self ≫= terminal_receipt) "Windows delivery differs from retained receipt" ;;
  bounded_json_bytes self RESULT_MAX_BYTES ;;
  Ok ().

(** ** The interface to the supervision records *)

(** [native_startup.matches_error_observations], [admission.request] and the
    receipt's fields, as the record checks read them. *)
#[global] Instance evidence_types : EvidenceTypes := {|
  sha256_digest := sha256_hash;
  json_plan_digest := plan_digest_of_json;
  ErrorRecord.NativeStartupDiagnosticV1 := NativeStartupDiagnosticV1;
  startup_eq_dec := NativeStartupDiagnosticV1_eq_dec;
  matches_error_observations := startup_matches_error_observations;
  ErrorRecord.WorkloadAdmissionRejectionV1 := WorkloadEvidence.WorkloadAdmissionRejectionV1;
  admission_eq_dec := WorkloadEvidence.WorkloadAdmissionRejectionV1_eq_dec;
  admission_request_plan := λ admission, rb_workload_plan_digest (wa_request admission);
  admission_approved_plan := λ admission,
    approved_plan_digest (rb_authorization (wa_request admission));
  ErrorRecord.WindowsTerminalReceiptV1 := WindowsReceipts.WindowsTerminalReceiptV1;
  receipt_eq_dec := WindowsReceipts.WindowsTerminalReceiptV1_eq_dec;
  receipt_schema_version := r1_schema_version;
  receipt_boundary_detail := r1_boundary_detail;
  receipt_restart_safety := r1_restart_safety;
  receipt_inventory_bounded := inventory_shape_is_bounded;
  ErrorRecord.OperationalAttemptFailure := OperationalAttemptFailure;
  operational_validate := operational_failure_validate;
  ErrorRecord.RuntimePolicyEnforcement := WorkloadEvidence.RuntimePolicyEnforcement;
  policy_enforcement_is_consistent := enforcement_is_consistent sha256_hash
|}.

(** ** The error a backend returns *)

Record BoundarySetupFailure : Type := {
  bf_requested : BoundaryRequirement;
  bf_mechanism : option string;
  bf_phase : BoundarySetupPhase;
  bf_target_created : bool;
  bf_target_released : bool;
  bf_cleanup_attempted : bool;
  bf_restart_safety : RestartSafetyProof
}.

Record Error : Type := {
  e_private_rejection : option PrivateRuntimeRejection;
  e_provider_association : option ProviderAttemptAssociationV1;
  e_runtime : option RuntimeEvidenceV1;
  e_native_startup : option NativeStartupDiagnosticV1;
  e_policy_enforcement : option WorkloadEvidence.RuntimePolicyEnforcement;
  e_category : ErrorCategory;
  e_code : string;
  e_message : string;
  e_backend : option string;
  e_os_code : option Z;
  e_target_pid : option N;
  e_launch_phase : option string;
  e_target_released : bool;
  e_authorization_offset : option Duration;
  e_cgroup_verified_before_release : bool;
  e_guardian_ready_before_release : bool;
  e_workload_may_be_alive : bool;
  e_cleanup : CleanupSummary;
  e_restart_safety : option RestartSafetyProof;
  e_initial_spawn_failure : option InitialSpawnFailure;
  e_boundary_setup_failure : option BoundarySetupFailure;
  e_provider_rejection : option ProviderRejectionEvidence;
  e_windows_provider_rejection_v2 : option WindowsProviderRejectionV2;
  e_windows_terminal_delivery : option WindowsTerminalDeliveryEvidenceV1;
  e_provider_failure : option ProviderFailureDiagnosticV1
}.

Definition Error_new (category : ErrorCategory) (code message : string) : Error :=
  {| e_private_rejection := None; e_provider_association := None; e_runtime := None;
     e_native_startup := None; e_policy_enforcement := None; e_category := category; e_code := code;
     e_message := message; e_backend := None; e_os_code := None; e_target_pid := None;
     e_launch_phase := None; e_target_released := false; e_authorization_offset := None;
     e_cgroup_verified_before_release := false; e_guardian_ready_before_release := false;
     e_workload_may_be_alive := false; e_cleanup := CleanupSummary_default; e_restart_safety := None;
     e_initial_spawn_failure := None; e_boundary_setup_failure := None; e_provider_rejection := None;
     e_windows_provider_rejection_v2 := None; e_windows_terminal_delivery := None;
     e_provider_failure := None |}.

(** The fields the building methods assign; the others are kept. *)
Definition error_with (self : Error) (policy_enforcement : option WorkloadEvidence.RuntimePolicyEnforcement)
    (os_code : option Z) (target_released : bool) (authorization_offset : option Duration)
    (restart_safety : option RestartSafetyProof) (initial_spawn_failure : option InitialSpawnFailure)
    (boundary_setup_failure : option BoundarySetupFailure)
    (provider_rejection : option ProviderRejectionEvidence)
    (windows_provider_rejection_v2 : option WindowsProviderRejectionV2)
    (provider_failure : option ProviderFailureDiagnosticV1) : Error :=
  {| e_private_rejection := e_private_rejection self; e_provider_association := e_provider_association self;
     e_runtime := e_runtime self; e_native_startup := e_native_startup self;
     e_policy_enforcement := policy_enforcement; e_category := e_category self; e_code := e_code self;
     e_message := e_message self; e_backend := e_backend self; e_os_code := os_code;
     e_target_pid := e_target_pid self; e_launch_phase := e_launch_phase self;
     e_target_released := target_released; e_authorization_offset := authorization_offset;
     e_cgroup_verified_before_release := e_cgroup_verified_before_release self;
     e_guardian_ready_before_release := e_guardian_ready_before_release self;
     e_workload_may_be_alive := e_workload_may_be_alive self; e_cleanup := e_cleanup self;
     e_restart_safety := restart_safety; e_initial_spawn_failure := initial_spawn_failure;
     e_boundary_setup_failure := boundary_setup_failure; e_provider_rejection := provider_rejection;
     e_windows_provider_rejection_v2 := windows_provider_rejection_v2;
     e_windows_terminal_delivery := e_windows_terminal_delivery self;
     e_provider_failure := provider_failure |}.

Definition with_os_error (raw_os_error : option Z) (self : Error) : Error :=
  error_with self (e_policy_enforcement self) raw_os_error (e_target_released self)
    (e_authorization_offset self) (e_restart_safety self) (e_initial_spawn_failure self)
    (e_boundary_setup_failure self) (e_provider_rejection self) (e_windows_provider_rejection_v2 self)
    (e_provider_failure self).
Definition with_provider_failure (failure : ProviderFailureDiagnosticV1) (self : Error) : Error :=
  error_with self (e_policy_enforcement self) (e_os_code self) (e_target_released self)
    (e_authorization_offset self) (e_restart_safety self) (e_initial_spawn_failure self)
    (e_boundary_setup_failure self) (e_provider_rejection self) (e_windows_provider_rejection_v2 self)
    (Some failure).
Definition with_restart_safety (restart_safety : RestartSafetyProof) (self : Error) : Error :=
  error_with self (e_policy_enforcement self) (e_os_code self) (e_target_released self)
    (e_authorization_offset self) (Some restart_safety) (e_initial_spawn_failure self)
    (e_boundary_setup_failure self) (e_provider_rejection self) (e_windows_provider_rejection_v2 self)
    (e_provider_failure self).
Definition with_initial_spawn_failure (failure : InitialSpawnFailure) (self : Error) : Error :=
  error_with self (e_policy_enforcement self) (e_os_code self) (e_target_released self)
    (e_authorization_offset self) (e_restart_safety self) (Some failure)
    (e_boundary_setup_failure self) (e_provider_rejection self) (e_windows_provider_rejection_v2 self)
    (e_provider_failure self).
Definition with_authorization_offset (authorization_offset : Duration) (self : Error) : Error :=
  error_with self (e_policy_enforcement self) (e_os_code self) true
    (Some authorization_offset) (e_restart_safety self) (e_initial_spawn_failure self)
    (e_boundary_setup_failure self) (e_provider_rejection self) (e_windows_provider_rejection_v2 self)
    (e_provider_failure self).
Definition with_boundary_setup_failure (failure : BoundarySetupFailure) (self : Error) : Error :=
  error_with self (e_policy_enforcement self) (e_os_code self) (e_target_released self)
    (e_authorization_offset self) (e_restart_safety self) (e_initial_spawn_failure self)
    (Some failure) (e_provider_rejection self) (e_windows_provider_rejection_v2 self)
    (e_provider_failure self).

(** The enforcement a consistent rejection with an admission implies. *)
Definition admission_enforcement (admission : option WorkloadEvidence.WorkloadAdmissionRejectionV1)
    (consistent : bool) (otherwise : option WorkloadEvidence.RuntimePolicyEnforcement)
    : option WorkloadEvidence.RuntimePolicyEnforcement :=
  match admission with
  | Some admission =>
      if consistent then Some (Enforcement_NotAuthorized (wa_request admission) (wa_rejection admission))
      else otherwise
  | None => otherwise
  end.

Definition with_provider_rejection (rejection : ProviderRejectionEvidence) (self : Error) : Error :=
  error_with self
    (admission_enforcement (rj_workload_admission rejection) (rejection_is_consistent rejection)
       (e_policy_enforcement self))
    (rj_os_code rejection) (rj_target_released rejection) (e_authorization_offset self)
    (Some (rj_restart_safety rejection)) (e_initial_spawn_failure self) (e_boundary_setup_failure self)
    (Some rejection) (e_windows_provider_rejection_v2 self) (e_provider_failure self).

Definition with_windows_provider_rejection_v2 (rejection : WindowsProviderRejectionV2) (self : Error) : Error :=
  error_with self
    (admission_enforcement (v2_workload_admission rejection)
       (rejection_v2_is_consistent sha256_hash plan_digest_of_json rejection) (e_policy_enforcement self))
    (v2_os_code rejection) (v2_target_released rejection) (e_authorization_offset self)
    (Some (v2_restart_safety rejection)) (e_initial_spawn_failure self) (e_boundary_setup_failure self)
    (e_provider_rejection self) (Some rejection) (e_provider_failure self).

Definition from_error (error : Error) : option OperationalAttemptFailure :=
  if is_none (e_private_rejection error) && is_none (e_provider_failure error)
     && is_none (e_provider_association error) && is_none (e_windows_provider_rejection_v2 error)
     && is_none (e_windows_terminal_delivery error)
  then None
  else Some {| of_format := "memcordon.operational-attempt-failure"; of_revision := 1;
               of_private_rejection := e_private_rejection error;
               of_provider_failure := e_provider_failure error;
               of_provider_association := e_provider_association error;
               of_windows_rejection := e_windows_provider_rejection_v2 error;
               of_windows_terminal_delivery := e_windows_terminal_delivery error |}.
End Failures.

(** ** One failure, one attempt *)

Section OneAttempt.
Context `{Externals}.

(** The attempt and request each observation of a failure names. *)
Definition names {A} (f : A → string * string) (o : option A) : list (string * string) :=
  match o with Some a => [f a] | None => [] end.
Definition attempt_names (f : OperationalAttemptFailure) : list (string * string) :=
  names (λ d, (sha256_into_string (attempt_id d), sha256_into_string (request_sha256 d))) (of_provider_failure f)
  ++ names (λ r, (r2_attempt_id r, r2_request_sha256 r)) (of_windows_rejection f ≫= terminal_receipt)
  ++ names (λ r, (rp_attempt_id (r2_retirement_proof r), rp_request_sha256 (r2_retirement_proof r)))
       (of_windows_rejection f ≫= terminal_receipt)
  ++ names (λ d, (td_attempt_id d, td_request_sha256 d)) (of_windows_terminal_delivery f)
  ++ names (λ d, (sha256_into_string (attempt_id d), sha256_into_string (request_sha256 d)))
       (of_windows_rejection f ≫= v2_provider_failure).

Lemma both_Ok {A B} (differs : A → B → bool) a b m :
  both differs a b m = Ok () ↔ ∀ x y, a = Some x → b = Some y → differs x y = false.
Proof.
  destruct a as [x|], b as [y|]; cbn; rewrite ?guard_err_Ok; try (by split).
  split; [by intros ? ? ? [= <-] [= <-]|auto].
Qed.

Lemma receipt_proof_bound r receipt :
  rejection_v2_is_consistent sha256_hash plan_digest_of_json r = true → terminal_receipt r = Some receipt →
  rp_attempt_id (r2_retirement_proof receipt) = r2_attempt_id receipt ∧
  rp_request_sha256 (r2_retirement_proof receipt) = r2_request_sha256 receipt.
Proof.
  unfold rejection_v2_is_consistent, terminal_receipt. intros H0 Hr. destruct (_ || _) in H0; [done|].
  destruct (v2_disposition r) as [|rc|]; simplify_eq. rewrite !andb_true_iff in H0.
  destruct H0 as [[[[[_ _] Hv] _] _] _]. destruct (validate_for_attempt receipt) as [[]|] eqn:Ev; [|done].
  apply validate_for_attempt_Ok in Ev as (_ & Hp & _). unfold retirement_proof_differs in Hp.
  rewrite !orb_false_iff, !negb_false_iff, !bool_decide_eq_true in Hp. naive_solver.
Qed.

Lemma both_same {A B} (differs : A → B → bool) (a : option A) b y m (P : A → Prop) :
  both differs a b m = Ok () → b = Some y → (∀ x, differs x y = false → P x) → ∀ x, a = Some x → P x.
Proof. intros Hb E HP x Ex. apply HP. eapply both_Ok in Hb; eauto. Qed.

(** The observations kept of a failed attempt are about one attempt.  A
    validated failure with a retained association names that attempt and request
    everywhere: in the provider's diagnostic, in the rejection's copy of it, in the
    terminal receipt, in the receipt's retirement proof and in the delivery
    confirmation; and a private rejection stands alone. *)
Theorem operational_failure_one_attempt f association :
  operational_failure_validate f = Ok () → of_provider_association f = Some association →
  of_private_rejection f = None ∧
  Forall (λ n, n = (sha256_into_string (pa_attempt_id association),
                    sha256_into_string (pa_request_sha256 association))) (attempt_names f).
Proof.
  unfold operational_failure_validate. intros Hv Ha.
  apply bind_Ok in Hv as ([] & _ & Hv). apply bind_Ok in Hv as ([] & _ & Hv).
  apply bind_Ok in Hv as ([] & Hpriv & Hv). apply bind_Ok in Hv as ([] & Hcons%guard_err_Ok & Hv).
  apply bind_Ok in Hv as ([] & Hfail & Hv). apply bind_Ok in Hv as ([] & Hrej & Hv).
  apply bind_Ok in Hv as ([] & Hdel & Hv). clear Hv.
  rewrite !orb_false_iff in Hcons. destruct Hcons as [[[Hrc _] _] _].
  split.
  { destruct (of_private_rejection f); [|done]. apply bind_Ok in Hpriv as (? & _ & Hg%guard_err_Ok).
    rewrite Ha in Hg. cbn in Hg. by rewrite orb_true_r in Hg. }
  assert (∀ d, of_provider_failure f = Some d → attempt_id d = pa_attempt_id association ∧
            request_sha256 d = pa_request_sha256 association) as Hf.
  { eapply both_same; [exact Hfail|exact Ha|]. intros d Hd. unfold failure_differs in Hd.
    rewrite !orb_false_iff, !negb_false_iff, !bool_decide_eq_true in Hd. naive_solver. }
  assert (∀ r, of_windows_rejection f ≫= terminal_receipt = Some r →
            r2_attempt_id r = sha256_into_string (pa_attempt_id association) ∧
            r2_request_sha256 r = sha256_into_string (pa_request_sha256 association) ∧
            rp_attempt_id (r2_retirement_proof r) = r2_attempt_id r ∧
            rp_request_sha256 (r2_retirement_proof r) = r2_request_sha256 r) as Hr.
  { intros r Hr. destruct (of_windows_rejection f) as [rej|]; [|done]. cbn in Hr, Hrc. apply negb_false_iff in Hrc.
    apply bind_Ok in Hrej as ([] & _ & Hrej). eapply both_Ok in Hrej; [|exact Hr|exact Ha].
    unfold receipt_differs in Hrej. rewrite !orb_false_iff, !negb_false_iff, !bool_decide_eq_true in Hrej.
    destruct (receipt_proof_bound rej r Hrc Hr). naive_solver. }
  assert (∀ d, of_windows_terminal_delivery f = Some d →
            td_attempt_id d = sha256_into_string (pa_attempt_id association) ∧
            td_request_sha256 d = sha256_into_string (pa_request_sha256 association)) as Hd.
  { eapply both_same; [exact Hdel|exact Ha|]. intros d Hd. unfold delivery_differs in Hd.
    rewrite !orb_false_iff, !negb_false_iff, !bool_decide_eq_true in Hd. naive_solver. }
  assert (∀ d, of_windows_rejection f ≫= v2_provider_failure = Some d → of_provider_failure f = Some d) as Hc.
  { destruct (of_windows_rejection f) as [rej|]; [|done]. cbn. intros d E.
    apply bind_Ok in Hrej as ([] & Hg%guard_err_Ok & _). apply negb_false_iff, bool_decide_eq_true in Hg. congruence. }
  assert (∀ {A} (g : A → string * string) o n, (∀ x, o = Some x → g x = n) → Forall (λ m, m = n) (names g o)) as Hn.
  { intros A g [x|] n Hx; repeat constructor. auto. }
  unfold attempt_names. rewrite !Forall_app. split_and!; apply Hn; intros x Hx.
  - by destruct (Hf x Hx) as [-> ->].
  - by destruct (Hr x Hx) as (-> & -> & _).
  - by destruct (Hr x Hx) as (<- & <- & -> & ->).
  - by destruct (Hd x Hx) as [-> ->].
  - by destruct (Hf x (Hc x Hx)) as [-> ->].
Qed.
End OneAttempt.

(** ** Examples *)

Module ErrorExamples.
#[export] Instance externals : Externals := {|
  sha256_hash := λ _, replicate 32 NUL;
  plan_digest_of_json := λ _, None;
  externals_base64 := NativeTextExamples.hexadecimal;
  observation_writer := {| to_chunks := λ _, Ok [bytes "{}"] |};
  failure_writer := {| to_chunks := λ _, Ok [bytes "{}"] |}
|}.
Definition zeros : DiagnosticSha256 := sha256 (replicate 32 NUL).
Definition association : ProviderAttemptAssociationV1 :=
  {| pa_provider := sample_binding; pa_attempt_id := zeros; pa_request_sha256 := zeros |}.
Definition delivery : WindowsTerminalDeliveryEvidenceV1 :=
  {| td_schema_version := 1; td_attempt_id := sha256_into_string zeros; td_nonce := "n";
     td_request_sha256 := sha256_into_string zeros; td_authority_sha256 := sha256_into_string zeros;
     td_retired_sha256 := sha256_into_string zeros; td_retired_confirmed := true |}.
Definition failure : OperationalAttemptFailure :=
  {| of_format := "memcordon.operational-attempt-failure"; of_revision := 1; of_private_rejection := None;
     of_provider_failure := None; of_provider_association := Some association; of_windows_rejection := None;
     of_windows_terminal_delivery := Some delivery |}.

Lemma operational_failure_witness :
  attempt_names failure = [(sha256_into_string zeros, sha256_into_string zeros)] ∧
  of_private_rejection failure = None.
Proof.
  split; [vm_compute; reflexivity|].
  apply (operational_failure_one_attempt failure association); vm_compute; reflexivity.
Defined.
End ErrorExamples.
