(* ===== verification/Supervision.v ===== *)
(** * Supervision records

    The attempt history, the aggregate counters and the final execution record
    of memcordon-core/src/supervision.rs.  [AttemptHistory::append] keeps the
    first attempt and the latest 255; the refinement theorem says that this is
    the view of a complete log of attempts, and that [SupervisionExecution::new]
    accepts what a run builds with it. *)

From S2P Require Import Prelude.
From S2P Require Import Decimal.
From S2P Require Import Bounded.
From S2P Require Import Codec.
From S2P Require Import Diagnostics.
From S2P Require Import WorkloadContract.
From S2P Require Import WorkloadCodec.
From S2P Require Import Policy.
From S2P Require Import Outcome.
From S2P Require Import Safety.
From S2P Require Import Float64.
From S2P Require Import Restart.
From S2P Require Import Coordinator.
From S2P Require Import RuntimeEvidence.
From S2P Require Import PrivateRuntime.
From S2P Require Import Boundary.
From S2P Require Import ErrorRecord.

Definition DETAILED_ATTEMPT_CAPACITY : nat := 256.

Inductive AttemptKind : Type := Kind_Initial | Kind_Restart | Kind_HalfOpen.
#[global] Instance AttemptKind_eq_dec : EqDecision AttemptKind.
Proof. solve_decision. Defined.

Inductive AttemptPhase : Type :=
| Phase_Setup | Phase_Authorized | Phase_Running | Phase_Cleanup | Phase_Completed | Phase_Failed.
#[global] Instance AttemptPhase_eq_dec : EqDecision AttemptPhase.
Proof. solve_decision. Defined.

(** The candidate text of a rejection, for people, is left out. *)
Inductive SupervisionModelError : Type :=
| CounterRange | AttemptNumber | InconsistentExecution | RejectedExecution (invariant : string).

Section supervision.
  Context `{EvidenceTypes}.

Record AttemptRecord : Type := {
  ar_operational_failure : option OperationalAttemptFailure;
  ar_private_execution : option PrivateRuntimeExecution;
  ar_runtime : option RuntimeEvidenceV1;
  ar_policy_enforcement : RuntimePolicyEnforcement;
  ar_number : N;
  ar_kind : AttemptKind;
  ar_phase : AttemptPhase;
  ar_target_pid : option N;
  ar_started_offset_ms : option N;
  ar_authorized_offset_ms : option N;
  ar_terminal_offset_ms : option N;
  ar_finished_offset_ms : N;
  ar_outcome : option RunOutcome;
  ar_error : option SupervisionErrorRecord;
  ar_restart_decision : RestartDecisionRecord;
  ar_launch : LaunchEvidence;
  ar_restart_safety : RestartSafetyProof;
  ar_boundary_detail : BoundaryMechanismEvidence
}.

(** [record.number = number] *)
Definition with_number (number : N) (r : AttemptRecord) : AttemptRecord :=
  {| ar_operational_failure := ar_operational_failure r; ar_private_execution := ar_private_execution r;
     ar_runtime := ar_runtime r; ar_policy_enforcement := ar_policy_enforcement r;
     ar_number := number; ar_kind := ar_kind r; ar_phase := ar_phase r;
     ar_target_pid := ar_target_pid r; ar_started_offset_ms := ar_started_offset_ms r;
     ar_authorized_offset_ms := ar_authorized_offset_ms r;
     ar_terminal_offset_ms := ar_terminal_offset_ms r; ar_finished_offset_ms := ar_finished_offset_ms r;
     ar_outcome := ar_outcome r; ar_error := ar_error r; ar_restart_decision := ar_restart_decision r;
     ar_launch := ar_launch r; ar_restart_safety := ar_restart_safety r;
     ar_boundary_detail := ar_boundary_detail r |}.

(** [outcome_status(outcome) != 0] wherever there is an outcome. *)
Definition outcome_nonzero (self : AttemptRecord) : bool :=
  is_none_or (λ outcome, negb (outcome_status outcome =? 0)%Z) (ar_outcome self).

Definition runtime_agrees (self : AttemptRecord) (runtime : RuntimeEvidenceV1) : bool :=
  runtime_is_consistent runtime
  && (retirement_is_complete (re_retirement runtime) || outcome_nonzero self)
  && (re_target_pid runtime ≟ ar_target_pid self)
  && match re_release runtime with
     | ReleaseIssued _ exec_confirmed =>
         ln_target_released (ar_launch self)
         && is_some (ar_authorized_offset_ms self)
         && ln_containment_verified_before_authorization (ar_launch self)
         && ln_guardian_started_before_authorization (ar_launch self)
         && (exec_confirmed || outcome_nonzero self)
     | ReleaseNotIssued =>
         negb (ln_target_released (ar_launch self))
         && is_none (ar_authorized_offset_ms self)
         && outcome_nonzero self
     | ReleaseUnknown =>
         negb (ln_target_released (ar_launch self))
         && is_none (ar_authorized_offset_ms self)
         && negb (is_safe (ar_restart_safety self))
     end.

Definition attempt_is_consistent (self : AttemptRecord) : bool :=
  is_none_or (λ failure, is_ok (operational_validate failure) && is_some (ar_error self))
    (ar_operational_failure self)
  && policy_enforcement_is_consistent (ar_policy_enforcement self)
  && is_none_or (λ pid, 0 <? pid) (ar_target_pid self)
  && is_none_or (runtime_agrees self) (ar_runtime self)
  && (0 <? ar_number self)
  && negb (Bool.eqb (is_some (ar_outcome self)) (is_some (ar_error self)))
  && is_none_or (λ error, er_attempt_number error ≟ Some (ar_number self)) (ar_error self)
  && ((is_some (ar_outcome self) && (ar_phase self ≟ Phase_Completed))
      || (is_some (ar_error self) && (ar_phase self ≟ Phase_Failed)))
  && is_none_or (λ start, start <=? ar_finished_offset_ms self) (ar_started_offset_ms self)
  && is_none_or (λ authorized,
       is_some_and (λ start, start <=? authorized) (ar_started_offset_ms self)
       && (authorized <=? ar_finished_offset_ms self)) (ar_authorized_offset_ms self)
  && is_none_or (λ terminal,
       is_some_and (λ start, start <=? terminal) (ar_started_offset_ms self)
       && (terminal <=? ar_finished_offset_ms self)) (ar_terminal_offset_ms self)
  && match ar_authorized_offset_ms self, ar_terminal_offset_ms self with
     | Some authorized, Some terminal => authorized <=? terminal
     | _, _ => true
     end
  && boundary_evidence_is_consistent sha256_digest json_plan_digest
       (ar_launch self) (ar_restart_safety self) (ar_boundary_detail self).

(** The wire form has the fields of the record. *)
Definition AttemptRecord_deserialize (wire : AttemptRecord) : result string AttemptRecord :=
  if negb (attempt_is_consistent wire) then Err "invalid attempt record"%string else Ok wire.

(** ** Aggregates *)

Record SupervisionAggregates : Type := {
  ag_confirmed_authorizations : N;
  ag_unknown_authorization_attempts : N;
  ag_retry_attempts_started : N;
  ag_confirmed_retry_authorizations : N;
  ag_child_exits : N;
  ag_memory_limits : N;
  ag_deadlines : N;
  ag_interruptions : N;
  ag_monitor_failures : N;
  ag_setup_failures : N;
  ag_max_peak : option ByteSize
}.
Definition Aggregates_default : SupervisionAggregates :=
  {| ag_confirmed_authorizations := 0; ag_unknown_authorization_attempts := 0;
     ag_retry_attempts_started := 0; ag_confirmed_retry_authorizations := 0; ag_child_exits := 0;
     ag_memory_limits := 0; ag_deadlines := 0; ag_interruptions := 0; ag_monitor_failures := 0;
     ag_setup_failures := 0; ag_max_peak := None |}.

Definition unknown_release (record : AttemptRecord) : bool :=
  is_some_and (λ runtime, match re_release runtime with ReleaseUnknown => true | _ => false end)
    (ar_runtime record).
Definition is_retry (record : AttemptRecord) : bool := ar_kind record ≠? Kind_Initial.

(** The observers return the updated counters; a caller of one that fails
    discards the copy it worked on.  [counter.checked_add(u64::from(increment)).ok_or(CounterRange)?] *)
Definition bump (counter : N) (increment : bool) : result SupervisionModelError N :=
  ok_or CounterRange (checked_add 64 counter (if increment then 1 else 0)).

Definition observe_authorization (record : AttemptRecord) (self : SupervisionAggregates)
    : result SupervisionModelError SupervisionAggregates :=
  confirmed ← bump (ag_confirmed_authorizations self) (ln_target_released (ar_launch record));
  unknown ← bump (ag_unknown_authorization_attempts self) (unknown_release record);
  retry ← bump (ag_retry_attempts_started self) (is_retry record);
  confirmed_retry ← bump (ag_confirmed_retry_authorizations self)
                      (is_retry record && ln_target_released (ar_launch record));
  mret {| ag_confirmed_authorizations := confirmed; ag_unknown_authorization_attempts := unknown;
          ag_retry_attempts_started := retry; ag_confirmed_retry_authorizations := confirmed_retry;
          ag_child_exits := ag_child_exits self; ag_memory_limits := ag_memory_limits self;
          ag_deadlines := ag_deadlines self; ag_interruptions := ag_interruptions self;
          ag_monitor_failures := ag_monitor_failures self; ag_setup_failures := ag_setup_failures self;
          ag_max_peak := ag_max_peak self |}.

(** The outcome counters and the peak, with the authorization counters kept. *)
Definition set_outcomes (self : SupervisionAggregates) (exits limits deadlines interruptions monitor setup : N)
    (peak : option ByteSize) : SupervisionAggregates :=
  {| ag_confirmed_authorizations := ag_confirmed_authorizations self;
     ag_unknown_authorization_attempts := ag_unknown_authorization_attempts self;
     ag_retry_attempts_started := ag_retry_attempts_started self;
     ag_confirmed_retry_authorizations := ag_confirmed_retry_authorizations self;
     ag_child_exits := exits; ag_memory_limits := limits; ag_deadlines := deadlines;
     ag_interruptions := interruptions; ag_monitor_failures := monitor; ag_setup_failures := setup;
     ag_max_peak := peak |}.

(** [Ord] of [Option<ByteSize>]: [None] is least. *)
Definition peak_gt (a b : option ByteSize) : bool :=
  match a, b with
  | Some a, Some b => size_bytes b <? size_bytes a
  | Some _, None => true
  | None, _ => false
  end.
Definition outcome_peak (o : RunOutcome) : option ByteSize :=
  match o with
  | Exited _ peak _ | LimitExceeded _ _ peak _ _ _ | DeadlineExceeded _ _ peak _ => peak
  | Interrupted _ _ _ | MonitorFailed _ _ _ => None
  end.

Definition observe_outcome (outcome : RunOutcome) (a : SupervisionAggregates)
    : result SupervisionModelError SupervisionAggregates :=
  let peak := if peak_gt (outcome_peak outcome) (ag_max_peak a) then outcome_peak outcome
              else ag_max_peak a in
  match outcome with
  | Exited _ _ _ =>
      n ← bump (ag_child_exits a) true;
      mret (set_outcomes a n (ag_memory_limits a) (ag_deadlines a) (ag_interruptions a)
              (ag_monitor_failures a) (ag_setup_failures a) peak)
  | LimitExceeded _ _ _ _ _ _ =>
      n ← bump (ag_memory_limits a) true;
      mret (set_outcomes a (ag_child_exits a) n (ag_deadlines a) (ag_interruptions a)
              (ag_monitor_failures a) (ag_setup_failures a) peak)
  | DeadlineExceeded _ _ _ _ =>
      n ← bump (ag_deadlines a) true;
      mret (set_outcomes a (ag_child_exits a) (ag_memory_limits a) n (ag_interruptions a)
              (ag_monitor_failures a) (ag_setup_failures a) peak)
  | Interrupted _ _ _ =>
      n ← bump (ag_interruptions a) true;
      mret (set_outcomes a (ag_child_exits a) (ag_memory_limits a) (ag_deadlines a) n
              (ag_monitor_failures a) (ag_setup_failures a) peak)
  | MonitorFailed _ _ _ =>
      n ← bump (ag_monitor_failures a) true;
      mret (set_outcomes a (ag_child_exits a) (ag_memory_limits a) (ag_deadlines a) (ag_interruptions a)
              n (ag_setup_failures a) peak)
  end.

Definition observe_setup_failure (a : SupervisionAggregates)
    : result SupervisionModelError SupervisionAggregates :=
  n ← bump (ag_setup_failures a) true;
  mret (set_outcomes a (ag_child_exits a) (ag_memory_limits a) (ag_deadlines a) (ag_interruptions a)
          (ag_monitor_failures a) n (ag_max_peak a)).

Definition observe_error (error : SupervisionErrorRecord) (a : SupervisionAggregates)
    : result SupervisionModelError SupervisionAggregates :=
  if er_supervision_phase error ≟ ActiveAttempt
  then
    n ← bump (ag_monitor_failures a) true;
    mret (set_outcomes a (ag_child_exits a) (ag_memory_limits a) (ag_deadlines a) (ag_interruptions a)
            n (ag_setup_failures a) (ag_max_peak a))
  else observe_setup_failure a.

(** [retained]: counting the visible records with the same observers. *)
Fixpoint observe_retained (records : list AttemptRecord) (retained : SupervisionAggregates)
    : option SupervisionAggregates :=
  match records with
  | [] => Some retained
  | record :: records =>
      match observe_authorization record retained with
      | Ok retained => observe_retained records retained
      | Err _ => None
      end
  end.

Definition evicted_within (omitted all visible : N) : bool :=
  is_some_and (λ evicted, evicted <=? omitted) (checked_sub all visible).

Definition authorizations_match (self : SupervisionAggregates) (records : list AttemptRecord)
    (total omitted : N) : bool :=
  match observe_retained records Aggregates_default with
  | None => false
  | Some retained =>
      is_some_and (λ count, count <=? total)
        (checked_add 64 (ag_confirmed_authorizations self) (ag_unknown_authorization_attempts self))
      && (ag_retry_attempts_started self <=? total - 1)
      && (ag_confirmed_retry_authorizations self <=? ag_confirmed_authorizations self)
      && (ag_confirmed_retry_authorizations self <=? ag_retry_attempts_started self)
      && evicted_within omitted (ag_confirmed_authorizations self) (ag_confirmed_authorizations retained)
      && evicted_within omitted (ag_unknown_authorization_attempts self)
           (ag_unknown_authorization_attempts retained)
      && evicted_within omitted (ag_retry_attempts_started self) (ag_retry_attempts_started retained)
      && evicted_within omitted (ag_confirmed_retry_authorizations self)
           (ag_confirmed_retry_authorizations retained)
  end.

(** ** The attempt history *)

Record AttemptHistory : Type := {
  ah_first : option AttemptRecord;
  ah_recent : list AttemptRecord;
  ah_total : N;
  ah_omitted : N
}.
Definition AttemptHistory_default : AttemptHistory :=
  {| ah_first := None; ah_recent := []; ah_total := 0; ah_omitted := 0 |}.

Definition retained (self : AttemptHistory) : nat :=
  ((if is_some (ah_first self) then 1 else 0) + length (ah_recent self))%nat.
Definition records (self : AttemptHistory) : list AttemptRecord :=
  match ah_first self with Some record => [record] | None => [] end ++ ah_recent self.

(** The loop over [recent.iter().enumerate()]; the additions are on [u64]. *)
Fixpoint recent_is_valid (start index : N) (recent : list AttemptRecord) : bool :=
  match recent with
  | [] => true
  | record :: recent =>
      (ar_number record =? (start + index) mod 2 ^ 64) && attempt_is_consistent record
      && recent_is_valid start (index + 1) recent
  end.

Definition history_validate (self : AttemptHistory) : bool :=
  if ah_total self =? 0
  then is_none (ah_first self) && bool_decide (length (ah_recent self) = 0%nat) && (ah_omitted self =? 0)
  else if negb ((ar_number <$> ah_first self) ≟ Some 1) then false
  else
    let retained := N.of_nat (retained self) in
    if (ah_total self <? retained) || negb (ah_omitted self =? ah_total self - retained) then false
    else
      let expected_recent_start :=
        (ah_total self - N.of_nat (length (ah_recent self)) + 1) mod 2 ^ 64 in
      recent_is_valid expected_recent_start 0 (ah_recent self)
      && is_some_and attempt_is_consistent (ah_first self).

(** [self] and [aggregates] change only when the whole call succeeds. *)
Definition append (record : AttemptRecord)
    : stM (AttemptHistory * SupervisionAggregates) SupervisionModelError N := λ '(self, aggregates),
  let attempt : result SupervisionModelError (AttemptHistory * SupervisionAggregates * N) :=
    number ← ok_or CounterRange (checked_add 64 (ah_total self) 1);
    record ← (if ar_number record =? 0 then Ok (with_number number record)
              else if negb (ar_number record =? number) then Err AttemptNumber else Ok record);
    next_aggregates ← observe_authorization record aggregates;
    next_aggregates ← match ar_outcome record, ar_error record with
                      | Some outcome, _ => observe_outcome outcome next_aggregates
                      | None, Some error => observe_error error next_aggregates
                      | None, None => Ok next_aggregates
                      end;
    next_omitted ← (if is_some (ah_first self)
                       && (length (ah_recent self) =? DETAILED_ATTEMPT_CAPACITY - 1)%nat
                    then Some <$> ok_or CounterRange (checked_add 64 (ah_omitted self) 1)
                    else Ok None);
    match ah_first self with
    | None =>
        mret ({| ah_first := Some record; ah_recent := ah_recent self; ah_total := number;
                 ah_omitted := ah_omitted self |}, next_aggregates, number)
    | Some first =>
        let '(recent, omitted) :=
          match next_omitted with
          | Some omitted => (drop 1 (ah_recent self), omitted)
          | None => (ah_recent self, ah_omitted self)
          end in
        mret ({| ah_first := Some first; ah_recent := recent ++ [record]; ah_total := number;
                 ah_omitted := omitted |}, next_aggregates, number)
    end in
  match attempt with
  | Ok (state, number) => (state, Ok number)
  | Err e => ((self, aggregates), Err e)
  end.

Definition AttemptHistory_deserialize (wire : AttemptHistory) : result string AttemptHistory :=
  if negb (history_validate wire) then Err "invalid attempt history"%string else Ok wire.

(** ** The execution record *)

Record SupervisionDeadlineEvidence : Type := {
  sd_evidence : DeadlineEvidence;
  sd_terminal_phase : SupervisionPhase
}.

Inductive SupervisionTerminal : Type :=
| AttemptOutcome (attempt_number : N) (outcome : RunOutcome)
| DeadlineOutsideAttempt (evidence : SupervisionDeadlineEvidence)
| TerminalError (attempt_number : option N) (error : SupervisionErrorRecord).

Record SupervisionExecution : Type := {
  ex_backend : BackendCapabilityReport;
  ex_terminal : SupervisionTerminal;
  ex_attempts : AttemptHistory;
  ex_aggregates : SupervisionAggregates;
  ex_restart : RestartSummary;
  ex_deadline : option SupervisionDeadlineEvidence;
  ex_duration_ms : N;
  ex_targets_authorized : N;
  ex_wrapper_exit_code : Z;
  ex_phase : SupervisionPhase
}.

Definition aggregate_total (a : SupervisionAggregates) : option N :=
  v ← checked_add 64 (ag_child_exits a) (ag_memory_limits a);
  v ← checked_add 64 v (ag_deadlines a);
  v ← checked_add 64 v (ag_interruptions a);
  v ← checked_add 64 v (ag_monitor_failures a);
  checked_add 64 v (ag_setup_failures a).

Definition terminal_attempt (terminal : SupervisionTerminal) : option N :=
  match terminal with
  | AttemptOutcome attempt_number _ => Some attempt_number
  | DeadlineOutsideAttempt _ => None
  | TerminalError attempt_number _ => attempt_number
  end.
Definition terminal_exit_code (terminal : SupervisionTerminal) : Z :=
  match terminal with
  | AttemptOutcome _ outcome => outcome_status outcome
  | DeadlineOutsideAttempt _ => 123
  | TerminalError _ error => terminal_status error
  end.
Definition outside_deadline (terminal : SupervisionTerminal) : bool :=
  match terminal with DeadlineOutsideAttempt _ => true | _ => false end.

Definition terminal_matches_latest (terminal : SupervisionTerminal) (latest : option AttemptRecord) : bool :=
  match terminal with
  | AttemptOutcome attempt_number outcome =>
      is_some_and (λ record, (ar_number record =? attempt_number) && (ar_outcome record ≟ Some outcome)) latest
  | TerminalError (Some attempt_number) error =>
      provenance_is_consistent error
      && (er_attempt_number error ≟ Some attempt_number)
      && is_some_and (λ record, (ar_number record =? attempt_number) && (ar_error record ≟ Some error)) latest
  | TerminalError None error => provenance_is_consistent error && is_none (er_attempt_number error)
  | DeadlineOutsideAttempt _ => true
  end.

(** The sealed claims of one retained attempt that the backend or the launch
    evidence does not support. *)
Definition unsupported_seal (backend : BackendCapabilityReport) (record : AttemptRecord) : bool :=
  let launch := ar_launch record in
  let sealed := ln_boundary_requested launch ≟ Sealed in
  ((ln_boundary_effective launch ≟ Class_Sealed) && (bc_class (br_boundary backend) ≠? Class_Sealed))
  || (ln_target_released launch && sealed
      && ((ln_boundary_effective launch ≠? Class_Sealed)
          || negb (ln_boundary_assignment_verified launch)
          || negb (ln_boundary_reconfiguration_denied launch)
          || negb (ln_inherited_resources_restricted launch)
          || negb (ln_frontend_loss_cleanup_authority_verified launch)))
  || (sealed && is_safe (ar_restart_safety record)
      && negb (rsp_sealed_boundary_retired (ar_restart_safety record))).

Definition reject_execution (c : bool) (invariant : string) : result SupervisionModelError () :=
  guard_err c (RejectedExecution invariant).

Definition SupervisionExecution_new (backend : BackendCapabilityReport) (terminal : SupervisionTerminal)
    (attempts : AttemptHistory) (aggregates : SupervisionAggregates) (restart : RestartSummary)
    (deadline : option SupervisionDeadlineEvidence) (duration_ms targets_authorized : N)
    : result SupervisionModelError SupervisionExecution :=
  reject_execution (negb (capability_is_consistent (br_boundary backend))) "backend boundary consistency" ;;
  total ← ok_or CounterRange (aggregate_total aggregates);
  reject_execution (negb (total =? ah_total attempts)) "aggregate outcome total matches attempt total" ;;
  reject_execution (negb (history_validate attempts)) "attempt history validation" ;;
  reject_execution (DETAILED_ATTEMPT_CAPACITY <? retained attempts)%nat "retained attempt capacity" ;;
  reject_execution (negb (ah_omitted attempts =? ah_total attempts - N.of_nat (retained attempts)))
    "omitted attempt count" ;;
  reject_execution (targets_authorized <? su_restarts_launched restart) "restarts do not exceed authorizations" ;;
  reject_execution (negb (targets_authorized =? ag_confirmed_authorizations aggregates))
    "target and aggregate authorizations agree" ;;
  reject_execution
    (negb (authorizations_match aggregates (records attempts) (ah_total attempts) (ah_omitted attempts)))
    "aggregate authorizations match retained attempts" ;;
  match terminal with
  | DeadlineOutsideAttempt evidence =>
      reject_execution (de_scope (sd_evidence evidence) ≠? Supervision) "outside deadline has supervision scope"
  | _ => Ok ()
  end ;;
  reject_execution
    (is_some_and (λ number, (number =? 0) || negb (number =? ah_total attempts)) (terminal_attempt terminal))
    "terminal attempt is latest nonzero attempt" ;;
  reject_execution (negb (terminal_matches_latest terminal (last (records attempts))))
    "terminal matches latest attempt and provenance" ;;
  reject_execution (negb (Bool.eqb (outside_deadline terminal) (is_some deadline)))
    "outside deadline presence agrees with terminal" ;;
  reject_execution (existsb (unsupported_seal backend) (records attempts))
    "sealed attempt launch and retirement proof" ;;
  reject_execution
    ((bc_class (br_boundary backend) ≠? Class_Sealed)
     && existsb (λ record, (ln_boundary_requested (ar_launch record) ≟ Sealed)
                           && ln_target_released (ar_launch record)) (records attempts))
    "released sealed request has sealed backend" ;;
  mret {| ex_backend := backend; ex_terminal := terminal; ex_attempts := attempts;
          ex_aggregates := aggregates; ex_restart := restart; ex_deadline := deadline;
          ex_duration_ms := duration_ms; ex_targets_authorized := targets_authorized;
          ex_wrapper_exit_code := terminal_exit_code terminal; ex_phase := CompletedPhase |}.

(** The wire form has the fields of the record; the history and the restart
    summary are read with their own checks first. *)
Inductive ExecutionWireError : Type :=
| WireField (message : string) | WireModel (error : SupervisionModelError) | WireDerived.

Definition SupervisionExecution_deserialize (wire : SupervisionExecution)
    : result ExecutionWireError SupervisionExecution :=
  attempts ← map_err WireField (AttemptHistory_deserialize (ex_attempts wire));
  restart ← map_err WireField (RestartSummary_deserialize (ex_restart wire));
  execution ← map_err WireModel
    (SupervisionExecution_new (ex_backend wire) (ex_terminal wire) attempts (ex_aggregates wire) restart
       (ex_deadline wire) (ex_duration_ms wire) (ex_targets_authorized wire));
  if negb (ex_wrapper_exit_code execution =? ex_wrapper_exit_code wire)%Z
     || (ex_phase execution ≠? ex_phase wire)
  then Err WireDerived else mret execution.
End supervision.

(** ** The complete log and its view *)

Definition b2n (b : bool) : N := if b then 1 else 0.
Definition count_if {A} (p : A → bool) (l : list A) : N := foldr (λ x n, b2n (p x) + n) 0 l.

Lemma count_if_cons {A} (p : A → bool) x l : count_if p (x :: l) = b2n (p x) + count_if p l.
Proof. done. Qed.
Lemma count_if_app {A} (p : A → bool) l1 l2 : count_if p (l1 ++ l2) = count_if p l1 + count_if p l2.
Proof. induction l1; simpl; [done|]. unfold count_if in *. lia. Qed.
Lemma count_if_le {A} (p : A → bool) l : count_if p l <= N.of_nat (length l).
Proof. induction l as [|x l IH]; simpl in *; [done|]. destruct (p x); simpl; lia. Qed.
Lemma count_if_mono {A} (p q : A → bool) l :
  (∀ x, p x = true → q x = true) → count_if p l <= count_if q l.
Proof.
  intros Hpq. induction l as [|x l IH]; simpl in *; [done|].
  specialize (Hpq x). destruct (p x), (q x); simpl; try lia.
Qed.
Lemma count_if_disjoint {A} (p q : A → bool) l :
  Forall (λ x, p x && q x = false) l → count_if p l + count_if q l <= N.of_nat (length l).
Proof.
  induction 1 as [|x l Hx _ IH]; simpl in *; [done|].
  destruct (p x), (q x); simpl in *; try done; lia.
Qed.

(** The last [k] elements. *)
Definition lastn {A} (k : nat) (l : list A) : list A := drop (length l - k) l.

Lemma length_lastn {A} k (l : list A) : length (lastn k l) = Nat.min k (length l).
Proof. unfold lastn. rewrite length_drop. lia. Qed.
Lemma lastn_all {A} k (l : list A) : (length l <= k)%nat → lastn k l = l.
Proof. intros Hl. unfold lastn. by replace (length l - k)%nat with 0%nat by lia. Qed.
Lemma lastn_snoc_full {A} k (l : list A) x :
  (0 < k)%nat → (k <= length l)%nat → lastn k (l ++ [x]) = drop 1 (lastn k l) ++ [x].
Proof.
  intros Hk Hl. unfold lastn. rewrite length_app, drop_drop. simpl.
  rewrite drop_app_le by lia. f_equal. f_equal. lia.
Qed.
Lemma take_lastn {A} k (l : list A) : take (length l - k) l ++ lastn k l = l.
Proof. apply take_drop. Qed.
Lemma lookup_lastn {A} k (l : list A) i : lastn k l !! i = l !! (length l - k + i)%nat.
Proof. unfold lastn. apply lookup_drop. Qed.

Inductive AttemptClass : Type :=
| ClassExit | ClassLimit | ClassDeadline | ClassInterrupt | ClassMonitor | ClassSetup.
#[global] Instance AttemptClass_eq_dec : EqDecision AttemptClass.
Proof. solve_decision. Defined.

Section log.
  Context `{EvidenceTypes}.

Definition RECENT : nat := DETAILED_ATTEMPT_CAPACITY - 1.

(** What the history shows of the log of all attempts. *)
Definition history_of (log : list AttemptRecord) : AttemptHistory :=
  {| ah_first := head log; ah_recent := lastn RECENT (tail log);
     ah_total := N.of_nat (length log); ah_omitted := N.of_nat (length (tail log) - RECENT) |}.

(** Which counter an attempt is counted under. *)
Definition attempt_class (r : AttemptRecord) : option AttemptClass :=
  match ar_outcome r, ar_error r with
  | Some (Exited _ _ _), _ => Some ClassExit
  | Some (LimitExceeded _ _ _ _ _ _), _ => Some ClassLimit
  | Some (DeadlineExceeded _ _ _ _), _ => Some ClassDeadline
  | Some (Interrupted _ _ _), _ => Some ClassInterrupt
  | Some (MonitorFailed _ _ _), _ => Some ClassMonitor
  | None, Some error =>
      Some (if er_supervision_phase error ≟ ActiveAttempt then ClassMonitor else ClassSetup)
  | None, None => None
  end.
Definition in_class (k : AttemptClass) (r : AttemptRecord) : bool := attempt_class r ≟ Some k.

Definition raise_peak (peak : option ByteSize) (r : AttemptRecord) : option ByteSize :=
  match ar_outcome r with
  | Some o => if peak_gt (outcome_peak o) peak then outcome_peak o else peak
  | None => peak
  end.

Definition released (r : AttemptRecord) : bool := ln_target_released (ar_launch r).

(** Every counter is the number of attempts of its kind in the whole log. *)
Definition aggregates_of (log : list AttemptRecord) : SupervisionAggregates :=
  {| ag_confirmed_authorizations := count_if released log;
     ag_unknown_authorization_attempts := count_if unknown_release log;
     ag_retry_attempts_started := count_if is_retry log;
     ag_confirmed_retry_authorizations := count_if (λ r, is_retry r && released r) log;
     ag_child_exits := count_if (in_class ClassExit) log;
     ag_memory_limits := count_if (in_class ClassLimit) log;
     ag_deadlines := count_if (in_class ClassDeadline) log;
     ag_interruptions := count_if (in_class ClassInterrupt) log;
     ag_monitor_failures := count_if (in_class ClassMonitor) log;
     ag_setup_failures := count_if (in_class ClassSetup) log;
     ag_max_peak := fold_left raise_peak log None |}.

Lemma bump_Ok n b : n + 1 < 2 ^ 64 → bump n b = Ok (n + b2n b).
Proof.
  intros Hn. unfold bump, checked_add, fits, b2n. replace (_ <? _) with true by (destruct b; lia). done.
Qed.

Lemma aggregates_of_snoc log r :
  aggregates_of (log ++ [r]) =
  {| ag_confirmed_authorizations := count_if released log + b2n (released r);
     ag_unknown_authorization_attempts := count_if unknown_release log + b2n (unknown_release r);
     ag_retry_attempts_started := count_if is_retry log + b2n (is_retry r);
     ag_confirmed_retry_authorizations :=
       count_if (λ r, is_retry r && released r) log + b2n (is_retry r && released r);
     ag_child_exits := count_if (in_class ClassExit) log + b2n (in_class ClassExit r);
     ag_memory_limits := count_if (in_class ClassLimit) log + b2n (in_class ClassLimit r);
     ag_deadlines := count_if (in_class ClassDeadline) log + b2n (in_class ClassDeadline r);
     ag_interruptions := count_if (in_class ClassInterrupt) log + b2n (in_class ClassInterrupt r);
     ag_monitor_failures := count_if (in_class ClassMonitor) log + b2n (in_class ClassMonitor r);
     ag_setup_failures := count_if (in_class ClassSetup) log + b2n (in_class ClassSetup r);
     ag_max_peak := raise_peak (fold_left raise_peak log None) r |}.
Proof.
  unfold aggregates_of. rewrite !count_if_app, fold_left_app. cbn [count_if foldr fold_left].
  by rewrite !N.add_0_r.
Qed.

(** One attempt's contribution to the counters. *)
Lemma observe_attempt log r :
  N.of_nat (length log) + 1 < 2 ^ 64 →
  (a ← observe_authorization r (aggregates_of log);
   match ar_outcome r, ar_error r with
   | Some outcome, _ => observe_outcome outcome a
   | None, Some error => observe_error error a
   | None, None => Ok a
   end) = Ok (aggregates_of (log ++ [r])).
Proof.
  intros Hlen. assert (∀ p : AttemptRecord → bool, count_if p log + 1 < 2 ^ 64) as Hc.
  { intros p. pose proof (count_if_le p log). lia. }
  unfold observe_authorization. cbn [aggregates_of ag_confirmed_authorizations
    ag_unknown_authorization_attempts ag_retry_attempts_started ag_confirmed_retry_authorizations].
  rewrite !bump_Ok by apply Hc. cbn [mbind result_bind mret result_ret].
  rewrite aggregates_of_snoc.
  destruct (ar_outcome r) as [[]|] eqn:Eo; [..|destruct (ar_error r) as [e|] eqn:Ee];
    unfold observe_outcome, observe_error, observe_setup_failure, in_class, attempt_class, raise_peak; rewrite ?Eo, ?Ee;
    cbn [aggregates_of ag_child_exits ag_memory_limits ag_deadlines ag_interruptions
      ag_monitor_failures ag_setup_failures ag_max_peak ag_confirmed_authorizations
      ag_unknown_authorization_attempts ag_retry_attempts_started ag_confirmed_retry_authorizations];
    try case_bool_decide; rewrite ?bump_Ok by apply Hc; cbn; rewrite ?N.add_0_r; done.
Qed.

(** ** Appending refines adding to the log *)

(** The number an appended record carries. *)
Definition numbered_for (log : list AttemptRecord) (r : AttemptRecord) : Prop :=
  ar_number r = 0 ∨ ar_number r = N.of_nat (length log) + 1.

Lemma with_number_same r : with_number (ar_number r) r = r.
Proof. by destruct r. Qed.

Lemma history_of_snoc log r :
  history_of (log ++ [r]) =
  match head log with
  | None => {| ah_first := Some r; ah_recent := []; ah_total := 1; ah_omitted := 0 |}
  | Some first =>
      let full := (length (lastn RECENT (tail log)) =? RECENT)%nat in
      {| ah_first := Some first;
         ah_recent := (if full then drop 1 (lastn RECENT (tail log)) else lastn RECENT (tail log)) ++ [r];
         ah_total := N.of_nat (length log) + 1;
         ah_omitted := N.of_nat (length (tail log) - RECENT) + b2n full |}
  end.
Proof.
  destruct log as [|first t]; [done|]. unfold history_of. cbn [head tail app length].
  rewrite length_lastn, length_app. cbn [length].
  assert (0 < RECENT)%nat as Hpos by (unfold RECENT, DETAILED_ATTEMPT_CAPACITY; lia).
  destruct (Nat.eqb_spec (Nat.min RECENT (length t)) RECENT) as [E|E].
  - rewrite lastn_snoc_full by lia. f_equal; unfold b2n; lia.
  - rewrite !lastn_all by (rewrite ?length_app; simpl; lia). f_equal; unfold b2n; lia.
Qed.

Lemma append_refines_log log r :
  N.of_nat (length log) + 1 < 2 ^ 64 → numbered_for log r →
  let number := N.of_nat (length log) + 1 in
  append r (history_of log, aggregates_of log) =
  ((history_of (log ++ [with_number number r]), aggregates_of (log ++ [with_number number r])), Ok number).
Proof.
  intros Hlen Hnum number.
  assert ((if ar_number r =? 0 then Ok (with_number number r)
           else if negb (ar_number r =? number) then Err AttemptNumber else Ok r)
          = Ok (E := SupervisionModelError) (with_number number r)) as Hr.
  { destruct Hnum as [->|E]; [done|]. change (ar_number r = number) in E. rewrite <- E, N.eqb_refl.
    destruct (_ =? 0); simpl; by rewrite with_number_same. }
  pose proof (observe_attempt log (with_number number r) Hlen) as Hobs.
  unfold append. cbn [history_of ah_total ah_first ah_recent ah_omitted].
  assert (checked_add 64 (N.of_nat (length log)) 1 = Some number) as ->
    by (apply checked_add_Some; done).
  unfold mbind, result_bind in Hobs |- *. cbn [ok_or]. rewrite Hr.
  destruct (observe_authorization _ _) as [a|]; [|discriminate].
  rewrite Hobs, history_of_snoc.
  destruct log as [|first t]; cbn [head tail is_some].
  { done. }
  cbn [length tail] in *. change (DETAILED_ATTEMPT_CAPACITY - 1)%nat with RECENT.
  destruct (length (lastn RECENT t) =? RECENT)%nat eqn:Efull; cbn [andb].
  - assert (checked_add 64 (N.of_nat (length t - RECENT)) 1 =
      Some (N.of_nat (length t - RECENT) + 1)) as -> by (apply checked_add_Some; split; [done|lia]).
    done.
  - cbn [fmap result_fmap ok_or b2n]. by rewrite N.add_0_r.
Qed.

(** A log with consecutive numbers from one, whose records all check. *)
Definition log_ok (log : list AttemptRecord) : Prop :=
  (∀ i r, log !! i = Some r → ar_number r = N.of_nat i + 1) ∧
  Forall (λ r, attempt_is_consistent r = true) log.

Lemma recent_is_valid_spec start i l :
  (∀ j r, l !! j = Some r →
     ar_number r = (start + i + N.of_nat j) mod 2 ^ 64 ∧ attempt_is_consistent r = true) →
  recent_is_valid start i l = true.
Proof.
  revert i. induction l as [|x l IH]; intros i Hl; [done|]. cbn [recent_is_valid].
  destruct (Hl 0%nat x eq_refl) as [Hn Hc]. rewrite Hc, Hn. replace (start + i + N.of_nat 0) with (start + i) by lia.
  rewrite N.eqb_refl. cbn [andb]. apply IH. intros j r Hj. specialize (Hl (S j) r Hj).
  by replace (start + (i + 1) + N.of_nat j) with (start + i + N.of_nat (S j)) by lia.
Qed.

Lemma history_of_valid log :
  log_ok log → N.of_nat (length log) < 2 ^ 64 → history_validate (history_of log) = true.
Proof.
  intros [Hn Hc] Hlen. destruct log as [|first t]; [done|].
  unfold history_validate. cbn [history_of ah_total ah_first ah_recent ah_omitted head tail length].
  replace (N.of_nat (S (length t)) =? 0) with false by lia.
  rewrite bool_decide_eq_true_2.
  2: { cbn [fmap option_fmap option_map]. by rewrite (Hn 0%nat first eq_refl). }
  unfold retained. cbn [history_of ah_first ah_recent head tail is_some negb].
  rewrite length_lastn. cbn [length] in Hlen.
  replace (_ <? _) with false by lia. rewrite (proj2 (N.eqb_eq _ _)) by lia. cbn [orb negb is_some_and].
  apply Forall_cons in Hc as [Hf Ht]. rewrite Hf, andb_true_r.
  apply recent_is_valid_spec. intros j r Hj. rewrite lookup_lastn in Hj.
  pose proof (lookup_lt_Some _ _ _ Hj) as Hjl.
  split; [|by eapply (proj1 (Forall_lookup _ _) Ht)].
  rewrite (Hn (S (length t - RECENT + j)) r Hj).
  rewrite (N.mod_small (N.of_nat (S (length t)) - _ + 1)) by lia.
  rewrite N.mod_small by lia. lia.
Qed.

(** ** The counters of the visible records *)

Definition room (n : N) (a : SupervisionAggregates) : Prop :=
  ag_confirmed_authorizations a + n < 2 ^ 64 ∧ ag_unknown_authorization_attempts a + n < 2 ^ 64 ∧
  ag_retry_attempts_started a + n < 2 ^ 64 ∧ ag_confirmed_retry_authorizations a + n < 2 ^ 64.

Lemma observe_authorization_Ok r a : room 1 a →
  ∃ a', observe_authorization r a = Ok a' ∧
    ag_confirmed_authorizations a' = ag_confirmed_authorizations a + b2n (released r) ∧
    ag_unknown_authorization_attempts a' = ag_unknown_authorization_attempts a + b2n (unknown_release r) ∧
    ag_retry_attempts_started a' = ag_retry_attempts_started a + b2n (is_retry r) ∧
    ag_confirmed_retry_authorizations a' =
      ag_confirmed_retry_authorizations a + b2n (is_retry r && released r).
Proof.
  intros (H1 & H2 & H3 & H4). unfold observe_authorization. rewrite !bump_Ok by done.
  eexists. split; [reflexivity|]. done.
Qed.

Lemma observe_retained_Some l : ∀ a, room (N.of_nat (length l)) a →
  ∃ a', observe_retained l a = Some a' ∧
    ag_confirmed_authorizations a' = ag_confirmed_authorizations a + count_if released l ∧
    ag_unknown_authorization_attempts a' = ag_unknown_authorization_attempts a + count_if unknown_release l ∧
    ag_retry_attempts_started a' = ag_retry_attempts_started a + count_if is_retry l ∧
    ag_confirmed_retry_authorizations a' =
      ag_confirmed_retry_authorizations a + count_if (λ r, is_retry r && released r) l.
Proof.
  induction l as [|r l IH]; intros a Hroom.
  { exists a. cbn. split_and!; [done|lia..]. }
  assert (room 1 a) as H1 by (unfold room in *; cbn [length] in Hroom; lia).
  destruct (observe_authorization_Ok r a H1) as (a1 & E & Ec & Eu & Er & Ecr).
  destruct (IH a1) as (a2 & E2 & Ec2 & Eu2 & Er2 & Ecr2).
  { pose proof (count_if_le released [r]). unfold room in *. cbn [length] in Hroom.
    rewrite Ec, Eu, Er, Ecr. unfold b2n. repeat case_match; lia. }
  exists a2. cbn [observe_retained]. rewrite E. split; [done|].
  rewrite !count_if_cons. lia.
Qed.

Lemma records_history_of first t : records (history_of (first :: t)) = first :: lastn RECENT t.
Proof. done. Qed.

Lemma evicted_within_log (p : AttemptRecord → bool) first t :
  evicted_within (N.of_nat (length t - RECENT)) (count_if p (first :: t))
    (count_if p (first :: lastn RECENT t)) = true.
Proof.
  unfold evicted_within.
  assert (count_if p t = count_if p (take (length t - RECENT) t) + count_if p (lastn RECENT t)) as E.
  { by rewrite <- count_if_app, take_lastn. }
  pose proof (count_if_le p (take (length t - RECENT) t)) as Hle. rewrite length_take in Hle.
  assert (checked_sub (count_if p (first :: t)) (count_if p (first :: lastn RECENT t)) =
    Some (count_if p (take (length t - RECENT) t))) as ->.
  { apply checked_sub_Some. rewrite !count_if_cons. lia. }
  cbn [is_some_and]. lia.
Qed.

(** An attempt whose release is unknown was not confirmed released. *)
Lemma consistent_not_both r :
  attempt_is_consistent r = true → released r && unknown_release r = false.
Proof.
  unfold attempt_is_consistent. intros Hc. bool_hyps.
  unfold unknown_release. destruct (ar_runtime r) as [runtime|]; [|apply andb_false_r].
  cbn [is_none_or is_some_and] in *.
  match goal with E : runtime_agrees r runtime = true |- _ => unfold runtime_agrees in E end.
  bool_hyps. unfold released.
  destruct (re_release runtime); try apply andb_false_r. bool_hyps.
  by match goal with E : ln_target_released _ = false |- _ => rewrite E end.
Qed.

Lemma authorizations_match_log log :
  log_ok log → N.of_nat (length log) < 2 ^ 64 →
  (∀ r, head log = Some r → is_retry r = false) →
  authorizations_match (aggregates_of log) (records (history_of log))
    (ah_total (history_of log)) (ah_omitted (history_of log)) = true.
Proof.
  intros [_ Hc] Hlen Hinit. destruct log as [|first t]; [reflexivity|].
  rewrite records_history_of. unfold authorizations_match.
  destruct (observe_retained_Some (first :: lastn RECENT t) Aggregates_default)
    as (a & -> & Ec & Eu & Er & Ecr).
  { unfold room. cbn [Aggregates_default ag_confirmed_authorizations ag_unknown_authorization_attempts
      ag_retry_attempts_started ag_confirmed_retry_authorizations length] in *.
    rewrite length_lastn. lia. }
  cbn [Aggregates_default ag_confirmed_authorizations ag_unknown_authorization_attempts
    ag_retry_attempts_started ag_confirmed_retry_authorizations] in Ec, Eu, Er, Ecr.
  rewrite N.add_0_l in Ec, Eu, Er, Ecr.
  cbn [history_of aggregates_of ah_total ah_omitted ag_confirmed_authorizations
    ag_unknown_authorization_attempts ag_retry_attempts_started ag_confirmed_retry_authorizations tail].
  rewrite Ec, Eu, Er, Ecr, !evicted_within_log, !andb_true_r.
  assert (count_if released (first :: t) + count_if unknown_release (first :: t)
          <= N.of_nat (length (first :: t))) as Hboth.
  { apply count_if_disjoint. eapply Forall_impl; [exact Hc|]. apply consistent_not_both. }
  assert (checked_add 64 (count_if released (first :: t)) (count_if unknown_release (first :: t)) =
    Some (count_if released (first :: t) + count_if unknown_release (first :: t))) as ->
    by (apply checked_add_Some; split; [done|lia]).
  assert (count_if is_retry (first :: t) <= N.of_nat (length t)) as Hretry.
  { rewrite count_if_cons, (Hinit first eq_refl).
    pose proof (count_if_le is_retry t). unfold b2n. lia. }
  pose proof (count_if_mono (λ r, is_retry r && released r) released (first :: t)) as H1.
  pose proof (count_if_mono (λ r, is_retry r && released r) is_retry (first :: t)) as H2.
  cbn [is_some_and]. cbn [length] in Hboth |- *. bool_goal.
  - lia.
  - lia.
  - apply H1. intros r. by rewrite andb_true_iff; intros [].
  - apply H2. intros r. by rewrite andb_true_iff; intros [].
Qed.

(** Every consistent attempt is counted under exactly one outcome. *)
Lemma consistent_class r : attempt_is_consistent r = true → is_Some (attempt_class r).
Proof.
  unfold attempt_is_consistent. intros Hc. bool_hyps. unfold attempt_class.
  destruct (ar_outcome r) as [[]|], (ar_error r); first [discriminate | by eexists].
Qed.

Lemma class_counts log :
  Forall (λ r, is_Some (attempt_class r)) log →
  count_if (in_class ClassExit) log + count_if (in_class ClassLimit) log
  + count_if (in_class ClassDeadline) log + count_if (in_class ClassInterrupt) log
  + count_if (in_class ClassMonitor) log + count_if (in_class ClassSetup) log
  = N.of_nat (length log).
Proof.
  induction 1 as [|r log [k Hk] _ IH]; [done|].
  assert (∀ k', in_class k' r = bool_decide (k = k')) as Hin.
  { intros k'. unfold in_class. rewrite Hk. apply bool_decide_ext. split; congruence. }
  rewrite !count_if_cons, !Hin. cbn [length].
  destruct k; repeat (case_bool_decide; try congruence); unfold b2n; lia.
Qed.

Lemma aggregate_total_log log :
  log_ok log → N.of_nat (length log) < 2 ^ 64 →
  aggregate_total (aggregates_of log) = Some (N.of_nat (length log)).
Proof.
  intros [_ Hc] Hlen. pose proof (class_counts log) as Hsum. unfold aggregate_total, aggregates_of.
  cbn [ag_child_exits ag_memory_limits ag_deadlines ag_interruptions ag_monitor_failures ag_setup_failures].
  rewrite <- Hsum in Hlen |- * by (eapply Forall_impl; [exact Hc|apply consistent_class]).
  unfold checked_add, fits, mbind, option_bind.
  do 5 (replace (_ <? _) with true by (symmetry; apply N.ltb_lt; lia)). done.
Qed.

Lemma retained_history_of log : (retained (history_of log) <= DETAILED_ATTEMPT_CAPACITY)%nat.
Proof.
  unfold retained. cbn [history_of ah_first ah_recent]. rewrite length_lastn.
  unfold RECENT, DETAILED_ATTEMPT_CAPACITY. destruct (is_some _); lia.
Qed.

Lemma last_records log : last (records (history_of log)) = last log.
Proof.
  destruct log as [|first t]; [done|]. rewrite records_history_of, !last_lookup. cbn [length pred].
  destruct t as [|x t]; [done|]. rewrite length_lastn. cbn [length].
  assert (0 < RECENT)%nat as Hpos by (unfold RECENT, DETAILED_ATTEMPT_CAPACITY; lia).
  destruct (Nat.min RECENT (S (length t))) as [|m] eqn:Em; [lia|].
  cbn [lookup list_lookup]. change (lastn RECENT (x :: t) !! m = (x :: t) !! length t).
  rewrite lookup_lastn. f_equal. cbn [length]. lia.
Qed.

(** The sealed claims of an attempt hold up against the backend. *)
Definition seals_supported (backend : BackendCapabilityReport) (log : list AttemptRecord) : Prop :=
  Forall (λ r, unsupported_seal backend r = false) log.

Lemma records_sublist log r : r ∈ records (history_of log) → r ∈ log.
Proof.
  destruct log as [|first t]; [done|]. rewrite records_history_of, !elem_of_cons. unfold lastn.
  intros [?|Hr]; [by left|right]. by eapply subseteq_drop.
Qed.

Lemma seal_needs_backend backend r :
  unsupported_seal backend r = false → ln_boundary_requested (ar_launch r) = Sealed →
  ln_target_released (ar_launch r) = true → bc_class (br_boundary backend) = Class_Sealed.
Proof.
  unfold unsupported_seal. intros Hs Eq Er. rewrite Eq, Er in Hs.
  destruct (ln_boundary_effective (ar_launch r)), (bc_class (br_boundary backend)); done.
Qed.

Lemma existsb_false_Forall {A} (p : A → bool) l :
  (∀ x, x ∈ l → p x = false) → existsb p l = false.
Proof.
  intros Hp. apply not_true_iff_false. rewrite existsb_exists. intros (x & Hx & Ht).
  rewrite <- list_elem_of_In in Hx. specialize (Hp x Hx). congruence.
Qed.

(** ** Runs *)

Fixpoint append_all (rs : list AttemptRecord)
    : stM (AttemptHistory * SupervisionAggregates) SupervisionModelError () :=
  match rs with
  | [] => mret ()
  | r :: rs => append r ≫= λ _, append_all rs
  end.

(** The log of a run: its records with the numbers they are given. *)
Fixpoint number_from (n : N) (rs : list AttemptRecord) : list AttemptRecord :=
  match rs with
  | [] => []
  | r :: rs => with_number n r :: number_from (n + 1) rs
  end.
Definition log_of (rs : list AttemptRecord) : list AttemptRecord := number_from 1 rs.

Lemma length_number_from n rs : length (number_from n rs) = length rs.
Proof. revert n. induction rs; intros n; simpl; auto. Qed.
Lemma lookup_number_from n rs i r :
  number_from n rs !! i = Some r → ar_number r = n + N.of_nat i.
Proof.
  revert n i. induction rs as [|x rs IH]; intros n [|i]; simpl; try done.
  - intros [= <-]. cbn. lia.
  - intros E%IH. lia.
Qed.

(** Every record is unnumbered or carries the number of its place. *)
Definition numbers_fit (n : N) (rs : list AttemptRecord) : Prop :=
  ∀ i r, rs !! i = Some r → ar_number r = 0 ∨ ar_number r = n + N.of_nat i.

Lemma append_all_log rs : ∀ log,
  numbers_fit (N.of_nat (length log) + 1) rs → N.of_nat (length log + length rs) < 2 ^ 64 →
  let log' := log ++ number_from (N.of_nat (length log) + 1) rs in
  append_all rs (history_of log, aggregates_of log) = ((history_of log', aggregates_of log'), Ok ()).
Proof.
  induction rs as [|r rs IH]; intros log Hrs Hlen.
  { cbn. by rewrite (right_id_L [] (++)). }
  cbn [length] in Hlen. cbn [append_all number_from]. unfold mbind, stM_bind.
  assert (numbered_for log r) as Hr by (destruct (Hrs 0%nat r eq_refl) as [?|E]; [by left|right; rewrite E; lia]).
  rewrite append_refines_log by first [done | lia].
  rewrite IH; [|intros i x Hx; rewrite length_app; cbn [length]; destruct (Hrs (S i) x Hx); [by left|right; lia]
               |rewrite length_app; cbn [length]; lia].
  rewrite <- (assoc_L (++)). cbn [app]. rewrite length_app. cbn [length].
  by replace (N.of_nat (length log + 1) + 1) with (N.of_nat (length log) + 1 + 1) by lia.
Qed.
(** The records that are refused. *)
Lemma append_misnumbered log r :
  N.of_nat (length log) + 1 < 2 ^ 64 → ar_number r ≠ 0 → ar_number r ≠ N.of_nat (length log) + 1 →
  append r (history_of log, aggregates_of log) = ((history_of log, aggregates_of log), Err AttemptNumber).
Proof.
  intros Hlen H0 Hn. unfold append. cbn [history_of ah_total].
  rewrite (proj2 (checked_add_Some 64 (N.of_nat (length log)) 1 _) (conj eq_refl Hlen)).
  cbn [ok_or mbind result_bind]. by rewrite (proj2 (N.eqb_neq _ _) H0), (proj2 (N.eqb_neq _ _) Hn).
Qed.
Lemma append_exhausted log r :
  2 ^ 64 <= N.of_nat (length log) + 1 →
  append r (history_of log, aggregates_of log) = ((history_of log, aggregates_of log), Err CounterRange).
Proof.
  intros Hlen. unfold append. cbn [history_of ah_total]. unfold checked_add, fits.
  by replace (N.of_nat (length log) + 1 <? 2 ^ 64) with false by lia.
Qed.

(** C6: the bounded history refines the complete log of a run.  Attempts that
    are unnumbered, or carry the number of their place, are recorded from an
    empty history without a failure while the 64-bit counter lasts: the history
    shows the first attempt and the latest 255 in order, counts the rest as
    omitted, keeps every aggregate equal to the number of attempts of its kind
    in the whole log, and is one that its reader accepts when each attempt
    checks.  An attempt with any other number is refused as misnumbered, and any
    attempt once the counter is exhausted; a refusal changes nothing. *)
Theorem history_refines_log rs :
  numbers_fit 1 rs → N.of_nat (length rs) < 2 ^ 64 →
  append_all rs (AttemptHistory_default, Aggregates_default) =
    ((history_of (log_of rs), aggregates_of (log_of rs)), Ok ()) ∧
  (retained (history_of (log_of rs)) <= DETAILED_ATTEMPT_CAPACITY)%nat ∧
  (Forall (λ r, attempt_is_consistent r = true) (log_of rs) →
   history_validate (history_of (log_of rs)) = true) ∧
  (∀ r, ar_number r ≠ 0 → ar_number r ≠ N.of_nat (length rs) + 1 → N.of_nat (length rs) + 1 < 2 ^ 64 →
   append r (history_of (log_of rs), aggregates_of (log_of rs)) =
     ((history_of (log_of rs), aggregates_of (log_of rs)), Err AttemptNumber)) ∧
  (∀ r, N.of_nat (length rs) + 1 = 2 ^ 64 →
   append r (history_of (log_of rs), aggregates_of (log_of rs)) =
     ((history_of (log_of rs), aggregates_of (log_of rs)), Err CounterRange)).
Proof.
  intros Hrs Hlen. assert (length (log_of rs) = length rs) as Hl by apply length_number_from.
  split; [|split; [apply retained_history_of|split; [|split]]].
  - apply (append_all_log rs []); [done|]. cbn. lia.
  - intros Hc. apply history_of_valid; [split; [|done]|by rewrite Hl].
    intros i r Hi. apply lookup_number_from in Hi. lia.
  - intros r H0 Hn Hr. apply append_misnumbered; by rewrite ?Hl.
  - intros r Hr. apply append_exhausted. rewrite Hl. lia.
Qed.

(** C9: an execution record is accepted for every run whose attempts check and
    whose sealed claims the backend supports: the counters, the history and the
    terminal all agree by construction, and the wrapper's exit code is the
    status of the latest attempt's outcome. *)
Theorem execution_accepts_run backend log latest outcome restart duration_ms :
  capability_is_consistent (br_boundary backend) = true →
  log_ok log → N.of_nat (length log) < 2 ^ 64 →
  (∀ r, head log = Some r → is_retry r = false) →
  last log = Some latest → ar_outcome latest = Some outcome →
  su_restarts_launched restart <= count_if released log →
  seals_supported backend log →
  ∃ execution,
    SupervisionExecution_new backend (AttemptOutcome (N.of_nat (length log)) outcome)
      (history_of log) (aggregates_of log) restart None duration_ms (count_if released log)
    = Ok execution ∧ ex_wrapper_exit_code execution = outcome_status outcome ∧
      ex_attempts execution = history_of log ∧ ex_aggregates execution = aggregates_of log.
Proof.
  intros Hb Hlog Hlen Hinit Hlast Hout Hrestart Hseal.
  assert (ar_number latest = N.of_nat (length log) ∧ 0 < N.of_nat (length log)) as [Hnum Hpos].
  { rewrite last_lookup in Hlast. pose proof (lookup_lt_Some _ _ _ Hlast).
    apply Hlog in Hlast. lia. }
  pose proof (authorizations_match_log log Hlog Hlen Hinit) as Hauth.
  change (ah_total (history_of log)) with (N.of_nat (length log)) in Hauth.
  change (ah_omitted (history_of log)) with (N.of_nat (length (tail log) - RECENT)) in Hauth.
  unfold SupervisionExecution_new. rewrite Hb, (aggregate_total_log log Hlog Hlen).
  cbn [ok_or]. unfold mbind, result_bind, reject_execution.
  cbn [history_of ah_total ah_omitted terminal_attempt outside_deadline aggregates_of
    ag_confirmed_authorizations is_some Bool.eqb negb is_some_and].
  fold (history_of log) (aggregates_of log).
  rewrite N.eqb_refl, (history_of_valid log Hlog Hlen). cbn [negb guard_err].
  replace (_ <? _)%nat with false by (symmetry; apply Nat.ltb_ge, retained_history_of).
  assert ((N.of_nat (length (tail log) - RECENT) =? N.of_nat (length log) - N.of_nat (retained (history_of log)))
    = true) as ->.
  { destruct log as [|first t]; [done|]. unfold retained.
    cbn [history_of ah_first ah_recent head tail is_some length]. rewrite length_lastn. lia. }
  cbn [negb guard_err]. replace (_ <? su_restarts_launched restart) with false by lia.
  rewrite N.eqb_refl, Hauth. cbn [negb guard_err].
  replace (_ =? 0) with false by lia. rewrite ?N.eqb_refl. cbn [orb negb guard_err].
  cbn [terminal_matches_latest]. rewrite last_records, Hlast. cbn [is_some_and].
  rewrite Hnum, N.eqb_refl, Hout, bool_decide_eq_true_2 by done. cbn [andb negb guard_err].
  unfold seals_supported in Hseal. rewrite Forall_forall in Hseal.
  rewrite existsb_false_Forall by (intros r Hr%records_sublist; by apply Hseal). cbn [guard_err].
  assert ((bc_class (br_boundary backend) ≠? Class_Sealed) && existsb (λ record,
      (ln_boundary_requested (ar_launch record) ≟ Sealed) && ln_target_released (ar_launch record))
      (records (history_of log)) = false) as ->.
  { case_bool_decide as Ecl; [done|]. cbn [negb andb]. apply existsb_false_Forall.
    intros r Hr%records_sublist. apply implication_false. intros Eq%bool_decide_eq_true.
    apply not_true_iff_false. intros Er. by apply Ecl, (seal_needs_backend backend r (Hseal r Hr)). }
  cbn [guard_err]. eexists. split; [reflexivity|]. done.
Qed.

(** ** What an accepted record certifies *)

Lemma reject_execution_Ok c m u : reject_execution c m = Ok u ↔ c = false.
Proof. apply guard_err_Ok. Qed.

(** The checks of the constructor, opened. *)
Lemma execution_new_spec backend terminal attempts aggregates restart deadline duration_ms authorized ex :
  SupervisionExecution_new backend terminal attempts aggregates restart deadline duration_ms authorized
  = Ok ex →
  ex = {| ex_backend := backend; ex_terminal := terminal; ex_attempts := attempts;
          ex_aggregates := aggregates; ex_restart := restart; ex_deadline := deadline;
          ex_duration_ms := duration_ms; ex_targets_authorized := authorized;
          ex_wrapper_exit_code := terminal_exit_code terminal; ex_phase := CompletedPhase |} ∧
  capability_is_consistent (br_boundary backend) = true ∧
  aggregate_total aggregates = Some (ah_total attempts) ∧
  history_validate attempts = true ∧
  terminal_matches_latest terminal (last (records attempts)) = true ∧
  existsb (unsupported_seal backend) (records attempts) = false.
Proof.
  unfold SupervisionExecution_new. intros E.
  apply bind_Ok in E as (? & H1%reject_execution_Ok & E).
  apply bind_Ok in E as (total & H2%ok_or_Ok & E).
  apply bind_Ok in E as (? & H3%reject_execution_Ok & E).
  apply bind_Ok in E as (? & H4%reject_execution_Ok & E).
  do 6 (apply bind_Ok in E as (? & _ & E)).
  apply bind_Ok in E as (? & _ & E).
  apply bind_Ok in E as (? & H5%reject_execution_Ok & E).
  apply bind_Ok in E as (? & _ & E).
  apply bind_Ok in E as (? & H6%reject_execution_Ok & E).
  apply bind_Ok in E as (? & _ & E).
  bool_hyps. injection E as <-. subst total. done.
Qed.

(** A sealed attempt the record shows as released. *)
Record sealed_release (backend : BackendCapabilityReport) (launch : LaunchEvidence) : Prop := {
  sr_class : bc_class (br_boundary backend) = Class_Sealed;
  sr_gated : bc_target_gated (br_boundary backend) = true;
  sr_locked : bc_target_can_reconfigure_boundary (br_boundary backend) = false;
  sr_effective : ln_boundary_effective launch = Class_Sealed;
  sr_assignment : ln_boundary_assignment_verified launch = true;
  sr_reconfiguration : ln_boundary_reconfiguration_denied launch = true;
  sr_inherited : ln_inherited_resources_restricted launch = true;
  sr_cleanup : ln_frontend_loss_cleanup_authority_verified launch = true
}.

Lemma supported_seal_release backend r :
  capability_is_consistent (br_boundary backend) = true → unsupported_seal backend r = false →
  ln_boundary_requested (ar_launch r) = Sealed → ln_target_released (ar_launch r) = true →
  sealed_release backend (ar_launch r).
Proof.
  intros Hc Hs Hq Hr. pose proof (seal_needs_backend backend r Hs Hq Hr) as Hclass.
  unfold capability_is_consistent in Hc. rewrite Hclass in Hc.
  rewrite bool_decide_eq_true_2 in Hc by done. cbn [negb orb] in Hc. bool_hyps.
  unfold unsupported_seal in Hs. rewrite Hq, Hr in Hs.
  rewrite (bool_decide_eq_true_2 (Sealed = Sealed)) in Hs by done. cbn [andb] in Hs. bool_hyps.
  by constructor.
Qed.

Lemma terminal_status_nonzero error : terminal_status error ≠ 0%Z.
Proof. unfold terminal_status. by destruct (er_initial_spawn_failure error) as [[]|]. Qed.

(** C8: an execution record that was accepted can be believed: read back from
    its own fields it is accepted again, unchanged; a released sealed attempt it
    shows ran under a sealed backend with every launch fact verified; and a
    zero exit code means that the latest attempt's own command exited zero with
    its cleanup complete. *)
Theorem execution_certifies backend terminal attempts aggregates restart deadline duration_ms authorized ex :
  SupervisionExecution_new backend terminal attempts aggregates restart deadline duration_ms authorized
  = Ok ex →
  (is_standalone_valid restart = true → SupervisionExecution_deserialize ex = Ok ex) ∧
  (∀ r, r ∈ records attempts → ln_boundary_requested (ar_launch r) = Sealed →
     ln_target_released (ar_launch r) = true → sealed_release backend (ar_launch r)) ∧
  ((∀ number outcome, terminal = AttemptOutcome number outcome → outcome_in_range outcome) →
   ex_wrapper_exit_code ex = 0%Z →
   ∃ number latest child peak cleanup,
     terminal = AttemptOutcome number (Exited child peak cleanup) ∧
     last (records attempts) = Some latest ∧ ar_outcome latest = Some (Exited child peak cleanup) ∧
     (child = ExitCode 0 ∨ child = WindowsStatus 0) ∧ cleanup_complete cleanup).
Proof.
  intros E. pose proof (execution_new_spec _ _ _ _ _ _ _ _ _ E) as (-> & Hcap & _ & Hval & Hterm & Hseal).
  split_and!.
  - intros Hst. unfold SupervisionExecution_deserialize, AttemptHistory_deserialize, RestartSummary_deserialize.
    cbn [ex_attempts ex_restart ex_backend ex_terminal ex_aggregates ex_deadline ex_duration_ms
      ex_targets_authorized]. rewrite Hval, Hst. cbn [negb map_err].
    unfold mbind, result_bind. rewrite E. cbn [map_err ex_wrapper_exit_code ex_phase].
    by rewrite Z.eqb_refl, bool_decide_eq_true_2.
  - intros r Hr Hq Hrel. apply supported_seal_release; [done| |done|done].
    apply not_true_iff_false. intros Hu. apply not_true_iff_false in Hseal. apply Hseal.
    apply existsb_exists. exists r. by rewrite <- list_elem_of_In.
  - intros Hrange. cbn [ex_wrapper_exit_code]. destruct terminal as [number outcome|evidence|number error];
      cbn [terminal_exit_code]; [|done|by intros ?%terminal_status_nonzero].
    intros Hz. cbn [terminal_matches_latest] in Hterm.
    apply is_some_and_true in Hterm as (latest & Hlast & Hterm). bool_hyps.
    destruct (outcome_status_spec outcome (Hrange _ _ eq_refl)) as [_ Hzero].
    destruct (Hzero Hz) as (child & peak & cleanup & -> & Hres).
    exists number, latest, child, peak, cleanup. do 3 (split; [done|]). exact Hres.
Qed.
End log.

(** ** A concrete run *)

Module SupervisionExamples.

(** Evidence types with one value each that always checks. *)
#[export] Instance trivial_evidence : EvidenceTypes := {|
  sha256_digest := id; json_plan_digest := λ _, None;
  NativeStartupDiagnosticV1 := (); startup_eq_dec := _;
  matches_error_observations := λ _ _ _ _, true;
  WorkloadAdmissionRejectionV1 := (); admission_eq_dec := _;
  admission_request_plan := λ _, sha256 []; admission_approved_plan := λ _, sha256 [];
  WindowsTerminalReceiptV1 := (); receipt_eq_dec := _;
  receipt_schema_version := λ _, 1;
  receipt_boundary_detail := λ _, Mechanism_Standard "w";
  receipt_restart_safety := λ _, RestartSafetyProof_default;
  receipt_inventory_bounded := λ _, true;
  OperationalAttemptFailure := (); operational_validate := λ _, Ok ();
  RuntimePolicyEnforcement := (); policy_enforcement_is_consistent := λ _, true |}.

(** A sealed attempt that exited zero and was cleaned up. *)
Definition attempt (kind : AttemptKind) : AttemptRecord :=
  {| ar_operational_failure := None; ar_private_execution := None; ar_runtime := None;
     ar_policy_enforcement := (); ar_number := 0; ar_kind := kind; ar_phase := Phase_Completed;
     ar_target_pid := Some 7; ar_started_offset_ms := Some 1; ar_authorized_offset_ms := Some 2;
     ar_terminal_offset_ms := Some 3; ar_finished_offset_ms := 4;
     ar_outcome := Some (Exited (ExitCode 0) None clean_cleanup); ar_error := None;
     ar_restart_decision := RestartDecisionRecord_default; ar_launch := sample_launch;
     ar_restart_safety := sample_safety; ar_boundary_detail := MacosEndpointSecurityV1 sample_native |}.
Definition run : list AttemptRecord := attempt Kind_Initial :: replicate 260 (attempt Kind_Restart).
Definition ok_status : CapabilityStatusReport := {| cs_supported := true; cs_reason := None |}.
Definition backend : BackendCapabilityReport :=
  {| br_name := "macos"; br_containment := ok_status;
     br_boundary := {| bc_class := Class_Sealed; bc_mechanism := "macos-endpoint-security-v1";
       bc_target_gated := true; bc_boundary_verified_before_authorization := true;
       bc_target_can_reconfigure_boundary := false; bc_frontend_loss_cleanup_authority := true;
       bc_workload_empty_proof := true; bc_limitations := [] |};
     br_memory := None; br_deadline := ok_status; br_restart := ok_status;
     br_deadline_scopes := []; br_deadline_origin := None; br_restart_conditions := Conditions_NONE;
     br_persistent_restart_state := false; br_startup_containment := ""; br_restart_cleanup_condition := "";
     br_limitations := []; br_boundary_qualification := None; br_sealed_unavailable := None |}.
Definition execution : result SupervisionModelError SupervisionExecution :=
  SupervisionExecution_new backend (AttemptOutcome 261 (Exited (ExitCode 0) None clean_cleanup))
    (history_of (log_of run)) (aggregates_of (log_of run)) RestartSummary_default None 9
    (count_if released (log_of run)).

Lemma run_consistent : Forall (λ r, attempt_is_consistent r = true) (log_of run).
Proof. apply forallb_Forall. vm_compute. reflexivity. Qed.
Lemma run_log_ok : log_ok (log_of run).
Proof.
  split; [|exact run_consistent]. intros i r Hi. apply lookup_number_from in Hi. lia.
Qed.
Lemma run_supported : seals_supported backend (log_of run).
Proof.
  assert (forallb (λ r, negb (unsupported_seal backend r)) (log_of run) = true) as Hall
    by (vm_compute; reflexivity).
  apply forallb_Forall in Hall. eapply Forall_impl; [exact Hall|]. intros r Hr. by apply negb_true_iff.
Qed.
End SupervisionExamples.

Lemma history_refines_log_witness :
  append_all SupervisionExamples.run (AttemptHistory_default, Aggregates_default) =
    ((history_of (log_of SupervisionExamples.run), aggregates_of (log_of SupervisionExamples.run)), Ok ()) ∧
  history_validate (history_of (log_of SupervisionExamples.run)) = true ∧
  ah_omitted (history_of (log_of SupervisionExamples.run)) = 5.
Proof.
  destruct (history_refines_log SupervisionExamples.run) as (E & _ & Hv & _).
  - intros i r Hi. left. revert i r Hi. apply Forall_lookup. apply Forall_cons. split; [reflexivity|].
    apply Forall_replicate. reflexivity.
  - reflexivity.
  - split; [exact E|]. split; [apply Hv, SupervisionExamples.run_consistent|vm_compute; reflexivity].
Defined.

Lemma execution_accepts_run_witness :
  ∃ execution, SupervisionExamples.execution = Ok execution ∧ ex_wrapper_exit_code execution = 0%Z.
Proof.
  destruct (execution_accepts_run SupervisionExamples.backend (log_of SupervisionExamples.run)
    (with_number 261 (SupervisionExamples.attempt Kind_Restart))
    (Exited (ExitCode 0) None clean_cleanup) RestartSummary_default 9) as (ex & E & Ez & _);
    [reflexivity|apply SupervisionExamples.run_log_ok|reflexivity|intros r E; vm_compute in E; injection E as <-; reflexivity
    |vm_compute; reflexivity|reflexivity|vm_compute; discriminate|apply SupervisionExamples.run_supported|].
  exists ex. split; [exact E|exact Ez].
Defined.

Lemma execution_certifies_witness :
  ∃ ex, SupervisionExamples.execution = Ok ex ∧ SupervisionExecution_deserialize ex = Ok ex.
Proof.
  destruct SupervisionExamples.execution as [ex|] eqn:E; [|vm_compute in E; discriminate].
  exists ex. split; [reflexivity|]. apply (execution_certifies _ _ _ _ _ _ _ _ ex E). reflexivity.
Defined.
