(* ===== verification/Rejection.v ===== *)
(** * Provider rejections

    rejection.rs of the sealed agent, the rejection of a failed launch in
    linux/launch.rs, and provider_rejection_wire.rs of memcordon-core: how the
    Linux provider describes a launch it refused or could not complete, the wire
    form, and the evidence the front end makes of it.  What the provider looks
    up, whether the attempt's record and boundary are absent, are arguments. *)

From S2P Require Import Supervision Prelude Decimal Bounded Codec Diagnostics RecordLimits WorkloadContract WorkloadCodec JsonDocuments Safety Policy NativeText Boundary ErrorRecord Protocol PrivateJournal.
From Stdlib Require Import Ascii.

(** ** Text *)
(** [str::contains] and [str::starts_with] *)
Fixpoint contains_at (needle hay : list u8) : bool :=
  is_some (strip_prefix needle hay) || match hay with [] => false | _ :: rest => contains_at needle rest end.
Definition contains (needle hay : string) : bool := contains_at (bytes needle) (bytes hay).
Definition starts (prefix s : string) : bool := is_some (strip_prefix (bytes prefix) (bytes s)).

(** [is_char_boundary] at an index below the length *)
Definition is_char_boundary (l : list u8) (index : nat) : bool :=
  match l !! index with Some b => negb (byte_in 0x80 0xBF b) | None => (index =? length l)%nat end || (index =? 0)%nat.
Fixpoint previous_boundary (l : list u8) (index : nat) : nat :=
  if is_char_boundary l index then index else match index with O => O | S index => previous_boundary l index end.
Definition SUFFIX : string := "...[truncated]".
Definition bounded_text (value : string) (maximum : N) : string :=
  if str_len value <=? maximum then value
  else
    let boundary := previous_boundary (bytes value) (N.to_nat (maximum - str_len SUFFIX)) in
    (String.string_of_list_ascii (take boundary (bytes value)) +:+ SUFFIX)%string.

Definition MAX_CODE_BYTES : N := 128.
Definition MAX_DETAIL_BYTES : N := 8 * 1024.
Definition MAX_CLEANUP_ERRORS : N := 16.
Definition MAX_CLEANUP_ERROR_BYTES : N := 1024.

Inductive RejectionPhaseV1 : Type :=
| RP_RequestValidation | RP_CallerEnvelopeCapture | RP_LauncherServiceAuthentication | RP_CallerMountNamespaceAdoption
| RP_CallerCapabilityEnvelope | RP_CredentialTransitionPolicy | RP_BoundaryCreation | RP_GuardianStartup
| RP_TargetCreation | RP_AssignmentVerification | RP_ResourceVerification | RP_Authorization | RP_Monitoring
| RP_Retirement.
#[global] Instance RejectionPhaseV1_eq_dec : EqDecision RejectionPhaseV1.
Proof. solve_decision. Defined.
(** [From<RejectionPhaseV1> for BoundarySetupPhase] *)
Definition setup_phase (phase : RejectionPhaseV1) : BoundarySetupPhase :=
  match phase with
  | RP_RequestValidation => RequestValidation
  | RP_CallerEnvelopeCapture => CallerEnvelopeCapture
  | RP_LauncherServiceAuthentication => LauncherServiceAuthentication
  | RP_CallerMountNamespaceAdoption => CallerMountNamespaceAdoption
  | RP_CallerCapabilityEnvelope => CallerCapabilityEnvelope
  | RP_CredentialTransitionPolicy => CredentialTransitionPolicy
  | RP_BoundaryCreation => BoundaryCreation
  | RP_GuardianStartup => GuardianStartup
  | RP_TargetCreation => TargetCreation
  | RP_AssignmentVerification => AssignmentVerification
  | RP_ResourceVerification => ResourceVerification
  | RP_Authorization => AuthorizationPhase
  | RP_Monitoring => Monitoring
  | RP_Retirement => Retirement
  end.

Definition valid_code (code : string) : bool :=
  negb (str_is_empty code) && (str_len code <=? MAX_CODE_BYTES)
  && str_all (λ byte, is_ascii_uppercase byte || is_ascii_digit byte || (byte ≟ "-"%char)) code.
Definition PROVIDER_REJECTION : string := "MCSEALED-PROVIDER-REJECTION".
Definition code_or_default (code : string) : string := if valid_code code then code else PROVIDER_REJECTION.
(** [split_once(':')], the part before, or the whole *)
Fixpoint before_colon (l : list u8) : list u8 :=
  match l with [] => [] | b :: rest => if b ≟ ":"%char then [] else b :: before_colon rest end.
Definition stable_code (error : string) : string :=
  code_or_default (String.string_of_list_ascii (before_colon (bytes error))).

Definition FRONTEND_BEFORE : string := "MCSEALED-FRONTEND-LOSS-BEFORE-AUTHORIZATION".
Definition GUARDIAN_BEFORE : string := "MCSEALED-GUARDIAN-LOSS-BEFORE-AUTHORIZATION".
Definition FRONTEND_AFTER : string := "MCSEALED-FRONTEND-LOSS-AFTER-AUTHORIZATION".
Definition GUARDIAN_AFTER : string := "MCSEALED-GUARDIAN-LOSS-AFTER-AUTHORIZATION".
Definition INIT_PREFIX : string := "MCSEALED-NAMESPACE-INIT-".
Definition INIT_REAP_DELAY : string := "MCSEALED-NAMESPACE-INIT-REAP-DELAY".

Definition phase_for_code (code : string) : RejectionPhaseV1 :=
  if contains "CALLER-ENVELOPE-CAPTURE" code then RP_CallerEnvelopeCapture
  else if contains "LAUNCHER-SERVICE-AUTHENTICATION" code || contains "LAUNCHER-CONNECTION" code
          || contains "LAUNCHER-AUTHORIZATION" code then RP_LauncherServiceAuthentication
  else if contains "CALLER-MOUNT-NAMESPACE-ADOPTION" code then RP_CallerMountNamespaceAdoption
  else if contains "CALLER-CAPABILITY-ENVELOPE" code then RP_CallerCapabilityEnvelope
  else if contains "CREDENTIAL-TRANSITION-POLICY" code then RP_CredentialTransitionPolicy
  else if (code ≟ FRONTEND_BEFORE) || (code ≟ GUARDIAN_BEFORE) then RP_Authorization
  else if (code ≟ FRONTEND_AFTER) || (code ≟ GUARDIAN_AFTER) then RP_Monitoring
  else if bool_decide (code ∈ ["MCSEALED-CGROUP-KILL-FAILURE"; "MCSEALED-CGROUP-NOT-EMPTY"; INIT_REAP_DELAY;
                               "MCSEALED-GUARDIAN-REAP-FAILURE"]%string) then RP_Retirement
  else if code ≟ "MCSEALED-LAUNCH-DESCRIPTOR-SET"%string then RP_RequestValidation
  else if starts INIT_PREFIX code then RP_TargetCreation
  else if contains "DESCRIPTOR" code || contains "CGROUP-VIEW" code || contains "TARGET-CREDENTIAL-READBACK" code
          || contains "TARGET-CGROUP-READBACK" code || contains "TARGET-NAMESPACE-READBACK" code
          || contains "RECORD-RESOURCE" code then RP_ResourceVerification
  else if contains "TARGET-IDENTITY" code || contains "RECORD-ASSIGNMENT" code then RP_AssignmentVerification
  else if contains "GUARDIAN" code || contains "RECORD-GUARDIAN" code then RP_GuardianStartup
  else if contains "AUTHORIZATION" code then RP_Authorization
  else if contains "BOUNDARY-NOT-RETIRED" code || contains "CGROUP-NOT-EMPTY" code then RP_Retirement
  else if contains "TARGET-CONTROL" code || contains "TARGET-STATUS" code || contains "FRONTEND-PIDFD" code
          || contains "CGROUP" code || contains "RECORD-ALLOCATE" code || contains "RECORD-BOUNDARY" code
          || contains "RECOVERY" code then RP_BoundaryCreation
  else if contains "MONITOR" code || contains "DEADLINE" code || contains "MEMORY" code
          || (code ≟ "MCSEALED-POLICY-DRIFT"%string) then RP_Monitoring
  else if contains "TARGET" code || contains "RECORD-TARGET" code then RP_TargetCreation
  else RP_RequestValidation.

Definition target_was_observed (code : string) (phase : RejectionPhaseV1) : bool :=
  if (code ≟ "MCSEALED-TARGET-WAIT"%string) || (starts INIT_PREFIX code && (code ≠? INIT_REAP_DELAY)) then false
  else bool_decide (phase ∈ [RP_TargetCreation; RP_AssignmentVerification; RP_ResourceVerification; RP_Authorization;
                             RP_Monitoring; RP_Retirement]).
Definition target_was_released (code : string) (phase : RejectionPhaseV1) : bool :=
  (code ≟ "MCSEALED-AUTHORIZATION-RECORD"%string) || (code ≟ FRONTEND_AFTER) || (code ≟ GUARDIAN_AFTER)
  || (code ≟ "MCSEALED-TARGET-EXEC-STATUS"%string) || (phase ≟ RP_Monitoring) || (phase ≟ RP_Retirement).

Record RejectionCleanupV1 : Type := {
  cu_attempted : bool; cu_direct_child_reaped : bool; cu_workload_empty : option bool; cu_helpers_reaped : bool;
  cu_containment_removed : bool; cu_sealed_boundary_retired : bool; cu_errors : list string
}.
Definition no_cleanup : RejectionCleanupV1 :=
  {| cu_attempted := false; cu_direct_child_reaped := false; cu_workload_empty := None; cu_helpers_reaped := false;
     cu_containment_removed := false; cu_sealed_boundary_retired := false; cu_errors := [] |}.
Definition retired_cleanup : RejectionCleanupV1 :=
  {| cu_attempted := true; cu_direct_child_reaped := true; cu_workload_empty := Some true; cu_helpers_reaped := true;
     cu_containment_removed := true; cu_sealed_boundary_retired := true; cu_errors := [] |}.
(** [record_absent] and [boundary_absent]: what looking the two paths up says. *)
Definition cleanup_evidence (record_absent boundary_absent : bool) (phase : RejectionPhaseV1) : RejectionCleanupV1 :=
  if phase ≟ RP_RequestValidation then no_cleanup
  else
    let retired := record_absent && boundary_absent in
    {| cu_attempted := true; cu_direct_child_reaped := retired; cu_workload_empty := Some boundary_absent;
       cu_helpers_reaped := retired; cu_containment_removed := boundary_absent; cu_sealed_boundary_retired := retired;
       cu_errors := if retired then []
                    else ["MCSEALED-BOUNDARY-NOT-RETIRED: authenticated attempt residue remains"%string] |}.

Section Rejections.
Context `{EvidenceTypes}.

(** [RejectionV1] and [RejectionWireV1], which have the same fields. *)
Record RejectionV1 : Type := {
  rx_workload_admission : option WorkloadAdmissionRejectionV1; rx_schema_version : N; rx_code : string;
  rx_phase : RejectionPhaseV1; rx_detail : string; rx_os_code : option Z; rx_target_created : bool;
  rx_target_released : bool; rx_cleanup : RejectionCleanupV1
}.

Definition cleanup_errors_bounded (errors : list string) : bool :=
  forallb (λ error, negb ((MAX_CLEANUP_ERROR_BYTES <? str_len error) || str_contains NUL error)) errors.
Definition contradictory_cleanup (c : RejectionCleanupV1) : bool :=
  negb (cu_attempted c)
  && (cu_direct_child_reaped c || is_some (cu_workload_empty c) || cu_helpers_reaped c || cu_containment_removed c
      || cu_sealed_boundary_retired c || negb (bool_decide (cu_errors c = []))).
Definition incomplete_retirement (c : RejectionCleanupV1) : bool :=
  cu_sealed_boundary_retired c
  && (negb (cu_direct_child_reaped c) || negb (cu_workload_empty c ≟ Some true) || negb (cu_helpers_reaped c)
      || negb (cu_containment_removed c) || negb (bool_decide (cu_errors c = []))).
Definition expected_fault (code : string) : option (RejectionPhaseV1 * bool * bool) :=
  if (code ≟ FRONTEND_BEFORE) || (code ≟ GUARDIAN_BEFORE) then Some (RP_Authorization, true, false)
  else if (code ≟ FRONTEND_AFTER) || (code ≟ GUARDIAN_AFTER) then Some (RP_Monitoring, true, true)
  else None.

Definition rejection_error (message : string) : string := ("MCSEALED-PROVIDER-REJECTION: " +:+ message)%string.
(** [RejectionV1::validate] *)
Definition rejection_validate (self : RejectionV1) : result string () :=
  guard_err (negb (rx_schema_version self =? 1) || negb (valid_code (rx_code self))
             || (MAX_DETAIL_BYTES <? str_len (rx_detail self)) || str_contains NUL (rx_detail self)
             || (rx_target_released self && negb (rx_target_created self))
             || (MAX_CLEANUP_ERRORS <? N.of_nat (length (cu_errors (rx_cleanup self))))
             || negb (cleanup_errors_bounded (cu_errors (rx_cleanup self))))
    (rejection_error "invalid typed receipt") ;;
  guard_err (contradictory_cleanup (rx_cleanup self)) (rejection_error "contradictory cleanup receipt") ;;
  guard_err (incomplete_retirement (rx_cleanup self)) (rejection_error "incomplete retirement receipt") ;;
  guard_err (is_some_and (λ expected, (expected ≠? (rx_phase self, rx_target_created self, rx_target_released self))
                                      || negb (cu_sealed_boundary_retired (rx_cleanup self)))
               (expected_fault (rx_code self)))
    (rejection_error "contradictory loss receipt").

(** [RejectionWireV1::validate] *)
Definition wire_validate (self : RejectionV1) : result string () :=
  guard_err (negb (rx_schema_version self =? 1) || negb (valid_code (rx_code self)) || str_is_empty (rx_detail self)
             || (8 * 1024 <? str_len (rx_detail self)) || str_contains NUL (rx_detail self)
             || (rx_target_released self && negb (rx_target_created self))
             || (16 <? N.of_nat (length (cu_errors (rx_cleanup self))))
             || negb (cleanup_errors_bounded (cu_errors (rx_cleanup self))))
    "typed rejection fields violate protocol bounds"%string ;;
  guard_err (contradictory_cleanup (rx_cleanup self)) "typed rejection cleanup evidence is contradictory"%string ;;
  guard_err (incomplete_retirement (rx_cleanup self)) "typed rejection retirement evidence is incomplete"%string.

Definition from_launch_facts (code : string) (phase : RejectionPhaseV1) (detail : string)
    (target_created target_released : bool) (cleanup : RejectionCleanupV1) : result string RejectionV1 :=
  let rejection :=
    {| rx_workload_admission := None; rx_schema_version := 1; rx_code := code_or_default code; rx_phase := phase;
       rx_detail := bounded_text detail MAX_DETAIL_BYTES; rx_os_code := None; rx_target_created := target_created;
       rx_target_released := target_released; rx_cleanup := cleanup |} in
  rejection_validate rejection ≫= λ _, Ok rejection.

Definition from_launch_error (record_absent boundary_absent : bool) (error : string) : RejectionV1 :=
  let code := stable_code error in
  let phase := phase_for_code code in
  {| rx_workload_admission := None; rx_schema_version := 1; rx_code := code; rx_phase := phase;
     rx_detail := bounded_text error MAX_DETAIL_BYTES; rx_os_code := None;
     rx_target_created := target_was_observed code phase; rx_target_released := target_was_released code phase;
     rx_cleanup := cleanup_evidence record_absent boundary_absent phase |}.

Definition request_error (code detail : string) : RejectionV1 :=
  {| rx_workload_admission := None; rx_schema_version := 1; rx_code := code_or_default code;
     rx_phase := RP_RequestValidation; rx_detail := bounded_text detail MAX_DETAIL_BYTES; rx_os_code := None;
     rx_target_created := false; rx_target_released := false; rx_cleanup := no_cleanup |}.

(** linux/launch.rs: the loss of a peer is rejected with what its retirement
    proved; [None] is a panic. *)
Definition exact_loss (error : string) : option (string * RejectionPhaseV1 * bool) :=
  if starts FRONTEND_BEFORE error then Some (FRONTEND_BEFORE, RP_Authorization, false)
  else if starts GUARDIAN_BEFORE error then Some (GUARDIAN_BEFORE, RP_Authorization, false)
  else if starts FRONTEND_AFTER error then Some (FRONTEND_AFTER, RP_Monitoring, true)
  else if starts GUARDIAN_AFTER error then Some (GUARDIAN_AFTER, RP_Monitoring, true)
  else None.
Definition rejection_for_launch_error (record_absent boundary_absent : bool) (error : string) : option RejectionV1 :=
  match exact_loss error with
  | Some (code, phase, released) =>
      match from_launch_facts code phase error true released retired_cleanup with Ok r => Some r | Err _ => None end
  | None => Some (from_launch_error record_absent boundary_absent error)
  end.

(** ** The wire *)
Context `{SerdeJson} `{Serialize RejectionV1} `{Deserialize RejectionV1}.

Definition rejection_encode (self : RejectionV1) : result string (list u8) :=
  rejection_validate self ≫= λ _,
  wire_validate self ≫= λ _,
  encoded ← map_err rejection_error (to_vec self);
  let encoded := encoded ++ [LF] in
  guard_err (over MAX_FRAME_LENGTH encoded) (rejection_error "receipt exceeds frame bound") ;;
  Ok encoded.
Definition wire_parse (raw : list u8) : result string RejectionV1 :=
  guard_err (bool_decide (raw = []) || over PUBLIC_OBJECT_BYTES raw)
    "provider rejection raw response is absent or oversized"%string ;;
  reject_duplicate_json_keys raw ≫= λ _,
  wire ← from_slice (A := RejectionV1) raw;
  wire_validate wire ≫= λ _, Ok wire.

Definition project (self : RejectionV1) : ProviderRejectionEvidence :=
  let c := rx_cleanup self in
  {| rj_workload_admission := rx_workload_admission self; rj_provider_failure := None;
     rj_schema_version := rx_schema_version self; rj_code := rx_code self; rj_phase := setup_phase (rx_phase self);
     rj_detail := rx_detail self; rj_os_code := rx_os_code self; rj_loader_qualification := None;
     rj_target_created := rx_target_created self; rj_target_released := rx_target_released self;
     rj_cleanup_attempted := cu_attempted c;
     rj_restart_safety :=
       {| rsp_direct_child_reaped := cu_direct_child_reaped c; rsp_workload_empty := cu_workload_empty c;
          rsp_helpers_reaped := cu_helpers_reaped c; rsp_containment_removed := cu_containment_removed c;
          rsp_containment_incapable_of_live_members := cu_workload_empty c ≟ Some true;
          rsp_sealed_boundary_retired := cu_sealed_boundary_retired c; rsp_errors := cu_errors c |};
     rj_terminal_ack_required := false; rj_terminal_receipt := None |}.
Definition into_evidence (self : RejectionV1) : result string ProviderRejectionEvidence :=
  wire_validate self ≫= λ _,
  guard_err (negb (rejection_is_consistent (project self))) "projected rejection evidence is inconsistent"%string ;;
  Ok (project self).
Definition parse_evidence (raw : list u8) : result string ProviderRejectionEvidence :=
  wire ← wire_parse raw; into_evidence wire.
End Rejections.

(** ** Truncation *)
Lemma previous_boundary_le l index : (previous_boundary l index <= index)%nat.
Proof. induction index as [|index IH]; cbn [previous_boundary]; [by destruct (is_char_boundary l 0)|]. destruct (is_char_boundary l (S index)); lia. Qed.
Definition clean (s : string) : Prop := s ≠ ""%string ∧ str_contains NUL s = false.
Lemma bounded_text_ok value maximum : str_len SUFFIX <= maximum → clean value →
  clean (bounded_text value maximum) ∧ str_len (bounded_text value maximum) <= maximum.
Proof.
  intros Hm [Hne Hn]. unfold bounded_text. destruct (str_len value <=? maximum) eqn:E; [apply N.leb_le in E; by split|].
  pose proof (previous_boundary_le (bytes value) (N.to_nat (maximum - str_len SUFFIX))) as Hb.
  cbv zeta. set (k := previous_boundary _ _) in *. split; [split|].
  - destruct (String.string_of_list_ascii _); discriminate.
  - unfold str_contains in *. rewrite bytes_app, bytes_string, existsb_app. apply orb_false_iff. split; [|done].
    apply existsb_false_elem. intros c Hc%elem_of_take. destruct Hc as (i & Hc & _).
    apply (proj1 (existsb_false_elem _ _) Hn). by apply list_elem_of_lookup; eexists.
  - rewrite str_len_bytes, bytes_app, bytes_string, length_app, length_take.
    rewrite str_len_bytes in Hm. rewrite (str_len_bytes SUFFIX) in Hb. lia.
Qed.

(** ** Codes *)
Lemma stable_code_valid error : valid_code (stable_code error) = true.
Proof. unfold stable_code, code_or_default. set (c := String.string_of_list_ascii _). by destruct (valid_code c) eqn:E. Qed.
Lemma before_colon_prefix l : ∃ rest, l = before_colon l ++ rest.
Proof.
  induction l as [|b l [rest IH]]; [by exists []|]. cbn. case_bool_decide; [by eexists|]. exists rest. by rewrite IH at 1.
Qed.
Lemma starts_app p s rest : bytes s = bytes p ++ rest → starts p s = true.
Proof. intros E. unfold starts. apply strip_prefix_Some in E. by rewrite E. Qed.
(** A code of a loss is only found in an error that starts with it. *)
Lemma stable_code_starts error code : stable_code error = code → code ≠ PROVIDER_REJECTION → starts code error = true.
Proof.
  unfold stable_code, code_or_default. destruct (valid_code _); [|by intros <-]. intros <- _.
  destruct (before_colon_prefix (bytes error)) as [rest E]. eapply starts_app. by rewrite bytes_string.
Qed.
Lemma distinct_codes (a b : string) : String.eqb a b = false → a ≠ b.
Proof. intros E ->. by rewrite String.eqb_refl in E. Qed.
Lemma exact_loss_none error : exact_loss error = None → expected_fault (stable_code error) = None.
Proof.
  intros E. unfold expected_fault.
  assert (∀ code, code ≠ PROVIDER_REJECTION → starts code error = false → stable_code error ≠ code) as Hc.
  { intros code Hne Hs Hx. by rewrite (stable_code_starts _ _ Hx Hne) in Hs. }
  unfold exact_loss in E. destruct (starts FRONTEND_BEFORE error) eqn:E1; [done|].
  destruct (starts GUARDIAN_BEFORE error) eqn:E2; [done|]. destruct (starts FRONTEND_AFTER error) eqn:E3; [done|].
  destruct (starts GUARDIAN_AFTER error) eqn:E4; [done|].
  rewrite (bool_decide_false _ (Hc FRONTEND_BEFORE (distinct_codes FRONTEND_BEFORE PROVIDER_REJECTION eq_refl) E1)).
  rewrite (bool_decide_false _ (Hc GUARDIAN_BEFORE (distinct_codes GUARDIAN_BEFORE PROVIDER_REJECTION eq_refl) E2)).
  rewrite (bool_decide_false _ (Hc FRONTEND_AFTER (distinct_codes FRONTEND_AFTER PROVIDER_REJECTION eq_refl) E3)).
  by rewrite (bool_decide_false _ (Hc GUARDIAN_AFTER (distinct_codes GUARDIAN_AFTER PROVIDER_REJECTION eq_refl) E4)).
Qed.

(** A code whose target is released is one whose target was observed. *)
Lemma phase_init code : starts INIT_PREFIX code = true → code ≠ INIT_REAP_DELAY →
  phase_for_code code ≠ RP_Monitoring ∧ phase_for_code code ≠ RP_Retirement.
Proof.
  intros Hs Hne. assert (∀ c, starts INIT_PREFIX c = false → code ≠ c) as Hc by (intros c Hx ->; congruence).
  assert (code ∉ ["MCSEALED-CGROUP-KILL-FAILURE"; "MCSEALED-CGROUP-NOT-EMPTY"; INIT_REAP_DELAY;
                  "MCSEALED-GUARDIAN-REAP-FAILURE"]%string) as Hl.
  { rewrite !elem_of_cons, elem_of_nil. intros [Hx|[Hx|[Hx|[Hx|[]]]]]; [..|exact (Hne Hx)|];
      revert Hx; apply Hc; vm_compute; reflexivity. }
  pose proof (Hc FRONTEND_AFTER ltac:(vm_compute; reflexivity)) as Hf.
  pose proof (Hc GUARDIAN_AFTER ltac:(vm_compute; reflexivity)) as Hg.
  unfold phase_for_code. rewrite (bool_decide_false _ Hf), (bool_decide_false _ Hg), (bool_decide_false _ Hl), Hs.
  cbn [orb]. clear. repeat (case_match; [split; discriminate|]). by split.
Qed.
Lemma released_observed code : target_was_released code (phase_for_code code) = true →
  target_was_observed code (phase_for_code code) = true.
Proof.
  destruct (decide (code = "MCSEALED-TARGET-WAIT"%string)) as [->|N1]; [vm_compute; done|].
  destruct (decide (code = "MCSEALED-AUTHORIZATION-RECORD"%string)) as [->|N2]; [vm_compute; done|].
  destruct (decide (code = FRONTEND_AFTER)) as [->|N3]; [vm_compute; done|].
  destruct (decide (code = GUARDIAN_AFTER)) as [->|N4]; [vm_compute; done|].
  destruct (decide (code = "MCSEALED-TARGET-EXEC-STATUS"%string)) as [->|N5]; [vm_compute; done|].
  unfold target_was_released, target_was_observed. rewrite !bool_decide_false by done. cbn [orb].
  intros Hp. destruct (starts INIT_PREFIX code && (code ≠? INIT_REAP_DELAY)) eqn:E.
  - apply andb_true_iff in E as [Hs Hd]. bool_hyps. destruct (phase_init code Hs) as [G1 G2]; [done|].
    apply orb_true_iff in Hp as [Hp|Hp]; by bool_hyps.
  - rewrite (bool_decide_false _ N1). cbn [orb]. apply bool_decide_eq_true. apply orb_true_iff in Hp as [Hp|Hp]; bool_hyps; rewrite Hp; set_solver.
Qed.

(** ** A rejection the front end takes *)
Section Delivery.
Context `{EvidenceTypes}.

Lemma attempted_or_default r : contradictory_cleanup (rx_cleanup r) = false →
  cu_attempted (rx_cleanup r) || (rj_restart_safety (project r) ≟ RestartSafetyProof_default) = true.
Proof.
  unfold contradictory_cleanup, project. destruct (rx_cleanup r) as [[] dir emp hel rem ret errs]; [done|]. cbn.
  intros Hc. bool_hyps. subst. vm_compute. reflexivity.
Qed.
Lemma retired_is_safe r : incomplete_retirement (rx_cleanup r) = false →
  negb (rsp_sealed_boundary_retired (rj_restart_safety (project r))) || is_safe_for (rj_restart_safety (project r)) Sealed = true.
Proof.
  unfold incomplete_retirement, project, is_safe_for. destruct (rx_cleanup r) as [att dir emp hel rem [] errs]; [|done]. cbn.
  intros Hc. bool_hyps. by subst.
Qed.
Lemma errors_bounded_same errors : cleanup_errors_bounded errors = true →
  forallb (λ error, (str_len error <=? 1024) && negb (str_contains NUL error)) errors = true.
Proof.
  unfold cleanup_errors_bounded. induction errors as [|e errors IH]; [done|]. cbn [forallb]. rewrite !andb_true_iff.
  intros [He Hb]. rewrite negb_orb, <- N.leb_antisym in He. apply andb_true_iff in He. by split; [|apply IH].
Qed.
Lemma wire_consistent r : wire_validate r = Ok () → rx_workload_admission r = None →
  rejection_is_consistent (project r) = true.
Proof.
  intros Hw Ha. unfold wire_validate in Hw. run_ok.
  pose proof (attempted_or_default r ltac:(eassumption)) as Hd. pose proof (retired_is_safe r ltac:(eassumption)) as Hs.
  unfold valid_code in *. bool_hyps. unfold rejection_is_consistent. cbn [project rj_workload_admission]. rewrite Ha.
  cbn [is_none_or]. bool_goal; try done.
  - cbn. by destruct (rx_target_released r), (rx_target_created r).
  - apply Nat.leb_le. cbn. match goal with Hk : N.of_nat _ <= 16 |- _ => clear - Hk; lia end.
  - by apply errors_bounded_same.
Qed.

(** The checks on a receipt whose text is clean and whose code is valid. *)
Lemma receipt_validates r :
  rx_schema_version r = 1 → valid_code (rx_code r) = true → clean (rx_detail r) → str_len (rx_detail r) <= MAX_DETAIL_BYTES →
  (rx_target_released r = true → rx_target_created r = true) →
  (length (cu_errors (rx_cleanup r)) <= 16)%nat → cleanup_errors_bounded (cu_errors (rx_cleanup r)) = true →
  contradictory_cleanup (rx_cleanup r) = false → incomplete_retirement (rx_cleanup r) = false →
  wire_validate r = Ok () ∧
  (expected_fault (rx_code r) = None ∨
   (expected_fault (rx_code r) = Some (rx_phase r, rx_target_created r, rx_target_released r) ∧
    cu_sealed_boundary_retired (rx_cleanup r) = true) → rejection_validate r = Ok ()).
Proof.
  intros Hv Hc [Hne Hn] Hl Hr Hk Hb Hx Hi. unfold wire_validate, rejection_validate. rewrite Hx, Hi, Hv, Hc, Hn, Hb.
  assert (rx_target_released r && negb (rx_target_created r) = false) as ->.
  { destruct (rx_target_released r); [by rewrite Hr|done]. }
  assert ((8 * 1024 <? str_len (rx_detail r)) = false) as E1 by (apply N.ltb_ge; exact Hl).
  assert ((16 <? N.of_nat (length (cu_errors (rx_cleanup r)))) = false) as E2 by (apply N.ltb_ge; lia).
  assert (str_is_empty (rx_detail r) = false) as E3 by (by destruct (rx_detail r)).
  unfold MAX_DETAIL_BYTES, MAX_CLEANUP_ERRORS. rewrite E1, E2, E3. split; [done|].
  intros [->|[-> ->]]; [done|]. cbn. by rewrite bool_decide_true by reflexivity.
Qed.

Lemma cleanup_evidence_ok record_absent boundary_absent phase :
  let c := cleanup_evidence record_absent boundary_absent phase in
  (length (cu_errors c) <= 16)%nat ∧ cleanup_errors_bounded (cu_errors c) = true ∧
  contradictory_cleanup c = false ∧ incomplete_retirement c = false ∧
  (cu_sealed_boundary_retired c = true → record_absent = true ∧ boundary_absent = true).
Proof.
  cbv zeta. unfold cleanup_evidence. case_bool_decide; [repeat split; [cbn; lia|discriminate..]|].
  destruct record_absent, boundary_absent; repeat split; first [cbn; lia|discriminate].
Qed.
Lemma exact_loss_some error code phase released : exact_loss error = Some (code, phase, released) →
  code_or_default code = code ∧ valid_code code = true ∧ expected_fault code = Some (phase, true, released).
Proof.
  unfold exact_loss. repeat (case_match; [intros [= <- <- <-]; repeat split; vm_compute; reflexivity|]). done.
Qed.

Definition delivered (r : RejectionV1) : Prop :=
  rejection_validate r = Ok () ∧ wire_validate r = Ok () ∧ into_evidence r = Ok (project r).
Lemma into_evidence_ok r : wire_validate r = Ok () → rx_workload_admission r = None → into_evidence r = Ok (project r).
Proof. intros Hw Ha. unfold into_evidence. rewrite Hw. cbn [mbind result_bind]. by rewrite wire_consistent. Qed.

Lemma loss_delivered error code phase released : clean error → exact_loss error = Some (code, phase, released) →
  ∃ r, from_launch_facts code phase error true released retired_cleanup = Ok r ∧ delivered r ∧
       rx_code r = code ∧ rx_target_created r = true ∧ rx_target_released r = released ∧
       cu_sealed_boundary_retired (rx_cleanup r) = true.
Proof.
  intros Hc (Ed & Hv & Hf)%exact_loss_some. unfold from_launch_facts. rewrite Ed.
  destruct (bounded_text_ok error MAX_DETAIL_BYTES) as [Hx Hl]; [vm_compute; discriminate|done|].
  set (r := {| rx_code := code |}).
  destruct (receipt_validates r) as [Hw Hr]; [done..|cbn; lia|done|done|done|].
  specialize (Hr ltac:(right; split; [exact Hf|done])). rewrite Hr. exists r. split; [done|].
  split; [|done]. split; [done|]. split; [done|]. by apply into_evidence_ok.
Qed.

Lemma error_delivered record_absent boundary_absent error : clean error → exact_loss error = None →
  delivered (from_launch_error record_absent boundary_absent error).
Proof.
  intros Hc He. set (r := from_launch_error _ _ _).
  destruct (bounded_text_ok error MAX_DETAIL_BYTES) as [Hx Hl]; [vm_compute; discriminate|done|].
  destruct (cleanup_evidence_ok record_absent boundary_absent (phase_for_code (stable_code error))) as (G1 & G2 & G3 & G4 & _).
  destruct (receipt_validates r) as [Hw Hr]; [done|apply stable_code_valid|done|done|apply released_observed|done..|].
  split; [apply Hr; left; by apply exact_loss_none|]. split; [done|]. by apply into_evidence_ok.
Qed.

(** When the evidence lets a sealed workload be restarted. *)
Lemma safe_iff_retired r : incomplete_retirement (rx_cleanup r) = false →
  is_safe_for (rj_restart_safety (project r)) Sealed = true ↔ cu_sealed_boundary_retired (rx_cleanup r) = true.
Proof.
  intros Hi%retired_is_safe. change (cu_sealed_boundary_retired (rx_cleanup r)) with (rsp_sealed_boundary_retired (rj_restart_safety (project r))).
  split; [|by intros E; rewrite E in Hi]. unfold is_safe_for. intros Hs. bool_hyps.
  by destruct (rsp_sealed_boundary_retired _).
Qed.
Lemma wire_retirement r : wire_validate r = Ok () → incomplete_retirement (rx_cleanup r) = false.
Proof. unfold wire_validate. intros Hw. by run_ok. Qed.
Lemma cleanup_retired_iff record_absent boundary_absent phase :
  cu_sealed_boundary_retired (cleanup_evidence record_absent boundary_absent phase) = true ↔
  phase ≠ RP_RequestValidation ∧ record_absent = true ∧ boundary_absent = true.
Proof. unfold cleanup_evidence. case_bool_decide; cbn; [naive_solver|]. rewrite andb_true_iff. naive_solver. Qed.

Context `{SerdeJson} `{Serialize RejectionV1} `{Deserialize RejectionV1}.
(** What serde_json does to a receipt: the line it writes reads back, with unique keys, within the public bound. *)
Definition serde_keeps (r : RejectionV1) : Prop :=
  ∃ p, to_vec r = Ok p ∧ from_slice (p ++ [LF]) = Ok r ∧ reject_duplicate_json_keys (p ++ [LF]) = Ok () ∧
       N.of_nat (length p) < PUBLIC_OBJECT_BYTES.
Lemma encode_parses r : delivered r → serde_keeps r →
  ∃ line, rejection_encode r = Ok line ∧ parse_evidence line = Ok (project r).
Proof.
  intros (Hv & Hw & He) (p & Ep & Er & Ek & Hl). exists (p ++ [LF]). unfold rejection_encode, parse_evidence, wire_parse.
  rewrite Hv, Hw, Ep. cbn [mbind result_bind map_err]. unfold PUBLIC_OBJECT_BYTES in Hl.
  assert (over MAX_FRAME_LENGTH (p ++ [LF]) = false) as -> by (apply N.ltb_ge; rewrite length_app; cbn; unfold MAX_FRAME_LENGTH; lia).
  assert (over PUBLIC_OBJECT_BYTES (p ++ [LF]) = false) as ->
    by (apply N.ltb_ge; rewrite length_app; cbn; unfold PUBLIC_OBJECT_BYTES; lia).
  split; [done|]. rewrite bool_decide_false by (by destruct p). cbn [orb guard_err mbind result_bind].
  rewrite Ek. cbn [mbind result_bind]. rewrite Er. cbn [mbind result_bind]. rewrite Hw. exact He.
Qed.

(** C18: for a launch error that is not empty and has no NUL, the provider's
    rejection is built without a panic, passes both of its own checks, and is
    evidence the front end accepts.  The rejection never says that a target was
    released that was not created.  Its evidence makes a sealed restart safe
    exactly when the error is one of the four peer losses, whose retirement was
    proved, or when its code belongs to a phase after request validation and the
    launch left neither its record nor its boundary behind; an error of request
    validation that is no peer loss never makes a restart safe.  Provided that serde_json writes the
    rejection within the object limit and reads it back, the encoded line parses
    to the projection of what was built. *)
Theorem rejection_delivered record_absent boundary_absent error : clean error →
  ∃ r, rejection_for_launch_error record_absent boundary_absent error = Some r ∧
    (rx_target_released r = true → rx_target_created r = true) ∧
    into_evidence r = Ok (project r) ∧
    (is_safe_for (rj_restart_safety (project r)) Sealed = true ↔
     is_Some (exact_loss error) ∨
     (phase_for_code (stable_code error) ≠ RP_RequestValidation ∧ record_absent = true ∧ boundary_absent = true)) ∧
    (serde_keeps r → ∃ line, rejection_encode r = Ok line ∧ parse_evidence line = Ok (project r)).
Proof.
  intros Hc. unfold rejection_for_launch_error. destruct (exact_loss error) as [[[code phase] released]|] eqn:E.
  - destruct (loss_delivered _ _ _ _ Hc E) as (r & -> & Hd & _ & Hcr & _ & Hret). exists r. split; [done|]. split; [done|].
    split; [apply Hd|]. split; [|by apply encode_parses]. rewrite safe_iff_retired by apply wire_retirement, Hd.
    split; [by left; eexists|done].
  - pose proof (error_delivered record_absent boundary_absent error Hc E) as Hd. eexists. split; [done|].
    split; [apply released_observed|]. split; [apply Hd|]. split; [|by apply encode_parses].
    rewrite safe_iff_retired by apply wire_retirement, Hd. cbn [rx_cleanup from_launch_error]. rewrite cleanup_retired_iff.
    split; [by right|]. intros [[? ?]|?]; done.
Qed.
End Delivery.

(** ** A concrete rejection *)
Module RejectionExamples.
Import SupervisionExamples.
Definition failure : string := "MCSEALED-MEMORY-LIMIT: the workload's memory limit could not be read back".
Definition sample : RejectionV1 := from_launch_error true true failure.
#[local] Instance one_object : SerdeJson := {| json_of := λ _, Ok (JObject []) |}.
#[local] Instance writes_sample : Serialize RejectionV1 := {| to_chunks := λ _, Ok [bytes "{}"] |}.
#[local] Instance reads_sample : Deserialize RejectionV1 := {| from_slice := λ _, Ok sample |}.

(** A launch that failed at its memory limit and left nothing behind. *)
Lemma rejection_delivered_witness :
  rx_phase sample = RP_Monitoring ∧ is_safe_for (rj_restart_safety (project sample)) Sealed = true ∧
  ∃ line, rejection_encode sample = Ok line ∧ parse_evidence line = Ok (project sample).
Proof.
  split; [vm_compute; reflexivity|].
  destruct (rejection_delivered true true failure) as (r & Er & _ & _ & Hs & Hd); [split; [discriminate|vm_compute; reflexivity]|].
  assert (rejection_for_launch_error true true failure = Some sample) as E by (vm_compute; reflexivity).
  rewrite E in Er. injection Er as <-. split.
  - apply Hs. right. split; [vm_compute; discriminate|by split].
  - apply Hd. exists (bytes "{}"). split; [reflexivity|]. split; [reflexivity|]. split; vm_compute; reflexivity.
Defined.
End RejectionExamples.
