(* ===== verification/Supervisor.v ===== *)
(** * The platform supervisor

    memcordon-platform/src/supervisor.rs and the types of backend.rs: the loop that
    runs attempts, asks the restart coordinator after each, waits, and ends with an
    execution record.  Everything the operating system answers (the clocks, an
    interrupted wait, the result of an attempt) comes from a [Host], so the theorems
    hold for every behaviour of the platform back ends. *)

From S2P Require Import Prelude Decimal Bounded Codec Diagnostics WorkloadContract Policy Outcome Safety Float64 Restart Coordinator Registry RuntimeEvidence PrivateRuntime Boundary WorkloadEvidence ErrorRecord WindowsReceipts Errors Supervision.
From Stdlib Require Import Ascii.
#[local] Open Scope N_scope.

(** ** Back ends *)

Record BoundaryReadiness : Type := { rd_provider_identity : string; rd_mechanism : string }.
Inductive SealedAvailability : Type :=
| SealedAvailable (capability : BoundaryCapability) (observation : BoundaryReadiness)
| SealedUnavailable (reason : string) (prerequisites : list string).
Record BoundarySupport : Type := { bs_standard : BoundaryCapability; bs_sealed : SealedAvailability }.
Record BackendInfo : Type := {
  bi_name : string;
  bi_containment_supported : bool;
  bi_memory_supported : bool;
  bi_class : string;
  bi_metric : string;
  bi_hard_limit : bool;
  bi_startup_containment : string;
  bi_limitations : list string;
  bi_boundary_support : BoundarySupport
}.
Definition supports_boundary (self : BackendInfo) (requirement : BoundaryRequirement) : bool :=
  match requirement with
  | Standard => bc_class (bs_standard (bi_boundary_support self)) ≠? Class_Unavailable
  | Sealed => match bs_sealed (bi_boundary_support self) with SealedAvailable _ _ => true | _ => false end
  end.

Record ProbeReport : Type := { pr_selected : option BackendInfo; pr_available : list BackendInfo }.
Definition selected_for (self : ProbeReport) (requirement : BoundaryRequirement) : option BackendInfo :=
  match pr_selected self with
  | Some backend =>
      if supports_boundary backend requirement then Some backend
      else find (λ b, supports_boundary b requirement) (pr_available self)
  | None => find (λ b, supports_boundary b requirement) (pr_available self)
  end.

Inductive Platform : Type := Linux | Macos | Windows | OtherUnix | OtherPlatform.
#[global] Instance Platform_eq_dec : EqDecision Platform.
Proof. solve_decision. Defined.
Definition launch_mechanism (platform : Platform) : string :=
  match platform with
  | Linux => "installed-cli-launcher-release-gate"
  | Macos => "process-group-pre-spawn"
  | Windows => "suspended-process-job-assignment"
  | OtherUnix => "unsupported-unix"
  | OtherPlatform => "unsupported-platform"
  end.
Definition deadline_origin (platform : Platform) : string :=
  match platform with
  | Linux => "installed-cli-release-byte"
  | Macos => "pre-spawn"
  | Windows => "suspended-thread-resume"
  | OtherUnix | OtherPlatform => "unsupported"
  end.

Definition BoundaryCapability_default : BoundaryCapability :=
  {| bc_class := Class_Standard; bc_mechanism := ""; bc_target_gated := false;
     bc_boundary_verified_before_authorization := false; bc_target_can_reconfigure_boundary := false;
     bc_frontend_loss_cleanup_authority := false; bc_workload_empty_proof := false; bc_limitations := [] |}.
Definition unavailable_boundary (mechanism : string) (limitations : list string) : BoundaryCapability :=
  {| bc_class := Class_Unavailable; bc_mechanism := mechanism;
     bc_target_gated := bc_target_gated BoundaryCapability_default;
     bc_boundary_verified_before_authorization :=
       bc_boundary_verified_before_authorization BoundaryCapability_default;
     bc_target_can_reconfigure_boundary := bc_target_can_reconfigure_boundary BoundaryCapability_default;
     bc_frontend_loss_cleanup_authority := bc_frontend_loss_cleanup_authority BoundaryCapability_default;
     bc_workload_empty_proof := bc_workload_empty_proof BoundaryCapability_default;
     bc_limitations := limitations |}.

Definition supported_status (supported : bool) (reason : option string) : CapabilityStatusReport :=
  {| cs_supported := supported; cs_reason := reason |}.

Definition capabilities_for (platform : Platform) (info : BackendInfo) (requirement : BoundaryRequirement)
    : BackendCapabilityReport :=
  let sealed_unavailable :=
    match bs_sealed (bi_boundary_support info) with
    | SealedAvailable _ _ => None
    | SealedUnavailable reason prerequisites =>
        Some {| su_reason := reason; su_prerequisites := prerequisites |}
    end in
  let boundary :=
    match requirement, bs_sealed (bi_boundary_support info) with
    | Standard, _ => bs_standard (bi_boundary_support info)
    | Sealed, SealedAvailable capability _ => capability
    | Sealed, SealedUnavailable reason prerequisites =>
        unavailable_boundary "sealed-provider-unavailable"
          (reason :: ((λ value, "prerequisite: " +:+ value) <$> prerequisites))
    end in
  {| br_name := bi_name info;
     br_containment := supported_status (bi_containment_supported info) None;
     br_boundary := boundary;
     br_memory := Some {| mc_supported := bi_memory_supported info; mc_class := bi_class info;
                          mc_metric := bi_metric info; mc_reason := None |};
     br_deadline := supported_status true None;
     br_restart := supported_status true None;
     br_deadline_scopes := [Attempt; Supervision];
     br_deadline_origin := Some (deadline_origin platform);
     br_restart_conditions := Conditions_BOTH;
     br_persistent_restart_state := false;
     br_startup_containment := bi_startup_containment info;
     br_restart_cleanup_condition :=
       "direct child and helpers reaped, workload empty, containment removed or inert";
     br_limitations := bi_limitations info;
     br_boundary_qualification := None;
     br_sealed_unavailable := sealed_unavailable |}.

Definition unsupported_capability : BackendCapabilityReport :=
  {| br_name := "unresolved";
     br_containment := supported_status false (Some "attempt setup failed before backend selection"%string);
     br_boundary := unavailable_boundary "unavailable" ["certified sealed supervision is unavailable"%string];
     br_memory := None;
     br_deadline := supported_status false None;
     br_restart := supported_status false None;
     br_deadline_scopes := []; br_deadline_origin := None; br_restart_conditions := Conditions_NONE;
     br_persistent_restart_state := false; br_startup_containment := "";
     br_restart_cleanup_condition := ""; br_limitations := []; br_boundary_qualification := None;
     br_sealed_unavailable := None |}.

Definition watchdog_metric (metric : Metric) : string :=
  match metric with
  | Native | PhysicalFootprint => "physical-footprint-sum"
  | Rss => "rss-sum"
  | Virtual => "virtual-size-sum"
  end.
Definition selected_backend_for_metric (selected : BackendCapabilityReport) (metric : Metric)
    : BackendCapabilityReport :=
  if metric ≟ Native then selected
  else match br_memory selected with
  | Some memory =>
      if mc_class memory ≟ "watchdog"%string
      then set_memory (Some (set_metric (watchdog_metric metric) memory)) selected
      else selected
  | None => selected
  end.
Definition backend_selection_drift_fields (selected observed : BackendCapabilityReport) (metric : Metric)
    : list string :=
  backend_capability_mismatched_fields (selected_backend_for_metric selected metric) observed.

(** ** The evidence of a standard attempt *)

Definition standard_boundary_support (mechanism : string) (containment_supported : bool)
    (sealed_reason : string) (prerequisites : list string) : BoundarySupport :=
  {| bs_standard :=
       {| bc_class := Class_Standard; bc_mechanism := mechanism; bc_target_gated := containment_supported;
          bc_boundary_verified_before_authorization := containment_supported;
          bc_target_can_reconfigure_boundary := true; bc_frontend_loss_cleanup_authority := false;
          bc_workload_empty_proof := containment_supported;
          bc_limitations := ["standard supervision is not a sealed boundary"%string] |};
     bs_sealed := SealedUnavailable sealed_reason prerequisites |}.

Record StandardLaunchFacts : Type := {
  lf_target_released : bool;
  lf_containment_verified_before_authorization : bool;
  lf_guardian_started_before_authorization : bool
}.
Definition gated_target : StandardLaunchFacts :=
  {| lf_target_released := false; lf_containment_verified_before_authorization := false;
     lf_guardian_started_before_authorization := false |}.
Definition contained_spawn_completed : StandardLaunchFacts :=
  {| lf_target_released := true; lf_containment_verified_before_authorization := true;
     lf_guardian_started_before_authorization := false |}.
Definition record_containment_before_authorization (self : StandardLaunchFacts) : StandardLaunchFacts :=
  {| lf_target_released := lf_target_released self; lf_containment_verified_before_authorization := true;
     lf_guardian_started_before_authorization := lf_guardian_started_before_authorization self |}.
(** A guardian counts only if it started before the release. *)
Definition record_guardian_spawn_completed (self : StandardLaunchFacts) : StandardLaunchFacts :=
  {| lf_target_released := lf_target_released self;
     lf_containment_verified_before_authorization := lf_containment_verified_before_authorization self;
     lf_guardian_started_before_authorization := negb (lf_target_released self) |}.
Definition record_authorization_released (self : StandardLaunchFacts) : StandardLaunchFacts :=
  {| lf_target_released := true;
     lf_containment_verified_before_authorization := lf_containment_verified_before_authorization self;
     lf_guardian_started_before_authorization := lf_guardian_started_before_authorization self |}.

Record BackendCleanupFacts : Type := {
  cf_direct_child_reaped : bool;
  cf_workload_empty : option bool;
  cf_helpers_reaped : bool;
  cf_containment_removed : bool;
  cf_containment_incapable_of_live_members : bool;
  cf_errors : list string
}.

Definition standard_execution_evidence (backend : BackendInfo) (launch : StandardLaunchFacts)
    (facts : BackendCleanupFacts) : LaunchEvidence * RestartSafetyProof * BoundaryMechanismEvidence :=
  ({| ln_mechanism := bc_mechanism (bs_standard (bi_boundary_support backend));
      ln_target_released := lf_target_released launch;
      ln_containment_verified_before_authorization := lf_containment_verified_before_authorization launch;
      ln_guardian_started_before_authorization := lf_guardian_started_before_authorization launch;
      ln_target_spawn_error_reported := false;
      ln_boundary_requested := Standard;
      ln_boundary_effective := Class_Standard;
      ln_boundary_assignment_verified := false;
      ln_boundary_reconfiguration_denied := false;
      ln_inherited_resources_restricted := false;
      ln_frontend_loss_cleanup_authority_verified := false |},
   {| rsp_direct_child_reaped := cf_direct_child_reaped facts;
      rsp_workload_empty := cf_workload_empty facts;
      rsp_helpers_reaped := cf_helpers_reaped facts;
      rsp_containment_removed := cf_containment_removed facts;
      rsp_containment_incapable_of_live_members := cf_containment_incapable_of_live_members facts;
      rsp_sealed_boundary_retired := false;
      rsp_errors := cf_errors facts |},
   Mechanism_Standard (bi_name backend)).

(** The supervisor never refuses the boundary evidence of a standard back end
    that has a name and a mechanism. *)
Lemma standard_evidence_accepted digest json_digest backend launch facts :
  bi_name backend ≠ ""%string → bc_mechanism (bs_standard (bi_boundary_support backend)) ≠ ""%string →
  let '(l, safety, detail) := standard_execution_evidence backend launch facts in
  boundary_evidence_is_consistent digest json_digest l safety detail = true.
Proof.
  intros Hn Hm. unfold standard_execution_evidence. cbn [boundary_evidence_is_consistent ln_mechanism
    ln_boundary_requested ln_boundary_effective rsp_sealed_boundary_retired].
  destruct (bi_name backend); [done|]. by destruct (bc_mechanism _).
Qed.

(** ** Requests, attempts and the host *)

Section Supervisor.
Context `{Externals} (exp2 : f64 → f64) (platform : Platform).

Record SupervisorRequest : Type := {
  rq_policy : Policy;
  rq_restart : RestartPolicy;
  rq_command : CommandSpec;
  rq_memcordon_executable : option string;
  rq_resolved_backend : option BackendCapabilityReport
}.

Record Execution : Type := {
  xe_private_execution : option PrivateRuntimeExecution;
  xe_policy_enforcement : WorkloadEvidence.RuntimePolicyEnforcement;
  xe_outcome : RunOutcome;
  xe_backend : BackendInfo;
  xe_child_pid : option N;
  xe_runtime : option RuntimeEvidenceV1;
  xe_duration : Duration;
  xe_authorization_offset : option Duration;
  xe_launch : LaunchEvidence;
  xe_restart_safety : RestartSafetyProof;
  xe_boundary_detail : BoundaryMechanismEvidence
}.
Record AttemptExecution : Type := {
  ax_execution : Execution;
  ax_launch : LaunchEvidence;
  ax_restart_safety : RestartSafetyProof
}.
Record AttemptContext : Type := {
  cx_macos_run_origin_ns : option N;
  cx_macos_work_expires_ns : option N;
  cx_restart_attempt : N;
  cx_supervision_offset : Duration;
  cx_supervision_deadline_remaining : option Duration
}.

(** An instant is the time since the clock's epoch. *)
Definition Instant : Type := Duration.
Record io_error : Type := { io_text : string; io_raw_os_error : option Z }.

(** Which back end runs an attempt. *)
Inductive route : Type :=
| PrivateClient (contract : WorkloadContractV2) | SealedClient | Cgroup (helper : string)
| MacosWatchdog (helper : string) | UnixWatchdog | SealedWindows | WindowsJob.

Record Host (W : Type) : Type := {
  h_now : W → W * Instant;
  h_continuous_nanos : W → W * result string N;
  h_signal_take : W → W * bool;
  h_launch_runtime : W → W * result io_error ();
  h_install : W → W * result io_error ();
  h_finish : W → W * result io_error ();
  h_wait : Duration → W → W * result io_error (option Z);
  h_run : route → SupervisorRequest → AttemptContext → W → W * result Error Execution
}.

(** How the supervisor ends without a record: an error, or a panic. *)
Inductive failure : Type := Failed (error : Error) | Panicked (message : string).

(** ** Pure parts *)

Definition millis (duration : Duration) : N := N.min (as_millis duration) u64_max.

(** [Display] of the errors; the candidate a rejection prints for people is left out. *)
Definition controller_error_text (error : RestartControllerError) : string :=
  match error with
  | NoEffectiveCondition => "restart policy has no effective condition"
  | InvalidConditions => "restart configured, effective, and dormant conditions are inconsistent"
  | InvalidBackoff => "invalid half-life logistic backoff policy"
  | BackoffRange => "half-life logistic backoff arithmetic is out of range"
  | BackoffTimeReversed => "backoff event time moved backward"
  | InvalidCircuit => "invalid circuit breaker policy"
  | Restart.CounterRange => "restart counter is out of range"
  | InvalidTransition => "restart wait state was not respected"
  end.
Definition controller_error (error : RestartControllerError) : Error :=
  Error_new Monitor "MCRESTART-CONTROLLER" (controller_error_text error).
Definition model_error_text (error : SupervisionModelError) : string :=
  match error with
  | CounterRange => "supervision counter is out of range"
  | AttemptNumber => "attempt numbers must be nonzero and strictly consecutive"
  | InconsistentExecution => "supervision terminal, attempts, aggregates, or counters are inconsistent"
  | RejectedExecution invariant => "supervision invariant failed: " +:+ invariant
  end.
Definition model_error (error : SupervisionModelError) : Error :=
  Error_new Monitor "MCRESTART-MODEL" (model_error_text error).
Definition counter_error : Error :=
  Error_new Monitor "MCRESTART-COUNTER-RANGE" "supervision counter exhausted".
Definition clock_error (message : string) : Error := Error_new Setup "MCSETUP-CLOCK" message.

Definition validate_resolved_backend (request : SupervisorRequest)
    : result Error (option BackendCapabilityReport) :=
  guard_err (is_some (p_workload_contract (rq_policy request))
             && (p_boundary (rq_policy request) ≠? Sealed))
    (Error_new Unsupported "MCWORKLOAD-SEALED-REQUIRED"
       "a strict workload contract requires sealed supervision") ;;
  match rq_resolved_backend request with
  | None =>
      if p_boundary (rq_policy request) ≠? Sealed then Ok None
      else
        let restart_safety := RestartSafetyProof_default in
        Err (with_boundary_setup_failure
               {| bf_requested := Sealed; bf_mechanism := None; bf_phase := ProviderConnection;
                  bf_target_created := false; bf_target_released := false; bf_cleanup_attempted := false;
                  bf_restart_safety := restart_safety |}
               (with_restart_safety restart_safety
                  (Error_new Unsupported "MCBOUNDARY-UNSUPPORTED"
                     "certified sealed supervision was not resolved before launch; the target was not authorized")))
  | Some backend =>
      let expected := match p_boundary (rq_policy request) with
                      | Standard => Class_Standard | Sealed => Class_Sealed end in
      guard_err (str_is_empty (br_name backend) || (bc_class (br_boundary backend) ≠? expected))
        (Error_new Setup "MCBACKEND-SELECTION-MISMATCH"
           "resolved backend does not satisfy the requested boundary") ;;
      Ok (Some backend)
  end.

Definition is_release_issued (release : ReleaseEvidence) : bool :=
  match release with ReleaseIssued _ _ => true | _ => false end.

Definition runtime_disagrees (execution : Execution) (runtime : RuntimeEvidenceV1) : bool :=
  negb (runtime_is_consistent runtime)
  || (re_target_pid runtime ≠? xe_child_pid execution)
  || negb (Bool.eqb (is_release_issued (re_release runtime)) (ln_target_released (xe_launch execution))).

Definition validate_backend_execution (execution : Execution) : result Error () :=
  guard_err
    (negb (Bool.eqb (ln_target_released (xe_launch execution)) (is_some (xe_authorization_offset execution)))
     || (ln_target_released (xe_launch execution) && is_none (xe_child_pid execution))
     || is_some_and (runtime_disagrees execution) (xe_runtime execution))
    (Error_new Monitor "MCRESTART-AUTHORIZATION-EVIDENCE"
       "backend release, target identity, and runtime evidence disagree") ;;
  guard_err
    (negb (boundary_evidence_is_consistent sha256_hash plan_digest_of_json (xe_launch execution)
             (xe_restart_safety execution) (xe_boundary_detail execution)))
    (Error_new Monitor "MCBOUNDARY-EVIDENCE"
       "backend returned contradictory launch or retirement evidence").

Definition attempt_execution (execution : Execution) : result Error AttemptExecution :=
  validate_backend_execution execution ;;
  Ok {| ax_execution := execution; ax_launch := xe_launch execution;
        ax_restart_safety := xe_restart_safety execution |}.

Definition supervision_remaining (policy : Policy) (origin : option Duration) (elapsed : Duration)
    : option Duration :=
  origin ← origin;
  deadline ← p_deadline policy;
  if dp_scope deadline ≟ Supervision then Some (dp_duration deadline - (elapsed - origin)) else None.

(** [origin + deadline.duration()] panics past the range of a duration. *)
Definition outside_deadline_evidence (policy : Policy) (origin : option Duration) (observed : Duration)
    (terminal_phase : SupervisionPhase) : result failure (option SupervisionDeadlineEvidence) :=
  match origin, p_deadline policy with
  | Some origin, Some deadline =>
      expires ← ok_or (Panicked "overflow when adding durations") (duration_checked_add origin (dp_duration deadline));
      evidence ← map_err (λ _, Failed (Error_new Monitor "MCSUPERVISION-DEADLINE-EVIDENCE"
                                          "supervision deadline evidence is inconsistent"))
        (DeadlineEvidence_new (millis (dp_duration deadline)) Supervision (deadline_origin platform)
           (millis expires) (millis (N.max observed expires)) (millis (p_limit_grace policy)) 0 None None);
      Ok (Some {| sd_evidence := evidence; sd_terminal_phase := terminal_phase |})
  | _, _ => Ok None
  end.

Definition restart_condition (outcome : RunOutcome) : option RestartCondition :=
  match outcome with
  | LimitExceeded _ _ _ _ _ _ => Some Condition_MemoryLimit
  | DeadlineExceeded deadline _ _ _ =>
      if de_scope deadline ≟ Attempt then Some Condition_Deadline else None
  | _ => None
  end.

(** [format!("{:?}", category).to_ascii_lowercase()] *)
Definition category_text (category : ErrorCategory) : string :=
  match category with
  | Usage => "usage" | Unsupported => "unsupported" | Setup => "setup" | Spawn => "spawn"
  | Monitor => "monitor" | Wait => "wait" | Termination => "termination" | Cleanup => "cleanup"
  | Report => "report"
  end.

Definition error_record (error : Error) (attempt_number : option N) (phase : SupervisionPhase)
    (kind : AttemptKind) : SupervisionErrorRecord :=
  {| er_native_startup := e_native_startup error : option ErrorRecord.NativeStartupDiagnosticV1;
     er_category := category_text (e_category error);
     er_code := e_code error;
     er_message := e_message error;
     er_os_code := e_os_code error;
     er_attempt_number := attempt_number;
     er_supervision_phase := phase;
     er_launch_phase := e_launch_phase error;
     er_target_released := e_target_released error;
     er_workload_may_be_alive := e_workload_may_be_alive error;
     er_initial_spawn_failure := if kind ≟ Kind_Initial then e_initial_spawn_failure error else None;
     er_provider_rejection := e_provider_rejection error;
     er_backend_selection_drift := None |}.

Definition proof_from_error (error : Error) : RestartSafetyProof :=
  match e_restart_safety error with
  | Some proof => proof
  | None =>
      {| rsp_direct_child_reaped := false; rsp_workload_empty := None; rsp_helpers_reaped := false;
         rsp_containment_removed := false; rsp_containment_incapable_of_live_members := false;
         rsp_sealed_boundary_retired := false;
         rsp_errors := [e_code error +:+ ": setup failure has no complete backend resource proof"] |}
  end.

Definition windows_failed_execution_detail (error : Error) : option BoundaryMechanismEvidence :=
  failure ← from_error error;
  if negb (is_ok (operational_failure_validate failure)) then None
  else
    rejection ← e_windows_provider_rejection_v2 error;
    if negb (rejection_v2_is_consistent sha256_hash plan_digest_of_json rejection) then None
    else
      receipt ← terminal_receipt rejection;
      match r2_payload receipt with
      | Payload_Execution pid _ authorization_offset_millis _ detail =>
          if (e_target_pid error ≠? Some pid) || negb (e_target_released error) then None
          else if e_authorization_offset error ≠? Some (from_millis authorization_offset_millis) then None
          else match detail with WindowsJobObjectV2 _ => Some detail | _ => None end
      | Payload_RecoveredClosure _ _ _ => None
      end.

Definition nonempty (s : string) : option string := if str_is_empty s then None else Some s.
Definition backend_mechanism (backend : option BackendCapabilityReport) : option string :=
  bc_mechanism ∘ br_boundary <$> backend.

Definition launch_from_error (error : Error) (requested : BoundaryRequirement)
    (backend : option BackendCapabilityReport) : LaunchEvidence :=
  let mechanism := default (launch_mechanism platform) (backend_mechanism backend ≫= nonempty) in
  let is_sealed := requested ≟ Sealed in
  match is_sealed, windows_failed_execution_detail error with
  | true, Some (WindowsJobObjectV2 native) =>
      {| ln_mechanism := "windows-job-object-v2";
         ln_target_released := ws_target_released native;
         ln_containment_verified_before_authorization :=
           ws_job_created native && ws_job_limits_verified native && ws_kill_on_close_verified native
           && ws_completion_port_associated native && ws_target_still_suspended_during_verification native;
         ln_guardian_started_before_authorization := ws_guardian_ready native;
         ln_target_spawn_error_reported := ws_target_created_suspended native;
         ln_boundary_requested := requested;
         ln_boundary_effective := if ws_target_released native then Class_Sealed else Class_Unavailable;
         ln_boundary_assignment_verified :=
           ws_job_list_applied_at_creation native && ws_target_job_membership_verified native;
         ln_boundary_reconfiguration_denied := ws_breakaway_denied native && ws_kill_on_close_verified native;
         ln_inherited_resources_restricted :=
           ws_handle_list_applied_at_creation native && ws_inherited_handles_verified native;
         ln_frontend_loss_cleanup_authority_verified :=
           ws_guardian_ready native && ws_kill_on_close_verified native |}
  | _, _ =>
      {| ln_mechanism := mechanism;
         ln_target_released := e_target_released error;
         ln_containment_verified_before_authorization := e_cgroup_verified_before_release error;
         ln_guardian_started_before_authorization := e_guardian_ready_before_release error;
         ln_target_spawn_error_reported := e_launch_phase error ≟ Some "target-spawn-failed"%string;
         ln_boundary_requested := requested;
         ln_boundary_effective :=
           if e_target_released error && is_sealed then Class_Sealed
           else if is_sealed then Class_Unavailable else Class_Standard;
         ln_boundary_assignment_verified := is_sealed && e_cgroup_verified_before_release error;
         ln_boundary_reconfiguration_denied := is_sealed && e_cgroup_verified_before_release error;
         ln_inherited_resources_restricted := is_sealed && e_cgroup_verified_before_release error;
         ln_frontend_loss_cleanup_authority_verified := is_sealed && e_guardian_ready_before_release error |}
  end.

Definition boundary_failure_detail (error : Error) (requested : BoundaryRequirement)
    (backend : option BackendCapabilityReport) : BoundaryMechanismEvidence :=
  match requested ≟ Sealed, windows_failed_execution_detail error with
  | true, Some detail => detail
  | is_sealed, _ =>
      match e_boundary_setup_failure error with
      | Some failure =>
          Mechanism_SetupFailure
            (default "unresolved-boundary-setup"%string
               (match bf_mechanism failure with Some m => Some m | None => backend_mechanism backend end))
            requested
      | None =>
          if is_sealed
          then Mechanism_SetupFailure
                 (default "unresolved-sealed-setup"%string (backend_mechanism backend ≫= nonempty)) requested
          else Mechanism_Standard (default "setup-failed-before-selection"%string (br_name <$> backend))
      end
  end.

Definition sealed_deadline_rejection_is_outside_attempt (policy : Policy) (context : AttemptContext)
    (error : Error) : bool :=
  match p_deadline policy with
  | None => false
  | Some deadline =>
      if (dp_scope deadline ≠? Supervision)
         || is_none (cx_supervision_deadline_remaining context)
         || (e_category error ≠? Setup)
         || (e_code error ≠? "MCSEALED-PROVIDER-REJECTION"%string)
         || e_target_released error
         || is_some (e_authorization_offset error)
         || e_workload_may_be_alive error
         || (e_launch_phase error ≠? Some "authorization"%string)
      then false
      else match e_provider_rejection error, e_boundary_setup_failure error with
      | Some rejection, Some failure =>
          (rj_schema_version rejection =? 1)
          && (rj_code rejection ≟ "MCSEALED-AUTHORIZATION"%string)
          && (rj_phase rejection ≟ AuthorizationPhase)
          && rj_target_created rejection
          && negb (rj_target_released rejection)
          && rj_cleanup_attempted rejection
          && is_safe_for (rj_restart_safety rejection) Sealed
          && (e_os_code error ≟ rj_os_code rejection)
          && (e_restart_safety error ≟ Some (rj_restart_safety rejection))
          && (bf_requested failure ≟ Sealed)
          && (bf_mechanism failure ≟ Some "linux-pid-namespace-cgroup-v2"%string)
          && (bf_phase failure ≟ rj_phase rejection)
          && Bool.eqb (bf_target_created failure) (rj_target_created rejection)
          && Bool.eqb (bf_target_released failure) (rj_target_released rejection)
          && Bool.eqb (bf_cleanup_attempted failure) (rj_cleanup_attempted rejection)
          && (bf_restart_safety failure ≟ rj_restart_safety rejection)
      | _, _ => false
      end
  end.

(** A recovered closure whose target was resumed has no authorization clock. *)
Definition recovered_without_clock (error : Error) : bool :=
  e_target_released error && is_none (e_authorization_offset error)
  && is_some_and (λ rejection,
       rejection_v2_is_consistent sha256_hash plan_digest_of_json rejection
       && is_some_and (λ receipt,
            match r2_payload receipt with Payload_RecoveredClosure _ _ resume_attempted => resume_attempted
            | _ => false end) (terminal_receipt rejection)) (e_windows_provider_rejection_v2 error).

(** ** One attempt *)

Context {W : Type} (host : Host W).
Definition supM (A : Type) : Type := stM W failure A.
Definition fail {A} (error : Error) : supM A := st_lift (Err (Failed error)).
Definition panic {A} (message : string) : supM A := st_lift (Err (Panicked message)).
Definition lift_failure {E A} (f : E → Error) (r : result E A) : supM A := st_lift (map_err (Failed ∘ f) r).
Definition now : supM Instant := λ w, let '(w, t) := h_now _ host w in (w, Ok t).
(** [started.elapsed()] *)
Definition elapsed (started : Instant) : supM Duration :=
  t ← now; mret (t - started).
Definition continuous_nanos : supM N := λ w,
  let '(w, r) := h_continuous_nanos _ host w in (w, map_err (Failed ∘ clock_error) r).
(** [a + b] of two durations. *)
Definition add_durations (a b : Duration) : supM Duration :=
  st_lift (ok_or (Panicked "overflow when adding durations") (duration_checked_add a b)).
Definition add_optional (a : Duration) (b : option Duration) : supM (option N) :=
  match b with
  | Some b => sum ← add_durations a b; mret (Some (millis sum))
  | None => mret None
  end.

Definition run_route (r : route) (request : SupervisorRequest) (context : AttemptContext)
    : W → W * result Error AttemptExecution := λ w,
  let '(w, execution) := h_run _ host r request context w in (w, execution ← execution; attempt_execution execution).

Definition helper_missing : Error :=
  Error_new Usage "MCUSAGE-MEMCORDON-EXECUTABLE" "Unix execution requires an explicit MemCordon helper path".
Definition unsupported_supervisor : Error :=
  Error_new Unsupported "MCUNSUPPORTED-SUPERVISOR"
    "the shared platform supervisor is unavailable on this target".

Definition run_unix_attempt (request : SupervisorRequest) (context : AttemptContext)
    : W → W * result Error AttemptExecution := λ w,
  if (platform ≟ Linux) && (p_boundary (rq_policy request) ≟ Sealed) then
    match p_private_workload_contract (rq_policy request) with
    | Some contract => run_route (PrivateClient contract) request context w
    | None => run_route SealedClient request context w
    end
  else if platform ≟ Linux then
    match rq_memcordon_executable request with
    | Some helper => run_route (Cgroup helper) request context w
    | None => (w, Err helper_missing)
    end
  else if platform ≟ Macos then
    let '(w, helper) :=
      match rq_memcordon_executable request with
      | Some helper => (w, Some helper)
      | None => let '(w, taken) := h_signal_take _ host w in (w, if taken then Some ""%string else None)
      end in
    match helper with
    | Some helper => run_route (MacosWatchdog helper) request context w
    | None => (w, Err helper_missing)
    end
  else run_route UnixWatchdog request context w.

(** The boundary alone selects the Windows route outside of certification. *)
Definition windows_standard_route_selected (boundary : BoundaryRequirement) : bool := boundary ≠? Sealed.

(** A target that is neither Unix nor Windows never gets here. *)
Definition execute_attempt (request : SupervisorRequest) (context : AttemptContext)
    : W → W * result Error AttemptExecution := λ w,
  match platform with
  | OtherPlatform => (w, Err unsupported_supervisor)
  | Windows =>
      if negb (windows_standard_route_selected (p_boundary (rq_policy request)))
      then run_route SealedWindows request context w
      else run_route WindowsJob request context w
  | Linux | Macos | OtherUnix => run_unix_attempt request context w
  end.

(** ** The loop *)

(** The variables of the loop. *)
Record Loop : Type := {
  lp_history : AttemptHistory;
  lp_aggregates : SupervisionAggregates;
  lp_targets_authorized : N;
  lp_kind : AttemptKind;
  lp_coordinator : option RestartCoordinator;
  lp_backend : option BackendCapabilityReport;
  lp_origin : option Duration
}.
(** An iteration returns from the function or goes round again. *)
Inductive Turn : Type := Return (execution : SupervisionExecution) | Again (loop : Loop).

Definition summary_of (coordinator : option RestartCoordinator) : RestartSummary :=
  match coordinator with Some value => co_summary value | None => RestartSummary_default end.

Definition count_authorized (targets_authorized : N) (released : bool) : supM N :=
  st_lift (ok_or (Failed counter_error) (checked_add 64 targets_authorized (N.b2n released))).
Definition next_number (history : AttemptHistory) : supM N :=
  st_lift (ok_or (Failed counter_error) (checked_add 64 (ah_total history) 1)).
Definition append_attempt (record : AttemptRecord) (history : AttemptHistory)
    (aggregates : SupervisionAggregates) : supM (AttemptHistory * SupervisionAggregates) :=
  let '(state, r) := append record (history, aggregates) in
  lift_failure model_error r ≫= λ _, mret state.

(** [SupervisionExecution::new(..., millis(started.elapsed()), targets_authorized)] *)
Definition conclude (started : Instant) (backend : BackendCapabilityReport) (terminal : SupervisionTerminal)
    (loop : Loop) (deadline : option SupervisionDeadlineEvidence) : supM SupervisionExecution :=
  duration ← elapsed started;
  lift_failure model_error
    (SupervisionExecution_new backend terminal (lp_history loop) (lp_aggregates loop)
       (summary_of (lp_coordinator loop)) deadline (millis duration) (lp_targets_authorized loop)).

Definition conclude_outside (started : Instant) (loop : Loop)
    (outside_deadline : option SupervisionDeadlineEvidence) : supM SupervisionExecution :=
  match outside_deadline with
  | Some evidence =>
      conclude started (default unsupported_capability (lp_backend loop)) (DeadlineOutsideAttempt evidence)
        loop outside_deadline
  | None => panic "expired supervision deadline supplies evidence"
  end.

Definition failed_enforcement (request : SupervisorRequest) (error : Error)
    : supM WorkloadEvidence.RuntimePolicyEnforcement :=
  match e_policy_enforcement error, p_workload_contract (rq_policy request) with
  | Some enforcement, _ => mret enforcement
  | None, None => mret Enforcement_LegacyUnspecified
  | None, Some contract =>
      match request_binding sha256_hash contract with
      | Ok binding => mret (Enforcement_AuthorizationUncertain (Some binding) TerminalUnavailable)
      | Err _ => panic "policy workload is validated"
      end
  end.

Definition with_records (history : AttemptHistory) (aggregates : SupervisionAggregates)
    (targets_authorized : N) (loop : Loop) : Loop :=
  {| lp_history := history; lp_aggregates := aggregates; lp_targets_authorized := targets_authorized;
     lp_kind := lp_kind loop; lp_coordinator := lp_coordinator loop; lp_backend := lp_backend loop;
     lp_origin := lp_origin loop |}.

Definition failed_attempt (request : SupervisorRequest) (started : Instant) (attempt_started : Duration)
    (context : AttemptContext) (loop : Loop) (error : Error) : supM SupervisionExecution :=
  if (e_code error ≟ "MCSUPERVISION-DEADLINE-BEFORE-AUTHORIZATION"%string)
     || sealed_deadline_rejection_is_outside_attempt (rq_policy request) context error
  then
    observed ← elapsed started;
    outside_deadline ← st_lift (outside_deadline_evidence (rq_policy request) (lp_origin loop) observed AttemptSetup);
    conclude_outside started loop outside_deadline
  else
    number ← next_number (lp_history loop);
    st_lift (guard_err
      (negb (Bool.eqb (e_target_released error) (is_some (e_authorization_offset error)))
       && negb (recovered_without_clock error))
      (Failed (Error_new Monitor "MCRESTART-AUTHORIZATION-EVIDENCE"
         "target release and authorization offset evidence disagree"))) ≫= λ _,
    let record_error := error_record error (Some number) AttemptSetup (lp_kind loop) in
    targets_authorized ← count_authorized (lp_targets_authorized loop) (e_target_released error);
    enforcement ← failed_enforcement request error;
    authorized ← add_optional attempt_started (e_authorization_offset error);
    finished ← elapsed started;
    state ← append_attempt
      {| ar_operational_failure := from_error error;
         ar_private_execution := None;
         ar_runtime := e_runtime error;
         ar_policy_enforcement := enforcement;
         ar_number := number;
         ar_kind := lp_kind loop;
         ar_phase := Phase_Failed;
         ar_target_pid := match e_target_pid error with
                          | Some pid => Some pid
                          | None => e_runtime error ≫= re_target_pid
                          end;
         ar_started_offset_ms := Some (millis attempt_started);
         ar_authorized_offset_ms := authorized;
         ar_terminal_offset_ms := None;
         ar_finished_offset_ms := millis finished;
         ar_outcome := None;
         ar_error := Some record_error;
         ar_restart_decision := RestartDecisionRecord_default;
         ar_launch := launch_from_error error (p_boundary (rq_policy request)) (lp_backend loop);
         ar_restart_safety := proof_from_error error;
         ar_boundary_detail :=
           boundary_failure_detail error (p_boundary (rq_policy request)) (lp_backend loop) |}
      (lp_history loop) (lp_aggregates loop);
    conclude started (default unsupported_capability (lp_backend loop))
      (TerminalError (Some number) record_error)
      (with_records (fst state) (snd state) targets_authorized loop) None.

Definition drift_message (mismatched_fields : list string) : string :=
  "runtime backend evidence disagrees with the resolved backend: " +:+ String.concat ", " mismatched_fields.

Definition finish_backend_selection_drift (selected observed : BackendCapabilityReport)
    (mismatched_fields : list string) (metric : Metric) (attempt : AttemptExecution) (number : N)
    (kind : AttemptKind) (attempt_started elapsed : Duration) (history : AttemptHistory)
    (aggregates : SupervisionAggregates) (restart : RestartSummary) (targets_authorized : N)
    : supM SupervisionExecution :=
  let execution := ax_execution attempt in
  let record_error : SupervisionErrorRecord :=
    {| er_native_startup := None;
       er_category := "monitor";
       er_code := "MCBACKEND-SELECTION-DRIFT";
       er_message := drift_message mismatched_fields;
       er_os_code := None;
       er_attempt_number := Some number;
       er_supervision_phase := ActiveAttempt;
       er_launch_phase := Some "runtime-backend-evidence"%string;
       er_target_released := ln_target_released (ax_launch attempt);
       er_workload_may_be_alive := rsp_workload_empty (ax_restart_safety attempt) ≠? Some true;
       er_initial_spawn_failure := None;
       er_provider_rejection := None;
       er_backend_selection_drift :=
         Some {| drift_selected := selected;
                 drift_comparison_expected := selected_backend_for_metric selected metric;
                 drift_observed := observed;
                 drift_mismatched_fields := mismatched_fields |} |} in
  authorized ← add_optional attempt_started (xe_authorization_offset execution);
  terminal ← add_durations attempt_started (xe_duration execution);
  state ← append_attempt
    {| ar_operational_failure := None;
       ar_private_execution := xe_private_execution execution;
       ar_runtime := xe_runtime execution;
       ar_policy_enforcement := xe_policy_enforcement execution;
       ar_number := number;
       ar_kind := kind;
       ar_phase := Phase_Failed;
       ar_target_pid := xe_child_pid execution;
       ar_started_offset_ms := Some (millis attempt_started);
       ar_authorized_offset_ms := authorized;
       ar_terminal_offset_ms := Some (millis terminal);
       ar_finished_offset_ms := millis elapsed;
       ar_outcome := None;
       ar_error := Some record_error;
       ar_restart_decision := RestartDecisionRecord_default;
       ar_launch := ax_launch attempt;
       ar_restart_safety := ax_restart_safety attempt;
       ar_boundary_detail := xe_boundary_detail execution |}
    history aggregates;
  lift_failure model_error
    (SupervisionExecution_new selected (TerminalError (Some number) record_error) (fst state) (snd state)
       restart None (millis elapsed) targets_authorized).

(** What the coordinator decided after an attempt, and what its wait came to. *)
Record Decided : Type := {
  dc_coordinator : option RestartCoordinator;
  dc_decision : RestartDecisionRecord;
  dc_next_kind : AttemptKind;
  dc_stop : bool;
  dc_outside_deadline : option SupervisionDeadlineEvidence
}.

Definition first_action (started : Instant) (coordinator : option RestartCoordinator)
    (trigger : option RestartCondition) (safety : RestartSafetyProof)
    : supM (option RestartCoordinator * RestartDecisionRecord * RestartAction) :=
  match coordinator, trigger with
  | Some coordinator, Some trigger =>
      t ← elapsed started;
      let '(coordinator, decision, r) :=
        on_limit exp2 trigger t safety RestartDecisionRecord_default coordinator in
      action ← lift_failure controller_error r;
      mret (Some coordinator, decision, action)
  | Some _, None => mret (coordinator, RestartDecisionRecord_default, ActionStop NoneConditionNotSelected)
  | None, _ => mret (coordinator, RestartDecisionRecord_default, ActionStop NoneDisabled)
  end.

Definition wait_phase (kind : RestartWaitKind) : SupervisionPhase :=
  match kind with WaitCircuitCooldown => Cooldown | WaitHalfLifeLogisticBackoff => Backoff end.

(** [signal.wait(bounded)] *)
Definition signal_wait (bounded : Duration) : supM (option Z) := λ w,
  let '(w, r) := h_wait _ host bounded w in
  (w, map_err (λ error, Failed (with_os_error (io_raw_os_error error)
                                  (Error_new Wait "MCWAIT-RESTART" (io_text error)))) r).

(** Whether an uninterrupted wait ran past the supervision deadline. *)
Definition wait_expired (wait_started : Instant) (interrupted : option Z) (remaining : option Duration)
    : supM bool :=
  match interrupted, remaining with
  | None, Some value => waited ← elapsed wait_started; mret (value <=? waited)
  | _, _ => mret false
  end.
Definition wait_deadline (policy : Policy) (started : Instant) (origin : option Duration)
    (wait_kind : RestartWaitKind) (expired : bool) : supM (option SupervisionDeadlineEvidence) :=
  if expired then
    observed ← elapsed started;
    st_lift (outside_deadline_evidence policy origin observed (wait_phase wait_kind))
  else mret None.

(** The wait a restart was scheduled behind. *)
Definition wait_for_restart (request : SupervisorRequest) (started : Instant) (origin : option Duration)
    (coordinator : option RestartCoordinator) (decision : RestartDecisionRecord)
    (duration : Duration) (wait_kind : RestartWaitKind) : supM Decided :=
  let policy := rq_policy request in
  wait_started ← now;
  offset ← elapsed started;
  let remaining := supervision_remaining policy origin offset in
  let bounded := match remaining with Some value => N.min duration value | None => duration end in
  interrupted ← signal_wait bounded;
  expired ← wait_expired wait_started interrupted remaining;
  outside_deadline ← wait_deadline policy started origin wait_kind expired;
  let completion := if is_some interrupted then WaitInterrupted
                    else if (expired : bool) then WaitSupervisionDeadline else WaitCompleted in
  match coordinator with
  | None => panic "wait requires coordinator"
  | Some coordinator =>
      waited ← elapsed wait_started;
      offset ← elapsed started;
      let '(coordinator, decision, r) :=
        complete_wait completion waited (supervision_remaining policy origin offset) decision coordinator in
      after ← lift_failure controller_error r;
      match after with
      | ActionLaunch _ half_open =>
          mret {| dc_coordinator := Some coordinator; dc_decision := decision;
                  dc_next_kind := if half_open || (bool_decide (wait_kind = WaitCircuitCooldown))
                                  then Kind_HalfOpen else Kind_Restart;
                  dc_stop := false; dc_outside_deadline := outside_deadline |}
      | ActionStop _ =>
          mret {| dc_coordinator := Some coordinator; dc_decision := decision; dc_next_kind := Kind_Restart;
                  dc_stop := true; dc_outside_deadline := outside_deadline |}
      | ActionWait _ _ => fail (controller_error InvalidTransition)
      end
  end.

(** Anything but a wait ends the run. *)
Definition decide_restart (request : SupervisorRequest) (started : Instant) (origin : option Duration)
    (coordinator : option RestartCoordinator) (trigger : option RestartCondition)
    (safety : RestartSafetyProof) : supM Decided :=
  first_action started coordinator trigger safety ≫= λ '(coordinator, decision, action),
  match action with
  | ActionWait duration wait_kind =>
      wait_for_restart request started origin coordinator decision duration wait_kind
  | ActionStop _ | ActionLaunch _ _ =>
      mret {| dc_coordinator := coordinator; dc_decision := decision; dc_next_kind := Kind_Restart;
              dc_stop := true; dc_outside_deadline := None |}
  end.

Definition drift_of (selected : option BackendCapabilityReport) (observed : BackendCapabilityReport)
    (metric : Metric) : option (BackendCapabilityReport * list string) :=
  selected ← selected;
  let fields := backend_selection_drift_fields selected observed metric in
  match fields with [] => None | _ => Some (selected, fields) end.

Definition completed_attempt (request : SupervisorRequest) (started : Instant) (attempt_started : Duration)
    (loop : Loop) (attempt : AttemptExecution) : supM Turn :=
  let execution := ax_execution attempt in
  let policy := rq_policy request in
  origin ← match lp_origin loop, xe_authorization_offset execution with
           | None, Some offset => sum ← add_durations attempt_started offset; mret (Some sum)
           | origin, _ => mret origin
           end;
  let observed := capabilities_for platform (xe_backend execution) (p_boundary policy) in
  let released := ln_target_released (xe_launch execution) in
  match drift_of (lp_backend loop) observed (p_metric policy) with
  | Some (selected, mismatched_fields) =>
      targets_authorized ← count_authorized (lp_targets_authorized loop) released;
      number ← next_number (lp_history loop);
      finished ← elapsed started;
      execution ← finish_backend_selection_drift selected observed mismatched_fields (p_metric policy)
        attempt number (lp_kind loop) attempt_started finished (lp_history loop) (lp_aggregates loop)
        (summary_of (lp_coordinator loop)) targets_authorized;
      mret (Return execution)
  | None =>
      targets_authorized ← count_authorized (lp_targets_authorized loop) released;
      number ← next_number (lp_history loop);
      let outcome := xe_outcome execution in
      let trigger := if released then restart_condition outcome else None in
      decided ← decide_restart request started origin (lp_coordinator loop) trigger (ax_restart_safety attempt);
      authorized ← add_optional attempt_started (xe_authorization_offset execution);
      terminal_offset ← add_durations attempt_started (xe_duration execution);
      finished ← elapsed started;
      state ← append_attempt
        {| ar_operational_failure := None;
           ar_private_execution := xe_private_execution execution;
           ar_runtime := xe_runtime execution;
           ar_policy_enforcement := xe_policy_enforcement execution;
           ar_number := number;
           ar_kind := lp_kind loop;
           ar_phase := Phase_Completed;
           ar_target_pid := xe_child_pid execution;
           ar_started_offset_ms := Some (millis attempt_started);
           ar_authorized_offset_ms := authorized;
           ar_terminal_offset_ms := Some (millis terminal_offset);
           ar_finished_offset_ms := millis finished;
           ar_outcome := Some outcome;
           ar_error := None;
           ar_restart_decision := dc_decision decided;
           ar_launch := ax_launch attempt;
           ar_restart_safety := ax_restart_safety attempt;
           ar_boundary_detail := xe_boundary_detail execution |}
        (lp_history loop) (lp_aggregates loop);
      let next :=
        {| lp_history := fst state; lp_aggregates := snd state; lp_targets_authorized := targets_authorized;
           lp_kind := dc_next_kind decided; lp_coordinator := dc_coordinator decided;
           lp_backend := Some observed; lp_origin := origin |} in
      if dc_stop decided
      then
        execution ← conclude started observed
          (match dc_outside_deadline decided with
           | None => AttemptOutcome number outcome
           | Some evidence => DeadlineOutsideAttempt evidence
           end) next (dc_outside_deadline decided);
        mret (Return execution)
      else mret (Again next)
  end.

Definition attempt_context (request : SupervisorRequest) (run_origin work_expires : option N)
    (attempt_started : Duration) (loop : Loop) : AttemptContext :=
  {| cx_macos_run_origin_ns := run_origin;
     cx_macos_work_expires_ns := work_expires;
     cx_restart_attempt := ah_total (lp_history loop);
     cx_supervision_offset := attempt_started;
     cx_supervision_deadline_remaining :=
       supervision_remaining (rq_policy request) (lp_origin loop) attempt_started |}.

(** One iteration. *)
Definition turn (request : SupervisorRequest) (started : Instant) (run_origin work_expires : option N)
    (loop : Loop) : supM Turn :=
  attempt_started ← elapsed started;
  let context := attempt_context request run_origin work_expires attempt_started loop in
  if is_some (lp_origin loop) && (cx_supervision_deadline_remaining context ≟ Some Duration_ZERO)
  then
    outside_deadline ← st_lift
      (outside_deadline_evidence (rq_policy request) (lp_origin loop) attempt_started Backoff);
    execution ← conclude_outside started loop outside_deadline;
    mret (Return execution)
  else λ w,
    let '(w, result) := execute_attempt request context w in
    match result with
    | Err error => (execution ← failed_attempt request started attempt_started context loop error;
                    mret (Return execution)) w
    | Ok attempt => completed_attempt request started attempt_started loop attempt w
    end.

(** The loop, for at most [fuel] iterations; [None] when they were not enough. *)
Fixpoint supervise_loop (fuel : nat) (request : SupervisorRequest) (started : Instant)
    (run_origin work_expires : option N) (loop : Loop) : supM (option SupervisionExecution) :=
  match fuel with
  | O => mret None
  | S fuel =>
      next ← turn request started run_origin work_expires loop;
      match next with
      | Return execution => mret (Some execution)
      | Again loop => supervise_loop fuel request started run_origin work_expires loop
      end
  end.

(** The macOS run clock: its origin, and the local start shifted back to it. *)
Definition run_clock (supplied_origin : option N) (started : Instant) : supM (option N * Instant) :=
  if platform ≟ Macos then
    run_origin ← match supplied_origin with Some origin => mret origin | None => continuous_nanos end;
    t ← continuous_nanos;
    match checked_sub started (t - run_origin) with
    | Some started => mret (Some run_origin, started)
    | None => fail (clock_error "run origin exceeds local timing range")
    end
  else mret (None, started).

Definition supervision_deadline (policy : Policy) : option Duration :=
  deadline ← p_deadline policy;
  if dp_scope deadline ≟ Supervision then Some (dp_duration deadline) else None.

Definition work_expiry (run_origin : option N) (policy : Policy) : result Error (option N) :=
  match run_origin, supervision_deadline policy with
  | Some origin, Some duration =>
      Some <$> ok_or (Error_new Usage "MCUSAGE-DEADLINE-RANGE" "deadline exceeds the continuous clock range")
        (duration ← try_from 64 (as_nanos duration); checked_add 64 origin duration)
  | _, _ => Ok None
  end.

Definition initial_coordinator (restart : RestartPolicy) : result Error (option RestartCoordinator) :=
  match restart with
  | RestartNever => Ok None
  | RestartOnLimits settings => Some <$> map_err controller_error (RestartCoordinator_new exp2 settings)
  end.

(** A declared zero budget admits no attempt. *)
Definition pre_attempt_deadline (request : SupervisorRequest) (started : Instant) (loop : Loop)
    : supM SupervisionExecution :=
  observed ← elapsed started;
  evidence ← lift_failure (λ _, Error_new Monitor "MCSUPERVISION-DEADLINE-EVIDENCE"
                                  "pre-attempt supervision deadline evidence is inconsistent")
    (DeadlineEvidence_new 0 Supervision "supervision-pre-attempt" 0 (millis observed)
       (millis (p_limit_grace (rq_policy request))) 0 None None);
  let evidence := {| sd_evidence := evidence; sd_terminal_phase := AttemptSetup |} in
  lift_failure model_error
    (SupervisionExecution_new (default unsupported_capability (lp_backend loop))
       (DeadlineOutsideAttempt evidence) (lp_history loop) (lp_aggregates loop)
       (summary_of (lp_coordinator loop)) (Some evidence) (millis observed) 0).

Definition initial_loop (coordinator : option RestartCoordinator)
    (backend : option BackendCapabilityReport) (run_origin : option N) : Loop :=
  {| lp_history := AttemptHistory_default; lp_aggregates := Aggregates_default;
     lp_targets_authorized := 0; lp_kind := Kind_Initial; lp_coordinator := coordinator;
     lp_backend := backend; lp_origin := (λ _, Duration_ZERO) <$> run_origin |}.

Definition supervise_with_origin (fuel : nat) (request : SupervisorRequest)
    (resolved_backend : option BackendCapabilityReport) (supplied_origin : option N)
    : supM (option SupervisionExecution) :=
  started ← now;
  run_clock supplied_origin started ≫= λ '(run_origin, started),
  work_expires ← lift_failure id (work_expiry run_origin (rq_policy request));
  coordinator ← lift_failure id (initial_coordinator (rq_restart request));
  let loop := initial_loop coordinator resolved_backend run_origin in
  if supervision_deadline (rq_policy request) ≟ Some Duration_ZERO
  then execution ← pre_attempt_deadline request started loop; mret (Some execution)
  else supervise_loop fuel request started run_origin work_expires loop.

(** ** Entry points *)

Definition os_error (code : string) (error : io_error) : Error :=
  with_os_error (io_raw_os_error error) (Error_new Setup code (io_text error)).
Definition signal_error : io_error → Error := os_error "MCSETUP-SIGNAL".
Definition console_error : io_error → Error := os_error "MCSETUP-CONSOLE".
Definition os_call (call : W → W * result io_error ()) (f : io_error → Error) : supM () := λ w,
  let '(w, r) := call w in (w, map_err (Failed ∘ f) r).

Definition validate_origin (origin : N) : supM () :=
  t ← continuous_nanos;
  if t <? origin then fail (clock_error "run origin is in the future") else mret ().

Definition with_message (message : string) (self : Error) : Error :=
  {| e_private_rejection := e_private_rejection self; e_provider_association := e_provider_association self;
     e_runtime := e_runtime self; e_native_startup := e_native_startup self;
     e_policy_enforcement := e_policy_enforcement self; e_category := e_category self;
     e_code := e_code self; e_message := message; e_backend := e_backend self;
     e_os_code := e_os_code self; e_target_pid := e_target_pid self;
     e_launch_phase := e_launch_phase self; e_target_released := e_target_released self;
     e_authorization_offset := e_authorization_offset self;
     e_cgroup_verified_before_release := e_cgroup_verified_before_release self;
     e_guardian_ready_before_release := e_guardian_ready_before_release self;
     e_workload_may_be_alive := e_workload_may_be_alive self; e_cleanup := e_cleanup self;
     e_restart_safety := e_restart_safety self; e_initial_spawn_failure := e_initial_spawn_failure self;
     e_boundary_setup_failure := e_boundary_setup_failure self;
     e_provider_rejection := e_provider_rejection self;
     e_windows_provider_rejection_v2 := e_windows_provider_rejection_v2 self;
     e_windows_terminal_delivery := e_windows_terminal_delivery self;
     e_provider_failure := e_provider_failure self |}.

Definition finish_result {T} (outcome : result Error T) (finish : result Error ()) : result Error T :=
  match outcome, finish with
  | Err primary, Err restoration =>
      Err (with_message (e_message primary +:+ "; signal restoration: " +:+ e_message restoration) primary)
  | _, Err restoration => Err restoration
  | outcome, Ok _ => outcome
  end.

(** [MacosExecutionContext::supervise]: the signal dispositions are restored
    whatever the run came to; a panic unwinds past it. *)
Definition context_supervise (fuel : nat) (origin : N) (request : SupervisorRequest)
    : supM (option SupervisionExecution) := λ w,
  let '(w, outcome) :=
    (backend ← lift_failure id (validate_resolved_backend request);
     supervise_with_origin fuel request backend (Some origin)) w in
  match outcome with
  | Err (Panicked message) => (w, Err (Panicked message))
  | Ok ex => let '(w, finish) := h_finish _ host w in
             (w, map_err Failed (finish_result (Ok ex) (map_err signal_error finish)))
  | Err (Failed error) => let '(w, finish) := h_finish _ host w in
             (w, map_err Failed (finish_result (Err error) (map_err signal_error finish)))
  end.

Definition macos_supervise_from (fuel : nat) (request : SupervisorRequest) (origin : N)
    : supM (option SupervisionExecution) :=
  os_call (h_launch_runtime _ host) signal_error ≫= λ _,
  validate_origin origin ≫= λ _,
  os_call (h_install _ host) signal_error ≫= λ _,
  context_supervise fuel origin request.

Definition supervise (fuel : nat) (request : SupervisorRequest) : supM (option SupervisionExecution) :=
  match platform with
  | OtherPlatform => fail unsupported_supervisor
  | Macos => origin ← continuous_nanos; macos_supervise_from fuel request origin
  | Linux | OtherUnix =>
      backend ← lift_failure id (validate_resolved_backend request);
      os_call (h_install _ host) signal_error ≫= λ _,
      supervise_with_origin fuel request backend None
  | Windows =>
      backend ← lift_failure id (validate_resolved_backend request);
      os_call (h_install _ host) console_error ≫= λ _,
      supervise_with_origin fuel request backend None
  end.
End Supervisor.
