(* ===== verification/SupervisorRun.v ===== *)
(** * Runs of the platform supervisor

    What the loop of [Supervisor] promises whatever the host answers: it ends within
    the restart budget, the record it returns is the view of the log of its
    attempts, every attempt but the last was a released one that hit a selected limit
    and was cleaned up, and it does not panic when the host keeps its bounds. *)

From S2P Require Import Prelude Decimal Bounded Codec Diagnostics WorkloadContract Policy Outcome Safety Float64 Restart Coordinator Registry RuntimeEvidence PrivateRuntime Boundary WorkloadEvidence ErrorRecord WindowsReceipts Errors Supervision Supervisor.
#[local] Open Scope N_scope.

(** ** Weakest preconditions

    [wp P m Q]: from every world [m] returns a value with [Q] or fails with an
    error; it panics only if [P]. *)
Section wp.
Context `{Externals} {W : Type} (P : Prop).

Definition wp {A} (m : stM W failure A) (Q : A → Prop) : Prop :=
  ∀ w, match snd (m w) with Ok a => Q a | Err (Failed _) => True | Err (Panicked _) => P end.

Lemma wp_ret {A} (a : A) (Q : A → Prop) : Q a → wp (mret a) Q.
Proof. by intros ? w. Qed.
Lemma wp_bind {A B} (m : stM W failure A) (f : A → stM W failure B) (Q : B → Prop) :
  wp m (λ a, wp (f a) Q) → wp (m ≫= f) Q.
Proof.
  intros Hm w. unfold mbind, stM_bind. specialize (Hm w). destruct (m w) as [w' [a|e]]; [apply Hm|apply Hm].
Qed.
Lemma wp_mono {A} (m : stM W failure A) (Q Q' : A → Prop) : (∀ a, Q a → Q' a) → wp m Q → wp m Q'.
Proof. intros HQ Hm w. specialize (Hm w). destruct (m w) as [? [a|[]]]; simpl in *; auto. Qed.
Lemma wp_lift {A} (r : result failure A) (Q : A → Prop) :
  match r with Ok a => Q a | Err (Failed _) => True | Err (Panicked _) => P end → wp (st_lift r) Q.
Proof. by intros Hr w. Qed.
Lemma wp_run {A} (m : stM W failure A) (Q : A → Prop) w w' a : wp m Q → m w = (w', Ok a) → Q a.
Proof. intros Hm E. specialize (Hm w). by rewrite E in Hm. Qed.
Lemma wp_lift_failure {E A} (f : E → Error) (r : result E A) (Q : A → Prop) :
  (∀ a, r = Ok a → Q a) → wp (lift_failure (W := W) f r) Q.
Proof. intros Hr. apply wp_lift. destruct r; simpl; auto. Qed.
Lemma wp_guard c e (Q : () → Prop) : (c = false → Q ()) → wp (st_lift (guard_err c (Failed e))) Q.
Proof. intros HQ. apply wp_lift. destruct c; [done|]. by apply HQ. Qed.
End wp.

Ltac wp_step :=
  first [ apply wp_bind | apply wp_ret | apply wp_lift_failure ].

Section Run.
Context `{Externals} (exp2 : f64 → f64) (platform : Platform) {W : Type} (host : Host W).
Context (request : SupervisorRequest).

(** ** What a host keeps *)

(** Times the arithmetic of durations is safe with. *)
Definition horizon : Duration := from_secs (2 ^ 62).

(** The clock, the deadline and the offsets stay below the horizon; the deadline
    error comes only from an attempt with a deadline; a contract has a digest. *)
Record host_contract : Prop := {
  hc_clock : ∀ w, snd (h_now _ host w) <= horizon;
  hc_deadline : ∀ deadline, p_deadline (rq_policy request) = Some deadline → dp_duration deadline <= horizon;
  hc_execution : ∀ r context w execution, snd (h_run _ host r request context w) = Ok execution →
    xe_duration execution <= horizon ∧
    ∀ offset, xe_authorization_offset execution = Some offset → offset <= horizon;
  hc_error : ∀ r context w error, snd (h_run _ host r request context w) = Err error →
    (∀ offset, e_authorization_offset error = Some offset → offset <= horizon) ∧
    (e_code error = "MCSUPERVISION-DEADLINE-BEFORE-AUTHORIZATION"%string →
     is_Some (cx_supervision_deadline_remaining context));
  hc_binding : ∀ contract, p_workload_contract (rq_policy request) = Some contract →
    is_ok (request_binding sha256_hash contract) = true
}.

Context (P : Prop) (Hhost : P ∨ host_contract).

(** ** Clock and arithmetic *)

Lemma wp_now Q : (∀ t, P ∨ t <= horizon → Q t) → wp P (now host) Q.
Proof.
  intros HQ w. unfold now. destruct (h_now _ host w) as [w' t] eqn:E. simpl. apply HQ.
  destruct Hhost as [?|Hc]; [by left|right]. pose proof (hc_clock Hc w) as Ht. by rewrite E in Ht.
Qed.
Lemma wp_elapsed started Q : (∀ t, P ∨ t <= horizon → Q t) → wp P (elapsed host started) Q.
Proof.
  intros HQ. apply wp_bind, wp_now. intros t Ht. apply wp_ret, HQ. destruct Ht; [by left|right; lia].
Qed.
Lemma wp_add_durations a b (Q : Duration → Prop) :
  P ∨ a + b <= 3 * horizon → Q (a + b) → wp P (add_durations (W := W) a b) Q.
Proof.
  intros Hab HQ. apply wp_lift. unfold duration_checked_add.
  destruct (N.ltb_spec (a + b) (2 ^ 64 * 1000000000)); [done|]. simpl.
  destruct Hab as [|Hle]; [done|]. exfalso. unfold horizon, from_secs in Hle. lia.
Qed.
Lemma wp_add_optional a b (Q : option N → Prop) :
  P ∨ (∀ b', b = Some b' → a + b' <= 3 * horizon) → (∀ s, is_some s = is_some b → Q s) →
  wp P (add_optional (W := W) a b) Q.
Proof.
  intros Hab HQ. destruct b as [b|]; [|by apply wp_ret, HQ].
  apply wp_bind, wp_add_durations; [destruct Hab; [by left|right; auto]|]. by apply wp_ret, HQ.
Qed.

Definition origin_ok (origin : option Duration) : Prop := P ∨ ∀ o, origin = Some o → o <= 2 * horizon.

Lemma wp_outside origin observed phase (Q : option SupervisionDeadlineEvidence → Prop) :
  origin_ok origin →
  (∀ evidence, (is_Some origin → is_Some (p_deadline (rq_policy request)) → is_Some evidence) → Q evidence) →
  wp P (st_lift (S := W) (outside_deadline_evidence platform (rq_policy request) origin observed phase)) Q.
Proof.
  intros Hok HQ. apply wp_lift. unfold outside_deadline_evidence.
  destruct origin as [o|]; [|apply HQ; by intros []].
  destruct (p_deadline (rq_policy request)) as [deadline|] eqn:Ed; [|apply HQ; by intros _ []].
  unfold duration_checked_add. destruct (N.ltb_spec (o + dp_duration deadline) (2 ^ 64 * 1000000000)); simpl.
  - destruct (DeadlineEvidence_new _ _ _ _ _ _ _ _ _); simpl; [|done]. apply HQ. eauto.
  - destruct Hhost as [?|Hc]; [done|]. destruct Hok as [?|Ho]; [done|]. exfalso.
    specialize (Ho _ eq_refl). pose proof (hc_deadline Hc _ Ed). unfold horizon, from_secs in *. lia.
Qed.

(** ** The coordinator within the loop *)

(** A coordinator that has launched [n] restarts and has no wait pending. *)
Definition coordinator_ok (n : N) (coordinator : option RestartCoordinator) : Prop :=
  match coordinator with
  | None => rq_restart request = RestartNever ∧ n = 0
  | Some co => ∃ settings, rq_restart request = RestartOnLimits settings ∧ co_inv co ∧
      rc_settings (co_controller co) = settings ∧
      abs co = {| Spec.limit := rs_limit settings; Spec.launched := n; Spec.waiting := None |}
  end.

(** The policy selects this condition for a restart. *)
Definition selected_condition (condition : RestartCondition) : Prop :=
  ∃ settings, rq_restart request = RestartOnLimits settings ∧
    conditions_contains (rs_effective_conditions settings) condition = true.

Definition decided_ok (n : N) (trigger : option RestartCondition) (safety : RestartSafetyProof)
    (d : Decided) : Prop :=
  if dc_stop d then su_restarts_launched (summary_of (dc_coordinator d)) = n
  else coordinator_ok (n + 1) (dc_coordinator d) ∧ is_Some (dc_coordinator d) ∧
       dc_next_kind d ≠ Kind_Initial ∧ is_safe safety = true ∧
       ∃ condition, trigger = Some condition ∧ selected_condition condition.

Lemma on_limit_wait_selected condition t safety record co co' rec' d k :
  on_limit exp2 condition t safety record co = ((co', rec'), Ok (ActionWait d k)) →
  conditions_contains (rs_effective_conditions (rc_settings (co_controller co))) condition = true ∧
  is_safe safety = true.
Proof.
  unfold on_limit, with_record. destruct (after_limit_recorded _ _ _ _ _) as [e r] eqn:E.
  intros [= <- <- Hr]. apply after_limit_spec in E as [_ _ _ _ _ _ E]. destruct r as [decision|]; [|done].
  specialize (E _ eq_refl). destruct decision; simplify_eq/=. by destruct E as (_ & (? & ? & _) & _).
Qed.
Lemma on_limit_settings condition t safety record co co' rec' r :
  on_limit exp2 condition t safety record co = ((co', rec'), r) →
  rc_settings (co_controller co') = rc_settings (co_controller co).
Proof.
  unfold on_limit, with_record. destruct (after_limit_recorded _ _ _ _ _) as [e d] eqn:E.
  intros [= <- <- _]. by apply after_limit_spec, al_settings in E.
Qed.
Lemma complete_wait_settings completion waited remaining record co co' rec' r :
  complete_wait completion waited remaining record co = ((co', rec'), r) →
  rc_settings (co_controller co') = rc_settings (co_controller co).
Proof.
  unfold complete_wait, with_record. destruct (authorize_after_wait_recorded _ _) as [e d] eqn:E.
  intros [= <- <- _]. by apply authorize_spec, aw_settings in E.
Qed.

Lemma co_inv_launched co n w l :
  co_inv co → abs co = {| Spec.limit := l; Spec.launched := n; Spec.waiting := w |} →
  su_restarts_launched (co_summary co) = n.
Proof. intros [Hl _ _ _] [= _ Hn _]. congruence. Qed.

(** While the wait runs the coordinator has it pending. *)
Definition waiting_ok (n : N) (duration : Duration) (kind : RestartWaitKind) (co : RestartCoordinator) : Prop :=
  ∃ settings, rq_restart request = RestartOnLimits settings ∧ co_inv co ∧
    rc_settings (co_controller co) = settings ∧
    abs co = {| Spec.limit := rs_limit settings; Spec.launched := n; Spec.waiting := Some (duration, kind) |}.

Lemma complete_wait_decides n duration kind co completion waited remaining record co' rec' r :
  waiting_ok n duration kind co →
  complete_wait completion waited remaining record co = ((co', rec'), r) →
  match r with
  | Ok (ActionLaunch _ _) => coordinator_ok (n + 1) (Some co')
  | Ok (ActionStop _) => su_restarts_launched (co_summary co') = n
  | Ok (ActionWait _ _) => False
  | Err _ => True
  end.
Proof.
  intros (settings & Hr & Hinv & Hset & Habs) E. pose proof (complete_wait_settings _ _ _ _ _ _ _ _ E) as Hset'.
  apply complete_wait_step in E as [Hinv' Hstep]; [|done]. rewrite Habs in Hstep.
  remember (abs co') as s' eqn:Es. inversion Hstep; simplify_eq/=; try done.
  - exists (rc_settings (co_controller co)). by split_and!.
  - by eapply co_inv_launched.
Qed.

Lemma wp_signal_wait bounded Q : (∀ i, Q i) → wp P (signal_wait host bounded) Q.
Proof. intros HQ w. unfold signal_wait. destruct (h_wait _ _ _ _) as [w' [i|e]]; [apply HQ|done]. Qed.
Lemma wp_wait_expired wait_started interrupted remaining (Q : bool → Prop) :
  (∀ b, Q b) → wp P (wait_expired host wait_started interrupted remaining) Q.
Proof.
  intros HQ. destruct interrupted, remaining; try by apply wp_ret.
  apply wp_bind, wp_elapsed. intros t _. by apply wp_ret.
Qed.
Lemma wp_wait_deadline started origin kind expired Q :
  origin_ok origin → (∀ evidence, Q evidence) →
  wp P (wait_deadline platform host (rq_policy request) started origin kind expired) Q.
Proof.
  intros Ho HQ. destruct expired; [|by apply wp_ret]. apply wp_bind, wp_elapsed. intros t _.
  apply wp_outside; auto.
Qed.

Lemma wp_wait_for_restart n started origin co decision duration kind safety condition Q :
  waiting_ok n duration kind co → origin_ok origin → is_safe safety = true → selected_condition condition →
  (∀ d, decided_ok n (Some condition) safety d → Q d) →
  wp P (wait_for_restart platform host request started origin (Some co) decision duration kind) Q.
Proof.
  intros Hco Ho Hsafe Hsel HQ. unfold wait_for_restart.
  apply wp_bind, wp_now. intros wait_started _. apply wp_bind, wp_elapsed. intros offset _.
  apply wp_bind, wp_signal_wait. intros interrupted. apply wp_bind, wp_wait_expired. intros expired.
  apply wp_bind, wp_wait_deadline; [done|]. intros evidence.
  apply wp_bind, wp_elapsed. intros waited _. apply wp_bind, wp_elapsed. intros offset' _.
  destruct (complete_wait _ _ _ _ _) as [[co' rec'] r] eqn:E. apply (complete_wait_decides n duration kind) in E; [|done].
  apply wp_bind, wp_lift_failure. intros after ->.
  destruct after as [k|d k|number half_open]; [|done|]; apply wp_ret, HQ; unfold decided_ok; cbn; [done|].
  split_and!; eauto. by destruct (_ || _).
Qed.

Lemma wp_decide_restart n started origin coordinator trigger safety Q :
  coordinator_ok n coordinator → origin_ok origin → (∀ d, decided_ok n trigger safety d → Q d) →
  wp P (decide_restart exp2 platform host request started origin coordinator trigger safety) Q.
Proof.
  intros Hco Ho HQ. apply wp_bind. unfold first_action.
  destruct coordinator as [co|], trigger as [trigger|].
  - apply wp_bind, wp_elapsed. intros t _. destruct (on_limit _ _ _ _ _ _) as [[co' rec'] r] eqn:E.
    apply wp_bind, wp_lift_failure. intros action ->. apply wp_ret.
    destruct Hco as (settings & Hr & Hinv & Hset & Habs).
    pose proof (on_limit_settings _ _ _ _ _ _ _ _ E) as Hset'.
    pose proof E as Hstep. apply on_limit_step in Hstep as [Hinv' Hstep]; [|done]. rewrite Habs in Hstep.
    destruct action as [k|d k|number half_open]; [|apply on_limit_wait_selected in E as [Hsel Hsafe]|].
    + remember (abs co') as s' eqn:Es. inversion Hstep; subst. apply wp_ret, HQ. by eapply co_inv_launched.
    + eapply wp_wait_for_restart; [| |done| |done]; [|done|].
      * remember (abs co') as s' eqn:Es. inversion Hstep; subst.
        exists (rc_settings (co_controller co)). by split_and!.
      * exists settings. split; [done|]. by rewrite <- Hset.
    + inversion Hstep.
  - destruct Hco as (settings & Hr & Hinv & Hset & Habs). apply wp_ret, wp_ret, HQ. by eapply co_inv_launched.
  - destruct Hco as [_ ->]. by apply wp_ret, wp_ret, HQ.
  - destruct Hco as [_ ->]. by apply wp_ret, wp_ret, HQ.
Qed.

(** ** Attempts *)

Definition attempt_ok (attempt : AttemptExecution) : Prop :=
  ax_launch attempt = xe_launch (ax_execution attempt) ∧
  (P ∨ xe_duration (ax_execution attempt) <= horizon ∧
       ∀ offset, xe_authorization_offset (ax_execution attempt) = Some offset → offset <= horizon).
Definition error_ok (context : AttemptContext) (error : Error) : Prop :=
  P ∨ (∀ offset, e_authorization_offset error = Some offset → offset <= horizon) ∧
      (e_code error = "MCSUPERVISION-DEADLINE-BEFORE-AUTHORIZATION"%string →
       is_Some (cx_supervision_deadline_remaining context)).
Definition result_ok (context : AttemptContext) (r : result Error AttemptExecution) : Prop :=
  match r with Ok attempt => attempt_ok attempt | Err error => error_ok context error end.

Lemma attempt_execution_ok context execution :
  P ∨ xe_duration execution <= horizon ∧
      (∀ offset, xe_authorization_offset execution = Some offset → offset <= horizon) →
  result_ok context (attempt_execution execution).
Proof.
  intros Hb. unfold attempt_execution, validate_backend_execution.
  destruct (_ || _ || _); [by right|]. cbn. destruct (negb _); [by right|]. by split.
Qed.

Lemma run_route_ok r context w : result_ok context (snd (run_route host r request context w)).
Proof.
  unfold run_route. destruct (h_run _ host r request context w) as [w' x] eqn:E. simpl.
  assert (snd (h_run _ host r request context w) = x) as Ex by (by rewrite E).
  destruct x as [execution|error]; simpl.
  - apply attempt_execution_ok. destruct Hhost as [?|Hc]; [by left|right]. eapply hc_execution; eauto.
  - destruct Hhost as [?|Hc]; [by left|right]. eapply hc_error; eauto.
Qed.

Lemma execute_attempt_ok context w :
  result_ok context (snd (execute_attempt platform host request context w)).
Proof.
  assert (∀ w, result_ok context (snd (run_unix_attempt platform host request context w))) as Hunix.
  { intros w'. unfold run_unix_attempt. repeat case_match; simplify_eq/=; try apply run_route_ok; by right. }
  unfold execute_attempt. destruct platform; try apply Hunix; [case_match; apply run_route_ok|by right].
Qed.

(** ** The record of a run *)

(** An attempt that a restart followed. *)
Definition restarted (r : AttemptRecord) : Prop :=
  released r = true ∧ is_safe (ar_restart_safety r) = true ∧
  ∃ outcome condition, ar_outcome r = Some outcome ∧ restart_condition outcome = Some condition ∧
    selected_condition condition.

(** Attempts are numbered from one; the first alone is the initial one. *)
Definition numbered (log : list AttemptRecord) : Prop :=
  ∀ i r, log !! i = Some r → ar_number r = N.of_nat i + 1 ∧ (ar_kind r = Kind_Initial ↔ i = 0%nat).

Definition within_budget (restarts : N) : Prop :=
  match rq_restart request with
  | RestartNever => restarts = 0
  | RestartOnLimits settings => Spec.within (rs_limit settings) restarts
  end.

(** The log behind a record: the attempts a restart followed, and at most one
    more. *)
Record run_record (restarts final : list AttemptRecord) (ex : SupervisionExecution) : Prop := {
  rr_final : (length final <= 1)%nat;
  rr_restarted : Forall restarted restarts;
  rr_numbered : numbered (restarts ++ final);
  rr_budget : within_budget (N.of_nat (length restarts));
  rr_attempts : ex_attempts ex = history_of (restarts ++ final);
  rr_aggregates : ex_aggregates ex = aggregates_of (restarts ++ final);
  rr_authorized : ex_targets_authorized ex = count_if released (restarts ++ final);
  rr_launched : su_restarts_launched (ex_restart ex) = N.of_nat (length restarts)
}.

(** The variables of the loop after the attempts of [log]. *)
Record loop_inv (log : list AttemptRecord) (loop : Loop) : Prop := {
  li_history : lp_history loop = history_of log;
  li_aggregates : lp_aggregates loop = aggregates_of log;
  li_targets : lp_targets_authorized loop = count_if released log;
  li_numbered : numbered log;
  li_kind : lp_kind loop = Kind_Initial ↔ log = [];
  li_restarted : Forall restarted log;
  li_coordinator : coordinator_ok (N.of_nat (length log)) (lp_coordinator loop);
  li_origin : origin_ok (lp_origin loop)
}.

Lemma coordinator_ok_summary n coordinator :
  coordinator_ok n coordinator → su_restarts_launched (summary_of coordinator) = n ∧ within_budget n.
Proof.
  unfold within_budget. destruct coordinator as [co|]; cbn; [|by intros [-> ->]].
  intros (settings & -> & Hinv & <- & Habs). split; [by eapply co_inv_launched|].
  destruct Hinv as [_ Hl _ _]. injection Habs as El. by rewrite <- El.
Qed.

Lemma numbered_snoc log r :
  numbered log → ar_number r = N.of_nat (length log) + 1 → (ar_kind r = Kind_Initial ↔ log = []) →
  numbered (log ++ [r]).
Proof.
  intros Hl Hn Hk i x Hi. apply lookup_snoc_Some in Hi as [[_ Hi]|[-> <-]]; [by apply Hl|].
  split; [done|]. rewrite Hk. destruct log; simpl; split; congruence || lia.
Qed.

Lemma numbered_log_ok log : numbered log → ∀ i r, log !! i = Some r → ar_number r = N.of_nat i + 1.
Proof. intros Hn i r Hi. by apply Hn. Qed.

Lemma execution_new_fields backend terminal attempts aggregates restart deadline duration_ms authorized ex :
  SupervisionExecution_new backend terminal attempts aggregates restart deadline duration_ms authorized = Ok ex →
  ex_attempts ex = attempts ∧ ex_aggregates ex = aggregates ∧ ex_restart ex = restart ∧
  ex_targets_authorized ex = authorized ∧ authorized = ag_confirmed_authorizations aggregates.
Proof.
  intros E. pose proof E as Ha. apply execution_new_spec in E as (-> & _). cbn. split_and!; try done.
  unfold SupervisionExecution_new in Ha. do 7 (apply bind_Ok in Ha as (? & _ & Ha)).
  apply bind_Ok in Ha as (? & Ha%reject_execution_Ok & _). bool_hyps. done.
Qed.

Lemma wp_conclude log loop started backend terminal deadline (Q : SupervisionExecution → Prop) restarts final :
  log = restarts ++ final → lp_history loop = history_of log → lp_aggregates loop = aggregates_of log →
  su_restarts_launched (summary_of (lp_coordinator loop)) = N.of_nat (length restarts) →
  (length final <= 1)%nat → Forall restarted restarts → numbered log → within_budget (N.of_nat (length restarts)) →
  (∀ ex, run_record restarts final ex → Q ex) →
  wp P (conclude host started backend terminal loop deadline) Q.
Proof.
  intros -> Eh Ea Es Hf Hr Hn Hb HQ. apply wp_bind, wp_elapsed. intros t _. apply wp_lift_failure.
  intros ex E. apply execution_new_fields in E as (E1 & E2 & E3 & E4 & E5). apply HQ.
  constructor; try congruence; [done..|]. rewrite E4, E5, Ea. done.
Qed.

Lemma wp_next_number log (Q : N → Prop) :
  (N.of_nat (length log) + 1 < 2 ^ 64 → Q (N.of_nat (length log) + 1)) →
  wp P (next_number (W := W) (history_of log)) Q.
Proof.
  intros HQ. apply wp_lift. cbn [history_of ah_total]. destruct (checked_add _ _ _) as [n|] eqn:E; [|done].
  apply checked_add_Some in E as [-> ?]. by apply HQ.
Qed.
Lemma wp_count_authorized n b (Q : N → Prop) : Q (n + b2n b) → wp P (count_authorized (W := W) n b) Q.
Proof.
  intros HQ. apply wp_lift. destruct (checked_add _ _ _) as [m|] eqn:E; [|done].
  apply checked_add_Some in E as [-> ?]. by destruct b.
Qed.
Lemma wp_append log r (Q : AttemptHistory * SupervisionAggregates → Prop) :
  N.of_nat (length log) + 1 < 2 ^ 64 → ar_number r = N.of_nat (length log) + 1 →
  Q (history_of (log ++ [r]), aggregates_of (log ++ [r])) →
  wp P (append_attempt (W := W) r (history_of log) (aggregates_of log)) Q.
Proof.
  intros Hlen Hn HQ. unfold append_attempt. rewrite append_refines_log; [|done|by right].
  rewrite <- Hn, with_number_same. apply wp_bind, wp_lift_failure. intros _ _. by apply wp_ret.
Qed.

(** ** One turn of the loop *)

Definition has_record (ex : SupervisionExecution) : Prop := ∃ restarts final, run_record restarts final ex.

Lemma wp_conclude_outside log loop started evidence :
  loop_inv log loop → P ∨ is_Some evidence → wp P (conclude_outside host started loop evidence) has_record.
Proof.
  intros [] Hev. destruct evidence as [evidence|].
  - destruct (coordinator_ok_summary _ _ li_coordinator0) as [Hl Hb].
    eapply (wp_conclude log loop started _ _ _ _ log []); try done; [by rewrite app_nil_r|simpl; lia|].
    intros ex Hex. by exists log, [].
  - apply wp_lift. destruct Hev as [|[? [=]]]. done.
Qed.

Lemma remaining_some origin t :
  is_Some (supervision_remaining (rq_policy request) origin t) →
  is_Some origin ∧ is_Some (p_deadline (rq_policy request)).
Proof.
  unfold supervision_remaining. destruct origin; [|by intros []]. destruct (p_deadline _); [eauto|by intros []].
Qed.

Lemma sealed_deadline_remaining context error :
  sealed_deadline_rejection_is_outside_attempt (rq_policy request) context error = true →
  is_Some (cx_supervision_deadline_remaining context).
Proof.
  unfold sealed_deadline_rejection_is_outside_attempt. destruct (p_deadline _); [|done].
  destruct (cx_supervision_deadline_remaining context); [eauto|].
  by rewrite orb_true_r, !orb_true_l.
Qed.

Lemma wp_failed_enforcement error Q :
  (∀ e, Q e) → wp P (failed_enforcement (W := W) request error) Q.
Proof.
  intros HQ. unfold failed_enforcement. destruct (e_policy_enforcement error); [by apply wp_ret|].
  destruct (p_workload_contract _) as [contract|] eqn:Ec; [|by apply wp_ret].
  destruct (request_binding _ contract) eqn:Eb; [by apply wp_ret|]. apply wp_lift.
  destruct Hhost as [?|Hc]; [done|]. pose proof (hc_binding Hc _ Ec) as Hok. by rewrite Eb in Hok.
Qed.

(** The offsets of an attempt that started within the horizon. *)
Lemma offset_sum t (o : option Duration) :
  P ∨ t <= horizon → P ∨ (∀ offset, o = Some offset → offset <= horizon) →
  P ∨ ∀ b, o = Some b → t + b <= 3 * horizon.
Proof. intros [?|Ht] [?|Ho]; [by left..|right]. intros b Hb. specialize (Ho b Hb). lia. Qed.

(** The attempt that ends the run, whatever it recorded. *)
Lemma final_record log r loop loop' started backend terminal deadline :
  loop_inv log loop → ar_number r = N.of_nat (length log) + 1 → ar_kind r = lp_kind loop →
  lp_history loop' = history_of (log ++ [r]) → lp_aggregates loop' = aggregates_of (log ++ [r]) →
  su_restarts_launched (summary_of (lp_coordinator loop')) = N.of_nat (length log) →
  wp P (conclude host started backend terminal loop' deadline) has_record.
Proof.
  intros [] Hn Hk Eh Ea El. destruct (coordinator_ok_summary _ _ li_coordinator0) as [_ Hb].
  eapply wp_conclude with (restarts := log) (final := [r]); [done..| | |];
    [by apply numbered_snoc; rewrite ?Hk|done|by exists log, [r]].
Qed.

Lemma wp_failed_attempt log loop started attempt_started error run_origin work_expires :
  loop_inv log loop → P ∨ attempt_started <= horizon →
  let context := attempt_context request run_origin work_expires attempt_started loop in
  error_ok context error →
  wp P (failed_attempt platform host request started attempt_started context loop error) has_record.
Proof.
  intros Hinv Ht context Herr. unfold failed_attempt. destruct (_ || _) eqn:Eout.
  - apply wp_bind, wp_elapsed. intros t _. apply wp_bind, wp_outside; [apply Hinv|]. intros evidence Hev.
    eapply wp_conclude_outside; [done|].
    assert (P ∨ is_Some (cx_supervision_deadline_remaining context)) as [?|Hrem]; [|by left|].
    + apply orb_true_iff in Eout as [Ecode%bool_decide_eq_true|Es%sealed_deadline_remaining]; [|by right].
      destruct Herr as [?|[_ Hc]]; [by left|right]. by apply Hc.
    + right. apply remaining_some in Hrem as [??]. by apply Hev.
  - rewrite (li_history _ _ Hinv), (li_aggregates _ _ Hinv). apply wp_bind, wp_next_number. intros Hlen.
    apply wp_bind, wp_guard. intros _.
    apply wp_bind, wp_count_authorized, wp_bind, wp_failed_enforcement. intros enforcement.
    apply wp_bind, wp_add_optional; [apply offset_sum; [done|destruct Herr as [?|[? _]]; [by left|by right]]|].
    intros authorized _. apply wp_bind, wp_elapsed. intros finished _. apply wp_bind, wp_append; [done..|].
    eapply final_record; [exact Hinv| | |reflexivity|reflexivity|]; [reflexivity..|].
    apply (coordinator_ok_summary _ _ (li_coordinator _ _ Hinv)).
Qed.

Lemma wp_drift log loop selected observed fields attempt number attempt_started finished targets_authorized Q :
  loop_inv log loop → attempt_ok attempt → P ∨ attempt_started <= horizon →
  N.of_nat (length log) + 1 < 2 ^ 64 → number = N.of_nat (length log) + 1 →
  (∀ ex, has_record ex → Q ex) →
  wp P (finish_backend_selection_drift (W := W) selected observed fields (p_metric (rq_policy request)) attempt
          number (lp_kind loop) attempt_started finished (lp_history loop) (lp_aggregates loop)
          (summary_of (lp_coordinator loop)) targets_authorized) Q.
Proof.
  intros Hinv [_ Hb] Ht Hlen Hn HQ. unfold finish_backend_selection_drift.
  rewrite (li_history _ _ Hinv), (li_aggregates _ _ Hinv).
  apply wp_bind, wp_add_optional; [apply offset_sum; [done|destruct Hb as [?|[_ ?]]; [by left|by right]]|].
  intros authorized _. apply wp_bind, wp_add_durations.
  { destruct Ht as [?|Ht]; [by left|]. destruct Hb as [?|[Hd _]]; [by left|right; lia]. }
  apply wp_bind, wp_append; [done..|]. apply wp_lift_failure.
  intros ex E. apply execution_new_fields in E as (E1 & E2 & E3 & E4 & E5). apply HQ.
  destruct (coordinator_ok_summary _ _ (li_coordinator _ _ Hinv)) as [Hl Hbud].
  eexists log, [_]. constructor; try eassumption; [simpl; lia|apply Hinv| | |by rewrite E3].
  - apply numbered_snoc; [apply Hinv|done|apply Hinv].
  - by rewrite E4, E5.
Qed.

Definition turn_ok (log : list AttemptRecord) (next : Turn) : Prop :=
  match next with
  | Return ex => has_record ex
  | Again loop => ∃ r, loop_inv (log ++ [r]) loop ∧ N.of_nat (length log) + 1 < 2 ^ 64
  end.

Lemma wp_completed_attempt log loop started attempt_started attempt :
  loop_inv log loop → P ∨ attempt_started <= horizon → attempt_ok attempt →
  wp P (completed_attempt exp2 platform host request started attempt_started loop attempt) (turn_ok log).
Proof.
  intros Hinv Ht Hok. pose proof Hok as [Hlaunch Hb]. unfold completed_attempt.
  apply wp_bind, (wp_mono _ _ origin_ok).
  2:{ destruct (lp_origin loop) as [o|] eqn:Eo; [apply wp_ret; rewrite <- Eo; apply Hinv|].
      destruct (xe_authorization_offset _) as [offset|] eqn:Ex; [|apply wp_ret; by right].
      assert (P ∨ attempt_started + offset <= 2 * horizon) as Hsum.
      { destruct Ht as [?|Ht]; [by left|]. destruct Hb as [?|[_ Ho]]; [by left|right]. specialize (Ho _ eq_refl). lia. }
      apply wp_bind, wp_add_durations; [destruct Hsum; [by left|right; lia]|]. apply wp_ret.
      destruct Hsum; [by left|right]. by intros ? [= <-]. }
  intros origin Horigin. destruct (drift_of _ _ _) as [[selected fields]|].
  - apply wp_bind, wp_count_authorized, wp_bind. rewrite (li_history _ _ Hinv) at 1.
    apply wp_next_number. intros Hlen. apply wp_bind, wp_elapsed. intros finished _.
    apply wp_bind. eapply wp_drift; eauto. intros ex Hex. by apply wp_ret.
  - apply wp_bind, wp_count_authorized, wp_bind. rewrite (li_history _ _ Hinv) at 1.
    apply wp_next_number. intros Hlen. apply wp_bind.
    eapply wp_decide_restart; [apply Hinv|done|]. intros d Hd.
    rewrite (li_history _ _ Hinv), (li_aggregates _ _ Hinv).
    apply wp_bind, wp_add_optional; [apply offset_sum; [done|destruct Hb as [?|[_ ?]]; [by left|by right]]|].
    intros authorized _. apply wp_bind, wp_add_durations.
    { destruct Ht as [?|Ht]; [by left|]. destruct Hb as [?|[Hdur _]]; [by left|right; lia]. }
    apply wp_bind, wp_elapsed. intros finished _. apply wp_bind, wp_append; [done..|].
    unfold decided_ok in Hd. destruct (dc_stop d) eqn:Es.
    + apply wp_bind. eapply wp_mono; [|eapply final_record; [exact Hinv| | |reflexivity|reflexivity|]; done].
      intros ex Hex. by apply wp_ret.
    + apply wp_ret. eexists. split; [|done]. destruct Hd as (Hco & _ & Hkind & Hsafe & c & Htrig & Hsel).
      constructor; cbn; try done.
      * rewrite count_if_app, (li_targets _ _ Hinv). cbn. rewrite N.add_0_r, Hlaunch. done.
      * apply numbered_snoc; [apply Hinv|done|apply Hinv].
      * split; [done|]. by destruct log.
      * apply Forall_app. split; [apply Hinv|]. apply Forall_singleton. cbn.
        destruct (ln_target_released _) eqn:Erel in Htrig; [|done].
        split_and!; [by rewrite Hlaunch|done|]. by eexists _, c.
      * rewrite length_app. cbn. by rewrite Nat2N.inj_add.
Qed.

Lemma wp_turn log loop started run_origin work_expires :
  loop_inv log loop → wp P (turn exp2 platform host request started run_origin work_expires loop) (turn_ok log).
Proof.
  intros Hinv. unfold turn. apply wp_bind, wp_elapsed. intros t Ht. destruct (_ && _) eqn:Eexp.
  - apply wp_bind, wp_outside; [apply Hinv|]. intros evidence Hev.
    apply wp_bind. eapply wp_mono; [|eapply wp_conclude_outside; [done|]].
    + intros ex Hex. by apply wp_ret.
    + right. apply andb_true_iff in Eexp as [_ Er%bool_decide_eq_true]. cbn in Er.
      destruct (remaining_some (lp_origin loop) t) as [??]; [eauto|]. by apply Hev.
  - intros w. pose proof (execute_attempt_ok (attempt_context request run_origin work_expires t loop) w) as Hr.
    destruct (execute_attempt _ _ _ _ _) as [w' [attempt|error]]; cbn [snd] in Hr.
    + by apply wp_completed_attempt.
    + refine (wp_bind P _ _ _ _ w'). eapply wp_mono; [|by eapply wp_failed_attempt].
      intros ex Hex. by apply wp_ret.
Qed.

(** ** The loop and the entry points *)

(** The restarts a policy allows; the attempt counter bounds an unlimited one. *)
Definition restart_budget : N :=
  match rq_restart request with
  | RestartNever => 0
  | RestartOnLimits settings =>
      match rs_limit settings with LimitUnlimited => u64_max | LimitCount count => count end
  end.

Definition run_ok (fuel : nat) (made : N) (o : option SupervisionExecution) : Prop :=
  match o with Some ex => has_record ex | None => N.of_nat fuel + made <= restart_budget end.

Lemma loop_inv_budget log loop :
  loop_inv log loop → N.of_nat (length log) < 2 ^ 64 → N.of_nat (length log) <= restart_budget.
Proof.
  intros Hinv Hlen. destruct (coordinator_ok_summary _ _ (li_coordinator _ _ Hinv)) as [_ Hb].
  unfold within_budget, restart_budget in *. destruct (rq_restart request) as [|settings]; [lia|].
  destruct (rs_limit settings); cbn in Hb; [unfold u64_max; lia|done].
Qed.

Lemma wp_supervise_loop fuel started run_origin work_expires : ∀ log loop,
  loop_inv log loop → N.of_nat (length log) < 2 ^ 64 →
  wp P (supervise_loop exp2 platform host fuel request started run_origin work_expires loop)
    (run_ok fuel (N.of_nat (length log))).
Proof.
  induction fuel as [|fuel IH]; intros log loop Hinv Hlen.
  { apply wp_ret. cbn. by eapply loop_inv_budget. }
  cbn [supervise_loop]. apply wp_bind. eapply wp_mono; [|by apply (wp_turn log)].
  intros [ex|next] Hnext; [by apply wp_ret|]. destruct Hnext as (r & Hinv' & Hlen').
  assert (N.of_nat (length (log ++ [r])) = N.of_nat (length log) + 1) as El
    by (rewrite length_app; cbn; lia).
  eapply wp_mono; [|apply (IH (log ++ [r])); [done|lia]].
  intros [ex|]; cbn; [done|lia].
Qed.

Lemma initial_coordinator_ok coordinator :
  initial_coordinator exp2 (rq_restart request) = Ok coordinator → coordinator_ok 0 coordinator.
Proof.
  unfold initial_coordinator. destruct (rq_restart request) as [|settings] eqn:Er.
  - intros [= <-]. by split.
  - destruct (RestartCoordinator_new exp2 settings) as [co|] eqn:Ec; [|done]. intros [= <-].
    pose proof (new_inv _ _ _ Ec) as [Hinv Habs]. exists settings. split_and!; try done.
    unfold RestartCoordinator_new, RestartController_new in Ec. Prelude.run_ok. done.
Qed.

Lemma initial_loop_inv coordinator backend run_origin :
  coordinator_ok 0 coordinator → loop_inv [] (initial_loop coordinator backend run_origin).
Proof.
  intros Hco. constructor; try done. right. destruct run_origin; cbn; [|done].
  intros o [= <-]. unfold Duration_ZERO. lia.
Qed.

Lemma wp_pre_attempt started loop :
  loop_inv [] loop → wp P (pre_attempt_deadline host request started loop) has_record.
Proof.
  intros Hinv. apply wp_bind, wp_elapsed. intros observed _. apply wp_bind, wp_lift_failure. intros ev _.
  apply wp_lift_failure. intros ex E. apply execution_new_fields in E as (E1 & E2 & E3 & E4 & E5).
  destruct (coordinator_ok_summary _ _ (li_coordinator _ _ Hinv)) as [Hl Hbud].
  exists [], []. constructor; try done; [simpl; lia|rewrite E1; apply Hinv|rewrite E2; apply Hinv|by rewrite E3].
Qed.

Lemma wp_continuous_nanos Q : (∀ t, Q t) → wp P (continuous_nanos host) Q.
Proof. intros HQ w. unfold continuous_nanos. by destruct (h_continuous_nanos _ _ _) as [w' [t|]]; cbn. Qed.
Lemma wp_run_clock supplied started Q : (∀ c, Q c) → wp P (run_clock platform host supplied started) Q.
Proof.
  intros HQ. unfold run_clock. case_bool_decide; [|by apply wp_ret].
  apply wp_bind. assert (∀ o, wp P (t ← continuous_nanos host;
    match checked_sub started (t - o) with
    | Some started => mret (Some o, started)
    | None => fail (clock_error "run origin exceeds local timing range")
    end) Q) as Htail.
  { intros o. apply wp_bind, wp_continuous_nanos. intros t. destruct (checked_sub _ _); [by apply wp_ret|].
    by apply wp_lift. }
  destruct supplied; [apply wp_ret, Htail|apply wp_continuous_nanos; intros; apply Htail].
Qed.

Lemma wp_supervise_with_origin fuel backend supplied :
  wp P (supervise_with_origin exp2 platform host fuel request backend supplied) (run_ok fuel 0).
Proof.
  apply wp_bind, wp_now. intros started _. apply wp_bind, wp_run_clock. intros [run_origin started'].
  apply wp_bind, wp_lift_failure. intros work _. apply wp_bind, wp_lift_failure. intros coordinator Hco.
  apply initial_coordinator_ok, (initial_loop_inv _ backend run_origin) in Hco. case_bool_decide.
  - apply wp_bind. eapply wp_mono; [|by apply wp_pre_attempt]. intros ex Hex. by apply wp_ret.
  - by apply (wp_supervise_loop fuel _ _ _ []).
Qed.

Lemma wp_os_call call f Q : Q () → wp P (os_call (W := W) call f) Q.
Proof. intros HQ w. unfold os_call. by destruct (call w) as [w' [[]|]]. Qed.

Lemma wp_context_supervise fuel origin :
  wp P (context_supervise exp2 platform host fuel origin request) (run_ok fuel 0).
Proof.
  intros w. unfold context_supervise.
  assert (wp P (backend ← lift_failure id (validate_resolved_backend request);
      supervise_with_origin exp2 platform host fuel request backend (Some origin)) (run_ok fuel 0)) as Hr
    by (apply wp_bind, wp_lift_failure; intros; apply wp_supervise_with_origin).
  specialize (Hr w). revert Hr. match goal with |- context [snd (?m w)] => destruct (m w) as [w' [ex|[e|p]]] end;
    cbn [snd]; intros Hr; [| |done]; destruct (h_finish _ host w') as [w'' [[]|]]; done.
Qed.

Lemma wp_supervise fuel : wp P (supervise exp2 platform host fuel request) (run_ok fuel 0).
Proof.
  pose proof (wp_context_supervise fuel) as Hctx. pose proof (wp_supervise_with_origin fuel) as Horg.
  unfold supervise, macos_supervise_from. destruct platform.
  2:{ apply wp_bind, wp_continuous_nanos. intros origin. apply wp_bind, wp_os_call, wp_bind.
      unfold validate_origin. apply wp_bind, wp_continuous_nanos. intros t.
      destruct (t <? origin); [by apply wp_lift|]. apply wp_ret. apply wp_bind. apply wp_os_call, Hctx. }
  4:{ by apply wp_lift. }
  all: apply wp_bind, wp_lift_failure; intros backend _; apply wp_bind, wp_os_call, Horg.
Qed.
End Run.

(** ** Properties *)

(** C1: whatever the host answers, the record the supervisor returns is the view of
    the log of its attempts: the history, the counters and the authorized targets
    are those of the log; every attempt that a restart followed had released its
    target, ended in a limit that the policy selects and left a safe cleanup proof;
    there are no more restarts than the policy allows, the summary counts them, at most one
    attempt follows the last, and the attempts are numbered from one. *)
Theorem supervision_refines_log `{Externals} (exp2 : f64 → f64) (platform : Platform) {W : Type} (host : Host W)
    (request : SupervisorRequest) (fuel : nat) (w : W) (ex : SupervisionExecution) :
  snd (supervise exp2 platform host fuel request w) = Ok (Some ex) →
  ∃ restarts final, run_record request restarts final ex.
Proof.
  intros E. pose proof (wp_supervise exp2 platform host request True (or_introl I) fuel w) as Hw.
  rewrite E in Hw. exact Hw.
Qed.

(** C3: the supervisor ends: with one iteration more than the restarts of the policy
    (than the range of the attempt counter, for an unlimited policy) the loop never
    runs out, for every host, every back end and every interruption. *)
Theorem supervision_terminates `{Externals} (exp2 : f64 → f64) (platform : Platform) {W : Type} (host : Host W)
    (request : SupervisorRequest) (fuel : nat) (w : W) :
  restart_budget request < N.of_nat fuel →
  snd (supervise exp2 platform host fuel request w) ≠ Ok None.
Proof.
  intros Hfuel E. pose proof (wp_supervise exp2 platform host request True (or_introl I) fuel w) as Hw.
  rewrite E in Hw. cbn in Hw. lia.
Qed.

(** C4: with that many iterations a host that keeps its bounds always gets an
    answer, a record or an error: no deadline is missing its evidence, no wait its
    coordinator, no sum of durations overflows. *)
Theorem supervision_answers `{Externals} (exp2 : f64 → f64) (platform : Platform) {W : Type}
    (host : Host W) (request : SupervisorRequest) (fuel : nat) (w : W) :
  host_contract host request → restart_budget request < N.of_nat fuel →
  (∃ ex, snd (supervise exp2 platform host fuel request w) = Ok (Some ex)) ∨
  (∃ error, snd (supervise exp2 platform host fuel request w) = Err (Failed error)).
Proof.
  intros Hc Hfuel. pose proof (wp_supervise exp2 platform host request False (or_intror Hc) fuel w) as Hw.
  destruct (snd _) as [[ex|]|[error|message]]; [by left; eexists| |by right; eexists|done].
  cbn in Hw. lia.
Qed.

(** ** A run with two restarts *)

Module SupervisorExamples.
Export ErrorExamples.

Definition sample_info : BackendInfo :=
  {| bi_name := "linux-cgroup-v2"; bi_containment_supported := true; bi_memory_supported := true;
     bi_class := "kernel"; bi_metric := "cgroup"; bi_hard_limit := true; bi_startup_containment := "gated";
     bi_limitations := [];
     bi_boundary_support :=
       {| bs_standard := {| bc_class := Class_Standard; bc_mechanism := "cgroup-v2"; bc_target_gated := true;
            bc_boundary_verified_before_authorization := true; bc_target_can_reconfigure_boundary := true;
            bc_frontend_loss_cleanup_authority := false; bc_workload_empty_proof := true;
            bc_limitations := [] |};
          bs_sealed := SealedUnavailable "not installed" [] |} |}.
Definition standard_launch : LaunchEvidence :=
  {| ln_mechanism := "installed-cli-launcher-release-gate"; ln_target_released := true;
     ln_containment_verified_before_authorization := true;
     ln_guardian_started_before_authorization := true; ln_target_spawn_error_reported := false;
     ln_boundary_requested := Standard; ln_boundary_effective := Class_Standard;
     ln_boundary_assignment_verified := false; ln_boundary_reconfiguration_denied := false;
     ln_inherited_resources_restricted := false; ln_frontend_loss_cleanup_authority_verified := false |}.
Definition limit_outcome : RunOutcome :=
  LimitExceeded (ByteSize_from_bytes 1024) None None
    {| limit_backend := "linux-cgroup-v2"; limit_metric := "cgroup"; limit_detail := "oom" |} None clean_cleanup.
Definition sample_execution (outcome : RunOutcome) : Execution :=
  {| xe_private_execution := None; xe_policy_enforcement := Enforcement_LegacyUnspecified;
     xe_outcome := outcome; xe_backend := sample_info; xe_child_pid := Some 7; xe_runtime := None;
     xe_duration := from_millis 900; xe_authorization_offset := Some (from_millis 10);
     xe_launch := standard_launch; xe_restart_safety := SampleRun.safe_proof;
     xe_boundary_detail := Mechanism_Standard "linux-cgroup-v2" |}.

(** The world is the time and the number of attempts; the first two hit the limit. *)
Definition sample_host : Host (Duration * nat) :=
  {| h_now := λ w, (w, N.min (fst w) horizon);
     h_continuous_nanos := λ w, (w, Ok (fst w));
     h_signal_take := λ w, (w, false);
     h_launch_runtime := λ w, (w, Ok ());
     h_install := λ w, (w, Ok ());
     h_finish := λ w, (w, Ok ());
     h_wait := λ d w, ((fst w + d, snd w), Ok None);
     h_run := λ _ _ _ w, ((fst w + from_secs 1, S (snd w)),
       Ok (sample_execution (if (snd w <? 2)%nat then limit_outcome
                             else Exited (ExitCode 0) None clean_cleanup))) |}.
Definition sample_request : SupervisorRequest :=
  {| rq_policy := Policy_new (ByteSize_from_bytes 1024); rq_restart := RestartOnLimits sample_settings;
     rq_command := CommandSpec_new "work"; rq_memcordon_executable := Some "memcordon"%string;
     rq_resolved_backend := None |}.
#[local] Abbreviation sample_run := (supervise unit_exp2 Linux sample_host 3 sample_request (0, 0%nat)).

Lemma sample_contract : host_contract sample_host sample_request.
Proof.
  constructor; cbn.
  - intros w. apply N.le_min_r.
  - discriminate.
  - intros _ _ w execution [= <-]. cbn. split; [done|]. intros offset [= <-]. done.
  - discriminate.
  - discriminate.
Qed.

Lemma sample_launches :
  match snd sample_run with Ok (Some ex) => su_restarts_launched (ex_restart ex) =? 2 | _ => false end = true.
Proof. vm_compute. reflexivity. Qed.

Lemma supervision_refines_log_witness :
  ∃ ex restarts final, snd sample_run = Ok (Some ex) ∧ run_record sample_request restarts final ex ∧
    length restarts = 2%nat.
Proof.
  pose proof sample_launches as El. destruct (snd sample_run) as [[ex|]|] eqn:E; [|discriminate El..].
  destruct (supervision_refines_log unit_exp2 Linux sample_host sample_request 3 (0, 0%nat) ex E)
    as (restarts & final & Hr).
  exists ex, restarts, final. split; [reflexivity|]. split; [exact Hr|].
  apply N.eqb_eq in El. pose proof (rr_launched _ _ _ _ Hr). lia.
Defined.

Lemma supervision_terminates_witness :
  restart_budget sample_request = 2 ∧ snd (supervise unit_exp2 Linux sample_host 3 sample_request (0, 0%nat)) ≠ Ok None.
Proof.
  split; [reflexivity|]. exact (supervision_terminates unit_exp2 Linux sample_host sample_request 3 (0, 0%nat) eq_refl).
Defined.

Lemma supervision_answers_witness :
  (∃ ex, snd (supervise unit_exp2 Linux sample_host 3 sample_request (0, 0%nat)) = Ok (Some ex)) ∨
  (∃ error, snd (supervise unit_exp2 Linux sample_host 3 sample_request (0, 0%nat)) = Err (Failed error)).
Proof.
  exact (supervision_answers unit_exp2 Linux sample_host sample_request 3 (0, 0%nat) sample_contract eq_refl).
Defined.
End SupervisorExamples.
